(* ===== verification/_CoqProject ===== *)
-Q . S2P
Prelude.v
Core.v
Extents.v
CacheManager.v
BlockCache.v
CacheTasks.v
CacheTasksProps.v
Crypto.v
ObjectStore.v
Repository.v
Locks.v
Server.v
Data.v
DataSpec.v
DataWrite.v
DataRead.v
Example.v
DataProps.v
FsStore.v
FsProps.v
FsFiles.v
Gc.v
Nodes.v
Places.v
Dav.v
DavProps.v
DavExample.v
WriteLog.v
Mount.v
MountFacts.v
MountRecovery.v
FakeClient.v
MountExample.v
MountTasks.v
MountTasksProps.v
Kernel.v
KernelProps.v
KernelExample.v
HttpClient.v
HttpProps.v
HttpRetry.v
HttpExample.v
KernelHttp.v
MountTasksExample.v
Versions.v
Auth.v
Router.v
RouterProps.v
Errors.v
Wire.v
Retry.v
Backoff.v
Postgres.v
PostgresFacts.v
PostgresProps.v
PostgresQueries.v
PostgresExample.v
Contract.v
ContractProps.v
PgLocks.v
PgLocksProps.v
PgLocksExample.v
PgSchema.v
PgSchemaProps.v
PgSchemaExample.v
Discord.v
DiscordProps.v
DiscordUp.v
DiscordExample.v
DiscordQueue.v
DiscordQueueProps.v
Config.v
ConfigProps.v
FuseMain.v
FuseMainProps.v
FuseMainExample.v
Cli.v
CliProps.v
CliExample.v
Findings.v
