(* ===== verification/Prelude.v ===== *)
(** * DCFS: a verification development

    DCFS is a network file system: a server keeps a tree of nodes and the versions of
    each file in a metadata repository, and the contents, cut into parts and sealed
    with an AEAD, in an object store; mounts read and write files through the server's
    HTTP API, buffer what is written in a write log and cache what is read. This library
    models the server, its stores and the mount as executable definitions that follow
    the Rust sources under [src/crates/] function by function, and proves what they
    promise.

    ** The parts and where they are modelled

    Shared and local:
    - [Prelude] (this file): results, panics and machine integers; bytes and Rust's
      slice operations; the iteration order of a [HashMap] as a parameter
      ([HashOrder]); the tactics and hint databases of the library.
    - [Core]: [dcfs-core]'s chunk planner ([Chunk]), file names ([Name]), nodes
      ([NodeModel]) and version states ([Version]).
    - [Retry]: the retry loops of [dcfs-core/src/retry.rs] and [dcfs-db/src/postgres.rs].
    - [Backoff]: how long the loops pause, [RetryConfig] of [dcfs-core/src/retry.rs] and of
      [dcfs-discord/src/retry.rs], in binary64 arithmetic.
    - [Errors]: [dcfs-core/src/errors.rs] ([CoreErrors]) and [ids.rs] ([Ids]), and the contexts
      of the server's errors ([ServerErrors]).
    - [Wire]: [dcfs-protocol], the messages between mounts and the server as JSON values, and
      the body of an error.
    - [Extents]: [dcfs-cache/src/dirty.rs], the ranges of a file that were changed.
    - [CacheManager]: [dcfs-cache]'s entries ([Entry]) and manager with its eviction
      ([Manager]); the operations of [ThreadSafeCacheManager], each of which holds the
      lock throughout, are the steps of a sequential machine.

    The server:
    - [Crypto]: [dcfs-crypto/src/chunk.rs]. XChaCha20-Poly1305 and BLAKE3 are the class
      [Aead]; what is assumed of them is the class [AeadLaws], and [ToyAead] is an
      instance of both.
    - [ObjectStore]: the trait of [dcfs-objectstore/src/lib.rs] as the class
      [Store.ObjectStore]. What the server relies on are the laws
      [Store.ObjectStoreLaws]: of a store that is [sound], a put of at most [max_object]
      bytes (class [StoreLimit]) is read back until it is deleted; a deletion may be
      answered in any way. The in-memory store is an instance, and so is one whose
      deletions are refused or lost ([MoodyStore]); the server's theorems are proved against the class, and ask that a
      sealed part is within the limit ([Spec.chunk_fits]).
    - [Repository]: the records of [dcfs-db/src/repository.rs] ([Records]), every
      operation of [dcfs-db/src/memory.rs] ([MemoryRepo]), and the sorted manifest of a
      version ([Manifest]).
    - [Postgres]: every query of [dcfs-db/src/postgres.rs] as what it does to tables under
      the constraints of [src/migrations], in its transactions, with statements that are
      refused or whose answer is lost. [PostgresFacts], [PostgresProps] and
      [PostgresQueries] are the proofs, [PostgresExample] the witnesses.
    - [Contract]: the trait [MetadataRepository] as a class, the in-memory and the PostgreSQL
      repository as its instances, and what it promises about the tree of nodes as the class
      [RepositoryLaws]; [ContractProps] shows that both keep it.
    - [PgLocks]: the locks servers share through the database ([lock_node], [try_lock_gc],
      [LocalLocks], [NodeGuard]), with the pools of connections, as a machine of events;
      [PgLocksProps] the proofs about waiting and the pool, [PgLocksExample] runs.
    - [PgSchema]: [connect], [missing_tables], [ensure_schema], [migrate], the scripts of
      [src/migrations] as statements on a catalogue, and [main.rs]'s [open_postgres];
      [PgSchemaProps] the proofs, [PgSchemaExample] the witnesses.
    - [Locks]: the write locks of [dcfs-server/src/state.rs] with the requests that take
      and drop them, as a step relation.
    - [Server]: [AppError] and the state the handlers share; a handler is a function of
      the world ([AppState.World]: repository, store, locks, the clock and the supply of
      fresh UUIDs) that returns a value, an error or a panic ([AppState.M]).
    - [Data]: [handlers/data.rs], reading and writing bytes. [DataSpec] says what a file
      contains ([Spec.Repr]) and what holds of every state ([Spec.Inv]); [DataWrite] and
      [DataRead] are the proofs; [DataProps] states the theorems. [Example] is a small
      server with one file, for the witnesses.
    - [FsStore]: [dcfs-objectstore/src/fs.rs], over a directory whose file operations may
      fail; [FsProps] shows that it is an instance of the store laws, [FsFiles] has the
      server on it.
    - [Gc]: [gc.rs], a sweep of the garbage collector and the task that repeats it.
    - [Nodes]: [handlers/nodes.rs], the name space. [Places]: writing and syncing leave the
      entries of directories where they are.
    - [Versions]: [handlers/versions.rs], uploading a version part by part.
    - [Auth]: [auth.rs] and [handlers/sessions.rs], who may call the API.
    - [Router]: [lib.rs], the routes and layers between a request and its handler, with
      [handlers/ui.rs], [handlers/health.rs] and [handlers/objects.rs]; [RouterProps] the
      proofs.
    - [Dav]: [dav.rs], the WebDAV gateway over the handlers; the paths of the [dav-server]
      library are the class [DavPath] with the laws [DavPathLaws]. [DavProps] has the
      proofs, [DavExample] the witnesses.
    - [Config]: [config.rs] and the decisions of [main.rs]; [ConfigProps] the proofs.
    - [Cli]: [dcfs-cli/src/main.rs], the operator's command line ([config-check], [status],
      [put]), whose requests go through [Router]; [CliProps] the proofs, [CliExample] the
      witnesses.

    Discord:
    - [Discord]: [dcfs-discord]'s rate limits, client, locators and store, and the
      server's [locators.rs]. Discord is the class [Discord]: any answers, or none.
      [DiscordProps] proves what holds with the documented behaviour of Discord
      ([DiscordLaws]) whatever fails; [DiscordUp] that, for as long as every request and
      every locator call succeeds, the store is an instance of [Store.ObjectStoreLaws].
      [DiscordExample] has a Discord that is up and one that loses answers.
    - [DiscordQueue]: the requests of one client at once, with its semaphore and the limits
      they share, as a machine of events; [DiscordQueueProps] the proofs and two runs.

    The mount:
    - [BlockCache]: [dcfs-fuse/src/blockcache.rs], over a directory whose operations may
      fail. [CacheTasks]: its operations once more as programs of actions (a section under
      the mutex, a file operation, a fetch) that many tasks interleave; [CacheTasksProps]
      the proofs, that alone they are those of [BlockCache], and a run.
    - [WriteLog]: [dcfs-cache/src/journal.rs] and [dcfs-fuse/src/writelog.rs].
    - [Mount]: [dcfs-fuse/src/service.rs] over the class [ServerClient]; [MountFacts] and
      [MountRecovery] are the proofs, against the laws [ClientLaws]. [FakeClient] is
      [fake_client.rs], an instance of the laws; [MountExample] the witnesses.
    - [MountTasks]: the requests that read, write and flush files once more, as programs of
      actions that the tasks of a mount interleave, with the lock of the buffer;
      [MountTasksProps] the proofs, that alone they are those of [Mount], and a small logic for
      what a task does before, under and after the lock; [MountTasksExample] two runs.
    - [Kernel]: [dcfs-fuse/src/handle.rs] and [fs.rs], the requests of the kernel and the open
      handles; [KernelProps] the proofs, [KernelExample] the witnesses.
    - [FuseMain]: [dcfs-fuse/src/main.rs], the mount program with the directories of its host;
      [FuseMainProps] the proofs, [FuseMainExample] the witnesses.
    - [HttpClient]: [dcfs-fuse/src/client.rs], over a network that decides the fate of each
      attempt, calling the handlers above; [HttpProps] shows that it is an instance of
      [ClientLaws], [HttpRetry] what its retries do; [HttpExample] the witnesses.
      [KernelHttp]: reading a directory from the kernel's requests down to the server.

    - [Findings]: concrete runs that end where the comments or POSIX say otherwise. Other
      such runs are in the [Example] file of their component.

    ** What the theorems show

    - Files ([DataProps]): the specification of a file is a flat list of bytes. A write
      refines [write_flat] (overlay with zero-filled holes), a read refines [read_flat]
      for every completion order of the parallel fetches, what was written is read
      back, a commit changes no content, and no operation changes another file.
    - End to end ([HttpFacts], [KernelHttp], [DiscordUp]): as long as they succeed, writes,
      reads and fsyncs through the mount, over a network that loses requests and answers, act
      on flat files, and after an fsync the sealed parts in the server's store are those of
      the file; a directory is read whole; the same server on Discord gives back what was
      written while every request to Discord succeeds.
    - The mount ([MountFacts], [Recovery], [KernelFacts], [FuseMainFacts]): buffering is
      invisible, the kernel's requests act on flat files while none is refused, and what was
      accepted before a crash, with a write log that did not fail, is on the server before
      the next run mounts.
    - Concurrent requests of a mount ([MountTasksFacts]): writes take effect one at a time in
      the order they get the lock, and what is read of a file is what it was at a moment since
      the request was made.
    - Retried requests ([HttpRetry]): applied at most once; outages within the retries
      are not seen; refusals reach the kernel, each as its error.
    - The object store on Discord ([DiscordFacts]): whatever is lost or refused, a put that is
      reported as done is held until it is deleted, a deletion touches no other object and
      leaves no message behind without its locator; errors do not carry the token; requests at once keep to their permits and all come to an end
      ([DiscordQueueFacts]).
    - PostgreSQL ([PgFacts], [PgRefines], [PgQueries]): the schema holds through any
      sequence of methods and faults, methods are all or nothing, what they report is
      what [MemoryRepo] does on the same rows (for the methods of [PgRefines.Method]),
      listings are complete and ordered, the collector's search gives all of the garbage and
      nothing in use.
    - Any repository ([ContractFacts]): both repositories keep the contract of the trait about
      the tree of nodes.
    - Servers on one database ([PgLockFacts], [PgLockWaits], [PgSchemaFacts]): at most one
      request has the lock of a node, a request waits only for one that has it, locks use up
      connections; starting spares the tables of others, succeeds unless tables of its names
      are not as the migrations make them, and what starts has its tables and a root.
    - The object store in a directory ([FsFacts], [FsFiles]): objects are there whole or not
      at all, whatever fails; what was synced is read when the directory is opened again.
    - WebDAV ([DavFacts]): an open file is a flat file with a cursor; paths name what their
      names lead to; creating makes an empty file in a well-formed tree.
    - Garbage collection ([GcFacts]): exactly the unreferenced objects are collected, and
      a sweep changes no file that is stored whole and whose open writes are within the
      retention period, however the store answers deletions.
    - Sealing ([CryptoFacts]): round trip with the exact length, range reads equal to
      slicing, only sealed objects open, nonces are never shared.
    - Concurrency ([Locks], [VersionsFacts]): two requests for one file always get the
      same mutex; of two commits that expect the same state, one is refused.
    - Caches ([Extents], [ManagerFacts], [BlockCacheFacts]): the dirty ranges are a
      canonical form of the set of dirty positions; eviction is exact, ends, and never
      loses unsaved data; reading through the block cache gives the bytes of the version
      whatever fails on disk; invalidation is complete. Concurrent reads and invalidations
      ([CacheTasksFacts]) serve the same bytes in every interleaving, and all finish.
    - Name space ([Namespace]): deleting, renaming and resolving keep a well-formed tree
      of entries and do exactly what they say.
    - Access ([AuthFacts], [RouterFacts]): who is let in, the life of a session, Basic
      credentials; without one of them a request changes nothing and learns nothing; how a
      browser gets in and out.
    - Start ([ConfigFacts], [CliFacts]): what holds of every configuration that is accepted,
      of every server that runs, and of what [config-check] says about it.
    - Uploads ([CliFacts]): a [put] that reports success has published the local file, after
      the bytes of a partial upload it carried on with, and however it ends no other file or
      entry has changed.
    - Retrying ([RetryFacts], [BackoffFacts]): the loops end, within their bounds, with the
      answer of the last attempt; pauses double up to their limit, whatever overflows.
    - Messages ([WireFacts], [ErrorFacts]): what is sent is what is read, also from a peer that
      sends more; the context of an error can be read back from its text.
    - Core ([CoreFacts]): chunk plans tile the file; version life cycles are bounded.

    ** Conventions

    Integers are [Z] with the wrap-around of the release build written out ([u32], [u64],
    [i32], [i64], [+u], [-u], [*u]); UUIDs are [N]; times are [Z]. Asking for the time or
    a fresh UUID reads the next element of a sequence that is part of the world, so a
    statement holds for every clock and every supply. Error messages are kept where
    they are constant; messages formatted from a library's error keep their prefix.
    What may fail outside the program (files, the network, Discord, SQL statements) does
    so by a function from the number of the operation, so a statement holds for every
    pattern of failures.

    Fuel and bounds: the loops whose recursion is not structural carry a bound that their
    specification shows is enough: [Data.fetch_loop] one iteration per part and two to
    see the end, [Data.spawn_loop] the parts left, [Crypto.open_range_loop] the bytes
    fetched, [Manager.evict_loop] the entries and one, [Retry.retry_loop] the attempts
    allowed. A loop that runs out returns [None] or panics, which the theorems exclude.
    The retry loops of the clients recurse on the attempts left. [Mount.readdir] and
    [Mount.prefetch_all] take the number of pages, of files and of blocks to visit as an
    argument. Files of the mount's theorems are below [MAX_SIZE] = 2^62 bytes, so that
    offsets do not wrap.

    ** What is not modelled

    The text of JSON, what [put] and [status] print, how a row of a query becomes a record
    beyond its columns, and how a query is read from a URL: these are the work of libraries
    the sources only call. Requests that are dropped while they wait for the answer to a
    lock statement. The requests of a mount that change the name space or attributes, and the
    statements of a database connection, run one after another; so do the handlers of one
    server, apart from their locks. Logging and metrics have no effect on
    the state and are left out, except what is logged of an error. The rest of the
    repository is tests, the pages of the browser interface and build files. *)
From Stdlib Require Export ZArith Lia.
From Stdlib.Strings Require Export Byte.
From stdpp Require Export base numbers strings gmap fin_maps sorting list.

Declare Scope dcfs_scope.
Delimit Scope dcfs_scope with dcfs.
Open Scope Z_scope.

(** ** Strings *)

Lemma append_cons x a b : String x a +:+ b = String x (a +:+ b).
Proof. done. Qed.
Lemma append_assoc a b c : (a +:+ b) +:+ c = a +:+ (b +:+ c).
Proof. induction a as [|x a IH]; [done|]. by rewrite !append_cons, IH. Qed.

(** ** Results, errors and panics *)

(** Rust's [Result<A, E>]. *)
Inductive result (E A : Type) : Type :=
| Ok (a : A)
| Err (e : E).
Arguments Ok {E A} _.
Arguments Err {E A} _.

(** What a function that can also panic (an out-of-range slice, a capacity
    overflow) may end with instead of a value. *)
Inductive fault (E : Type) : Type :=
| Fail (e : E)
| Panic.
Arguments Fail {E} _.
Arguments Panic {E}.

#[global] Instance result_ret E : MRet (result E) := fun A a => Ok a.
#[global] Instance result_bind E : MBind (result E) := fun A B f r =>
  match r with Ok a => f a | Err e => Err e end.
#[global] Instance result_fmap E : FMap (result E) := fun A B f r =>
  match r with Ok a => Ok (f a) | Err e => Err e end.

(** [Option::ok_or]. *)
Definition ok_or {E A} (o : option A) (e : E) : result E A :=
  match o with Some a => Ok a | None => Err e end.

(** [Result::map_err]. *)
Definition map_err {E F A} (f : E -> F) (r : result E A) : result F A :=
  match r with Ok a => Ok a | Err e => Err (f e) end.

Definition is_ok {E A} (r : result E A) : bool :=
  match r with Ok _ => true | Err _ => false end.

(** ** Machine integers

    A [w]-bit integer is a [Z]; the functions below are the conversions and the
    arithmetic of the release profile, where [+], [-] and [*] wrap. *)

Definition u8 (x : Z) : Z := x mod 2 ^ 8.
Definition u32 (x : Z) : Z := x mod 2 ^ 32.
Definition u64 (x : Z) : Z := x mod 2 ^ 64.
Definition i32 (x : Z) : Z := (x + 2 ^ 31) mod 2 ^ 32 - 2 ^ 31.
Definition i64 (x : Z) : Z := (x + 2 ^ 63) mod 2 ^ 64 - 2 ^ 63.

Definition U64_MAX : Z := 2 ^ 64 - 1.

Definition wrapping_add (a b : Z) : Z := u64 (a + b).
Definition wrapping_sub (a b : Z) : Z := u64 (a - b).
Definition wrapping_mul (a b : Z) : Z := u64 (a * b).
Definition saturating_sub (a b : Z) : Z := Z.max 0 (a - b).
Definition saturating_add (a b : Z) : Z := Z.min U64_MAX (a + b).
Definition checked_mul (a b : Z) : option Z :=
  if a * b <=? U64_MAX then Some (a * b) else None.
Definition checked_sub (a b : Z) : option Z :=
  if b <=? a then Some (a - b) else None.
(** [u64::div_ceil]: the quotient, plus one when there is a remainder. *)
Definition div_ceil (a b : Z) : Z :=
  if 0 <? a mod b then a / b + 1 else a / b.

Notation "a '+u' b" := (wrapping_add a b) (at level 50, left associativity) : dcfs_scope.
Notation "a '-u' b" := (wrapping_sub a b) (at level 50, left associativity) : dcfs_scope.
Notation "a '*u' b" := (wrapping_mul a b) (at level 40, left associativity) : dcfs_scope.
Open Scope dcfs_scope.

Definition in_u64 (x : Z) : Prop := 0 <= x < 2 ^ 64.

(** ** Bytes and slices *)

Abbreviation bytes := (list byte).
Abbreviation ZERO := x00.

#[global] Instance byte_eq_decision : EqDecision byte := byte_eq_dec.
#[global] Instance byte_countable : Countable byte.
Proof. apply (inj_countable Byte.to_N Byte.of_N). apply Byte.of_to_N. Defined.

Definition byte_to_Z (b : byte) : Z := Z.of_N (Byte.to_N b).
Definition byte_of_Z (z : Z) : byte := default ZERO (Byte.of_N (Z.to_N (u8 z))).

(** [slice.len()]. *)
Definition len {A} (l : list A) : Z := Z.of_nat (length l).

(** Prefix and suffix by a [Z] count; the [Z.min] only keeps evaluation cheap
    when the count is far past the end. *)
Definition ztake {A} (n : Z) (l : list A) : list A := take (Z.to_nat (Z.min n (len l))) l.
Definition zdrop {A} (n : Z) (l : list A) : list A := drop (Z.to_nat (Z.min n (len l))) l.

(** The elements of [l] in the positions [a..b]. *)
Definition slice {A} (l : list A) (a b : Z) : list A := ztake (b - a) (zdrop a l).

(** [&l[a..b]]: [None] where Rust panics. *)
Definition slice_checked {A} (l : list A) (a b : Z) : option (list A) :=
  if (0 <=? a) && (a <=? b) && (b <=? len l) then Some (slice l a b) else None.

Definition zeroes (n : Z) : bytes := replicate (Z.to_nat n) ZERO.

(** [Vec::resize(n, 0)]. *)
Definition resize (l : bytes) (n : Z) : bytes := ztake n l ++ zeroes (n - len l).

(** [l[a..a + src.len()].copy_from_slice(src)], in range. *)
Definition splice {A} (l : list A) (a : Z) (src : list A) : list A :=
  ztake a l ++ src ++ zdrop (a + len src) l.

(** The byte at position [i], zero outside the list. *)
Definition getb (l : bytes) (i : Z) : byte :=
  if 0 <=? i then nth (Z.to_nat i) l ZERO else ZERO.

(** [n.to_le_bytes()] on [k] bytes, and [from_le_bytes]. *)
Fixpoint le_bytes (k : nat) (n : Z) : bytes :=
  match k with
  | O => []
  | S k' => byte_of_Z n :: le_bytes k' (n / 256)
  end.
Fixpoint from_le_bytes (l : bytes) : Z :=
  match l with
  | [] => 0
  | b :: l' => byte_to_Z b + 256 * from_le_bytes l'
  end.

(** ** Identifiers and maps *)

(** A UUID, as its 128-bit number. *)
Abbreviation Uuid := N.

(** [Uuid::as_bytes]: sixteen bytes, most significant first. *)
Definition uuid_bytes (u : Uuid) : bytes := rev (le_bytes 16 (Z.of_N u)).

(** The order in which a [HashMap] is iterated is unspecified. It is a
    parameter of every operation that iterates one, and all that is known of it
    is that each entry comes exactly once. *)
Class HashOrder : Type := {
  hm_iter : forall {K V} `{Countable K}, gmap K V -> list (K * V);
  hm_iter_perm : forall {K V} `{Countable K} (m : gmap K V), hm_iter m ≡ₚ map_to_list m;
}.

Definition hm_values `{HashOrder} {K V} `{Countable K} (m : gmap K V) : list V :=
  (hm_iter m).*2.

Section Order.
Context `{HashOrder} {K V : Type} `{Countable K}.

Lemma elem_of_hm_iter (m : gmap K V) k v : (k, v) ∈ hm_iter m <-> m !! k = Some v.
Proof. rewrite hm_iter_perm. apply elem_of_map_to_list. Qed.
Lemma elem_of_hm_values (m : gmap K V) v : v ∈ hm_values m <-> exists k, m !! k = Some v.
Proof.
  unfold hm_values. rewrite list_elem_of_fmap. split.
  - intros ([k v'] & -> & Hin%elem_of_hm_iter). by exists k.
  - intros [k Hk%elem_of_hm_iter]. by exists (k, v).
Qed.
End Order.

(** One order that qualifies, for evaluation. *)
#[export] Program Instance canonical_order : HashOrder | 100 := {
  hm_iter := fun K V _ _ m => map_to_list m;
}.
Next Obligation. done. Qed.

(** *** Sums over a map *)

Definition msum {K V} `{Countable K} (f : V -> Z) (m : gmap K V) : Z := map_fold (fun _ v acc => f v + acc) 0 m.
Arguments msum : simpl never.

Section Sums.
Context {K V : Type} `{Countable K} (f : V -> Z).
Implicit Types m : gmap K V.

Lemma msum_insert m k v : m !! k = None -> msum f (<[k := v]> m) = f v + msum f m.
Proof. intros. unfold msum. rewrite (map_fold_insert_L (fun _ v acc => f v + acc)); [done|intros; lia|done]. Qed.

Lemma msum_delete m k v : m !! k = Some v -> msum f m = f v + msum f (delete k m).
Proof. intros. unfold msum. rewrite (map_fold_delete_L (fun _ v acc => f v + acc) 0 k v m); [done|intros; lia|done]. Qed.

Lemma msum_replace m k v v' : m !! k = Some v -> msum f (<[k := v']> m) = f v' + msum f m - f v.
Proof.
  intros Hk. rewrite (msum_delete m k v) by done. rewrite <-insert_delete_eq, msum_insert; [lia|].
  apply lookup_delete_eq.
Qed.

Lemma msum_alter m k (g : V -> V) : (forall v, f (g v) = f v) -> msum f (alter g k m) = msum f m.
Proof.
  intros Hg. destruct (m !! k) as [v|] eqn:Hk.
  - replace (alter g k m) with (<[k := g v]> m); [rewrite (msum_replace m k v) by done; rewrite Hg; lia|].
    apply map_eq. intros j. rewrite lookup_insert, lookup_alter. case_decide; subst; [by rewrite Hk|done].
  - f_equal. apply map_eq. intros j. rewrite lookup_alter. case_decide; subst; [by rewrite Hk|done].
Qed.

Lemma msum_nonneg m : map_Forall (fun _ v => 0 <= f v) m -> 0 <= msum f m.
Proof.
  induction m as [|k v m Hk IH] using map_ind; intros Hm; [done|].
  rewrite msum_insert by done. apply map_Forall_insert in Hm as [? Hr]; [|done]. apply IH in Hr. lia.
Qed.

Lemma msum_elem m k v : map_Forall (fun _ v => 0 <= f v) m -> m !! k = Some v -> f v <= msum f m.
Proof.
  intros Hm Hk. rewrite (msum_delete m k v) by done.
  pose proof (msum_nonneg (delete k m) ltac:(by apply map_Forall_delete)). lia.
Qed.

End Sums.

(** ** Lemmas on lengths and positions *)

Create HintDb dcfs.
Create Rewrite HintDb zlen.
Create Rewrite HintDb zget.

(** Arithmetic with division and modulo by euclidean equations. *)

Ltac dlia := Z.div_mod_to_equations; nia.

Section Lengths.
Context {A : Type}.
Implicit Types l : list A.

Lemma len_nonneg l : 0 <= len l.
Proof. unfold len; lia. Qed.
Lemma len_nil : len (@nil A) = 0.
Proof. done. Qed.
Lemma len_cons x l : len (x :: l) = 1 + len l.
Proof. unfold len; simpl length; lia. Qed.
Lemma len_app l1 l2 : len (l1 ++ l2) = len l1 + len l2.
Proof. unfold len; rewrite length_app; lia. Qed.
Lemma len_nil_inv l : len l = 0 -> l = [].
Proof. destruct l; [done|]. unfold len; simpl; lia. Qed.
Lemma ztake_take n l : ztake n l = take (Z.to_nat n) l.
Proof.
  unfold ztake, len. destruct (decide (n <= Z.of_nat (length l))).
  - by rewrite Z.min_l.
  - rewrite Z.min_r by lia. rewrite Nat2Z.id. by rewrite !take_ge by lia.
Qed.
Lemma zdrop_drop n l : zdrop n l = drop (Z.to_nat n) l.
Proof.
  unfold zdrop, len. destruct (decide (n <= Z.of_nat (length l))).
  - by rewrite Z.min_l.
  - rewrite Z.min_r by lia. rewrite Nat2Z.id. by rewrite !drop_ge by lia.
Qed.
Lemma len_ztake n l : len (ztake n l) = Z.max 0 (Z.min n (len l)).
Proof. rewrite ztake_take; unfold len; rewrite length_take; lia. Qed.
Lemma len_zdrop n l : len (zdrop n l) = Z.max 0 (len l - Z.max 0 n).
Proof. rewrite zdrop_drop; unfold len; rewrite length_drop; lia. Qed.
Lemma len_slice l a b :
  len (slice l a b) = Z.max 0 (Z.min (b - a) (len l - Z.max 0 a)).
Proof. unfold slice. rewrite len_ztake, len_zdrop. lia. Qed.
Lemma len_splice l a (src : list A) :
  0 <= a -> a + len src <= len l -> len (splice l a src) = len l.
Proof.
  intros. unfold splice. rewrite !len_app, len_ztake, len_zdrop.
  pose proof (len_nonneg src). lia.
Qed.
Lemma ztake_0 n l : n <= 0 -> ztake n l = [].
Proof. intros. rewrite ztake_take. by replace (Z.to_nat n) with O by lia. Qed.
Lemma ztake_all n l : len l <= n -> ztake n l = l.
Proof. intros. rewrite ztake_take, take_ge; [done|]. unfold len in *; lia. Qed.
Lemma zdrop_0 n l : n <= 0 -> zdrop n l = l.
Proof. intros. rewrite zdrop_drop. by replace (Z.to_nat n) with O by lia. Qed.
Lemma zdrop_all n l : len l <= n -> zdrop n l = [].
Proof. intros. rewrite zdrop_drop, drop_ge; [done|]. unfold len in *; lia. Qed.
Lemma slice_all l : slice l 0 (len l) = l.
Proof. unfold slice. rewrite zdrop_0 by lia. apply ztake_all. lia. Qed.
Lemma slice_empty l a b : b <= a -> slice l a b = [].
Proof. intros. unfold slice. apply ztake_0. lia. Qed.
Lemma ztake_zdrop n l : ztake n l ++ zdrop n l = l.
Proof. rewrite ztake_take, zdrop_drop. apply take_drop. Qed.
Lemma ztake_app_l n l1 l2 : n <= len l1 -> ztake n (l1 ++ l2) = ztake n l1.
Proof. intros. rewrite !ztake_take. apply take_app_le. unfold len in *; lia. Qed.
Lemma zdrop_app_r n l1 l2 : len l1 <= n -> zdrop n (l1 ++ l2) = zdrop (n - len l1) l2.
Proof.
  intros. rewrite !zdrop_drop, drop_app_ge by (unfold len in *; lia).
  f_equal. unfold len in *. lia.
Qed.
Lemma slice_app_l l1 l2 a b : 0 <= a -> b <= len l1 -> slice (l1 ++ l2) a b = slice l1 a b.
Proof.
  intros. destruct (decide (b <= a)); [by rewrite !slice_empty by lia|].
  unfold slice. rewrite !ztake_take, !zdrop_drop.
  rewrite drop_app_le by (unfold len in *; lia).
  apply take_app_le. rewrite length_drop. unfold len in *. lia.
Qed.
Lemma slice_app_r l1 l2 a b :
  len l1 <= a -> slice (l1 ++ l2) a b = slice l2 (a - len l1) (b - len l1).
Proof.
  intros. unfold slice. rewrite zdrop_app_r by lia. f_equal. lia.
Qed.
Lemma slice_checked_Some l a b :
  0 <= a -> a <= b -> b <= len l -> slice_checked l a b = Some (slice l a b).
Proof.
  intros. unfold slice_checked.
  rewrite (proj2 (Z.leb_le 0 a)), (proj2 (Z.leb_le a b)), (proj2 (Z.leb_le b _)) by lia. done.
Qed.
Lemma slice_slice l a b c d :
  0 <= a -> 0 <= c -> d <= b - a -> slice (slice l a b) c d = slice l (a + c) (a + d).
Proof.
  intros. destruct (decide (d <= c)); [by rewrite !slice_empty by lia|].
  unfold slice. rewrite !ztake_take, !zdrop_drop.
  rewrite skipn_firstn_comm, drop_drop, take_take.
  rewrite <-Z2Nat.inj_add by lia. f_equal. lia.
Qed.
Lemma slice_split l a b c :
  0 <= a -> a <= b -> b <= c -> slice l a b ++ slice l b c = slice l a c.
Proof.
  intros. unfold slice. rewrite !ztake_take, !zdrop_drop.
  replace (Z.to_nat (c - a)) with (Z.to_nat (b - a) + Z.to_nat (c - b))%nat by lia.
  rewrite <-(take_take_drop (drop (Z.to_nat a) l)). f_equal.
  rewrite drop_drop. do 2 f_equal. lia.
Qed.
End Lengths.

#[export] Hint Rewrite @len_nil @len_cons @len_app @len_ztake @len_zdrop @len_slice : zlen.
#[export] Hint Resolve len_nonneg : dcfs.

Lemma len_zeroes n : len (zeroes n) = Z.max 0 n.
Proof. unfold len, zeroes. rewrite length_replicate. lia. Qed.
Lemma len_resize l n : len (resize l n) = Z.max 0 n.
Proof.
  unfold resize. rewrite len_app, len_ztake, len_zeroes.
  pose proof (len_nonneg l). lia.
Qed.
#[export] Hint Rewrite len_zeroes len_resize : zlen.

(** *** Bytes by position *)

Lemma getb_neg l i : i < 0 -> getb l i = ZERO.
Proof. intros. unfold getb. by rewrite (proj2 (Z.leb_gt 0 i)). Qed.
Lemma getb_pos l i : 0 <= i -> getb l i = nth (Z.to_nat i) l ZERO.
Proof. intros. unfold getb. by rewrite (proj2 (Z.leb_le 0 i)). Qed.
Lemma getb_over l i : len l <= i -> getb l i = ZERO.
Proof.
  intros. pose proof (len_nonneg l). rewrite getb_pos by lia.
  apply nth_overflow. unfold len in *. lia.
Qed.
Lemma getb_nil i : getb [] i = ZERO.
Proof. unfold getb. case_match; [|done]. by destruct (Z.to_nat i). Qed.
Lemma getb_app l1 l2 i :
  getb (l1 ++ l2) i = if i <? len l1 then getb l1 i else getb l2 (i - len l1).
Proof.
  destruct (Z.ltb_spec i (len l1)).
  - destruct (decide (i < 0)); [by rewrite !getb_neg by lia|].
    rewrite !getb_pos by lia. apply app_nth1. unfold len in *. lia.
  - pose proof (len_nonneg l1). rewrite !getb_pos by lia.
    rewrite app_nth2 by (unfold len in *; lia). f_equal. unfold len in *. lia.
Qed.
Lemma getb_ztake l n i : getb (ztake n l) i = if i <? n then getb l i else ZERO.
Proof.
  destruct (Z.ltb_spec i n).
  - destruct (decide (i < 0)); [by rewrite !getb_neg by lia|].
    destruct (decide (len l <= i)).
    { rewrite !getb_over; [done|done|]. rewrite len_ztake. lia. }
    rewrite <-(ztake_zdrop n l) at 2. rewrite getb_app, len_ztake.
    by rewrite (proj2 (Z.ltb_lt i _)) by lia.
  - destruct (decide (i < 0)); [by rewrite getb_neg by lia|].
    apply getb_over. rewrite len_ztake. lia.
Qed.
Lemma getb_zdrop l n i : 0 <= n -> getb (zdrop n l) i = if 0 <=? i then getb l (n + i) else ZERO.
Proof.
  intros. destruct (Z.leb_spec 0 i); [|by rewrite getb_neg by lia].
  destruct (decide (len l <= n)).
  { rewrite zdrop_all by lia. rewrite !getb_over; [done|lia|]. rewrite len_nil. lia. }
  rewrite <-(ztake_zdrop n l) at 2. rewrite getb_app, len_ztake.
  rewrite (proj2 (Z.ltb_ge _ _)) by lia. f_equal. lia.
Qed.
Lemma getb_slice l a b i :
  0 <= a -> getb (slice l a b) i = if (0 <=? i) && (i <? b - a) then getb l (a + i) else ZERO.
Proof.
  intros. unfold slice. rewrite getb_ztake, getb_zdrop by lia.
  destruct (Z.leb_spec 0 i), (Z.ltb_spec i (b - a)); done.
Qed.
Lemma getb_zeroes n i : getb (zeroes n) i = ZERO.
Proof.
  unfold zeroes, getb. destruct (0 <=? i); [|done].
  generalize (Z.to_nat i), (Z.to_nat n). intros k m. revert k.
  induction m as [|m IH]; intros [|k]; simpl; auto.
Qed.
Lemma getb_resize l n i : getb (resize l n) i = if i <? n then getb l i else ZERO.
Proof.
  unfold resize. rewrite getb_app, getb_zeroes, getb_ztake, len_ztake.
  destruct (Z.ltb_spec i n), (Z.ltb_spec i (Z.max 0 (Z.min n (len l)))); try done.
  destruct (decide (i < 0)); [by rewrite getb_neg by lia|].
  by rewrite getb_over by lia.
Qed.
Lemma getb_splice l a src i :
  0 <= a -> a <= len l ->
  getb (splice l a src) i = if (a <=? i) && (i <? a + len src) then getb src (i - a) else getb l i.
Proof.
  intros. pose proof (len_nonneg src). unfold splice.
  rewrite !getb_app, getb_ztake, getb_zdrop, len_ztake by lia.
  destruct (Z.ltb_spec i (Z.max 0 (Z.min a (len l)))).
  - rewrite (proj2 (Z.leb_gt a i)), (proj2 (Z.ltb_lt i a)) by lia. done.
  - rewrite (proj2 (Z.leb_le a i)) by lia. simpl.
    destruct (Z.ltb_spec i (a + len src)).
    + rewrite (proj2 (Z.ltb_lt _ _)) by lia. f_equal. lia.
    + rewrite (proj2 (Z.ltb_ge _ _)), (proj2 (Z.leb_le _ _)) by lia. f_equal. lia.
Qed.
#[export] Hint Rewrite getb_app getb_ztake getb_zeroes getb_resize : zget.

(** Two byte lists of the same length that agree at every position are equal. *)
Lemma getb_ext l1 l2 :
  len l1 = len l2 -> (forall i, 0 <= i < len l1 -> getb l1 i = getb l2 i) -> l1 = l2.
Proof.
  intros Hl Hg. apply (nth_ext _ _ ZERO ZERO); [unfold len in *; lia|].
  intros n Hn. specialize (Hg (Z.of_nat n)). rewrite !getb_pos, !Nat2Z.id in Hg by lia.
  apply Hg. unfold len in *. lia.
Qed.

(** A write of [body] at [offset], on the whole file. Bytes between the old end and
    the offset become zeroes. *)
Definition write_flat (data : bytes) (offset : Z) (body : bytes) : bytes :=
  if bool_decide (body = []) then data
  else splice (resize data (Z.max (len data) (offset + len body))) offset body.

Lemma len_write_flat data offset body :
  0 <= offset -> body <> [] -> len (write_flat data offset body) = Z.max (len data) (offset + len body).
Proof.
  intros Hoff Hb. unfold write_flat. rewrite bool_decide_false by done.
  pose proof (len_nonneg body). pose proof (len_nonneg data).
  rewrite len_splice; rewrite ?len_resize; lia.
Qed.

Lemma getb_write_flat data offset body i :
  0 <= offset -> body <> [] ->
  getb (write_flat data offset body) i =
    if (offset <=? i) && (i <? offset + len body) then getb body (i - offset) else getb data i.
Proof.
  intros Hoff Hb. unfold write_flat. rewrite bool_decide_false by done.
  pose proof (len_nonneg body). pose proof (len_nonneg data).
  rewrite getb_splice by (rewrite ?len_resize; lia). rewrite getb_resize.
  destruct (_ && _); [done|]. destruct (Z.ltb_spec i (Z.max (len data) (offset + len body))); [done|].
  symmetry. apply getb_over. lia.
Qed.

Lemma write_flat_nil data offset : write_flat data offset [] = data.
Proof. unfold write_flat. by rewrite bool_decide_true. Qed.

(** Contiguous writes are one write. *)
Lemma write_flat_app data offset a b :
  0 <= offset -> write_flat (write_flat data offset a) (offset + len a) b = write_flat data offset (a ++ b).
Proof.
  intros Hoff. destruct (decide (a = [])) as [->|Ha]; [by rewrite write_flat_nil, len_nil, Z.add_0_r|].
  destruct (decide (b = [])) as [->|Hb]; [by rewrite write_flat_nil, app_nil_r|].
  pose proof (len_nonneg a). pose proof (len_nonneg b). assert (a ++ b <> []) by (by destruct a).
  apply getb_ext; [rewrite !len_write_flat, len_app; lia || done|]. intros i Hi.
  rewrite !getb_write_flat, getb_app, len_app by lia || done.
  destruct (Z.ltb_spec (i - offset) (len a)).
  - destruct (Z.leb_spec (offset + len a) i); [lia|]. simpl.
    destruct (Z.ltb_spec i (offset + len a)), (Z.ltb_spec i (offset + (len a + len b))); try lia. done.
  - destruct (Z.ltb_spec i (offset + len a)); [lia|]. rewrite andb_false_r.
    destruct (Z.leb_spec (offset + len a) i), (Z.leb_spec offset i); try lia. simpl.
    destruct (Z.ltb_spec i (offset + len a + len b)), (Z.ltb_spec i (offset + (len a + len b))); try lia; [|done].
    f_equal. lia.
Qed.

(** *** Runs of fixed-size pieces *)

Lemma div_ceil_bounds a b :
  0 < b -> 0 < a -> (div_ceil a b - 1) * b < a <= div_ceil a b * b.
Proof. intros. unfold div_ceil. destruct (Z.ltb_spec 0 (a mod b)); dlia. Qed.

Lemma mapM_Ok {E A B} (f : A -> result E B) (g : A -> B) l :
  (forall x, x ∈ l -> f x = Ok (g x)) -> mapM f l = Ok (g <$> l).
Proof.
  induction l as [|x l IH]; intros Hf; [done|]. simpl.
  rewrite (Hf x) by set_solver. simpl. rewrite IH by set_solver. done.
Qed.

Lemma slice_concat {A} (L : Z) (ls : list (list A)) (i : nat) l :
  ls !! i = Some l -> (forall j l', ls !! j = Some l' -> (j < i)%nat -> len l' = L) ->
  slice (concat ls) (Z.of_nat i * L) (Z.of_nat i * L + len l) = l.
Proof.
  revert i. induction ls as [|h ls IH]; intros i Hi Hall; [done|].
  pose proof (len_nonneg l). destruct i as [|i]; simpl in *.
  - simplify_eq. rewrite slice_app_l by lia. apply slice_all.
  - assert (Hh : len h = L) by (apply (Hall O); [done|lia]). rewrite slice_app_r by (pose proof (len_nonneg h); lia).
    replace (Z.of_nat (S i) * L - len h) with (Z.of_nat i * L) by lia.
    replace (Z.of_nat (S i) * L + len l - len h) with (Z.of_nat i * L + len l) by lia.
    apply IH; [done|]. intros j l' Hj ?. apply (Hall (S j)); [done|lia].
Qed.

Lemma len_concat_fixed {A} (L : Z) (ls : list (list A)) :
  Forall (fun l => len l = L) ls -> len (concat ls) = L * len ls.
Proof.
  induction 1 as [|l ls Hl _ IH]; [unfold len; simpl; lia|]. cbn [concat].
  rewrite len_app, len_cons, Hl, IH. lia.
Qed.

(** Cutting a list every [L] positions and joining the pieces gives it back. *)
Lemma concat_pieces {A} (l : list A) L (n : nat) :
  0 < L ->
  concat ((fun i => slice l (i * L) (Z.min (i * L + L) (len l))) <$> seqZ 0 (Z.of_nat n))
    = ztake (Z.of_nat n * L) l.
Proof.
  intros HL. induction n as [|n IH]; [by rewrite ztake_0|].
  rewrite Nat2Z.inj_succ, <-Z.add_1_r, seqZ_app by lia.
  rewrite fmap_app, concat_app, IH. simpl. rewrite app_nil_r.
  destruct (decide (Z.of_nat n * L <= len l)).
  2: { rewrite slice_empty, app_nil_r by lia. rewrite !ztake_all by lia. done. }
  replace (ztake (Z.of_nat n * L) l) with (slice l 0 (Z.of_nat n * L))
    by (unfold slice; rewrite Z.sub_0_r, zdrop_0; done || lia).
  rewrite slice_split by lia. unfold slice. rewrite zdrop_0 by lia.
  rewrite Z.sub_0_r, !ztake_take. unfold len.
  destruct (decide (Z.of_nat n * L + L <= Z.of_nat (length l))).
  - f_equal. lia.
  - rewrite !take_ge by lia. done.
Qed.

(** Consecutive pieces of a range join to the range. *)
Lemma concat_range {A} (data : list A) cs a b (m : nat) :
  1 <= cs -> 0 <= a -> (a / cs + Z.of_nat m - 1) * cs < b ->
  concat ((fun i => slice data (Z.max a (i * cs)) (Z.min b (i * cs + cs))) <$> seqZ (a / cs) (Z.of_nat m))
    = slice data a (Z.min b ((a / cs + Z.of_nat m) * cs)).
Proof.
  intros Hcs Ha. pose proof (Z.div_mod a cs ltac:(lia)). pose proof (Z.mod_pos_bound a cs ltac:(lia)).
  assert (0 <= a / cs) by (apply Z.div_pos; lia).
  induction m as [|m IH]; intros Hb; [by rewrite slice_empty by nia|].
  rewrite Nat2Z.inj_succ, <-Z.add_1_r, seqZ_app, fmap_app, concat_app, IH by lia. simpl. rewrite app_nil_r.
  destruct m as [|m].
  - rewrite slice_empty by nia. simpl. f_equal; nia.
  - rewrite (Z.max_r a), (Z.min_r b ((a / cs + Z.of_nat (S m)) * cs)) by nia.
    rewrite slice_split by nia. f_equal. nia.
Qed.

(** *** Arithmetic that does not wrap *)

Lemma u64_id x : in_u64 x -> u64 x = x.
Proof. unfold in_u64, u64. intros. by rewrite Z.mod_small. Qed.
Lemma wadd_id a b : 0 <= a + b < 2 ^ 64 -> a +u b = a + b.
Proof. apply u64_id. Qed.
Lemma wsub_id a b : 0 <= a - b < 2 ^ 64 -> a -u b = a - b.
Proof. apply u64_id. Qed.
Lemma wmul_id a b : 0 <= a * b < 2 ^ 64 -> a *u b = a * b.
Proof. apply u64_id. Qed.
Lemma u32_id x : 0 <= x < 2 ^ 32 -> u32 x = x.
Proof. intros. unfold u32. by rewrite Z.mod_small. Qed.
Lemma i64_id x : - 2 ^ 63 <= x < 2 ^ 63 -> i64 x = x.
Proof. intros. unfold i64. rewrite Z.mod_small; lia. Qed.
Lemma i32_id x : - 2 ^ 31 <= x < 2 ^ 31 -> i32 x = x.
Proof. intros. unfold i32. rewrite Z.mod_small; lia. Qed.

(** Rewrites away every wrapping operator whose operands [lia] can bound. *)
Ltac unwrap := repeat match goal with
  | |- context [wrapping_add ?a ?b] => rewrite (wadd_id a b) by lia
  | |- context [wrapping_sub ?a ?b] => rewrite (wsub_id a b) by lia
  | |- context [wrapping_mul ?a ?b] => rewrite (wmul_id a b) by lia
  | |- context [u64 ?a] => rewrite (u64_id a) by (unfold in_u64; lia)
  | |- context [u32 ?a] => rewrite (u32_id a) by lia
  | |- context [i64 ?a] => rewrite (i64_id a) by lia
  | |- context [i32 ?a] => rewrite (i32_id a) by lia
  end.

(** *** Little-endian words *)

Lemma byte_to_of_Z z : byte_to_Z (byte_of_Z z) = u8 z.
Proof.
  unfold byte_to_Z, byte_of_Z. assert (Hz : 0 <= u8 z < 256) by (apply Z.mod_pos_bound; lia).
  destruct (Byte.of_N (Z.to_N (u8 z))) as [b|] eqn:Hb; simpl.
  - apply Byte.to_of_N in Hb. rewrite Hb. lia.
  - exfalso. apply Byte.of_N_None_iff in Hb. lia.
Qed.
Lemma byte_to_Z_range b : 0 <= byte_to_Z b < 256.
Proof. unfold byte_to_Z. pose proof (Byte.to_N_bounded b). lia. Qed.
Lemma len_le_bytes k n : len (le_bytes k n) = Z.of_nat k.
Proof. revert n. induction k; intros; simpl; [done|]. rewrite len_cons, IHk. lia. Qed.
Lemma from_le_bytes_le_bytes k n :
  from_le_bytes (le_bytes k n) = n mod 256 ^ Z.of_nat k.
Proof.
  revert n. induction k as [|k IH]; intros n; [simpl; by rewrite Z.mod_1_r|].
  cbn [le_bytes from_le_bytes]. rewrite byte_to_of_Z, IH. unfold u8. change (2 ^ 8) with 256.
  rewrite Nat2Z.inj_succ, Z.pow_succ_r by lia.
  rewrite Z.rem_mul_r by lia. done.
Qed.
Lemma byte_of_to_Z b x : byte_of_Z (byte_to_Z b + 256 * x) = b.
Proof.
  unfold byte_of_Z. replace (u8 (byte_to_Z b + 256 * x)) with (byte_to_Z b).
  - unfold byte_to_Z. by rewrite N2Z.id, Byte.of_to_N.
  - unfold u8. change (2 ^ 8) with 256. rewrite (Z.mul_comm 256), Z.mod_add by lia.
    symmetry. apply Z.mod_small, byte_to_Z_range.
Qed.
Lemma byte_to_Z_inj a b : byte_to_Z a = byte_to_Z b -> a = b.
Proof. intros Hab. rewrite <-(byte_of_to_Z a 0), <-(byte_of_to_Z b 0). by rewrite Hab. Qed.
Lemma le_bytes_from_le_bytes l : le_bytes (length l) (from_le_bytes l) = l.
Proof.
  induction l as [|b l IH]; [done|]. simpl. rewrite byte_of_to_Z. f_equal.
  replace ((byte_to_Z b + 256 * from_le_bytes l) / 256) with (from_le_bytes l); [done|].
  pose proof (byte_to_Z_range b). Z.div_mod_to_equations. lia.
Qed.
