(* ===== verification/Core.v ===== *)
(** * dcfs-core: chunk planning, names, nodes and version states

    Models [src/crates/dcfs-core/src/]: [chunk.rs] (module [Chunk]), [name.rs]
    (module [Name]), [node.rs] (module [NodeModel]) and [version.rs] (module
    [Version]). The identifier newtypes of [ids.rs] are plain [Uuid]s. *)
From S2P Require Import Prelude.

(** ** Chunk planning ([chunk.rs]) *)
Module Chunk.

Inductive ChunkPlanError : Type :=
| ZeroChunkSize
| SizeOverflow.

Record ChunkSpec : Type := {
  cs_index : Z;
  cs_offset : Z;
  cs_len : Z;
}.

(** [ChunkSpec::end]. *)
Definition chunk_end (c : ChunkSpec) : Z := saturating_add (cs_offset c) (cs_len c).

(** The loop body of [plan_chunks] for chunk [i]. *)
Definition plan_chunk (file_size chunk_size i : Z) : result ChunkPlanError ChunkSpec :=
  offset ← ok_or (checked_mul i chunk_size) SizeOverflow;
  remaining ← ok_or (checked_sub file_size offset) SizeOverflow;
  mret {| cs_index := i; cs_offset := offset; cs_len := Z.min remaining chunk_size |}.

Definition plan_chunks (file_size chunk_size : Z) : result ChunkPlanError (list ChunkSpec) :=
  if chunk_size =? 0 then Err ZeroChunkSize
  else if file_size =? 0 then Ok []
  else mapM (plan_chunk file_size chunk_size) (seqZ 0 (div_ceil file_size chunk_size)).

(** What the plan has to be: chunk [i] of a file of [file_size] bytes. *)
Definition planned (file_size chunk_size i : Z) : ChunkSpec :=
  {| cs_index := i; cs_offset := i * chunk_size;
     cs_len := Z.min (file_size - i * chunk_size) chunk_size |}.

End Chunk.

(** ** Filenames ([name.rs]) *)
Module Name.

Inductive NodeNameError : Type :=
| ContainsNul
| ContainsSlash
| Empty.

(** A [NodeName] is the byte vector it wraps; [new] is the only way to make one. *)
Definition new (bs : bytes) : result NodeNameError bytes :=
  if bool_decide (bs = []) then Err Empty
  else if bool_decide (x00 ∈ bs) then Err ContainsNul
  else if bool_decide (x2f ∈ bs) then Err ContainsSlash
  else Ok bs.

(** What a Linux filename is. *)
Definition valid (bs : bytes) : Prop := bs <> [] /\ (x00 ∉ bs) /\ (x2f ∉ bs).

End Name.

(** ** Nodes ([node.rs]) *)
Module NodeModel.

Inductive NodeKind : Type :=
| Directory
| File
| Symlink.
#[global] Instance NodeKind_eq_dec : EqDecision NodeKind.
Proof. solve_decision. Defined.

Record FileAttr : Type := {
  attr_mode : Z; attr_uid : Z; attr_gid : Z; attr_size : Z;
  attr_atime : Z; attr_mtime : Z; attr_ctime : Z;
}.

(** [FileAttr::default] at the time [now]. *)
Definition default_attr (now : Z) : FileAttr :=
  {| attr_mode := 420 (* 0o644 *); attr_uid := 0; attr_gid := 0; attr_size := 0;
     attr_atime := now; attr_mtime := now; attr_ctime := now |}.

Record Node : Type := {
  n_id : Uuid; n_parent : option Uuid; n_name : bytes; n_kind : NodeKind;
  n_attr : FileAttr; n_current_version : option Uuid; n_generation : Z;
}.

Definition with_mode (a : FileAttr) (mode : Z) : FileAttr :=
  {| attr_mode := mode; attr_uid := attr_uid a; attr_gid := attr_gid a;
     attr_size := attr_size a; attr_atime := attr_atime a;
     attr_mtime := attr_mtime a; attr_ctime := attr_ctime a |}.

Definition new_directory (id : Uuid) (parent : option Uuid) (name : bytes) (a : FileAttr) : Node :=
  {| n_id := id; n_parent := parent; n_name := name; n_kind := Directory;
     n_attr := with_mode a (Z.lor (attr_mode a) 16384 (* S_IFDIR, 0o40000 *));
     n_current_version := None; n_generation := 0 |}.

Definition new_file (id : Uuid) (parent : option Uuid) (name : bytes) (a : FileAttr) : Node :=
  {| n_id := id; n_parent := parent; n_name := name; n_kind := File;
     n_attr := with_mode a (Z.lor (attr_mode a) 32768 (* S_IFREG, 0o100000 *));
     n_current_version := None; n_generation := 0 |}.

Definition is_directory (n : Node) : bool := bool_decide (n_kind n = Directory).
Definition is_file (n : Node) : bool := bool_decide (n_kind n = File).

End NodeModel.

(** ** Version states ([version.rs]) *)
Module Version.

Inductive VersionState : Type :=
| Staging
| Committed
| Superseded
| Garbage.
#[global] Instance VersionState_eq_dec : EqDecision VersionState.
Proof. solve_decision. Defined.

Inductive VersionStateError : Type :=
| InvalidTransition (from to : VersionState).

Definition can_transition_to (from to : VersionState) : bool :=
  match from, to with
  | Staging, Committed | Staging, Garbage
  | Committed, Superseded | Superseded, Garbage => true
  | _, _ => false
  end.

Definition transition_to (from to : VersionState) : result VersionStateError VersionState :=
  if can_transition_to from to then Ok to else Err (InvalidTransition from to).

Definition is_visible (s : VersionState) : bool :=
  match s with Committed => true | _ => false end.
Definition is_terminal (s : VersionState) : bool :=
  match s with Garbage => true | _ => false end.

(** A run of the lifecycle: every step is an accepted [transition_to]. *)
Inductive lifecycle : VersionState -> list VersionState -> Prop :=
| life_nil s : lifecycle s []
| life_step s t run :
    transition_to s t = Ok t -> lifecycle t run -> lifecycle s (t :: run).

(** How many states may still come. *)
Definition remaining (s : VersionState) : nat :=
  match s with Staging => 3 | Committed => 2 | Superseded => 1 | Garbage => 0 end.

End Version.

(** ** Properties *)
Module CoreFacts.
Import Chunk Name NodeModel Version.

Lemma plan_chunk_planned file_size chunk_size i :
  in_u64 file_size -> 0 < chunk_size -> 0 < file_size ->
  0 <= i < div_ceil file_size chunk_size ->
  plan_chunk file_size chunk_size i = Ok (planned file_size chunk_size i).
Proof.
  intros Hu Hc Hf Hi. pose proof (div_ceil_bounds file_size chunk_size Hc Hf).
  unfold in_u64 in Hu.
  unfold plan_chunk, checked_mul, checked_sub, U64_MAX.
  rewrite (proj2 (Z.leb_le _ _)) by nia. simpl.
  rewrite (proj2 (Z.leb_le _ _)) by nia. done.
Qed.

Lemma plan_chunks_Ok file_size chunk_size :
  in_u64 file_size -> 0 < chunk_size ->
  plan_chunks file_size chunk_size =
    Ok (planned file_size chunk_size <$> seqZ 0 (div_ceil file_size chunk_size)).
Proof.
  intros Hu Hc. unfold plan_chunks. rewrite (proj2 (Z.eqb_neq _ _)) by lia.
  destruct (Z.eqb_spec file_size 0) as [->|Hne].
  - unfold div_ceil. by rewrite Z.mod_0_l, Z.div_0_l by lia.
  - apply mapM_Ok. intros i Hi%elem_of_seqZ. apply plan_chunk_planned; unfold in_u64 in *; lia.
Qed.

(** C39 Planning. A file is split into the fewest chunks of the chunk size: the plan never
    overflows, every chunk but the last is full, and every byte of the file lies in
    exactly one chunk. *)
Theorem plan_chunks_tiles file_size chunk_size :
  in_u64 file_size -> 0 < chunk_size ->
  exists cs, plan_chunks file_size chunk_size = Ok cs /\
    len cs = div_ceil file_size chunk_size /\
    (forall i c, cs !! i = Some c ->
       cs_index c = Z.of_nat i /\ cs_offset c = Z.of_nat i * chunk_size /\
       0 < cs_len c <= chunk_size /\ chunk_end c <= file_size /\
       (S i < length cs -> cs_len c = chunk_size)%nat) /\
    (forall off, 0 <= off < file_size ->
       exists i c, cs !! i = Some c /\ cs_offset c <= off < chunk_end c /\
         (forall j d, cs !! j = Some d -> cs_offset d <= off < chunk_end d -> j = i)).
Proof.
  intros Hu Hc. rewrite (plan_chunks_Ok _ _ Hu Hc). eexists. split; [done|].
  assert (Hlen : 0 <= div_ceil file_size chunk_size).
  { unfold div_ceil, in_u64 in *. destruct (0 <? _); dlia. }
  split; [unfold len; rewrite length_fmap, length_seqZ; lia|].
  assert (Hlook : forall i c, (planned file_size chunk_size <$>
      seqZ 0 (div_ceil file_size chunk_size)) !! i = Some c ->
      c = planned file_size chunk_size (Z.of_nat i) /\
      Z.of_nat i < div_ceil file_size chunk_size /\ 0 < file_size).
  { intros i c. rewrite list_lookup_fmap. intros (j & Hj & ->)%fmap_Some.
    apply lookup_seqZ in Hj as [-> Hj]. rewrite Z.add_0_l. split_and!; [done|lia|].
    unfold in_u64 in Hu. destruct (decide (file_size = 0)) as [->|]; [|lia].
    unfold div_ceil in Hj. rewrite Z.mod_0_l, Z.div_0_l in Hj by lia. simpl in Hj. lia. }
  assert (Hend : forall i c, (planned file_size chunk_size <$>
      seqZ 0 (div_ceil file_size chunk_size)) !! i = Some c ->
      chunk_end c = cs_offset c + cs_len c).
  { intros i c (-> & Hi & Hf)%Hlook. unfold chunk_end, saturating_add, U64_MAX, in_u64 in *.
    simpl. pose proof (div_ceil_bounds file_size chunk_size Hc Hf). nia. }
  split.
  - intros i c Hic. rewrite (Hend _ _ Hic). apply Hlook in Hic as (-> & Hi & Hf).
    pose proof (div_ceil_bounds file_size chunk_size Hc Hf). simpl.
    rewrite length_fmap, length_seqZ. split_and!; try nia.
  - intros off Hoff. pose proof (div_ceil_bounds file_size chunk_size Hc ltac:(lia)).
    exists (Z.to_nat (off / chunk_size)), (planned file_size chunk_size (off / chunk_size)).
    assert (Hq : 0 <= off / chunk_size < div_ceil file_size chunk_size) by dlia.
    assert (Hl : (planned file_size chunk_size <$> seqZ 0 (div_ceil file_size chunk_size))
      !! Z.to_nat (off / chunk_size) = Some (planned file_size chunk_size (off / chunk_size))).
    { rewrite list_lookup_fmap. apply fmap_Some. exists (off / chunk_size).
      split; [|done]. apply lookup_seqZ. lia. }
    split; [done|]. rewrite (Hend _ _ Hl). simpl. split; [dlia|].
    intros j d Hj. rewrite (Hend _ _ Hj). apply Hlook in Hj as (-> & Hj & _). simpl.
    intros Hin. assert (Z.of_nat j = off / chunk_size) by dlia. lia.
Qed.

Lemma plan_chunks_tiles_witness :
  exists cs, plan_chunks 10 4 = Ok cs /\ len cs = 3 /\ exists i c, cs !! i = Some c /\ cs_offset c <= 9 < chunk_end c.
Proof.
  destruct (plan_chunks_tiles 10 4) as (cs & H1 & H2 & _ & H4); [unfold in_u64; lia|lia|].
  exists cs. split_and!; [done|done|]. destruct (H4 9) as (i & c & ? & ? & _); [lia|]. by exists i, c.
Defined.

Lemma name_new_valid bs : valid bs -> Name.new bs = Ok bs.
Proof.
  intros (? & ? & ?). unfold Name.new. by rewrite !bool_decide_false.
Qed.

Lemma transition_remaining s t : can_transition_to s t = true -> (remaining t < remaining s)%nat.
Proof. destruct s, t; simpl; lia || done. Qed.

(** The lifecycle of a version. However it is driven, a version changes state at most
    three times, never returns to a state it left, never leaves [Garbage], and is
    visible only if it was committed from [Staging]. *)
Theorem lifecycle_bounded s run :
  lifecycle s run ->
  (length run <= remaining s)%nat /\ NoDup (s :: run) /\
  (is_terminal s = true -> run = []) /\
  (forall v, v ∈ run -> is_visible v = true -> s = Staging).
Proof.
  assert (Hdesc : forall s run, lifecycle s run ->
    (length run <= remaining s)%nat /\ Forall (fun t => remaining t < remaining s)%nat run /\ NoDup run).
  { induction 1 as [|s' t run' Ht Hrun (IH1 & IH2 & IH3)]; simpl.
    - split_and!; [lia|constructor|constructor].
    - unfold transition_to in Ht. destruct (can_transition_to s' t) eqn:Hc; [|done].
      apply transition_remaining in Hc. split_and!; [lia| |].
      + constructor; [done|]. eapply Forall_impl; [exact IH2|]. simpl. lia.
      + constructor; [|done]. rewrite Forall_forall in IH2. intros Hin%IH2. lia. }
  intros Hl. destruct (Hdesc _ _ Hl) as (H1 & H2 & H3). rewrite Forall_forall in H2.
  split_and!; [done| | |].
  - constructor; [|done]. intros Hin%H2. lia.
  - destruct s; simpl in *; try done. destruct run; simpl in *; [done|lia].
  - intros v Hv Hvis. apply H2 in Hv. destruct v, s; simpl in *; done || lia.
Qed.

Lemma lifecycle_bounded_witness : NoDup [Staging; Committed; Superseded; Garbage].
Proof.
  apply (lifecycle_bounded Staging [Committed; Superseded; Garbage]).
  repeat (apply life_step; [reflexivity|]). constructor.
Defined.

End CoreFacts.
