(* ===== verification/Extents.v ===== *)
(** * Dirty extents

    Models [src/crates/dcfs-cache/src/dirty.rs]: the set of modified byte ranges
    of a cached file, kept as a vector of ranges. The specification is the set
    of positions it denotes ([dirty_at]); the invariant ([wf]) is the normal form
    every operation keeps, in which that set has exactly one representation. *)
From S2P Require Import Prelude.

Module Extents.

(** [std::ops::Range<u64>]. *)
Record Range : Type := mkRange { r_start : Z; r_end : Z }.
#[global] Instance Range_eq_dec : EqDecision Range.
Proof. solve_decision. Defined.

Definition range_is_empty (r : Range) : bool := negb (r_start r <? r_end r).

(** [DirtyExtents { ranges }]. *)
Definition DirtyExtents : Type := list Range.

Definition new : DirtyExtents := [].

(** The loop of [insert]: [merged] grows, and the ranges it does not touch are
    pushed in order. *)
Fixpoint merge_loop (merged : Range) (l : list Range) : Range * list Range :=
  match l with
  | [] => (merged, [])
  | existing :: l' =>
      if (r_end existing <? r_start merged) || (r_end merged <? r_start existing)
      then let '(m, kept) := merge_loop merged l' in (m, existing :: kept)
      else merge_loop {| r_start := Z.min (r_start merged) (r_start existing);
                         r_end := Z.max (r_end merged) (r_end existing) |} l'
  end.

(** [sort_by_key(|r| r.start)], a stable sort. *)
Fixpoint sort_insert (r : Range) (l : list Range) : list Range :=
  match l with
  | [] => [r]
  | x :: l' => if r_start r <=? r_start x then r :: x :: l' else x :: sort_insert r l'
  end.
Definition sort_by_start (l : list Range) : list Range := foldr sort_insert [] l.

Definition insert (d : DirtyExtents) (range : Range) : DirtyExtents :=
  if range_is_empty range then d
  else let '(merged, kept) := merge_loop range d in sort_by_start (kept ++ [merged]).

(** What [clear_range] pushes for one existing range. *)
Definition clear_one (range existing : Range) : list Range :=
  if (r_end existing <=? r_start range) || (r_end range <=? r_start existing)
  then [existing]
  else (if r_start existing <? r_start range
        then [{| r_start := r_start existing; r_end := r_start range |}] else [])
    ++ (if r_end range <? r_end existing
        then [{| r_start := r_end range; r_end := r_end existing |}] else []).

Definition clear_range (d : DirtyExtents) (range : Range) : DirtyExtents :=
  if range_is_empty range then d else d ≫= clear_one range.

Definition clear_all (d : DirtyExtents) : DirtyExtents := [].
Definition is_dirty (d : DirtyExtents) : bool := bool_decide (d <> []).

Definition truncate_one (new_size : Z) (existing : Range) : list Range :=
  if new_size <=? r_start existing then []
  else if new_size <? r_end existing
  then [{| r_start := r_start existing; r_end := new_size |}]
  else [existing].

Definition truncate (d : DirtyExtents) (new_size : Z) : DirtyExtents :=
  d ≫= truncate_one new_size.

Definition truncate_grow (d : DirtyExtents) (old_size new_size : Z) : DirtyExtents :=
  if old_size <? new_size then insert d {| r_start := old_size; r_end := new_size |} else d.

(** ** Specification *)

Definition in_range (r : Range) (x : Z) : Prop := r_start r <= x < r_end r.

(** Position [x] is dirty. *)
Definition dirty_at (d : DirtyExtents) (x : Z) : Prop := exists r, r ∈ d /\ in_range r x.

Definition nonempty (r : Range) : Prop := r_start r < r_end r.
(** [a] lies before [b] with at least one clean position between them. *)
Definition before (a b : Range) : Prop := r_end a < r_start b.
Definition apart (a b : Range) : Prop := before a b \/ before b a.

Definition wf (d : DirtyExtents) : Prop := Forall nonempty d /\ StronglySorted before d.

(** ** Lemmas *)

Lemma wf_nil : wf [].
Proof. split; constructor. Qed.
Lemma dirty_at_nil x : ~ dirty_at [] x.
Proof. intros (r & Hr & _). by apply not_elem_of_nil in Hr. Qed.
Lemma dirty_at_cons r d x : dirty_at (r :: d) x <-> in_range r x \/ dirty_at d x.
Proof. unfold dirty_at. set_solver. Qed.
Lemma dirty_at_app d1 d2 x : dirty_at (d1 ++ d2) x <-> dirty_at d1 x \/ dirty_at d2 x.
Proof. unfold dirty_at. set_solver. Qed.
Lemma dirty_at_perm d1 d2 x : d1 ≡ₚ d2 -> dirty_at d1 x <-> dirty_at d2 x.
Proof. intros Hp. unfold dirty_at. by setoid_rewrite Hp. Qed.

Lemma merge_loop_start m l b :
  b < r_start m -> Forall (fun e => b < r_start e) l -> b < r_start (merge_loop m l).1.
Proof.
  revert m. induction l as [|e l IH]; intros m Hm Hl; simpl; [done|].
  apply Forall_cons in Hl as [He Hl].
  destruct (_ || _).
  - specialize (IH m Hm Hl). by destruct (merge_loop m l).
  - apply IH; simpl; [lia|done].
Qed.

Lemma merge_loop_past m l :
  Forall (fun e => r_end m < r_start e) l -> merge_loop m l = (m, l).
Proof.
  induction l as [|e l IH]; intros Hl; [done|]. simpl.
  apply Forall_cons in Hl as [He Hl].
  rewrite (proj2 (Z.ltb_lt (r_end m) _)), orb_true_r by done. by rewrite IH.
Qed.

Lemma before_all_starts b d r :
  StronglySorted before (b :: d) -> Forall nonempty (b :: d) -> r < r_end b + 1 ->
  Forall (fun e => r < r_start e) d.
Proof.
  intros Hs _ Hr. inversion Hs as [|? ? _ Hb]; subst.
  eapply Forall_impl; [exact Hb|]. unfold before. simpl. lia.
Qed.

Lemma merge_loop_spec m l :
  nonempty m -> wf l ->
  let '(m', k) := merge_loop m l in
  nonempty m' /\ wf k /\ Forall (apart m') k /\ (forall e, e ∈ k -> e ∈ l) /\
  (forall x, in_range m' x \/ dirty_at k x <-> in_range m x \/ dirty_at l x).
Proof.
  revert m. induction l as [|e l IH]; intros m Hm [Hne Hs]; simpl.
  { split_and!; try done; repeat constructor. }
  pose proof Hne as Hne'. apply Forall_cons in Hne' as [He Hl].
  assert (Hwl : wf l) by (split; [done|by inversion Hs]).
  destruct ((r_end e <? r_start m) || (r_end m <? r_start e)) eqn:Hap.
  - pose proof (IH m Hm Hwl) as Hrec.
    assert (Hgap : apart (merge_loop m l).1 e).
    { apply orb_true_iff in Hap as [Hap|Hap]; apply Z.ltb_lt in Hap.
      - right. apply merge_loop_start; [done|]. eapply before_all_starts; eauto. lia.
      - left. rewrite merge_loop_past; [done|]. eapply before_all_starts; eauto.
        unfold nonempty in He. lia. }
    destruct (merge_loop m l) as [m' k]. destruct Hrec as (H1 & [H2 H3] & H4 & H5 & H6).
    split_and!; [done| |by constructor|set_solver|].
    + split; [by constructor|]. constructor; [done|].
      inversion Hs as [|? ? _ Hb]; subst. rewrite Forall_forall in *. auto.
    + intros x. rewrite !dirty_at_cons. specialize (H6 x). tauto.
  - apply orb_false_iff in Hap as [Ha1%Z.ltb_ge Ha2%Z.ltb_ge].
    unfold nonempty in Hm, He.
    match goal with |- context [merge_loop ?h l] => pose proof (IH h) as Hrec; destruct (merge_loop h l) as [m' k] end.
    destruct Hrec as (H1 & H2 & H3 & H4 & H5); [unfold nonempty; simpl; lia|done|].
    split_and!; [done|done|done|set_solver|].
    intros x. rewrite H5, dirty_at_cons. unfold in_range. simpl. intuition lia.
Qed.

Lemma sort_insert_perm r l : sort_insert r l ≡ₚ r :: l.
Proof.
  induction l as [|x l IH]; simpl; [done|]. destruct (_ <=? _); [done|].
  rewrite IH. apply Permutation_swap.
Qed.
Lemma sort_perm l : sort_by_start l ≡ₚ l.
Proof. induction l as [|x l IH]; simpl; [done|]. by rewrite sort_insert_perm, IH. Qed.

Lemma sort_insert_wf r l :
  nonempty r -> Forall (apart r) l -> wf l -> wf (sort_insert r l).
Proof.
  intros Hr. induction l as [|x l IH]; intros Hap [Hne Hs]; simpl.
  { split; by repeat constructor. }
  apply Forall_cons in Hap as [Hx Hap]. pose proof Hne as [Hnx Hnl]%Forall_cons.
  pose proof Hs as Hs'. inversion Hs' as [|? ? Hsl Hxl]; subst.
  unfold apart, before, nonempty in *. destruct (Z.leb_spec (r_start r) (r_start x)).
  - split; [by constructor|]. constructor; [done|]. constructor; [unfold before; lia|].
    eapply Forall_impl; [exact Hxl|]. unfold before. simpl. lia.
  - destruct (IH Hap (conj Hnl Hsl)) as [IH1 IH2]. split; [by constructor|].
    constructor; [done|]. rewrite sort_insert_perm. constructor; [unfold before; lia|done].
Qed.

Lemma sort_wf l :
  Forall nonempty l -> (forall a b l1 l2 l3, l = l1 ++ a :: l2 ++ b :: l3 -> apart a b) ->
  wf (sort_by_start l).
Proof.
  induction l as [|r l IH]; intros Hne Hap; simpl; [split; constructor|].
  apply Forall_cons in Hne as [Hr Hl]. apply sort_insert_wf; [done| |apply IH; [done|]].
  - rewrite sort_perm. apply Forall_forall. intros b (l2 & l3 & ->)%list_elem_of_split.
    apply (Hap r b [] l2 l3). done.
  - intros a b l1 l2 l3 ->. apply (Hap a b (r :: l1) l2 l3). done.
Qed.

Lemma insert_snoc_wf k m :
  nonempty m -> wf k -> Forall (apart m) k -> wf (sort_by_start (k ++ [m])).
Proof.
  intros Hm [Hne Hs] Hap. apply sort_wf.
  { apply Forall_app. split; [done|by constructor]. }
  intros a b l1 l2 l3. revert l1 Hne Hs Hap.
  induction k as [|x k IH]; intros l1 Hne Hs Hap Heq; simpl in *.
  { destruct l1 as [|? [|? ?]]; simplify_eq/=; by destruct l2. }
  apply Forall_cons in Hne as [? ?]. apply Forall_cons in Hap as [Hx ?].
  inversion Hs as [|? ? Hs' Hb]; subst. destruct l1 as [|y l1]; injection Heq as <- Heq.
  - assert (Hin : b ∈ k ++ [m]) by (rewrite Heq; set_solver).
    apply elem_of_app in Hin as [Hin|Hin%list_elem_of_singleton]; subst.
    + left. rewrite Forall_forall in Hb. by apply Hb.
    + destruct Hx; [by right|by left].
  - eapply IH; eauto.
Qed.

Lemma bind_wf (f : Range -> list Range) d :
  wf d ->
  (forall r, nonempty r -> wf (f r) /\ Forall (fun s => r_start r <= r_start s /\ r_end s <= r_end r) (f r)) ->
  wf (d ≫= f).
Proof.
  intros [Hne Hs] Hf. induction d as [|r d IH]; [split; constructor|].
  apply Forall_cons in Hne as [Hr Hd]. inversion Hs as [|? ? Hs' Hb]; subst.
  destruct (IH Hd Hs') as [IH1 IH2]. destruct (Hf r Hr) as [[H1 H2] H3]. rewrite bind_cons.
  split; [by apply Forall_app|].
  assert (Hsep : Forall (fun a => Forall (before a) (d ≫= f)) (f r)).
  { eapply Forall_impl; [exact H3|]. intros a [_ Ha]. apply Forall_forall.
    intros b (s & Hbs & Hsd)%list_elem_of_bind. rewrite Forall_forall in Hb, Hd.
    destruct (Hf s (Hd s Hsd)) as [_ Hfs]. rewrite Forall_forall in Hfs.
    specialize (Hfs _ Hbs). specialize (Hb _ Hsd). unfold before in *. lia. }
  clear -H2 Hsep IH2. induction H2 as [|a l Hl IHl Ha]; simpl; [done|].
  apply Forall_cons in Hsep as [? ?]. constructor; [by apply IHl|]. by apply Forall_app.
Qed.

Lemma dirty_at_bind (f : Range -> list Range) (d : list Range) x :
  dirty_at (d ≫= f) x <-> exists r, r ∈ d /\ dirty_at (f r) x.
Proof.
  unfold dirty_at. setoid_rewrite list_elem_of_bind. naive_solver.
Qed.

Lemma insert_spec d r :
  wf d ->
  wf (insert d r) /\ (forall x, dirty_at (insert d r) x <-> dirty_at d x \/ in_range r x).
Proof.
  intros Hwf. unfold insert, range_is_empty. destruct (Z.ltb_spec (r_start r) (r_end r)); simpl.
  - pose proof (merge_loop_spec r d H Hwf) as Hm. destruct (merge_loop r d) as [m k].
    destruct Hm as (H1 & H2 & H3 & _ & H5). split; [by apply insert_snoc_wf|].
    intros x. rewrite (dirty_at_perm _ _ _ (sort_perm _)), dirty_at_app, dirty_at_cons.
    specialize (H5 x). pose proof (dirty_at_nil x). tauto.
  - split; [done|]. intros x. unfold in_range. intuition lia.
Qed.

Lemma insert_keeps_wf d r : wf d -> wf (insert d r).
Proof. intros. by apply insert_spec. Qed.
Lemma insert_dirty_at d r x : wf d -> dirty_at d x -> dirty_at (insert d r) x.
Proof. intros Hd Hx. apply insert_spec; auto. Qed.

(** ** Properties *)

(** Marking a range dirty makes exactly its positions dirty on top of those that
    were, and the vector stays sorted, disjoint and never adjacent: overlapping and
    touching ranges are merged. *)
Theorem insert_correct d r :
  wf d ->
  wf (insert d r) /\ (forall x, dirty_at (insert d r) x <-> dirty_at d x \/ in_range r x).
Proof. apply insert_spec. Qed.

(** A vector in normal form to evaluate the operations on. *)
Definition two_ranges : DirtyExtents := [mkRange 0 4; mkRange 6 9].
Lemma two_ranges_wf : wf two_ranges.
Proof. split; repeat constructor; unfold nonempty, before; simpl; lia. Qed.

Lemma insert_correct_witness :
  insert two_ranges (mkRange 4 6) = [mkRange 0 9] /\ wf (insert two_ranges (mkRange 4 6)).
Proof. split; [reflexivity|]. apply (insert_correct two_ranges (mkRange 4 6)), two_ranges_wf. Defined.

(** C38 Marking a range clean removes exactly its positions, splitting the ranges it
    cuts, and keeps the normal form. *)
Theorem clear_range_correct d r :
  wf d ->
  wf (clear_range d r) /\
  (forall x, dirty_at (clear_range d r) x <-> dirty_at d x /\ ~ in_range r x).
Proof.
  intros Hwf. unfold clear_range, range_is_empty.
  destruct (Z.ltb_spec (r_start r) (r_end r)); simpl.
  2: { split; [done|]. intros x. unfold in_range. intuition lia. }
  split.
  - apply bind_wf; [done|]. intros e He. unfold clear_one, nonempty in *.
    destruct (_ || _) eqn:Ho.
    { split; [split; by repeat constructor|]. constructor; [lia|constructor]. }
    apply orb_false_iff in Ho as [?%Z.leb_gt ?%Z.leb_gt].
    destruct (Z.ltb_spec (r_start e) (r_start r)), (Z.ltb_spec (r_end r) (r_end e)); simpl;
      (split; [split|]); repeat constructor; unfold nonempty, before; simpl; lia.
  - intros x. rewrite dirty_at_bind.
    assert (Hone : forall e, dirty_at (clear_one r e) x <-> in_range e x /\ ~ in_range r x).
    { intros e. unfold clear_one. destruct (_ || _) eqn:Ho.
      - rewrite dirty_at_cons. pose proof (dirty_at_nil x). unfold in_range in *.
        apply orb_true_iff in Ho as [Ho%Z.leb_le|Ho%Z.leb_le]; intuition lia.
      - apply orb_false_iff in Ho as [?%Z.leb_gt ?%Z.leb_gt]. pose proof (dirty_at_nil x).
        destruct (Z.ltb_spec (r_start e) (r_start r)), (Z.ltb_spec (r_end r) (r_end e)); simpl;
          rewrite ?dirty_at_cons; unfold in_range; simpl; intuition lia. }
    setoid_rewrite Hone. unfold dirty_at. naive_solver.
Qed.

Lemma clear_range_correct_witness :
  clear_range two_ranges (mkRange 2 7) = [mkRange 0 2; mkRange 7 9] /\
  ~ dirty_at (clear_range two_ranges (mkRange 2 7)) 6.
Proof.
  split; [reflexivity|]. rewrite (proj2 (clear_range_correct two_ranges (mkRange 2 7) two_ranges_wf) 6).
  unfold in_range. simpl. lia.
Defined.

(** Truncating a file to [n] bytes forgets exactly the dirty positions at or past
    [n], and keeps the normal form. *)
Theorem truncate_correct d n :
  wf d ->
  wf (truncate d n) /\ (forall x, dirty_at (truncate d n) x <-> dirty_at d x /\ x < n).
Proof.
  intros Hwf. unfold truncate. split.
  - apply bind_wf; [done|]. intros e He. unfold truncate_one, nonempty in *.
    destruct (Z.leb_spec n (r_start e)); [|destruct (Z.ltb_spec n (r_end e))];
      (split; [split|]); repeat constructor; unfold nonempty; simpl; lia.
  - intros x. rewrite dirty_at_bind.
    assert (Hone : forall e, dirty_at (truncate_one n e) x <-> in_range e x /\ x < n).
    { intros e. unfold truncate_one. pose proof (dirty_at_nil x).
      destruct (Z.leb_spec n (r_start e)); [|destruct (Z.ltb_spec n (r_end e))];
        rewrite ?dirty_at_cons; unfold in_range; simpl; intuition lia. }
    setoid_rewrite Hone. unfold dirty_at. naive_solver.
Qed.

Lemma truncate_correct_witness :
  truncate two_ranges 7 = [mkRange 0 4; mkRange 6 7] /\ ~ dirty_at (truncate two_ranges 7) 8.
Proof.
  split; [reflexivity|]. rewrite (proj2 (truncate_correct two_ranges 7 two_ranges_wf) 8). lia.
Defined.

Lemma wf_head_min r d x : wf (r :: d) -> dirty_at (r :: d) x -> r_start r <= x.
Proof.
  intros [[Hr _]%Forall_cons Hs] (e & [->|He]%elem_of_cons & Hx); unfold in_range in Hx; [lia|].
  inversion Hs as [|? ? _ Hb]; subst. rewrite Forall_forall in Hb. specialize (Hb _ He).
  unfold before, nonempty in *. lia.
Qed.

Lemma wf_head_gap r d : wf (r :: d) -> ~ dirty_at (r :: d) (r_end r).
Proof.
  intros [[Hr Hd]%Forall_cons Hs] (e & [->|He]%elem_of_cons & Hx); unfold in_range in Hx; [lia|].
  inversion Hs as [|? ? _ Hb]; subst. rewrite Forall_forall in Hb. specialize (Hb _ He).
  unfold before in Hb. lia.
Qed.

(** The normal form is canonical: two vectors in it that mark the same positions are
    equal. So any two sequences of the operations above that mark the same positions
    leave the very same vector. *)
Theorem wf_canonical d1 d2 :
  wf d1 -> wf d2 -> (forall x, dirty_at d1 x <-> dirty_at d2 x) -> d1 = d2.
Proof.
  revert d2. induction d1 as [|r1 d1 IH]; intros d2 H1 H2 Heq.
  { destruct d2 as [|r2 d2]; [done|]. exfalso. apply (dirty_at_nil (r_start r2)). apply Heq.
    destruct H2 as [[Hr _]%Forall_cons _]. exists r2. split; [set_solver|]. unfold in_range, nonempty in *. lia. }
  destruct d2 as [|r2 d2].
  { exfalso. apply (dirty_at_nil (r_start r1)). apply Heq.
    destruct H1 as [[Hr _]%Forall_cons _]. exists r1. split; [set_solver|]. unfold in_range, nonempty in *. lia. }
  pose proof H1 as [[Hn1 Hd1]%Forall_cons Hs1]. pose proof H2 as [[Hn2 Hd2]%Forall_cons Hs2].
  assert (Hstart : r_start r1 = r_start r2).
  { apply Z.le_antisymm.
    - apply (wf_head_min r1 d1); [done|]. apply Heq, dirty_at_cons. left. unfold in_range, nonempty in *. lia.
    - apply (wf_head_min r2 d2); [done|]. apply Heq, dirty_at_cons. left. unfold in_range, nonempty in *. lia. }
  assert (Hend : r_end r1 = r_end r2).
  { destruct (Z.lt_trichotomy (r_end r1) (r_end r2)) as [Hlt|[?|Hlt]]; [|done|]; exfalso.
    - apply (wf_head_gap r1 d1 H1). apply Heq, dirty_at_cons. left. unfold in_range, nonempty in *. lia.
    - apply (wf_head_gap r2 d2 H2). apply Heq, dirty_at_cons. left. unfold in_range, nonempty in *. lia. }
  assert (r1 = r2) as -> by (destruct r1, r2; simpl in *; congruence). f_equal.
  apply IH; [split; [done|by inversion Hs1]|split; [done|by inversion Hs2]|].
  assert (Htail : forall d, StronglySorted before (r2 :: d) -> forall x, dirty_at d x -> ~ in_range r2 x).
  { intros d Hs x (e & He & Hx). inversion Hs as [|? ? _ Hb]; subst.
    rewrite Forall_forall in Hb. specialize (Hb _ He). unfold before, in_range in *. lia. }
  intros x. specialize (Heq x). rewrite !dirty_at_cons in Heq.
  pose proof (Htail d1 Hs1 x). pose proof (Htail d2 Hs2 x). tauto.
Qed.

Lemma wf_canonical_witness :
  insert (insert [] (mkRange 6 9)) (mkRange 0 4) = two_ranges.
Proof.
  apply (wf_canonical _ two_ranges); [apply insert_spec, insert_spec, wf_nil|apply two_ranges_wf|].
  intros x. change (insert _ _) with two_ranges. done.
Defined.

End Extents.
