(* ===== verification/CacheManager.v ===== *)
(** * The local write-back cache

    Models [src/crates/dcfs-cache/src/entry.rs] (module [Entry]), [manager.rs]
    (module [Manager]) and the [ThreadSafeCacheManager] of [lib.rs], whose
    operations each run under one lock and are therefore the steps of a
    sequential machine ([op], [step]). Every [Utc::now()] is an argument. *)
From S2P Require Import Prelude Extents.

(** A [PathBuf], by components; [OfUuid] is the display form of an id. *)
Inductive component : Type :=
| Named (s : string)
| OfUuid (u : Uuid).
Abbreviation path := (list component).
#[global] Instance component_eq_dec : EqDecision component.
Proof. solve_decision. Defined.

Module Entry.

Inductive CacheState : Type := Clean | Dirty | Committing | Conflicted.
#[global] Instance CacheState_eq_dec : EqDecision CacheState.
Proof. solve_decision. Defined.

Record CacheEntry : Type := {
  node_id : Uuid;
  base_version_id : option Uuid;
  generation : Z;
  local_path : path;
  dirty_extents : Extents.DirtyExtents;
  logical_size : Z;
  last_access : Z;
  state : CacheState;
}.

Definition new (id : Uuid) (base : option Uuid) (gen : Z) (p : path) (size now : Z) : CacheEntry :=
  {| node_id := id; base_version_id := base; generation := gen; local_path := p;
     dirty_extents := Extents.new; logical_size := size; last_access := now; state := Clean |}.

Definition with_state (e : CacheEntry) (s : CacheState) (d : Extents.DirtyExtents) : CacheEntry :=
  {| node_id := node_id e; base_version_id := base_version_id e; generation := generation e;
     local_path := local_path e; dirty_extents := d; logical_size := logical_size e;
     last_access := last_access e; state := s |}.

Definition is_dirty (e : CacheEntry) : bool :=
  bool_decide (state e = Dirty) || Extents.is_dirty (dirty_extents e).

Definition is_evictable (e : CacheEntry) : bool :=
  bool_decide (state e = Clean) && negb (Extents.is_dirty (dirty_extents e)).

Definition mark_dirty (r : Extents.Range) (e : CacheEntry) : CacheEntry :=
  with_state e Dirty (Extents.insert (dirty_extents e) r).

Definition mark_clean (e : CacheEntry) : CacheEntry :=
  with_state e Clean (Extents.clear_all (dirty_extents e)).

Definition mark_committing (e : CacheEntry) : bool * CacheEntry :=
  if bool_decide (state e = Dirty) then (true, with_state e Committing (dirty_extents e))
  else (false, e).

Definition mark_conflicted (e : CacheEntry) : CacheEntry :=
  with_state e Conflicted (dirty_extents e).

Definition touch (now : Z) (e : CacheEntry) : CacheEntry :=
  {| node_id := node_id e; base_version_id := base_version_id e; generation := generation e;
     local_path := local_path e; dirty_extents := dirty_extents e;
     logical_size := logical_size e; last_access := now; state := state e |}.

(** What holds of every entry an operation produces. *)
Definition wf (e : CacheEntry) : Prop :=
  Extents.wf (dirty_extents e) /\ (state e = Clean -> dirty_extents e = []).

End Entry.

Module Manager.
Import Entry.

Record CacheManager : Type := {
  entries : gmap Uuid CacheEntry;
  byte_budget : Z;
  current_bytes : Z;
  cache_dir : path;
}.

Definition new (dir : path) (budget : Z) : CacheManager :=
  {| entries := ∅; byte_budget := budget; current_bytes := 0; cache_dir := dir |}.

Definition with_entries (m : CacheManager) (es : gmap Uuid CacheEntry) (bytes : Z) : CacheManager :=
  {| entries := es; byte_budget := byte_budget m; current_bytes := bytes; cache_dir := cache_dir m |}.

(** [get_or_create]: [now] when the entry is made, [now'] when it is touched. *)
Definition get_or_create (id : Uuid) (base : option Uuid) (gen size now now' : Z)
    (m : CacheManager) : CacheManager :=
  let m := match entries m !! id with
           | Some _ => m
           | None =>
               with_entries m
                 (<[id := Entry.new id base gen (cache_dir m ++ [OfUuid id]) size now]> (entries m))
                 (current_bytes m +u size)
           end in
  with_entries m (alter (touch now') id (entries m)) (current_bytes m).

Definition get (id : Uuid) (now : Z) (m : CacheManager) : CacheManager :=
  with_entries m (alter (touch now) id (entries m)) (current_bytes m).

Definition remove (id : Uuid) (m : CacheManager) : bool * CacheManager :=
  match entries m !! id with
  | None => (false, m)
  | Some e =>
      if is_evictable e
      then (true, with_entries m (delete id (entries m))
                    (saturating_sub (current_bytes m) (logical_size e)))
      else (false, m)
  end.

Section WithOrder.
Context `{HashOrder}.

(** [iter.min_by_key(last_access)]: the first entry of least key. *)
Fixpoint min_by_access (l : list (Uuid * CacheEntry)) : option (Uuid * CacheEntry) :=
  match l with
  | [] => None
  | p :: l' =>
      match min_by_access l' with
      | None => Some p
      | Some q => if last_access p.2 <=? last_access q.2 then Some p else Some q
      end
  end.

(** The oldest entry that may be evicted. *)
Definition oldest (m : CacheManager) : option (Uuid * CacheEntry) :=
  min_by_access (filter (fun p => is_evictable p.2 = true) (hm_iter (entries m))).

(** The [while] of [evict_if_needed]; [n] bounds the iterations. *)
Fixpoint evict_loop (n : nat) (m : CacheManager) : CacheManager :=
  match n with
  | O => m
  | S n' =>
      if byte_budget m <? current_bytes m then
        match oldest m with
        | None => m
        | Some (id, e) =>
            evict_loop n' (with_entries m (delete id (entries m))
                             (saturating_sub (current_bytes m) (logical_size e)))
        end
      else m
  end.

(** Each iteration removes an entry, so one more than their number is enough. *)
Definition evict_if_needed (m : CacheManager) : CacheManager :=
  evict_loop (S (size (entries m))) m.

Definition dirty_entries (m : CacheManager) : list CacheEntry :=
  filter (fun e => Entry.is_dirty e = true) (hm_values (entries m)).

(** ** [ThreadSafeCacheManager]: the steps other threads can observe *)

Inductive op : Type :=
| OpGetOrCreate (id : Uuid) (base : option Uuid) (gen size now now' : Z)
| OpGet (id : Uuid) (now : Z)
| OpRemove (id : Uuid)
| OpEvict
| OpMarkDirty (id : Uuid) (now : Z) (r : Extents.Range)
| OpMarkClean (id : Uuid) (now : Z)
| OpMarkCommitting (id : Uuid) (now : Z)
| OpMarkConflicted (id : Uuid) (now : Z).

(** [mgr.get(id)] followed by an update of the entry it returned. *)
Definition update_entry (id : Uuid) (now : Z) (f : CacheEntry -> CacheEntry) (m : CacheManager) : CacheManager :=
  let m := get id now m in
  with_entries m (alter f id (entries m)) (current_bytes m).

Definition step (o : op) (m : CacheManager) : CacheManager :=
  match o with
  | OpGetOrCreate id base gen size now now' => get_or_create id base gen size now now' m
  | OpGet id now => get id now m
  | OpRemove id => (remove id m).2
  | OpEvict => evict_if_needed m
  | OpMarkDirty id now r => update_entry id now (mark_dirty r) m
  | OpMarkClean id now => update_entry id now mark_clean m
  | OpMarkCommitting id now => update_entry id now (fun e => (mark_committing e).2) m
  | OpMarkConflicted id now => update_entry id now mark_conflicted m
  end.

Definition run (ops : list op) (m : CacheManager) : CacheManager := foldl (flip step) m ops.

End WithOrder.

(** ** Specification *)

Abbreviation total := (msum logical_size).

(** The accounting is exact and every entry is well formed. *)
Definition wf (m : CacheManager) : Prop :=
  current_bytes m = total (entries m) /\
  map_Forall (fun id e => Entry.wf e /\ node_id e = id /\ 0 <= logical_size e) (entries m).

(** The sizes this operation would bring in still fit the counter. *)
Definition fits (o : op) (m : CacheManager) : Prop :=
  match o with
  | OpGetOrCreate id _ _ size _ _ =>
      0 <= size /\ (entries m !! id = None -> total (entries m) + size < 2 ^ 64)
  | _ => True
  end.

(** The position [x] of node [id] holds a modification that is only here. *)
Definition unsaved (id : Uuid) (x : Z) (m : CacheManager) : Prop :=
  exists e, entries m !! id = Some e /\ Extents.dirty_at (dirty_extents e) x.

End Manager.

(** ** Lemmas *)
Module ManagerFacts.
Import Entry Manager.

Lemma wf_total_nonneg m : wf m -> 0 <= total (entries m).
Proof.
  intros [_ Hm]. apply msum_nonneg. eapply map_Forall_impl; [exact Hm|]. naive_solver.
Qed.

(** Entry updates keep what [wf] asks of one entry. *)
Definition keeps (f : CacheEntry -> CacheEntry) : Prop := forall e,
  Entry.wf e ->
  Entry.wf (f e) /\ node_id (f e) = node_id e /\ logical_size (f e) = logical_size e.

Lemma keeps_touch now : keeps (touch now).
Proof. intros e [? ?]. by split. Qed.
Lemma keeps_mark_dirty r : keeps (mark_dirty r).
Proof.
  intros e [? ?]. split; [|done]. split; simpl; [|done].
  by apply Extents.insert_keeps_wf.
Qed.
Lemma keeps_mark_clean : keeps mark_clean.
Proof. intros e [? ?]. split; [|done]. split; simpl; [apply Extents.wf_nil|done]. Qed.
Lemma keeps_mark_committing : keeps (fun e => (mark_committing e).2).
Proof. intros e [? ?]. unfold mark_committing. by case_bool_decide. Qed.
Lemma keeps_mark_conflicted : keeps mark_conflicted.
Proof. intros e [? ?]. by split. Qed.
#[export] Hint Resolve keeps_touch keeps_mark_dirty keeps_mark_clean
  keeps_mark_committing keeps_mark_conflicted : dcfs.

Lemma wf_alter m id f :
  (forall e, logical_size (f e) = logical_size e) -> keeps f -> wf m ->
  wf (with_entries m (alter f id (entries m)) (current_bytes m)).
Proof.
  intros Hsz Hf [Hb Hm]. split; simpl; [by rewrite msum_alter|].
  intros j e. rewrite lookup_alter. case_decide as Hj.
  - subst. intros (e' & He' & ->)%fmap_Some. apply Hm in He' as (H1 & H2 & H3).
    destruct (Hf _ H1) as (? & ? & ?). rewrite Hsz. by split_and!; [|congruence|].
  - intros He. by apply Hm in He.
Qed.

Lemma update_entry_wf m id now f :
  (forall e, logical_size (f e) = logical_size e) -> keeps f -> wf m ->
  wf (update_entry id now f m).
Proof. intros. unfold update_entry, get. apply wf_alter; auto. apply wf_alter; auto with dcfs. Qed.

Lemma wf_delete m id e :
  wf m -> entries m !! id = Some e ->
  wf (with_entries m (delete id (entries m)) (saturating_sub (current_bytes m) (logical_size e))).
Proof.
  intros Hwf He. pose proof Hwf as [Hb Hm]. split; simpl.
  - assert (Hn : wf (with_entries m (delete id (entries m)) (total (delete id (entries m))))).
    { split; simpl; [done|]. by apply map_Forall_delete. }
    apply wf_total_nonneg in Hn. simpl in Hn.
    rewrite Hb, (msum_delete _ _ _ _ He). unfold saturating_sub. lia.
  - by apply map_Forall_delete.
Qed.

Section WithOrder.
Context `{HashOrder}.

Lemma min_by_access_spec l :
  match min_by_access l with
  | None => l = []
  | Some p => p ∈ l /\ Forall (fun q => last_access p.2 <= last_access q.2) l
  end.
Proof.
  induction l as [|p l IH]; simpl; [done|].
  destruct (min_by_access l) as [q|].
  - destruct IH as [Hq Hl]. destruct (Z.leb_spec (last_access p.2) (last_access q.2)).
    + split; [set_solver|]. constructor; [lia|].
      eapply Forall_impl; [exact Hl|]. simpl. lia.
    + split; [set_solver|]. constructor; [lia|done].
  - subst. split; [set_solver|]. repeat constructor. lia.
Qed.

Lemma oldest_Some m id e :
  oldest m = Some (id, e) ->
  entries m !! id = Some e /\ is_evictable e = true /\
  (forall j e', entries m !! j = Some e' -> is_evictable e' = true -> last_access e <= last_access e').
Proof.
  unfold oldest. intros Ho.
  pose proof (min_by_access_spec (filter (fun p => is_evictable p.2 = true) (hm_iter (entries m)))) as Hs.
  rewrite Ho in Hs. destruct Hs as [Hin Hall].
  apply list_elem_of_filter in Hin as [He Hin%elem_of_hm_iter]. split_and!; try done.
  intros j e' Hj He'. rewrite Forall_forall in Hall. apply (Hall (j, e')).
  apply list_elem_of_filter. split; [done|]. by apply elem_of_hm_iter.
Qed.

Lemma oldest_None m :
  oldest m = None -> map_Forall (fun _ e => is_evictable e = false) (entries m).
Proof.
  unfold oldest. intros Ho id e He.
  pose proof (min_by_access_spec (filter (fun p => is_evictable p.2 = true) (hm_iter (entries m)))) as Hs.
  rewrite Ho in Hs. destruct (is_evictable e) eqn:Hev; [|done].
  assert (Hin : (id, e) ∈ filter (fun p => is_evictable p.2 = true) (hm_iter (entries m))).
  { apply list_elem_of_filter. split; [done|]. by apply elem_of_hm_iter. }
  rewrite Hs in Hin. by apply not_elem_of_nil in Hin.
Qed.

(** What one eviction sweep does, by induction on the iterations. *)
Lemma evict_loop_spec n m :
  wf m -> (size (entries m) < n)%nat ->
  let m' := evict_loop n m in
  wf m' /\ byte_budget m' = byte_budget m /\
  (current_bytes m' <= byte_budget m' \/ map_Forall (fun _ e => is_evictable e = false) (entries m')) /\
  entries m' ⊆ entries m /\
  (forall id e, entries m !! id = Some e -> entries m' !! id = None ->
     is_evictable e = true /\
     forall j e', entries m' !! j = Some e' -> is_evictable e' = true -> last_access e <= last_access e').
Proof.
  revert m. induction n as [|n IH]; intros m Hwf Hn; [lia|]. simpl.
  destruct (Z.ltb_spec (byte_budget m) (current_bytes m)).
  2: { split_and!; [done|done|left; lia|done|]. intros; congruence. }
  destruct (oldest m) as [[id e]|] eqn:Ho.
  2: { split_and!; [done|done|right; by apply oldest_None|done|]. intros; congruence. }
  apply oldest_Some in Ho as (He & Hev & Hmin).
  specialize (IH (with_entries m (delete id (entries m)) (saturating_sub (current_bytes m) (logical_size e)))).
  destruct IH as (H1 & H2 & H3 & H4 & H5); [by apply wf_delete| |].
  { simpl. rewrite <-(insert_delete_id (entries m) id e), map_size_insert_None in Hn
      by (done || apply lookup_delete_eq). lia. }
  simpl in H4. split_and!; [done|done|done| |].
  - etrans; [exact H4|]. apply delete_subseteq.
  - intros j e' Hj Hgone. destruct (decide (id = j)) as [->|Hne].
    + replace e' with e in * by congruence. split; [done|]. intros k e2 Hk. apply (Hmin k).
      eapply lookup_weaken; [exact Hk|]. etrans; [exact H4|]. apply delete_subseteq.
    + apply (H5 j e'); [|done]. simpl. by rewrite lookup_delete_ne.
Qed.

Lemma step_wf o m : wf m -> fits o m -> wf (step o m).
Proof.
  intros Hwf Hfit. destruct o; simpl in *;
    try (apply update_entry_wf; [by intros []|by auto with dcfs|done]).
  - unfold get_or_create. apply wf_alter; [done|auto with dcfs|]. destruct (entries m !! id) eqn:He; [done|].
    pose proof Hwf as [Hb Hm]. destruct Hfit as [Hs Hfit]. specialize (Hfit eq_refl).
    pose proof (wf_total_nonneg m Hwf). split; simpl.
    + rewrite msum_insert by done. simpl. rewrite Hb. unfold wrapping_add, u64.
      rewrite Z.mod_small; lia.
    + apply map_Forall_insert_2; [|done]. simpl. split_and!; [|done|done]. by repeat constructor.
  - unfold get. apply wf_alter; auto with dcfs.
  - unfold remove. destruct (entries m !! id) eqn:He; [|done].
    destruct (is_evictable _); [|done]. by apply wf_delete.
  - by apply evict_loop_spec; [|lia].
  - apply update_entry_wf; [|auto with dcfs|done]. intros e. unfold mark_committing. by case_bool_decide.
Qed.

Lemma evict_if_needed_keeps m id e :
  wf m -> entries m !! id = Some e -> is_evictable e = false ->
  entries (evict_if_needed m) !! id = Some e.
Proof.
  intros Hwf He Hev.
  destruct (evict_loop_spec (S (size (entries m))) m Hwf) as (_ & _ & _ & H4 & H5); [lia|].
  fold (evict_if_needed m) in *.
  destruct (entries (evict_if_needed m) !! id) as [e'|] eqn:He'.
  - rewrite <-He. symmetry. by eapply lookup_weaken in He'; [rewrite He'|].
  - destruct (H5 _ _ He He') as [? _]. congruence.
Qed.

(** ** Properties *)

(** Eviction. It ends within the byte budget, or when nothing that may be evicted is
    left; an entry with unsaved or conflicting data is never evicted; and an evicted
    entry was never used later than one that could have gone instead. The byte
    accounting stays exact. *)
Theorem evict_if_needed_correct m :
  wf m ->
  let m' := evict_if_needed m in
  wf m' /\
  (current_bytes m' <= byte_budget m \/
   map_Forall (fun _ e => is_evictable e = false) (entries m')) /\
  (forall id e, entries m !! id = Some e -> is_evictable e = false -> entries m' !! id = Some e) /\
  (forall id e, entries m !! id = Some e -> entries m' !! id = None ->
     forall j e', entries m' !! j = Some e' -> is_evictable e' = true -> last_access e <= last_access e').
Proof.
  intros Hwf. destruct (evict_loop_spec (S (size (entries m))) m Hwf) as (H1 & H2 & H3 & H4 & H5); [lia|].
  fold (evict_if_needed m) in *. simpl. rewrite H2 in H3. split_and!; [done|done| |].
  - intros id e He Hev. by apply evict_if_needed_keeps.
  - intros id e He Hgone. by apply (H5 id e).
Qed.

Lemma unsaved_alter m id id' x f :
  (id = id' -> forall e y, Extents.wf (dirty_extents e) ->
     Extents.dirty_at (dirty_extents e) y -> Extents.dirty_at (dirty_extents (f e)) y) ->
  wf m -> unsaved id x m ->
  unsaved id x (with_entries m (alter f id' (entries m)) (current_bytes m)).
Proof.
  intros Hf [_ Hm] (e & He & Hx). unfold unsaved. simpl. rewrite lookup_alter.
  case_decide as Hd; subst.
  - exists (f e). rewrite He. split; [done|]. apply Hf; [done| |done]. by apply (Hm _ _ He).
  - eauto.
Qed.

Lemma step_unsaved o m id x :
  wf m -> fits o m -> (forall now, o <> OpMarkClean id now) -> unsaved id x m -> unsaved id x (step o m).
Proof.
  intros Hwf Hfit Hclean Hun.
  assert (Hget : forall id' now, unsaved id x (get id' now m)) by (intros; by apply unsaved_alter).
  assert (Hwget : forall id' now, wf (get id' now m)) by (intros; apply wf_alter; auto with dcfs).
  assert (Hev : exists e, entries m !! id = Some e /\ is_evictable e = false /\
                 Extents.dirty_at (dirty_extents e) x).
  { destruct Hun as (e & He & Hx). exists e. split_and!; [done| |done]. unfold is_evictable, Extents.is_dirty.
    rewrite (bool_decide_true (dirty_extents e <> [])); [by rewrite andb_false_r|].
    intros Hnil. rewrite Hnil in Hx. by apply Extents.dirty_at_nil in Hx. }
  destruct Hev as (e & He & Hev & Hx). destruct o as [| | | |id' now r|id' now|id' now|id' now]; simpl in *;
    try apply Hget; try (apply unsaved_alter; [|by apply Hwget|by apply Hget]).
  - unfold get_or_create. destruct (entries m !! id0) eqn:H0; [by apply Hget|].
    destruct (decide (id = id0)); [congruence|].
    exists e. simpl. by rewrite lookup_alter_ne, lookup_insert_ne by done.
  - unfold remove. destruct (entries m !! id0) as [e0|] eqn:H0; [|done].
    destruct (is_evictable e0) eqn:He0; [|done]. destruct (decide (id0 = id)); [congruence|].
    exists e. simpl. by rewrite lookup_delete_ne.
  - exists e. split; [|done]. by apply evict_if_needed_keeps.
  - intros _ e' y Hw Hy. simpl. apply Extents.insert_dirty_at; auto.
  - intros ->. by destruct (Hclean now).
  - intros _ e' y Hw Hy. unfold mark_committing. by case_bool_decide.
  - intros _ e' y Hw Hy. done.
Qed.

(** C35 A modification that is only in the cache is never lost: whatever sequence of
    operations the threads of the mount run, the position stays dirty and its entry
    stays cached until the node is marked clean, which its commit does. *)
Theorem unsaved_never_lost ops m id x :
  wf m -> unsaved id x m ->
  (forall ops1 o ops2, ops = ops1 ++ o :: ops2 ->
     fits o (run ops1 m) /\ forall now, o <> OpMarkClean id now) ->
  unsaved id x (run ops m) /\ wf (run ops m).
Proof.
  revert m. induction ops as [|o ops IH]; intros m Hwf Hun Hops; [done|].
  destruct (Hops [] o ops eq_refl) as [Hfit Hne]. simpl in *. apply IH.
  - by apply step_wf.
  - by apply step_unsaved.
  - intros ops1 o' ops2 ->. apply (Hops (o :: ops1) o' ops2 eq_refl).
Qed.

End WithOrder.

Lemma new_wf dir budget : wf (Manager.new dir budget).
Proof. by split. Qed.

(** A cache over its budget, with one dirty and one clean file of four bytes. *)
Definition two_files : CacheManager :=
  run [OpGetOrCreate 1 None 0 4 10 11; OpGetOrCreate 2 None 0 4 12 13; OpMarkDirty 1 14 (Extents.mkRange 0 2)]
    (Manager.new [] 5).

Lemma two_files_wf : wf two_files.
Proof.
  unfold two_files, run. repeat apply step_wf; [apply new_wf|..|done];
    (split; [lia|]; intros _; vm_compute; reflexivity).
Qed.

Lemma two_files_unsaved : unsaved 1 0 two_files.
Proof.
  eexists. split; [reflexivity|]. exists (Extents.mkRange 0 2). split; [left|].
  unfold Extents.in_range. simpl. lia.
Qed.

Lemma evict_if_needed_correct_witness :
  is_Some (entries (evict_if_needed two_files) !! 1%N) /\ entries (evict_if_needed two_files) !! 2%N = None.
Proof.
  split; [|reflexivity].
  destruct (evict_if_needed_correct two_files two_files_wf) as (_ & _ & Hkeep & _).
  eexists. apply Hkeep; reflexivity.
Defined.

Lemma unsaved_never_lost_witness :
  unsaved 1 0 (run [OpGet 1 20; OpEvict; OpMarkConflicted 1 21; OpEvict] two_files).
Proof.
  refine (proj1 (unsaved_never_lost _ two_files 1 0 two_files_wf two_files_unsaved _)).
  intros ops1 o ops2 Hops.
  do 4 (destruct ops1 as [|? ops1]; [by simplify_eq/=|injection Hops as _ Hops]).
  by destruct ops1.
Defined.

End ManagerFacts.
