(* ===== verification/BlockCache.v ===== *)
(** * The block cache of the mount

    Models [src/crates/dcfs-fuse/src/blockcache.rs]. The cache directory is a map from
    blocks to file contents ([path_of] names one file per block), beside the accounting
    that the mutex protects. Every file operation may fail: [faults n k] says whether
    the [n]-th one fails for the file of block [k]. *)
From S2P Require Import Prelude.

Module BlockCache.

Definition BLOCK_SIZE : Z := 1024 * 1024.

Inductive Mode : Type :=
| Stream (budget_bytes : Z)
| Mirror.

Definition is_mirror (m : Mode) : bool := match m with Mirror => true | _ => false end.

Record Key : Type := mkKey { node_id : Uuid; version_id : Uuid; index : Z }.
#[global] Instance Key_eq_dec : EqDecision Key.
Proof. solve_decision. Defined.
#[global] Program Instance Key_countable : Countable Key :=
  inj_countable' (fun k => (node_id k, version_id k, index k)) (fun t => mkKey t.1.1 t.1.2 t.2) _.
Next Obligation. by intros []. Qed.

(** [State] and the directory: [blocks] holds a block's size on disk and the tick of
    its last use, [bytes] their sum; [io] counts the file operations so far. *)
Record Cache : Type := {
  disk : gmap Key bytes;
  blocks : gmap Key (Z * Z);
  next_tick : Z;
  held : Z;
  io : nat;
}.

(** [open] empties the directory. *)
Definition new : Cache := {| disk := ∅; blocks := ∅; next_tick := 0; held := 0; io := 0 |}.

Definition with_state (c : Cache) (bs : gmap Key (Z * Z)) (tick total : Z) : Cache :=
  {| disk := disk c; blocks := bs; next_tick := tick; held := total; io := io c |}.
Definition with_disk (c : Cache) (d : gmap Key bytes) : Cache :=
  {| disk := d; blocks := blocks c; next_tick := next_tick c; held := held c; io := S (io c) |}.

Section Ops.
Context `{HashOrder} (mode : Mode) (faults : nat -> Key -> bool).

(** Dropping a block from the accounting. *)
Definition forget (key : Key) (c : Cache) : Cache :=
  match blocks c !! key with
  | Some (size, _) => with_state c (delete key (blocks c)) (next_tick c) (saturating_sub (held c) size)
  | None => c
  end.

Definition load (key : Key) (c : Cache) : option bytes * Cache :=
  match blocks c !! key with
  | None => (None, c)
  | Some (size, _) =>
      let c := with_state c (<[key := (size, next_tick c)]> (blocks c)) (next_tick c +u 1) (held c) in
      let read := if faults (io c) key then None else disk c !! key in
      let c := with_disk c (disk c) in
      match read with
      | Some (b :: rest) => (Some (b :: rest), c)
      | _ => (None, forget key c)
      end
  end.

(** Sorting by tick; ticks are unique, so an unstable sort gives the same. *)
Fixpoint age_insert (p : Z * Key) (l : list (Z * Key)) : list (Z * Key) :=
  match l with
  | [] => [p]
  | q :: l' => if p.1 <=? q.1 then p :: q :: l' else q :: age_insert p l'
  end.
Definition sort_by_age (l : list (Z * Key)) : list (Z * Key) := foldr age_insert [] l.

Fixpoint evict_oldest (budget : Z) (by_age : list (Z * Key)) (c : Cache) : list Key * Cache :=
  match by_age with
  | [] => ([], c)
  | (_, key) :: rest =>
      if held c <=? budget then ([], c) else
      match blocks c !! key with
      | Some _ => let '(victims, c) := evict_oldest budget rest (forget key c) in (key :: victims, c)
      | None => evict_oldest budget rest c
      end
  end.
Definition pick_victims (budget : Z) (c : Cache) : list Key * Cache :=
  if held c <=? budget then ([], c) else
  evict_oldest budget (sort_by_age ((fun p : Key * (Z * Z) => (p.2.2, p.1)) <$> hm_iter (blocks c))) c.

Definition unlink (key : Key) (c : Cache) : Cache :=
  with_disk c (if faults (io c) key then disk c else delete key (disk c)).

(** The locked part of [store]: account for the block and choose what to evict. *)
Definition account (key : Key) (size : Z) (c : Cache) : list Key * Cache :=
  let total := match blocks c !! key with
               | Some (old, _) => saturating_sub (held c) old
               | None => held c
               end in
  let c := with_state c (<[key := (size, next_tick c)]> (blocks c)) (next_tick c +u 1) (total +u size) in
  match mode with
  | Mirror => ([], c)
  | Stream budget_bytes => pick_victims budget_bytes c
  end.

(** Creating the directory, writing the temporary file and renaming it into place may
    each fail, which leaves the block as it was. *)
Definition store (key : Key) (data : bytes) (c : Cache) : Cache :=
  if bool_decide (data = []) then c else
  if faults (io c) key then with_disk c (disk c) else
  let c := with_disk c (disk c) in
  if faults (io c) key then with_disk c (disk c) else
  let c := with_disk c (disk c) in
  if faults (io c) key then with_disk c (disk c) else
  let c := with_disk c (<[key := data]> (disk c)) in
  let '(evict, c) := account key (len data) c in
  foldl (fun c key => unlink key c) c evict.

Definition invalidate (node : Uuid) (c : Cache) : Cache :=
  let doomed := filter (fun k => node_id k = node) ((hm_iter (blocks c)).*1) in
  let c := foldl (fun c key => forget key c) c doomed in
  with_disk c (filter (fun p : Key * bytes => node_id p.1 <> node \/ faults (io c) p.1 = true) (disk c)).

(** *** Reading *)

Section Read.
Context {E : Type} (node version : Uuid) (offset size : Z).
(** What the server answers for a block, and the order in which the fetches that are
    under way together complete. *)
Context (fetch : Z -> Z -> result E (bytes * bool)) (completed : list nat -> list nat).

Definition first_block : Z := offset / BLOCK_SIZE.
Definition last_block : Z := (offset +u size -u 1) / BLOCK_SIZE.

Fixpoint load_all (indices : list Z) (c : Cache) : list (option bytes) * Cache :=
  match indices with
  | [] => ([], c)
  | i :: rest =>
      let '(b, c) := load (mkKey node version i) c in
      let '(bs, c) := load_all rest c in (b :: bs, c)
  end.

Definition misses (loaded : list (option bytes)) : list nat :=
  filter (fun slot => loaded !! slot = Some None) (seq 0 (length loaded)).

(** The loop over what was fetched. *)
Fixpoint settle (fetched : list (nat * result E (bytes * bool))) (loaded : list (option bytes)) (c : Cache)
    : result E (list (option bytes)) * Cache :=
  match fetched with
  | [] => (Ok loaded, c)
  | (slot, Err e) :: _ => (Err e, c)
  | (slot, Ok (data, keepable)) :: rest =>
      let c := if keepable : bool then store (mkKey node version (first_block +u Z.of_nat slot)) data c else c in
      settle rest (<[slot := Some data]> loaded) c
  end.

(** The bytes of one block that were asked for; [None] where the code would panic. *)
Definition window (slot : nat) (block : option bytes) : option bytes :=
  data ← block;
  let block_start := (first_block +u Z.of_nat slot) *u BLOCK_SIZE in
  let from := Z.min (saturating_sub offset block_start) (len data) in
  let to := Z.min (offset +u size -u block_start) (len data) in
  slice_checked data from to.

Definition read (c : Cache) : result (fault E) bytes * Cache :=
  if size =? 0 then (Ok [], c) else
  let '(loaded, c) := load_all (seqZ first_block (last_block - first_block + 1)) c in
  let fetched := (fun slot => (slot, fetch ((first_block +u Z.of_nat slot) *u BLOCK_SIZE) BLOCK_SIZE))
                   <$> completed (misses loaded) in
  match settle fetched loaded c with
  | (Err e, c) => (Err (Fail e), c)
  | (Ok loaded, c) =>
      match mapM (fun p => window p.1 p.2) (imap pair loaded) with
      | Some pieces => (Ok (concat pieces), c)
      | None => (Err Panic, c)
      end
  end.

End Read.
End Ops.
End BlockCache.

(** ** Specification and lemmas *)
Module BlockCacheFacts.
Import BlockCache.

(** Block [i] of a file that holds [data]. *)
Definition block_of (data : bytes) (i : Z) : bytes := slice data (i * BLOCK_SIZE) (i * BLOCK_SIZE + BLOCK_SIZE).

Lemma slice_past (l : bytes) a b : 0 <= a -> len l <= b -> slice l a b = zdrop a l.
Proof.
  intros. unfold slice. destruct (decide (len l <= a)).
  - by rewrite zdrop_all, ztake_take, take_nil.
  - apply ztake_all. rewrite len_zdrop. lia.
Qed.

(** The window a read cuts out of a block is its window of the file. *)
Lemma window_slice (l : bytes) start B a b :
  0 <= start -> 0 < B -> 0 <= a -> start < b ->
  let block := slice l start (start + B) in
  slice block (Z.min (saturating_sub a start) (len block)) (Z.min (b - start) (len block))
    = slice l (Z.max a start) (Z.min b (start + B)).
Proof.
  intros Hs HB Ha Hb. cbv zeta. pose proof (len_nonneg l). unfold saturating_sub.
  assert (Hlen : len (slice l start (start + B)) = Z.max 0 (Z.min B (len l - start))) by (rewrite len_slice; lia).
  rewrite Hlen. clear Hlen. set (L := Z.max 0 (Z.min B (len l - start))).
  remember (Z.min (Z.max 0 (a - start)) L) as from eqn:Hfrom. remember (Z.min (b - start) L) as to eqn:Hto.
  assert (Hft : 0 <= from /\ to <= start + B - start) by lia. rewrite slice_slice by (try apply Hft; done).
  assert (Hcase : start + from = Z.max a start /\ start + to = Z.min b (start + B) \/
    start + from = Z.max a start /\ start + to = len l /\ len l <= Z.min b (start + B) \/
    to <= from /\ (Z.min b (start + B) <= Z.max a start \/ len l <= Z.max a start)) by lia.
  assert (Hover : forall x y, 0 <= x -> len l <= x -> slice l x y = []).
  { intros x y Hx Hl. unfold slice. by rewrite zdrop_all, ztake_take, take_nil. }
  destruct Hcase as [[-> ->]|[(-> & -> & Hl)|[Hle [Hle'|Hl]]]].
  - done.
  - by rewrite !slice_past by lia.
  - by rewrite !slice_empty by lia.
  - rewrite slice_empty by lia. rewrite Hover by lia. done.
Qed.

Lemma span_bounds offset size :
  0 <= offset -> 0 < size -> offset + size < 2 ^ 64 ->
  let first := first_block offset in let last := last_block offset size in
  last = (offset + size - 1) / BLOCK_SIZE /\ 0 <= first <= last /\ last * BLOCK_SIZE < offset + size /\
  offset + size <= (last + 1) * BLOCK_SIZE /\ (last + 1) * BLOCK_SIZE <= 2 ^ 64 /\ last - first + 1 <= size / BLOCK_SIZE + 2.
Proof.
  intros Hoff Hsize Hend. cbv zeta.
  assert (Hl : last_block offset size = (offset + size - 1) / BLOCK_SIZE) by (unfold last_block; by unwrap).
  rewrite Hl. unfold first_block, BLOCK_SIZE. split; [done|]. Z.div_mod_to_equations. lia.
Qed.

Section Facts.
Context `{HashOrder} (mode : Mode) (faults : nat -> Key -> bool).
(** What a committed version of a node holds; it never changes. *)
Context (contents : Uuid -> Uuid -> bytes).

(** The file of every block the cache accounts for holds the block it is named after. *)
Definition genuine (c : Cache) : Prop :=
  forall k b, is_Some (blocks c !! k) -> disk c !! k = Some b ->
    b = block_of (contents (node_id k) (version_id k)) (index k).

(** The accounting is exact. *)
Definition exact (c : Cache) : Prop :=
  held c = msum fst (blocks c) /\ map_Forall (fun _ p => 0 <= p.1) (blocks c).
(** And within the budget. *)
Definition accounted (c : Cache) : Prop :=
  exact c /\ match mode with Stream budget => held c <= budget | Mirror => True end.

Lemma exact_nonneg c : exact c -> 0 <= held c.
Proof. intros [-> Hf]. by apply msum_nonneg. Qed.

(** *** Forgetting *)

Lemma forget_disk key c : disk (forget key c) = disk c.
Proof. unfold forget. by destruct (blocks c !! key) as [[]|]. Qed.
Lemma forget_blocks key c : blocks (forget key c) = delete key (blocks c).
Proof.
  unfold forget. destruct (blocks c !! key) as [[]|] eqn:Hk; [done|]. by rewrite delete_id.
Qed.
Lemma forget_exact key c : exact c -> exact (forget key c) /\ held (forget key c) <= held c.
Proof.
  intros [Hh Hf]. unfold forget. destruct (blocks c !! key) as [[size t]|] eqn:Hk; [|done].
  pose proof (msum_elem fst _ _ _ Hf Hk). pose proof (Hf _ _ Hk). pose proof (msum_delete fst _ _ _ Hk).
  unfold exact, saturating_sub. simpl in *. split_and!; [lia|by apply map_Forall_delete|lia].
Qed.

(** *** Eviction *)

Lemma evict_oldest_disk budget l c : disk (evict_oldest budget l c).2 = disk c.
Proof.
  revert c. induction l as [|[t k] l IH]; intros c; simpl; [done|]. destruct (_ <=? _); [done|].
  destruct (blocks c !! k); [|apply IH]. specialize (IH (forget k c)).
  destruct (evict_oldest _ _ _). simpl in *. by rewrite IH, forget_disk.
Qed.

Lemma evict_oldest_spec budget l c :
  exact c -> StronglySorted (fun p q => p.1 <= q.1) l -> NoDup l.*2 ->
  let '(victims, c') := evict_oldest budget l c in
  exact c' /\ held c' <= held c /\
  (held c' <= budget \/ forall t k, (t, k) ∈ l -> blocks c' !! k = None) /\
  (forall k, blocks c' !! k = if bool_decide (k ∈ victims) then None else blocks c !! k) /\
  (forall k, k ∈ victims -> k ∈ l.*2) /\
  (forall t k t' k', (t, k) ∈ l -> k ∈ victims -> (t', k') ∈ l -> is_Some (blocks c' !! k') -> t <= t').
Proof.
  revert c. induction l as [|[t0 k0] l IH]; intros c Hex Hs Hnd; simpl.
  { split_and!; [done|lia|right; set_solver|done|set_solver|set_solver]. }
  inversion Hs as [|? ? Hs' Hall]; subst. apply NoDup_cons in Hnd as [Hk0 Hnd']. rewrite Forall_forall in Hall.
  destruct (Z.leb_spec (held c) budget).
  { split_and!; [done|lia|by left|done|set_solver|set_solver]. }
  assert (Hin : forall t, (t, k0) ∈ l -> False).
  { intros t Ht. apply Hk0, list_elem_of_fmap. by exists (t, k0). }
  destruct (blocks c !! k0) as [p|] eqn:Hb.
  - destruct (forget_exact k0 c Hex) as [Hex' Hle]. specialize (IH (forget k0 c) Hex' Hs' Hnd').
    destruct (evict_oldest budget l (forget k0 c)) as [vs c']. destruct IH as (H1 & H2 & H3 & H4 & H5 & H6).
    rewrite forget_blocks in H4.
    assert (Hgone : blocks c' !! k0 = None).
    { rewrite H4. case_bool_decide; [done|]. apply lookup_delete_eq. }
    split_and!; [done|lia| | |set_solver|].
    + destruct H3 as [?|H3]; [by left|right]. intros t k [[= -> ->]|?]%elem_of_cons; [done|by eapply H3].
    + intros k. rewrite H4. destruct (decide (k = k0)) as [->|Hne].
      * rewrite lookup_delete_eq, (bool_decide_true (k0 ∈ k0 :: vs)) by set_solver. by case_bool_decide.
      * rewrite lookup_delete_ne by done. by rewrite (bool_decide_ext (k ∈ k0 :: vs) (k ∈ vs)) by set_solver.
    + intros t k t' k' [[= -> ->]|Hl]%elem_of_cons Hv [[= -> ->]|Hl']%elem_of_cons Hsome; [lia| | |].
      * by apply (Hall (t', k')).
      * rewrite Hgone in Hsome. by destruct Hsome.
      * apply elem_of_cons in Hv as [->|Hv]; [by destruct (Hin t)|]. by eapply H6.
  - specialize (IH c Hex Hs' Hnd'). destruct (evict_oldest budget l c) as [vs c'].
    destruct IH as (H1 & H2 & H3 & H4 & H5 & H6).
    assert (Hgone : blocks c' !! k0 = None) by (rewrite H4; by case_bool_decide).
    split_and!; [done|done| |done|set_solver|].
    + destruct H3 as [?|H3]; [by left|right]. intros t k [[= -> ->]|?]%elem_of_cons; [done|by eapply H3].
    + intros t k t' k' Hl Hv [[= -> ->]|Hl']%elem_of_cons Hsome; [rewrite Hgone in Hsome; by destruct Hsome|].
      apply elem_of_cons in Hl as [[= -> ->]|Hl]; [by apply H5 in Hv|]. by eapply H6.
Qed.

Lemma age_insert_perm p l : age_insert p l ≡ₚ p :: l.
Proof.
  induction l as [|q l IH]; simpl; [done|]. destruct (_ <=? _); [done|]. rewrite IH. constructor.
Qed.
Lemma sort_by_age_perm l : sort_by_age l ≡ₚ l.
Proof. unfold sort_by_age. induction l as [|p l IH]; simpl; [done|]. by rewrite age_insert_perm, IH. Qed.
Lemma age_insert_sorted p l :
  StronglySorted (fun p q => p.1 <= q.1) l -> StronglySorted (fun p q => p.1 <= q.1) (age_insert p l).
Proof.
  induction 1 as [|q l Hs IH Hall]; simpl; [repeat constructor|].
  destruct (Z.leb_spec p.1 q.1).
  - constructor; [by constructor|]. constructor; [done|]. eapply Forall_impl; [exact Hall|]. simpl. lia.
  - constructor; [done|]. rewrite age_insert_perm. constructor; [lia|done].
Qed.
Lemma sort_by_age_sorted l : StronglySorted (fun p q => p.1 <= q.1) (sort_by_age l).
Proof. unfold sort_by_age. induction l; simpl; [constructor|by apply age_insert_sorted]. Qed.

Lemma pick_victims_disk budget c : disk (pick_victims budget c).2 = disk c.
Proof. unfold pick_victims. destruct (_ <=? _); [done|]. apply evict_oldest_disk. Qed.

Lemma pick_victims_spec budget c :
  exact c -> 0 <= budget ->
  let '(victims, c') := pick_victims budget c in
  exact c' /\ held c' <= budget /\ held c' <= held c /\
  (forall k, blocks c' !! k = if bool_decide (k ∈ victims) then None else blocks c !! k) /\
  (forall k p k' p', blocks c !! k = Some p -> k ∈ victims -> blocks c' !! k' = Some p' -> p.2 <= p'.2).
Proof.
  intros Hex Hbud. unfold pick_victims. destruct (Z.leb_spec (held c) budget).
  { split_and!; [done|done|lia|done|set_solver]. }
  set (l := sort_by_age _).
  assert (Hl : forall t k, (t, k) ∈ l <-> exists s, blocks c !! k = Some (s, t)).
  { intros t k. unfold l. rewrite sort_by_age_perm, list_elem_of_fmap. split.
    - intros ([k' [s t']] & [= -> ->] & Hin%elem_of_hm_iter). by exists s.
    - intros [s Hs]. exists (k, (s, t)). split; [done|]. by apply elem_of_hm_iter. }
  assert (Hnd : NoDup l.*2).
  { unfold l. rewrite sort_by_age_perm, <-list_fmap_compose, hm_iter_perm.
    change (NoDup ((fst <$> map_to_list (blocks c)))). apply NoDup_fst_map_to_list. }
  pose proof (evict_oldest_spec budget l c Hex (sort_by_age_sorted _) Hnd) as Hspec.
  destruct (evict_oldest budget l c) as [vs c']. destruct Hspec as (H1 & H2 & H3 & H4 & H5 & H6).
  split_and!; [done| |done|done|].
  - destruct H3 as [?|H3]; [done|]. destruct H1 as [-> _]. replace (blocks c') with (∅ : gmap Key (Z * Z)); [done|].
    symmetry. apply map_eq. intros k. rewrite lookup_empty. destruct (blocks c' !! k) as [[s t]|] eqn:Hk; [|done].
    rewrite <-Hk. apply (H3 t k), Hl. exists s. rewrite H4 in Hk. by case_bool_decide.
  - intros k [s t] k' [s' t'] Hk Hv Hk'. apply (H6 t k t' k'); [apply Hl; eauto|done| |by rewrite Hk'].
    apply Hl. exists s'. rewrite H4 in Hk'. by case_bool_decide.
Qed.

(** *** Loading *)

Lemma exact_touch key size t c tick :
  exact c -> blocks c !! key = Some (size, t) ->
  exact (with_state c (<[key := (size, tick)]> (blocks c)) (next_tick c +u 1) (held c)).
Proof.
  intros [Hh Hf] Hk. split; simpl.
  - rewrite (msum_replace fst _ _ _ _ Hk). simpl. lia.
  - apply map_Forall_insert_2; [|done]. by apply (Hf _ _ Hk).
Qed.

Lemma load_spec key c :
  let '(r, c') := load faults key c in
  disk c' = disk c /\ (forall b, r = Some b -> disk c !! key = Some b /\ is_Some (blocks c !! key)) /\
  (forall k, is_Some (blocks c' !! k) -> is_Some (blocks c !! k)) /\
  (accounted c -> accounted c' /\ held c' <= held c).
Proof.
  unfold load. destruct (blocks c !! key) as [[size t]|] eqn:Hk; [|by split_and?].
  set (c1 := with_state _ _ _ _).
  assert (Hacc : accounted c -> accounted (with_disk c1 (disk c1)) /\ accounted (forget key (with_disk c1 (disk c1))) /\
    held (forget key (with_disk c1 (disk c1))) <= held c).
  { intros [Hex Hm]. assert (Hex1 : exact (with_disk c1 (disk c1))) by exact (exact_touch key size t c (next_tick c) Hex Hk).
    destruct (forget_exact key _ Hex1) as [Hex2 Hle]. change (held (with_disk c1 (disk c1))) with (held c) in Hle.
    split_and?; [by split|split; [done|]|done]. destruct mode; [|done]. lia. }
  assert (Hmiss : disk (forget key (with_disk c1 (disk c1))) = disk c) by by rewrite forget_disk.
  assert (Htouch : forall k, is_Some (blocks (with_disk c1 (disk c1)) !! k) -> is_Some (blocks c !! k)).
  { intros k. simpl. destruct (decide (k = key)) as [->|]; [by rewrite Hk|by rewrite lookup_insert_ne]. }
  assert (Hdrop : forall k, is_Some (blocks (forget key (with_disk c1 (disk c1))) !! k) -> is_Some (blocks c !! k)).
  { intros k. rewrite forget_blocks. intros [x Hx]. apply Htouch. apply lookup_delete_Some in Hx as [_ ->]. eauto. }
  assert (Hgo : forall r, (forall b, r = Some b -> disk c !! key = Some b) ->
    let '(r', c') := match r with
                     | Some (b :: rest) => (Some (b :: rest), with_disk c1 (disk c1))
                     | _ => (None, forget key (with_disk c1 (disk c1)))
                     end in
    disk c' = disk c /\ (forall b, r' = Some b -> disk c !! key = Some b /\ is_Some (Some (size, t))) /\
    (forall k, is_Some (blocks c' !! k) -> is_Some (blocks c !! k)) /\
    (accounted c -> accounted c' /\ held c' <= held c)).
  { intros [[|b rest]|] Hr; split_and?; try done; try (intros Ha; destruct (Hacc Ha) as (? & ? & ?); split; done).
    intros b' Hb'. split; [by apply Hr|done]. }
  destruct (faults (io c1) key); [by apply (Hgo None)|]. by apply (Hgo (disk c !! key)).
Qed.

(** *** Invalidation *)

Lemma forget_all ks c :
  let c' := foldl (fun c key => forget key c) c ks in
  disk c' = disk c /\ (forall k, blocks c' !! k = if bool_decide (k ∈ ks) then None else blocks c !! k) /\
  (exact c -> exact c' /\ held c' <= held c).
Proof.
  revert c. induction ks as [|k0 ks IH]; intros c; simpl; [by split_and?|].
  destruct (IH (forget k0 c)) as (H1 & H2 & H3). simpl in *. split_and?.
  - by rewrite H1, forget_disk.
  - intros k. rewrite H2, forget_blocks. destruct (decide (k = k0)) as [->|Hne].
    + rewrite lookup_delete_eq, (bool_decide_true (k0 ∈ k0 :: ks)) by set_solver. by case_bool_decide.
    + rewrite lookup_delete_ne by done. by rewrite (bool_decide_ext (k ∈ k0 :: ks) (k ∈ ks)) by set_solver.
  - intros Hex. destruct (forget_exact k0 c Hex) as [Hex' ?]. destruct (H3 Hex') as [??]. split; [done|lia].
Qed.

Lemma invalidate_spec node c :
  let c' := invalidate faults node c in
  (forall k, blocks c' !! k = if bool_decide (node_id k = node) then None else blocks c !! k) /\
  disk c' ⊆ disk c /\ (forall k, node_id k <> node -> disk c' !! k = disk c !! k) /\
  (accounted c -> accounted c' /\ held c' <= held c).
Proof.
  unfold invalidate. set (doomed := filter _ _).
  destruct (forget_all doomed c) as (H1 & H2 & H3). set (c1 := foldl _ c doomed) in *. simpl in *.
  split_and?.
  - intros k. rewrite H2. destruct (blocks c !! k) as [p|] eqn:Hk; [|by case_bool_decide; case_bool_decide].
    rewrite (bool_decide_ext (k ∈ doomed) (node_id k = node)); [done|]. unfold doomed.
    rewrite list_elem_of_filter, list_elem_of_fmap. split; [naive_solver|]. intros Hn. split; [done|].
    exists (k, p). split; [done|]. by apply elem_of_hm_iter.
  - rewrite H1. apply map_filter_subseteq.
  - intros k Hk. rewrite <-H1. apply option_eq. intros b. rewrite map_lookup_filter_Some. simpl. naive_solver.
  - intros [Hex Hm]. destruct (H3 Hex) as [Hex' Hle]. split; [|done]. split; [done|]. destruct mode; [simpl; lia|done].
Qed.

(** *** Storing *)

Context (Hbudget : match mode with Stream budget => 0 <= budget | Mirror => True end).

Lemma account_spec key size c :
  accounted c -> 0 <= size -> held c + size < 2 ^ 64 ->
  let '(victims, c') := account mode key size c in
  disk c' = disk c /\ accounted c' /\ held c' <= held c + size /\
  (mode = Mirror -> victims = []) /\
  (forall k, k <> key -> blocks c' !! k = if bool_decide (k ∈ victims) then None else blocks c !! k) /\
  (forall k p k' p', k <> key -> blocks c !! k = Some p -> k ∈ victims -> blocks c' !! k' = Some p' -> p.2 <= p'.2).
Proof.
  intros [[Hh Hf] Hm] Hsize Hfit. unfold account.
  set (total := match blocks c !! key with Some (old, _) => _ | None => _ end).
  set (c1 := with_state _ _ _ _).
  assert (Hc1 : exact c1 /\ held c1 <= held c + size).
  { pose proof (msum_nonneg fst _ Hf).
    assert (Htot : 0 <= total <= held c /\ msum fst (<[key := (size, next_tick c)]> (blocks c)) = total + size).
    { unfold total. destruct (blocks c !! key) as [[old t]|] eqn:Hk.
      - pose proof (msum_elem fst _ _ _ Hf Hk). pose proof (Hf _ _ Hk). rewrite (msum_replace fst _ _ _ _ Hk).
        unfold saturating_sub. simpl in *. lia.
      - rewrite msum_insert by done. simpl. lia. }
    destruct Htot as [Htot Hsum]. unfold exact. cbn [c1 with_state held blocks]. rewrite Hsum. unwrap.
    split_and?; [lia|by apply map_Forall_insert_2|lia]. }
  destruct Hc1 as [Hex1 Hle1].
  assert (Hother : forall k, k <> key -> blocks c1 !! k = blocks c !! k).
  { intros k Hk. simpl. by rewrite lookup_insert_ne. }
  unfold accounted. destruct mode as [budget|].
  - pose proof (pick_victims_spec budget c1 Hex1 Hbudget) as Hp. pose proof (pick_victims_disk budget c1) as Hd.
    destruct (pick_victims budget c1) as [vs c']. destruct Hp as (H1 & H2 & H3 & H4 & H5).
    split_and?; [done|done|done|lia|done| |].
    + intros k Hk. rewrite H4. by rewrite Hother.
    + intros k p k' p' Hne Hk. apply H5. by rewrite Hother.
  - split_and?; [done|done|done|lia|done| |set_solver]. intros k Hk. by rewrite Hother.
Qed.

Lemma unlink_all ks c :
  let c' := foldl (fun c key => unlink faults key c) c ks in
  disk c' ⊆ disk c /\ blocks c' = blocks c /\ held c' = held c.
Proof.
  revert c. induction ks as [|k ks IH]; intros c; simpl; [done|].
  destruct (IH (unlink faults k c)) as (H1 & H2 & H3). simpl in *. split_and?; [|done|done].
  etrans; [exact H1|]. destruct (faults (io c) k); [done|]. apply delete_subseteq.
Qed.

Lemma store_spec key data c :
  accounted c -> held c + len data < 2 ^ 64 ->
  let c' := store mode faults key data c in
  accounted c' /\ held c' <= held c + len data /\
  (forall k b, disk c' !! k = Some b -> is_Some (blocks c' !! k) ->
     disk c !! k = Some b /\ is_Some (blocks c !! k) \/ k = key /\ b = data) /\
  (forall k, k <> key -> blocks c' !! k = blocks c !! k \/ mode <> Mirror /\ blocks c' !! k = None) /\
  (forall k p k' p', k <> key -> blocks c !! k = Some p -> blocks c' !! k = None ->
     blocks c' !! k' = Some p' -> p.2 <= p'.2).
Proof.
  intros Hacc Hfit. pose proof (len_nonneg data) as Hlen.
  assert (Hsame : forall c', disk c' = disk c -> blocks c' = blocks c -> held c' = held c ->
    accounted c' /\ held c' <= held c + len data /\
    (forall k b, disk c' !! k = Some b -> is_Some (blocks c' !! k) ->
       disk c !! k = Some b /\ is_Some (blocks c !! k) \/ k = key /\ b = data) /\
    (forall k, k <> key -> blocks c' !! k = blocks c !! k \/ mode <> Mirror /\ blocks c' !! k = None) /\
    (forall k p k' p', k <> key -> blocks c !! k = Some p -> blocks c' !! k = None ->
       blocks c' !! k' = Some p' -> p.2 <= p'.2)).
  { intros c' Hd Hb Hh. unfold accounted, exact. rewrite Hd, Hb, Hh. split_and?; [apply Hacc..|lia|by left|by left|congruence]. }
  unfold store. case_bool_decide; [by apply Hsame|].
  do 3 (destruct (faults _ key); [by apply Hsame|]).
  set (c1 := with_disk _ (<[key := data]> _)).
  pose proof (account_spec key (len data) c1 Hacc Hlen Hfit) as Ha. destruct (account mode key (len data) c1) as [vs c2].
  destruct Ha as (H1 & H2 & H3 & H4 & H5 & H6).
  destruct (unlink_all vs c2) as (U1 & U2 & U3). cbv zeta. unfold accounted, exact. rewrite U2, U3.
  split_and?; [apply H2|apply H2|apply H2|exact H3| | |].
  - intros k b Hk Hsome. apply (lookup_weaken _ _ _ _ Hk) in U1. rewrite H1 in U1. cbn [c1 with_disk disk] in U1.
    apply lookup_insert_Some in U1 as [[<- <-]|[Hne ?]]; [by right|left]. split; [done|].
    rewrite (H5 k) in Hsome by done. case_bool_decide; [by destruct Hsome|done].
  - intros k Hk. rewrite (H5 k Hk). case_bool_decide as Hv; [right|by left]. split; [|done].
    intros Hmir. rewrite (H4 Hmir) in Hv. set_solver.
  - intros k p k' p' Hne Hk Hgone. apply (H6 k p k' p' Hne Hk). rewrite (H5 k Hne) in Hgone.
    case_bool_decide; [done|]. change (blocks c1) with (blocks c) in Hgone. congruence.
Qed.

Lemma store_genuine key data c :
  genuine c -> accounted c -> held c + len data < 2 ^ 64 ->
  data = block_of (contents (node_id key) (version_id key)) (index key) ->
  genuine (store mode faults key data c).
Proof.
  intros Hg Ha Hfit Hd k b Hs Hk. destruct (store_spec key data c Ha Hfit) as (_ & _ & Hdisk & _).
  destruct (Hdisk k b Hk Hs) as [[Hold Hs']|[-> ->]]; [by apply Hg|done].
Qed.

(** *** Reading *)

Section Read.
Context {E : Type} (node version : Uuid) (offset size : Z).
Context (fetch : Z -> Z -> result E (bytes * bool)) (completed : list nat -> list nat).
Context (Hcompleted : forall l, completed l ≡ₚ l).
Context (Hoff : 0 <= offset) (Hsize : 0 < size) (Hend : offset + size < 2 ^ 64).

Abbreviation first := (first_block offset).
Abbreviation last := (last_block offset size).
Abbreviation data := (contents node version).

Lemma load_all_spec indices c :
  genuine c -> accounted c ->
  let '(loaded, c') := load_all faults node version indices c in
  length loaded = length indices /\ genuine c' /\ accounted c' /\ held c' <= held c /\
  forall slot i, indices !! slot = Some i ->
    loaded !! slot = Some None \/ loaded !! slot = Some (Some (block_of data i)).
Proof.
  revert c. induction indices as [|i indices IH]; intros c Hg Ha; simpl; [split_and?; done|].
  pose proof (load_spec (mkKey node version i) c) as Hl. destruct (load faults _ c) as [r c1].
  destruct Hl as (Hd & Hr & Hbl & Hacc). destruct (Hacc Ha) as [Ha1 Hh1].
  assert (Hg1 : genuine c1) by (intros k b Hk; rewrite Hd; apply Hg; by apply Hbl).
  specialize (IH c1 Hg1 Ha1). destruct (load_all faults node version indices c1) as [rs c2].
  destruct IH as (H1 & H2 & H3 & H4 & H5). split_and?; [by f_equal/=|done|done|lia|].
  intros [|slot] i' Hi; simpl in *; [|by apply H5]. injection Hi as <-.
  destruct r as [b|]; [right|by left]. do 2 f_equal. by apply (Hg _ _ (proj2 (Hr b eq_refl)) (proj1 (Hr b eq_refl))).
Qed.

(** What the answers of the server have to be for the cache to keep them. *)
Definition trustworthy (slot : nat) (r : result E (bytes * bool)) : Prop :=
  forall d keepable, r = Ok (d, keepable) ->
    len d <= BLOCK_SIZE /\ (keepable = true -> d = block_of data (first + Z.of_nat slot)).

Lemma settle_spec (answer : nat -> result E (bytes * bool)) slots loaded c :
  NoDup slots -> (forall s, s ∈ slots -> (s < length loaded)%nat /\ first + Z.of_nat s < 2 ^ 64 /\ trustworthy s (answer s)) ->
  genuine c -> accounted c -> held c + len slots * BLOCK_SIZE < 2 ^ 64 ->
  let '(r, c') := settle mode faults node version offset ((fun s => (s, answer s)) <$> slots) loaded c in
  genuine c' /\ accounted c' /\
  match r with
  | Ok loaded' => length loaded' = length loaded /\
      forall s, if bool_decide (s ∈ slots)
                then exists d keepable, answer s = Ok (d, keepable) /\ loaded' !! s = Some (Some d)
                else loaded' !! s = loaded !! s
  | Err e => exists s, s ∈ slots /\ answer s = Err e
  end.
Proof.
  revert loaded c. induction slots as [|s slots IH]; intros loaded c Hnd Hs Hg Ha Hfit; simpl.
  { by split_and?. }
  apply NoDup_cons in Hnd as [Hns Hnd]. destruct (Hs s ltac:(left)) as (Hlen & Hidx & Htr).
  rewrite len_cons in Hfit.
  destruct (answer s) as [[d keepable]|e] eqn:Hans; [|split_and?; [done|done|]; exists s; split; [left|done]].
  destruct (Htr d keepable eq_refl) as [Hd Hkeep].
  set (c1 := if keepable then _ else c).
  assert (Hc1 : genuine c1 /\ accounted c1 /\ held c1 <= held c + BLOCK_SIZE).
  { unfold c1. destruct keepable; [|split_and?; [done|done|unfold BLOCK_SIZE; lia]]. pose proof (len_nonneg slots).
    assert (held c + len d < 2 ^ 64) by (unfold BLOCK_SIZE in *; lia). pose proof (Hkeep eq_refl) as Hblk.
    pose proof (len_nonneg d).
    assert (0 <= first) by (unfold first_block, BLOCK_SIZE; Z.div_mod_to_equations; lia). unwrap. split_and?.
    - by apply store_genuine.
    - by apply store_spec.
    - destruct (store_spec (mkKey node version (first + Z.of_nat s)) d c) as (_ & ? & _); [done|done|lia]. }
  destruct Hc1 as (Hg1 & Ha1 & Hh1).
  specialize (IH (<[s := Some d]> loaded) c1 Hnd).
  destruct (settle _ _ _ _ _ _ (<[s := Some d]> loaded) c1) as [r c'].
  destruct IH as (H1 & H2 & H3); [|done|done|lia|].
  { intros s' Hs'. rewrite length_insert. apply Hs. by right. }
  split_and?; [done|done|]. destruct r as [loaded'|e].
  - destruct H3 as [Hl' H3]. rewrite length_insert in Hl'. split; [done|]. intros s'. specialize (H3 s'). destruct (decide (s' = s)) as [->|Hne].
    + rewrite bool_decide_false in H3 by done. rewrite bool_decide_true by left.
      exists d, keepable. rewrite H3. split; [done|]. by apply list_lookup_insert_eq.
    + rewrite (bool_decide_ext (s' ∈ s :: slots) (s' ∈ slots)) by set_solver.
      case_bool_decide; [done|]. rewrite H3. by apply list_lookup_insert_ne.
  - destruct H3 as (s' & ? & ?). exists s'. split; [by right|done].
Qed.

Lemma window_some (slot : nat) d :
  first + Z.of_nat slot <= last ->
  let block_start := (first + Z.of_nat slot) * BLOCK_SIZE in
  window offset size slot (Some d) =
    Some (slice d (Z.min (saturating_sub offset block_start) (len d)) (Z.min (offset + size - block_start) (len d))).
Proof.
  intros Hs. pose proof (span_bounds offset size Hoff Hsize Hend) as (_ & ? & ? & ? & ? & _). cbv zeta. unfold window.
  unfold BLOCK_SIZE in *. cbn [mbind option_bind]. pose proof (len_nonneg d). unwrap.
  apply slice_checked_Some; unfold saturating_sub; lia.
Qed.

Lemma window_block (slot : nat) :
  first + Z.of_nat slot <= last ->
  window offset size slot (Some (block_of data (first + Z.of_nat slot))) =
    Some (slice data (Z.max offset ((first + Z.of_nat slot) * BLOCK_SIZE))
            (Z.min (offset + size) ((first + Z.of_nat slot) * BLOCK_SIZE + BLOCK_SIZE))).
Proof.
  intros Hs. pose proof (span_bounds offset size Hoff Hsize Hend) as (_ & ? & ? & ? & ? & _). rewrite window_some by done. f_equal.
  apply window_slice; unfold BLOCK_SIZE in *; lia.
Qed.

Lemma stitch_spec loaded :
  length loaded = Z.to_nat (last - first + 1) ->
  (forall s, (s < length loaded)%nat -> exists d, loaded !! s = Some (Some d)) ->
  exists pieces, mapM (fun p => window offset size p.1 p.2) (imap pair loaded) = Some pieces /\
    ((forall s, (s < length loaded)%nat -> loaded !! s = Some (Some (block_of data (first + Z.of_nat s)))) ->
     concat pieces = slice data offset (offset + size)).
Proof.
  intros Hlen Hall. pose proof (span_bounds offset size Hoff Hsize Hend) as (_ & Hfl & Hlb & Hle & _ & _).
  destruct (mapM_is_Some_2 (fun p => window offset size p.1 p.2) (imap pair loaded)) as [pieces Hp].
  { apply Forall_lookup_2. intros s x Hx. rewrite list_lookup_imap in Hx.
    apply fmap_Some in Hx as (b & Hb & ->). pose proof (lookup_lt_Some _ _ _ Hb) as Hs.
    destruct (Hall s Hs) as (d & Hd). rewrite Hd in Hb. injection Hb as <-. simpl.
    eexists. apply window_some. lia. }
  exists pieces. split; [done|]. intros Hblocks.
  assert (Hp' : mapM (fun p => window offset size p.1 p.2) (imap pair loaded) =
    Some ((fun i => slice data (Z.max offset (i * BLOCK_SIZE)) (Z.min (offset + size) (i * BLOCK_SIZE + BLOCK_SIZE)))
            <$> seqZ first (last - first + 1))).
  { apply mapM_Some_2, Forall2_same_length_lookup_2.
    - rewrite length_imap, length_fmap, length_seqZ. lia.
    - intros s x y Hx Hy. rewrite list_lookup_imap in Hx. apply fmap_Some in Hx as (b & Hb & ->).
      rewrite list_lookup_fmap in Hy. apply fmap_Some in Hy as (i & Hi & ->). apply lookup_seqZ in Hi as [-> Hi].
      pose proof (lookup_lt_Some _ _ _ Hb) as Hs. rewrite (Hblocks s Hs) in Hb. injection Hb as <-.
      apply window_block. lia. }
  rewrite Hp' in Hp. injection Hp as <-.
  pose proof (concat_range data BLOCK_SIZE offset (offset + size) (Z.to_nat (last - first + 1))) as Hc.
  rewrite Z2Nat.id in Hc by lia. fold first in Hc. rewrite Hc; [|unfold BLOCK_SIZE; lia|done|unfold BLOCK_SIZE in *; lia].
  f_equal. unfold BLOCK_SIZE in *. lia.
Qed.

Lemma read_spec c :
  genuine c -> accounted c -> held c + (size / BLOCK_SIZE + 2) * BLOCK_SIZE < 2 ^ 64 ->
  (forall i d keepable, first <= i <= last -> fetch (i * BLOCK_SIZE) BLOCK_SIZE = Ok (d, keepable) ->
     len d <= BLOCK_SIZE /\ (keepable = true -> d = block_of data i)) ->
  let '(r, c') := read mode faults node version offset size fetch completed c in
  genuine c' /\ accounted c' /\
  match r with
  | Ok out => (forall i d keepable, first <= i <= last -> fetch (i * BLOCK_SIZE) BLOCK_SIZE = Ok (d, keepable) -> d = block_of data i) ->
              out = slice data offset (offset + size)
  | Err (Fail e) => exists i, first <= i <= last /\ fetch (i * BLOCK_SIZE) BLOCK_SIZE = Err e
  | Err Panic => False
  end.
Proof.
  intros Hg Ha Hfit Hfetch. pose proof (span_bounds offset size Hoff Hsize Hend) as (_ & Hfl & Hlb & Hle & H64 & Hn). unfold read.
  rewrite (proj2 (Z.eqb_neq _ _)) by lia.
  pose proof (load_all_spec (seqZ first (last - first + 1)) c Hg Ha) as Hload.
  destruct (load_all faults node version _ c) as [loaded c1]. destruct Hload as (Hlen & Hg1 & Ha1 & Hh1 & Hload).
  rewrite length_seqZ in Hlen.
  set (answer := fun s : nat => fetch ((first +u Z.of_nat s) *u BLOCK_SIZE) BLOCK_SIZE).
  assert (Hslot : forall s, s ∈ completed (misses loaded) <-> loaded !! s = Some None).
  { intros s. rewrite Hcompleted. unfold misses. rewrite list_elem_of_filter, elem_of_seq.
    split; [naive_solver|]. intros Hs. split; [done|]. apply lookup_lt_Some in Hs. lia. }
  assert (Hin : forall s x, loaded !! s = Some x -> first + Z.of_nat s <= last).
  { intros s x Hs%lookup_lt_Some. lia. }
  assert (Hans : forall s, first + Z.of_nat s <= last -> answer s = fetch ((first + Z.of_nat s) * BLOCK_SIZE) BLOCK_SIZE).
  { intros s Hs. unfold answer, BLOCK_SIZE in *. by unwrap. }
  assert (Hok : forall s, s ∈ completed (misses loaded) ->
    (s < length loaded)%nat /\ first + Z.of_nat s < 2 ^ 64 /\ trustworthy s (answer s)).
  { intros s Hs%Hslot. pose proof (Hin _ _ Hs) as Hs'. split_and?.
    - by apply lookup_lt_Some in Hs.
    - unfold BLOCK_SIZE in *. lia.
    - intros d k Hd. rewrite Hans in Hd by done. apply (Hfetch (first + Z.of_nat s) d k); [lia|done]. }
  assert (Hcount : len (completed (misses loaded)) <= last - first + 1).
  { unfold len. rewrite Hcompleted. unfold misses.
    pose proof (length_filter (fun slot => loaded !! slot = Some None) (seq 0 (length loaded))).
    rewrite length_seq in *. lia. }
  assert (Hfit1 : held c1 + len (completed (misses loaded)) * BLOCK_SIZE < 2 ^ 64) by (unfold BLOCK_SIZE in *; lia).
  assert (Hnd : NoDup (completed (misses loaded))) by (rewrite Hcompleted; apply NoDup_filter, NoDup_seq).
  pose proof (settle_spec answer _ loaded c1 Hnd Hok Hg1 Ha1 Hfit1) as Hset. fold answer.
  destruct (settle _ _ _ _ _ _ loaded c1) as [[loaded'|e] c2]; destruct Hset as (Hg2 & Ha2 & Hset).
  2: { split_and?; [done|done|]. destruct Hset as (s & Hs%Hslot & He). pose proof (Hin _ _ Hs).
       exists (first + Z.of_nat s). rewrite Hans in He by done. split; [lia|done]. }
  destruct Hset as [Hlen' Hset].
  assert (Hall : forall s, (s < length loaded)%nat -> exists d, loaded' !! s = Some (Some d) /\
    (d = block_of data (first + Z.of_nat s) \/ exists k, fetch ((first + Z.of_nat s) * BLOCK_SIZE) BLOCK_SIZE = Ok (d, k))).
  { intros s Hs. pose proof (Hset s) as Hset'. case_bool_decide as Hm.
    - destruct Hset' as (d & k & Hd & Hl'). exists d. split; [done|]. right. exists k. rewrite <-Hans; [done|lia].
    - destruct (Hload s (first + Z.of_nat s)) as [Hl|Hl]; [apply lookup_seqZ; lia|by apply Hslot in Hl|].
      eexists. rewrite Hset'. split; [exact Hl|by left]. }
  destruct (stitch_spec loaded') as (pieces & -> & Hcat); [lia|rewrite Hlen'; naive_solver|].
  split_and?; [done|done|]. intros Hsame. apply Hcat. intros s Hs. rewrite Hlen' in Hs.
  destruct (Hall s Hs) as (d & -> & [->|[k Hk]]); [done|]. do 2 f_equal. apply (Hsame _ _ k); [lia|done].
Qed.
End Read.

(** ** Properties *)

(** C36 The cache is transparent. Reading a range of a committed version through the cache
    gives exactly the bytes of that version in the range, whichever blocks are cached,
    in whatever order the missing ones arrive and whichever file operations fail; an
    error is only ever one the server answered. Bytes of a write in progress, which the
    server does not let the cache keep, are never kept, so every cached block stays the
    block it is named after, and the accounting stays exact and within the budget. *)
Theorem read_transparent {E} node version offset size (fetch : Z -> Z -> result E (bytes * bool)) completed c :
  (forall l, completed l ≡ₚ l) -> 0 <= offset -> 0 <= size -> offset + size < 2 ^ 64 ->
  genuine c -> accounted c -> held c + (size / BLOCK_SIZE + 2) * BLOCK_SIZE < 2 ^ 64 ->
  (forall i d keepable, 0 <= i -> fetch (i * BLOCK_SIZE) BLOCK_SIZE = Ok (d, keepable) ->
     len d <= BLOCK_SIZE /\ (keepable = true -> d = block_of (contents node version) i)) ->
  let '(r, c') := read mode faults node version offset size fetch completed c in
  genuine c' /\ accounted c' /\
  match r with
  | Ok out =>
      (forall i d keepable, 0 <= i -> fetch (i * BLOCK_SIZE) BLOCK_SIZE = Ok (d, keepable) ->
         d = block_of (contents node version) i) ->
      out = slice (contents node version) offset (offset + size)
  | Err (Fail e) => exists i, fetch (i * BLOCK_SIZE) BLOCK_SIZE = Err e
  | Err Panic => False
  end.
Proof.
  intros Hperm Hoff Hsize Hend Hg Ha Hfit Hfetch. destruct (decide (size = 0)) as [->|Hne].
  { simpl. split_and?; [done|done|]. intros _. symmetry. apply slice_empty. lia. }
  pose proof (read_spec node version offset size fetch completed Hperm Hoff ltac:(lia) Hend c Hg Ha Hfit) as Hr.
  pose proof (span_bounds offset size Hoff ltac:(lia) Hend) as (_ & Hfl & _).
  destruct (read _ _ _ _ _ _ _ _ c) as [[out|[e|]] c']; (destruct Hr as (? & ? & Hr); [intros i d k ?; apply Hfetch; lia|]); [|destruct Hr as (i & _ & ?)|done].
  { split_and?; [done|done|]. intros Hsame. apply Hr. intros i d k ?. apply Hsame. lia. }
  split_and?; [done|done|]. by exists i.
Qed.

(** Storing a block. The accounting stays exact and, when streaming, within the budget;
    only the least recently used blocks go: whatever is evicted was used no later than
    anything that stays; and a mirror evicts nothing. A failed write changes nothing. *)
Theorem store_correct key data c :
  accounted c -> held c + len data < 2 ^ 64 ->
  let c' := store mode faults key data c in
  accounted c' /\
  (forall k, k <> key -> blocks c' !! k = blocks c !! k \/ mode <> Mirror /\ blocks c' !! k = None) /\
  (forall k p k' p', k <> key -> blocks c !! k = Some p -> blocks c' !! k = None ->
     blocks c' !! k' = Some p' -> p.2 <= p'.2) /\
  (forall k b, disk c' !! k = Some b -> is_Some (blocks c' !! k) ->
     disk c !! k = Some b /\ is_Some (blocks c !! k) \/ k = key /\ b = data).
Proof.
  intros Ha Hfit. destruct (store_spec key data c Ha Hfit) as (H1 & _ & H3 & H4 & H5).
  split; [exact H1|]. split; [exact H4|]. split; [exact H5|exact H3].
Qed.

(** Invalidation. After a file is invalidated, none of its blocks is served from the
    cache again, of any version and even if removing their files fails, and the blocks
    of every other file are as they were. *)
Theorem invalidate_correct node c :
  accounted c -> genuine c ->
  let c' := invalidate faults node c in
  accounted c' /\ genuine c' /\ (forall version i, load faults (mkKey node version i) c' = (None, c')) /\
  (forall k, node_id k <> node -> blocks c' !! k = blocks c !! k /\ disk c' !! k = disk c !! k).
Proof.
  intros Ha Hg. destruct (invalidate_spec node c) as (H1 & H2 & H3 & H4). cbv zeta in *. split_and?.
  - by apply H4.
  - intros k b. rewrite H1. intros Hs Hk. apply Hg; [by case_bool_decide; [destruct Hs|]|by eapply lookup_weaken].
  - intros version i. unfold load. by rewrite H1, bool_decide_true.
  - intros k Hk. rewrite H1, bool_decide_false by done. auto.
Qed.

End Facts.

(** *** Instances *)

Definition hello : bytes := [x68; x65; x6c; x6c; x6f].
Definition hello_contents : Uuid -> Uuid -> bytes := fun _ _ => hello.
Definition serve_hello (offset size : Z) : result unit (bytes * bool) := Ok (slice hello offset (offset + size), true).
Definition no_faults : nat -> Key -> bool := fun _ _ => false.

Lemma new_genuine contents : genuine contents BlockCache.new.
Proof. intros k b _ Hk. by destruct (lookup_empty_Some k b Hk). Qed.
Lemma new_accounted budget : 0 <= budget -> accounted (Stream budget) BlockCache.new.
Proof. intros. split; [|done]. split; [done|]. intros k b Hk. by destruct (lookup_empty_Some k b Hk). Qed.

Lemma read_transparent_witness :
  exists c', read (Stream 100) no_faults 1 2 1 3 serve_hello id BlockCache.new = (Ok [x65; x6c; x6c], c') /\
    genuine hello_contents c' /\ accounted (Stream 100) c'.
Proof.
  assert (Hserve : forall i d keepable, 0 <= i -> serve_hello (i * BLOCK_SIZE) BLOCK_SIZE = Ok (d, keepable) ->
    d = block_of hello i /\ len d <= BLOCK_SIZE).
  { intros i d keepable Hi [= <- _]. split; [done|]. rewrite len_slice. unfold BLOCK_SIZE. lia. }
  pose proof (read_transparent (Stream 100) no_faults hello_contents ltac:(simpl; lia) 1%N 2%N 1 3 serve_hello id
    BlockCache.new ltac:(done) ltac:(lia) ltac:(lia) ltac:(lia) (new_genuine _) (new_accounted 100 ltac:(lia))
    ltac:(vm_compute; reflexivity)
    ltac:(intros i d keepable Hi Hd; destruct (Hserve i d keepable Hi Hd) as [Hb Hl]; split; [exact Hl|intros _; exact Hb])) as Hr.
  destruct (read _ _ _ _ _ _ _ _ BlockCache.new) as [r c'] eqn:Hread. destruct Hr as (Hg & Ha & Hr).
  exists c'. split; [|split; [exact Hg|exact Ha]]. f_equal.
  destruct r as [out|[e|]]; [|destruct Hr as [i Hi]; discriminate Hi|destruct Hr].
  f_equal. rewrite Hr; [reflexivity|]. intros i d keepable Hi Hd. exact (proj1 (Hserve i d keepable Hi Hd)).
Defined.

(** A cache of seven bytes that holds one block of five. *)
Definition one_block : Cache := store (Stream 7) no_faults (mkKey 1 2 0) hello BlockCache.new.

Lemma store_correct_witness :
  accounted (Stream 7) one_block /\
  blocks (store (Stream 7) no_faults (mkKey 3 4 0) hello one_block) !! mkKey 1 2 0 = None /\
  accounted (Stream 7) (store (Stream 7) no_faults (mkKey 3 4 0) hello one_block).
Proof.
  assert (H1 : accounted (Stream 7) one_block).
  { apply (store_correct (Stream 7) no_faults ltac:(simpl; lia) (mkKey 1 2 0) hello BlockCache.new).
    - apply new_accounted. lia.
    - vm_compute. reflexivity. }
  split; [exact H1|]. split; [vm_compute; reflexivity|].
  apply (store_correct (Stream 7) no_faults ltac:(simpl; lia) (mkKey 3 4 0) hello one_block H1).
  vm_compute. reflexivity.
Defined.

Lemma invalidate_correct_witness :
  load no_faults (mkKey 1 2 0) (invalidate no_faults 1 one_block) = (None, invalidate no_faults 1 one_block).
Proof.
  apply (invalidate_correct (Stream 7) no_faults hello_contents 1 one_block).
  - apply store_spec; [simpl; lia|apply new_accounted; lia|vm_compute; reflexivity].
  - apply store_genuine; [simpl; lia|apply new_genuine|apply new_accounted; lia|vm_compute; reflexivity|vm_compute; reflexivity].
Defined.

End BlockCacheFacts.
