(* ===== verification/CacheTasks.v ===== *)
(** * The block cache under concurrent reads

    Models [src/crates/dcfs-fuse/src/blockcache.rs] once more, at the grain at which its
    operations interleave: a section under the mutex is one action, and so is every file
    operation and every fetch. [load], [store], [invalidate] and [read] are programs of such
    actions, and a schedule says whose action is next and what becomes of it. Run alone they
    are the operations of [BlockCache]. Temporary files have names of their own, so no one
    else sees them; removing one is left out. *)
From S2P Require Import Prelude BlockCache.

Module CacheTasks.
Import BlockCache.

Section Programs.
Context `{HashOrder} {E : Type} (mode : Mode).

Inductive Action : Type -> Type :=
| Locked {B : Type} (f : Cache -> B * Cache) : Action B
| Try (key : Key) : Action bool                     (* the directory; the temporary file *)
| Rename (key : Key) (data : bytes) : Action bool   (* the temporary file into place *)
| ReadFile (key : Key) : Action (option bytes)
| Unlink (key : Key) : Action unit
| RemoveDir (node : Uuid) : Action unit
| Fetch (node version : Uuid) (start size : Z) : Action (result E (bytes * bool)).

(** What becomes of an action: for which files it fails, and what the server answers. *)
Record Choice : Type := {
  fails : Key -> bool;
  answered : Uuid -> Uuid -> Z -> Z -> result E (bytes * bool);
}.
Definition perform {B} (ch : Choice) (a : Action B) (c : Cache) : B * Cache :=
  match a in Action B return B * Cache with
  | Locked f => f c
  | Try key => (negb (fails ch key), with_disk c (disk c))
  | Rename key data => if fails ch key then (false, with_disk c (disk c)) else (true, with_disk c (<[key := data]> (disk c)))
  | ReadFile key => (if fails ch key then None else disk c !! key, with_disk c (disk c))
  | Unlink key => (tt, with_disk c (if fails ch key then disk c else delete key (disk c)))
  | RemoveDir node => (tt, with_disk c (filter (fun p : Key * bytes => node_id p.1 <> node \/ fails ch p.1 = true) (disk c)))
  | Fetch node version start size => (answered ch node version start size, c)
  end.

Inductive Prog (A : Type) : Type :=
| Ret (a : A)
| Act {B : Type} (a : Action B) (k : B -> Prog A).
#[global] Arguments Ret {A} _.
#[global] Arguments Act {A B} _ _.
Fixpoint prog_bind {A B} (p : Prog A) (f : A -> Prog B) : Prog B :=
  match p with Ret a => f a | Act a k => Act a (fun b => prog_bind (k b) f) end.
#[global] Instance prog_ret : MRet Prog := fun A a => Ret a.
#[global] Instance prog_mbind : MBind Prog := fun A B f p => prog_bind p f.
Definition act {B} (a : Action B) : Prog B := Act a Ret.

(** ** The operations *)

(** The entry is found and touched. *)
Definition touch (key : Key) (c : Cache) : bool * Cache :=
  match blocks c !! key with
  | None => (false, c)
  | Some (size, _) => (true, with_state c (<[key := (size, next_tick c)]> (blocks c)) (next_tick c +u 1) (held c))
  end.
Definition load (key : Key) : Prog (option bytes) :=
  hit ← act (Locked (touch key));
  if hit : bool then
    read ← act (ReadFile key);
    match read with
    | Some (b :: rest) => mret (Some (b :: rest))
    | _ => _ ← act (Locked (fun c => (tt, forget key c))); mret None
    end
  else mret None.

Fixpoint unlink_each (keys : list Key) : Prog unit :=
  match keys with [] => mret tt | key :: keys => _ ← act (Unlink key); unlink_each keys end.
Definition store (key : Key) (data : bytes) : Prog unit :=
  if bool_decide (data = []) then mret tt else
  made ← act (Try key);
  if negb made then mret tt else
  written ← act (Try key);
  if negb written then mret tt else
  renamed ← act (Rename key data);
  if negb renamed then mret tt else
  evict ← act (Locked (account mode key (len data)));
  unlink_each evict.

Definition drop_node (node : Uuid) (c : Cache) : unit * Cache :=
  (tt, foldl (fun c key => forget key c) c (filter (fun k => node_id k = node) ((hm_iter (blocks c)).*1))).
Definition invalidate (node : Uuid) : Prog unit := _ ← act (Locked (drop_node node)); act (RemoveDir node).

Section Read.
Context (node version : Uuid) (offset size : Z) (completed : list nat -> list nat).

Fixpoint load_all (indices : list Z) : Prog (list (option bytes)) :=
  match indices with
  | [] => mret []
  | i :: rest => b ← load (mkKey node version i); bs ← load_all rest; mret (b :: bs)
  end.
(** The fetches in the order they complete. *)
Fixpoint fetch_all (slots : list nat) : Prog (list (nat * result E (bytes * bool))) :=
  match slots with
  | [] => mret []
  | slot :: rest =>
      r ← act (Fetch node version ((first_block offset +u Z.of_nat slot) *u BLOCK_SIZE) BLOCK_SIZE);
      rs ← fetch_all rest; mret ((slot, r) :: rs)
  end.
Fixpoint settle (fetched : list (nat * result E (bytes * bool))) (loaded : list (option bytes))
    : Prog (result E (list (option bytes))) :=
  match fetched with
  | [] => mret (Ok loaded)
  | (slot, Err e) :: _ => mret (Err e)
  | (slot, Ok (data, keepable)) :: rest =>
      _ ← (if keepable : bool then store (mkKey node version (first_block offset +u Z.of_nat slot)) data else mret tt);
      settle rest (<[slot := Some data]> loaded)
  end.
Definition read : Prog (result (fault E) bytes) :=
  if size =? 0 then mret (Ok []) else
  loaded ← load_all (seqZ (first_block offset) (last_block offset size - first_block offset + 1));
  fetched ← fetch_all (completed (misses loaded));
  settled ← settle fetched loaded;
  mret match settled with
       | Err e => Err (Fail e)
       | Ok loaded => match mapM (fun p => window offset size p.1 p.2) (imap pair loaded) with
                      | Some pieces => Ok (concat pieces)
                      | None => Err Panic
                      end
       end.
End Read.

(** ** Running them *)

(** Alone, with the faults of [BlockCache]. *)
Fixpoint alone {A} (faults : nat -> Key -> bool) (fetch : Uuid -> Uuid -> Z -> Z -> result E (bytes * bool)) (p : Prog A)
    (c : Cache) : A * Cache :=
  match p with
  | Ret a => (a, c)
  | Act a k => let '(b, c) := perform {| fails := faults (io c); answered := fetch |} a c in alone faults fetch (k b) c
  end.

(** Together: what the kernel asks for, and whose action is next. *)
Inductive Request : Type :=
| ReadRequest (node version : Uuid) (offset size : Z) (completed : list nat -> list nat)
| InvalidateRequest (node : Uuid).
Inductive Outcome : Type := Served (r : result (fault E) bytes) | Forgotten.
Definition program (q : Request) : Prog Outcome :=
  match q with
  | ReadRequest node version offset size completed => r ← read node version offset size completed; mret (Served r)
  | InvalidateRequest node => _ ← invalidate node; mret Forgotten
  end.
Record State : Type := { cache : Cache; tasks : gmap nat (Prog Outcome) }.
Definition start (c : Cache) (requests : gmap nat Request) : State := {| cache := c; tasks := program <$> requests |}.
(** An event is the next action of a task, or a file that vanishes under the cache; so a
    directory that is removed file by file is covered too. *)
Inductive Event : Type :=
| Turn (task : nat) (ch : Choice)
| Vanish (key : Key).
Definition step (s : State) (e : Event) : State :=
  match e with
  | Turn t ch =>
      match tasks s !! t with
      | Some (Act a k) => let '(b, c) := perform ch a (cache s) in {| cache := c; tasks := <[t := k b]> (tasks s) |}
      | _ => s
      end
  | Vanish key => {| cache := with_disk (cache s) (delete key (disk (cache s))); tasks := tasks s |}
  end.
Definition run (schedule : list Event) (s : State) : State := foldl step s schedule.

End Programs.
End CacheTasks.
