(* ===== verification/CacheTasksProps.v ===== *)
(** * Concurrent reads through the block cache are right

    The programs of [CacheTasks], run alone, are the operations of [BlockCache]; and however the
    actions of many of them interleave, and whichever fail, every block that is served is the
    block it is named after and the accounting stays exact and within its budget. The proof is
    a small logic: a program is [safe] when each of its actions keeps the invariant from any
    state that has it, whatever the others did in between. *)
From S2P Require Import Prelude BlockCache CacheTasks.

Module CacheTasksFacts.
Import CacheTasks.
Import BlockCache(Cache, Key, mkKey, node_id, version_id, index, disk, blocks, next_tick, io, with_disk, with_state, forget, account, Mode, Stream, Mirror, BLOCK_SIZE, first_block, last_block, misses, window).
Import BlockCacheFacts(block_of, exact, accounted, forget_exact, forget_disk, forget_all, account_spec, exact_touch, span_bounds, stitch_spec).

(** ** Alone they are the operations of the cache *)

Section Alone.
Context `{HashOrder} {E : Type} (mode : Mode) (faults : nat -> Key -> bool).
Context (fetch : Uuid -> Uuid -> Z -> Z -> result E (bytes * bool)).
Abbreviation alone := (alone faults fetch).

Lemma alone_bind {A B} (p : Prog A) (f : A -> Prog B) c : alone (p ≫= f) c = let '(a, c') := alone p c in alone (f a) c'.
Proof.
  unfold mbind, prog_mbind. revert c. induction p as [a|B' a k IH]; intros c; simpl; [done|].
  destruct (perform _ a c) as [b c']. apply IH.
Qed.
Lemma alone_load key c : alone (load key) c = BlockCache.load faults key c.
Proof.
  unfold BlockCache.load, load, touch. simpl. destruct (blocks c !! key) as [[size tick]|]; [|done]. simpl.
  destruct (if faults (io c) key then None else disk c !! key) as [[|b rest]|]; done.
Qed.
Lemma alone_unlink keys c : alone (unlink_each keys) c = (tt, foldl (fun c key => BlockCache.unlink faults key c) c keys).
Proof. revert c. induction keys as [|k keys IH]; intros c; simpl; [done|]. apply IH. Qed.
Lemma alone_store key data c : alone (store mode key data) c = (tt, BlockCache.store mode faults key data c).
Proof.
  unfold BlockCache.store, store. case_bool_decide; [done|]. simpl. destruct (faults (io c) key); [done|]. simpl.
  destruct (faults (S (io c)) key); [done|]. simpl. destruct (faults (S (S (io c))) key); [done|]. simpl.
  destruct (account mode key (len data) _) as [evict c']. apply alone_unlink.
Qed.
Lemma alone_invalidate node c : alone (invalidate node) c = (tt, BlockCache.invalidate faults node c).
Proof. done. Qed.

Lemma alone_load_all node version indices c : alone (load_all node version indices) c = BlockCache.load_all faults node version indices c.
Proof.
  revert c. induction indices as [|i indices IH]; intros c; [done|]. cbn [load_all BlockCache.load_all]. rewrite alone_bind, alone_load.
  destruct (BlockCache.load faults _ c) as [b c1]. rewrite alone_bind, IH. by destruct (BlockCache.load_all faults _ _ _ c1).
Qed.
Lemma alone_fetch_all node version offset slots c :
  alone (fetch_all node version offset slots) c =
  ((fun slot => (slot, fetch node version ((first_block offset +u Z.of_nat slot) *u BLOCK_SIZE) BLOCK_SIZE)) <$> slots, c).
Proof. induction slots as [|s slots IH]; [done|]. cbn [fetch_all]. rewrite alone_bind. cbn -[BLOCK_SIZE]. by rewrite alone_bind, IH. Qed.
Lemma alone_settle node version offset fetched loaded c :
  alone (settle mode node version offset fetched loaded) c = BlockCache.settle mode faults node version offset fetched loaded c.
Proof.
  revert loaded c. induction fetched as [|[s [[d keepable]|e]] fetched IH]; intros loaded c; [done| |done]. cbn [settle BlockCache.settle].
  rewrite alone_bind. destruct keepable; [rewrite alone_store|]; apply IH.
Qed.

(** Reading alone. *)
Lemma alone_read node version offset size completed c :
  alone (read mode node version offset size completed) c =
  BlockCache.read mode faults node version offset size (fetch node version) completed c.
Proof.
  unfold read, BlockCache.read. destruct (size =? 0); [done|]. rewrite alone_bind, alone_load_all.
  destruct (BlockCache.load_all _ _ _ _ c) as [loaded c1]. rewrite alone_bind, alone_fetch_all, alone_bind, alone_settle.
  destruct (BlockCache.settle _ _ _ _ _ _ loaded c1) as [[loaded'|e] c2]; [|done]. simpl. by destruct (mapM _ _).
Qed.
End Alone.

(** ** Together *)

Section Together.
Context `{HashOrder} {E : Type} (mode : Mode).
(** What the versions hold, which of them are committed, and how the server may refuse. *)
Context (contents : Uuid -> Uuid -> bytes) (committed : Uuid -> Uuid -> Prop) (refused : E -> Prop).
Abbreviation Prog := (Prog (E := E)).
Abbreviation Choice := (Choice (E := E)).
Abbreviation Event := (Event (E := E)).
Abbreviation block_at := (fun k : Key => block_of (contents (node_id k) (version_id k)) (index k)).

(** A server whose answers can be kept: no longer than a block, the block itself when they
    may be kept or when the version is committed. *)
Definition honest (ch : Choice) : Prop :=
  forall node version i, 0 <= i ->
    match answered ch node version (i * BLOCK_SIZE) BLOCK_SIZE with
    | Ok (d, keepable) =>
        len d <= BLOCK_SIZE /\ (keepable = true \/ committed node version -> d = block_of (contents node version) i)
    | Err e => refused e
    end.
Definition honest_event (e : Event) : Prop := match e with Turn _ ch => honest ch | Vanish _ => True end.

(** Every file holds the block it is named after, and a streaming cache counts exactly what
    it accounts for and stays within its budget. *)
Definition inv (c : Cache) : Prop :=
  (forall k b, disk c !! k = Some b -> b = block_at k) /\ (mode <> Mirror -> accounted mode c).

(** A program all of whose actions keep the invariant, whatever happens in between, and
    whose result has [Q]. *)
Fixpoint safe {A} (Q : A -> Prop) (p : Prog A) : Prop :=
  match p with
  | Ret a => Q a
  | Act a k => forall ch c, honest ch -> inv c -> inv (perform ch a c).2 /\ safe Q (k (perform ch a c).1)
  end.

Lemma safe_bind {A B} (R : A -> Prop) (Q : B -> Prop) (p : Prog A) (f : A -> Prog B) :
  safe R p -> (forall a, R a -> safe Q (f a)) -> safe Q (p ≫= f).
Proof.
  unfold mbind, prog_mbind. intros Hp Hf. induction p as [a|B' a k IH]; simpl in *; [by apply Hf|].
  intros ch c Hch Hc. destruct (Hp ch c Hch Hc) as [Hc' Hk]. split; [done|by apply IH].
Qed.
Lemma safe_act {B} (Q : B -> Prop) a :
  (forall ch c, honest ch -> inv c -> inv (perform ch a c).2 /\ Q (perform ch a c).1) -> safe Q (act a).
Proof. done. Qed.
Lemma safe_impl {A} (R Q : A -> Prop) (p : Prog A) : safe R p -> (forall a, R a -> Q a) -> safe Q p.
Proof.
  intros Hp HRQ. induction p as [a|B' a k IH]; simpl in *; [by apply HRQ|].
  intros ch c Hch Hc. destruct (Hp ch c Hch Hc). split; [done|by apply IH].
Qed.

(** *** The actions *)

Lemma inv_files c d : inv c -> d ⊆ disk c -> inv (with_disk c d).
Proof. intros [Hg Ha] Hsub. split; [|done]. intros k b Hk. apply Hg. by eapply lookup_weaken. Qed.
Lemma inv_exact c c' : inv c -> disk c' = disk c -> (exact c -> exact c' /\ BlockCache.held c' <= BlockCache.held c) -> inv c'.
Proof.
  intros [Hg Ha] Hd Hex. split; [by rewrite Hd|]. intros Hm. destruct (Ha Hm) as [Hc Hb]. destruct (Hex Hc).
  split; [done|]. destruct mode; [lia|done].
Qed.
Lemma inv_forget key c : inv c -> inv (forget key c).
Proof. intros Hc. apply (inv_exact c); [done|apply forget_disk|apply forget_exact]. Qed.
Lemma inv_touch key c : inv c -> inv (touch key c).2.
Proof.
  intros Hc. unfold touch. destruct (blocks c !! key) as [[size t]|] eqn:Hk; [|done]. apply (inv_exact c); [done|done|].
  intros Hex. split; [by eapply exact_touch|done].
Qed.
Lemma inv_drop node c : inv c -> inv (drop_node node c).2.
Proof.
  intros Hc. unfold drop_node. destruct (forget_all (filter (fun k => node_id k = node) ((hm_iter (blocks c)).*1)) c) as (H1 & _ & H3).
  by apply (inv_exact c).
Qed.
Lemma inv_rename key data c : data = block_at key -> inv c -> inv (with_disk c (<[key := data]> (disk c))).
Proof. intros Hd [Hg Ha]. split; [|done]. intros k b Hk. simpl in Hk. apply lookup_insert_Some in Hk as [[<- <-]|[_ Hk]]; [done|by apply Hg]. Qed.

Context (Hbudget : match mode with Stream budget => 0 <= budget /\ budget + BLOCK_SIZE < 2 ^ 64 | Mirror => True end).

Lemma inv_account key size c : 0 <= size <= BLOCK_SIZE -> inv c -> inv (account mode key size c).2.
Proof.
  intros Hs [Hg Ha]. unfold inv. destruct mode as [budget|]; [|split; [exact Hg|done]].
  destruct Hbudget as [Hb Hfit]. pose proof (Ha ltac:(done)) as Hacc. destruct Hacc as [Hex Hle].
  pose proof (account_spec (Stream budget) Hb key size c (conj Hex Hle) ltac:(lia) ltac:(lia)) as Hspec.
  destruct (account _ key size c) as [vs c']. destruct Hspec as (Hd & Ha' & _). split; [simpl; by rewrite Hd|done].
Qed.

(** *** The programs *)

Lemma safe_load key : safe (fun r => forall b, r = Some b -> b = block_at key) (load key).
Proof.
  unfold load. apply (safe_bind (fun _ => True)); [apply safe_act; intros ch c _ Hc; split; [by apply inv_touch|done]|].
  intros [] _; [|done]. apply (safe_bind (fun r => forall b, r = Some b -> b = block_at key)).
  - apply safe_act. intros ch c _ Hc. split; [by apply inv_files|]. simpl. destruct (fails ch key); [done|apply Hc].
  - assert (Hmiss : safe (fun r => forall b, r = Some b -> b = block_at key)
      (_ ← act (Locked (fun c => (tt, forget key c))); mret None)).
    { apply (safe_bind (fun _ => True)); [|done]. apply safe_act. intros ch c _ Hc. split; [by apply inv_forget|done]. }
    intros [[|b rest]|] Hr; [exact Hmiss|exact Hr|exact Hmiss].
Qed.

Lemma safe_unlink keys : safe (fun _ => True) (unlink_each keys).
Proof.
  induction keys as [|key keys IH]; [done|]. cbn [unlink_each]. apply (safe_bind (fun _ => True)); [|done].
  apply safe_act. intros ch c _ Hc. split; [|done]. simpl. apply inv_files; [done|]. destruct (fails ch key); [done|apply delete_subseteq].
Qed.
Lemma safe_try key : safe (fun _ => True) (act (Try key)).
Proof. apply safe_act. intros ch c _ Hc. split; [by apply inv_files|done]. Qed.
Lemma safe_store key data : len data <= BLOCK_SIZE -> data = block_at key -> safe (fun _ => True) (store mode key data).
Proof.
  intros Hlen Hd. unfold store. case_bool_decide; [done|]. apply (safe_bind (fun _ => True)); [apply safe_try|]. intros [] _; [|done].
  apply (safe_bind (fun _ => True)); [apply safe_try|]. intros [] _; [|done]. apply (safe_bind (fun _ => True)).
  { apply safe_act. intros ch c _ Hc. split; [|done]. simpl. destruct (fails ch key); [by apply inv_files|by apply inv_rename]. }
  intros [] _; [|done]. apply (safe_bind (fun _ => True)); [|intros vs _; apply safe_unlink]. apply safe_act.
  intros ch c _ Hc. split; [|done]. apply inv_account; [|done]. pose proof (len_nonneg data). lia.
Qed.
Lemma safe_invalidate node : safe (fun _ => True) (invalidate node).
Proof.
  unfold invalidate. apply (safe_bind (fun _ => True)); apply safe_act || intros _ _; [|apply safe_act]; intros ch c _ Hc; (split; [|done]).
  - by apply inv_drop.
  - simpl. apply inv_files; [done|apply map_filter_subseteq].
Qed.

Section Read.
Context (node version : Uuid) (offset size : Z) (completed : list nat -> list nat).
Context (Hcompleted : forall l, completed l ≡ₚ l).
Context (Hoff : 0 <= offset) (Hsize : 0 < size) (Hend : offset + size < 2 ^ 64).
Abbreviation first := (first_block offset).
Abbreviation last := (last_block offset size).
Abbreviation block := (block_of (contents node version)).

Lemma safe_load_all indices :
  safe (fun loaded => length loaded = length indices /\
          forall slot i d, indices !! slot = Some i -> loaded !! slot = Some (Some d) -> d = block i)
    (load_all node version indices).
Proof.
  induction indices as [|i indices IH]; [done|]. cbn [load_all]. eapply safe_bind; [apply safe_load|]. intros r Hr.
  eapply safe_bind; [exact IH|]. intros rs [Hlen Hrs]. split; [by f_equal/=|].
  intros [|slot] i' d Hi Hd; simpl in *; [|by eapply Hrs]. injection Hi as <-. injection Hd as Hd. exact (Hr d Hd).
Qed.

(** What is known of an answer for a block. *)
Definition usable (slot : nat) (r : result E (bytes * bool)) : Prop :=
  match r with
  | Ok (d, keepable) => len d <= BLOCK_SIZE /\ (keepable = true \/ committed node version -> d = block (first + Z.of_nat slot))
  | Err e => refused e
  end.
Lemma slot_fits (slot : nat) : first + Z.of_nat slot <= last ->
  first +u Z.of_nat slot = first + Z.of_nat slot /\ (first +u Z.of_nat slot) *u BLOCK_SIZE = (first + Z.of_nat slot) * BLOCK_SIZE.
Proof.
  intros Hs. pose proof (span_bounds offset size Hoff Hsize Hend) as (_ & ? & ? & ? & ? & _). unfold BLOCK_SIZE in *. split; by unwrap.
Qed.
Lemma safe_fetch_all slots :
  (forall slot, slot ∈ slots -> first + Z.of_nat slot <= last) ->
  safe (fun fetched => fetched.*1 = slots /\ Forall (fun p => usable p.1 p.2) fetched) (fetch_all node version offset slots).
Proof.
  induction slots as [|slot slots IH]; intros Hs; [by split|]. cbn [fetch_all]. apply (safe_bind (usable slot)).
  - apply safe_act. intros ch c Hch Hc. split; [done|]. cbn [perform fst]. rewrite (proj2 (slot_fits slot (Hs slot ltac:(left)))).
    apply Hch. pose proof (span_bounds offset size Hoff Hsize Hend) as (_ & ? & _). lia.
  - intros r Hr. eapply safe_bind; [apply IH; intros s' ?; apply Hs; by right|]. intros rs [Hk Hrs]. split; [by f_equal/=|by constructor].
Qed.

Definition served_right (loaded : list (option bytes)) : Prop :=
  forall slot d, loaded !! slot = Some (Some d) -> committed node version -> d = block (first + Z.of_nat slot).
Lemma safe_settle fetched loaded :
  Forall (fun p => usable p.1 p.2) fetched -> (forall slot, slot ∈ fetched.*1 -> first + Z.of_nat slot <= last) ->
  served_right loaded ->
  safe (fun r => match r with
                 | Ok loaded' => length loaded' = length loaded /\ served_right loaded' /\
                     forall slot, (slot < length loaded)%nat -> slot ∈ fetched.*1 \/ is_Some (mjoin (loaded !! slot)) ->
                       is_Some (mjoin (loaded' !! slot))
                 | Err e => refused e
                 end) (settle mode node version offset fetched loaded).
Proof.
  revert loaded. induction fetched as [|[s [[d keepable]|e]] fetched IH]; intros loaded Hall Hs Hserved; cbn [settle].
  - split; [done|]. split; [done|]. intros slot _ [Hin|?]; [by apply elem_of_nil in Hin|done].
  - apply Forall_cons in Hall as [[Hlen Hgen] Hall]. apply (safe_bind (fun _ => True)).
    { destruct keepable; [|done]. apply safe_store; [done|]. simpl. rewrite (proj1 (slot_fits s (Hs s ltac:(left)))). apply Hgen. by left. }
    intros _ _. eapply safe_impl; [apply IH; [done|intros s' ?; apply Hs; by right|]|].
    + intros s' d' [(<- & [= <-] & _)|[_ ?]]%list_lookup_insert_Some Hc; [apply Hgen; by right|by apply Hserved].
    + intros [loaded'|e]; [|done]. rewrite length_insert. intros (? & ? & Hsome). split; [done|]. split; [done|].
      intros slot Hlt Hor. apply Hsome; [done|]. destruct (decide (slot = s)) as [->|Hne].
      * right. by rewrite list_lookup_insert_eq.
      * rewrite list_lookup_insert_ne by done. destruct Hor as [Hin|?]; [|by right]. left. simpl in Hin. set_solver.
  - by apply Forall_cons in Hall as [? _].
Qed.

(** What a read may answer. *)
Definition answers (r : result (fault E) bytes) : Prop :=
  match r with
  | Ok out => committed node version -> out = slice (contents node version) offset (offset + size)
  | Err (Fail e) => refused e
  | Err Panic => False
  end.
Lemma safe_read_some : safe answers (read mode node version offset size completed).
Proof.
  pose proof (span_bounds offset size Hoff Hsize Hend) as (_ & Hfl & _). unfold read. rewrite (proj2 (Z.eqb_neq _ _)) by lia.
  eapply safe_bind; [apply safe_load_all|]. intros loaded [Hlen Hload]. rewrite length_seqZ in Hlen.
  assert (Hmiss : forall slot, slot ∈ completed (misses loaded) <-> loaded !! slot = Some None).
  { intros slot. rewrite Hcompleted. unfold misses. rewrite list_elem_of_filter, elem_of_seq.
    split; [naive_solver|]. intros Hs. split; [done|]. apply lookup_lt_Some in Hs. lia. }
  assert (Hin : forall slot, slot ∈ completed (misses loaded) -> first + Z.of_nat slot <= last).
  { intros slot Hs%Hmiss%lookup_lt_Some. lia. }
  eapply safe_bind; [by apply safe_fetch_all|]. intros fetched [Hslots Hall].
  eapply safe_bind; [apply safe_settle; [done|by rewrite Hslots|]|].
  { intros slot d Hd _. apply (Hload slot _ d); [|done]. apply lookup_lt_Some in Hd. apply lookup_seqZ. lia. }
  intros [loaded'|e] Hr; [|exact Hr]. destruct Hr as (Hlen' & Hserved & Hsome). simpl.
  assert (Hfull : forall slot, (slot < length loaded')%nat -> exists d, loaded' !! slot = Some (Some d)).
  { intros slot Hlt. rewrite Hlen' in Hlt. destruct (Hsome slot Hlt) as [d Hd].
    - rewrite Hslots, Hmiss. destruct (lookup_lt_is_Some_2 loaded slot Hlt) as [[d|] ->]; [by right|by left].
    - exists d. by destruct (loaded' !! slot) as [[]|]; simplify_eq/=. }
  destruct (stitch_spec contents node version offset size Hoff Hsize Hend loaded') as (pieces & -> & Hcat); [lia|done|].
  intros Hc. apply Hcat. intros slot Hlt. destruct (Hfull slot Hlt) as [d Hd]. rewrite Hd. do 2 f_equal. by apply (Hserved slot).
Qed.
End Read.

(** *** Schedules *)

Definition well_formed (q : Request) : Prop :=
  match q with
  | ReadRequest _ _ offset size completed => (forall l, completed l ≡ₚ l) /\ 0 <= offset /\ 0 <= size /\ offset + size < 2 ^ 64
  | InvalidateRequest _ => True
  end.
Definition right_outcome (q : Request) (o : Outcome (E := E)) : Prop :=
  match q, o with
  | ReadRequest node version offset size _, Served r => answers node version offset size r
  | InvalidateRequest _, Forgotten => True
  | _, _ => False
  end.
Lemma safe_program q : well_formed q -> safe (right_outcome q) (program mode q).
Proof.
  destruct q as [node version offset size completed|node]; intros Hq; cbn [program].
  - destruct Hq as (Hperm & Hoff & Hsize & Hend). apply (safe_bind (answers node version offset size)); [|done].
    destruct (decide (size = 0)) as [->|Hne]; [|apply safe_read_some; [done..|lia|done]].
    simpl. intros _. symmetry. apply slice_empty. lia.
  - apply (safe_bind (fun _ => True)); [apply safe_invalidate|done].
Qed.

(** The invariant of the tasks under way. *)
Definition on_course (requests : gmap nat Request) (s : State) : Prop :=
  inv (cache s) /\ forall t p, tasks s !! t = Some p -> exists q, requests !! t = Some q /\ safe (right_outcome q) p.
Lemma step_on_course requests s e : honest_event e -> on_course requests s -> on_course requests (step s e).
Proof.
  intros He [Hc Ht]. destruct e as [t ch|key]; simpl.
  - destruct (tasks s !! t) as [[o|B a k]|] eqn:Hp; [done| |done]. destruct (Ht t _ Hp) as (q & Hq & Hsafe).
    destruct (Hsafe ch (cache s) He Hc) as [Hc' Hk]. destruct (perform ch a (cache s)) as [b c']. split; [done|].
    intros t' p'. simpl. rewrite lookup_insert_Some. intros [[<- <-]|[_ Hp']]; [by exists q|by apply Ht].
  - split; [|done]. apply inv_files; [done|apply delete_subseteq].
Qed.
Lemma run_on_course requests schedule s :
  Forall honest_event schedule -> on_course requests s -> on_course requests (run schedule s).
Proof. intros Hs. unfold run. revert s. induction Hs; intros s Hc; simpl; [done|]. by apply IHHs, step_on_course. Qed.
Lemma start_on_course requests c : inv c -> map_Forall (fun _ q => well_formed q) requests -> on_course requests (start mode c requests).
Proof.
  intros Hc Hq. split; [done|]. intros t p Hp. simpl in Hp. apply lookup_fmap_Some in Hp as (q & <- & Ht).
  exists q. split; [done|]. apply safe_program, (Hq t q Ht).
Qed.

(** *** Every task is finished in the end *)

(** The state after the first [n] events. *)
Definition after (events : nat -> Event) (s : State) (n : nat) : State := run (events <$> seq 0 n) s.
Lemma after_S events s n : after events s (S n) = step (after events s n) (events n).
Proof. unfold after, run. by rewrite seq_S, fmap_app, foldl_app. Qed.

(** What a program may go on with. *)
Definition goes_on {A} (p p' : Prog A) : Prop := match p with Ret _ => False | Act a k => exists b, p' = k b end.
(** A task changes only by its own action. *)
Lemma step_task (s : State (E := E)) e t p :
  tasks s !! t = Some p ->
  tasks (step s e) !! t = Some p /\ (forall ch, e = Turn t ch -> exists o, p = Ret o) \/
  exists p', goes_on p p' /\ tasks (step s e) !! t = Some p'.
Proof.
  intros Hp. destruct e as [t' ch|key]; simpl; [|by left]. destruct (decide (t' = t)) as [->|Hne].
  - rewrite Hp. destruct p as [o|B a k]; [left; split; [done|by eauto]|]. right. destruct (perform ch a (cache s)) as [b c'].
    exists (k b). split; [by exists b|]. apply lookup_insert_eq.
  - left. split; [|congruence]. destruct (tasks s !! t') as [[o|B a k]|]; [done| |done]. destruct (perform ch a (cache s)) as [b c'].
    simpl. by rewrite lookup_insert_ne.
Qed.
Lemma after_waits events s t p n d :
  tasks (after events s n) !! t = Some p ->
  tasks (after events s (n + d)) !! t = Some p \/ exists p' m, goes_on p p' /\ tasks (after events s m) !! t = Some p'.
Proof.
  intros Hp. induction d as [|d [IH|IH]]; [left; by rewrite Nat.add_0_r| |by right]. rewrite Nat.add_succ_r, after_S.
  destruct (step_task _ (events (n + d)%nat) _ _ IH) as [[Hs _]|(p' & Hon & Hs)]; [by left|right].
  exists p', (S (n + d)). split; [done|]. by rewrite after_S.
Qed.
Lemma task_finishes events s t p n :
  (forall m, exists m' ch, (m <= m')%nat /\ events m' = Turn t ch) -> tasks (after events s n) !! t = Some p ->
  exists m o, tasks (after events s m) !! t = Some (Ret o).
Proof.
  intros Hfair. revert n. induction p as [o|B a k IH]; intros n Hp; [by exists n, o|].
  assert (Hgo : forall p' m, goes_on (Act a k) p' -> tasks (after events s m) !! t = Some p' ->
    exists m o, tasks (after events s m) !! t = Some (Ret o)) by (intros p' m [b ->]; apply IH).
  destruct (Hfair n) as (m & ch & Hle & He).
  destruct (after_waits events s t _ n (m - n) Hp) as [Hw|(p' & m' & Hon & Hm')]; [|exact (Hgo p' m' Hon Hm')].
  replace (n + (m - n))%nat with m in Hw by lia.
  destruct (step_task _ (events m) _ _ Hw) as [[_ Hturn]|(p' & Hon & Hm')]; [by destruct (Hturn ch He)|].
  rewrite <-after_S in Hm'. exact (Hgo p' _ Hon Hm').
Qed.
Lemma stays_finished events s t o n d :
  tasks (after events s n) !! t = Some (Ret o) -> tasks (after events s (n + d)) !! t = Some (Ret o).
Proof. intros Hp. by destruct (after_waits events s t _ n d Hp) as [?|(p' & m & [] & _)]. Qed.
Lemma all_finish events s (ts : list nat) :
  (forall t, t ∈ ts -> is_Some (tasks s !! t) /\ forall m, exists m' ch, (m <= m')%nat /\ events m' = Turn t ch) ->
  exists n, forall t, t ∈ ts -> exists o, tasks (after events s n) !! t = Some (Ret o).
Proof.
  induction ts as [|t ts IH]; intros Hts; [exists 0%nat; set_solver|].
  destruct IH as [n Hn]; [intros t' ?; apply Hts; by right|]. destruct (Hts t ltac:(left)) as [[p Hp] Hfair].
  destruct (task_finishes events s t p 0 Hfair Hp) as (m & o & Hm). exists (n + m)%nat.
  intros t' [->|Hin]%elem_of_cons; [exists o; rewrite Nat.add_comm; by apply stays_finished|].
  destruct (Hn t' Hin) as [o' Ho']. exists o'. by apply stays_finished.
Qed.

(** ** The property *)

(** C37 Concurrent reads through the cache. However the reads and invalidations that are under
    way together interleave, at every lock, every file operation and every fetch, whichever of
    these fail and whichever files vanish: every file of the cache is at all times the block it
    is named after; a streaming cache at all times accounts exactly for what it lists, within
    its budget; a read of a committed version that returns bytes returns exactly the bytes of the
    range; a read that fails does so with an answer of the server, and none panics. And when no
    task is passed over for ever, every one of them finishes. *)
Theorem interleaved_reads (events : nat -> Event) (requests : gmap nat Request) c :
  (forall n, honest_event (events n)) -> map_Forall (fun _ q => well_formed q) requests -> inv c ->
  (forall n, inv (cache (after events (start mode c requests) n)) /\
     forall t q o, requests !! t = Some q -> tasks (after events (start mode c requests) n) !! t = Some (Ret o) -> right_outcome q o) /\
  ((forall t, is_Some (requests !! t) -> forall n, exists m ch, (n <= m)%nat /\ events m = Turn t ch) ->
   exists n, forall t q, requests !! t = Some q ->
     exists o, tasks (after events (start mode c requests) n) !! t = Some (Ret o) /\ right_outcome q o).
Proof.
  intros Hev Hq Hc.
  assert (Hall : forall n, inv (cache (after events (start mode c requests) n)) /\
    forall t q o, requests !! t = Some q -> tasks (after events (start mode c requests) n) !! t = Some (Ret o) -> right_outcome q o).
  { intros n. destruct (run_on_course requests (events <$> seq 0 n) (start mode c requests)) as [Hi Ht].
    - apply Forall_fmap, Forall_true. intros m. apply Hev.
    - by apply start_on_course.
    - split; [exact Hi|]. intros t q o Hr Ho. destruct (Ht t _ Ho) as (q' & Hq' & Hs). by simplify_eq. }
  split; [exact Hall|]. intros Hfair. destruct (all_finish events (start mode c requests) (elements (dom requests))) as [n Hn].
  { intros t Ht%elem_of_elements%elem_of_dom. split; [|by apply Hfair]. simpl. rewrite lookup_fmap. by apply fmap_is_Some. }
  exists n. intros t q Ht. destruct (Hn t) as [o Ho]; [apply elem_of_elements, elem_of_dom; by eauto|].
  exists o. split; [exact Ho|]. exact (proj2 (Hall n) t q o Ht Ho).
Qed.
End Together.

(** ** Instances *)

Definition hello : bytes := BlockCacheFacts.hello.
(** Every version is the one block [hello]. *)
Definition serve_hello : Choice (E := unit) :=
  {| fails := fun _ => false; answered := fun _ _ start _ => Ok (if start =? 0 then hello else [], true) |}.
Definition turn_away : Choice (E := unit) := {| fails := fun _ => false; answered := fun _ _ _ _ => Err () |}.

Lemma serve_hello_honest : honest (fun _ _ => hello) (fun _ _ => True) (fun _ => False) serve_hello.
Proof.
  intros node version i Hi. cbn [answered serve_hello]. destruct (Z.eqb_spec (i * BLOCK_SIZE) 0) as [H0|H0].
  - replace i with 0 by (unfold BLOCK_SIZE in *; lia). split; [vm_compute; discriminate|]. intros _. symmetry. unfold block_of.
    rewrite BlockCacheFacts.slice_past by (vm_compute; discriminate). done.
  - split; [vm_compute; discriminate|]. intros _. unfold block_of, slice. rewrite zdrop_all; [by rewrite ztake_take, take_nil|].
    change (len hello) with 5. unfold BLOCK_SIZE in *. lia.
Qed.

(** Two overlapping reads of a file, and its invalidation, turn by turn. *)
Definition three_requests : gmap nat Request :=
  list_to_map [(0%nat, ReadRequest 1 2 1 3 id); (1%nat, ReadRequest 1 2 0 5 id); (2%nat, InvalidateRequest 1)].
Definition in_turn (n : nat) : Event (E := unit) := Turn (n mod 3) serve_hello.

Lemma interleaved_reads_witness :
  exists n, let s := after in_turn (start (Stream 7) BlockCache.new three_requests) n in
    tasks s !! 0%nat = Some (Ret (Served (Ok [x65; x6c; x6c]))) /\ tasks s !! 1%nat = Some (Ret (Served (Ok hello))) /\
    tasks s !! 2%nat = Some (Ret Forgotten).
Proof.
  pose proof (interleaved_reads (Stream 7) (fun _ _ => hello) (fun _ _ => True) (fun _ : unit => False) ltac:(vm_compute; split; discriminate || reflexivity)
    in_turn three_requests BlockCache.new (fun _ => serve_hello_honest)) as Hr.
  destruct Hr as [_ Hr].
  - intros t q Hq. apply elem_of_list_to_map_2 in Hq. rewrite !elem_of_cons, elem_of_nil in Hq.
    destruct Hq as [[= -> ->]|[[= -> ->]|[[= -> ->]|[]]]]; simpl; done || lia.
  - split; [intros k b Hk; by destruct (lookup_empty_Some k b Hk)|]. intros _. apply BlockCacheFacts.new_accounted. lia.
  - destruct Hr as [n Hn].
    + intros t [q Hq] n. apply elem_of_list_to_map_2 in Hq. exists (3 * n + t)%nat, serve_hello. split; [lia|]. unfold in_turn. f_equal.
      rewrite Nat.mul_comm, Nat.add_comm, Nat.Div0.mod_add. apply Nat.mod_small.
      rewrite !elem_of_cons, elem_of_nil in Hq. naive_solver lia.
    + exists n. cbv zeta.
      destruct (Hn 0%nat _ eq_refl) as ([[out|[e|]]|] & -> & Ho); try done.
      destruct (Hn 1%nat _ eq_refl) as ([[out'|[e|]]|] & -> & Ho'); try done.
      destruct (Hn 2%nat _ eq_refl) as ([r|] & -> & Hr); [destruct Hr|]. simpl in Ho, Ho'. rewrite (Ho I), (Ho' I). split_and!; vm_compute; reflexivity.
Defined.

(** A late [forget]. The cache holds a block of a file of five bytes within a budget of seven.
    A read finds it listed; another file's block evicts it, and its file is gone when the first
    read opens it; a third read fetches it again and stores it; and only then the first read
    drops "its" entry. The file is on disk, and no longer counted or ever evicted. *)
Definition a_key : Key := mkKey 1 2 0.
Definition race : list (Event (E := unit)) :=
  [Turn 0 serve_hello] ++ replicate 8 (Turn 1 serve_hello) ++ [Turn 0 serve_hello] ++ replicate 8 (Turn 2 serve_hello) ++
  replicate 2 (Turn 0 turn_away).
Definition race_start : State (E := unit) :=
  start (Stream 7) BlockCacheFacts.one_block
    (list_to_map [(0%nat, ReadRequest 1 2 0 5 id); (1%nat, ReadRequest 3 4 0 5 id); (2%nat, ReadRequest 1 2 0 5 id)]).
Theorem late_forget_orphans :
  let s := run race race_start in
  tasks s !! 0%nat = Some (Ret (Served (Err (Fail ())))) /\ tasks s !! 1%nat = Some (Ret (Served (Ok hello))) /\
  tasks s !! 2%nat = Some (Ret (Served (Ok hello))) /\
  disk (cache s) = {[a_key := hello]} /\ blocks (cache s) = ∅ /\ BlockCache.held (cache s) = 0.
Proof. vm_compute. split_and!; reflexivity. Qed.

End CacheTasksFacts.
