(* ===== verification/Crypto.v ===== *)
(** * Sealed chunks

    Models [src/crates/dcfs-crypto/src/chunk.rs]: the segmented object layout
    ([seal], [open], [open_range]) over the XChaCha20-Poly1305 and BLAKE3 crates,
    which are parameters ([Aead]) with the laws their documentation states
    ([AeadLaws]). Lengths of slices are below [isize::MAX], so their sums do not
    wrap in [seal] and [open]; the arithmetic on the caller's [ChunkRange], which
    is not the length of anything yet, is written with the wrapping operators. *)
From Stdlib.Strings Require Import Ascii.
From Stdlib.Strings Require String.
From S2P Require Import Prelude.

(** The third-party primitives: [XChaCha20Poly1305::{encrypt, decrypt}] (key,
    nonce, associated data, message) and [blake3::hash]. *)
Class Aead : Type := {
  aead_encrypt : bytes -> bytes -> bytes -> bytes -> option bytes;
  aead_decrypt : bytes -> bytes -> bytes -> bytes -> option bytes;
  blake3 : bytes -> bytes;
}.

Module Crypto.

Inductive CryptoError : Type :=
| EncryptionFailed
| DecryptionFailed
| IntegrityCheckFailed (expected actual : string)
| InvalidKeyLength (n : Z)
| ObjectIdMismatch.

Abbreviation ObjectId := Uuid (only parsing).
Abbreviation KeyId := string (only parsing).
Abbreviation EncryptionKey := bytes (only parsing).

Record EncryptedChunk : Type := {
  key_id : KeyId;
  object_id : ObjectId;
  plaintext_hash : string;
  ciphertext_hash : string;
  ciphertext : bytes;
}.

Definition SEGMENT_SIZE : Z := 256 * 1024.
Definition MAGIC : bytes := String.list_byte_of_string "DFS2".
Definition HEADER_LEN : Z := 8.
Definition TAG_LEN : Z := 16.
Definition NONCE_PREFIX_LEN : Z := 19.

Definition segment_count (plaintext_len : Z) : Z := Z.max (div_ceil plaintext_len SEGMENT_SIZE) 1.

Definition ciphertext_overhead (plaintext_len : Z) : Z :=
  HEADER_LEN +u segment_count plaintext_len *u TAG_LEN.

Definition CIPHERTEXT_OVERHEAD : Z := HEADER_LEN + 16 * 1024 * 1024 / SEGMENT_SIZE * TAG_LEN.

Definition segment_span (plaintext_len index : Z) : Z * Z :=
  let start := HEADER_LEN +u index *u (SEGMENT_SIZE + TAG_LEN) in
  let plain := Z.min SEGMENT_SIZE (saturating_sub plaintext_len (index *u SEGMENT_SIZE)) in
  (start, start +u plain +u TAG_LEN).

Record ChunkRange : Type := {
  cr_object_id : ObjectId;
  plaintext_len : Z;
  from : Z;
  to : Z;
}.

Definition to_fetch (r : ChunkRange) : Z * Z * Z :=
  let last_index := segment_count (plaintext_len r) - 1 in
  let first := Z.min (from r / SEGMENT_SIZE) last_index in
  let last := Z.min (saturating_sub (to r) 1 / SEGMENT_SIZE) last_index in
  ((segment_span (plaintext_len r) first).1, (segment_span (plaintext_len r) last).2, first).

(** [to_hex]. *)
Definition hex_digit (n : Z) : ascii :=
  ascii_of_N (Z.to_N (if n <? 10 then 48 + n else 87 + n)).
Fixpoint to_hex (l : bytes) : string :=
  match l with
  | [] => EmptyString
  | b :: l' => String (hex_digit (byte_to_Z b / 16)) (String (hex_digit (byte_to_Z b mod 16)) (to_hex l'))
  end.

Section WithAead.
Context `{Aead}.

Definition nonce_for (k : KeyId) (o : ObjectId) (index : Z) (is_last : bool) : bytes :=
  let derived := blake3 (uuid_bytes o ++ String.list_byte_of_string k) in
  ztake NONCE_PREFIX_LEN derived ++ le_bytes 4 index ++ [if is_last then x01 else x00].

Definition aad_of (k : KeyId) (o : ObjectId) : bytes := uuid_bytes o ++ String.list_byte_of_string k.

Definition hash_data (data : bytes) : string := to_hex (blake3 data).

(** One iteration of the sealing loop. *)
Definition seal_segment (k : KeyId) (key : EncryptionKey) (o : ObjectId) (plaintext : bytes)
    (segments index : Z) : option bytes :=
  let start := index * SEGMENT_SIZE in
  let end_ := Z.min (start + SEGMENT_SIZE) (len plaintext) in
  aead_encrypt key (nonce_for k o (u32 index) (index =? segments - 1)) (aad_of k o)
    (slice plaintext start end_).

Definition header : bytes := MAGIC ++ le_bytes 4 (u32 SEGMENT_SIZE).
#[global] Arguments header : simpl never.

Definition seal (k : KeyId) (key : EncryptionKey) (o : ObjectId) (plaintext : bytes)
    : result CryptoError EncryptedChunk :=
  let segments := segment_count (len plaintext) in
  match mapM (seal_segment k key o plaintext segments) (seqZ 0 segments) with
  | None => Err EncryptionFailed
  | Some sealed =>
      let full_ciphertext := header ++ concat sealed in
      Ok {| key_id := k; object_id := o; plaintext_hash := hash_data plaintext;
            ciphertext_hash := hash_data full_ciphertext; ciphertext := full_ciphertext |}
  end.

(** One iteration of the opening loop. *)
Definition open_segment (key : EncryptionKey) (k : KeyId) (o : ObjectId) (body : bytes)
    (segments index : Z) : option bytes :=
  let start := index * (SEGMENT_SIZE + TAG_LEN) in
  let end_ := Z.min (start + SEGMENT_SIZE + TAG_LEN) (len body) in
  aead_decrypt key (nonce_for k o (u32 index) (index =? segments - 1)) (aad_of k o)
    (slice body start end_).

Definition open_segmented (key : EncryptionKey) (e : EncryptedChunk) : result CryptoError bytes :=
  if len (ciphertext e) <? HEADER_LEN then Err DecryptionFailed else
  if negb (from_le_bytes (slice (ciphertext e) 4 8) =? SEGMENT_SIZE) then Err DecryptionFailed else
  let body := zdrop HEADER_LEN (ciphertext e) in
  let segments := Z.max (div_ceil (len body) (SEGMENT_SIZE + TAG_LEN)) 1 in
  match mapM (open_segment key (key_id e) (object_id e) body segments) (seqZ 0 segments) with
  | None => Err DecryptionFailed
  | Some opened => Ok (concat opened)
  end.

Definition open_single (key : EncryptionKey) (e : EncryptedChunk) : result CryptoError bytes :=
  if len (ciphertext e) <? 24 then Err DecryptionFailed else
  ok_or (aead_decrypt key (ztake 24 (ciphertext e)) (aad_of (key_id e) (object_id e))
           (zdrop 24 (ciphertext e))) DecryptionFailed.

Definition open (key : EncryptionKey) (e : EncryptedChunk) : result CryptoError bytes :=
  let actual_hash := hash_data (ciphertext e) in
  if bool_decide (actual_hash <> ciphertext_hash e)
  then Err (IntegrityCheckFailed (ciphertext_hash e) actual_hash) else
  plaintext ← (if bool_decide (ztake (len MAGIC) (ciphertext e) = MAGIC)
               then open_segmented key e else open_single key e);
  let actual_plaintext_hash := hash_data plaintext in
  if bool_decide (actual_plaintext_hash <> plaintext_hash e)
  then Err (IntegrityCheckFailed (plaintext_hash e) actual_plaintext_hash)
  else Ok plaintext.

(** The [while] of [open_range]: every iteration consumes at least a tag, so the
    length of [fetched] bounds the iterations. *)
Fixpoint open_range_loop (n : nat) (key : EncryptionKey) (k : KeyId) (r : ChunkRange)
    (fetched : bytes) (cursor index : Z) (plaintext : bytes) : result (fault CryptoError) bytes :=
  if cursor <? len fetched then
    match n with
    | O => Err Panic
    | S n' =>
        let '(start, end_) := segment_span (plaintext_len r) index in
        let l := end_ -u start in
        if len fetched <? cursor +u l then Err (Fail DecryptionFailed) else
        match slice_checked fetched cursor (cursor +u l) with
        | None => Err Panic
        | Some msg =>
            match aead_decrypt key
                    (nonce_for k (cr_object_id r) (u32 index)
                       (index =? segment_count (plaintext_len r) - 1))
                    (aad_of k (cr_object_id r)) msg with
            | None => Err (Fail DecryptionFailed)
            | Some opened =>
                open_range_loop n' key k r fetched (cursor +u l) (index +u 1) (plaintext ++ opened)
            end
        end
    end
  else Ok plaintext.

Definition open_range (key : EncryptionKey) (k : KeyId) (r : ChunkRange) (fetched : bytes)
    (first_index : Z) : result (fault CryptoError) bytes :=
  (* [Vec::with_capacity] panics past [isize::MAX]. *)
  if 2 ^ 63 - 1 <? to r -u from r then Err Panic else
  plaintext ← open_range_loop (length fetched) key k r fetched 0 first_index [];
  let skip := from r -u first_index *u SEGMENT_SIZE in
  let want := to r -u from r in
  if len plaintext <? skip +u want then Err (Fail DecryptionFailed)
  else ok_or (slice_checked plaintext skip (skip +u want)) Panic.

End WithAead.
End Crypto.

(** What the documentation of the crates states: decryption inverts encryption
    and accepts nothing else (the tag is recomputed from the ciphertext), a tag
    is sixteen bytes, a message of up to a segment is never refused, and a BLAKE3
    hash is 32 bytes. *)
Class AeadLaws `(Aead) : Prop := {
  encrypt_total : forall key nonce aad m, len m <= Crypto.SEGMENT_SIZE ->
    exists c, aead_encrypt key nonce aad m = Some c;
  encrypt_len : forall key nonce aad m c, aead_encrypt key nonce aad m = Some c ->
    len c = len m + Crypto.TAG_LEN;
  decrypt_encrypt : forall key nonce aad m c,
    aead_encrypt key nonce aad m = Some c <-> aead_decrypt key nonce aad c = Some m;
  blake3_len : forall d, len (blake3 d) = 32;
}.

(** A toy instance with the same laws, to evaluate the model. *)
Module ToyAead.
Definition tag (key nonce aad m : bytes) : bytes := resize (zdrop 18 nonce ++ ztake 2 key ++ m) 16.
Definition encrypt (key nonce aad m : bytes) : option bytes := Some (tag key nonce aad m ++ m).
Definition decrypt (key nonce aad c : bytes) : option bytes :=
  if bool_decide (ztake 16 c = tag key nonce aad (zdrop 16 c)) then Some (zdrop 16 c) else None.

#[export] Instance toy : Aead :=
  {| aead_encrypt := encrypt; aead_decrypt := decrypt; blake3 := fun d => resize d 32 |}.

Lemma len_tag key nonce aad m : len (tag key nonce aad m) = 16.
Proof. unfold tag. by rewrite len_resize. Qed.

#[export] Instance toy_laws : AeadLaws toy.
Proof.
  split; simpl; unfold encrypt, decrypt.
  - eauto.
  - intros ? ? ? ? ? [= <-]. rewrite len_app, len_tag. unfold Crypto.TAG_LEN. lia.
  - intros key nonce aad m c. split.
    + intros [= <-]. rewrite ztake_app_l, zdrop_app_r by (rewrite len_tag; lia).
      rewrite len_tag, Z.sub_diag, zdrop_0, ztake_all by (rewrite ?len_tag; lia).
      by rewrite bool_decide_true.
    + case_bool_decide as Ht; [|done]. intros [= <-]. by rewrite <-Ht, ztake_zdrop.
  - intros. by rewrite len_resize.
Qed.
End ToyAead.

(** ** Lemmas *)
Module CryptoFacts.
Import Crypto.

Lemma segment_count_bounds n :
  0 <= n -> 1 <= segment_count n /\
  ((n = 0 /\ segment_count n = 1) \/
   ((segment_count n - 1) * SEGMENT_SIZE < n <= segment_count n * SEGMENT_SIZE)).
Proof.
  intros. unfold segment_count. destruct (decide (n = 0)) as [->|]; [by split; [|left]|].
  pose proof (div_ceil_bounds n SEGMENT_SIZE ltac:(done) ltac:(lia)). unfold SEGMENT_SIZE in *. lia.
Qed.

(** The number of segments is fixed by the two bounds. *)
Lemma segments_unique n c L :
  0 < L -> 1 <= c -> (n = 0 /\ c = 1) \/ ((c - 1) * L < n <= c * L) -> Z.max (div_ceil n L) 1 = c.
Proof.
  intros. destruct (decide (n = 0)) as [->|].
  { unfold div_ceil. rewrite Z.mod_0_l, Z.div_0_l by lia. simpl. nia. }
  pose proof (div_ceil_bounds n L ltac:(lia) ltac:(nia)). nia.
Qed.

Definition piece (p : bytes) (i : Z) : bytes :=
  slice p (i * SEGMENT_SIZE) (Z.min (i * SEGMENT_SIZE + SEGMENT_SIZE) (len p)).

Lemma len_piece p i :
  0 <= i -> len (piece p i) = Z.max 0 (Z.min SEGMENT_SIZE (len p - i * SEGMENT_SIZE)).
Proof. intros. unfold piece. rewrite len_slice. unfold SEGMENT_SIZE in *. lia. Qed.

Lemma concat_piece p : concat (piece p <$> seqZ 0 (segment_count (len p))) = p.
Proof.
  destruct (segment_count_bounds (len p) (len_nonneg p)) as [? Hb].
  rewrite <-(Z2Nat.id (segment_count (len p))) by lia. unfold piece.
  rewrite concat_pieces by done. apply ztake_all. unfold SEGMENT_SIZE in *. lia.
Qed.

Lemma len_header : len header = HEADER_LEN.
Proof. reflexivity. Qed.

Lemma starts_with_magic body : ztake (len MAGIC) (header ++ body) = MAGIC.
Proof. unfold header. rewrite <-(app_assoc MAGIC), ztake_app_l, ztake_all by done. done. Qed.

Lemma le_bytes_inj k n m :
  0 <= n < 256 ^ Z.of_nat k -> 0 <= m < 256 ^ Z.of_nat k -> le_bytes k n = le_bytes k m -> n = m.
Proof.
  intros Hn Hm Heq. apply (f_equal from_le_bytes) in Heq.
  by rewrite !from_le_bytes_le_bytes, !Z.mod_small in Heq.
Qed.

Section Laws.
Context `{AeadLaws}.
Context (k : KeyId) (key : EncryptionKey) (o : ObjectId).

Lemma encrypt_decrypt key' nonce aad m c :
  aead_encrypt key' nonce aad m = Some c -> aead_decrypt key' nonce aad c = Some m.
Proof. apply decrypt_encrypt. Qed.

Definition sealed_by (p : bytes) (i : Z) (c : bytes) : Prop :=
  aead_encrypt key (nonce_for k o (u32 i) (i =? segment_count (len p) - 1)) (aad_of k o) (piece p i) = Some c.

Lemma len_sealed p i c : sealed_by p i c -> len c = len (piece p i) + TAG_LEN.
Proof. apply encrypt_len. Qed.

(** [seal] always succeeds, with one sealed piece per segment. *)
Lemma seal_spec p :
  exists cs, Forall2 (sealed_by p) (seqZ 0 (segment_count (len p))) cs /\
    seal k key o p = Ok {| key_id := k; object_id := o; plaintext_hash := hash_data p;
                           ciphertext_hash := hash_data (header ++ concat cs);
                           ciphertext := header ++ concat cs |}.
Proof.
  unfold seal. destruct (mapM _ _) as [cs|] eqn:Hm.
  - exists cs. split; [|done]. by apply mapM_Some in Hm.
  - exfalso. apply eq_None_not_Some in Hm. apply Hm, mapM_is_Some, Forall_forall.
    intros i Hi. apply elem_of_seqZ in Hi. apply encrypt_total.
    fold (piece p i). rewrite len_piece by lia. unfold SEGMENT_SIZE in *. lia.
Qed.

Lemma seal_inv p e :
  seal k key o p = Ok e ->
  exists cs, Forall2 (sealed_by p) (seqZ 0 (segment_count (len p))) cs /\
    e = {| key_id := k; object_id := o; plaintext_hash := hash_data p;
           ciphertext_hash := hash_data (header ++ concat cs);
           ciphertext := header ++ concat cs |}.
Proof. destruct (seal_spec p) as (cs & Hcs & ->). intros [=]. by exists cs. Qed.

Lemma sealed_lookup p cs i c :
  Forall2 (sealed_by p) (seqZ 0 (segment_count (len p))) cs -> cs !! i = Some c ->
  sealed_by p (Z.of_nat i) c /\ Z.of_nat i < segment_count (len p).
Proof.
  intros Hcs Hi. destruct (Forall2_lookup_r _ _ _ _ _ Hcs Hi) as (z & Hz & Hc).
  apply lookup_seqZ in Hz as [-> ?]. by rewrite Z.add_0_l in Hc.
Qed.

Lemma len_concat_sealed p js cs :
  Forall2 (sealed_by p) js cs -> len (concat cs) = len (concat (piece p <$> js)) + TAG_LEN * len js.
Proof.
  induction 1 as [|i c js cs Hc _ IH]; [done|].
  rewrite fmap_cons. cbn [concat]. rewrite !len_app, len_cons, IH, (len_sealed _ _ _ Hc). lia.
Qed.

Lemma len_sealed_body p cs :
  Forall2 (sealed_by p) (seqZ 0 (segment_count (len p))) cs ->
  len (concat cs) = len p + TAG_LEN * segment_count (len p).
Proof.
  intros Hcs. rewrite (len_concat_sealed _ _ _ Hcs), concat_piece. unfold len at 2.
  rewrite length_seqZ. pose proof (segment_count_bounds (len p) (len_nonneg p)). lia.
Qed.

(** The sealed pieces sit at multiples of the sealed segment size. *)
Lemma body_slice p cs i c :
  Forall2 (sealed_by p) (seqZ 0 (segment_count (len p))) cs -> cs !! i = Some c ->
  slice (concat cs) (Z.of_nat i * (SEGMENT_SIZE + TAG_LEN)) (Z.of_nat i * (SEGMENT_SIZE + TAG_LEN) + len c) = c.
Proof.
  intros Hcs Hi. apply slice_concat; [done|]. intros j c' Hj Hlt.
  destruct (sealed_lookup _ _ _ _ Hcs Hi) as [_ Hic].
  destruct (sealed_lookup _ _ _ _ Hcs Hj) as [Hc' _].
  rewrite (len_sealed _ _ _ Hc'), len_piece by lia.
  pose proof (segment_count_bounds (len p) (len_nonneg p)). unfold SEGMENT_SIZE, TAG_LEN in *. lia.
Qed.

Lemma sealed_end p cs i c :
  Forall2 (sealed_by p) (seqZ 0 (segment_count (len p))) cs -> cs !! i = Some c ->
  Z.min (Z.of_nat i * (SEGMENT_SIZE + TAG_LEN) + SEGMENT_SIZE + TAG_LEN) (len (concat cs))
    = Z.of_nat i * (SEGMENT_SIZE + TAG_LEN) + len c.
Proof.
  intros Hcs Hi. destruct (sealed_lookup _ _ _ _ Hcs Hi) as [Hc Hic].
  rewrite (len_sealed _ _ _ Hc), len_piece, (len_sealed_body _ _ Hcs) by lia.
  pose proof (segment_count_bounds (len p) (len_nonneg p)). unfold SEGMENT_SIZE, TAG_LEN in *. lia.
Qed.

Lemma body_segments p cs :
  Forall2 (sealed_by p) (seqZ 0 (segment_count (len p))) cs ->
  Z.max (div_ceil (len (concat cs)) (SEGMENT_SIZE + TAG_LEN)) 1 = segment_count (len p).
Proof.
  intros Hcs. pose proof (segment_count_bounds (len p) (len_nonneg p)) as [? Hb].
  rewrite (len_sealed_body _ _ Hcs). apply segments_unique; [done|done|]. right.
  unfold SEGMENT_SIZE, TAG_LEN in *. lia.
Qed.

Lemma open_segments p cs :
  Forall2 (sealed_by p) (seqZ 0 (segment_count (len p))) cs ->
  mapM (open_segment key k o (concat cs) (segment_count (len p))) (seqZ 0 (segment_count (len p)))
    = Some (piece p <$> seqZ 0 (segment_count (len p))).
Proof.
  intros Hcs. apply mapM_Some, Forall2_fmap_r, Forall_Forall2_diag, Forall_forall.
  intros z Hz. apply list_elem_of_lookup in Hz as [i Hi].
  destruct (Forall2_lookup_l _ _ _ _ _ Hcs Hi) as (c & Hc & Hs).
  apply lookup_seqZ in Hi as [-> ?]. rewrite Z.add_0_l in *.
  unfold open_segment. rewrite (sealed_end _ _ _ _ Hcs Hc), (body_slice _ _ _ _ Hcs Hc).
  by apply encrypt_decrypt.
Qed.

Lemma open_seal p e : seal k key o p = Ok e -> open key e = Ok p.
Proof.
  intros He. destruct (seal_inv p e He) as (cs & Hcs & ->).
  unfold open. cbn [ciphertext ciphertext_hash plaintext_hash]. rewrite bool_decide_false by auto.
  rewrite bool_decide_true by apply starts_with_magic.
  unfold open_segmented. cbn [ciphertext key_id object_id]. rewrite len_app, len_header.
  rewrite (proj2 (Z.ltb_ge _ _)) by (pose proof (len_nonneg (concat cs)); lia).
  rewrite slice_app_l by done. rewrite zdrop_app_r, len_header, Z.sub_diag, zdrop_0 by done.
  change (from_le_bytes (slice header 4 8) =? SEGMENT_SIZE) with true. cbn [negb].
  rewrite (body_segments _ _ Hcs), (open_segments _ _ Hcs).
  cbn [mbind result_bind].
  rewrite concat_piece, bool_decide_false by auto. done.
Qed.

Lemma len_seal p e :
  seal k key o p = Ok e -> len p < 2 ^ 62 -> len (ciphertext e) = len p + ciphertext_overhead (len p).
Proof.
  intros He Hp. destruct (seal_inv p e He) as (cs & Hcs & ->).
  cbn [ciphertext]. rewrite len_app, len_header, (len_sealed_body _ _ Hcs).
  unfold ciphertext_overhead. pose proof (segment_count_bounds (len p) (len_nonneg p)).
  unfold SEGMENT_SIZE, HEADER_LEN, TAG_LEN in *. unwrap. lia.
Qed.

(** *** Reading a range *)

Lemma concat_piece_range p i j :
  0 <= i -> i <= j ->
  concat (piece p <$> seqZ i (j - i)) = slice p (i * SEGMENT_SIZE) (j * SEGMENT_SIZE).
Proof.
  intros Hi Hj.
  assert (Hpre : forall n, 0 <= n ->
    concat (piece p <$> seqZ 0 n) = slice p 0 (n * SEGMENT_SIZE)).
  { intros n Hn. rewrite <-(Z2Nat.id n) by lia. unfold piece. rewrite concat_pieces by done.
    unfold slice. by rewrite zdrop_0, Z.sub_0_r by lia. }
  assert (Hall := Hpre j ltac:(lia)). replace j with (i + (j - i)) in Hall at 1 by lia.
  rewrite seqZ_app, fmap_app, concat_app, Z.add_0_l, Hpre in Hall by lia.
  rewrite <-(slice_split p 0 (i * SEGMENT_SIZE) (j * SEGMENT_SIZE)) in Hall by (unfold SEGMENT_SIZE; lia).
  by apply app_inv_head in Hall.
Qed.

Lemma segment_span_spec p i :
  len p < 2 ^ 62 -> 0 <= i < segment_count (len p) ->
  segment_span (len p) i =
    (HEADER_LEN + i * (SEGMENT_SIZE + TAG_LEN),
     HEADER_LEN + Z.min ((i + 1) * SEGMENT_SIZE) (len p) + (i + 1) * TAG_LEN) /\
  len (piece p i) = Z.min ((i + 1) * SEGMENT_SIZE) (len p) - i * SEGMENT_SIZE /\
  0 <= len (piece p i) <= SEGMENT_SIZE.
Proof.
  intros Hp Hi. rewrite len_piece by lia.
  pose proof (segment_count_bounds (len p) (len_nonneg p)). pose proof (len_nonneg p).
  unfold segment_span, saturating_sub, SEGMENT_SIZE, HEADER_LEN, TAG_LEN in *. unwrap.
  split_and!; [f_equal; lia|lia|lia|lia].
Qed.

Lemma open_range_loop_spec r p m js cs :
  cr_object_id r = o -> plaintext_len r = len p -> len p < 2 ^ 62 ->
  Forall2 (sealed_by p) js cs ->
  forall n pre index acc,
  js = seqZ index m -> 0 <= index -> index + m <= segment_count (len p) ->
  len pre + len (concat cs) < 2 ^ 63 -> (length cs <= n)%nat ->
  open_range_loop n key k r (pre ++ concat cs) (len pre) index acc
    = Ok (acc ++ concat (piece p <$> js)).
Proof.
  intros Ho Hl Hp. revert m. intros m Hcs. revert m.
  induction Hcs as [|i c js cs Hc Hcs IH]; intros m n pre index acc Hjs Hi Hm Hb Hn.
  { destruct n; simpl; by rewrite !app_nil_r, Z.ltb_irrefl. }
  assert (0 < m) by (destruct (decide (m <= 0)); [rewrite seqZ_nil in Hjs; done || lia|lia]).
  rewrite seqZ_cons in Hjs by lia. injection Hjs as -> ->.
  destruct n as [|n]; [simpl in Hn; lia|]. pose proof (len_sealed _ _ _ Hc) as Hlc.
  destruct (segment_span_spec p index Hp ltac:(lia)) as (Hsp & Hlp & Hb').
  pose proof (len_nonneg pre). pose proof (len_nonneg (concat cs)). cbn [concat] in *. rewrite len_app in Hb.
  cbn [open_range_loop]. rewrite Hl, Hsp. rewrite !len_app.
  rewrite (proj2 (Z.ltb_lt _ _)) by (unfold TAG_LEN in *; lia). cbv zeta.
  replace (_ -u _) with (len c)
    by (rewrite Hlc, Hlp; pose proof (segment_count_bounds (len p) (len_nonneg p));
        unfold SEGMENT_SIZE, HEADER_LEN, TAG_LEN in *; unwrap; lia).
  rewrite wadd_id by (unfold TAG_LEN in *; lia). rewrite (proj2 (Z.ltb_ge _ _)) by lia.
  rewrite slice_checked_Some by (rewrite ?len_app; unfold TAG_LEN in *; lia).
  rewrite slice_app_r, Z.sub_diag, Z.add_simpl_l, slice_app_l, slice_all by lia.
  rewrite Ho, (encrypt_decrypt _ _ _ _ _ Hc).
  rewrite wadd_id by (pose proof (segment_count_bounds (len p) (len_nonneg p)); unfold SEGMENT_SIZE in *; lia).
  rewrite app_assoc, <-len_app, (IH (Z.pred m)).
  - rewrite fmap_cons. cbn [concat]. by rewrite app_assoc.
  - f_equal; lia.
  - lia.
  - lia.
  - rewrite len_app. lia.
  - simpl in Hn. lia.
Qed.

Lemma length_sealed p js cs : Forall2 (sealed_by p) js cs -> (length cs <= length (concat cs))%nat.
Proof.
  induction 1 as [|i c js cs Hc _ IH]; [done|]. cbn [concat]. rewrite length_app. simpl length.
  pose proof (len_sealed _ _ _ Hc) as Hl. pose proof (len_nonneg (piece p i)).
  unfold TAG_LEN, len in *. lia.
Qed.

(** The bytes [to_fetch] asks for are exactly the sealed segments [first..=last]. *)
Lemma fetched_segments p cs first last :
  len p < 2 ^ 62 -> Forall2 (sealed_by p) (seqZ 0 (segment_count (len p))) cs ->
  0 <= first <= last + 1 -> first < segment_count (len p) -> 0 <= last < segment_count (len p) ->
  exists mid, Forall2 (sealed_by p) (seqZ first (last + 1 - first)) mid /\
    slice (header ++ concat cs) (segment_span (len p) first).1 (segment_span (len p) last).2 = concat mid.
Proof.
  intros Hp Hcs Hf Hfn Hl. pose proof (segment_count_bounds (len p) (len_nonneg p)).
  rewrite (proj1 (segment_span_spec p first Hp ltac:(lia))), (proj1 (segment_span_spec p last Hp Hl)).
  cbn [fst snd]. replace (segment_count (len p)) with (first + (segment_count (len p) - first)) in Hcs at 1 by lia.
  rewrite seqZ_app in Hcs by lia. apply Forall2_app_inv_l in Hcs as (A & R & HA & HR & ->).
  replace (segment_count (len p) - first) with ((last + 1 - first) + (segment_count (len p) - last - 1)) in HR at 1 by lia.
  rewrite Z.add_0_l, seqZ_app in HR by lia. apply Forall2_app_inv_l in HR as (mid & C & HM & HC & ->).
  exists mid. split; [done|]. rewrite !concat_app.
  pose proof (len_concat_sealed _ _ _ HA) as HlA. pose proof (len_concat_sealed _ _ _ HM) as HlM.
  replace first with (first - 0) in HlA at 1 by lia.
  rewrite concat_piece_range in HlA, HlM by lia. rewrite len_slice in HlA, HlM.
  unfold len in HlA at 3. unfold len in HlM at 3. rewrite length_seqZ in HlA, HlM.
  assert (HA' : len (concat A) = first * (SEGMENT_SIZE + TAG_LEN)) by (unfold SEGMENT_SIZE, TAG_LEN in *; lia).
  rewrite app_assoc, slice_app_r by (rewrite len_app, len_header; lia).
  rewrite len_app, len_header, HA', Z.sub_diag.
  replace (_ - _) with (len (concat mid)) by (unfold SEGMENT_SIZE, TAG_LEN in *; lia).
  by rewrite slice_app_l, slice_all by lia.
Qed.

(** The bounds of the segments a range touches. *)
Lemma range_segments (p : bytes) a b :
  0 <= a <= b -> b <= len p ->
  let n := segment_count (len p) in
  let first := Z.min (a / SEGMENT_SIZE) (n - 1) in
  let last := Z.min (saturating_sub b 1 / SEGMENT_SIZE) (n - 1) in
  0 <= first <= last + 1 /\ first < n /\ 0 <= last < n /\
  first * SEGMENT_SIZE <= a /\ b <= (last + 1) * SEGMENT_SIZE.
Proof.
  intros Hab Hb. pose proof (segment_count_bounds (len p) (len_nonneg p)).
  unfold saturating_sub, SEGMENT_SIZE in *. cbv zeta. Z.div_mod_to_equations. lia.
Qed.

Lemma open_range_sealed p e r :
  seal k key o p = Ok e -> len p < 2 ^ 62 -> cr_object_id r = o -> plaintext_len r = len p ->
  0 <= from r <= to r -> to r <= len p ->
  let '(start, end_, first) := to_fetch r in
  open_range key k r (slice (ciphertext e) start end_) first = Ok (slice p (from r) (to r)).
Proof.
  intros He Hp Ho Hl Hft Hto. destruct (seal_inv p e He) as (cs & Hcs & ->).
  unfold to_fetch. rewrite Hl.
  destruct (range_segments p (from r) (to r) Hft Hto) as (Hfl & Hf & Hla & Hfrom & Hend).
  set (first := Z.min (from r / _) _) in *. set (last := Z.min (saturating_sub _ _ / _) _) in *. cbn [ciphertext].
  destruct (fetched_segments p cs first last Hp Hcs Hfl Hf Hla) as (mid & Hmid & ->).
  assert (Hlen : len (concat mid) < 2 ^ 63).
  { rewrite (len_concat_sealed _ _ _ Hmid), concat_piece_range, len_slice by lia.
    unfold len at 2. rewrite length_seqZ. pose proof (segment_count_bounds (len p) (len_nonneg p)).
    unfold SEGMENT_SIZE, TAG_LEN in *. lia. }
  unfold open_range. rewrite wsub_id, (proj2 (Z.ltb_ge _ _)) by lia.
  change 0 with (len (@nil byte)) at 1. change (concat mid) with ([] ++ concat mid) at 2.
  rewrite (open_range_loop_spec r p (last + 1 - first) _ _ Ho Hl Hp Hmid);
    [|done|lia|lia|rewrite len_nil; lia|by eapply length_sealed].
  cbn [mbind result_bind app]. rewrite concat_piece_range by lia.
  unfold SEGMENT_SIZE in *. unwrap. rewrite len_slice, (proj2 (Z.ltb_ge _ _)) by lia.
  rewrite slice_checked_Some by (rewrite ?len_slice; lia). rewrite slice_slice by lia. simpl. do 2 f_equal; lia.
Qed.

Lemma sealed_length (p : bytes) : len p < 2 ^ 62 -> len p + ciphertext_overhead (len p) < 2 ^ 63.
Proof.
  intros Hp. pose proof (segment_count_bounds (len p) (len_nonneg p)). pose proof (len_nonneg p).
  unfold ciphertext_overhead, SEGMENT_SIZE, HEADER_LEN, TAG_LEN in *. unwrap. lia.
Qed.

Lemma overhead_mono a b : 0 <= a <= b -> b < 2 ^ 62 -> ciphertext_overhead a <= ciphertext_overhead b.
Proof.
  intros Hab Hb. pose proof (segment_count_bounds a ltac:(lia)). pose proof (segment_count_bounds b ltac:(lia)).
  unfold ciphertext_overhead, SEGMENT_SIZE, HEADER_LEN, TAG_LEN in *. unwrap. lia.
Qed.

Lemma to_fetch_bounds (p : bytes) r start end_ first :
  len p < 2 ^ 62 -> plaintext_len r = len p -> 0 <= from r <= to r -> to r <= len p ->
  to_fetch r = (start, end_, first) ->
  0 <= start <= end_ /\ (from r < to r -> start < end_) /\ end_ <= len p + ciphertext_overhead (len p) /\
  len p + ciphertext_overhead (len p) < 2 ^ 63.
Proof.
  intros Hp Hl Hft Hto. unfold to_fetch. rewrite Hl.
  destruct (range_segments p (from r) (to r) Hft Hto) as (Hfl & Hf & Hla & Hfrom & Hend).
  set (f := Z.min (from r / _) _) in *. set (last := Z.min (saturating_sub _ _ / _) _) in *.
  rewrite (proj1 (segment_span_spec p f Hp ltac:(lia))), (proj1 (segment_span_spec p last Hp Hla)).
  intros [= <- <- <-]. pose proof (segment_count_bounds (len p) (len_nonneg p)). pose proof (len_nonneg p).
  assert (Hne : from r < to r -> f <= last).
  { intros Hlt. unfold f, last, saturating_sub. pose proof (Z.div_le_mono (from r) (Z.max 0 (to r - 1)) SEGMENT_SIZE ltac:(done) ltac:(lia)). lia. }
  unfold ciphertext_overhead, SEGMENT_SIZE, HEADER_LEN, TAG_LEN in *. unwrap. lia.
Qed.

(** *** What an object that opens must be *)


(** An opened segment was encrypted from what it opened to. *)
Lemma open_segment_inv body segs i m :
  open_segment key k o body segs i = Some m ->
  aead_encrypt key (nonce_for k o (u32 i) (i =? segs - 1)) (aad_of k o) m
    = Some (slice body (i * (SEGMENT_SIZE + TAG_LEN))
              (Z.min (i * (SEGMENT_SIZE + TAG_LEN) + (SEGMENT_SIZE + TAG_LEN)) (len body))) /\
  len m + TAG_LEN = len (slice body (i * (SEGMENT_SIZE + TAG_LEN))
              (Z.min (i * (SEGMENT_SIZE + TAG_LEN) + (SEGMENT_SIZE + TAG_LEN)) (len body))).
Proof.
  unfold open_segment. intros Hd. apply decrypt_encrypt in Hd. rewrite <-Z.add_assoc in Hd.
  split; [done|]. by apply encrypt_len in Hd.
Qed.

(** All segments but the last are full, so the lengths determine each other. *)
Lemma opened_lengths body n os :
  n = Z.max (div_ceil (len body) (SEGMENT_SIZE + TAG_LEN)) 1 ->
  Forall2 (fun i m => open_segment key k o body n i = Some m) (seqZ 0 n) os ->
  (forall i m, os !! i = Some m -> Z.of_nat i < n - 1 -> len m = SEGMENT_SIZE) /\
  len body = len (concat os) + TAG_LEN * n /\
  (n - 1) * SEGMENT_SIZE <= len (concat os) <= n * SEGMENT_SIZE.
Proof.
  intros Hn Hos. pose proof (len_nonneg body) as Hb0.
  assert (Hb : 1 <= n /\ ((len body = 0 /\ n = 1) \/
             (n - 1) * (SEGMENT_SIZE + TAG_LEN) < len body <= n * (SEGMENT_SIZE + TAG_LEN))).
  { destruct (decide (len body = 0)) as [Hz0|]; [rewrite Hz0 in Hn; vm_compute in Hn; lia|].
    pose proof (div_ceil_bounds (len body) (SEGMENT_SIZE + TAG_LEN) ltac:(done) ltac:(lia)).
    unfold SEGMENT_SIZE, TAG_LEN in *. lia. }
  assert (Hfull : forall i m, os !! i = Some m -> Z.of_nat i < n /\
            len m + TAG_LEN = Z.min (SEGMENT_SIZE + TAG_LEN) (len body - Z.of_nat i * (SEGMENT_SIZE + TAG_LEN)) \/
            len body = 0).
  { intros i m Hi. destruct (Forall2_lookup_r _ _ _ _ _ Hos Hi) as (z & Hz & Hm).
    apply lookup_seqZ in Hz as [-> ?]. rewrite Z.add_0_l in Hm.
    apply open_segment_inv in Hm as [_ Hm]. rewrite len_slice in Hm.
    unfold SEGMENT_SIZE, TAG_LEN in *. pose proof (len_nonneg m). lia. }
  assert (Hfst : forall i m, os !! i = Some m -> Z.of_nat i < n - 1 -> len m = SEGMENT_SIZE).
  { intros i m Hi Hlt. destruct (Hfull i m Hi); unfold SEGMENT_SIZE, TAG_LEN in *; lia. }
  split; [done|]. assert (Hlo : length os = Z.to_nat n) by (by rewrite <-(Forall2_length _ _ _ Hos), length_seqZ).
  destruct (lookup_lt_is_Some_2 os (Z.to_nat (n - 1)) ltac:(lia)) as [m Hm].
  assert (Hos' : os = take (Z.to_nat (n - 1)) os ++ [m]).
  { rewrite <-(take_drop_middle os _ _ Hm) at 1. rewrite drop_ge by lia. done. }
  assert (Hlen : len (concat os) = SEGMENT_SIZE * (n - 1) + len m).
  { rewrite Hos', concat_app, len_app, (len_concat_fixed SEGMENT_SIZE).
    - replace (len (take _ os)) with (n - 1) by (unfold len; rewrite length_take; lia).
      cbn [concat]. by rewrite app_nil_r.
    - apply Forall_lookup. intros i l Hi. apply lookup_take_Some in Hi as [Hi ?]. apply (Hfst i); [done|lia]. }
  destruct (Hfull _ _ Hm) as [[_ Hl]|Hz0].
  - pose proof (len_nonneg m). rewrite Hlen. unfold SEGMENT_SIZE, TAG_LEN in *. lia.
  - destruct (Forall2_lookup_r _ _ _ _ _ Hos Hm) as (z & _ & Hd).
    apply open_segment_inv in Hd as [_ Hd]. rewrite len_slice, Hz0 in Hd. pose proof (len_nonneg m).
    unfold TAG_LEN in *. lia.
Qed.

Lemma header_of c :
  ztake (len MAGIC) c = MAGIC -> from_le_bytes (slice c 4 8) = SEGMENT_SIZE -> HEADER_LEN <= len c ->
  c = header ++ zdrop HEADER_LEN c.
Proof.
  intros Hmagic Hs Hh. rewrite <-(ztake_zdrop HEADER_LEN c) at 1. f_equal.
  assert (H4 : slice c 4 8 = le_bytes 4 (u32 SEGMENT_SIZE)).
  { rewrite <-(le_bytes_from_le_bytes (slice c 4 8)), Hs. f_equal.
    assert (len (slice c 4 8) = 4) by (rewrite len_slice; unfold HEADER_LEN in *; lia).
    unfold len in *. lia. }
  unfold header. rewrite <-H4, <-Hmagic. change (len MAGIC) with 4. unfold HEADER_LEN.
  assert (Ht : forall n, ztake n c = slice c 0 n) by (intros; unfold slice; by rewrite zdrop_0, Z.sub_0_r).
  by rewrite !Ht, slice_split.
Qed.

Lemma open_segmented_sealed e p :
  key_id e = k -> object_id e = o -> ztake (len MAGIC) (ciphertext e) = MAGIC -> len p < 2 ^ 62 ->
  len (ciphertext e) = len p + ciphertext_overhead (len p) ->
  open_segmented key e = Ok p ->
  exists cs, Forall2 (sealed_by p) (seqZ 0 (segment_count (len p))) cs /\ ciphertext e = header ++ concat cs.
Proof.
  intros Hk Ho Hmagic Hp Hlen. unfold open_segmented. rewrite Hk, Ho.
  destruct (Z.ltb_spec (len (ciphertext e)) HEADER_LEN) as [|Hh]; [done|].
  destruct (Z.eqb_spec (from_le_bytes (slice (ciphertext e) 4 8)) SEGMENT_SIZE) as [Hs|]; [|done]. cbn [negb].
  set (body := zdrop HEADER_LEN (ciphertext e)). destruct (mapM _ _) as [os|] eqn:Hos; [|done].
  apply mapM_Some in Hos. intros [= Hpeq].
  set (n := Z.max _ 1) in *. destruct (opened_lengths body n os eq_refl Hos) as (Hfst & Hbl & Hr).
  rewrite Hpeq in Hbl, Hr.
  assert (Hcount : segment_count (len p) = n).
  { assert (len body = len (ciphertext e) - HEADER_LEN)
      by (unfold body, HEADER_LEN in *; rewrite len_zdrop; lia).
    pose proof (segment_count_bounds (len p) (len_nonneg p)). unfold ciphertext_overhead in Hlen.
    unfold SEGMENT_SIZE, HEADER_LEN, TAG_LEN in *. revert Hlen. unwrap. lia. }
  pose proof (header_of (ciphertext e) Hmagic Hs Hh) as Hhdr. fold body in Hhdr.
  exists ((fun i => slice body (i * (SEGMENT_SIZE + TAG_LEN))
       (Z.min (i * (SEGMENT_SIZE + TAG_LEN) + (SEGMENT_SIZE + TAG_LEN)) (len body))) <$> seqZ 0 n).
  rewrite Hcount. split.
  - apply Forall2_fmap_r, Forall_Forall2_diag, Forall_forall. intros z Hz.
    apply list_elem_of_lookup in Hz as [i Hi].
    destruct (Forall2_lookup_l _ _ _ _ _ Hos Hi) as (m & Hm & Hd).
    apply lookup_seqZ in Hi as [-> Hi]. rewrite Z.add_0_l in *.
    apply open_segment_inv in Hd as [Henc Hml]. unfold sealed_by. rewrite Hcount.
    etrans; [|exact Henc]. f_equal.
    assert (Hsl : slice p (Z.of_nat i * SEGMENT_SIZE) (Z.of_nat i * SEGMENT_SIZE + len m) = m).
    { rewrite <-Hpeq. apply slice_concat; [done|]. intros j m' Hj ?. apply (Hfst j); [done|lia]. }
    etrans; [|exact Hsl]. unfold piece. f_equal.
    rewrite len_slice in Hml. unfold SEGMENT_SIZE, TAG_LEN in *. lia.
  - rewrite Hhdr. f_equal. rewrite <-(Z2Nat.id n) by lia. rewrite concat_pieces by done.
    symmetry. apply ztake_all. unfold SEGMENT_SIZE, TAG_LEN in *. lia.
Qed.

End Laws.

(** ** Properties *)

(** C29 What is sealed opens to the same bytes, whatever the key, the object id and
    the plaintext; and the sealed object is exactly [ciphertext_overhead] longer. *)
Theorem seal_open_roundtrip `{AeadLaws} k key o p :
  exists e, seal k key o p = Ok e /\ open key e = Ok p /\
    key_id e = k /\ object_id e = o /\ plaintext_hash e = hash_data p /\
    (len p < 2 ^ 62 -> len (ciphertext e) = len p + ciphertext_overhead (len p)).
Proof.
  destruct (seal_spec k key o p) as (cs & Hcs & He). eexists. split; [exact He|]. split_and!; try done.
  - by eapply open_seal.
  - by eapply len_seal.
Qed.

(** C30 Reading a range: fetching what [to_fetch] names and opening it with
    [open_range] gives exactly the plaintext's bytes in [from..to], for every
    range inside the chunk. *)
Theorem open_range_correct `{AeadLaws} k key o p e r :
  seal k key o p = Ok e -> len p < 2 ^ 62 -> cr_object_id r = o -> plaintext_len r = len p ->
  0 <= from r <= to r -> to r <= len p ->
  let '(start, end_, first) := to_fetch r in
  open_range key k r (slice (ciphertext e) start end_) first = Ok (slice p (from r) (to r)).
Proof. apply open_range_sealed. Qed.

(** C31 Only what [seal] makes opens: an object in the segmented layout that opens to
    [p] and has the length of a sealed [p] is, byte for byte, the object [seal]
    makes of [p]. Its segments have not been reordered, dropped, moved from
    another object or replaced. *)
Theorem open_only_sealed `{AeadLaws} key e p :
  open key e = Ok p -> ztake (len MAGIC) (ciphertext e) = MAGIC -> len p < 2 ^ 62 ->
  len (ciphertext e) = len p + ciphertext_overhead (len p) ->
  seal (key_id e) key (object_id e) p = Ok e.
Proof.
  unfold open. case_bool_decide as Hch; [done|]. intros Hopen Hmagic Hp Hlen.
  rewrite bool_decide_true in Hopen by done.
  destruct (open_segmented key e) as [p'|] eqn:Hseg; [|done]. cbn [mbind result_bind] in Hopen.
  case_bool_decide as Hph; [done|]. injection Hopen as ->.
  destruct (open_segmented_sealed (key_id e) key (object_id e) e p) as (cs & Hcs & Hct); try done.
  unfold seal. rewrite (mapM_Some_2 (seal_segment _ _ _ _ _) _ cs Hcs).
  destruct e; simpl in *. rewrite Hct in *. by subst.
Qed.

(** No two segments of an object share a nonce: the nonce determines the segment
    index and the last-segment flag. *)
Theorem nonce_for_injective `{AeadLaws} k o i l i' l' :
  0 <= i < 2 ^ 32 -> 0 <= i' < 2 ^ 32 ->
  nonce_for k o i l = nonce_for k o i' l' -> i = i' /\ l = l'.
Proof.
  unfold nonce_for. intros Hi Hi' Heq. apply app_inv_head in Heq.
  apply app_inj_1 in Heq as [Hle Hl]; [|done].
  split; [by apply (le_bytes_inj 4)|]. by destruct l, l'.
Qed.

(** *** Witnesses *)

Import ToyAead.

Definition wkey : bytes := zeroes 32.
Definition wplain : bytes := String.list_byte_of_string "hello, world".

Lemma seal_open_roundtrip_witness :
  exists e, seal "k" wkey 7%N wplain = Ok e /\ open wkey e = Ok wplain.
Proof.
  destruct (seal_open_roundtrip "k" wkey 7%N wplain) as (e & He & Ho & _). by exists e.
Defined.

Definition wsealed : EncryptedChunk :=
  match seal "k" wkey 7%N wplain with
  | Ok e => e
  | Err _ => {| key_id := ""; object_id := 0; plaintext_hash := ""; ciphertext_hash := ""; ciphertext := [] |}
  end.
Definition wrange : ChunkRange := {| cr_object_id := 7; plaintext_len := 12; from := 3; to := 8 |}.

Lemma open_range_correct_witness :
  open_range wkey "k" wrange (slice (ciphertext wsealed) 8 36) 0 = Ok (String.list_byte_of_string "lo, w").
Proof.
  pose proof (open_range_correct "k" wkey 7%N wplain wsealed wrange) as Hr.
  specialize (Hr ltac:(vm_compute; reflexivity) ltac:(vm_compute; reflexivity) eq_refl eq_refl
    ltac:(simpl; lia) ltac:(vm_compute; discriminate)).
  vm_compute in Hr. vm_compute. exact Hr.
Defined.

Lemma open_only_sealed_witness : seal (key_id wsealed) wkey (object_id wsealed) wplain = Ok wsealed.
Proof. apply open_only_sealed; vm_compute; reflexivity. Defined.

Lemma nonce_for_injective_witness : nonce_for "k" 7%N 1 false <> nonce_for "k" 7%N 2 false.
Proof.
  intros Heq. destruct (nonce_for_injective "k" 7%N 1 false 2 false) as [Hi _]; [lia|lia|done|].
  discriminate Hi.
Defined.

End CryptoFacts.
