(* ===== verification/ObjectStore.v ===== *)
(** * Object stores

    Models [src/crates/dcfs-objectstore/src/lib.rs], the trait every backend of
    immutable objects implements (class [ObjectStore], with its contract
    [ObjectStoreLaws]), and [memory.rs], the in-memory backend (module
    [MemoryObjectStore]), whose operations are proved to satisfy the contract.
    A backend is a state of its own type; every [Utc::now()] is an argument. *)
From S2P Require Import Prelude.

Module Store.

Abbreviation ObjectId := Uuid (only parsing).

Inductive ObjectStoreError : Type :=
| NotFound (id : ObjectId)
| AlreadyExists (id : ObjectId)
| Backend (msg : string)
| Retained (id : ObjectId).

Record StoredObject : Type := { so_id : ObjectId; so_size : Z; so_created_at : Z }.

Abbreviation outcome S A := (result ObjectStoreError A * S)%type (only parsing).

(** [ObjectLocator { id }] is its id. *)
Class ObjectStore (S : Type) : Type := {
  put : forall (now : Z) (id : ObjectId) (data : bytes) (s : S), outcome S StoredObject;
  put_for : forall (now : Z) (id : ObjectId) (data : bytes) (group : Uuid) (s : S), outcome S StoredObject;
  get : forall (id : ObjectId) (s : S), outcome S bytes;
  get_range : forall (id : ObjectId) (offset l : Z) (s : S), outcome S bytes;
  delete : forall (id : ObjectId) (s : S), outcome S unit;
  stat : forall (id : ObjectId) (s : S), outcome S StoredObject;
}.

(** [all.slice(start..end)] of the part of [offset..offset + len] that exists. *)
Definition range_of (all : bytes) (offset l : Z) : bytes :=
  let start := Z.min offset (len all) in
  let end_ := Z.min (start +u l) (len all) in
  slice all start end_.

(** The default method of the trait. *)
Definition default_get_range {S} (get : ObjectId -> S -> outcome S bytes)
    (id : ObjectId) (offset l : Z) (s : S) : outcome S bytes :=
  match get id s with
  | (Ok all, s') => (Ok (range_of all offset l), s')
  | (Err e, s') => (Err e, s')
  end.

(** The largest object a backend takes. *)
Class StoreLimit : Type := max_object : Z.

(** What the server relies on. A backend that is in order ([sound]) holds a finite map of
    objects and stays in order; [get] and [get_range] read it and change nothing; [put]
    and [put_for] add an object that was not there and never replace one; [delete]
    removes at most the object it is given. *)
Class ObjectStoreLaws (S : Type) `{ObjectStore S} `{StoreLimit} : Type := {
  objects : S -> gmap ObjectId bytes;
  sound : S -> Prop;
  put_new : forall now id data s, sound s -> objects s !! id = None -> len data <= max_object ->
    exists s', put now id data s = (Ok {| so_id := id; so_size := len data; so_created_at := now |}, s') /\
      sound s' /\ objects s' = <[id := data]> (objects s);
  put_for_new : forall now id data group s, sound s -> objects s !! id = None -> len data <= max_object ->
    exists s', put_for now id data group s = (Ok {| so_id := id; so_size := len data; so_created_at := now |}, s') /\
      sound s' /\ objects s' = <[id := data]> (objects s);
  put_old : forall now id data s, sound s -> is_Some (objects s !! id) ->
    exists s', put now id data s = (Err (AlreadyExists id), s') /\ sound s' /\ objects s' = objects s;
  get_spec : forall id s, sound s -> exists s',
    get id s = (ok_or (objects s !! id) (NotFound id), s') /\ sound s' /\ objects s' = objects s;
  get_range_spec : forall id offset l d s, sound s -> objects s !! id = Some d ->
    0 <= offset -> 0 < l -> offset + l <= len d -> len d < 2 ^ 63 -> exists s',
    get_range id offset l s = (Ok (slice d offset (offset + l)), s') /\ sound s' /\ objects s' = objects s;
  (** A deletion may be refused or fail, also after the object is gone; when it succeeds, or
      there was no such object, there is none. *)
  delete_spec : forall id s, sound s -> let '(r, s') := delete id s in
    sound s' /\ (objects s' = objects s \/ objects s' = base.delete id (objects s)) /\
    ((r = Ok tt \/ exists x, r = Err (NotFound x)) -> objects s' !! id = None);
}.

(** [s'] is in order and holds [o]. *)
Definition keeps {S} `{ObjectStoreLaws S} (s' : S) (o : gmap ObjectId bytes) : Prop := sound s' /\ objects s' = o.

(** A range inside the object is read whole. *)
Lemma range_of_slice all a b :
  0 <= a <= b -> b <= len all -> len all < 2 ^ 64 -> range_of all a (b - a) = slice all a b.
Proof.
  intros. unfold range_of. rewrite (Z.min_l a) by lia. rewrite wadd_id by lia. f_equal. lia.
Qed.

End Store.

(** ** [MemoryObjectStore] *)
Module MemoryObjectStore.
Import Store.

(** [RwLock<HashMap<ObjectId, (Bytes, DateTime)>>]: each operation holds the lock
    throughout. *)
Record t : Type := mk { objects_ : gmap ObjectId (bytes * Z) }.

Definition new : t := mk ∅.
Definition length (s : t) : nat := size (objects_ s).
Definition is_empty (s : t) : bool := bool_decide (objects_ s = ∅).

Definition put (now : Z) (id : ObjectId) (data : bytes) (s : t) : outcome t StoredObject :=
  match objects_ s !! id with
  | Some _ => (Err (AlreadyExists id), s)
  | None => (Ok {| so_id := id; so_size := len data; so_created_at := now |},
             mk (<[id := (data, now)]> (objects_ s)))
  end.

Definition get (id : ObjectId) (s : t) : outcome t bytes :=
  (ok_or (fst <$> objects_ s !! id) (NotFound id), s).

Definition get_range (id : ObjectId) (offset l : Z) (s : t) : outcome t bytes :=
  match get id s with
  | (Err e, s) => (Err e, s)
  | (Ok all, s) =>
      let start := Z.min offset (len all) in
      let end_ := Z.min (start +u l) (len all) in
      (Ok (slice all start end_), s)
  end.

Definition delete (id : ObjectId) (s : t) : outcome t unit :=
  match objects_ s !! id with
  | None => (Err (NotFound id), s)
  | Some _ => (Ok tt, mk (base.delete id (objects_ s)))
  end.

Definition stat (id : ObjectId) (s : t) : outcome t StoredObject :=
  (match objects_ s !! id with
   | None => Err (NotFound id)
   | Some (data, created_at) => Ok {| so_id := id; so_size := len data; so_created_at := created_at |}
   end, s).

#[export] Instance memory_store : ObjectStore t := {|
  Store.put := put; Store.put_for := fun now id data _ s => put now id data s;
  Store.get := get; Store.get_range := get_range; Store.delete := delete; Store.stat := stat |}.

(** The object held under [id], as [put] and [delete] look for it. *)
Lemma held_None s id : (fst <$> objects_ s) !! id = None -> objects_ s !! id = None.
Proof. rewrite lookup_fmap. by destruct (objects_ s !! id). Qed.
Lemma held_Some s id : is_Some ((fst <$> objects_ s) !! id) -> exists d, objects_ s !! id = Some d.
Proof. intros [d Hd]. rewrite lookup_fmap in Hd. destruct (objects_ s !! id); by eauto. Qed.

#[export] Program Instance memory_store_laws `{StoreLimit} : ObjectStoreLaws t := {
  objects := fun s => fst <$> objects_ s; sound := fun _ => True }.
Next Obligation.
  intros ? now id data s _ Hs%held_None _. simpl. unfold put. rewrite Hs.
  eexists. split; [done|]. simpl. by rewrite fmap_insert.
Qed.
Next Obligation.
  intros ? now id data group s _ Hs%held_None _. simpl. unfold put. rewrite Hs.
  eexists. split; [done|]. simpl. by rewrite fmap_insert.
Qed.
Next Obligation.
  intros ? now id data s _ [d Hs]%held_Some. simpl. unfold put. rewrite Hs. by eexists.
Qed.
Next Obligation. intros ? id s _. exists s. simpl. unfold get. by rewrite lookup_fmap. Qed.
Next Obligation.
  intros ? id offset l d s _ Hd Hoff Hl Hend Hlen. exists s. simpl. unfold get_range, get.
  change ((fst <$> objects_ s) !! id = Some d) in Hd. rewrite lookup_fmap in Hd.
  destruct (objects_ s !! id) as [[d' n]|]; [|done]. injection Hd as <-. simpl.
  rewrite (Z.min_l offset), wadd_id, Z.min_l by lia. done.
Qed.
Next Obligation.
  intros ? id s _. simpl. unfold delete. destruct (objects_ s !! id) as [d|] eqn:Hd; (split; [done|]); simpl.
  - split; [right; by rewrite fmap_delete|]. intros _. by rewrite lookup_fmap, lookup_delete_eq.
  - split; [by left|]. intros _. by rewrite lookup_fmap, Hd.
Qed.

End MemoryObjectStore.

(** ** A store that does not delete as it is told

    The laws leave the answer to a deletion to the store: here a memory that answers as
    [answers] says, and has deleted the object or not. *)
Module MoodyStore.
Import Store.
#[local] Existing Instances MemoryObjectStore.memory_store MemoryObjectStore.memory_store_laws.

Record t : Type := mk { inner : MemoryObjectStore.t; answers : nat -> option (ObjectStoreError * bool); asked : nat }.
Definition with_inner (s : t) (m : MemoryObjectStore.t) : t := mk m (answers s) (asked s).
Definition over {A} (f : MemoryObjectStore.t -> outcome MemoryObjectStore.t A) (s : t) : outcome t A :=
  let '(r, m) := f (inner s) in (r, with_inner s m).
Definition delete (id : ObjectId) (s : t) : outcome t unit :=
  let '(r, m) := MemoryObjectStore.delete id (inner s) in
  match answers s (asked s) with
  | Some (e, gone) => (Err e, mk (if gone : bool then m else inner s) (answers s) (S (asked s)))
  | None => (r, mk m (answers s) (S (asked s)))
  end.
#[export] Instance moody_store : ObjectStore t := {|
  Store.put now id data := over (MemoryObjectStore.put now id data);
  Store.put_for now id data _ := over (MemoryObjectStore.put now id data);
  Store.get id := over (MemoryObjectStore.get id);
  Store.get_range id offset l := over (MemoryObjectStore.get_range id offset l);
  Store.delete := delete;
  Store.stat id := over (MemoryObjectStore.stat id) |}.

(** It never says that there is no such object when there is. *)
#[export] Program Instance moody_store_laws `{StoreLimit} : ObjectStoreLaws t := {
  objects := fun s => fst <$> MemoryObjectStore.objects_ (inner s);
  sound := fun s => forall n e gone, answers s n = Some (e, gone) -> forall x, e <> NotFound x }.
Next Obligation.
  intros ? now id data s Hs Hno Hl. destruct (put_new (ObjectStoreLaws := MemoryObjectStore.memory_store_laws) now id data (inner s) I Hno Hl) as (m & Hm & _ & Hobj). exists (with_inner s m).
  unfold Store.put; simpl. unfold over. cbv [Store.put Store.get Store.get_range MemoryObjectStore.memory_store] in Hm. by rewrite Hm.
Qed.
Next Obligation.
  intros ? now id data group s Hs Hno Hl. destruct (put_new (ObjectStoreLaws := MemoryObjectStore.memory_store_laws) now id data (inner s) I Hno Hl) as (m & Hm & _ & Hobj). exists (with_inner s m).
  unfold Store.put_for; simpl. unfold over. cbv [Store.put Store.get Store.get_range MemoryObjectStore.memory_store] in Hm. by rewrite Hm.
Qed.
Next Obligation.
  intros ? now id data s Hs Hh. destruct (put_old (ObjectStoreLaws := MemoryObjectStore.memory_store_laws) now id data (inner s) I Hh) as (m & Hm & _ & Hobj). exists (with_inner s m).
  unfold Store.put; simpl. unfold over. cbv [Store.put Store.get Store.get_range MemoryObjectStore.memory_store] in Hm. by rewrite Hm.
Qed.
Next Obligation.
  intros ? id s Hs. destruct (get_spec (ObjectStoreLaws := MemoryObjectStore.memory_store_laws) id (inner s) I) as (m & Hm & _ & Hobj). exists (with_inner s m).
  unfold Store.get; simpl. unfold over. cbv [Store.put Store.get Store.get_range MemoryObjectStore.memory_store] in Hm. by rewrite Hm.
Qed.
Next Obligation.
  intros ? id offset l d s Hs Hd Hoff Hl Hend Hlen. destruct (get_range_spec (ObjectStoreLaws := MemoryObjectStore.memory_store_laws) id offset l d (inner s) I Hd Hoff Hl Hend Hlen) as (m & Hm & _ & Hobj).
  exists (with_inner s m). unfold Store.get_range; simpl. unfold over. cbv [Store.put Store.get Store.get_range MemoryObjectStore.memory_store] in Hm. by rewrite Hm.
Qed.
Next Obligation.
  intros ? id s Hs. unfold Store.delete; simpl. unfold delete. pose proof (delete_spec (ObjectStoreLaws := MemoryObjectStore.memory_store_laws) id (inner s) I) as Hd.
  cbv [Store.delete MemoryObjectStore.memory_store] in Hd. destruct (MemoryObjectStore.delete id (inner s)) as [r m]. destruct Hd as (_ & Hobj & Hgone).
  destruct (answers s (asked s)) as [[e gone]|] eqn:Ha; simpl; (split; [exact Hs|]); [|done].
  split; [destruct gone; [done|by left]|]. intros [?|[x ?]]; [done|]. simplify_eq. by destruct (Hs _ _ _ Ha x).
Qed.

End MoodyStore.
