(* ===== verification/Repository.v ===== *)
(** * The metadata repository

    Models [src/crates/dcfs-db/src/repository.rs] (module [Records]: the records,
    the errors and the advisory-lock key) and [memory.rs] (module [MemoryRepo]:
    every method of [MetadataRepository] on the in-memory maps). A method that
    changes the maps returns its result with the new repository; the locks it
    takes are held throughout, so each method is one atomic step. [Utc::now()]
    and [Uuid::new_v4()] are arguments. *)
From S2P Require Import Prelude.

Module Records.

Inductive RepositoryError : Type :=
| NotFound
| AlreadyExists
| Conflict
| DirectoryNotEmpty
| Database (msg : string).

Record NodeRecord : Type := {
  n_id : Uuid;
  n_parent_id : option Uuid;
  n_name : bytes;
  n_kind : string;
  n_mode : Z;
  n_uid : Z;
  n_gid : Z;
  n_size : Z;
  n_atime : Z;
  n_mtime : Z;
  n_ctime : Z;
  n_current_version_id : option Uuid;
  n_generation : Z;
  n_link_target : option bytes;
}.

Record FileVersionRecord : Type := {
  v_id : Uuid;
  v_node_id : Uuid;
  v_base_version_id : option Uuid;
  v_state : string;
  v_size : Z;
  v_plaintext_hash : string;
  v_chunk_size : Z;
  v_created_at : Z;
  v_committed_at : option Z;
}.

Record FileChunkRecord : Type := {
  c_version_id : Uuid;
  c_chunk_index : Z;
  c_logical_offset : Z;
  c_plaintext_size : Z;
  c_plaintext_hash : string;
  c_object_id : Uuid;
}.

Record SessionRecord : Type := {
  s_id : Uuid;
  s_label : string;
  s_created_at : Z;
  s_expires_at : Z;
}.

Record ObjectLocatorRecord : Type := {
  l_object_id : Uuid;
  l_backend : string;
  l_message_id : string;
  l_attachment_id : string;
  l_url : string;
  l_size : Z;
}.

Record CommitGuard : Type := {
  g_node_id : Uuid;
  g_version_id : Uuid;
  g_expected_generation : Z;
  g_expected_current_version : option Uuid;
}.

(** FNV-1a over the sixteen bytes of the id. *)
Definition advisory_key (node_id : Uuid) : Z :=
  i64 (foldl (fun hash byte => Z.lxor hash (byte_to_Z byte) *u 0x100000001b3)
         0xcbf29ce484222325 (uuid_bytes node_id)).

(** Field updates of the records the repository changes in place. *)
Definition set_place (parent : option Uuid) (name : bytes) (ctime : Z) (n : NodeRecord) : NodeRecord :=
  {| n_id := n_id n; n_parent_id := parent; n_name := name; n_kind := n_kind n; n_mode := n_mode n;
     n_uid := n_uid n; n_gid := n_gid n; n_size := n_size n; n_atime := n_atime n; n_mtime := n_mtime n;
     n_ctime := ctime; n_current_version_id := n_current_version_id n;
     n_generation := n_generation n; n_link_target := n_link_target n |}.
Definition set_attr (mode uid gid size mtime atime : option Z) (ctime : Z) (n : NodeRecord) : NodeRecord :=
  {| n_id := n_id n; n_parent_id := n_parent_id n; n_name := n_name n; n_kind := n_kind n;
     n_mode := default (n_mode n) mode; n_uid := default (n_uid n) uid; n_gid := default (n_gid n) gid;
     n_size := default (n_size n) size; n_atime := default (n_atime n) atime;
     n_mtime := default (n_mtime n) mtime; n_ctime := ctime;
     n_current_version_id := n_current_version_id n; n_generation := n_generation n;
     n_link_target := n_link_target n |}.
Definition set_content (version : option Uuid) (generation size : Z) (n : NodeRecord) : NodeRecord :=
  {| n_id := n_id n; n_parent_id := n_parent_id n; n_name := n_name n; n_kind := n_kind n;
     n_mode := n_mode n; n_uid := n_uid n; n_gid := n_gid n; n_size := size; n_atime := n_atime n;
     n_mtime := n_mtime n; n_ctime := n_ctime n; n_current_version_id := version;
     n_generation := generation; n_link_target := n_link_target n |}.
Definition set_version (state : string) (size : Z) (hash : string) (created : Z) (committed : option Z)
    (v : FileVersionRecord) : FileVersionRecord :=
  {| v_id := v_id v; v_node_id := v_node_id v; v_base_version_id := v_base_version_id v; v_state := state;
     v_size := size; v_plaintext_hash := hash; v_chunk_size := v_chunk_size v; v_created_at := created;
     v_committed_at := committed |}.
Definition set_chunk_version (version : Uuid) (c : FileChunkRecord) : FileChunkRecord :=
  {| c_version_id := version; c_chunk_index := c_chunk_index c; c_logical_offset := c_logical_offset c;
     c_plaintext_size := c_plaintext_size c; c_plaintext_hash := c_plaintext_hash c;
     c_object_id := c_object_id c |}.

End Records.

Module MemoryRepo.
Import Records.

Record Repo : Type := {
  nodes : gmap Uuid NodeRecord;
  versions : gmap Uuid FileVersionRecord;
  chunks : gmap Uuid (list FileChunkRecord);
  sessions : gmap string (SessionRecord * bool);
  locators : gmap Uuid ObjectLocatorRecord;
  root_id : Uuid;
}.

Definition with_nodes (r : Repo) (ns : gmap Uuid NodeRecord) : Repo :=
  {| nodes := ns; versions := versions r; chunks := chunks r; sessions := sessions r;
     locators := locators r; root_id := root_id r |}.
Definition with_versions (r : Repo) (vs : gmap Uuid FileVersionRecord) : Repo :=
  {| nodes := nodes r; versions := vs; chunks := chunks r; sessions := sessions r;
     locators := locators r; root_id := root_id r |}.
Definition with_chunks (r : Repo) (cs : gmap Uuid (list FileChunkRecord)) : Repo :=
  {| nodes := nodes r; versions := versions r; chunks := cs; sessions := sessions r;
     locators := locators r; root_id := root_id r |}.
Definition with_sessions (r : Repo) (ss : gmap string (SessionRecord * bool)) : Repo :=
  {| nodes := nodes r; versions := versions r; chunks := chunks r; sessions := ss;
     locators := locators r; root_id := root_id r |}.
Definition with_locators (r : Repo) (ls : gmap Uuid ObjectLocatorRecord) : Repo :=
  {| nodes := nodes r; versions := versions r; chunks := chunks r; sessions := sessions r;
     locators := ls; root_id := root_id r |}.

Abbreviation answer A := (result RepositoryError A) (only parsing).
Abbreviation outcome A := (result RepositoryError A * Repo)%type (only parsing).

Definition new (root : Uuid) (now : Z) : Repo :=
  {| nodes := {[ root :=
       {| n_id := root; n_parent_id := None; n_name := []; n_kind := "directory"; n_mode := 16877;
          n_uid := 0; n_gid := 0; n_size := 0; n_atime := now; n_mtime := now; n_ctime := now;
          n_current_version_id := None; n_generation := 0; n_link_target := None |} ]};
     versions := ∅; chunks := ∅; sessions := ∅; locators := ∅; root_id := root |}.

(** [n] is the child [name] of [parent]. *)
Definition is_child (parent : Uuid) (name : bytes) (n : NodeRecord) : bool :=
  bool_decide (n_parent_id n = Some parent) && bool_decide (n_name n = name).
Definition is_in (parent : Uuid) (n : NodeRecord) : bool := bool_decide (n_parent_id n = Some parent).

(** The keyed search of a vector sorted by chunk index: [Ok] of the position of
    the key, or [Err] of the position to insert it at. *)
Fixpoint binary_search (key : Z) (l : list FileChunkRecord) : result nat nat :=
  match l with
  | [] => Err O
  | c :: l' =>
      if c_chunk_index c <? key then
        match binary_search key l' with Ok i => Ok (S i) | Err i => Err (S i) end
      else if c_chunk_index c =? key then Ok O else Err O
  end.

Definition vec_insert {A} (i : nat) (x : A) (l : list A) : list A := take i l ++ x :: drop i l.

(** Insert or replace by index. *)
Definition upsert (record : FileChunkRecord) (l : list FileChunkRecord) : list FileChunkRecord :=
  match binary_search (c_chunk_index record) l with
  | Ok existing => <[existing := record]> l
  | Err insert_at => vec_insert insert_at record l
  end.

(** Insert unless the index is taken. *)
Definition insert_new (record : FileChunkRecord) (l : list FileChunkRecord) : list FileChunkRecord :=
  match binary_search (c_chunk_index record) l with
  | Ok _ => l
  | Err at_ => vec_insert at_ record l
  end.

Definition in_span (first last : Z) (c : FileChunkRecord) : bool :=
  (first <=? c_chunk_index c) && (c_chunk_index c <=? last).

(** [max_by_key(created_at)]: the last of the greatest. *)
Fixpoint max_by_created (l : list FileVersionRecord) : option FileVersionRecord :=
  match l with
  | [] => None
  | v :: l' =>
      match max_by_created l' with
      | None => Some v
      | Some w => if v_created_at v <=? v_created_at w then Some w else Some v
      end
  end.

Section WithOrder.
Context `{HashOrder}.

Definition get_node (id : Uuid) (r : Repo) : answer NodeRecord := ok_or (nodes r !! id) NotFound.
Definition get_root (r : Repo) : answer NodeRecord := get_node (root_id r) r.

Definition list_children (parent : Uuid) (limit offset : Z) (r : Repo) : answer (list NodeRecord) :=
  Ok (ztake limit (zdrop offset (filter (fun n => is_in parent n = true) (hm_values (nodes r))))).

Definition find_child (parent : Uuid) (name : bytes) (r : Repo) : answer NodeRecord :=
  ok_or (head (filter (fun n => is_child parent name n = true) (hm_values (nodes r)))) NotFound.

Definition create_node (now : Z) (id parent : Uuid) (name : bytes) (kind : string) (mode uid gid : Z)
    (r : Repo) : outcome NodeRecord :=
  match nodes r !! id with
  | Some _ => (Err AlreadyExists, r)
  | None =>
      let record := {| n_id := id; n_parent_id := Some parent; n_name := name; n_kind := kind;
                       n_mode := mode; n_uid := uid; n_gid := gid; n_size := 0; n_atime := now;
                       n_mtime := now; n_ctime := now; n_current_version_id := None;
                       n_generation := 0; n_link_target := None |} in
      (Ok record, with_nodes r (<[id := record]> (nodes r)))
  end.

Definition create_symlink (now : Z) (id parent : Uuid) (name target : bytes) (uid gid : Z)
    (r : Repo) : outcome NodeRecord :=
  match nodes r !! id with
  | Some _ => (Err AlreadyExists, r)
  | None =>
      if existsb (is_child parent name) (hm_values (nodes r)) then (Err AlreadyExists, r) else
      let record := {| n_id := id; n_parent_id := Some parent; n_name := name; n_kind := "symlink";
                       n_mode := 41471; n_uid := uid; n_gid := gid; n_size := i64 (len target);
                       n_atime := now; n_mtime := now; n_ctime := now; n_current_version_id := None;
                       n_generation := 0; n_link_target := Some target |} in
      (Ok record, with_nodes r (<[id := record]> (nodes r)))
  end.

Definition delete_node (id : Uuid) (r : Repo) : outcome unit :=
  match nodes r !! id with
  | None => (Err NotFound, r)
  | Some _ => (Ok tt, with_nodes r (delete id (nodes r)))
  end.

(** [rename_node]: rename(2) replaces the destination, unless it is a directory
    with something in it. *)
Definition rename_node (now : Z) (id new_parent : Uuid) (new_name : bytes) (r : Repo) : outcome unit :=
  match nodes r !! id with
  | None => (Err NotFound, r)
  | Some _ =>
      let victim := head (filter (fun n => negb (bool_decide (n_id n = id)) && is_child new_parent new_name n = true)
                            (hm_values (nodes r))) in
      let place r := match nodes r !! id with
                     | None => (Err NotFound, r)
                     | Some n => (Ok tt, with_nodes r
                                   (<[id := set_place (Some new_parent) new_name now n]> (nodes r)))
                     end in
      match victim with
      | None => place r
      | Some v =>
          if bool_decide (n_kind v = "directory"%string) && existsb (is_in (n_id v)) (hm_values (nodes r))
          then (Err DirectoryNotEmpty, r)
          else place (with_nodes r (delete (n_id v) (nodes r)))
      end
  end.

Definition publish_node (now : Z) (id new_parent : Uuid) (new_name : bytes) (r : Repo) : outcome unit :=
  match nodes r !! id with
  | None => (Err NotFound, r)
  | Some n =>
      if existsb (fun m => negb (bool_decide (n_id m = id)) && is_child new_parent new_name m)
           (hm_values (nodes r))
      then (Err AlreadyExists, r)
      else (Ok tt, with_nodes r (<[id := set_place (Some new_parent) new_name now n]> (nodes r)))
  end.

Definition update_node_attr (now : Z) (id : Uuid) (mode uid gid size mtime atime : option Z)
    (r : Repo) : outcome NodeRecord :=
  match nodes r !! id with
  | None => (Err NotFound, r)
  | Some n =>
      let n := set_attr mode uid gid size mtime atime now n in
      (Ok n, with_nodes r (<[id := n]> (nodes r)))
  end.

Definition create_staging_version (version_id : Uuid) (now : Z) (node_id : Uuid)
    (base : option Uuid) (chunk_size : Z) (r : Repo) : outcome FileVersionRecord :=
  match nodes r !! node_id with
  | None => (Err NotFound, r)
  | Some n =>
      let n := set_content (n_current_version_id n) (i64 (n_generation n + 1)) (n_size n) n in
      let record := {| v_id := version_id; v_node_id := node_id; v_base_version_id := base;
                       v_state := "staging"; v_size := 0; v_plaintext_hash := "";
                       v_chunk_size := chunk_size; v_created_at := now; v_committed_at := None |} in
      let r := with_nodes r (<[node_id := n]> (nodes r)) in
      let r := with_versions r (<[version_id := record]> (versions r)) in
      let r := with_chunks r (<[version_id := []]> (chunks r)) in
      (Ok record, r)
  end.

Definition is_staging (v : FileVersionRecord) : bool := bool_decide (v_state v = "staging"%string).

Definition find_open_staging_version (node_id : Uuid) (r : Repo) : answer FileVersionRecord :=
  ok_or (max_by_created (filter (fun v => bool_decide (v_node_id v = node_id) && is_staging v = true)
                           (hm_values (versions r)))) NotFound.

Definition touch_staging_version (now : Z) (version_id : Uuid) (size : Z) (r : Repo) : outcome unit :=
  (Ok tt,
   match versions r !! version_id with
   | Some v =>
       if is_staging v
       then with_versions r
              (<[version_id := set_version (v_state v) size (v_plaintext_hash v) now (v_committed_at v) v]>
                 (versions r))
       else r
   | None => r
   end).

(** The size a node's committed version says it has. *)
Definition committed_size (r : Repo) (n : NodeRecord) : Z :=
  default 0 (v_size <$> (n_current_version_id n ≫= fun id => versions r !! id)).

Definition needs_reconcile (r : Repo) (n : NodeRecord) : bool :=
  bool_decide (n_kind n = "file"%string) &&
  negb (bool_decide (n_id n ∈ (v_node_id <$> filter (fun v => is_staging v = true) (hm_values (versions r))))) &&
  negb (n_size n =? committed_size r n).

Definition reconcile_node_sizes (r : Repo) : outcome Z :=
  (Ok (Z.of_nat (size (filter (fun p => needs_reconcile r p.2 = true) (nodes r)))),
   with_nodes r ((fun n => if needs_reconcile r n
                           then set_content (n_current_version_id n) (n_generation n) (committed_size r n) n
                           else n) <$> nodes r)).

Definition attach_chunk (version_id : Uuid) (chunk_index logical_offset plaintext_size : Z)
    (plaintext_hash : string) (object_id : Uuid) (r : Repo) : outcome unit :=
  match chunks r !! version_id with
  | None => (Err NotFound, r)
  | Some version_chunks =>
      let record := {| c_version_id := version_id; c_chunk_index := chunk_index;
                       c_logical_offset := logical_offset; c_plaintext_size := plaintext_size;
                       c_plaintext_hash := plaintext_hash; c_object_id := object_id |} in
      (Ok tt, with_chunks r (<[version_id := upsert record version_chunks]> (chunks r)))
  end.

Definition get_chunks (version_id : Uuid) (r : Repo) : answer (list FileChunkRecord) :=
  ok_or (chunks r !! version_id) NotFound.

Definition get_chunk_range (version_id : Uuid) (first last : Z) (r : Repo) : answer (list FileChunkRecord) :=
  filter (fun c => in_span first last c = true) <$> ok_or (chunks r !! version_id) NotFound.

(** The loop of [copy_chunk_range], counting what it inserts. *)
Definition copy_into (target carried : list FileChunkRecord) : list FileChunkRecord * Z :=
  foldl (fun acc record =>
    match binary_search (c_chunk_index record) acc.1 with
    | Ok _ => acc
    | Err at_ => (vec_insert at_ record acc.1, acc.2 + 1)
    end) (target, 0) carried.

Definition copy_chunk_range (from_version to_version : Uuid) (first last : Z) (r : Repo) : outcome Z :=
  if last <? first then (Ok 0, r) else
  let carried := set_chunk_version to_version <$>
    filter (fun c => in_span first last c = true) (default [] (chunks r !! from_version)) in
  let '(target, copied) := copy_into (default [] (chunks r !! to_version)) carried in
  (Ok copied, with_chunks r (<[to_version := target]> (chunks r))).

Definition commit_version (now : Z) (guard : CommitGuard) (total_size : Z) (plaintext_hash : string)
    (r : Repo) : outcome FileVersionRecord :=
  match nodes r !! g_node_id guard with
  | None => (Err NotFound, r)
  | Some n =>
      if negb (n_generation n =? g_expected_generation guard) then (Err Conflict, r) else
      if negb (bool_decide (n_current_version_id n = g_expected_current_version guard))
      then (Err Conflict, r) else
      match versions r !! g_version_id guard with
      | None => (Err NotFound, r)
      | Some _ =>
          let supersede v := if bool_decide (v_state v = "committed"%string)
                             then set_version "superseded" (v_size v) (v_plaintext_hash v)
                                    (v_created_at v) (v_committed_at v) v
                             else v in
          let vs := match n_current_version_id n with
                    | Some old => alter supersede old (versions r)
                    | None => versions r
                    end in
          match vs !! g_version_id guard with
          | None => (Err NotFound, with_versions r vs)
          | Some v =>
              let v := set_version "committed" total_size plaintext_hash (v_created_at v) (Some now) v in
              let r := with_versions r (<[g_version_id guard := v]> vs) in
              let n := set_content (Some (g_version_id guard)) (n_generation n) total_size n in
              (Ok v, with_nodes r (<[g_node_id guard := n]> (nodes r)))
          end
      end
  end.

Definition get_version (id : Uuid) (r : Repo) : answer FileVersionRecord := ok_or (versions r !! id) NotFound.

(** *** Object locators *)

Definition put_object_locator (l : ObjectLocatorRecord) (r : Repo) : outcome unit :=
  (Ok tt, with_locators r (<[l_object_id l := l]> (locators r))).
Definition get_object_locator (object_id : Uuid) (r : Repo) : answer ObjectLocatorRecord :=
  ok_or (locators r !! object_id) NotFound.
Definition touch_object_url (object_id : Uuid) (url : string) (r : Repo) : outcome unit :=
  (Ok tt, with_locators r (alter (fun l =>
     {| l_object_id := l_object_id l; l_backend := l_backend l; l_message_id := l_message_id l;
        l_attachment_id := l_attachment_id l; l_url := url; l_size := l_size l |}) object_id (locators r))).
Definition delete_object_locator (object_id : Uuid) (r : Repo) : outcome unit :=
  (Ok tt, with_locators r (delete object_id (locators r))).

(** *** Sessions *)

Definition create_session (now : Z) (id : Uuid) (token_hash label : string) (expires_at : Z)
    (r : Repo) : outcome SessionRecord :=
  let record := {| s_id := id; s_label := label; s_created_at := now; s_expires_at := expires_at |} in
  (Ok record, with_sessions r (<[token_hash := (record, false)]> (sessions r))).

Definition find_session (now : Z) (token_hash : string) (r : Repo) : answer SessionRecord :=
  match sessions r !! token_hash with
  | None => Err NotFound
  | Some (record, revoked) =>
      if revoked || (s_expires_at record <=? now) then Err NotFound else Ok record
  end.

Definition revoke_session (id : Uuid) (r : Repo) : outcome bool :=
  match head (filter (fun p : string * (SessionRecord * bool) =>
                bool_decide (s_id p.2.1 = id) && negb p.2.2 = true) (hm_iter (sessions r))) with
  | Some (token_hash, (record, _)) =>
      (Ok true, with_sessions r (<[token_hash := (record, true)]> (sessions r)))
  | None => (Ok false, r)
  end.

Definition purge_expired_sessions (older_than : Z) (r : Repo) : outcome Z :=
  let kept := filter (fun p : string * (SessionRecord * bool) => older_than <= s_expires_at p.2.1) (sessions r) in
  (Ok (Z.of_nat (size (sessions r)) - Z.of_nat (size kept)), with_sessions r kept).

(** *** Garbage collection *)

(** The version is its node's current one. *)
Definition is_current (r : Repo) (v : FileVersionRecord) : bool :=
  match nodes r !! v_node_id v with
  | Some n => bool_decide (n_current_version_id n = Some (v_id v))
  | None => false
  end.
Definition is_live (older_than : Z) (r : Repo) (v : FileVersionRecord) : bool :=
  (is_staging v && (older_than <=? v_created_at v)) || is_current r v.
Definition live (older_than : Z) (r : Repo) : list Uuid :=
  v_id <$> filter (fun v => is_live older_than r v = true) (hm_values (versions r)).
Definition referenced_by_live (older_than : Z) (r : Repo) : list Uuid :=
  c_object_id <$> concat (omap (fun id => chunks r !! id) (live older_than r)).

(** One version's chunks: [inr] once the limit is reached and the search returns. *)
Fixpoint collect_chunks (refd : list Uuid) (limit : Z) (cs : list FileChunkRecord) (collectable : list Uuid)
    : list Uuid + list Uuid :=
  match cs with
  | [] => inl collectable
  | c :: cs' =>
      if negb (bool_decide (c_object_id c ∈ refd)) && negb (bool_decide (c_object_id c ∈ collectable)) then
        let collectable := collectable ++ [c_object_id c] in
        if limit <=? len collectable then inr collectable else collect_chunks refd limit cs' collectable
      else collect_chunks refd limit cs' collectable
  end.

Definition dead_since (older_than : Z) (r : Repo) (version_id : Uuid) : bool :=
  match versions r !! version_id with
  | None => false
  | Some v => negb (bool_decide (version_id ∈ live older_than r)) &&
              (default (v_created_at v) (v_committed_at v) <? older_than)
  end.

Fixpoint collect_versions (older_than limit : Z) (r : Repo) (l : list (Uuid * list FileChunkRecord))
    (collectable : list Uuid) : list Uuid :=
  match l with
  | [] => collectable
  | (version_id, cs) :: l' =>
      if dead_since older_than r version_id then
        match collect_chunks (referenced_by_live older_than r) limit cs collectable with
        | inl collectable => collect_versions older_than limit r l' collectable
        | inr collectable => collectable
        end
      else collect_versions older_than limit r l' collectable
  end.

Definition collectable_objects (older_than limit : Z) (r : Repo) : answer (list Uuid) :=
  Ok (collect_versions older_than limit r (hm_iter (chunks r)) []).

Definition forget_object (object_id : Uuid) (r : Repo) : outcome Z :=
  let keep := filter (fun c => c_object_id c <> object_id) in
  (Ok (map_fold (fun _ cs removed => removed + (len cs - len (keep cs))) 0 (chunks r)),
   with_chunks r (keep <$> chunks r)).

Definition is_doomed (older_than : Z) (r : Repo) (v : FileVersionRecord) : bool :=
  (default (v_created_at v) (v_committed_at v) <? older_than) && negb (is_current r v) &&
  bool_decide (default [] (chunks r !! v_id v) = []).

Definition purge_empty_dead_versions (older_than : Z) (r : Repo) : outcome Z :=
  let doomed := v_id <$> filter (fun v => is_doomed older_than r v = true) (hm_values (versions r)) in
  (Ok (len doomed),
   with_chunks (with_versions r (foldl (flip delete) (versions r) doomed))
     (foldl (flip delete) (chunks r) doomed)).

Definition purge_deleted_nodes (older_than : Z) (r : Repo) : outcome Z := (Ok 0, r).

End WithOrder.
End MemoryRepo.

(** ** Lemmas on manifests *)
Module Manifest.
Import Records MemoryRepo.

(** The chunk of index [i]. *)
Definition chunk_at (l : list FileChunkRecord) (i : Z) : option FileChunkRecord :=
  snd <$> list_find (fun c => c_chunk_index c = i) l.

(** A manifest reads back in ascending order, one row per index. *)
Definition sorted (l : list FileChunkRecord) : Prop :=
  StronglySorted (fun a b => c_chunk_index a < c_chunk_index b) l.

Lemma chunk_at_cons c l i :
  chunk_at (c :: l) i = if decide (c_chunk_index c = i) then Some c else chunk_at l i.
Proof.
  unfold chunk_at. simpl. case_decide; [done|]. by destruct (list_find _ l) as [[]|].
Qed.

Lemma chunk_at_Some l i c : chunk_at l i = Some c -> c ∈ l /\ c_chunk_index c = i.
Proof.
  induction l as [|d l IH]; [done|]. rewrite chunk_at_cons. case_decide.
  - intros [= ->]. set_solver.
  - intros [? ?]%IH. set_solver.
Qed.

Lemma chunk_at_None l i : chunk_at l i = None <-> Forall (fun c => c_chunk_index c <> i) l.
Proof.
  induction l as [|d l IH]; [done|]. rewrite chunk_at_cons, Forall_cons. case_decide; [naive_solver|].
  rewrite IH. naive_solver.
Qed.

Lemma chunk_at_elem l c : sorted l -> c ∈ l -> chunk_at l (c_chunk_index c) = Some c.
Proof.
  induction 1 as [|d l Hs IH Hd]; [by intros ?%not_elem_of_nil|].
  intros [->|Hc]%elem_of_cons; rewrite chunk_at_cons; [by rewrite decide_True|].
  rewrite Forall_forall in Hd. specialize (Hd c Hc). rewrite decide_False by lia. auto.
Qed.

Lemma chunk_at_past l i : Forall (fun c => i < c_chunk_index c) l -> chunk_at l i = None.
Proof. intros H. apply chunk_at_None. eapply Forall_impl; [exact H|]. simpl. lia. Qed.

(** Both insertions, by recursion on the vector. *)
Lemma upsert_cons r c l :
  upsert r (c :: l) =
    if c_chunk_index c <? c_chunk_index r then c :: upsert r l
    else if c_chunk_index c =? c_chunk_index r then r :: l else r :: c :: l.
Proof.
  unfold upsert. simpl. destruct (c_chunk_index c <? c_chunk_index r).
  - by destruct (binary_search _ l).
  - by destruct (c_chunk_index c =? c_chunk_index r).
Qed.
Lemma insert_new_cons r c l :
  insert_new r (c :: l) =
    if c_chunk_index c <? c_chunk_index r then c :: insert_new r l
    else if c_chunk_index c =? c_chunk_index r then c :: l else r :: c :: l.
Proof.
  unfold insert_new. simpl. destruct (c_chunk_index c <? c_chunk_index r).
  - by destruct (binary_search _ l).
  - by destruct (c_chunk_index c =? c_chunk_index r).
Qed.

Lemma upsert_bound b r l :
  Forall (fun c => b < c_chunk_index c) l -> b < c_chunk_index r ->
  Forall (fun c => b < c_chunk_index c) (upsert r l).
Proof.
  induction 1 as [|c l Hc Hl IH]; intros Hr; [by repeat constructor|].
  rewrite upsert_cons. repeat case_match; repeat constructor; auto.
Qed.
Lemma insert_new_bound b r l :
  Forall (fun c => b < c_chunk_index c) l -> b < c_chunk_index r ->
  Forall (fun c => b < c_chunk_index c) (insert_new r l).
Proof.
  induction 1 as [|c l Hc Hl IH]; intros Hr; [by repeat constructor|].
  rewrite insert_new_cons. repeat case_match; repeat constructor; auto.
Qed.

Lemma upsert_sorted r l : sorted l -> sorted (upsert r l).
Proof.
  induction 1 as [|c l Hs IH Hc]; [by repeat constructor|]. rewrite upsert_cons.
  destruct (Z.ltb_spec (c_chunk_index c) (c_chunk_index r)).
  - constructor; [done|]. by apply upsert_bound.
  - destruct (Z.eqb_spec (c_chunk_index c) (c_chunk_index r)) as [Heq|].
    + constructor; [done|]. by rewrite <-Heq.
    + constructor; [by constructor|]. constructor; [lia|]. eapply Forall_impl; [exact Hc|]. simpl. lia.
Qed.
Lemma insert_new_sorted r l : sorted l -> sorted (insert_new r l).
Proof.
  induction 1 as [|c l Hs IH Hc]; [by repeat constructor|]. rewrite insert_new_cons.
  destruct (Z.ltb_spec (c_chunk_index c) (c_chunk_index r)).
  - constructor; [done|]. by apply insert_new_bound.
  - destruct (Z.eqb_spec (c_chunk_index c) (c_chunk_index r)); constructor; try done; [by constructor|].
    constructor; [lia|]. eapply Forall_impl; [exact Hc|]. simpl. lia.
Qed.

Lemma chunk_at_upsert r l i :
  sorted l -> chunk_at (upsert r l) i = if decide (i = c_chunk_index r) then Some r else chunk_at l i.
Proof.
  induction 1 as [|c l Hs IH Hc]; [change (upsert r []) with [r]; rewrite chunk_at_cons; by repeat case_decide|].
  rewrite upsert_cons.
  destruct (Z.ltb_spec (c_chunk_index c) (c_chunk_index r)).
  - rewrite !chunk_at_cons, IH. repeat case_decide; done || lia.
  - destruct (Z.eqb_spec (c_chunk_index c) (c_chunk_index r)); rewrite !chunk_at_cons;
      repeat case_decide; done || lia.
Qed.

Lemma chunk_at_insert_new r l i :
  sorted l -> chunk_at (insert_new r l) i =
    match chunk_at l i with Some c => Some c | None => if decide (i = c_chunk_index r) then Some r else None end.
Proof.
  induction 1 as [|c l Hs IH Hc]; [change (insert_new r []) with [r]; rewrite chunk_at_cons; by repeat case_decide|].
  rewrite insert_new_cons.
  destruct (Z.ltb_spec (c_chunk_index c) (c_chunk_index r)).
  - rewrite !chunk_at_cons, IH. repeat case_decide; done || lia.
  - destruct (Z.eqb_spec (c_chunk_index c) (c_chunk_index r)); rewrite !chunk_at_cons.
    + repeat case_decide; try done || lia. by destruct (chunk_at l i).
    + destruct (decide (i = c_chunk_index r)) as [->|].
      * rewrite decide_True by done. rewrite decide_False by done. rewrite chunk_at_past; [done|].
        eapply Forall_impl; [exact Hc|]. simpl. lia.
      * rewrite (decide_False (P := c_chunk_index r = i)) by done.
        repeat case_decide; [done|]. by destruct (chunk_at l i).
Qed.

Lemma copy_into_spec target carried :
  sorted target -> sorted (copy_into target carried).1 /\
  forall i, chunk_at (copy_into target carried).1 i =
    match chunk_at target i with Some c => Some c | None => chunk_at carried i end.
Proof.
  unfold copy_into. generalize 0. revert target.
  induction carried as [|r rs IH]; intros target n Hs; simpl.
  { split; [done|]. intros i. by destruct (chunk_at target i). }
  pose proof (insert_new_sorted r target Hs) as Hs'. pose proof (chunk_at_insert_new r target) as Hat.
  unfold insert_new in Hs', Hat. destruct (binary_search (c_chunk_index r) target) as [e|at_]; simpl.
  - destruct (IH target n Hs) as [H1 H2]. split; [done|]. intros i. rewrite H2, chunk_at_cons.
    specialize (Hat i Hs). destruct (chunk_at target i); [done|].
    repeat case_decide; subst; done.
  - destruct (IH _ (n + 1) Hs') as [H1 H2]. split; [done|]. intros i. rewrite H2, Hat, chunk_at_cons by done.
    destruct (chunk_at target i); [done|]. by repeat case_decide; subst.
Qed.

Lemma chunk_at_filter_span l a b i :
  chunk_at (filter (fun c => in_span a b c = true) l) i = if decide (a <= i <= b) then chunk_at l i else None.
Proof.
  induction l as [|c l IH]; [by case_decide|]. rewrite filter_cons.
  assert (Hc : in_span a b c = true <-> a <= c_chunk_index c <= b)
    by (unfold in_span; rewrite andb_true_iff, !Z.leb_le; done).
  destruct (decide (in_span a b c = true)) as [Hd|Hd]; rewrite !chunk_at_cons, IH.
  - apply Hc in Hd. repeat case_decide; done || lia.
  - assert (~ (a <= c_chunk_index c <= b)) by tauto. repeat case_decide; done || lia.
Qed.

Lemma chunk_at_fmap_version l v i : chunk_at (set_chunk_version v <$> l) i = set_chunk_version v <$> chunk_at l i.
Proof.
  induction l as [|c l IH]; [done|]. rewrite fmap_cons, !chunk_at_cons, IH. simpl. by case_decide.
Qed.

Lemma chunk_at_app l1 l2 i :
  chunk_at (l1 ++ l2) i = match chunk_at l1 i with Some c => Some c | None => chunk_at l2 i end.
Proof. induction l1 as [|c l IH]; [done|]. simpl. rewrite !chunk_at_cons, IH. by case_decide. Qed.

(** The handlers compare indexes as [u64]. *)
Lemma chunk_at_u64 l i :
  Forall (fun c => in_u64 (c_chunk_index c)) l ->
  snd <$> list_find (fun c => u64 (c_chunk_index c) = i) l = chunk_at l i.
Proof.
  induction 1 as [|c l Hc Hl IH]; [done|]. rewrite chunk_at_cons, <-IH. simpl. rewrite u64_id by done.
  case_decide; [done|]. by destruct (list_find _ l) as [[]|].
Qed.

Lemma sorted_filter (P : FileChunkRecord -> Prop) `{!forall c, Decision (P c)} l : sorted l -> sorted (filter P l).
Proof.
  induction 1 as [|c l Hs IH Hc]; [constructor|]. rewrite filter_cons. case_decide; [|done].
  constructor; [done|]. apply Forall_forall. intros d [_ Hd]%list_elem_of_filter.
  rewrite Forall_forall in Hc. auto.
Qed.

End Manifest.
