(* ===== verification/Locks.v ===== *)
(** * The write locks

    Models the lock table of [src/crates/dcfs-server/src/state.rs], [write_lock],
    and the requests that take locks from it concurrently ([lock_step]).

    [write_locks: Mutex<HashMap<Uuid, Arc<tokio::sync::Mutex<()>>>>]. A mutex is
    known by the number it was allocated under; [clones] counts the [Arc]s that
    requests hold, so [Arc::strong_count] of a lock in the table is that plus one. *)
From S2P Require Import Prelude.

Module Locks.

Record t : Type := {
  table : gmap Uuid nat;
  clones : gmap nat nat;
  next_lock : nat;
}.

Definition new : t := {| table := ∅; clones := ∅; next_lock := 0 |}.

Definition strong_count (s : t) (l : nat) : nat := S (default O (clones s !! l)).

(** The table [write_lock] works on: pruned when it has grown past 1024. *)
Definition prune (s : t) : gmap Uuid nat :=
  if bool_decide (1024 < size (table s))%nat
  then filter (fun p : Uuid * nat => (1 < strong_count s p.2)%nat) (table s)
  else table s.

(** [write_lock]: the lock of [node], made on demand, and a clone of it. *)
Definition write_lock (node : Uuid) (s : t) : nat * t :=
  let locks := prune s in
  match locks !! node with
  | Some l =>
      (l, {| table := locks; clones := <[l := strong_count s l]> (clones s); next_lock := next_lock s |})
  | None =>
      let l := next_lock s in
      (l, {| table := <[node := l]> locks; clones := <[l := 1%nat]> (clones s); next_lock := S l |})
  end.

(** A request drops its clone. *)
Definition drop_lock (l : nat) (s : t) : t :=
  {| table := table s; clones := alter pred l (clones s); next_lock := next_lock s |}.

(** The requests in flight and the lock each was given. *)
Inductive event : Type :=
| Acquire (request : nat) (node : Uuid)
| Release (request : nat).

Definition sys : Type := gmap nat (Uuid * nat) * t.

(** A request takes one lock and drops it once. *)
Inductive lock_step : event -> sys -> sys -> Prop :=
| StepAcquire req node held s l s' :
    held !! req = None -> write_lock node s = (l, s') ->
    lock_step (Acquire req node) (held, s) (<[req := (node, l)]> held, s')
| StepRelease req node l held s :
    held !! req = Some (node, l) ->
    lock_step (Release req) (held, s) (delete req held, drop_lock l s).

Inductive reachable : sys -> Prop :=
| ReachNew : reachable (∅, new)
| ReachStep e a b : reachable a -> lock_step e a b -> reachable b.

(** How many requests hold lock [l]. *)
Definition holders (held : gmap nat (Uuid * nat)) (l : nat) : nat :=
  size (filter (fun p : nat * (Uuid * nat) => p.2.2 = l) held).

(** The invariant: counts are exact, table entries are distinct allocated locks,
    and a lock somebody holds is the one the table has for its node. *)
Record inv (x : sys) : Prop := {
  inv_count : forall l, default O (clones x.2 !! l) = holders x.1 l;
  inv_alloc : forall node l, table x.2 !! node = Some l -> (l < next_lock x.2)%nat;
  inv_held : forall req node l, x.1 !! req = Some (node, l) -> table x.2 !! node = Some l;
  inv_inj : forall n1 n2 l, table x.2 !! n1 = Some l -> table x.2 !! n2 = Some l -> n1 = n2;
}.

Lemma holders_insert held req node l l' :
  held !! req = None ->
  holders (<[req := (node, l)]> held) l' = (holders held l' + if decide (l = l') then 1 else 0)%nat.
Proof.
  intros Hreq. unfold holders. rewrite map_filter_insert. simpl. case_decide.
  - rewrite map_size_insert_None; [lia|]. apply map_lookup_filter_None. by left.
  - rewrite map_filter_delete, delete_id; [lia|]. apply map_lookup_filter_None. by left.
Qed.

Lemma holders_delete held req node l l' :
  held !! req = Some (node, l) ->
  holders held l' = (holders (delete req held) l' + if decide (l = l') then 1 else 0)%nat.
Proof.
  intros Hreq. rewrite <-(insert_delete_id held req (node, l)) at 1 by done.
  apply holders_insert, lookup_delete_eq.
Qed.

Lemma holders_zero held req node l : held !! req = Some (node, l) -> (0 < holders held l)%nat.
Proof. intros H. rewrite (holders_delete _ _ _ _ l H). rewrite decide_True by done. lia. Qed.

Lemma prune_keeps x node l :
  inv x -> (0 < holders x.1 l)%nat -> table x.2 !! node = Some l -> prune x.2 !! node = Some l.
Proof.
  intros Hi Hh Ht. unfold prune. case_bool_decide; [|done].
  apply map_lookup_filter_Some. split; [done|]. unfold strong_count. simpl.
  rewrite (inv_count _ Hi). lia.
Qed.

Lemma prune_sub s node l : prune s !! node = Some l -> table s !! node = Some l.
Proof. unfold prune. case_bool_decide; [|done]. by intros [? _]%map_lookup_filter_Some. Qed.

Lemma step_inv e x y : inv x -> lock_step e x y -> inv y.
Proof.
  intros Hi. inversion 1 as [req node held s l s' Hreq Hw|req node l held s Hreq]; subst; simpl in *.
  - unfold write_lock in Hw. destruct (prune s !! node) as [l0|] eqn:Hp; simplify_eq.
    + assert (Ht := prune_sub _ _ _ Hp). split; simpl.
      * intros l'. rewrite holders_insert by done. rewrite lookup_insert. unfold strong_count.
        pose proof (inv_count _ Hi l') as Hc. simpl in Hc. repeat case_decide; subst; simpl in *; lia || congruence.
      * intros n l' Hn%prune_sub. by apply (inv_alloc _ Hi n).
      * intros req' n l'. rewrite lookup_insert. case_decide; [by intros [= <- <-]|].
        intros Hr. apply (prune_keeps _ _ _ Hi); [by eapply holders_zero|by eapply (inv_held _ Hi)].
      * intros n1 n2 l' Hp1%prune_sub Hp2%prune_sub. by eapply (inv_inj _ Hi).
    + assert (Hfresh : forall l', (0 < holders held l')%nat -> l' <> next_lock s).
      { intros l' Hl' ->. unfold holders in Hl'.
        destruct (map_choose (filter (fun p : nat * (Uuid * nat) => p.2.2 = next_lock s) held)) as (r & [n l'] & Hr).
        { intros Hemp. rewrite Hemp, map_size_empty in Hl'. lia. }
        apply map_lookup_filter_Some in Hr as [Hr Hl]. simpl in Hl. subst.
        pose proof (inv_alloc _ Hi _ _ (inv_held _ Hi _ _ _ Hr)). simpl in *. lia. }
      split; simpl.
      * intros l'. rewrite holders_insert by done. rewrite lookup_insert.
        pose proof (inv_count _ Hi l') as Hc. simpl in Hc. case_decide as Hd; [|lia]. subst.
        destruct (holders held (next_lock s)) eqn:Hh; [done|]. destruct (Hfresh (next_lock s)); [lia|done].
      * intros n l'. rewrite lookup_insert. case_decide; [intros [= <-]; lia|].
        intros Hn%prune_sub. pose proof (inv_alloc _ Hi n l' Hn). simpl in *. lia.
      * intros req' n l'. rewrite lookup_insert. case_decide; [intros [= <- <-]; by rewrite lookup_insert_eq|].
        intros Hr. assert (Hk : prune s !! n = Some l').
        { apply (prune_keeps _ _ _ Hi); [by eapply holders_zero|by eapply (inv_held _ Hi)]. }
        rewrite lookup_insert_ne by congruence. done.
      * intros n1 n2 l'. rewrite !lookup_insert. repeat case_decide; subst; try done.
        -- intros [= <-] Hn%prune_sub. pose proof (inv_alloc _ Hi _ _ Hn). simpl in *. lia.
        -- intros Hn%prune_sub [= <-]. pose proof (inv_alloc _ Hi _ _ Hn). simpl in *. lia.
        -- intros Hp1%prune_sub Hp2%prune_sub. by eapply (inv_inj _ Hi).
  - split; simpl.
    + intros l'. rewrite lookup_alter. pose proof (inv_count _ Hi l') as Hc. simpl in Hc.
      rewrite (holders_delete _ _ _ _ l' Hreq) in Hc. repeat case_decide; subst; try lia || congruence.
      destruct (clones s !! l'); simpl in *; lia.
    + intros n l' Hn. by apply (inv_alloc _ Hi n).
    + intros req' n l'. rewrite lookup_delete. case_decide; [done|]. apply (inv_held _ Hi).
    + apply (inv_inj _ Hi).
Qed.

Lemma reachable_inv x : reachable x -> inv x.
Proof.
  induction 1; [|by eapply step_inv]. by split; intros *; rewrite ?lookup_empty; simpl.
Qed.

(** C32 Two requests that hold a write lock at the same time for the same file hold the
    same mutex, and for different files different ones: pruning the table never
    drops a lock somebody still holds, so writers to one file exclude each other. *)
Theorem same_file_same_lock held s r1 r2 n1 n2 l1 l2 :
  reachable (held, s) -> held !! r1 = Some (n1, l1) -> held !! r2 = Some (n2, l2) ->
  n1 = n2 <-> l1 = l2.
Proof.
  intros Hr%reachable_inv H1 H2. pose proof (inv_held _ Hr _ _ _ H1). pose proof (inv_held _ Hr _ _ _ H2).
  simpl in *. split; intros ->; [congruence|by eapply (inv_inj _ Hr)].
Qed.

Lemma same_file_same_lock_witness : exists (held : gmap nat (Uuid * nat)) (s : t) l1 l2,
  reachable (held, s) /\ held !! 0%nat = Some (5%N, l1) /\ held !! 1%nat = Some (5%N, l2) /\
  (5%N = 5%N <-> l1 = l2).
Proof.
  set (held1 := <[0%nat := (5%N, 0%nat)]> (∅ : gmap nat (Uuid * nat))).
  set (held2 := <[1%nat := (5%N, 0%nat)]> held1).
  assert (Hr : reachable (held2, (write_lock 5%N (write_lock 5%N new).2).2)).
  { eapply (ReachStep (Acquire 1 5)); [eapply (ReachStep (Acquire 0 5)); [constructor|]|].
    - apply StepAcquire; reflexivity.
    - apply StepAcquire; reflexivity. }
  exists held2, (write_lock 5%N (write_lock 5%N new).2).2, 0%nat, 0%nat.
  split; [exact Hr|]. split; [reflexivity|]. split; [reflexivity|].
  apply (same_file_same_lock _ _ 0%nat 1%nat _ _ _ _ Hr); reflexivity.
Defined.

End Locks.
