(* ===== verification/Server.v ===== *)
(** * Server state, errors and effects

    Models [src/crates/dcfs-server/src/error.rs] and
    [src/crates/dcfs-protocol/src/errors.rs] (module [AppErrors]), [state.rs] (module
    [AppState]: the configuration and what a request can do to the server), and the monad the handlers are written in.

    A handler runs against a [World]: the metadata repository, the object store
    (any [Store.ObjectStore]), the lock table, and the two sources of
    nondeterminism it draws from, the clock and fresh identifiers. An error
    returns the world as the calls before it left it, as an early return in the
    source does. *)
From S2P Require Import Prelude Crypto ObjectStore Repository Locks.

Module AppErrors.

Inductive ErrorCode : Type :=
| NotFound | AlreadyExists | InvalidName | Conflict | DirectoryNotEmpty | Integrity
| QueueFull | Unauthorized | BackendUnavailable | InvalidRequest.

(** [AppError]: the status and the [ApiError] it is reported with. *)
Record AppError : Type := { status : Z; code : ErrorCode; message : string }.

Definition not_found (m : string) : AppError := {| status := 404; code := NotFound; message := m |}.
Definition bad_request (m : string) : AppError := {| status := 400; code := InvalidRequest; message := m |}.
Definition conflict (m : string) : AppError := {| status := 409; code := Conflict; message := m |}.
Definition directory_not_empty : AppError :=
  {| status := 409; code := DirectoryNotEmpty; message := "directory is not empty" |}.
Definition internal (m : string) : AppError := {| status := 500; code := BackendUnavailable; message := m |}.

(** [impl From<RepositoryError> for AppError]. *)
Definition of_repository (e : Records.RepositoryError) : AppError :=
  match e with
  | Records.NotFound => not_found "resource not found"
  | Records.AlreadyExists => conflict "resource already exists"
  | Records.Conflict => conflict "optimistic concurrency conflict"
  | Records.DirectoryNotEmpty => directory_not_empty
  | Records.Database _ => internal "backend unavailable"
  end.

(** [impl From<ObjectStoreError> for AppError]. *)
Definition of_store (e : Store.ObjectStoreError) : AppError :=
  match e with
  | Store.NotFound _ => not_found "object not found"
  | Store.AlreadyExists _ => conflict "object already exists"
  | Store.Retained _ => internal "backend unavailable"
  | Store.Backend _ => internal "backend unavailable"
  end.

End AppErrors.

Module AppState.
Import AppErrors.

(** The constant part of [AppState]. *)
Record Config : Type := {
  key : bytes;
  key_id : string;
  chunk_size : Z;
  parallel_chunk_fetches : Z;
  api_token : option string;
}.

(** [AppState::new] with the defaults it chooses. *)
Definition new (master_key : bytes) (chunk_size_ : Z) : Config :=
  {| key := master_key; key_id := "master"; chunk_size := chunk_size_; parallel_chunk_fetches := 8;
     api_token := None |}.
Definition with_parallel_chunk_fetches (n : Z) (c : Config) : Config :=
  {| key := key c; key_id := key_id c; chunk_size := chunk_size c; parallel_chunk_fetches := Z.max n 1;
     api_token := api_token c |}.
Definition with_api_token (token : string) (c : Config) : Config :=
  {| key := key c; key_id := key_id c; chunk_size := chunk_size c;
     parallel_chunk_fetches := parallel_chunk_fetches c; api_token := Some token |}.

Section Effects.
Context {S : Type}.

Record World : Type := {
  repo : MemoryRepo.Repo;
  store : S;
  locks : Locks.t;
  clock : nat -> Z;     (* what [Utc::now()] will answer *)
  ticks : nat;          (* how often it was asked *)
  uuids : nat -> Uuid;  (* what [Uuid::new_v4()] will answer *)
  drawn : nat;          (* how often it was asked *)
}.

Definition set_repo (w : World) (r : MemoryRepo.Repo) : World :=
  {| repo := r; store := store w; locks := locks w; clock := clock w; ticks := ticks w;
     uuids := uuids w; drawn := drawn w |}.
Definition set_store (w : World) (s : S) : World :=
  {| repo := repo w; store := s; locks := locks w; clock := clock w; ticks := ticks w;
     uuids := uuids w; drawn := drawn w |}.
Definition set_locks (w : World) (l : Locks.t) : World :=
  {| repo := repo w; store := store w; locks := l; clock := clock w; ticks := ticks w;
     uuids := uuids w; drawn := drawn w |}.

Definition M (A : Type) : Type := World -> result (fault AppError) A * World.

#[global] Instance M_ret : MRet M := fun A a w => (Ok a, w).
#[global] Instance M_bind : MBind M := fun A B f m w =>
  match m w with
  | (Ok a, w') => f a w'
  | (Err e, w') => (Err e, w')
  end.

Definition fail {A} (e : AppError) : M A := fun w => (Err (Fail e), w).
Definition panic {A} : M A := fun w => (Err Panic, w).

Definition now : M Z := fun w =>
  (Ok (clock w (ticks w)),
   {| repo := repo w; store := store w; locks := locks w; clock := clock w; ticks := (1 + ticks w)%nat;
      uuids := uuids w; drawn := drawn w |}).
Definition fresh_uuid : M Uuid := fun w =>
  (Ok (uuids w (drawn w)),
   {| repo := repo w; store := store w; locks := locks w; clock := clock w; ticks := ticks w;
      uuids := uuids w; drawn := (1 + drawn w)%nat |}).

(** A repository call and [?]. *)
Definition query {A} (f : MemoryRepo.Repo -> result Records.RepositoryError A) : M A := fun w =>
  (map_err (Fail ∘ of_repository) (f (repo w)), w).
Definition update {A} (f : MemoryRepo.Repo -> result Records.RepositoryError A * MemoryRepo.Repo) : M A := fun w =>
  let '(res, r) := f (repo w) in (map_err (Fail ∘ of_repository) res, set_repo w r).
(** A repository call whose error the handler inspects. *)
Definition ask {A} (f : MemoryRepo.Repo -> result Records.RepositoryError A) : M (result Records.RepositoryError A) :=
  fun w => (Ok (f (repo w)), w).

(** An object-store call and [?]. *)
Definition on_store {A} (f : S -> result Store.ObjectStoreError A * S) : M A := fun w =>
  let '(res, s) := f (store w) in (map_err (Fail ∘ of_store) res, set_store w s).

(** [let _local = state.write_lock(node).lock().await] for the rest of [body]: the
    clone is dropped however [body] ends. *)
Definition with_write_lock {A} (node : Uuid) (body : M A) : M A := fun w =>
  let '(l, ls) := Locks.write_lock node (locks w) in
  let '(res, w') := body (set_locks w ls) in
  (res, set_locks w' (Locks.drop_lock l (locks w'))).

(** [for x in xs { body }]. *)
Fixpoint for_each {A} (xs : list A) (body : A -> M unit) : M unit :=
  match xs with
  | [] => mret tt
  | x :: xs' => _ ← body x; for_each xs' body
  end.

End Effects.
Arguments World : clear implicits.
Arguments M : clear implicits.

End AppState.
