(* ===== verification/Data.v ===== *)
(** * Byte-level file I/O

    Models [src/crates/dcfs-server/src/handlers/data.rs]: reading and writing a range
    of a file as read-modify-write over sealed chunks, and the commit of the
    working version. A request that holds a file's write lock runs to its end
    before another one that needs it; the tasks a read spawns complete in the
    order a scheduler picks, any scheduler. *)
From Stdlib.Strings Require String.
From stdpp Require Import pretty.
From S2P Require Import Prelude Crypto ObjectStore Repository Locks Server.

Module Data.
Import AppErrors Records AppState.

Definition COMMIT_EVERY_BYTES : Z := 1024 * 1024 * 1024.

(** [BTreeSet] built from a list: ascending, without duplicates. *)
Fixpoint bset_insert (x : Z) (l : list Z) : list Z :=
  match l with
  | [] => [x]
  | y :: l' => if x <? y then x :: y :: l' else if x =? y then y :: l' else y :: bset_insert x l'
  end.
Definition bset_of_list (l : list Z) : list Z := foldr bset_insert [] l.

(** [Display] of a UUID: 8-4-4-4-12 hexadecimal digits. *)
Definition uuid_to_string (u : Uuid) : string :=
  let h a b := Crypto.to_hex (slice (uuid_bytes u) a b) in
  (h 0 4 +:+ "-" +:+ h 4 6 +:+ "-" +:+ h 6 8 +:+ "-" +:+ h 8 10 +:+ "-" +:+ h 10 16)%string.

Section Handlers.
Context `{Aead} `{HashOrder} {S : Type} `{Store.ObjectStore S}.
Context (state : Config).

Abbreviation M := (AppState.M S).

Definition read_chunk_plaintext (chunk : FileChunkRecord) : M bytes :=
  ciphertext ← on_store (Store.get (c_object_id chunk));
  let envelope := {| Crypto.key_id := key_id state; Crypto.object_id := c_object_id chunk;
                     Crypto.plaintext_hash := c_plaintext_hash chunk;
                     Crypto.ciphertext_hash := Crypto.hash_data ciphertext;
                     Crypto.ciphertext := ciphertext |} in
  match Crypto.open (key state) envelope with
  | Ok plaintext => mret plaintext
  | Err _ => fail (internal "chunk integrity failure")
  end.

Definition read_chunk_slice (chunk : FileChunkRecord) (from to : Z) : M bytes :=
  let l := Z.max (c_plaintext_size chunk) 0 in
  let want := saturating_sub to from in
  let readable := Z.min to l in
  if readable <=? from then mret (zeroes want) else
  let range := {| Crypto.cr_object_id := c_object_id chunk; Crypto.plaintext_len := l;
                  Crypto.from := from; Crypto.to := readable |} in
  let '(start, end_, first_segment) := Crypto.to_fetch range in
  fetched ← on_store (Store.get_range (c_object_id chunk) start (end_ -u start));
  plaintext ←
    match Crypto.open_range (key state) (key_id state) range fetched first_segment with
    | Ok plaintext => mret plaintext
    | Err Panic => panic
    | Err (Fail _) =>
        whole ← read_chunk_plaintext chunk;
        mret (default [] (slice_checked whole from (Z.min readable (len whole))))
    end;
  mret (resize plaintext want).

Definition write_chunk_plaintext (plaintext : bytes) (file : Uuid) : M (Uuid * string) :=
  object_id ← fresh_uuid;
  match Crypto.seal (key_id state) (key state) object_id plaintext with
  | Err _ => fail (internal "encryption failed")
  | Ok sealed =>
      t ← now;
      _ ← on_store (Store.put_for t object_id (Crypto.ciphertext sealed) file);
      mret (object_id, Crypto.plaintext_hash sealed)
  end.

(** *** Reading *)

(** What a read knows once it has chosen its version. *)
Record ReadPlan : Type := {
  rp_offset : Z;
  rp_size : Z;
  rp_chunk_size : Z;
  rp_first : Z;
  rp_last : Z;
  rp_chunks : list FileChunkRecord;
}.

Definition want_from (p : ReadPlan) (next : Z) : Z := saturating_sub (rp_offset p) (next *u rp_chunk_size p).
Definition want_to (p : ReadPlan) (next : Z) : Z :=
  Z.min (rp_offset p +u rp_size p) (next *u rp_chunk_size p +u rp_chunk_size p) -u next *u rp_chunk_size p.

(** A spawned task: the slot it fills and the slice it reads. *)
Record Task : Type := { t_slot : nat; t_chunk : FileChunkRecord; t_from : Z; t_to : Z }.

(** The loop's variables. *)
Record Fetch : Type := { f_next : Z; f_inflight : list Task; f_pieces : list bytes }.

(** The inner loop: spawn until the limit, filling holes with zeroes. [n] bounds the
    iterations, each of which advances [next]. *)
Fixpoint spawn_loop (n : nat) (p : ReadPlan) (f : Fetch) : Fetch :=
  match n with
  | O => f
  | Datatypes.S n' =>
      if (f_next f <=? rp_last p) && (len (f_inflight f) <? parallel_chunk_fetches state) then
        let slot := Z.to_nat (f_next f - rp_first p) in
        let from := want_from p (f_next f) in
        let to := want_to p (f_next f) in
        match list_find (fun c => u64 (c_chunk_index c) = f_next f) (rp_chunks p) with
        | Some (_, chunk) =>
            spawn_loop n' p
              {| f_next := f_next f + 1;
                 f_inflight := f_inflight f ++ [{| t_slot := slot; t_chunk := chunk; t_from := from; t_to := to |}];
                 f_pieces := f_pieces f |}
        | None =>
            spawn_loop n' p
              {| f_next := f_next f + 1; f_inflight := f_inflight f;
                 f_pieces := <[slot := zeroes (to -u from)]> (f_pieces f) |}
        end
      else f
  end.

(** A joined task: one that panicked is reported as an error. *)
Definition joined {A} (task : M A) : M A := fun w =>
  match task w with
  | (Err Panic, w') => (Err (Fail (internal "read task: panicked")), w')
  | other => other
  end.

(** The outer loop: [sched] picks which task in flight completes next. Every
    iteration either completes a task or finds none left. *)
Fixpoint fetch_loop (sched : nat -> nat) (n : nat) (p : ReadPlan) (f : Fetch) : M (list bytes) :=
  match n with
  | O => panic
  | Datatypes.S n' =>
      if (f_next f <=? rp_last p) || negb (bool_decide (f_inflight f = [])) then
        let f := spawn_loop (Z.to_nat (rp_last p - f_next f + 1)) p f in
        match f_inflight f !! (sched n' `mod` length (f_inflight f))%nat with
        | Some done =>
            piece ← joined (read_chunk_slice (t_chunk done) (t_from done) (t_to done));
            fetch_loop sched n' p
              {| f_next := f_next f;
                 f_inflight := delete (sched n' `mod` length (f_inflight f))%nat (f_inflight f);
                 f_pieces := <[t_slot done := piece]> (f_pieces f) |}
        | None => fetch_loop sched n' p f
        end
      else mret (f_pieces f)
  end.

(** The pieces of a plan: one iteration per chunk, and one to see that none is left. *)
Definition fetch_pieces (sched : nat -> nat) (p : ReadPlan) : M (list bytes) :=
  let count := Z.to_nat (rp_last p -u rp_first p +u 1) in
  fetch_loop sched (Datatypes.S (Datatypes.S count)) p
    {| f_next := rp_first p; f_inflight := []; f_pieces := replicate count [] |}.

(** The rest of [read_bytes] for a version. *)
Definition read_version (sched : nat -> nat) (version : FileVersionRecord) (committed : bool)
    (offset size : Z) : M (bytes * bool) :=
  let chunk_size := Z.max (v_chunk_size version) 1 in
  let first := offset / chunk_size in
  let last := (offset +u size -u 1) / chunk_size in
  chunks ← query (MemoryRepo.get_chunk_range (v_id version) (i64 first) (i64 last));
  pieces ← fetch_pieces sched
    {| rp_offset := offset; rp_size := size; rp_chunk_size := chunk_size; rp_first := first;
       rp_last := last; rp_chunks := chunks |};
  mret (concat pieces, committed).

Definition read_bytes (sched : nat -> nat) (node_id : Uuid) (offset size : option Z) : M (bytes * bool) :=
  node ← query (MemoryRepo.get_node node_id);
  if bool_decide (n_kind node = "directory"%string) then fail (bad_request "cannot read a directory") else
  let offset := default 0 offset in
  let file_size := Z.max (n_size node) 0 in
  if file_size <=? offset then mret ([], true) else
  let size := Z.min (default (file_size - offset) size) (file_size - offset) in
  if size =? 0 then mret ([], true) else
  open_staging ← ask (MemoryRepo.find_open_staging_version node_id);
  match open_staging with
  | Ok working => read_version sched working false offset size
  | Err NotFound =>
      match n_current_version_id node with
      | None => mret ([], true)
      | Some version_id =>
          version ← query (MemoryRepo.get_version version_id);
          read_version sched version true offset size
      end
  | Err e => fail (of_repository e)
  end.

(** *** Writing *)

(** The open staging version, or a new one that carries the committed manifest. *)
Definition working_version (node : NodeRecord) (node_id : Uuid) : M FileVersionRecord :=
  open_staging ← ask (MemoryRepo.find_open_staging_version node_id);
  match open_staging with
  | Ok version => mret version
  | Err NotFound =>
      let base := n_current_version_id node in
      chunk_size_ ← match base with
                    | Some id => v ← query (MemoryRepo.get_version id); mret (Z.max (v_chunk_size v) 1)
                    | None => mret (i64 (chunk_size state))
                    end;
      version_id ← fresh_uuid;
      t ← now;
      version ← update (MemoryRepo.create_staging_version version_id t node_id base chunk_size_);
      _ ← match base with
          | Some base =>
              let parts := div_ceil (Z.max (n_size node) 0) (Z.max chunk_size_ 1) in
              _ ← update (MemoryRepo.copy_chunk_range base (v_id version) 0 (i64 parts));
              mret tt
          | None => mret tt
          end;
      mret version
  | Err e => fail (of_repository e)
  end.

(** One iteration over the touched chunks. *)
Definition write_chunk (working : FileVersionRecord) (node_id : Uuid) (chunk_size new_size offset : Z)
    (body : bytes) (old_chunks : list FileChunkRecord) (index : Z) : M unit :=
  let chunk_start := index *u chunk_size in
  let chunk_len := Z.min chunk_size (new_size -u chunk_start) in
  let existing := list_find (fun c => u64 (c_chunk_index c) = index) old_chunks in
  let overlap_start := Z.max offset chunk_start in
  let overlap_end := Z.min (offset +u len body) (chunk_start +u chunk_len) in
  let covers_whole_chunk := (overlap_start =? chunk_start) && (overlap_end =? chunk_start +u chunk_len) in
  plaintext ←
    (if covers_whole_chunk then mret []
     else match existing with
          | Some (_, chunk) => read_chunk_plaintext chunk
          | None => mret []
          end);
  let plaintext := resize plaintext chunk_len in
  plaintext ←
    (if overlap_start <? overlap_end then
       match slice_checked plaintext (overlap_start -u chunk_start) (overlap_end -u chunk_start),
             slice_checked body (overlap_start -u offset) (overlap_end -u offset) with
       | Some _, Some src => mret (splice plaintext (overlap_start -u chunk_start) src)
       | _, _ => panic
       end
     else mret plaintext);
  written ← write_chunk_plaintext plaintext node_id;
  update (MemoryRepo.attach_chunk (v_id working) (i64 index) (i64 chunk_start) (i32 (len plaintext))
            written.2 written.1).

Definition commit_working_version (node_id : Uuid) : M bool :=
  open_staging ← ask (MemoryRepo.find_open_staging_version node_id);
  match open_staging with
  | Err NotFound => mret false
  | Err e => fail (of_repository e)
  | Ok working =>
      node ← query (MemoryRepo.get_node node_id);
      let total_hash := Crypto.hash_data (String.list_byte_of_string
        (uuid_to_string (v_id working) +:+ ":" +:+ pretty (v_size working))%string) in
      t ← now;
      _ ← update (MemoryRepo.commit_version t
        {| g_node_id := node_id; g_version_id := v_id working; g_expected_generation := n_generation node;
           g_expected_current_version := n_current_version_id node |} (v_size working) total_hash);
      mret true
  end.

(** The index of the last chunk when the file ends inside it. *)
Definition stale_tail (old_size chunk_size : Z) : option Z :=
  if (0 <? old_size) && negb (old_size mod chunk_size =? 0) then Some (old_size / chunk_size) else None.
Definition rewrite_last (old_size chunk_size chunk_count write_first write_last : Z) : option Z :=
  match stale_tail old_size chunk_size with
  | Some tail =>
      if (tail <? chunk_count) && ((tail <? write_first) || (write_last <? tail)) then Some tail else None
  | None => None
  end.

(** What [write_bytes] does under the lock. *)
Definition write_locked (node_id : Uuid) (offset : Z) (body : bytes) : M Z :=
  node ← query (MemoryRepo.get_node node_id);
  if bool_decide (n_kind node = "directory"%string) then fail (bad_request "cannot write to a directory") else
  working ← working_version node node_id;
  let chunk_size := Z.max (v_chunk_size working) 1 in
  let old_size := Z.max (n_size node) 0 in
  let new_size := Z.max old_size (offset +u len body) in
  let chunk_count := div_ceil new_size chunk_size in
  let write_first := offset / chunk_size in
  let write_last := (offset +u len body -u 1) / chunk_size in
  let tail := rewrite_last old_size chunk_size chunk_count write_first write_last in
  old_chunks ← query (MemoryRepo.get_chunk_range (v_id working) (i64 write_first)
                        (i64 (Z.min write_last chunk_count)));
  tail_chunks ← match tail with
                | Some t => query (MemoryRepo.get_chunk_range (v_id working) (i64 t) (i64 t))
                | None => mret []
                end;
  let last := Z.min write_last (saturating_sub chunk_count 1) in
  let touched := bset_of_list (seqZ write_first (last - write_first + 1) ++ option_list tail) in
  _ ← for_each touched (write_chunk working node_id chunk_size new_size offset body (old_chunks ++ tail_chunks));
  t ← now;
  _ ← update (MemoryRepo.touch_staging_version t (v_id working) (i64 new_size));
  t' ← now;
  _ ← update (MemoryRepo.update_node_attr t' node_id None None None (Some (i64 new_size)) None None);
  _ ← (if old_size / COMMIT_EVERY_BYTES <? new_size / COMMIT_EVERY_BYTES
       then _ ← commit_working_version node_id; mret tt else mret tt);
  mret (len body).

Definition write_bytes (node_id : Uuid) (offset : Z) (body : bytes) : M Z :=
  if bool_decide (body = []) then mret 0 else with_write_lock node_id (write_locked node_id offset body).

Definition commit_node (node_id : Uuid) : M unit :=
  _ ← query (MemoryRepo.get_node node_id);
  with_write_lock node_id (_ ← commit_working_version node_id; mret tt).

(** The routes: [read_data], [write_data] and [sync_node]. *)
Definition read_data (sched : nat -> nat) (node_id : Uuid) (offset size : option Z) : M (Z * bool * bytes) :=
  res ← read_bytes sched node_id offset size; mret (200, res.2, res.1).
Definition write_data (node_id : Uuid) (offset : option Z) (body : bytes) : M (Z * string) :=
  written ← write_bytes node_id (default 0 offset) body; mret (200, pretty written).
Definition sync_node (node_id : Uuid) : M Z := _ ← commit_node node_id; mret 204.

End Handlers.
End Data.
