(* ===== verification/DataSpec.v ===== *)
(** * What a stored file means

    The specification the data handlers are proved against: a file is a flat
    sequence of bytes ([Repr]), held as sealed chunks under a manifest, and the
    handlers act on it as [write_flat] (in [Prelude]) and [slice] do. Shared by the proofs of
    reading, writing and committing. *)
From S2P Require Import Prelude Crypto ObjectStore Repository Locks Server Data.

Module Spec.
Import Records MemoryRepo Manifest AppState.

Section Meaning.
Context `{Aead} `{Store.StoreLimit} (state : Config).
Implicit Types (r : Repo) (o : gmap Uuid bytes).

(** The object of chunk [c] is what sealing [p] makes, and the row describes it. *)
Definition holds o (c : FileChunkRecord) (p : bytes) : Prop :=
  exists e, Crypto.seal (key_id state) (key state) (c_object_id c) p = Ok e /\
    o !! c_object_id c = Some (Crypto.ciphertext e) /\
    c_plaintext_hash c = Crypto.hash_data p /\ c_plaintext_size c = len p /\ len p < 2 ^ 31.

(** The part size a version is laid out with. *)
Definition part_size (v : FileVersionRecord) : Z := Z.max (v_chunk_size v) 1.

(** Parts of this size fit the manifest's columns and, sealed, the store. *)
Definition chunk_fits (cs : Z) : Prop :=
  0 < cs < 2 ^ 31 /\ cs + Crypto.ciphertext_overhead cs <= Store.max_object.

(** The manifest of [version] holds the plaintext [pl i] as part [i]. *)
Record parts r o (version : Uuid) (cs : Z) (pl : Z -> bytes) : Prop := {
  parts_manifest : exists l, chunks r !! version = Some l /\ sorted l /\
    Forall (fun c => 0 <= c_chunk_index c < 2 ^ 62) l /\
    forall i, match chunk_at l i with
              | Some c => holds o c (pl i) /\ len (pl i) <= cs
              | None => pl i = []
              end;
}.

(** Its parts, laid end to end with the gaps zero, are [data] and zeroes after it. *)
Definition laid_out (cs : Z) (pl : Z -> bytes) (data : bytes) : Prop :=
  forall i x, 0 <= i -> 0 <= x < cs -> getb (pl i) x = getb data (i * cs + x).

Definition stored r o (v : FileVersionRecord) (data : bytes) : Prop :=
  chunk_fits (part_size v) /\ exists pl, parts r o (v_id v) (part_size v) pl /\ laid_out (part_size v) pl data.

(** [v] is a write in progress on node [id]. *)
Definition open_version r (id : Uuid) (v : FileVersionRecord) : Prop :=
  versions r !! v_id v = Some v /\ v_node_id v = id /\ is_staging v = true.

(** Node [id] is a file with content [data]: the content of its one open version,
    or of its committed one. *)
Record Repr r o (id : Uuid) (data : bytes) : Prop := {
  repr_size : len data < 2 ^ 62;
  repr_node : exists n, nodes r !! id = Some n /\ n_kind n <> "directory"%string /\ n_size n = len data /\
    ((exists v, open_version r id v /\ (forall v', open_version r id v' -> v' = v) /\
        v_size v = len data /\ stored r o v data) \/
     ((forall v, ~ open_version r id v) /\
        match n_current_version_id n with
        | None => data = []
        | Some vid => exists v, versions r !! vid = Some v /\ v_id v = vid /\ v_node_id v = id /\
            v_size v = len data /\ stored r o v data
        end));
}.

(** Rows are filed under their own ids, a node's current version is a version of
    that node, and a version still being staged has no commit time. *)
Record keyed r : Prop := {
  keyed_versions : forall k v, versions r !! k = Some v -> v_id v = k;
  keyed_nodes : forall k n, nodes r !! k = Some n -> n_id n = k;
  keyed_current : forall k n vid, nodes r !! k = Some n -> n_current_version_id n = Some vid ->
    exists v, versions r !! vid = Some v /\ v_node_id v = k;
  keyed_staging : forall k v, versions r !! k = Some v -> is_staging v = true -> v_committed_at v = None;
}.

End Meaning.

Section Worlds.
Context {S : Type} `{Store.ObjectStoreLaws S}.

Definition objs (w : World S) : gmap Uuid bytes := Store.objects (store w).

(** The identifiers still to be drawn are new to every table, and the object store is in
    order. *)
Record fresh (w : World S) : Prop := {
  fresh_inj : forall m n, uuids w m = uuids w n -> m = n;
  fresh_new : forall n, (drawn w <= n)%nat -> versions (repo w) !! uuids w n = None /\
    chunks (repo w) !! uuids w n = None /\ objs w !! uuids w n = None;
  fresh_store : Store.sound (store w);
}.

Definition Inv (w : World S) : Prop := keyed (repo w) /\ fresh w.

(** [w'] differs from [w] in the manifest of version [vid] and in new objects. *)
Record grows (vid : Uuid) (w w' : World S) : Prop := {
  grows_nodes : nodes (repo w') = nodes (repo w);
  grows_versions : versions (repo w') = versions (repo w);
  grows_chunks : forall k, k <> vid -> chunks (repo w') !! k = chunks (repo w) !! k;
  grows_objs : objs w ⊆ objs w';
  grows_uuids : uuids w' = uuids w;
  grows_clock : clock w' = clock w;
}.

(** [w'] differs from [w] only in what belongs to node [id], and in new objects. *)
Record touches (id : Uuid) (w w' : World S) : Prop := {
  t_nodes : forall k, k <> id -> nodes (repo w') !! k = nodes (repo w) !! k;
  t_versions : forall k v, v_node_id v <> id -> versions (repo w') !! k = Some v <-> versions (repo w) !! k = Some v;
  t_chunks : forall k v, versions (repo w) !! k = Some v -> v_node_id v <> id ->
    chunks (repo w') !! k = chunks (repo w) !! k;
  t_objs : objs w ⊆ objs w';
}.

#[global] Instance touches_preorder id : PreOrder (touches id).
Proof.
  split; [by split|]. intros a b c [Hn Hv Hc Ho] [Hn' Hv' Hc' Ho']. split.
  - intros k Hk. by rewrite Hn', Hn.
  - intros k v Hk. by rewrite Hv', Hv.
  - intros k v Hk Hid. rewrite (Hc' k v), (Hc k v); try done. by apply Hv.
  - by etrans.
Qed.

#[global] Instance grows_preorder vid : PreOrder (grows vid).
Proof.
  split; [by split|]. intros a b c [] []. split; try congruence; [|by etrans].
  intros k Hk. rewrite <-grows_chunks0 by done. by apply grows_chunks1.
Qed.

End Worlds.
End Spec.

(** ** Lemmas *)
Module SpecFacts.
Import Records MemoryRepo Manifest AppState Spec.

Lemma bind_Ok {S A B} (m : M S A) (f : A -> M S B) w a w' : m w = (Ok a, w') -> (m ≫= f) w = f a w'.
Proof. intros Hm. unfold mbind, M_bind. by rewrite Hm. Qed.
Lemma bind_Err {S A B} (m : M S A) (f : A -> M S B) w e w' : m w = (Err e, w') -> (m ≫= f) w = (Err e, w').
Proof. intros Hm. unfold mbind, M_bind. by rewrite Hm. Qed.

Lemma holds_mono `{Aead} state o o' c p : o ⊆ o' -> holds state o c p -> holds state o' c p.
Proof.
  intros Ho (e & ? & Hc & ?). exists e. split_and!; try naive_solver. by eapply lookup_weaken.
Qed.

Lemma parts_mono `{Aead} state r r' o o' v cs pl :
  chunks r' !! v = chunks r !! v -> o ⊆ o' -> parts state r o v cs pl -> parts state r' o' v cs pl.
Proof.
  intros Hr Ho [(l & Hl & Hs & Hb & Hp)]. split. exists l. rewrite Hr. split_and!; try done.
  intros i. specialize (Hp i). destruct (chunk_at l i) as [c|]; [|done].
  destruct Hp. split; [by eapply holds_mono|done].
Qed.

Lemma parts_ext `{Aead} state r o v cs pl pl' :
  (forall i, pl i = pl' i) -> parts state r o v cs pl -> parts state r o v cs pl'.
Proof.
  intros Heq [(l & Hl & Hs & Hb & Hp)]. split. exists l. split_and!; try done.
  intros i. rewrite <-Heq. apply Hp.
Qed.

Lemma stored_mono `{Aead} `{Store.StoreLimit} state r r' o o' v data :
  chunks r' !! v_id v = chunks r !! v_id v -> o ⊆ o' -> stored state r o v data -> stored state r' o' v data.
Proof. intros Hr Ho (Hc & pl & Hp & Hl). split; [done|]. exists pl. split; [|done]. by eapply parts_mono. Qed.

(** *** One open version *)

Section Open.
Context `{HashOrder}.

Lemma max_by_created_spec l :
  match max_by_created l with None => l = [] | Some v => v ∈ l end.
Proof.
  induction l as [|v l IH]; simpl; [done|]. destruct (max_by_created l) as [w|]; [|set_solver].
  destruct (_ <=? _); set_solver.
Qed.

Lemma open_elem r id v :
  keyed r ->
  v ∈ filter (fun v => bool_decide (v_node_id v = id) && is_staging v = true) (hm_values (versions r)) <->
  open_version r id v.
Proof.
  intros [Hk _ _ _]. rewrite list_elem_of_filter, elem_of_hm_values, andb_true_iff, bool_decide_eq_true.
  unfold open_version. split; [intros [[? ?] [k Hv]]|naive_solver]. by rewrite (Hk _ _ Hv).
Qed.

Lemma find_open_unique r id v :
  keyed r -> open_version r id v -> (forall v', open_version r id v' -> v' = v) ->
  find_open_staging_version id r = Ok v.
Proof.
  intros Hk Hv Hu. unfold find_open_staging_version.
  pose proof (max_by_created_spec (filter (fun v => bool_decide (v_node_id v = id) && is_staging v = true)
    (hm_values (versions r)))) as Hm.
  destruct (max_by_created _) as [w|]; simpl.
  - apply open_elem in Hm; [|done]. by rewrite (Hu _ Hm).
  - apply (open_elem r id v Hk) in Hv. rewrite Hm in Hv. by apply not_elem_of_nil in Hv.
Qed.

Lemma find_open_none r id :
  keyed r -> (forall v, ~ open_version r id v) -> find_open_staging_version id r = Err NotFound.
Proof.
  intros Hk Hn. unfold find_open_staging_version.
  pose proof (max_by_created_spec (filter (fun v => bool_decide (v_node_id v = id) && is_staging v = true)
    (hm_values (versions r)))) as Hm.
  destruct (max_by_created _) as [w|]; simpl; [|done].
  apply open_elem in Hm; [|done]. by destruct (Hn w).
Qed.
End Open.

(** *** Other files *)

(** The locks and the clock are no part of it. *)
Lemma Inv_ext {S} `{Store.ObjectStoreLaws S} (w w' : World S) :
  repo w' = repo w -> store w' = store w -> uuids w' = uuids w -> drawn w' = drawn w -> Inv w -> Inv w'.
Proof.
  intros Hr Hs Hu Hd [Hk [Hinj Hf Hsd]]. unfold objs in *. split; [by rewrite Hr|].
  split; rewrite ?Hr, ?Hu, ?Hd; [done| |by rewrite Hs]. unfold objs. by rewrite Hs.
Qed.

Section Frame.
Context `{Aead} {S : Type} `{Store.ObjectStoreLaws S} (state : Config).

Lemma Repr_frame (w w' : World S) id id2 data :
  touches id w w' -> id2 <> id ->
  Repr state (repo w) (objs w) id2 data -> Repr state (repo w') (objs w') id2 data.
Proof.
  intros [Hn Hv Hc Ho] Hne [Hsz (n & Hnode & Hkind & Hlen & Hver)].
  assert (Hop : forall v, open_version (repo w') id2 v <-> open_version (repo w) id2 v).
  { intros v. unfold open_version. split; intros (? & ? & ?); split_and!; try done; apply Hv; congruence. }
  split; [done|]. exists n. rewrite Hn by done. split_and!; try done.
  destruct Hver as [(v & Hopen & Hu & Hvs & Hst)|[Hnone Hcur]].
  - left. exists v. split_and!; try done.
    + by apply Hop.
    + intros v' Hv'%Hop. auto.
    + destruct Hopen as (Hk & Hid & _). eapply stored_mono; [|done|exact Hst]. apply (Hc _ v); congruence.
  - right. split; [by intros v ?%Hop%Hnone|]. destruct (n_current_version_id n) as [vid|]; [|done].
    destruct Hcur as (v & Hvv & Hvid & Hid & Hvs & Hst). exists v. split_and!; try done.
    + apply Hv; congruence.
    + eapply stored_mono; [|done|exact Hst]. rewrite Hvid. apply (Hc _ v); congruence.
Qed.

Lemma grows_touches (w w' : World S) vid id v :
  grows vid w w' -> versions (repo w) !! vid = Some v -> v_node_id v = id -> touches id w w'.
Proof.
  intros [Hn Hv Hc Ho _ _] Hvid Hid. split; [by intros; rewrite Hn|by intros; rewrite Hv| |done].
  intros k v' Hk Hne. apply Hc. intros ->. congruence.
Qed.
End Frame.

(** *** One chunk *)

Section Chunks.
Context `{AeadLaws} `{HashOrder} {S : Type} `{Store.ObjectStoreLaws S} (state : Config).
Implicit Types w : World S.

Lemma read_chunk_plaintext_ok w c p :
  Store.sound (store w) -> holds state (objs w) c p ->
  exists s', Data.read_chunk_plaintext state c w = (Ok p, set_store w s') /\ Store.keeps s' (objs w).
Proof.
  intros Hsd (e & He & Ho & Hh & _). unfold Data.read_chunk_plaintext.
  destruct (Store.get_spec (c_object_id c) (store w) Hsd) as (s' & Hg & Hs'). exists s'.
  erewrite bind_Ok; [|unfold on_store; rewrite Hg; fold (objs w); rewrite Ho; done].
  destruct (CryptoFacts.seal_inv _ _ _ _ _ He) as (cs & _ & Heq).
  pose proof (CryptoFacts.open_seal _ _ _ _ _ He) as Hopen.
  rewrite Heq in Hopen. rewrite Heq, Hh. cbn [Crypto.ciphertext]. rewrite Hopen. done.
Qed.

(** A slice of a chunk: its bytes, then zeroes past its end. *)
Lemma read_chunk_slice_ok w c p a b :
  Store.sound (store w) -> holds state (objs w) c p -> 0 <= a <= b -> b < 2 ^ 63 ->
  exists s', Data.read_chunk_slice state c a b w = (Ok (slice (resize p b) a b), set_store w s') /\
    Store.keeps s' (objs w).
Proof.
  intros Hsd Hh Hab Hb. pose proof Hh as (e & He & Ho & Hph & Hps & Hp). unfold Data.read_chunk_slice.
  rewrite Hps. pose proof (len_nonneg p). rewrite Z.max_l by lia. unfold saturating_sub.
  rewrite (Z.max_r 0 (b - a)) by lia.
  destruct (Z.leb_spec (Z.min b (len p)) a) as [Hle|Hlt].
  { exists (store w). split; [|done]. replace (set_store w (store w)) with w by (by destruct w).
    unfold mret, M_ret. do 2 f_equal. apply getb_ext; [rewrite len_slice, len_resize, len_zeroes; lia|].
    intros i Hi. rewrite len_zeroes in Hi. rewrite getb_zeroes, getb_slice, getb_resize by lia.
    repeat case_match; try done. symmetry. apply getb_over. lia. }
  pose proof (CryptoFacts.open_range_sealed (key_id state) (key state) (c_object_id c) p e
    {| Crypto.cr_object_id := c_object_id c; Crypto.plaintext_len := len p; Crypto.from := a;
       Crypto.to := Z.min b (len p) |} He ltac:(lia) eq_refl eq_refl ltac:(simpl; lia) ltac:(simpl; lia)) as Hr.
  destruct (Crypto.to_fetch _) as [[start end_] first] eqn:Hfetch.
  assert (Hin : 0 <= start < end_ /\ end_ <= len (Crypto.ciphertext e) /\ len (Crypto.ciphertext e) < 2 ^ 63).
  { rewrite (CryptoFacts.len_seal _ _ _ _ _ He) by lia.
    edestruct (CryptoFacts.to_fetch_bounds p) as (? & Hne & ? & ?); [| | | |exact Hfetch|]; simpl; try done; try lia.
    specialize (Hne Hlt). lia. }
  destruct (Store.get_range_spec (c_object_id c) start (end_ - start) _ (store w) Hsd Ho) as (s' & Hg & Hs'); try lia.
  replace (start + (end_ - start)) with end_ in Hg by lia. exists s'. rewrite wsub_id by lia.
  erewrite bind_Ok; [|unfold on_store; rewrite Hg; done]. simpl in Hr. rewrite Hr.
  split; [|done]. unfold mret, mbind, M_ret, M_bind. do 2 f_equal.
  apply getb_ext; rewrite ?len_slice, !len_resize, ?len_slice; [lia|].
  intros i Hi. rewrite getb_resize, !getb_slice, getb_resize by lia.
  repeat case_match; try done; rewrite ?andb_true_iff, ?andb_false_iff, ?Z.leb_le, ?Z.ltb_lt, ?Z.ltb_ge, ?Z.leb_gt in *; try lia.
  symmetry. apply getb_over. lia.
Qed.

End Chunks.
End SpecFacts.
