(* ===== verification/DataWrite.v ===== *)
(** * Writing refines the flat file

    Proofs about [Data.write_bytes] and [Data.commit_node] against [Spec.Repr]. *)
From S2P Require Import Prelude Crypto ObjectStore Repository Locks Server Data DataSpec.

Module WriteFacts.
Import Records MemoryRepo Manifest AppState Spec SpecFacts.

Section Write.
Context `{AeadLaws} `{HashOrder} {S : Type} `{Store.ObjectStoreLaws S} (state : Config).
Implicit Types w : World S.

(** Storing a chunk adds one object under the next identifier. *)
Lemma write_chunk_plaintext_ok w p file :
  fresh w -> len p < 2 ^ 31 -> len p + Crypto.ciphertext_overhead (len p) <= Store.max_object ->
  exists w' e, Crypto.seal (key_id state) (key state) (uuids w (drawn w)) p = Ok e /\
    Data.write_chunk_plaintext state p file w = (Ok (uuids w (drawn w), Crypto.hash_data p), w') /\
    repo w' = repo w /\ objs w' = <[uuids w (drawn w) := Crypto.ciphertext e]> (objs w) /\
    uuids w' = uuids w /\ clock w' = clock w /\ drawn w' = (1 + drawn w)%nat /\ Store.sound (store w').
Proof.
  intros [Hinj Hf Hsd] Hp Hmax. destruct (CryptoFacts.seal_spec (key_id state) (key state) (uuids w (drawn w)) p) as (cs & _ & He).
  destruct (Hf (drawn w) ltac:(lia)) as (_ & _ & Hobj).
  assert (Hlen : len (Crypto.header ++ concat cs) <= Store.max_object).
  { change (Crypto.header ++ concat cs) with (Crypto.ciphertext {| Crypto.key_id := key_id state; Crypto.object_id := uuids w (drawn w);
      Crypto.plaintext_hash := Crypto.hash_data p; Crypto.ciphertext_hash := Crypto.hash_data (Crypto.header ++ concat cs);
      Crypto.ciphertext := Crypto.header ++ concat cs |}).
    rewrite (CryptoFacts.len_seal _ _ _ _ _ He) by lia. done. }
  destruct (Store.put_for_new (clock w (ticks w)) (uuids w (drawn w)) (Crypto.header ++ concat cs) file (store w) Hsd Hobj Hlen)
    as (s' & Hput & Hsd' & Hs').
  unfold Data.write_chunk_plaintext. eexists _, _. split; [exact He|].
  erewrite bind_Ok by reflexivity. rewrite He. erewrite bind_Ok by reflexivity. cbn [Crypto.ciphertext].
  erewrite bind_Ok; [|unfold on_store; cbn [store clock ticks]; rewrite Hput; reflexivity].
  cbn [Crypto.plaintext_hash]. split; [reflexivity|]. by split_and!.
Qed.

Lemma attach_chunk_parts r o vid cs pl i off size hash oid p :
  parts state r o vid cs pl -> 0 <= i < 2 ^ 62 -> len p <= cs ->
  (forall v, holds state o {| c_version_id := v; c_chunk_index := i; c_logical_offset := off;
               c_plaintext_size := size; c_plaintext_hash := hash; c_object_id := oid |} p) ->
  let r' := attach_chunk vid i off size hash oid r in
  r'.1 = Ok tt /\ nodes r'.2 = nodes r /\ versions r'.2 = versions r /\
  (forall k, k <> vid -> chunks r'.2 !! k = chunks r !! k) /\
  (is_Some (chunks r !! vid)) /\
  parts state r'.2 o vid cs (fun j => if decide (j = i) then p else pl j).
Proof.
  intros [(l & Hl & Hs & Hb & Hp)] Hi Hlen Hh. unfold attach_chunk. rewrite Hl. simpl.
  split_and!; try done.
  - intros k Hk. by rewrite lookup_insert_ne.
  - split. simpl. eexists. split; [by rewrite lookup_insert_eq|]. split; [by apply upsert_sorted|]. split.
    + apply Forall_forall. intros c Hc.
      apply (chunk_at_elem (upsert _ l)) in Hc; [|by apply upsert_sorted].
      rewrite chunk_at_upsert in Hc by done. case_decide as Hd; [injection Hc as <-; done|].
      apply chunk_at_Some in Hc as [Hc _]. rewrite Forall_forall in Hb. auto.
    + intros j. rewrite chunk_at_upsert by done. simpl. case_decide; [done|apply Hp].
Qed.

(** The plaintext [write_chunk] computes for part [i]. *)
Lemma merged_part data offset body cs i p :
  0 <= offset -> body <> [] -> 1 <= cs -> 0 <= i ->
  let new_size := Z.max (len data) (offset + len body) in
  let start := i * cs in let l := Z.min cs (new_size - start) in
  let os := Z.max offset start in let oe := Z.min (offset + len body) (start + l) in
  start < new_size ->
  (if (os =? start) && (oe =? start + l) then True
   else forall x, 0 <= x < cs -> getb p x = getb data (start + x)) ->
  (if os <? oe then splice (resize p l) (os - start) (slice body (os - offset) (oe - offset)) else resize p l)
    = slice (write_flat data offset body) start (Z.min (start + cs) new_size).
Proof.
  intros Hoff Hb Hcs Hi new_size start l os oe Hstart Hp.
  assert (0 <= start) by (subst start; nia). pose proof (len_nonneg data).
  assert (0 < len body) by (destruct body; [done|rewrite len_cons; pose proof (len_nonneg body); lia]).
  assert (Hlen : len (if os <? oe then splice (resize p l) (os - start) (slice body (os - offset) (oe - offset))
                      else resize p l) = l).
  { destruct (Z.ltb_spec os oe); [rewrite len_splice|]; rewrite ?len_slice, ?len_resize; lia. }
  apply getb_ext; rewrite Hlen; [rewrite len_slice, len_write_flat by done; fold new_size; lia|].
  intros x Hx. rewrite getb_slice by lia. rewrite getb_write_flat by done.
  rewrite (proj2 (Z.leb_le 0 x)), (proj2 (Z.ltb_lt x _)) by lia. cbn [andb].
  assert (Hres : (offset <=? start + x) && (start + x <? offset + len body) = false ->
                 getb (resize p l) x = getb data (start + x)).
  { intros Hno. rewrite getb_resize, (proj2 (Z.ltb_lt x l)) by lia.
    destruct ((os =? start) && (oe =? start + l)) eqn:Hcov; [|apply Hp; lia]. exfalso. lia. }
  destruct (Z.ltb_spec os oe).
  - rewrite getb_splice by (rewrite ?len_resize; lia). rewrite len_slice, getb_slice by lia.
    destruct ((offset <=? start + x) && (start + x <? offset + len body)) eqn:Hin.
    + rewrite (proj2 (Z.leb_le (os - start) x)), (proj2 (Z.ltb_lt x _)) by lia. cbn [andb].
      rewrite (proj2 (Z.leb_le 0 (x - (os - start)))), (proj2 (Z.ltb_lt (x - (os - start)) _)) by lia.
      cbn [andb]. f_equal. lia.
    + replace ((os - start <=? x) && _) with false by lia. by apply Hres.
  - destruct ((offset <=? start + x) && (start + x <? offset + len body)) eqn:Hin; [lia|]. by apply Hres.
Qed.

(** The sizes of one write: what every step of it may rely on. *)
Record sizes (data : bytes) (offset : Z) (body : bytes) (cs : Z) : Prop := {
  sz_offset : 0 <= offset;
  sz_body : 0 < len body;
  sz_end : offset + len body < 2 ^ 62;
  sz_data : len data < 2 ^ 62;
  sz_cs : chunk_fits cs;
}.
Definition new_size_of (data : bytes) (offset : Z) (body : bytes) : Z := Z.max (len data) (offset + len body).

(** What part [i] holds after the write. *)
Definition new_part (data : bytes) (offset : Z) (body : bytes) (cs i : Z) : bytes :=
  slice (write_flat data offset body) (i * cs) (Z.min (i * cs + cs) (new_size_of data offset body)).

Lemma body_nonempty (body : bytes) : 0 < len body -> body <> [].
Proof. by intros ? ->. Qed.

Lemma write_chunk_ok w v id data offset body cs old pl i :
  sizes data offset body cs -> 0 <= i -> i * cs < new_size_of data offset body ->
  match snd <$> list_find (fun c => u64 (c_chunk_index c) = i) old with
  | Some c => holds state (objs w) c (pl i)
  | None => pl i = []
  end ->
  (forall x, 0 <= x < cs -> getb (pl i) x = getb data (i * cs + x)) ->
  parts state (repo w) (objs w) (v_id v) cs pl -> fresh w ->
  exists w', Data.write_chunk state v id cs (new_size_of data offset body) offset body old i w = (Ok tt, w') /\
    grows (v_id v) w w' /\ fresh w' /\ (drawn w <= drawn w')%nat /\
    parts state (repo w') (objs w') (v_id v) cs (fun j => if decide (j = i) then new_part data offset body cs i else pl j).
Proof.
  intros [Hoff Hb Hend Hdata [Hcs Hmax]] Hi Hin Hex Hlaid Hparts Hfresh.
  pose proof (body_nonempty _ Hb) as Hne. pose proof (len_nonneg data). assert (0 <= i * cs) by nia.
  unfold Data.write_chunk. set (ns := new_size_of data offset body) in *.
  assert (Hns : ns = Z.max (len data) (offset + len body)) by done.
  unwrap. set (os := Z.max offset (i * cs)). set (l := Z.min cs (ns - i * cs)).
  set (oe := Z.min (offset + len body) (i * cs + l)).
  set (covers := (os =? i * cs) && (oe =? i * cs + l)).
  (* what is merged into *)
  assert (Hread : exists s' p0, (if covers then mret [] else
      match list_find (fun c => u64 (c_chunk_index c) = i) old with
      | Some (_, chunk) => Data.read_chunk_plaintext state chunk
      | None => mret [] end) w = (Ok p0, set_store w s') /\ Store.keeps s' (objs w) /\
      (if covers then True else forall x, 0 <= x < cs -> getb p0 x = getb data (i * cs + x))).
  { assert (Hw : w = set_store w (store w)) by (by destruct w). destruct covers.
    { exists (store w), []. rewrite <-Hw. by destruct Hfresh. }
    destruct (list_find _ old) as [[k c]|]; simpl in Hex.
    - destruct (read_chunk_plaintext_ok state w c _ (fresh_store _ Hfresh) Hex) as (s' & Hr & Hs'). by exists s', (pl i).
    - exists (store w), []. rewrite <-Hw. split; [done|]. split; [by destruct Hfresh|]. intros x Hx. rewrite <-Hlaid by done. by rewrite Hex. }
  destruct Hread as (s' & p0 & Hread & [Hsd' Hs'] & Hp0). erewrite bind_Ok by exact Hread.
  (* the merge *)
  pose proof (merged_part data offset body cs i p0 Hoff Hne ltac:(lia) Hi Hin Hp0) as Hmerge.
  change ((if os <? oe then splice (resize p0 l) (os - i * cs) (slice body (os - offset) (oe - offset))
           else resize p0 l) = new_part data offset body cs i) in Hmerge.
  assert (Hpart : len (new_part data offset body cs i) = l).
  { unfold new_part. rewrite len_slice, len_write_flat by done. unfold new_size_of in *. lia. }
  erewrite (bind_Ok _ _ _ (new_part data offset body cs i)).
  2: { instantiate (1 := set_store w s'). revert Hmerge. destruct (Z.ltb_spec os oe); intros Hmerge.
       - rewrite !wsub_id by lia. rewrite !slice_checked_Some by (rewrite ?len_resize; lia). unfold mret, M_ret.
         do 2 f_equal. exact Hmerge.
       - unfold mret, M_ret. do 2 f_equal. exact Hmerge. }
  (* the new object and its row *)
  assert (Hfresh' : fresh (set_store w s')).
  { destruct Hfresh as [? Hf _]. split; [done| |done]. intros n Hn. specialize (Hf n Hn).
    unfold objs in *. simpl. by rewrite Hs'. }
  destruct (write_chunk_plaintext_ok (set_store w s') (new_part data offset body cs i) id Hfresh' ltac:(lia)
    ltac:(pose proof (CryptoFacts.overhead_mono l cs); rewrite Hpart; lia))
    as (w2 & e & He & Hwr & Hrepo & Hobj & Hu & Hc & Hd & Hsd2).
  erewrite bind_Ok by exact Hwr. cbn [uuids drawn set_store repo fst snd] in *.
  unfold objs in Hobj at 2. simpl in Hobj. rewrite Hs' in Hobj.
  destruct Hfresh as [Hinj Hf _]. destruct (Hf (drawn w) ltac:(lia)) as (_ & _ & Hnew).
  assert (Hsub : objs w ⊆ objs w2) by (rewrite Hobj; by apply insert_subseteq).
  destruct (attach_chunk_parts (repo w2) (objs w2) (v_id v) cs pl i (i * cs)
    (i32 (len (new_part data offset body cs i))) (Crypto.hash_data (new_part data offset body cs i))
    (uuids w (drawn w)) (new_part data offset body cs i)
    (parts_mono state (repo w) (repo w2) _ _ _ _ _ ltac:(by rewrite Hrepo) Hsub Hparts))
    as (Hok & Hn & Hv & Hch & [l0 Hsome] & Hparts'); [nia|lia| |].
  { intros v0. exists e. simpl. rewrite Hobj, lookup_insert_eq. unwrap. split_and!; try done; lia. }
  unfold update. destruct (attach_chunk _ _ _ _ _ _ (repo w2)) as [res r'] eqn:Hatt. simpl in Hok. subst res.
  eexists. split; [reflexivity|]. cbn [fst snd] in *. rewrite Hrepo in *.
  split; [|split; [|split; [simpl; lia|]]].
  - by split; simpl.
  - split; [simpl; by rewrite Hu| |done]. intros n Hn'. simpl in Hn' |- *. rewrite Hu.
    destruct (Hf n ltac:(lia)) as (Hfv & Hfc & Hfo).
    rewrite Hv. split; [done|]. split.
    + rewrite Hch; [done|]. intros Heq. rewrite Heq in Hfc. congruence.
    + unfold objs in *. simpl. rewrite Hobj, lookup_insert_ne; [done|]. intros Heq%Hinj. lia.
  - exact Hparts'.
Qed.

Lemma write_chunks_ok v id data offset body cs old js :
  sizes data offset body cs -> NoDup js -> forall w pl,
  (forall i, i ∈ js -> 0 <= i /\ i * cs < new_size_of data offset body /\
     match snd <$> list_find (fun c => u64 (c_chunk_index c) = i) old with
     | Some c => holds state (objs w) c (pl i)
     | None => pl i = []
     end /\ forall x, 0 <= x < cs -> getb (pl i) x = getb data (i * cs + x)) ->
  parts state (repo w) (objs w) (v_id v) cs pl -> fresh w ->
  exists w', for_each js (Data.write_chunk state v id cs (new_size_of data offset body) offset body old) w
      = (Ok tt, w') /\
    grows (v_id v) w w' /\ fresh w' /\
    parts state (repo w') (objs w') (v_id v) cs
      (fun j => if decide (j ∈ js) then new_part data offset body cs j else pl j).
Proof.
  intros Hsz. induction 1 as [|i js Hni Hnd IH]; intros w pl Hjs Hparts Hfresh.
  { exists w. split; [done|]. split; [done|]. split; [done|]. eapply parts_ext; [|exact Hparts].
    intros j. rewrite decide_False; [done|]. by intros ?%not_elem_of_nil. }
  destruct (Hjs i ltac:(set_solver)) as (Hi & Hin & Hex & Hlaid).
  destruct (write_chunk_ok w v id data offset body cs old pl i Hsz Hi Hin Hex Hlaid Hparts Hfresh)
    as (w1 & Hw1 & Hg1 & Hf1 & _ & Hp1).
  destruct (IH w1 (fun j => if decide (j = i) then new_part data offset body cs i else pl j))
    as (w2 & Hw2 & Hg2 & Hf2 & Hp2); [|done|done|].
  { intros j Hj. destruct (Hjs j ltac:(set_solver)) as (? & ? & Hexj & ?).
    assert (j <> i) by (by intros ->). rewrite decide_False by done. split_and!; try done.
    clear Hex. revert Hexj. case_match; [|done]. apply holds_mono. by apply (grows_objs (v_id v)). }
  exists w2. split; [cbn [for_each]; by erewrite bind_Ok by exact Hw1|]. split; [by etrans|]. split; [done|].
  eapply parts_ext; [|exact Hp2]. intros j. simpl. destruct (decide (j = i)) as [->|].
  - rewrite decide_False by done. by rewrite decide_True by set_solver.
  - destruct (decide (j ∈ js)); [by rewrite decide_True by set_solver|]. by rewrite decide_False by set_solver.
Qed.

(** *** Which chunks a write touches *)

Lemma bset_insert_elem x y l : x ∈ Data.bset_insert y l <-> x = y \/ x ∈ l.
Proof.
  induction l as [|z l IH]; simpl; [set_solver|].
  destruct (Z.ltb_spec y z); [set_solver|]. destruct (Z.eqb_spec y z); set_solver.
Qed.
Lemma bset_elem x l : x ∈ Data.bset_of_list l <-> x ∈ l.
Proof. induction l as [|y l IH]; simpl; [done|]. rewrite bset_insert_elem, IH. set_solver. Qed.
Lemma bset_insert_sorted y l : StronglySorted Z.lt l -> StronglySorted Z.lt (Data.bset_insert y l).
Proof.
  induction 1 as [|z l Hs IH Hz]; simpl; [by repeat constructor|].
  destruct (Z.ltb_spec y z).
  - constructor; [by constructor|]. constructor; [done|]. eapply Forall_impl; [exact Hz|]. simpl. lia.
  - destruct (Z.eqb_spec y z); [by constructor|]. constructor; [done|]. apply Forall_forall.
    intros x [->|Hx]%bset_insert_elem; [lia|]. rewrite Forall_forall in Hz. auto.
Qed.
Lemma bset_NoDup l : NoDup (Data.bset_of_list l).
Proof.
  assert (Hs : StronglySorted Z.lt (Data.bset_of_list l)).
  { induction l; simpl; [constructor|]. by apply bset_insert_sorted. }
  induction Hs as [|z l' Hs IH Hz]; constructor; [|done].
  intros Hin. rewrite Forall_forall in Hz. specialize (Hz _ Hin). lia.
Qed.

(** *** The working version *)

(** What the rest of a write needs of it. *)
Record working (w : World S) (id : Uuid) (n : NodeRecord) (v : FileVersionRecord) (data : bytes) : Prop := {
  wk_node : exists n', nodes (repo w) !! id = Some n' /\ n_kind n' = n_kind n /\ n_size n' = n_size n;
  wk_open : open_version (repo w) id v;
  wk_unique : forall v', open_version (repo w) id v' -> v' = v;
  wk_stored : stored state (repo w) (objs w) v data;
}.

(** Copying the parts up to the end of the file copies the file. *)
Lemma copied_parts r o base vid cs pl data :
  parts state r o base cs pl -> laid_out cs pl data -> 1 <= cs -> len data < 2 ^ 62 -> base <> vid ->
  chunks r !! vid = Some [] ->
  let r' := (copy_chunk_range base vid 0 (i64 (div_ceil (len data) cs)) r).2 in
  exists n pl', copy_chunk_range base vid 0 (i64 (div_ceil (len data) cs)) r = (Ok n, r') /\
    nodes r' = nodes r /\ versions r' = versions r /\ (forall k, k <> vid -> chunks r' !! k = chunks r !! k) /\
    parts state r' o vid cs pl' /\ laid_out cs pl' data.
Proof.
  intros [(l & Hl & Hs & Hb & Hp)] Hlaid Hcs Hsz Hne Hvid. pose proof (len_nonneg data).
  assert (Hd : 0 <= div_ceil (len data) cs < 2 ^ 62 + 1 /\ len data <= div_ceil (len data) cs * cs).
  { destruct (decide (len data = 0)) as [->|]; [unfold div_ceil; rewrite Zmod_0_l, Zdiv_0_l; simpl; lia|].
    pose proof (div_ceil_bounds (len data) cs ltac:(lia) ltac:(lia)). nia. }
  set (k := div_ceil (len data) cs) in *. unfold copy_chunk_range. rewrite i64_id by lia.
  rewrite (proj2 (Z.ltb_ge _ _)) by lia. rewrite Hl, Hvid. simpl default.
  set (carried := set_chunk_version vid <$> filter (fun c => in_span 0 k c = true) l).
  destruct (copy_into_spec [] carried ltac:(constructor)) as [Hs' Hat].
  destruct (copy_into [] carried) as [target copied]. simpl in *.
  exists copied, (fun i => if decide (0 <= i <= k) then pl i else []). split_and!; try done.
  - intros j Hj. by rewrite lookup_insert_ne.
  - assert (Hat' : forall i, chunk_at target i =
        if decide (0 <= i <= k) then set_chunk_version vid <$> chunk_at l i else None).
    { intros i. rewrite Hat. unfold carried. rewrite chunk_at_fmap_version, chunk_at_filter_span. by case_decide. }
    split. simpl. exists target. rewrite lookup_insert_eq. split_and!; try done.
    + apply Forall_forall. intros c Hc. apply (chunk_at_elem target) in Hc; [|done].
      rewrite Hat' in Hc. case_decide; [|done]. apply fmap_Some in Hc as (d & Hd' & Heq).
      apply chunk_at_Some in Hd' as [Hin Hidx]. rewrite Forall_forall in Hb. specialize (Hb d Hin). rewrite Heq. done.
    + intros i. rewrite Hat'. case_decide; [|done]. specialize (Hp i).
      destruct (chunk_at l i) as [c|]; simpl; [|done]. destruct Hp as [Hh ?]. by split.
  - intros i x Hi Hx. case_decide; [by apply Hlaid|]. rewrite !getb_over; [done| |by rewrite len_nil; lia]. nia.
Qed.

(** A new version for [id], on top of a world whose identifiers are fresh. *)
Lemma create_staging_ok w id n base cs :
  Inv w -> nodes (repo w) !! id = Some n -> (forall v, ~ open_version (repo w) id v) ->
  let vid := uuids w (drawn w) in
  exists v w', (version_id ← fresh_uuid; t ← now; update (create_staging_version version_id t id base cs)) w = (Ok v, w') /\
    Inv w' /\ touches id w w' /\ objs w' = objs w /\ chunks (repo w') !! vid = Some [] /\
    (forall k, k <> vid -> chunks (repo w') !! k = chunks (repo w) !! k) /\
    (exists n', nodes (repo w') !! id = Some n' /\ n_kind n' = n_kind n /\ n_size n' = n_size n) /\
    v_id v = vid /\ v_chunk_size v = cs /\
    open_version (repo w') id v /\ (forall v', open_version (repo w') id v' -> v' = v).
Proof.
  intros [[Hkv Hkn Hkc Hks] [Hinj Hf Hsd]] Hnode Hnone vid. subst vid.
  destruct (Hf (drawn w) ltac:(lia)) as (Hv & Hc & Ho).
  erewrite bind_Ok by reflexivity. erewrite bind_Ok by reflexivity.
  unfold update, create_staging_version. cbn [repo ticks clock]. rewrite Hnode. cbv beta iota zeta.
  eexists _, _. split; [reflexivity|]. simpl. split_and!; try done.
  - split; split; simpl.
    + intros k v0. rewrite lookup_insert. case_decide as Hd; [by intros [= <-]|]. apply Hkv.
    + intros k m. rewrite lookup_insert. case_decide as Hd; [intros [= <-]; simpl; subst; by apply Hkn in Hnode|]. apply Hkn.
    + intros k m c Hm Hcur. assert (Hm' : exists m', nodes (repo w) !! k = Some m' /\ n_current_version_id m' = Some c).
      { rewrite lookup_insert in Hm. case_decide; [|by exists m]. injection Hm as <-. subst. by exists n. }
      destruct Hm' as (m' & Hm' & Hcur'). destruct (Hkc _ _ _ Hm' Hcur') as (v0 & Hv0 & Hid0).
      exists v0. rewrite lookup_insert_ne by congruence. done.
    + intros k v0. rewrite lookup_insert. case_decide as Hd; [by intros [= <-]|]. apply Hks.
    + done.
    + intros k Hk. destruct (Hf k ltac:(lia)) as (? & ? & ?). simpl.
      assert (uuids w (drawn w) <> uuids w k) by (intros Heq%Hinj; lia).
      by rewrite !lookup_insert_ne.
    + done.
  - split; simpl.
    + intros k Hk. by rewrite lookup_insert_ne.
    + intros k v0 Hne. rewrite lookup_insert. case_decide as Hd; [|done]. subst. split; [by intros [= <-]|congruence].
    + intros k v0 Hk Hne. rewrite lookup_insert_ne; [done|]. congruence.
    + done.
  - by rewrite lookup_insert_eq.
  - intros k Hk. by rewrite lookup_insert_ne.
  - eexists. rewrite lookup_insert_eq. by split.
  - unfold open_version. simpl. by rewrite lookup_insert_eq.
  - intros v' (Hv' & Hid & Hst). simpl in Hv'. rewrite lookup_insert in Hv'. case_decide; [congruence|].
    by destruct (Hnone v').
Qed.

Lemma Inv_chunks w r' :
  Inv w -> nodes r' = nodes (repo w) -> versions r' = versions (repo w) ->
  (forall k, chunks (repo w) !! k = None -> chunks r' !! k = None) -> Inv (set_repo w r').
Proof.
  intros [[Hkv Hkn Hkc Hks] [Hinj Hf Hsd]] Hn Hv Hc. split; split; simpl; rewrite ?Hn, ?Hv; try done.
  intros k Hk. destruct (Hf k Hk) as (? & ? & ?). split_and!; try done. auto.
Qed.

(** *** Committing *)

(** A version that is being staged is not one [commit_version] supersedes. *)
Lemma staging_not_committed v : is_staging v = true -> v_state v <> "committed"%string.
Proof. unfold is_staging. rewrite bool_decide_eq_true. by intros ->. Qed.

Definition superseded (v : FileVersionRecord) : FileVersionRecord :=
  if bool_decide (v_state v = "committed"%string)
  then set_version "superseded" (v_size v) (v_plaintext_hash v) (v_created_at v) (v_committed_at v) v else v.

(** The versions once the old current one has been superseded. *)
Lemma supersede_spec r id n k v :
  keyed r -> nodes r !! id = Some n ->
  let vs := match n_current_version_id n with Some old => alter superseded old (versions r) | None => versions r end in
  vs !! k = Some v <->
  exists v1, versions r !! k = Some v1 /\
    v = if bool_decide (n_current_version_id n = Some k) then superseded v1 else v1.
Proof.
  intros Hk Hn. destruct (n_current_version_id n) as [old|]; simpl; [|naive_solver].
  rewrite lookup_alter. destruct (decide (old = k)) as [->|].
  - rewrite fmap_Some, bool_decide_true by done. naive_solver.
  - rewrite bool_decide_false by congruence. naive_solver.
Qed.

Lemma superseded_same v :
  v_id (superseded v) = v_id v /\ v_node_id (superseded v) = v_node_id v /\
  (is_staging (superseded v) = true -> superseded v = v).
Proof. unfold superseded. case_bool_decide; by split_and!. Qed.

(** What a commit that passes its guard does to the tables. *)
Lemma commit_version_spec r now id n v size hash :
  keyed r -> nodes r !! id = Some n -> open_version r id v ->
  exists v' r', commit_version now {| g_node_id := id; g_version_id := v_id v;
      g_expected_generation := n_generation n; g_expected_current_version := n_current_version_id n |} size hash r
      = (Ok v', r') /\
    chunks r' = chunks r /\
    nodes r' = <[id := set_content (Some (v_id v)) (n_generation n) size n]> (nodes r) /\
    v_id v' = v_id v /\ v_node_id v' = id /\ v_size v' = size /\ v_chunk_size v' = v_chunk_size v /\
    is_staging v' = false /\
    (forall k v0, versions r' !! k = Some v0 <->
       if decide (k = v_id v) then v0 = v' else
       exists v1, versions r !! k = Some v1 /\
         v0 = if bool_decide (n_current_version_id n = Some k) then superseded v1 else v1).
Proof.
  intros Hk Hn (Hv & Hid & Hstg). unfold commit_version.
  cbn [g_node_id g_expected_generation g_expected_current_version g_version_id].
  rewrite Hn, Z.eqb_refl, bool_decide_true, Hv by done. cbn [negb].
  change (fun v0 => if bool_decide (v_state v0 = "committed"%string) then _ else v0) with superseded.
  set (vs := match n_current_version_id n with Some _ => _ | None => _ end).
  assert (Hvs : vs !! v_id v = Some v).
  { apply (supersede_spec r id n); [done|done|]. exists v. split; [done|]. case_bool_decide; [|done].
    unfold superseded. rewrite bool_decide_false; [done|]. by apply staging_not_committed. }
  rewrite Hvs. eexists _, _. split; [reflexivity|]. simpl. split_and!; try done.
  intros k v0. rewrite lookup_insert. destruct (decide (k = v_id v)) as [->|Hne].
  - rewrite decide_True by done. split; [by intros [= <-]|by intros ->].
  - rewrite decide_False by done. by apply (supersede_spec r id n).
Qed.

Lemma commit_keyed r r' id n v v' size :
  keyed r -> nodes r !! id = Some n -> open_version r id v ->
  nodes r' = <[id := set_content (Some (v_id v)) (n_generation n) size n]> (nodes r) ->
  v_id v' = v_id v -> v_node_id v' = id -> is_staging v' = false ->
  (forall k v0, versions r' !! k = Some v0 <->
     if decide (k = v_id v) then v0 = v' else
     exists v1, versions r !! k = Some v1 /\
       v0 = if bool_decide (n_current_version_id n = Some k) then superseded v1 else v1) ->
  keyed r'.
Proof.
  intros [Hkv Hkn Hkc Hks] Hn (Hv & Hvn & _) Hnodes Hid Hnid Hstg Hvs. split.
  - intros k v0 Hv0%Hvs. case_decide; [congruence|]. destruct Hv0 as (v1 & Hv1%Hkv & ->).
    destruct (superseded_same v1) as (? & _). by case_bool_decide; congruence.
  - intros k m. rewrite Hnodes, lookup_insert. case_decide; [|apply Hkn]. intros [= <-]. subst. by apply Hkn in Hn.
  - intros k m vid. rewrite Hnodes, lookup_insert. case_decide as Hd.
    + intros [= <-] [= <-]. exists v'. split; [|congruence]. apply Hvs. by rewrite decide_True.
    + intros Hm Hcur. destruct (Hkc _ _ _ Hm Hcur) as (v1 & Hv1 & Hid1).
      destruct (decide (vid = v_id v)) as [->|Hne].
      * congruence.
      * eexists. split; [apply Hvs; rewrite decide_False by done; by exists v1|].
        case_bool_decide; [|done]. by destruct (superseded_same v1) as (_ & -> & _).
  - intros k v0 Hv0%Hvs Hs0. case_decide; [congruence|]. destruct Hv0 as (v1 & Hv1 & ->).
    case_bool_decide; [|by eapply Hks]. destruct (superseded_same v1) as (_ & _ & Heq).
    pose proof (Heq Hs0) as Hsame. rewrite Hsame in Hs0 |- *. by eapply Hks.
Qed.

Lemma commit_ok w id data :
  Inv w -> Repr state (repo w) (objs w) id data ->
  exists b w', Data.commit_working_version id w = (Ok b, w') /\ Inv w' /\ touches id w w' /\
    Repr state (repo w') (objs w') id data /\ (forall v, ~ open_version (repo w') id v).
Proof.
  intros HI HR. pose proof HR as [Hsz (n & Hn & Hkind & Hlen & Hver)].
  pose proof HI as [Hk [Hinj Hf Hsd]]. unfold Data.commit_working_version.
  destruct Hver as [(v & Hopen & Hu & Hvs & Hst)|[Hnone Hcur]].
  2: { exists false, w. erewrite bind_Ok by reflexivity. by rewrite find_open_none. }
  erewrite bind_Ok by reflexivity. rewrite (find_open_unique _ id v) by done.
  erewrite bind_Ok; [|unfold query, get_node; by rewrite Hn]. erewrite bind_Ok by reflexivity.
  set (hash := Crypto.hash_data _).
  destruct (commit_version_spec (repo w) (clock w (ticks w)) id n v (v_size v) hash Hk Hn Hopen)
    as (v' & r' & Hc & Hch & Hns & Hid & Hnid & Hvsz & Hcs & Hstg & Hvers).
  pose proof (commit_keyed _ _ _ _ _ _ _ Hk Hn Hopen Hns Hid Hnid Hstg Hvers) as Hk'.
  pose proof Hopen as (Hv & Hvn & Hvst).
  assert (Hother : forall k v0, v_node_id v0 <> id -> versions r' !! k = Some v0 <-> versions (repo w) !! k = Some v0).
  { intros k v0 Hne. rewrite Hvers. case_decide as Hd; [subst; split; intros; congruence|].
    case_bool_decide as Hcur; [|naive_solver]. destruct (keyed_current _ Hk _ _ _ Hn Hcur) as (vc & Hvc & Hidc).
    split; [intros (v1 & Hv1 & ->)|intros Hv0; congruence].
    destruct (superseded_same v1) as (_ & Hs & _). congruence. }
  assert (Hclosed : forall v0, ~ open_version r' id v0).
  { intros v0 (Hv0%Hvers & Hid0 & Hs0). case_decide as Hd; [congruence|]. destruct Hv0 as (v1 & Hv1 & Heq).
    assert (v0 = v1) as ->.
    { destruct (bool_decide _) in Heq; [|done]. subst v0. by apply (superseded_same v1). }
    assert (v1 = v) as -> by (by apply Hu). done. }
  eexists true, _. split.
  { erewrite bind_Ok; [reflexivity|]. unfold update. cbn [repo]. rewrite Hc. reflexivity. }
  simpl. split_and!; try done.
  - split; [done|]. split; [done| |done]. intros k Hge. destruct (Hf k Hge) as (Hfv & Hfc & Hfo). simpl.
    rewrite Hch. split_and!; try done. apply eq_None_not_Some. intros [v0 Hv0%Hvers].
    case_decide as Hd; [congruence|]. naive_solver.
  - split; simpl; [by intros k Hne; rewrite Hns, lookup_insert_ne|done|by intros; rewrite Hch|done].
  - split; [done|]. eexists. simpl. rewrite Hns, lookup_insert_eq. split_and!; [done|done|done|]. right.
    split; [done|]. simpl. exists v'. split_and!; [by apply Hvers; rewrite decide_True|done|done|congruence|].
    destruct Hst as (Hb & pl & Hp & Hl). unfold stored, part_size in *. rewrite Hcs, Hid. split; [done|]. exists pl. split; [|done]. eapply parts_mono; [|done|exact Hp]. by rewrite Hch.
Qed.

(** *** The open version, or a new one *)

Hypothesis Hcfg : chunk_fits (chunk_size state).

Lemma working_version_ok w id n data :
  Inv w -> Repr state (repo w) (objs w) id data -> nodes (repo w) !! id = Some n ->
  exists v w', Data.working_version state n id w = (Ok v, w') /\ Inv w' /\ touches id w w' /\
    working w' id n v data.
Proof.
  intros HI [Hsz (n' & Hn' & Hkind & Hlen & Hver)] Hn. rewrite Hn in Hn'. injection Hn' as <-.
  pose proof HI as [Hk Hfr]. pose proof (len_nonneg data). unfold Data.working_version.
  destruct Hver as [(v & Hopen & Hu & Hvs & Hst)|[Hnone Hcur]].
  { exists v, w. erewrite bind_Ok by reflexivity. rewrite (find_open_unique _ id v) by done.
    split; [done|]. split; [done|]. split; [done|]. split; [by exists n|done|done|done]. }
  erewrite bind_Ok by reflexivity. rewrite find_open_none by done.
  destruct (n_current_version_id n) as [bid|] eqn:Hbase.
  - destruct Hcur as (vb & Hvb & Hbid & Hidb & _ & Hcsb & pl & Hparts & Hlaid).
    assert (Hget : query (get_version bid) w = (Ok vb, w)) by (unfold query, get_version; by rewrite Hvb).
    destruct (create_staging_ok w id n (Some bid) (part_size vb) HI Hn Hnone)
      as (v & w1 & Hc1 & HI1 & Ht1 & Ho1 & Hch & Hch' & Hn1 & Hvid & Hvcs & Hop1 & Hu1).
    assert (Hne : bid <> uuids w (drawn w)).
    { intros Heq. destruct Hfr as [_ Hf]. destruct (Hf (drawn w) ltac:(lia)) as (Hnov & _). congruence. }
    assert (Hparts1 : parts state (repo w1) (objs w1) bid (part_size vb) pl).
    { rewrite Ho1. rewrite Hbid in Hparts. eapply parts_mono; [|done|exact Hparts]. by apply Hch'. }
    assert (Hps : part_size v = part_size vb) by (unfold part_size; rewrite Hvcs; unfold part_size; lia).
    destruct (copied_parts (repo w1) (objs w1) bid (v_id v) (part_size vb) pl data Hparts1 Hlaid)
      as (cnt & pl' & Hcopy & Hcn & Hcv & Hcc & Hcp & Hcl); try done;
      [unfold part_size; lia|by rewrite Hvid|by rewrite Hvid|].
    exists v, (set_repo w1 (copy_chunk_range bid (v_id v) 0 (i64 (div_ceil (len data) (part_size vb))) (repo w1)).2).
    split.
    { erewrite bind_Ok by (erewrite bind_Ok by exact Hget; reflexivity).
      change (Z.max (v_chunk_size vb) 1) with (part_size vb).
      revert Hc1. unfold mbind, M_bind. destruct (fresh_uuid w) as [[u|] wu]; [|done].
      destruct (now wu) as [[t|] wt]; [|done]. intros ->. unfold update. rewrite Hlen, Z.max_l by done.
      replace (Z.max (part_size vb) 1) with (part_size vb) by (unfold part_size; lia). by rewrite Hcopy. }
    split; [apply Inv_chunks; try done|split].
    + intros k Hk'. rewrite Hcc; [done|]. intros ->. congruence.
    + etrans; [exact Ht1|]. destruct Hop1 as (Hv1 & Hid1 & _).
      split; simpl; [by intros; rewrite Hcn|by intros; rewrite Hcv| |done].
      intros k v0 Hk0 Hne0. apply Hcc. intros ->. congruence.
    + split; simpl; unfold open_version; rewrite ?Hcn, ?Hcv; try done.
      split; [by rewrite Hps|]. exists pl'. by rewrite Hps.
  - subst data. destruct (create_staging_ok w id n None (i64 (chunk_size state)) HI Hn Hnone)
      as (v & w1 & Hc1 & HI1 & Ht1 & Ho1 & Hch & Hch' & Hn1 & Hvid & Hvcs & Hop1 & Hu1).
    exists v, w1. split.
    { erewrite bind_Ok by reflexivity. revert Hc1. unfold mbind, M_bind.
      destruct (fresh_uuid w) as [[u|] wu]; [|done]. destruct (now wu) as [[t|] wt]; [|done]. by intros ->. }
    split; [done|]. split; [done|]. split; try done.
    pose proof (proj1 Hcfg). rewrite i64_id in Hvcs by lia.
    split; [unfold part_size; rewrite Hvcs, Z.max_l by lia; done|]. exists (fun _ => []). split; [|by intros i x _ _; rewrite !getb_nil].
    split. exists []. rewrite Hvid. split_and!; done || constructor.
Qed.

(** *** The whole write *)

(** The parts a write overlaps, and where they lie. *)
Lemma write_span data offset body cs :
  sizes data offset body cs ->
  let first := offset / cs in let last := (offset + len body - 1) / cs in
  let count := div_ceil (new_size_of data offset body) cs in
  0 <= first <= last /\ last < count <= 2 ^ 62 /\ last * cs < offset + len body /\
  (forall i x, 0 <= x < cs -> offset <= i * cs + x < offset + len body -> first <= i <= last).
Proof.
  intros [Hoff Hb Hend Hdata [Hcs Hmax]]. cbv zeta. pose proof (len_nonneg data).
  pose proof (div_ceil_bounds (new_size_of data offset body) cs ltac:(lia) ltac:(unfold new_size_of; lia)).
  unfold new_size_of in *. pose proof (Z.div_mod offset cs ltac:(lia)). pose proof (Z.mod_pos_bound offset cs ltac:(lia)).
  pose proof (Z.div_mod (offset + len body - 1) cs ltac:(lia)).
  pose proof (Z.mod_pos_bound (offset + len body - 1) cs ltac:(lia)).
  split_and!; nia.
Qed.

Lemma rewrite_last_spec old_size cs count first last t :
  1 <= cs -> 0 <= old_size -> Data.rewrite_last old_size cs count first last = Some t ->
  0 <= t /\ t * cs < old_size /\ ~ (first <= t <= last).
Proof.
  intros Hcs Hold. unfold Data.rewrite_last, Data.stale_tail.
  destruct (Z.ltb_spec 0 old_size), (Z.eqb_spec (old_size mod cs) 0); simpl; try done.
  destruct (_ && _) eqn:Hc; [|done]. intros [= <-].
  pose proof (Z.div_mod old_size cs ltac:(lia)). pose proof (Z.mod_pos_bound old_size cs ltac:(lia)). nia.
Qed.

Lemma option_list_elem {A} (o : option A) x : x ∈ option_list o <-> o = Some x.
Proof. destruct o; simpl; set_solver. Qed.

(** The rows read before the loop are those of the parts it rewrites. *)
Lemma old_chunks_at l a b tail i :
  Forall (fun c => 0 <= c_chunk_index c < 2 ^ 62) l -> a <= i <= b \/ tail = Some i ->
  snd <$> list_find (fun c => u64 (c_chunk_index c) = i)
    (filter (fun c => in_span a b c = true) l ++
     match tail with Some t => filter (fun c => in_span t t c = true) l | None => [] end) = chunk_at l i.
Proof.
  intros Hb Hi. rewrite chunk_at_u64.
  - rewrite chunk_at_app, chunk_at_filter_span. destruct (decide (a <= i <= b)).
    + destruct (chunk_at l i) eqn:Hl; [done|]. destruct tail as [t|]; [|done].
      rewrite chunk_at_filter_span. by case_decide.
    + destruct Hi as [?| ->]; [done|]. rewrite chunk_at_filter_span. by rewrite decide_True by lia.
  - apply Forall_app. rewrite Forall_forall in Hb. split.
    + apply Forall_forall. intros c [_ Hc%Hb]%list_elem_of_filter. unfold in_u64. lia.
    + destruct tail; [|constructor]. apply Forall_forall. intros c [_ Hc%Hb]%list_elem_of_filter. unfold in_u64. lia.
Qed.

(** Once its parts are written, the version holds the written file. *)
Lemma written_laid_out data offset body cs pl (js : list Z) :
  sizes data offset body cs -> laid_out cs pl data ->
  (forall i, offset / cs <= i <= (offset + len body - 1) / cs -> i ∈ js) ->
  laid_out cs (fun j => if decide (j ∈ js) then new_part data offset body cs j else pl j)
    (write_flat data offset body).
Proof.
  intros Hsz Hl Hjs i x Hi Hx. destruct (write_span _ _ _ _ Hsz) as (_ & _ & _ & Hcov).
  pose proof Hsz as [Hoff Hb Hend Hdata [Hcs _]]. pose proof (body_nonempty _ Hb) as Hne.
  assert (0 <= i * cs) by nia. case_decide as Hin.
  - unfold new_part. rewrite getb_slice by lia.
    destruct ((0 <=? x) && (x <? _)) eqn:Hr; [done|]. symmetry. apply getb_over.
    rewrite len_write_flat by done. unfold new_size_of in *. lia.
  - rewrite Hl, getb_write_flat by done.
    destruct ((offset <=? i * cs + x) && (i * cs + x <? offset + len body)) eqn:Hr; [|done].
    destruct Hin. apply Hjs, (Hcov i x); lia.
Qed.

(** Recording the new length makes the working version the file. *)
Lemma record_size_ok w id n v data A (k : M S A) :
  Inv w -> working w id n v data -> n_kind n <> "directory"%string -> len data < 2 ^ 62 ->
  exists w', (t ← now; _ ← update (touch_staging_version t (v_id v) (len data));
              t' ← now; _ ← update (update_node_attr t' id None None None (Some (len data)) None None); k) w = k w' /\
    Inv w' /\ touches id w w' /\ Repr state (repo w') (objs w') id data.
Proof.
  intros [[Hkv Hkn Hkc Hks] [Hinj Hf Hsd]] [(n' & Hn & Hkind & _) (Hv & Hid & Hst) Hu Hstored] Hdir Hsz.
  set (v' := set_version (v_state v) (len data) (v_plaintext_hash v) (clock w (ticks w)) (v_committed_at v) v).
  set (n2 := set_attr None None None (Some (len data)) None None (clock w (1 + ticks w)%nat) n').
  set (r' := with_nodes (with_versions (repo w) (<[v_id v := v']> (versions (repo w)))) (<[id := n2]> (nodes (repo w)))).
  assert (Hrun : exists w', (t ← now; _ ← update (touch_staging_version t (v_id v) (len data));
              t' ← now; _ ← update (update_node_attr t' id None None None (Some (len data)) None None); k) w = k w' /\
    repo w' = r' /\ store w' = store w /\ uuids w' = uuids w /\ drawn w' = drawn w).
  { eexists. split.
    - erewrite bind_Ok by reflexivity.
      erewrite bind_Ok; [|unfold update, touch_staging_version; cbn [repo]; rewrite Hv, Hst; reflexivity].
      erewrite bind_Ok by reflexivity.
      erewrite bind_Ok; [reflexivity|]. unfold update, update_node_attr. cbn [repo set_repo with_versions nodes].
      rewrite Hn. reflexivity.
    - by split_and!. }
  destruct Hrun as (w' & Hrun & Hr' & Hs' & Hu' & Hd'). exists w'. split; [done|].
  assert (Ho' : objs w' = objs w) by (unfold objs; by rewrite Hs').
  assert (Hk' : keyed r').
  { split; simpl.
    - intros j v0. rewrite lookup_insert. case_decide; [by intros [= <-]|apply Hkv].
    - intros j m. rewrite lookup_insert. case_decide; [|apply Hkn]. intros [= <-]. subst. by apply Hkn in Hn.
    - intros j m vid Hm Hcur.
      assert (Hm' : exists m', nodes (repo w) !! j = Some m' /\ n_current_version_id m' = Some vid).
      { rewrite lookup_insert in Hm. case_decide; [|by exists m]. injection Hm as <-. subst. by exists n'. }
      destruct Hm' as (m' & Hm' & Hcur'). destruct (Hkc _ _ _ Hm' Hcur') as (v0 & Hv0 & Hid0).
      rewrite lookup_insert. case_decide; [|by exists v0]. exists v'. split; [done|]. simpl. congruence.
    - intros j v0. rewrite lookup_insert. case_decide; [|apply Hks]. intros [= <-] Hs0. by apply (Hks (v_id v) v). }
  split; [|split].
  - split; [by rewrite Hr'|]. split; [by rewrite Hu'| |by rewrite Hs']. rewrite Hr', Hu', Hd', Ho'.
    intros j Hj. destruct (Hf j Hj) as (Hfv & Hfc & Hfo). simpl.
    split_and!; try done. rewrite lookup_insert_ne; [done|]. congruence.
  - split; rewrite ?Hr', ?Ho'; simpl; [by intros j Hj; rewrite lookup_insert_ne| |done|done].
    intros j v0 Hne. rewrite lookup_insert. case_decide; [|done]. subst.
    split; [intros [= <-]; simpl in Hne; congruence|congruence].
  - rewrite Hr', Ho'. split; [done|]. exists n2. simpl. rewrite lookup_insert_eq.
    split_and!; [done|simpl; congruence|done|].
    left. exists v'. split_and!; [|intros v0 (Hv0 & Hid0 & Hs0)|done|].
    + split_and!; [|done|done]. simpl; by rewrite lookup_insert_eq.
    + simpl in Hv0. rewrite lookup_insert in Hv0. case_decide; [congruence|].
      assert (v0 = v) by (by apply Hu). congruence.
    + destruct Hstored as (Hc & pl & Hp & Hl). split; [done|]. exists pl. split; [|done].
      by eapply parts_mono; [| |exact Hp].
Qed.

Lemma write_locked_ok w id data offset body :
  Inv w -> Repr state (repo w) (objs w) id data -> 0 <= offset -> 0 < len body -> offset + len body < 2 ^ 62 ->
  exists w', Data.write_locked state id offset body w = (Ok (len body), w') /\
    Inv w' /\ touches id w w' /\ Repr state (repo w') (objs w') id (write_flat data offset body).
Proof.
  intros HI HR Hoff Hb Hend. pose proof HR as [Hsz (n & Hn & Hkind & Hlen & _)]. pose proof (len_nonneg data).
  pose proof (body_nonempty _ Hb) as Hne. unfold Data.write_locked.
  erewrite bind_Ok; [|unfold query, get_node; by rewrite Hn]. rewrite bool_decide_false by done.
  destruct (working_version_ok w id n data HI HR Hn) as (v & w1 & Hw1 & HI1 & Ht1 & Hwk).
  erewrite bind_Ok by exact Hw1. change (Z.max (v_chunk_size v) 1) with (part_size v). rewrite Hlen, Z.max_l by lia.
  pose proof (wk_stored _ _ _ _ _ Hwk) as (Hcsb & pl & Hparts & Hlaid).
  set (cs := part_size v) in *. pose proof (proj1 Hcsb) as Hcs.
  assert (Hszs : sizes data offset body cs) by done.
  destruct (write_span _ _ _ _ Hszs) as (Hfl & Hlast & Hlc & Hcov). unwrap.
  change (Z.max (len data) (offset + len body)) with (new_size_of data offset body).
  set (ns := new_size_of data offset body) in *. set (count := div_ceil ns cs) in *.
  set (first := offset / cs) in *. set (last := (offset + len body - 1) / cs) in *.
  assert (Hns : ns = len (write_flat data offset body)) by (rewrite len_write_flat; done).
  assert (Hns' : ns < 2 ^ 62) by (unfold ns, new_size_of; lia).
  set (tail := Data.rewrite_last (len data) cs count first last).
  pose proof Hparts as [(l & Hl & _ & Hidx & Hpl)].
  assert (Hq : forall a b, query (get_chunk_range (v_id v) a b) w1 =
             (Ok (filter (fun c => in_span a b c = true) l), w1)) by (intros; unfold query, get_chunk_range; by rewrite Hl).
  erewrite bind_Ok by apply Hq.
  erewrite (bind_Ok _ _ _ (match tail with Some t => filter (fun c => in_span t t c = true) l | None => [] end)).
  2: { destruct tail as [t|] eqn:Htail; [|reflexivity]. apply rewrite_last_spec in Htail as (? & ? & _); [|lia|lia].
       rewrite i64_id by nia. apply Hq. }
  unfold saturating_sub. rewrite (Z.min_l last count), (Z.min_l last) by lia. unwrap.
  set (js := Data.bset_of_list _).
  assert (Hjs : forall i, i ∈ js <-> first <= i <= last \/ tail = Some i).
  { intros i. unfold js. rewrite bset_elem, elem_of_app, elem_of_seqZ, option_list_elem.
    split; (intros [?|?]; [left; lia|by right]). }
  destruct (write_chunks_ok v id data offset body cs
    (filter (fun c => in_span first last c = true) l ++
     match tail with Some t => filter (fun c => in_span t t c = true) l | None => [] end) js Hszs
    (bset_NoDup _) w1 pl) as (w2 & Hw2 & Hg2 & Hf2 & Hp2); [|done|by destruct HI1|].
  { intros i Hi%Hjs. rewrite old_chunks_at by done. split; [|split; [|split]].
    - destruct Hi as [?|Ht]; [lia|]. apply rewrite_last_spec in Ht; lia.
    - destruct Hi as [?|Ht]; [unfold ns, new_size_of; nia|].
      apply rewrite_last_spec in Ht; [|lia|lia]. unfold ns, new_size_of. lia.
    - specialize (Hpl i). by destruct (chunk_at l i) as [c|]; [destruct Hpl|].
    - intros x Hx. apply Hlaid; [|done]. destruct Hi as [?|Ht]; [lia|]. apply rewrite_last_spec in Ht; lia. }
  erewrite bind_Ok by exact Hw2. rewrite Hns in *.
  assert (HI2 : Inv w2) by (destruct HI1 as [[? ? ? ?] _]; split; [|done]; split; rewrite ?(grows_nodes _ _ _ Hg2), ?(grows_versions _ _ _ Hg2); done).
  pose proof Hwk as [Hnode (Hv & Hid & Hst) Hu _].
  assert (Hwk2 : working w2 id n v (write_flat data offset body)).
  { split; unfold open_version; rewrite ?(grows_nodes _ _ _ Hg2), ?(grows_versions _ _ _ Hg2); try done.
    split; [done|]. eexists. split; [exact Hp2|]. apply written_laid_out; [done|done|].
    intros i Hi. apply Hjs. by left. }
  unwrap. destruct (record_size_ok w2 id n v _ _
    (_ ← (if len data / Data.COMMIT_EVERY_BYTES <? len (write_flat data offset body) / Data.COMMIT_EVERY_BYTES
          then _ ← Data.commit_working_version id; mret tt else mret tt); mret (len body)) HI2 Hwk2 Hkind Hns')
    as (w3 & Hw3 & HI3 & Ht3 & HR3). rewrite Hw3.
  assert (Ht : touches id w w3).
  { etrans; [exact Ht1|]. etrans; [|exact Ht3]. by eapply grows_touches. }
  destruct (_ <? _); [|by exists w3].
  destruct (commit_ok w3 id _ HI3 HR3) as (b & w4 & Hw4 & HI4 & Ht4 & HR4 & _).
  exists w4. split; [by erewrite bind_Ok by (erewrite bind_Ok by exact Hw4; reflexivity)|].
  split; [done|]. split; [by etrans|done].
Qed.

(** Taking the lock changes nothing the file depends on. *)
Lemma with_write_lock_ok {A} w id (m : M S A) a (P : World S -> Prop) :
  (forall l, exists w', m (set_locks w l) = (Ok a, w') /\ forall l', P (set_locks w' l')) ->
  exists w', with_write_lock id m w = (Ok a, w') /\ P w'.
Proof.
  intros Hm. unfold with_write_lock. destruct (Locks.write_lock id (locks w)) as [lid ls].
  destruct (Hm ls) as (w' & -> & HP). eexists. split; [reflexivity|]. apply HP.
Qed.

End Write.
End WriteFacts.
