(* ===== verification/DataRead.v ===== *)
(** * Reading refines the flat file

    Proofs about [Data.read_bytes] against [Spec.Repr]: whatever order the spawned
    fetches complete in, a read returns the file's bytes. *)
From S2P Require Import Prelude Crypto ObjectStore Repository Locks Server Data DataSpec.

Module ReadFacts.
Import Records MemoryRepo Manifest AppState Spec SpecFacts.

(** A read of the flat file. *)
Definition read_flat (data : bytes) (offset size : option Z) : bytes :=
  slice data (default 0 offset)
    (match size with Some s => Z.min (default 0 offset + s) (len data) | None => len data end).

Section Read.
Context `{AeadLaws} `{HashOrder} {S : Type} `{Store.ObjectStoreLaws S} (state : Config).
Implicit Types w : World S.

Hypothesis Hpar : 1 <= parallel_chunk_fetches state.

(** *** The fetch loop *)

Section Loop.
Context (p : Data.ReadPlan) (pl : Z -> bytes) (o : gmap Uuid bytes).

Abbreviation first := (Data.rp_first p).
Abbreviation last := (Data.rp_last p).
Definition slot (i : Z) : nat := Z.to_nat (i - first).

(** What piece [i] should be. *)
Definition expected (i : Z) : bytes :=
  slice (resize (pl i) (Data.want_to p i)) (Data.want_from p i) (Data.want_to p i).

Hypothesis Hwant : forall i, first <= i <= last ->
  0 <= Data.want_from p i <= Data.want_to p i /\ Data.want_to p i < 2 ^ 63.
Hypothesis Hchunks : forall i, first <= i <= last ->
  match snd <$> list_find (fun c => u64 (c_chunk_index c) = i) (Data.rp_chunks p) with
  | Some c => holds state o c (pl i)
  | None => pl i = []
  end.

Record task_for (t : Data.Task) (i : Z) : Prop := {
  tf_slot : Data.t_slot t = slot i;
  tf_holds : holds state o (Data.t_chunk t) (pl i);
  tf_from : Data.t_from t = Data.want_from p i;
  tf_to : Data.t_to t = Data.want_to p i;
}.

(** Every part before [next] has its piece, or a task that will bring it. *)
Record fetching (f : Data.Fetch) : Prop := {
  fe_next : first <= Data.f_next f <= last + 1;
  fe_pieces : length (Data.f_pieces f) = Z.to_nat (last + 1 - first);
  fe_tasks : forall t, t ∈ Data.f_inflight f -> exists i, first <= i < Data.f_next f /\ task_for t i;
  fe_done : forall i, first <= i < Data.f_next f ->
    Data.f_pieces f !! slot i = Some (expected i) \/
    exists t, t ∈ Data.f_inflight f /\ Data.t_slot t = slot i;
}.

Definition remaining (f : Data.Fetch) : nat := (Z.to_nat (last + 1 - Data.f_next f) + length (Data.f_inflight f))%nat.

Lemma slot_inj i j : first <= i -> first <= j -> slot i = slot j -> i = j.
Proof. unfold slot. lia. Qed.

Lemma spawn_spec n f :
  fetching f -> (Z.to_nat (last + 1 - Data.f_next f) <= n)%nat ->
  let f' := Data.spawn_loop state n p f in
  fetching f' /\ (remaining f' <= remaining f)%nat /\
  (last < Data.f_next f' \/ parallel_chunk_fetches state <= len (Data.f_inflight f')).
Proof.
  revert f. induction n as [|n IH]; intros f Hf Hn; simpl.
  { split; [done|]. split; [done|]. left. lia. }
  destruct (Z.leb_spec (Data.f_next f) last), (Z.ltb_spec (len (Data.f_inflight f)) (parallel_chunk_fetches state));
    simpl; [|by split_and!; auto|by split_and!; auto|by split_and!; auto].
  pose proof Hf as [Hnext Hlen Htasks Hdone]. specialize (Hchunks (Data.f_next f) ltac:(lia)).
  destruct (list_find _ _) as [[k c]|]; simpl in Hchunks.
  - set (t := {| Data.t_slot := _ |}). set (f1 := {| Data.f_next := _; Data.f_inflight := _ |}).
    destruct (IH f1) as (H1' & H2' & H3'); [|simpl; lia|].
    { split; simpl; [lia|done| |].
      - intros t' [Ht'|Ht']%elem_of_app.
        + destruct (Htasks t' Ht') as (i & ? & ?). exists i. split; [lia|done].
        + apply list_elem_of_singleton in Ht' as ->. exists (Data.f_next f). split; [lia|]. by split.
      - intros i Hi. destruct (decide (i = Data.f_next f)) as [->|].
        + right. exists t. split; [set_solver|done].
        + destruct (Hdone i ltac:(lia)) as [?|(t' & ? & ?)]; [by left|]. right. exists t'. set_solver. }
    split_and!; try done. unfold remaining in *. simpl in *. rewrite length_app in H2'. simpl in *. lia.
  - set (f1 := {| Data.f_next := _ |}). destruct (IH f1) as (H1' & H2' & H3'); [|simpl; lia|].
    { destruct (Hwant (Data.f_next f) ltac:(lia)) as [Hw1 Hw2]. split; simpl; [lia|by rewrite length_insert| |].
      - intros t' Ht'. destruct (Htasks t' Ht') as (i & ? & ?). exists i. split; [lia|done].
      - intros i Hi. destruct (decide (i = Data.f_next f)) as [->|Hne].
        + left. rewrite list_lookup_insert_eq by (rewrite Hlen; lia). f_equal. unfold expected. rewrite Hchunks.
          unwrap. apply getb_ext; rewrite len_zeroes, ?len_slice, ?len_resize; [lia|]. intros x Hx.
          rewrite getb_zeroes, getb_slice, getb_resize, getb_nil by lia. by repeat case_match.
        + rewrite list_lookup_insert_ne by (intros Heq; apply slot_inj in Heq; lia). apply Hdone. lia. }
    split_and!; try done. unfold remaining in *. simpl in *. lia.
Qed.

Lemma fetch_spec sched n f w :
  fetching f -> Store.sound (store w) -> objs w = o -> (remaining f < n)%nat ->
  exists s', Data.fetch_loop state sched n p f w = (Ok (expected <$> seqZ first (last + 1 - first)), set_store w s') /\
    Store.keeps s' o.
Proof.
  revert f w. induction n as [|n IH]; intros f w Hf Hsd Ho Hn; [lia|]. cbn [Data.fetch_loop].
  destruct ((Data.f_next f <=? last) || negb (bool_decide (Data.f_inflight f = []))) eqn:Hgo.
  2: { (* done *)
    exists (store w). split; [|done]. replace (set_store w (store w)) with w by (by destruct w).
    unfold mret, M_ret. do 2 f_equal. destruct Hf as [Hnext Hlen _ Hdone].
    assert (Data.f_inflight f = []) as Hnil by (destruct (Data.f_inflight f); [done|simpl in Hgo; lia]).
    assert (Data.f_next f = last + 1) by lia. apply list_eq. intros k.
    destruct (decide (k < length (Data.f_pieces f))%nat) as [Hk|Hk].
    - rewrite list_lookup_fmap. rewrite lookup_seqZ_lt by lia. simpl.
      destruct (Hdone (first + Z.of_nat k) ltac:(lia)) as [Hd|(t & Ht & _)].
      + unfold slot in Hd. by replace (Z.to_nat (first + Z.of_nat k - first)) with k in Hd by lia.
      + rewrite Hnil in Ht. by apply not_elem_of_nil in Ht.
    - rewrite !lookup_ge_None_2; [done| |lia]. rewrite length_fmap, length_seqZ. lia. }
  destruct (spawn_spec (Z.to_nat (last - Data.f_next f + 1)) f Hf ltac:(lia)) as (Hf' & Hrem & Hstop).
  set (f' := Data.spawn_loop state _ p f) in *.
  set (k := (sched n `mod` length (Data.f_inflight f'))%nat).
  destruct (Data.f_inflight f' !! k) as [t|] eqn:Hk.
  - (* a task completes *)
    pose proof Hf' as [Hnext Hlen Htasks Hdone].
    destruct (Htasks t ltac:(by eapply list_elem_of_lookup_2)) as (i & Hi & [Hs Hh Hfr Hto]).
    destruct (Hwant i ltac:(lia)) as [Hw1 Hw2]. rewrite <-Ho in Hh.
    destruct (read_chunk_slice_ok state w _ _ (Data.want_from p i) (Data.want_to p i) Hsd Hh Hw1 Hw2) as (s1 & Hr & [Hsd1 Hs1]).
    erewrite bind_Ok; [|unfold Data.joined; rewrite Hfr, Hto, Hr; reflexivity]. fold (expected i).
    edestruct (IH {| Data.f_next := Data.f_next f'; Data.f_inflight := delete k (Data.f_inflight f');
         Data.f_pieces := <[Data.t_slot t := expected i]> (Data.f_pieces f') |} (set_store w s1))
      as (s2 & Hl2 & Hs2); [|exact Hsd1| | |exists s2; split; [exact Hl2|exact Hs2]].
    + split; simpl; [done|by rewrite length_insert| |].
      * intros t' Ht'. apply Htasks. eapply elem_of_submseteq; [exact Ht'|]. apply sublist_submseteq, sublist_delete.
      * intros j Hj. rewrite Hs. destruct (decide (j = i)) as [->|Hne].
        { left. apply list_lookup_insert_eq. rewrite Hlen. unfold slot. lia. }
        rewrite list_lookup_insert_ne by (intros Heq; apply slot_inj in Heq; lia).
        destruct (Hdone j Hj) as [?|(t' & Ht' & Hst')]; [by left|]. right. exists t'. split; [|done].
        rewrite (delete_Permutation _ _ _ Hk) in Ht'. apply elem_of_cons in Ht' as [->|?]; [|done].
        rewrite Hs in Hst'. apply slot_inj in Hst'; lia.
    + unfold objs. simpl. by rewrite Hs1.
    + unfold remaining in *. simpl. rewrite length_delete by eauto.
      assert (0 < length (Data.f_inflight f'))%nat by (apply lookup_lt_Some in Hk; lia). lia.
  - (* nothing in flight: every part was a hole *)
    assert (Hnil : Data.f_inflight f' = []).
    { destruct (Data.f_inflight f') as [|t ts] eqn:Hfl; [done|]. apply lookup_ge_None in Hk.
      pose proof (Nat.mod_upper_bound (sched n) (length (t :: ts)) ltac:(done)). subst k. lia. }
    destruct Hstop as [Hstop|Hstop]; [|rewrite Hnil, len_nil in Hstop; lia].
    assert (1 <= remaining f)%nat.
    { unfold remaining. apply orb_true_iff in Hgo as [?%Z.leb_le|Hi]; [lia|].
      destruct (Data.f_inflight f); simpl in *; [done|lia]. }
    apply IH; [done|done|done|]. unfold remaining in *. rewrite Hnil in *. simpl in *. lia.
Qed.

End Loop.

(** *** From pieces to the file *)

Lemma read_version_ok w sched v committed data offset size :
  Store.sound (store w) -> stored state (repo w) (objs w) v data ->
  0 <= offset -> 0 < size -> offset + size <= len data -> len data < 2 ^ 62 ->
  exists s', Data.read_version state sched v committed offset size w
      = (Ok (slice data offset (offset + size), committed), set_store w s') /\ Store.keeps s' (objs w).
Proof.
  intros Hsd (Hcsb & pl & [(l & Hl & Hs & Hidx & Hpl)] & Hlaid) Hoff Hsize Hend Hdata. unfold Data.read_version.
  change (Z.max (v_chunk_size v) 1) with (part_size v). set (cs := part_size v) in *.
  pose proof (proj1 Hcsb) as Hcs. unwrap.
  pose proof (Z.div_mod offset cs ltac:(lia)). pose proof (Z.mod_pos_bound offset cs ltac:(lia)).
  pose proof (Z.div_mod (offset + size - 1) cs ltac:(lia)). pose proof (Z.mod_pos_bound (offset + size - 1) cs ltac:(lia)).
  set (first := offset / cs) in *. set (last := (offset + size - 1) / cs) in *.
  assert (0 <= first <= last) by nia. assert (last < 2 ^ 62) by nia. unwrap.
  erewrite bind_Ok; [|unfold query, get_chunk_range; by rewrite Hl].
  set (p := {| Data.rp_offset := _ |}).
  assert (Hwant : forall i, first <= i <= last ->
     Data.want_from p i = Z.max offset (i * cs) - i * cs /\ Data.want_to p i = Z.min (offset + size) (i * cs + cs) - i * cs /\
     0 <= i * cs).
  { intros i Hi. unfold Data.want_from, Data.want_to, saturating_sub. simpl. assert (0 <= i * cs <= last * cs) by nia.
    unwrap. lia. }
  destruct (fetch_spec p pl (objs w)) with (sched := sched) (n := Datatypes.S (Datatypes.S (Z.to_nat (last - first + 1))))
    (f := {| Data.f_next := first; Data.f_inflight := []; Data.f_pieces := replicate (Z.to_nat (last - first + 1)) [] |})
    (w := w) as (s' & Hf & Hs').
  - intros i Hi. destruct (Hwant i Hi) as (-> & -> & ?). simpl in Hi. nia.
  - intros i Hi. simpl in Hi |- *. rewrite chunk_at_u64.
    + rewrite chunk_at_filter_span, decide_True by lia. specialize (Hpl i). destruct (chunk_at l i); [by destruct Hpl|done].
    + apply Forall_forall. intros c [_ Hc]%list_elem_of_filter. rewrite Forall_forall in Hidx.
      specialize (Hidx c Hc). unfold in_u64. lia.
  - split; simpl; [lia|rewrite length_replicate; lia| |lia]. intros t Ht. by apply not_elem_of_nil in Ht.
  - done.
  - done.
  - unfold remaining. simpl. lia.
  - exists s'. split; [|done]. unfold Data.fetch_pieces. simpl Data.rp_last. simpl Data.rp_first.
    unwrap. erewrite bind_Ok by exact Hf. unfold mret, M_ret. do 3 f_equal. simpl.
    replace (slice data offset (offset + size)) with (slice data offset (Z.min (offset + size) ((first + (last + 1 - first)) * cs)))
      by (f_equal; nia).
    rewrite <-(Z2Nat.id (last + 1 - first)) by lia. unfold first at 3. rewrite <-concat_range by (fold first; nia).
    f_equal. fold first. apply list_fmap_ext. intros k i Hk. apply lookup_seqZ in Hk as [-> Hk].
    destruct (Hwant (first + Z.of_nat k) ltac:(lia)) as (Hf1 & Hf2 & Hf3).
    unfold expected. rewrite Hf1, Hf2. set (i := first + Z.of_nat k) in *.
    assert (i * cs < offset + size) by nia. assert (offset < i * cs + cs) by nia.
    apply getb_ext; rewrite ?len_slice, ?len_resize; [lia|]. intros x Hx.
    rewrite !getb_slice, getb_resize by lia.
    replace ((0 <=? x) && (x <? _)) with true by lia. replace ((0 <=? x) && (x <? _)) with true by lia.
    replace (_ <? _) with true by lia. rewrite Hlaid by lia. f_equal. lia.
Qed.

Lemma read_bytes_ok w sched id data offset size :
  Inv w -> Repr state (repo w) (objs w) id data ->
  (forall o, offset = Some o -> 0 <= o) -> (forall s, size = Some s -> 0 <= s) ->
  exists s' committed, Data.read_bytes state sched id offset size w
      = (Ok (read_flat data offset size, committed), set_store w s') /\ Store.keeps s' (objs w) /\
    (read_flat data offset size <> [] -> committed = true <-> forall v, ~ open_version (repo w) id v).
Proof.
  intros [Hk [_ _ Hsd]] [Hsz (n & Hn & Hkind & Hlen & Hver)] Hoff Hsize. pose proof (len_nonneg data).
  assert (0 <= default 0 offset) by (destruct offset; simpl; [by apply Hoff|lia]).
  assert (Hw : w = set_store w (store w)) by (by destruct w).
  unfold Data.read_bytes. erewrite bind_Ok; [|unfold query, get_node; by rewrite Hn].
  rewrite bool_decide_false by done. rewrite Hlen, (Z.max_l (len data)) by lia. set (off := default 0 offset) in *.
  unfold read_flat. fold off.
  destruct (Z.leb_spec (len data) off) as [|Hlt].
  { exists (store w), true. rewrite <-Hw. rewrite slice_empty by (destruct size; lia). by split_and?. }
  set (sz := Z.min (default (len data - off) size) (len data - off)).
  replace (match size with Some s => Z.min (off + s) (len data) | None => len data end) with (off + sz)
    by (destruct size; simpl in *; lia).
  destruct (Z.eqb_spec sz 0) as [H0'|Hnz].
  { exists (store w), true. rewrite <-Hw. rewrite slice_empty by lia. done. }
  assert (0 < sz) by (destruct size as [s|] eqn:Hs; simpl in *; [specialize (Hsize s eq_refl)|]; lia).
  destruct Hver as [(v & Hopen & Hu & Hvs & Hst)|[Hnone Hcur]].
  - erewrite bind_Ok by reflexivity. rewrite (find_open_unique _ id v) by done.
    destruct (read_version_ok w sched v false data off sz Hsd Hst) as (s' & Hr & Hs'); try lia.
    exists s', false. split; [exact Hr|]. split; [done|]. intros _. split; [done|]. intros Hno. by destruct (Hno v).
  - erewrite bind_Ok by reflexivity. rewrite find_open_none by done.
    destruct (n_current_version_id n) as [vid|]; [|subst data; simpl in *; rewrite len_nil in *; lia].
    destruct Hcur as (v & Hv & Hvid & Hid & _ & Hst).
    erewrite bind_Ok; [|unfold query, get_version; by rewrite Hv].
    destruct (read_version_ok w sched v true data off sz Hsd Hst) as (s' & Hr & Hs'); try lia.
    exists s', true. split; [done|]. by split.
Qed.

End Read.
End ReadFacts.
