(* ===== verification/Example.v ===== *)
(** * A small server to evaluate

    The concrete world the witnesses and the examples run in: the in-memory
    backends, chunks of four bytes, and one empty file. *)
From Stdlib.Strings Require String.
From S2P Require Import Prelude Crypto ObjectStore Repository Locks Server Data DataSpec DataWrite.

Module Example.
Import Records AppState.

#[export] Existing Instances ToyAead.toy ToyAead.toy_laws
  MemoryObjectStore.memory_store MemoryObjectStore.memory_store_laws.
#[export] Instance object_limit : Store.StoreLimit := 1024.

Definition config : Config := AppState.new (zeroes 32) 4.
Definition root : Uuid := 1.
Definition file : Uuid := 2.
Definition world (r : MemoryRepo.Repo) : World MemoryObjectStore.t :=
  {| repo := r; store := MemoryObjectStore.new; locks := Locks.new; clock := Z.of_nat; ticks := 10;
     uuids := fun n => N.of_nat (100 + n); drawn := 0 |}.
Definition empty_file : World MemoryObjectStore.t :=
  world (MemoryRepo.create_node 0 file root [x61] "file" 420 0 0 (MemoryRepo.new root 0)).2.

Definition text (s : string) : bytes := String.list_byte_of_string s.

Import MemoryRepo Spec.

(** A file no version has been made for is empty. *)
Lemma new_file_repr `{Aead} `{Store.StoreLimit} state r o id n :
  nodes r !! id = Some n -> n_kind n <> "directory"%string -> n_size n = 0 -> n_current_version_id n = None ->
  versions r = ∅ -> Repr state r o id [].
Proof.
  intros Hn Hk Hs Hc Hv. split; [rewrite len_nil; lia|]. exists n. split_and!; try done. right.
  rewrite Hc. split; [|done]. intros v (Hlook & _). rewrite Hv in Hlook. by rewrite lookup_empty in Hlook.
Qed.

Lemma config_fits : chunk_fits (chunk_size config).
Proof. by split. Qed.

Lemma example_inv : Inv empty_file.
Proof.
  assert (Hn : exists n1 n0, nodes (repo empty_file) = <[file := n1]> {[ root := n0 ]} /\
    n_id n1 = file /\ n_id n0 = root /\ n_current_version_id n1 = None /\ n_current_version_id n0 = None).
  { do 2 eexists. split; [reflexivity|]. by split_and!. }
  destruct Hn as (n1 & n0 & Hn & Hi1 & Hi0 & Hc1 & Hc0).
  assert (Hlook : forall k n, nodes (repo empty_file) !! k = Some n -> n_id n = k /\ n_current_version_id n = None).
  { intros k n. rewrite Hn, lookup_insert. case_decide; [intros [= <-]; by subst|].
    rewrite lookup_singleton. case_decide; [intros [= <-]; by subst|done]. }
  split; [split|split].
  - intros k v Hv. change (versions (repo empty_file)) with (∅ : gmap Uuid FileVersionRecord) in Hv.
    by rewrite lookup_empty in Hv.
  - intros k n Hk. by apply Hlook in Hk as [? _].
  - intros k n vid Hk. apply Hlook in Hk as [_ ->]. done.
  - intros k v Hv. change (versions (repo empty_file)) with (∅ : gmap Uuid FileVersionRecord) in Hv.
    by rewrite lookup_empty in Hv.
  - simpl. lia.
  - intros n _. split_and!; reflexivity.
  - done.
Qed.

Lemma example_repr : Repr config (repo empty_file) (objs empty_file) file [].
Proof. eapply new_file_repr; [reflexivity|vm_compute; discriminate|reflexivity|reflexivity|reflexivity]. Qed.

(** The example file after a write that is still open. *)
Definition written : World MemoryObjectStore.t :=
  (Data.write_locked config file 0 (text "hello") empty_file).2.

Lemma written_ok : Inv written /\ Repr config (repo written) (objs written) file (text "hello").
Proof.
  destruct (WriteFacts.write_locked_ok config config_fits empty_file file [] 0 (text "hello"))
    as (w' & Hw & HI & _ & HR);
    [apply example_inv|apply example_repr|lia|vm_compute; reflexivity|vm_compute; reflexivity|].
  unfold written. rewrite Hw. by split.
Qed.

End Example.
