(* ===== verification/DataProps.v ===== *)
(** * Reading and writing files: the properties

    The byte API against the flat file: what a write, a read and a sync do to the
    file they are given and to every other file. *)
From Stdlib.Strings Require String.
From S2P Require Import Prelude Crypto ObjectStore Repository Locks Server Data DataSpec DataWrite DataRead Example.

Module DataProps.
Import Records MemoryRepo AppState Spec SpecFacts WriteFacts ReadFacts Example.

Section Props.
Context `{AeadLaws} `{HashOrder} {S : Type} `{Store.ObjectStoreLaws S} (state : Config).

Lemma write_bytes_ok (w : World S) id data offset body :
  chunk_fits (chunk_size state) ->
  Inv w -> Repr state (repo w) (objs w) id data -> 0 <= offset -> offset + len body < 2 ^ 62 ->
  exists w', Data.write_bytes state id offset body w = (Ok (len body), w') /\ Inv w' /\ touches id w w' /\
    Repr state (repo w') (objs w') id (write_flat data offset body).
Proof.
  intros Hcfg HI HR Hoff Hend. unfold Data.write_bytes. case_bool_decide as Hb.
  { subst body. exists w. unfold write_flat. rewrite bool_decide_true by done. by split_and!. }
  assert (0 < len body) by (destruct body; [done|]; rewrite len_cons; pose proof (len_nonneg body); lia).
  apply (with_write_lock_ok w id _ _ (fun w' => Inv w' /\ touches id w w' /\
    Repr state (repo w') (objs w') id (write_flat data offset body))). intros l.
  destruct (write_locked_ok state Hcfg (set_locks w l) id data offset body (Inv_ext w (set_locks w l) eq_refl eq_refl eq_refl eq_refl HI) HR) as (w' & Hw' & HI' & Ht & HR'); try done.
  exists w'. split; [done|]. intros l'. split; [by apply (Inv_ext w')|]. split; [by destruct Ht|done].
Qed.

Lemma commit_node_ok (w : World S) id data :
  Inv w -> Repr state (repo w) (objs w) id data ->
  exists w', Data.commit_node id w = (Ok tt, w') /\ Inv w' /\ touches id w w' /\
    Repr state (repo w') (objs w') id data /\ (forall v, ~ open_version (repo w') id v).
Proof.
  intros HI HR. pose proof HR as [_ (n & Hn & _)]. unfold Data.commit_node.
  erewrite bind_Ok; [|unfold query, get_node; by rewrite Hn].
  apply (with_write_lock_ok w id _ tt (fun w' => Inv w' /\ touches id w w' /\
    Repr state (repo w') (objs w') id data /\ _)). intros l.
  destruct (commit_ok state (set_locks w l) id data (Inv_ext w (set_locks w l) eq_refl eq_refl eq_refl eq_refl HI) HR) as (b & w' & Hw' & HI' & Ht & HR' & Hno).
  exists w'. split; [by erewrite bind_Ok by exact Hw'|]. intros l'. split; [by apply (Inv_ext w')|]. split; [by destruct Ht|done].
Qed.

(** C1 Writing. [write_bytes] takes the whole body and leaves a file whose content is
    the flat file with the body written at the offset (extended with zeroes when
    the offset is past the end), and no other file changes. Part sizes,
    partial and whole-part overwrites, holes, the stale tail and the periodic
    commit are all inside the statement. *)
Theorem write_bytes_refines (w : World S) id data offset body :
  chunk_fits (chunk_size state) ->
  Inv w -> Repr state (repo w) (objs w) id data -> 0 <= offset -> offset + len body < 2 ^ 62 ->
  exists w', Data.write_bytes state id offset body w = (Ok (len body), w') /\ Inv w' /\
    Repr state (repo w') (objs w') id (write_flat data offset body) /\
    forall id2 data2, id2 <> id -> Repr state (repo w) (objs w) id2 data2 ->
      Repr state (repo w') (objs w') id2 data2.
Proof.
  intros Hcfg HI HR Hoff Hend.
  destruct (write_bytes_ok w id data offset body Hcfg HI HR Hoff Hend) as (w' & Hw & HI' & Ht & HR').
  exists w'. split_and!; try done. intros id2 data2 Hne. by apply (Repr_frame state w w' id).
Qed.

(** C2 Reading. [read_bytes] returns exactly the bytes of the file in the requested
    range, cut at its end, whatever order the parts are fetched in and however
    many are fetched at once; it changes nothing, and it reports the bytes as
    committed exactly when no write is in progress. *)
Theorem read_bytes_refines (w : World S) sched id data offset size :
  1 <= parallel_chunk_fetches state ->
  Inv w -> Repr state (repo w) (objs w) id data ->
  (forall o, offset = Some o -> 0 <= o) -> (forall s, size = Some s -> 0 <= s) ->
  exists w' committed, Data.read_bytes state sched id offset size w
      = (Ok (read_flat data offset size, committed), w') /\ repo w' = repo w /\ objs w' = objs w /\
    (read_flat data offset size <> [] -> committed = true <-> forall v, ~ open_version (repo w) id v).
Proof.
  intros Hpar HI HR Hoff Hsize.
  destruct (read_bytes_ok state Hpar w sched id data offset size HI HR Hoff Hsize) as (s' & c & Hr & [_ Hs] & Hc).
  by exists (set_store w s'), c.
Qed.

(** What was written is read back: a read of the range just written returns the
    body, through any sequence of parts. *)
Theorem write_then_read (w : World S) sched id data offset body :
  chunk_fits (chunk_size state) -> 1 <= parallel_chunk_fetches state ->
  Inv w -> Repr state (repo w) (objs w) id data -> 0 <= offset -> offset + len body < 2 ^ 62 ->
  exists w' committed, (_ ← Data.write_bytes state id offset body;
      Data.read_bytes state sched id (Some offset) (Some (len body))) w = (Ok (body, committed), w').
Proof.
  intros Hcfg Hpar HI HR Hoff Hend. destruct (decide (body = [])) as [->|Hb].
  { destruct (read_bytes_ok state Hpar w sched id data (Some offset) (Some 0) HI HR) as (s' & c & Hr & _); [naive_solver lia..|].
    exists (set_store w s'), c. erewrite bind_Ok by reflexivity. rewrite len_nil, Hr. do 3 f_equal.
    unfold read_flat. simpl. apply slice_empty. lia. }
  assert (0 < len body) by (destruct body; [done|]; rewrite len_cons; pose proof (len_nonneg body); lia).
  destruct (write_bytes_ok w id data offset body Hcfg HI HR Hoff Hend) as (w1 & Hw1 & HI1 & _ & HR1).
  destruct (read_bytes_ok state Hpar w1 sched id _ (Some offset) (Some (len body)) HI1 HR1) as (s' & c & Hr & _);
    [naive_solver lia..|].
  exists (set_store w1 s'), c. erewrite bind_Ok by exact Hw1. rewrite Hr. do 3 f_equal. unfold read_flat. simpl.
  rewrite len_write_flat, Z.min_l by lia || done. apply getb_ext; rewrite len_slice, len_write_flat by done; [lia|].
  intros i Hi. rewrite getb_slice, getb_write_flat by done. rewrite Z.add_simpl_l.
  destruct ((0 <=? i) && (i <? len body)) eqn:E1; [|lia].
  destruct ((offset <=? offset + i) && (offset + i <? offset + len body)) eqn:E2; [|lia]. f_equal. lia.
Qed.

(** C3 Closing. [commit_node] commits the write in progress: the file's content is
    what it was, it now belongs to a committed version and no write is open, and
    no other file changes. *)
Theorem commit_node_refines (w : World S) id data :
  Inv w -> Repr state (repo w) (objs w) id data ->
  exists w', Data.commit_node id w = (Ok tt, w') /\ Inv w' /\
    Repr state (repo w') (objs w') id data /\ (forall v, ~ open_version (repo w') id v) /\
    forall id2 data2, id2 <> id -> Repr state (repo w) (objs w) id2 data2 ->
      Repr state (repo w') (objs w') id2 data2.
Proof.
  intros HI HR. destruct (commit_node_ok w id data HI HR) as (w' & Hw & HI' & Ht & HR' & Hno).
  exists w'. split_and!; try done. intros id2 data2 Hne. by apply (Repr_frame state w w' id).
Qed.

(** A write, a sync, and later a read of the whole file, from a store that holds the same
    objects. *)
Lemma write_sync_ok (w : World S) id data offset body :
  chunk_fits (chunk_size state) -> Inv w -> Repr state (repo w) (objs w) id data -> 0 <= offset -> offset + len body < 2 ^ 62 ->
  exists w1 w', Data.write_bytes state id offset body w = (Ok (len body), w1) /\ Data.commit_node id w1 = (Ok tt, w') /\
    Inv w' /\ Repr state (repo w') (objs w') id (write_flat data offset body) /\ (forall v, ~ open_version (repo w') id v).
Proof.
  intros Hfits HI HR Hoff Hend. destruct (write_bytes_ok w id data offset body Hfits HI HR Hoff Hend) as (w1 & Hw1 & HI1 & _ & HR1).
  destruct (commit_node_ok w1 id _ HI1 HR1) as (w2 & Hw2 & HI2 & _ & HR2 & Hno). by exists w1, w2.
Qed.
Lemma read_whole_ok (w : World S) sched id data : 1 <= parallel_chunk_fetches state ->
  Inv w -> Repr state (repo w) (objs w) id data -> data <> [] -> (forall v, ~ open_version (repo w) id v) ->
  exists s', Data.read_bytes state sched id None None w = (Ok (data, true), set_store w s') /\ Store.keeps s' (objs w).
Proof.
  intros Hpar HI HR Hne Hno. destruct (read_bytes_ok state Hpar w sched id _ None None HI HR) as (s' & c & Hr & Hs & Hc); [done..|].
  exists s'. unfold read_flat in Hr, Hc. simpl in Hr, Hc. rewrite slice_all in Hr, Hc. rewrite Hr.
  assert (c = true) as -> by (by apply Hc). done.
Qed.

End Props.

(** *** Witnesses *)

Lemma write_bytes_refines_witness :
  exists w', Data.write_bytes config file 2 (text "hello") empty_file = (Ok 5, w') /\
    Repr config (repo w') (objs w') file (zeroes 2 ++ text "hello").
Proof.
  destruct (write_bytes_refines config empty_file file [] 2 (text "hello")) as (w' & Hw & _ & HR & _);
    [exact config_fits|apply example_inv|apply example_repr|lia|vm_compute; auto|].
  exists w'. split; [exact Hw|exact HR].
Defined.

Lemma read_bytes_refines_witness :
  exists w' committed, Data.read_bytes config (fun n => n) file (Some 1) (Some 9) written = (Ok (text "ello", committed), w').
Proof.
  destruct written_ok as [HI HR].
  destruct (read_bytes_refines config written (fun n => n) file (text "hello") (Some 1) (Some 9)) as (w' & c & Hr & _);
    [vm_compute; discriminate|exact HI|exact HR|intros ? [= <-]; lia|intros ? [= <-]; lia|].
  exists w', c. exact Hr.
Defined.

Lemma write_then_read_witness : exists w' committed,
  (_ ← Data.write_bytes config file 3 (text "hello");
   Data.read_bytes config (fun n => n) file (Some 3) (Some 5)) empty_file = (Ok (text "hello", committed), w').
Proof.
  apply (write_then_read config empty_file (fun n => n) file [] 3 (text "hello"));
    [exact config_fits|vm_compute; discriminate|apply example_inv|apply example_repr|lia|vm_compute; auto].
Defined.

Lemma commit_node_refines_witness : exists w', Data.commit_node file written = (Ok tt, w') /\
  Repr config (repo w') (objs w') file (text "hello") /\ (forall v, ~ open_version (repo w') file v).
Proof.
  destruct written_ok as [HI HR].
  destruct (commit_node_refines config written file (text "hello")) as (w' & Hw & _ & HR' & Hno & _);
    [exact HI|exact HR|]. exists w'. split; [exact Hw|split; [exact HR'|exact Hno]].
Defined.

End DataProps.
