(* ===== verification/FsStore.v ===== *)
(** * The object store in a directory

    Models [src/crates/dcfs-objectstore/src/fs.rs]. The directory is the files in its
    sub-directories, each with its bytes and the time it was written; every operation on
    it may fail ([faults]), a write after part of the bytes are in the file. A process
    that dies in the middle of an operation is one whose operations all fail from some
    point on. Reads of a file give as many bytes at a time as they like. *)
From Stdlib.Strings Require Import Ascii.
From Stdlib.Strings Require String.
From S2P Require Import Prelude Crypto ObjectStore.

Module FsObjectStore.
Import Store.

(** [std::io::Error]: its kind, and what it displays. *)
Inductive IoError : Type :=
| Missing (* [ErrorKind::NotFound] *)
| Other (msg : string).

(** A directory of the root, and a name in it. *)
Abbreviation path := (string * string)%type (only parsing).

(** What fails, though nothing is missing; of a write, how much was written, when the file
    was opened at all. *)
Record Fault : Type := { error : string; written : option Z }.

Record t : Type := {
  dirs : gset string;
  files : gmap (string * string) (bytes * Z);
  faults : nat -> option Fault;
  ops : nat;
  clock : nat -> Z; (* the time at each operation *)
  reads : nat -> Z; (* the bytes a read gives, at most *)
}.
Definition with_disk (s : t) (ds : gset string) (fs : gmap (string * string) (bytes * Z)) : t :=
  {| dirs := ds; files := fs; faults := faults s; ops := ops s; clock := clock s; reads := reads s |}.
Definition count (s : t) : t :=
  {| dirs := dirs s; files := files s; faults := faults s; ops := S (ops s); clock := clock s; reads := reads s |}.

(** ** Files *)

Definition io {A} (fails : Fault -> t -> t) (f : t -> result IoError A * t) (s : t) : result IoError A * t :=
  match faults s (ops s) with
  | Some e => (Err (Other (error e)), count (fails e s))
  | None => let '(r, s') := f s in (r, count s')
  end.
Definition unchanged (_ : Fault) (s : t) : t := s.
Definition found {A} (p : string * string) (f : bytes * Z -> A) (s : t) : result IoError A * t :=
  (ok_or (f <$> files s !! p) Missing, s).

Definition create_dir_all (d : string) : t -> result IoError unit * t :=
  io unchanged (fun s => (Ok tt, with_disk s ({[ d ]} ∪ dirs s) (files s))).
Definition try_exists (p : string * string) : t -> result IoError bool * t :=
  io unchanged (fun s => (Ok (bool_decide (is_Some (files s !! p))), s)).
Definition save (p : string * string) (data : bytes) (s : t) : t :=
  if bool_decide (p.1 ∈ dirs s) then with_disk s (dirs s) (<[p := (data, clock s (ops s))]> (files s)) else s.
Definition write (p : string * string) (data : bytes) : t -> result IoError unit * t :=
  io (fun e s => match written e with Some k => save p (ztake k data) s | None => s end)
    (fun s => (if bool_decide (p.1 ∈ dirs s) then Ok tt else Err Missing, save p data s)).
Definition rename (p q : string * string) : t -> result IoError unit * t :=
  io unchanged (fun s => match files s !! p with
    | Some f => (Ok tt, with_disk s (dirs s) (<[q := f]> (base.delete p (files s))))
    | None => (Err Missing, s)
    end).
Definition read_all (p : string * string) : t -> result IoError bytes * t := io unchanged (found p fst).
Definition remove_file (p : string * string) : t -> result IoError unit * t :=
  io unchanged (fun s => match files s !! p with
    | Some _ => (Ok tt, with_disk s (dirs s) (base.delete p (files s)))
    | None => (Err Missing, s)
    end).
(** The length and the time of a file. *)
Definition metadata (p : string * string) : t -> result IoError (Z * Z) * t :=
  io unchanged (found p (fun f => (len f.1, f.2))).
(** An open file is its bytes: nothing writes into one. *)
Definition open_file (p : string * string) : t -> result IoError bytes * t := io unchanged (found p fst).
(** Offsets of files are signed. *)
Definition seek (offset : Z) : t -> result IoError unit * t :=
  io unchanged (fun s => (if offset <? 2 ^ 63 then Ok tt else Err (Other "Invalid argument"), s)).
(** [read] at a position, into room for [room] bytes: at least one, when there are any. *)
Definition read_at (file : bytes) (at_ room : Z) : t -> result IoError bytes * t :=
  io unchanged (fun s => (Ok (ztake (Z.min room (Z.max 1 (reads s (ops s)))) (zdrop at_ file)), s)).

(** ** The store *)

(** The hexadecimal digits of a UUID; of a number that has more than sixteen bytes, which
    none is, what is above them follows. *)
Definition simple (id : ObjectId) : string :=
  String.append (Crypto.to_hex (uuid_bytes id)) (String.string_of_list_ascii (replicate (N.to_nat (id / 2 ^ 128)) "x"%char)).
Definition path_of (id : ObjectId) : string * string := (String.substring 0 2 (simple id), simple id).
(** [with_extension]: the name of an object has none. *)
Definition with_extension (ext : string) (p : string * string) : string * string :=
  (p.1, String.append p.2 (String.append "." ext)).
Arguments path_of : simpl never.
Arguments with_extension : simpl never.
Definition io_err (e : IoError) (id : ObjectId) : ObjectStoreError :=
  match e with Missing => NotFound id | Other msg => Backend msg end.

Definition M (A : Type) : Type := t -> outcome t A.
#[global] Instance fs_ret : MRet M := fun A a s => (Ok a, s).
#[global] Instance fs_bind : MBind M := fun A B f m s =>
  match m s with
  | (Ok a, s') => f a s'
  | (Err e, s') => (Err e, s')
  end.
(** [.await.map_err(|e| io_err(e, id))?]. *)
Definition lift {A} (id : ObjectId) (m : t -> result IoError A * t) : M A := fun s =>
  let '(r, s') := m s in (map_err (fun e => io_err e id) r, s').
Definition fail {A} (e : ObjectStoreError) : M A := fun s => (Err e, s).

Definition created_at (p : string * string) (s : t) : Z * t :=
  match metadata p s with
  | (Ok (_, time), s') => (time, s')
  | (Err _, s') => (clock s' (ops s'), s')
  end.

Definition put (now : Z) (id : ObjectId) (data : bytes) : M StoredObject :=
  let p := path_of id in
  _ ← lift id (create_dir_all p.1);
  there ← ((fun s => match try_exists p s with (Ok b, s') => (Ok b, s') | (Err _, s') => (Ok false, s') end) : M bool);
  if there : bool then fail (AlreadyExists id) else
  let temp := with_extension "partial" p in
  _ ← lift id (write temp data);
  _ ← lift id (rename temp p);
  mret {| so_id := id; so_size := len data; so_created_at := now |}.

Definition get (id : ObjectId) : M bytes := lift id (read_all (path_of id)).

(** Reading until the buffer of [l] bytes is full or the file ends; a turn that goes on
    adds at least one byte. *)
Fixpoint fill (fuel : nat) (id : ObjectId) (file : bytes) (offset l : Z) (buf : bytes) : M bytes :=
  if l <=? len buf then mret buf else
  match fuel with
  | O => mret buf
  | S fuel =>
      got ← lift id (read_at file (offset + len buf) (l - len buf));
      if len got =? 0 then mret buf else fill fuel id file offset l (buf ++ got)
  end.
Definition get_range (id : ObjectId) (offset l : Z) : M bytes :=
  file ← lift id (open_file (path_of id));
  _ ← lift id (seek offset);
  fill (Z.to_nat l) id file offset l [].

Definition delete (id : ObjectId) : M unit := fun s =>
  match remove_file (path_of id) s with
  | (Ok _, s') => (Ok tt, s')
  | (Err Missing, s') => (Ok tt, s')
  | (Err e, s') => (Err (io_err e id), s')
  end.

Definition stat (id : ObjectId) : M StoredObject :=
  m ← lift id (metadata (path_of id));
  time ← ((fun s => let '(time, s') := created_at (path_of id) s in (Ok time, s')) : M Z);
  mret {| so_id := id; so_size := m.1; so_created_at := time |}.

#[export] Instance fs_store : ObjectStore t := {|
  Store.put := put; Store.put_for := fun now id data _ => put now id data;
  Store.get := get; Store.get_range := get_range; Store.delete := delete; Store.stat := stat |}.

End FsObjectStore.
