(* ===== verification/FsProps.v ===== *)
(** * The object store in a directory: what it keeps

    Proofs about [FsStore]: whatever operations on the directory fail, and wherever the
    process dies, an object is there whole or not at all; while none fails the directory
    is an object store as the server expects one. *)
From Stdlib.Strings Require Import Ascii.
From Stdlib.Strings Require String.
From S2P Require Import Prelude Crypto ObjectStore FsStore.

Module FsFacts.
Import Store FsObjectStore.

(** ** Names *)

Definition hex_value (a : ascii) : Z := let n := Z.of_N (N_of_ascii a) in if n <? 58 then n - 48 else n - 87.
(** The first [k] bytes in hexadecimal, and the rest. *)
Fixpoint of_hex (k : nat) (s : string) : bytes * string :=
  match k, s with
  | S k, String a (String b s) => let '(l, rest) := of_hex k s in (byte_of_Z (hex_value a * 16 + hex_value b) :: l, rest)
  | _, _ => ([], s)
  end.
Definition id_of (name : string) : ObjectId :=
  let '(l, rest) := of_hex 16 name in (Z.to_N (from_le_bytes (rev l)) + 2 ^ 128 * N.of_nat (String.length rest))%N.

Lemma hex_value_digit n : 0 <= n < 16 -> hex_value (Crypto.hex_digit n) = n.
Proof.
  intros Hn. assert (Hin : n ∈ seqZ 0 16) by (apply elem_of_seqZ; lia). revert Hin. clear Hn. vm_compute seqZ.
  intros Hin. repeat (apply elem_of_cons in Hin as [->|Hin]; [reflexivity|]). by apply not_elem_of_nil in Hin.
Qed.
Lemma of_to_hex l rest : of_hex (length l) (String.append (Crypto.to_hex l) rest) = (l, rest).
Proof.
  induction l as [|b l IH]; [done|]. simpl. rewrite IH. pose proof (byte_to_Z_range b).
  rewrite !hex_value_digit by (pose proof (Z.mod_pos_bound (byte_to_Z b) 16); pose proof (Z.div_lt_upper_bound (byte_to_Z b) 16 16);
    pose proof (Z.div_pos (byte_to_Z b) 16); lia).
  rewrite Z.mul_comm, <-Z.div_mod by lia. pose proof (byte_of_to_Z b 0) as Hb. rewrite Z.mul_0_r, Z.add_0_r in Hb. by rewrite Hb.
Qed.
Definition surplus (id : ObjectId) : string := String.string_of_list_ascii (replicate (N.to_nat (id / 2 ^ 128)) "x"%char).
Lemma of_hex_simple id rest : of_hex 16 (String.append (simple id) rest) = (uuid_bytes id, String.append (surplus id) rest).
Proof.
  unfold simple. fold (surplus id).
  rewrite append_assoc. replace 16%nat with (length (uuid_bytes id)); [apply of_to_hex|]. unfold uuid_bytes. rewrite length_rev.
  pose proof (len_le_bytes 16 (Z.of_N id)) as Hl. unfold len in Hl. lia.
Qed.
Lemma length_of_list l : String.length (String.string_of_list_ascii l) = length l.
Proof. induction l; simpl; congruence. Qed.
Lemma append_nil s : String.append s EmptyString = s.
Proof. induction s as [|x s IH]; [done|]. by rewrite append_cons, IH. Qed.
Lemma id_of_simple id : id_of (simple id) = id.
Proof.
  unfold id_of. rewrite <-(append_nil (simple id)), of_hex_simple, append_nil. unfold surplus. rewrite length_of_list, length_replicate.
  unfold uuid_bytes. rewrite rev_involutive, from_le_bytes_le_bytes. change (256 ^ Z.of_nat 16) with (Z.of_N (2 ^ 128)).
  rewrite <-N2Z.inj_mod, N2Z.id, N2Nat.id. pose proof (N.div_mod id (2 ^ 128)). lia.
Qed.
Lemma path_of_inj id1 id2 : path_of id1 = path_of id2 -> id1 = id2.
Proof. intros Heq%(f_equal snd). rewrite <-(id_of_simple id1), <-(id_of_simple id2). by f_equal. Qed.
Lemma list_of_append a b : String.list_ascii_of_string (String.append a b) = String.list_ascii_of_string a ++ String.list_ascii_of_string b.
Proof. induction a as [|x a IH]; [done|]. rewrite append_cons. simpl. by rewrite IH. Qed.
(** No object has the name of a partial one. *)
Lemma temp_is_no_object id1 id2 : with_extension "partial" (path_of id1) <> path_of id2.
Proof.
  intros Heq%(f_equal snd). unfold with_extension, path_of in Heq. cbn [snd] in Heq. apply (f_equal (of_hex 16)) in Heq.
  rewrite of_hex_simple, <-(append_nil (simple id2)), of_hex_simple, append_nil in Heq.
  apply (f_equal snd) in Heq. cbn [snd] in Heq. apply (f_equal String.list_ascii_of_string) in Heq. rewrite list_of_append in Heq. unfold surplus in Heq.
  rewrite !String.list_ascii_of_string_of_list_ascii in Heq.
  assert (Hin : "."%char ∈ replicate (N.to_nat (id2 / 2 ^ 128)) "x"%char) by (rewrite <-Heq; apply elem_of_app; right; simpl; set_solver).
  apply elem_of_replicate in Hin as [? _]. done.
Qed.

(** ** The objects of a directory *)

Definition held (s : t) : gmap ObjectId bytes :=
  map_imap (fun id _ => fst <$> files s !! path_of id)
    (gset_to_gmap tt (set_map (C := gset (string * string)) (D := gset ObjectId) (id_of ∘ snd) (dom (files s)))).
Lemma fs_held_lookup s id : held s !! id = fst <$> files s !! path_of id.
Proof.
  unfold held. rewrite map_lookup_imap, lookup_gset_to_gmap. destruct (files s !! path_of id) as [f|] eqn:Hf; simpl.
  - rewrite option_guard_True; [done|]. apply elem_of_map. exists (path_of id). simpl. rewrite id_of_simple. split; [done|].
    apply elem_of_dom. by eexists.
  - by case_guard.
Qed.
Lemma held_ext s s' : (forall id, files s' !! path_of id = files s !! path_of id) -> held s' = held s.
Proof. intros Hf. apply map_eq. intros id. by rewrite !fs_held_lookup, Hf. Qed.
Lemma held_same s s' : files s' = files s -> held s' = held s.
Proof. intros Hf. apply held_ext. by rewrite Hf. Qed.

(** ** Operations that fail or not *)

Definition quiet (s : t) : Prop := forall n, (ops s <= n)%nat -> faults s n = None.
Lemma io_cases {A} fails (f : t -> result IoError A * t) s r s' : io fails f s = (r, s') ->
  (exists e, faults s (ops s) = Some e /\ r = Err (Other (error e)) /\ s' = count (fails e s)) \/
  (faults s (ops s) = None /\ r = (f s).1 /\ s' = count (f s).2).
Proof.
  unfold io. destruct (faults s (ops s)) as [e|]; [intros [= <- <-]; left; by exists e|].
  destruct (f s) as [r0 s0]. intros [= <- <-]. by right.
Qed.
Lemma io_quiet {A} fails (f : t -> result IoError A * t) s : quiet s -> io fails f s = ((f s).1, count (f s).2).
Proof. intros Hq. unfold io. rewrite Hq by done. by destruct (f s). Qed.
Lemma fs_bind_Ok {A B} (m : M A) (f : A -> M B) s a s' : m s = (Ok a, s') -> (m ≫= f) s = f a s'.
Proof. intros Hm. unfold mbind, fs_bind. by rewrite Hm. Qed.
Lemma bind_cases {A B} (m : M A) (f : A -> M B) s r s' : (m ≫= f) s = (r, s') ->
  (exists a s1, m s = (Ok a, s1) /\ f a s1 = (r, s')) \/ (exists e, m s = (Err e, s') /\ r = Err e).
Proof.
  unfold mbind, fs_bind. destruct (m s) as [[a|e] s1]; [left; by exists a, s1|]. intros [= <- <-]. right. by exists e.
Qed.
Lemma lift_cases {A} id (m : t -> result IoError A * t) s r s' : lift id m s = (r, s') ->
  exists r0, m s = (r0, s') /\ r = map_err (fun e => io_err e id) r0.
Proof. unfold lift. destruct (m s) as [r0 s1]. intros [= <- <-]. by exists r0. Qed.

(** What only looks. *)
Definition looks {A} (m : t -> result IoError A * t) : Prop := forall s r s', m s = (r, s') -> files s' = files s.
Lemma io_looks {A} (f : t -> result IoError A * t) : (forall s, files (f s).2 = files s) -> looks (io unchanged f).
Proof. intros Hf s r s' [(e & _ & _ & ->)|(_ & _ & ->)]%io_cases; [done|]. simpl. apply Hf. Qed.
Lemma found_looks {A} p (f : bytes * Z -> A) : looks (io unchanged (found p f)).
Proof. by apply io_looks. Qed.
Lemma lift_looks {A} id (m : t -> result IoError A * t) s r s' : looks m -> lift id m s = (r, s') -> files s' = files s.
Proof. intros Hm (r0 & Hs & _)%lift_cases. by apply Hm in Hs. Qed.
(** What was found is what is there. *)
Lemma found_inv {A} id p (f : bytes * Z -> A) s a s' :
  lift id (io unchanged (found p f)) s = (Ok a, s') -> f <$> files s !! p = Some a.
Proof.
  intros (r0 & Hs & Hr)%lift_cases. apply io_cases in Hs as [(e & _ & -> & _)|(_ & -> & _)]; [done|].
  unfold found in Hr. simpl in Hr. by destruct (f <$> files s !! p); simplify_eq/=.
Qed.

Lemma save_other p data s id : (forall id', p <> path_of id') -> files (save p data s) !! path_of id = files s !! path_of id.
Proof. intros Hp. unfold save. case_bool_decide; [|done]. simpl. apply lookup_insert_ne, Hp. Qed.
Lemma write_temp id data s r s' : write (with_extension "partial" (path_of id)) data s = (r, s') ->
  held s' = held s /\ (r = Ok tt -> exists time, files s' !! with_extension "partial" (path_of id) = Some (data, time)).
Proof.
  intros [(e & _ & -> & ->)|(_ & -> & ->)]%io_cases; cbn [fst snd].
  - split; [|done]. destruct (written e); [|done]. apply held_ext. intros id'. simpl. apply save_other, temp_is_no_object.
  - split; [apply held_ext; intros id'; simpl; apply save_other, temp_is_no_object|]. unfold save.
    destruct (bool_decide _); [|done]. intros _. eexists. apply lookup_insert_eq.
Qed.
Lemma rename_temp id data time s r s' : files s !! with_extension "partial" (path_of id) = Some (data, time) ->
  rename (with_extension "partial" (path_of id)) (path_of id) s = (r, s') ->
  held s' = if is_ok r then <[id := data]> (held s) else held s.
Proof.
  intros Ht [(e & _ & -> & ->)|(_ & -> & ->)]%io_cases; simpl; [done|]. rewrite Ht. simpl. apply map_eq. intros id'.
  rewrite fs_held_lookup. simpl. rewrite lookup_insert. case_decide as Hp.
  - apply path_of_inj in Hp as ->. by rewrite lookup_insert_eq.
  - rewrite lookup_insert_ne by congruence. rewrite lookup_delete_ne by apply temp_is_no_object. by rewrite fs_held_lookup.
Qed.

(** ** The operations *)

Lemma create_dir_looks d : looks (create_dir_all d).
Proof. by apply io_looks. Qed.
(** The check whether an object is there is the second operation of a put. *)
Definition check_fails (s : t) : Prop := faults s (S (ops s)) <> None.
Lemma put_spec now id data s r s' : put now id data s = (r, s') ->
  match r with
  | Ok o => o = {| so_id := id; so_size := len data; so_created_at := now |} /\ held s' = <[id := data]> (held s) /\
      (held s !! id = None \/ check_fails s)
  | Err e => held s' = held s /\ (e = AlreadyExists id -> is_Some (held s !! id)) /\
      (is_Some (held s !! id) -> faults s (ops s) = None -> ~ check_fails s -> e = AlreadyExists id)
  end.
Proof.
  intros [(u & s1 & H1 & Hrun)|(e & H1 & ->)]%bind_cases; pose proof (lift_looks _ _ _ _ _ (create_dir_looks _) H1) as Hf1%held_same;
    apply lift_cases in H1 as (r1 & H1 & Hr1).
  2: { apply io_cases in H1 as [(e0 & He0 & -> & _)|(_ & -> & _)]; [|done]. injection Hr1 as ->.
       split; [done|]. split; [done|]. intros _ Hno. congruence. }
  assert (Hops : faults s1 (ops s1) = faults s (S (ops s))).
  { apply io_cases in H1 as [(e0 & _ & -> & _)|(_ & _ & ->)]; [done|done]. }
  unfold check_fails. rewrite <-Hops, <-Hf1 in *. clear H1 Hf1 Hr1 r1.
  apply bind_cases in Hrun as [(b & s2 & H2 & Hrun)|(e & H2 & _)]; [|by destruct (try_exists _ s1) as [[]]].
  assert (Hb : held s2 = held s1 /\ (b = bool_decide (is_Some (held s1 !! id)) \/ b = false /\ faults s1 (ops s1) <> None)).
  { destruct (try_exists (path_of id) s1) as [b0 s0] eqn:Ht. pose proof (io_looks (fun s => (Ok (bool_decide (is_Some (files s !! path_of id))), s))
      ltac:(done) _ _ _ Ht) as Hf%held_same. apply io_cases in Ht as [(e & He & -> & _)|(_ & -> & _)]; simplify_eq/=.
    - split; [done|]. right. by rewrite He.
    - split; [done|]. left. apply bool_decide_ext. by rewrite fs_held_lookup, fmap_is_Some. }
  destruct Hb as [Hs2 Hb]. destruct b.
  { injection Hrun as <- <-. destruct Hb as [Hb|[? _]]; [|done]. symmetry in Hb. apply bool_decide_eq_true in Hb. by rewrite Hs2. }
  assert (Hfree : held s1 !! id = None \/ faults s1 (ops s1) <> None).
  { destruct Hb as [Hb|[_ ?]]; [left|by right]. symmetry in Hb. apply bool_decide_eq_false in Hb. by apply eq_None_not_Some. }
  rewrite <-Hs2 in *. clear H2 Hb.
  assert (Hbad : forall e, (forall x, e <> AlreadyExists x) -> (e = AlreadyExists id -> is_Some (held s2 !! id)) /\
    (is_Some (held s2 !! id) -> faults s (ops s) = None -> ~ faults s1 (ops s1) <> None -> e = AlreadyExists id)).
  { intros e He. split; [by intros ?%He|]. intros [? Hx]. destruct Hfree; [congruence|done]. }
  apply bind_cases in Hrun as [(u' & s3 & H3 & Hrun)|(e & H3 & ->)]; apply lift_cases in H3 as (r3 & H3 & Hr3);
    pose proof (write_temp _ _ _ _ _ H3) as [Hs3 Ht].
  2: { split; [done|]. apply Hbad. by destruct r3 as [|[]]; simplify_eq/=. }
  destruct r3 as [[]|]; [|done]. destruct (Ht eq_refl) as [time Hfile].
  apply bind_cases in Hrun as [(u2 & s4 & H4 & Hrun)|(e & H4 & ->)]; apply lift_cases in H4 as (r4 & H4 & Hr4);
    apply (rename_temp _ _ _ _ _ _ Hfile) in H4; rewrite Hs3 in H4; destruct r4 as [|e4]; try done.
  - injection Hrun as <- <-. done.
  - split; [done|]. apply Hbad. by destruct e4; simplify_eq/=.
Qed.

Lemma get_looks id s r s' : get id s = (r, s') -> held s' = held s /\ forall d, r = Ok d -> held s !! id = Some d.
Proof.
  intros Hg. split; [by apply held_same, (lift_looks _ _ _ _ _ (found_looks _ _) Hg)|]. intros d ->.
  rewrite fs_held_lookup. by apply found_inv in Hg.
Qed.

Lemma slice_to_end {A} (l : list A) a b c : 0 <= a <= b -> len l <= b -> b <= c -> slice l a b = slice l a c.
Proof. intros. unfold slice. rewrite !ztake_all; [done|rewrite len_zdrop; lia..]. Qed.
(** What a read gives is what follows, and something when there is more. *)
Lemma read_at_inv id file at_ room s d s' : lift id (read_at file at_ room) s = (Ok d, s') -> 0 <= at_ -> 0 < room ->
  d = slice file at_ (at_ + len d) /\ len d <= room /\ (len d = 0 -> len file <= at_).
Proof.
  intros (r & Hr & Hd)%lift_cases Hat Hroom. apply io_cases in Hr as [(e & _ & -> & _)|(_ & -> & _)]; [done|]. simpl in Hd.
  injection Hd as ->. set (n := Z.min room (Z.max 1 (reads s (ops s)))). assert (Hn : 1 <= n <= room) by lia.
  rewrite len_ztake, len_zdrop. split; [|lia]. unfold slice.
  destruct (Z.le_ge_cases n (Z.max 0 (len file - Z.max 0 at_))).
  - f_equal. lia.
  - rewrite !ztake_all; [done|rewrite len_zdrop; lia..].
Qed.
Lemma fill_looks fuel id file offset l buf s r s' : fill fuel id file offset l buf s = (r, s') -> files s' = files s.
Proof.
  revert buf s. induction fuel as [|fuel IH]; intros buf s; simpl; (destruct (l <=? len buf); [by intros [= <- <-]|]); [by intros [= <- <-]|].
  assert (Hl : forall at_ room, looks (read_at file at_ room)) by (intros; by apply io_looks).
  intros [(d & s1 & Hd & Hrun)|(e & Hd & _)]%bind_cases; apply (lift_looks _ _ _ _ _ (Hl _ _)) in Hd; [|done].
  destruct (len d =? 0); [by injection Hrun as <- <-|]. apply IH in Hrun. congruence.
Qed.
Lemma fill_spec fuel id file offset l buf s d s' : fill fuel id file offset l buf s = (Ok d, s') ->
  0 <= offset -> buf = slice file offset (offset + len buf) -> len buf <= l -> l - len buf <= Z.of_nat fuel -> d = slice file offset (offset + l).
Proof.
  revert buf s. induction fuel as [|fuel IH]; intros buf s; simpl; destruct (Z.leb_spec l (len buf)) as [Hl|Hl];
    try (intros [= <- <-] ? Hbuf ? ?; rewrite Hbuf; f_equal; lia).
  intros Hrun Hoff Hbuf Hle Hfuel. apply bind_cases in Hrun as [(got & s1 & Hg & Hrun)|(e & _ & ?)]; [|done].
  pose proof (len_nonneg buf). destruct (read_at_inv _ _ _ _ _ _ _ Hg ltac:(lia) ltac:(lia)) as (Hgot & Hroom & Hend).
  assert (Happ : buf ++ got = slice file offset (offset + len (buf ++ got))).
  { pose proof (len_nonneg got). rewrite len_app, Z.add_assoc. etransitivity; [exact (f_equal2 app Hbuf Hgot)|]. apply slice_split; lia. }
  destruct (Z.eqb_spec (len got) 0) as [H0|H0].
  - injection Hrun as <- <-. rewrite Hbuf. specialize (Hend H0). apply slice_to_end; lia.
  - apply (IH (buf ++ got) s1); try done; rewrite len_app; pose proof (len_nonneg got); lia.
Qed.
Lemma get_range_looks id offset l s r s' : get_range id offset l s = (r, s') ->
  held s' = held s /\ forall d, r = Ok d -> 0 <= offset -> 0 <= l -> exists b, held s !! id = Some b /\ d = slice b offset (offset + l).
Proof.
  assert (Hseek : looks (seek offset)) by (by apply io_looks).
  intros [(file & s1 & H1 & Hrun)|(e & H1 & ->)]%bind_cases; pose proof (lift_looks _ _ _ _ _ (found_looks _ _) H1) as Hf1%held_same; [|done].
  apply bind_cases in Hrun as [(u & s2 & H2 & Hrun)|(e & H2 & ->)]; apply (lift_looks _ _ _ _ _ Hseek), held_same in H2; [|by rewrite H2].
  pose proof (fill_looks _ _ _ _ _ _ _ _ _ Hrun) as Hf3%held_same. split; [congruence|]. intros d -> Hoff Hl. exists file.
  split; [rewrite fs_held_lookup; by apply found_inv in H1|]. apply fill_spec in Hrun; [done|done| |done|rewrite len_nil; lia].
  rewrite len_nil, Z.add_0_r. by rewrite slice_empty by lia.
Qed.
Lemma remove_held id s : files s !! path_of id <> None ->
  held (with_disk s (dirs s) (base.delete (path_of id) (files s))) = base.delete id (held s).
Proof.
  intros Hf. apply map_eq. intros id'. rewrite fs_held_lookup. simpl. rewrite !lookup_delete. case_decide as Hp.
  - apply path_of_inj in Hp as ->. by rewrite decide_True.
  - rewrite decide_False by congruence. by rewrite fs_held_lookup.
Qed.
Lemma fs_delete_spec id s r s' : delete id s = (r, s') -> held s' = if is_ok r then base.delete id (held s) else held s.
Proof.
  unfold delete. destruct (remove_file (path_of id) s) as [r0 s0] eqn:Hr. intros Hd. assert (s' = s0) as -> by (destruct r0 as [|[]]; by injection Hd as _ <-).
  apply io_cases in Hr as [(e & _ & -> & ->)|(_ & -> & ->)].
  - by injection Hd as <-.
  - simpl in *. destruct (files s !! path_of id) as [f|] eqn:Hf; injection Hd as <-; simpl.
    + apply remove_held. congruence.
    + symmetry. apply delete_id. rewrite fs_held_lookup. simpl. by rewrite Hf.
Qed.

Lemma stat_looks id s r s' : stat id s = (r, s') ->
  held s' = held s /\ forall o, r = Ok o -> exists b, held s !! id = Some b /\ so_size o = len b /\ so_id o = id.
Proof.
  intros [(m & s1 & H1 & Hrun)|(e & H1 & ->)]%bind_cases; pose proof (lift_looks _ _ _ _ _ (found_looks _ _) H1) as Hf1%held_same; [|done].
  apply bind_cases in Hrun as [(time & s2 & H2 & Hrun)|(e & H2 & ->)].
  2: { destruct (created_at (path_of id) s1); done. }
  assert (Hs2 : held s2 = held s1).
  { unfold created_at in H2. destruct (metadata (path_of id) s1) as [[[? ?]|] s0] eqn:Hm; injection H2 as _ <-;
      by apply held_same, (found_looks _ _ _ _ _ Hm). }
  injection Hrun as <- <-. split; [congruence|]. intros o [= <-]. apply found_inv in H1. rewrite fs_held_lookup.
  destruct (files s !! path_of id) as [[b t0]|]; [|done]. injection H1 as <-. by exists b.
Qed.

(** ** Whatever fails *)

Inductive Op : Type :=
| Put (now : Z) (id : ObjectId) (data : bytes)
| Get (id : ObjectId)
| GetRange (id : ObjectId) (offset l : Z)
| Delete (id : ObjectId)
| Stat (id : ObjectId).
(** What an operation reported, and the objects it left, given those there were. *)
Definition honest (op : Op) (s : t) : Prop :=
  match op with
  | Put now id data =>
      match put now id data s with
      | (Ok o, s') => o = {| so_id := id; so_size := len data; so_created_at := now |} /\ held s' = <[id := data]> (held s) /\
          (held s !! id = None \/ check_fails s)
      | (Err e, s') => held s' = held s /\ (e = AlreadyExists id -> is_Some (held s !! id)) /\
          (is_Some (held s !! id) -> faults s (ops s) = None -> ~ check_fails s -> e = AlreadyExists id)
      end
  | Get id =>
      let '(r, s') := get id s in held s' = held s /\ forall d, r = Ok d -> held s !! id = Some d
  | GetRange id offset l => 0 <= offset -> 0 <= l ->
      let '(r, s') := get_range id offset l s in held s' = held s /\
        forall d, r = Ok d -> exists b, held s !! id = Some b /\ d = slice b offset (offset + l)
  | Delete id =>
      let '(r, s') := delete id s in held s' = if is_ok r then base.delete id (held s) else held s
  | Stat id =>
      let '(r, s') := stat id s in held s' = held s /\
        forall o, r = Ok o -> exists b, held s !! id = Some b /\ so_size o = len b /\ so_id o = id
  end.

(** C15 A directory never holds part of an object. Whichever operations on the files fail,
    also with part of the bytes written, and so wherever the process dies: a put that is
    reported as done put exactly that object there, and nothing had the id unless the
    check for it failed (when it fails, an object of that id is replaced); one that is
    not changed no object, and a repeated id is refused as such when the directory and
    the check answer; a read that succeeds gives the bytes of the object, or those of them in the
    range; a deletion removes that object alone, when it says so. *)
Theorem directory_is_honest op s : honest op s.
Proof.
  destruct op as [now id data|id|id offset l|id|id]; simpl.
  - destruct (put now id data s) as [r s'] eqn:Hr. apply put_spec in Hr. by destruct r.
  - destruct (get id s) as [r s'] eqn:Hr. by apply get_looks.
  - intros Hoff Hl. destruct (get_range id offset l s) as [r s'] eqn:Hr. apply get_range_looks in Hr as [? Hd]. split; [done|].
    intros d ->. by apply Hd.
  - destruct (delete id s) as [r s'] eqn:Hr. by apply fs_delete_spec.
  - destruct (stat id s) as [r s'] eqn:Hr. by apply stat_looks.
Qed.

(** ** When nothing fails *)

Lemma quiet_count s : quiet s -> quiet (count s).
Proof. intros Hq n Hn. apply Hq. simpl in Hn. lia. Qed.
Lemma quiet_disk s ds fs : quiet s -> quiet (with_disk s ds fs).
Proof. intros Hq n Hn. by apply Hq. Qed.
#[local] Hint Resolve quiet_count quiet_disk : core.
Lemma lift_quiet {A} id fails (f : t -> result IoError A * t) s : quiet s ->
  lift id (io fails f) s = (map_err (fun e => io_err e id) (f s).1, count (f s).2).
Proof. intros Hq. unfold lift. by rewrite io_quiet. Qed.
Lemma look_quiet {A} id p (f : bytes * Z -> A) s : quiet s ->
  lift id (io unchanged (found p f)) s = (ok_or (f <$> files s !! p) (NotFound id), count s).
Proof. intros Hq. rewrite lift_quiet by done. unfold found. simpl. by destruct (files s !! p). Qed.

(** Up to where the two ways part. *)
Lemma put_quiet now id data s : quiet s -> exists s1, quiet s1 /\ held s1 = held s /\ (path_of id).1 ∈ dirs s1 /\
  put now id data s = if bool_decide (is_Some (held s !! id)) then (Err (AlreadyExists id), s1) else
    (_ ← lift id (write (with_extension "partial" (path_of id)) data);
     _ ← lift id (rename (with_extension "partial" (path_of id)) (path_of id));
     mret {| so_id := id; so_size := len data; so_created_at := now |}) s1.
Proof.
  intros Hq. set (s0 := count (with_disk s ({[ (path_of id).1 ]} ∪ dirs s) (files s))). assert (Hq0 : quiet s0) by (unfold s0; auto).
  exists (count s0). split; [auto|]. split; [done|]. split; [simpl; set_solver|]. unfold put. cbv zeta.
  rewrite (fs_bind_Ok _ _ s tt s0) by (unfold create_dir_all; by rewrite lift_quiet).
  rewrite (fs_bind_Ok _ _ s0 (bool_decide (is_Some (files s !! path_of id))) (count s0)) by (unfold try_exists; by rewrite io_quiet).
  rewrite (bool_decide_ext (is_Some (files s !! path_of id)) (is_Some (held s !! id))); [by case_bool_decide|].
  rewrite fs_held_lookup. by rewrite fmap_is_Some.
Qed.
Lemma put_fresh now id data s : quiet s -> held s !! id = None ->
  exists s', put now id data s = (Ok {| so_id := id; so_size := len data; so_created_at := now |}, s') /\
    quiet s' /\ held s' = <[id := data]> (held s).
Proof.
  intros Hq Hno. destruct (put_quiet now id data s Hq) as (s1 & Hq1 & Hs1 & Hdir & Hput). rewrite bool_decide_false in Hput by (rewrite Hno; by intros [? ?]).
  set (p := path_of id) in *. set (temp := with_extension "partial" p) in *.
  set (s2 := count (with_disk s1 (dirs s1) (<[temp := (data, clock s1 (ops s1))]> (files s1)))). assert (Hq2 : quiet s2) by (unfold s2; auto).
  rewrite (fs_bind_Ok _ _ s1 tt s2) in Hput.
  2: { unfold write. rewrite lift_quiet by done. unfold save. change (temp.1) with p.1. rewrite !bool_decide_true by done. done. }
  set (s3 := count (with_disk s2 (dirs s2) (<[p := (data, clock s1 (ops s1))]> (base.delete temp (files s2))))).
  rewrite (fs_bind_Ok _ _ s2 tt s3) in Hput.
  2: { unfold rename. rewrite lift_quiet by done. unfold s3, s2. simpl. by rewrite lookup_insert_eq. }
  exists s3. split; [exact Hput|]. split; [unfold s3; auto|]. by apply put_spec in Hput as (_ & ? & _).
Qed.
Lemma fill_quiet fuel id file offset l buf s : quiet s -> exists d s', fill fuel id file offset l buf s = (Ok d, s') /\ quiet s'.
Proof.
  revert buf s. induction fuel as [|fuel IH]; intros buf s Hq; simpl; (destruct (l <=? len buf); [by exists buf, s|]); [by exists buf, s|].
  unfold read_at. erewrite fs_bind_Ok by (by rewrite lift_quiet). destruct (len _ =? 0); [exists buf; eexists; split; [done|auto]|]. apply IH. auto.
Qed.
Lemma get_range_quiet id offset l d s : quiet s -> held s !! id = Some d -> 0 <= offset < 2 ^ 63 -> 0 <= l ->
  exists s', get_range id offset l s = (Ok (slice d offset (offset + l)), s') /\ quiet s' /\ held s' = held s.
Proof.
  intros Hq Hd Hoff Hl. pose proof Hd as Hfile. rewrite fs_held_lookup in Hfile. destruct (files s !! path_of id) as [f|] eqn:Hf; [|done].
  injection Hfile as <-. assert (Hrun : exists d s', get_range id offset l s = (Ok d, s') /\ quiet s').
  { unfold get_range, open_file, seek. erewrite fs_bind_Ok by (rewrite look_quiet, Hf by done; done).
    erewrite fs_bind_Ok by (rewrite lift_quiet by auto; cbn [fst snd]; rewrite (proj2 (Z.ltb_lt _ _)) by lia; done). apply fill_quiet. auto. }
  destruct Hrun as (d & s' & Hrun & Hq'). exists s'. pose proof (get_range_looks _ _ _ _ _ _ Hrun) as [Hheld Hd'].
  destruct (Hd' d eq_refl) as (b & Hb & ->); [lia|lia|]. assert (b = f.1) as -> by congruence. done.
Qed.

#[export] Program Instance fs_store_laws `{StoreLimit} : ObjectStoreLaws t := { objects := held; sound := quiet }.
Next Obligation. intros ? now id data s Hq Hno _. by apply put_fresh. Qed.
Next Obligation. intros ? now id data group s Hq Hno _. by apply put_fresh. Qed.
Next Obligation.
  intros ? now id data s Hq Hold. destruct (put_quiet now id data s Hq) as (s1 & Hq1 & Hs1 & _ & Hput).
  rewrite bool_decide_true in Hput by done. by exists s1.
Qed.
Next Obligation.
  intros ? id s Hq. exists (count s). simpl. unfold get, read_all. rewrite look_quiet, fs_held_lookup by done. split; [done|]. split; [auto|done].
Qed.
Next Obligation. intros ? id offset l d s Hq Hd Hoff Hl Hend Hlen. apply get_range_quiet; [done|done|lia|lia]. Qed.
Next Obligation.
  intros ? id s Hq. simpl. destruct (delete id s) as [r s'] eqn:Hr. pose proof (fs_delete_spec _ _ _ _ Hr) as Hs'.
  unfold delete, remove_file in Hr. rewrite io_quiet in Hr by done.
  assert (quiet s' /\ is_ok r = true) as [Hq' Hok] by (destruct (files s !! path_of id); injection Hr as <- <-; simpl; auto).
  split; [done|]. rewrite Hok in Hs'. rewrite Hs'. split; [by right|]. intros _. apply lookup_delete_eq.
Qed.

End FsFacts.
