(* ===== verification/FsFiles.v ===== *)
(** * Files in a directory

    The server over the store of [FsStore]: what was written and synced is read back when
    the directory is opened again; and a run of the store that replaces an object. *)
From Stdlib.Strings Require String.
From S2P Require Import Prelude Crypto ObjectStore Repository Locks Server Data DataSpec DataWrite DataRead Example DataProps FsStore FsProps.

Module FsFiles.
Import AppState Spec FsObjectStore FsFacts.

Section Files.
Context `{AL : AeadLaws} `{HO : HashOrder} `{SL : Store.StoreLimit} (state : Config) (sched : nat -> nat).

(** Files in a directory outlive the server. On a server that keeps its objects in a
    directory, a write and a sync go through; whenever that directory is opened again, by
    whatever process, a read of the whole file returns the flat file with the write in
    it, as committed. *)
Theorem files_in_directory (w : World FsObjectStore.t) id data offset body :
  chunk_fits (chunk_size state) -> 1 <= parallel_chunk_fetches state ->
  Inv w -> Repr state (repo w) (held (store w)) id data -> 0 <= offset -> offset + len body < 2 ^ 62 ->
  write_flat data offset body <> [] ->
  exists w', (_ ← Data.write_bytes state id offset body; Data.commit_node id) w = (Ok tt, w') /\
    forall disk, dirs disk = dirs (store w') -> files disk = files (store w') -> quiet disk ->
    exists w'', Data.read_bytes state sched id None None (set_store w' disk) = (Ok (write_flat data offset body, true), w'').
Proof.
  intros Hfits Hpar HI HR Hoff Hend Hne.
  destruct (DataProps.write_sync_ok state w id data offset body Hfits HI HR Hoff Hend) as (w1 & w2 & Hw1 & Hw2 & HI2 & HR2 & Hno).
  exists w2. erewrite SpecFacts.bind_Ok by exact Hw1. split; [exact Hw2|]. intros disk _ Hfiles Hq.
  assert (Hheld : held disk = held (store w2)) by (by apply held_same).
  destruct (DataProps.read_whole_ok state (set_store w2 disk) sched id (write_flat data offset body)) as (s' & Hr & _); try done.
  - destruct HI2 as [Hk [Hinj Hnew _]]. split; [exact Hk|]. split; [exact Hinj| |exact Hq]. intros n Hn. destruct (Hnew n Hn) as (Hv & Hc & Ho).
    split; [exact Hv|]. split; [exact Hc|]. change (held disk !! uuids w2 n = None). rewrite Hheld. exact Ho.
  - change (Repr state (repo w2) (held disk) id (write_flat data offset body)). by rewrite Hheld.
  - by exists (set_store (set_store w2 disk) s').
Qed.

End Files.

(** ** A small directory *)

Import Example.
Definition disk (faults : nat -> option Fault) : FsObjectStore.t :=
  {| dirs := ∅; files := ∅; faults := faults; ops := 0; clock := Z.of_nat; reads := fun n => Z.of_nat (n mod 3) |}.
Definition in_directory : World FsObjectStore.t :=
  {| repo := repo empty_file; store := disk (fun _ => None); locks := Locks.new; AppState.clock := Z.of_nat; ticks := 10;
     uuids := fun n => N.of_nat (100 + n); drawn := 0 |}.

Lemma files_in_directory_witness : exists w',
  (_ ← Data.write_bytes config file 2 (text "hello"); Data.commit_node file) in_directory = (Ok tt, w') /\
  forall d, dirs d = dirs (store w') -> files d = files (store w') -> quiet d ->
  exists w'', Data.read_bytes config (fun n => n) file None None (set_store w' d) = (Ok (zeroes 2 ++ text "hello", true), w'').
Proof.
  apply (files_in_directory config (fun n => n) in_directory file [] 2 (text "hello")).
  - exact config_fits.
  - vm_compute. discriminate.
  - destruct example_inv as [Hk [Hinj Hnew _]]. split; [exact Hk|]. split; [exact Hinj| |intros n _; reflexivity].
    intros n Hn. destruct (Hnew n Hn) as (Hv & Hc & _). split; [exact Hv|]. split; [exact Hc|]. by vm_compute.
  - exact example_repr.
  - lia.
  - vm_compute. reflexivity.
  - vm_compute. discriminate.
Defined.

(** Whether an object is there cannot be asked; it is written over. *)
Definition first_put : FsObjectStore.t :=
  (put 0 7 [x61] (disk (fun n => if decide (n = 5)%nat then Some {| error := "I/O error"; FsObjectStore.written := None |} else None))).2.
Lemma failed_check_overwrites :
  held first_put !! 7%N = Some [x61] /\
  (put 1 7 [x62] first_put).1 = Ok {| Store.so_id := 7; Store.so_size := 1; Store.so_created_at := 1 |} /\
  held (put 1 7 [x62] first_put).2 !! 7%N = Some [x62].
Proof. vm_compute. auto. Qed.
(** A write that breaks off leaves no object. *)
Example torn_write : held (put 0 7 [x61; x62]
  (disk (fun n => if decide (n = 2)%nat then Some {| error := "disk full"; FsObjectStore.written := Some 1 |} else None))).2 = ∅.
Proof. vm_compute. reflexivity. Qed.

End FsFiles.
