(* ===== verification/Gc.v ===== *)
(** * Garbage collection

    Models [src/crates/dcfs-server/src/gc.rs]: one sweep ([collect_once]) over the
    metadata repository and the object store, and proves that a sweep never
    takes anything a live file needs. *)
From S2P Require Import Prelude Crypto ObjectStore Repository Locks Server Data DataSpec DataWrite Example.

Module Gc.
Import Records MemoryRepo AppState.

Record GcReport : Type := {
  objects_deleted : Z;
  chunk_rows_removed : Z;
  versions_purged : Z;
  nodes_purged : Z;
  sessions_purged : Z;
  sizes_corrected : Z;
  objects_kept : Z;
}.
Definition default_report : GcReport :=
  {| objects_deleted := 0; chunk_rows_removed := 0; versions_purged := 0; nodes_purged := 0;
     sessions_purged := 0; sizes_corrected := 0; objects_kept := 0 |}.

Definition BATCH : Z := 500.

(** [Display] of a repository error. *)
Definition repository_message (e : RepositoryError) : string :=
  match e with
  | NotFound => "not found"
  | AlreadyExists => "already exists"
  | Conflict => "conflict"
  | DirectoryNotEmpty => "directory not empty"
  | Database msg => "database error: " +:+ msg
  end.

Section Sweep.
Context `{HashOrder} {S : Type} `{Store.ObjectStore S}.

(** A sweep fails with a message; what it did before stays done. *)
Definition G (A : Type) : Type := World S -> result string A * World S.
#[local] Instance G_ret : MRet G := fun A a w => (Ok a, w).
#[local] Instance G_bind : MBind G := fun A B f m w =>
  match m w with
  | (Ok a, w') => f a w'
  | (Err e, w') => (Err e, w')
  end.

Definition on_repo {A} (f : Repo -> result RepositoryError A * Repo) : G A := fun w =>
  let '(res, r) := f (repo w) in (map_err repository_message res, set_repo w r).
Definition ask_repo {A} (f : Repo -> result RepositoryError A) : G A := fun w =>
  (map_err repository_message (f (repo w)), w).
Definition gfail {A} (message : string) : G A := fun w => (Err message, w).
Definition tick : G Z := fun w =>
  match now w with (Ok t, w') => (Ok t, w') | (Err _, w') => (Ok 0, w') end.

(** What the sweep does with one doomed object: delete it from the store first, then
    drop the rows that point at it. *)
Definition sweep_one (object_id : Uuid) (report : GcReport) : G GcReport := fun w =>
  let '(res, s) := Store.delete object_id (store w) in
  let w := set_store w s in
  let forget : G GcReport :=
    removed ← on_repo (forget_object object_id);
    mret {| objects_deleted := objects_deleted report +u 1;
            chunk_rows_removed := chunk_rows_removed report +u removed;
            versions_purged := versions_purged report; nodes_purged := nodes_purged report;
            sessions_purged := sessions_purged report; sizes_corrected := sizes_corrected report;
            objects_kept := objects_kept report |} in
  match res with
  | Ok tt => forget w
  | Err (Store.NotFound _) => forget w
  | Err (Store.Retained _) =>
      (Ok {| objects_deleted := objects_deleted report; chunk_rows_removed := chunk_rows_removed report;
             versions_purged := versions_purged report; nodes_purged := nodes_purged report;
             sessions_purged := sessions_purged report; sizes_corrected := sizes_corrected report;
             objects_kept := objects_kept report +u 1 |}, w)
  | Err _ => (Ok report, w)
  end.

Fixpoint sweep (doomed : list Uuid) (report : GcReport) : G GcReport :=
  match doomed with
  | [] => mret report
  | object_id :: rest => report ← sweep_one object_id report; sweep rest report
  end.

(** [chrono::Duration::from_std] refuses what does not fit [i64] milliseconds;
    times are in nanoseconds. [try_lock_gc] of the in-memory repository always
    grants the sweep. *)
Definition MAX_RETENTION : Z := (2 ^ 63 - 1) * 1000000.

Definition collect_once (retention : Z) : G GcReport :=
  t ← tick;
  if MAX_RETENTION <? retention then gfail "bad retention" else
  let cutoff := t - retention in
  doomed ← ask_repo (collectable_objects cutoff BATCH);
  report ← sweep doomed default_report;
  versions ← on_repo (purge_empty_dead_versions cutoff);
  nodes ← on_repo (purge_deleted_nodes cutoff);
  t' ← tick;
  sessions ← on_repo (purge_expired_sessions t');
  sizes ← on_repo reconcile_node_sizes;
  mret {| objects_deleted := objects_deleted report; chunk_rows_removed := chunk_rows_removed report;
          versions_purged := versions; nodes_purged := nodes; sessions_purged := sessions;
          sizes_corrected := sizes; objects_kept := objects_kept report |}.

(** [spawn]: the task that sweeps every [interval], seen after [sweeps] of them. What a sweep
    reports, or that it failed, is only logged. The time that passes between two sweeps is
    in the clock. *)
Fixpoint spawn (retention : Z) (sweeps : nat) (w : World S) : World S :=
  match sweeps with
  | O => w
  | Datatypes.S n => spawn retention n (collect_once retention w).2
  end.

End Sweep.
End Gc.

(** ** Lemmas *)
Module GcFacts.
Import Records MemoryRepo Manifest AppState Spec SpecFacts Gc.

Section Sweep.
Context `{HashOrder}.

Lemma live_spec older r vid v :
  keyed r -> versions r !! vid = Some v -> is_live older r v = true -> vid ∈ live older r.
Proof.
  intros Hk Hv Hl. unfold live. apply list_elem_of_fmap. exists v. split; [by rewrite (keyed_versions _ Hk _ _ Hv)|].
  apply list_elem_of_filter. split; [done|]. apply elem_of_hm_values. by exists vid.
Qed.

Lemma referenced_spec older r vid l c :
  vid ∈ live older r -> chunks r !! vid = Some l -> c ∈ l -> c_object_id c ∈ referenced_by_live older r.
Proof.
  intros Hvid Hl Hc. unfold referenced_by_live. apply list_elem_of_fmap. exists c. split; [done|].
  apply list_elem_of_In, in_concat. exists l. rewrite <-!list_elem_of_In. split; [|done].
  apply list_elem_of_omap. by exists vid.
Qed.

Lemma collect_chunks_safe refd limit cs acc :
  Forall (fun x => x ∉ refd) acc ->
  match collect_chunks refd limit cs acc with inl acc' | inr acc' => Forall (fun x => x ∉ refd) acc' end.
Proof.
  revert acc. induction cs as [|c cs IH]; intros acc Hacc; simpl; [done|].
  case_bool_decide; simpl; [by apply IH|]. case_bool_decide; simpl; [by apply IH|].
  assert (Forall (fun x => x ∉ refd) (acc ++ [c_object_id c])) by (apply Forall_app; by repeat constructor).
  destruct (limit <=? len (acc ++ [c_object_id c])); [done|]. by apply IH.
Qed.

Lemma collect_versions_safe older limit r l acc :
  Forall (fun x => x ∉ referenced_by_live older r) acc ->
  Forall (fun x => x ∉ referenced_by_live older r) (collect_versions older limit r l acc).
Proof.
  revert acc. induction l as [|[vid cs] l IH]; intros acc Hacc; simpl; [done|].
  destruct (dead_since _ _ _); [|by apply IH].
  pose proof (collect_chunks_safe (referenced_by_live older r) limit cs acc Hacc) as Hs.
  destruct (collect_chunks _ _ _ _); [by apply IH|done].
Qed.

(** What one version's rows add: its objects no live version refers to, each once. *)
Lemma collect_chunks_spec refd limit cs acc :
  match collect_chunks refd limit cs acc with
  | inl acc' => forall x, x ∈ acc' <-> x ∈ acc \/ (x ∉ refd) /\ exists c, c ∈ cs /\ c_object_id c = x
  | inr acc' => limit <= len acc' /\
      forall x, x ∈ acc' -> x ∈ acc \/ (x ∉ refd) /\ exists c, c ∈ cs /\ c_object_id c = x
  end /\
  (NoDup acc -> match collect_chunks refd limit cs acc with inl acc' | inr acc' => NoDup acc' end).
Proof.
  revert acc. induction cs as [|c cs IH]; intros acc; simpl; [split; [set_solver|done]|].
  case_bool_decide as Hr; simpl; [|case_bool_decide as Ha; simpl].
  3: { destruct (Z.leb_spec limit (len (acc ++ [c_object_id c]))); simpl.
       { split; [split; [done|set_solver]|]. intros Hnd. apply NoDup_app. split; [done|]. split; [set_solver|apply NoDup_singleton]. }
       destruct (IH (acc ++ [c_object_id c])) as [IH1 IH2]. split.
       - destruct (collect_chunks _ _ _ _); [set_solver|]. destruct IH1. split; [done|set_solver].
       - intros Hnd. apply IH2. apply NoDup_app. split; [done|]. split; [set_solver|apply NoDup_singleton]. }
  all: destruct (IH acc) as [IH1 IH2]; split; [|done];
    destruct (collect_chunks _ _ _ _); [set_solver|destruct IH1; split; [done|set_solver]].
Qed.

Definition dead_row older r (x : Uuid) (l : list (Uuid * list FileChunkRecord)) : Prop :=
  (x ∉ referenced_by_live older r) /\
  exists vid cs c, (vid, cs) ∈ l /\ dead_since older r vid = true /\ c ∈ cs /\ c_object_id c = x.

Lemma collect_versions_spec older limit r l acc :
  NoDup acc ->
  let res := collect_versions older limit r l acc in
  NoDup res /\ (forall x, x ∈ res -> x ∈ acc \/ dead_row older r x l) /\
  (len res < limit -> forall x, x ∈ acc \/ dead_row older r x l -> x ∈ res).
Proof.
  revert acc. unfold dead_row. induction l as [|[vid cs] l IH]; intros acc Hnd; simpl; [split_and!; set_solver|].
  destruct (dead_since older r vid) eqn:Hd.
  2: { destruct (IH acc Hnd) as (H1' & H2' & H3'). split_and!; [done|set_solver|].
       intros Hlt x Hx. apply H3'; [done|]. destruct Hx as [?|(? & vid' & cs' & c & [[= -> ->]|?]%elem_of_cons & ? & ?)];
         [by left|congruence|]. right. eauto 10. }
  destruct (collect_chunks_spec (referenced_by_live older r) limit cs acc) as [Hc Hn].
  destruct (collect_chunks _ _ cs acc) as [acc'|acc'].
  - destruct (IH acc' (Hn Hnd)) as (H1' & H2' & H3'). split_and!; [done| |].
    + intros x Hx. destruct (H2' x Hx) as [Ha|?]; [|right; set_solver].
      apply Hc in Ha as [?|(? & c & ? & ?)]; [by left|]. right. split; [done|]. exists vid, cs, c. set_solver.
    + intros Hlt x Hx. apply H3'; [done|]. rewrite Hc.
      destruct Hx as [?|(? & vid' & cs' & c & [[= -> ->]|?]%elem_of_cons & ? & ? & ?)]; [by left; left|left; right; eauto|].
      right. eauto 10.
  - destruct Hc as [Hlim Hc]. split_and!; [auto| |lia]. intros x Hx.
    destruct (Hc x Hx) as [?|(? & c & ? & ?)]; [by left|]. right. split; [done|]. exists vid, cs, c. set_solver.
Qed.

(** *** The sweep *)

Lemma filter_keeps_all {A} (P : A -> Prop) `{!forall x, Decision (P x)} (l : list A) :
  (forall x, x ∈ l -> P x) -> filter P l = l.
Proof.
  induction l as [|x l IH]; intros HP; [done|]. rewrite filter_cons_True by (apply HP; set_solver).
  f_equal. apply IH. set_solver.
Qed.

Section Store.
Context {S : Type} `{Store.ObjectStoreLaws S}.

(** [w'] is [w] after deleting some of the objects [doomed] and their rows. *)
Record swept (doomed : list Uuid) (w w' : World S) : Prop := {
  sw_nodes : nodes (repo w') = nodes (repo w);
  sw_versions : versions (repo w') = versions (repo w);
  sw_chunks : forall k l, chunks (repo w) !! k = Some l -> (forall c, c ∈ l -> c_object_id c ∉ doomed) ->
    chunks (repo w') !! k = Some l;
  sw_chunks_none : forall k, chunks (repo w) !! k = None -> chunks (repo w') !! k = None;
  sw_objs : forall k, (k ∉ doomed) -> objs w' !! k = objs w !! k;
  sw_objs_sub : objs w' ⊆ objs w;
  sw_rows : forall k l c, chunks (repo w) !! k = Some l -> c ∈ l -> is_Some (objs w' !! c_object_id c) ->
    exists l', chunks (repo w') !! k = Some l' /\ c ∈ l';
  sw_uuids : uuids w' = uuids w;
  sw_drawn : drawn w' = drawn w;
  sw_clock : clock w' = clock w;
  sw_sound : Store.sound (store w) -> Store.sound (store w');
}.

Lemma swept_trans d1 d2 a b c : swept d1 a b -> swept d2 b c -> swept (d1 ++ d2) a c.
Proof.
  intros [] []. split; try congruence; try (by etrans); try (by auto).
  - intros k l Hl Hd. apply sw_chunks1; [apply sw_chunks0; [done|]|]; intros x Hx; specialize (Hd x Hx); set_solver.
  - intros k Hk. rewrite sw_objs1, sw_objs0 by set_solver. done.
  - intros k l x Hl Hx [o Ho]. destruct (sw_rows0 k l x Hl Hx) as (l1 & Hl1 & Hx1); [exists o; by eapply lookup_weaken|].
    apply (sw_rows1 k l1 x Hl1 Hx1). by exists o.
Qed.

Lemma forget_swept id (w : World S) :
  objs w !! id = None -> exists n w', on_repo (forget_object id) w = (Ok n, w') /\ swept [id] w w'.
Proof.
  intros Hgone. eexists _, _. split; [reflexivity|]. split; simpl; try done.
  - intros k l Hl Hd. rewrite lookup_fmap, Hl. simpl. f_equal. apply filter_keeps_all.
    intros c Hc Heq. apply (Hd c Hc). set_solver.
  - intros k Hk. by rewrite lookup_fmap, Hk.
  - intros k l c Hl Hc [o Ho]. rewrite lookup_fmap, Hl. simpl. eexists. split; [done|]. apply list_elem_of_filter.
    split; [|done]. intros Heq. rewrite Heq in Ho. unfold objs in *. simpl in Ho. congruence.
Qed.

Lemma sweep_one_swept id report (w : World S) :
  Store.sound (store w) ->
  exists report' w', sweep_one id report w = (Ok report', w') /\ swept [id] w w'.
Proof.
  intros Hsd. unfold sweep_one. pose proof (Store.delete_spec id (store w) Hsd) as Hdel.
  destruct (Store.delete id (store w)) as [res s']. destruct Hdel as (Hsd' & Hobj & Hgone).
  assert (Hsame : swept [id] w (set_store w s')).
  { split; unfold objs; simpl; try done; [| |by intros k l c; eauto].
    - intros k Hk. destruct Hobj as [-> | ->]; [done|]. apply lookup_delete_ne. set_solver.
    - destruct Hobj as [-> | ->]; [done|apply delete_subseteq]. }
  assert (Hforget : Store.objects s' !! id = None -> exists n w', on_repo (forget_object id) (set_store w s') = (Ok n, w') /\ swept [id] w w').
  { intros Hno. destruct (forget_swept id (set_store w s') Hno) as (n & w' & Hf & Hsw). exists n, w'. split; [done|].
    destruct (swept_trans _ _ _ _ _ Hsame Hsw). split; try done; [|by intros; apply sw_objs0; set_solver].
    intros k l Hl Hc. apply sw_chunks0; [done|]. intros c Hin. specialize (Hc c Hin). set_solver. }
  assert (Hdone : (res = Ok tt \/ exists x, res = Err (Store.NotFound x)) ->
    exists n w', on_repo (forget_object id) (set_store w s') = (Ok n, w') /\ swept [id] w w') by auto.
  destruct res as [[]|[]]; first
    [ destruct Hdone as (n & w' & Hf & Hsw); [by eauto|]; eexists _, w'; split; [unfold mbind, G_bind; rewrite Hf; reflexivity|done]
    | by eexists _, _ ].
Qed.

Lemma sweep_swept doomed report (w : World S) :
  Store.sound (store w) ->
  exists report' w', sweep doomed report w = (Ok report', w') /\ swept doomed w w'.
Proof.
  revert report w. induction doomed as [|id doomed IH]; intros report w Hsd.
  { exists report, w. split; [done|]. split; try done. by eauto. }
  destruct (sweep_one_swept id report w Hsd) as (r1 & w1 & H1' & Hs1).
  destruct (IH r1 w1 (sw_sound _ _ _ Hs1 Hsd)) as (r2 & w2 & H2' & Hs2).
  exists r2, w2. split; [cbn [sweep]; unfold mbind, G_bind; by rewrite H1'|].
  by apply (swept_trans [id] doomed w w1 w2).
Qed.

Lemma swept_Inv doomed w w' : Inv w -> swept doomed w w' -> Inv w'.
Proof.
  intros [[] [Hinj Hf Hsd]] []. split; [split; rewrite ?sw_nodes0, ?sw_versions0; done|].
  split; [by rewrite sw_uuids0| |by apply sw_sound0]. intros n Hn. rewrite sw_uuids0, sw_versions0. rewrite sw_drawn0 in Hn.
  destruct (Hf n Hn) as (? & ? & ?). split_and!; [done|by apply sw_chunks_none0|].
  destruct (objs w' !! uuids w n) eqn:Ho; [|done]. eapply lookup_weaken in Ho; [|done]. congruence.
Qed.

(** *** What a live file needs is kept *)

Context `{Aead} (state : Config).

(** Every write in progress on [id] was active after [cutoff]. *)
Definition settled (cutoff : Z) (r : Repo) (id : Uuid) : Prop :=
  forall v, open_version r id v -> cutoff <= v_created_at v.

(** [v] is the version [id] is read from. *)
Definition serves (r : Repo) (id : Uuid) (v : FileVersionRecord) : Prop :=
  versions r !! v_id v = Some v /\ v_node_id v = id /\
  (is_staging v = true \/ exists n, nodes r !! id = Some n /\ n_current_version_id n = Some (v_id v)).

Lemma serves_live cutoff r id v : settled cutoff r id -> serves r id v -> is_live cutoff r v = true.
Proof.
  intros Hset (Hv & Hid & [Hst|(n & Hn & Hc)]); unfold is_live.
  - specialize (Hset v ltac:(by split_and!)). rewrite Hst. simpl. lia.
  - unfold is_current. rewrite Hid, Hn, bool_decide_true by done. by rewrite orb_true_r.
Qed.

Lemma serves_not_doomed cutoff r id v :
  keyed r -> settled cutoff r id -> serves r id v -> is_doomed cutoff r v = false.
Proof.
  intros Hk Hset (Hv & Hid & [Hst|(n & Hn & Hc)]); unfold is_doomed.
  - specialize (Hset v ltac:(by split_and!)). rewrite (keyed_staging _ Hk _ _ Hv Hst). simpl.
    by rewrite (proj2 (Z.ltb_ge _ _)).
  - unfold is_current. rewrite Hid, Hn, bool_decide_true by done. simpl. by rewrite andb_false_r.
Qed.

(** A step that keeps the versions a file is read from, their rows and objects keeps
    the file. *)
Lemma Repr_kept r r' o o' id data n' :
  Repr state r o id data ->
  nodes r' !! id = Some n' -> (forall n, nodes r !! id = Some n ->
     n_kind n' = n_kind n /\ n_size n' = n_size n /\ n_current_version_id n' = n_current_version_id n) ->
  (forall v, open_version r' id v -> open_version r id v) ->
  (forall v, serves r id v -> versions r' !! v_id v = Some v /\
     forall l, chunks r !! v_id v = Some l -> chunks r' !! v_id v = Some l /\
       forall c, c ∈ l -> o' !! c_object_id c = o !! c_object_id c) ->
  Repr state r' o' id data.
Proof.
  intros [Hsz (n & Hn & Hkind & Hlen & Hver)] Hn' Hsame Hop Hserve.
  destruct (Hsame n Hn) as (Hk' & Hs' & Hc').
  assert (Hstored : forall v, serves r id v -> stored state r o v data -> stored state r' o' v data).
  { intros v Hsv (Hb & pl & [(l & Hl & Hso & Hix & Hp)] & Hla). split; [done|]. exists pl. split; [|done].
    destruct (Hserve v Hsv) as [_ Hrows]. destruct (Hrows l Hl) as [Hl' Ho']. split. exists l. split_and!; try done.
    intros i. specialize (Hp i). destruct (chunk_at l i) as [c|] eqn:Hat; [|done].
    apply chunk_at_Some in Hat as [Hin _]. destruct Hp as [(e & ? & Hoc & ?) ?]. split; [|done].
    exists e. rewrite (Ho' c Hin). split; [done|]. by split. }
  split; [done|]. exists n'. rewrite Hk', Hs', Hc'. split_and!; try done.
  destruct Hver as [(v & Hopen & Hu & Hvs & Hst)|[Hnone Hcur]].
  - left. pose proof Hopen as (Hv & Hid & Hstg). assert (Hsv : serves r id v) by (split_and!; auto).
    exists v. split_and!; try done; [|by intros v' Hv'%Hop; apply Hu|by apply Hstored].
    split_and!; try done. by apply Hserve.
  - right. split; [by intros v Hv%Hop; apply (Hnone v)|]. destruct (n_current_version_id n) as [vid|] eqn:Hcv; [|done].
    destruct Hcur as (v & Hv & Hvid & Hid & Hvs & Hst). subst vid.
    assert (Hsv : serves r id v) by (split_and!; eauto).
    exists v. split_and!; try done; [by apply Hserve|by apply Hstored].
Qed.

Lemma swept_Repr cutoff limit w w' id data :
  Inv w -> Repr state (repo w) (objs w) id data -> settled cutoff (repo w) id ->
  swept (collect_versions cutoff limit (repo w) (hm_iter (chunks (repo w))) []) w w' ->
  Repr state (repo w') (objs w') id data.
Proof.
  intros [Hk _] HR Hset Hsw. pose proof HR as [_ (n & Hn & _)].
  pose proof (collect_versions_safe cutoff limit (repo w) (hm_iter (chunks (repo w))) [] ltac:(constructor)) as Hsafe.
  destruct Hsw. eapply (Repr_kept (repo w) (repo w') _ _ _ _ n); [done|by rewrite sw_nodes0|naive_solver| |].
  - unfold open_version. by rewrite sw_versions0.
  - intros v Hsv. rewrite sw_versions0. split; [by apply Hsv|]. intros l Hl.
    assert (Hrow : forall c, c ∈ l -> c_object_id c ∉ collect_versions cutoff limit (repo w) (hm_iter (chunks (repo w))) []).
    { intros c Hc Hin. rewrite Forall_forall in Hsafe. apply (Hsafe _ Hin).
      eapply referenced_spec; [|exact Hl|done]. eapply live_spec; [done|by apply Hsv|]. by eapply serves_live. }
    split; [by apply sw_chunks0|]. intros c Hc. apply sw_objs0. by apply Hrow.
Qed.

(** *** Purging versions and reconciling sizes *)

Lemma foldl_delete_lookup {V} (m : gmap Uuid V) ks k :
  foldl (flip delete) m ks !! k = if decide (k ∈ ks) then None else m !! k.
Proof.
  revert m. induction ks as [|j ks IH]; intros m; simpl; [done|]. rewrite IH.
  destruct (decide (k ∈ ks)); [by rewrite decide_True by set_solver|]. simpl.
  destruct (decide (k = j)) as [->|]; [by rewrite lookup_delete_eq, decide_True by set_solver|].
  rewrite lookup_delete_ne by done. by rewrite decide_False by set_solver.
Qed.

Lemma doomed_elem cutoff r k v :
  keyed r -> versions r !! k = Some v ->
  k ∈ (v_id <$> filter (fun v => is_doomed cutoff r v = true) (hm_values (versions r))) <-> is_doomed cutoff r v = true.
Proof.
  intros Hk Hv. rewrite list_elem_of_fmap. setoid_rewrite list_elem_of_filter. setoid_rewrite elem_of_hm_values. split.
  - intros (v' & Hid & Hd & [k' Hv']). pose proof (keyed_versions _ Hk _ _ Hv'). subst. congruence.
  - intros Hd. exists v. rewrite (keyed_versions _ Hk _ _ Hv). eauto.
Qed.

Lemma purge_lookup cutoff r k v :
  keyed r -> let r' := (purge_empty_dead_versions cutoff r).2 in
  nodes r' = nodes r /\ (versions r' !! k = Some v <-> versions r !! k = Some v /\ is_doomed cutoff r v = false) /\
  (versions r !! k = Some v -> is_doomed cutoff r v = false -> chunks r' !! k = chunks r !! k).
Proof.
  intros Hk. unfold purge_empty_dead_versions. simpl. set (ks := v_id <$> _). assert (Hin : forall v, versions r !! k = Some v -> k ∈ ks <-> is_doomed cutoff r v = true)
    by (intros; by apply doomed_elem).
  rewrite !foldl_delete_lookup. split; [done|]. repeat split.
  - destruct (decide (k ∈ ks)); done.
  - destruct (decide (k ∈ ks)) as [|Hni]; [done|]. apply not_true_iff_false. by rewrite <-(Hin v).
  - intros [Hv Hd]. destruct (decide (k ∈ ks)) as [Hi|]; [|done]. apply (Hin v Hv) in Hi. congruence.
  - intros Hv Hd. destruct (decide (k ∈ ks)) as [Hi|]; [|done]. apply (Hin v Hv) in Hi. congruence.
Qed.

(** A version that has rows is not purged. *)
Lemma purge_rows cutoff r k l c : keyed r -> chunks r !! k = Some l -> c ∈ l -> chunks (purge_empty_dead_versions cutoff r).2 !! k = Some l.
Proof.
  intros Hk Hl Hc. simpl. rewrite foldl_delete_lookup. case_decide as Hin; [|done]. exfalso.
  apply list_elem_of_fmap in Hin as (v & -> & [Hd [k' Hv]%elem_of_hm_values]%list_elem_of_filter).
  unfold is_doomed in Hd. rewrite Hl in Hd. apply andb_true_iff in Hd as [_ Hd%bool_decide_eq_true]. simpl in Hd. subst l. by apply not_elem_of_nil in Hc.
Qed.

Lemma purge_none cutoff r k : chunks r !! k = None -> chunks (purge_empty_dead_versions cutoff r).2 !! k = None.
Proof. intros Hk. simpl. rewrite foldl_delete_lookup. by case_decide. Qed.

Lemma purge_ok cutoff w :
  Inv w -> let w' := set_repo w (purge_empty_dead_versions cutoff (repo w)).2 in
  Inv w' /\ forall id data, Repr state (repo w) (objs w) id data -> settled cutoff (repo w) id ->
    Repr state (repo w') (objs w') id data.
Proof.
  intros [Hk [Hinj Hf Hsd]]. cbv zeta. set (r' := (purge_empty_dead_versions cutoff (repo w)).2).
  assert (Hn : nodes r' = nodes (repo w)) by done.
  pose proof (fun k v => purge_lookup cutoff (repo w) k v Hk) as Hp. fold r' in Hp.
  split; [split; [split|split]|].
  - intros k v Hv. apply Hp in Hv as [Hv _]. by apply Hk.
  - exact (keyed_nodes _ Hk).
  - intros k n vid Hkn Hcur. change (nodes (repo w) !! k = Some n) in Hkn. destruct (keyed_current _ Hk _ _ _ Hkn Hcur) as (v & Hv & Hid).
    exists v. split; [|done]. apply Hp. split; [done|]. unfold is_doomed, is_current.
    pose proof (keyed_versions _ Hk _ _ Hv). rewrite Hid, Hkn, bool_decide_true by congruence. simpl. by rewrite andb_false_r.
  - intros k v Hv. apply Hp in Hv as [Hv _]. by apply (keyed_staging _ Hk k).
  - done.
  - intros n Hge. destruct (Hf n Hge) as (Hfv & Hfc & Hfo). simpl.
    split_and!; [|by apply purge_none|done].
    destruct (versions r' !! uuids w n) as [v|] eqn:Hv; [|done]. apply Hp in Hv as [? _]. congruence.
  - done.
  - intros id data HR Hset. pose proof HR as [_ (n & Hnode & _)].
    eapply (Repr_kept (repo w) r' _ _ _ _ n); [done|by rewrite Hn|naive_solver| |].
    + intros v (Hv & ? & ?). apply Hp in Hv as [Hv _]. by split_and!.
    + intros v Hsv. pose proof (serves_not_doomed _ _ _ _ Hk Hset Hsv) as Hnd. destruct Hsv as (Hv & _).
      split; [by apply Hp|]. intros l Hl. split; [|done]. destruct (Hp (v_id v) v) as (_ & _ & Hc). by rewrite Hc.
Qed.

Lemma reconcile_ok w :
  Inv w -> let w' := set_repo w (reconcile_node_sizes (repo w)).2 in
  Inv w' /\ forall id data, Repr state (repo w) (objs w) id data -> Repr state (repo w') (objs w') id data.
Proof.
  intros [Hk Hf]. cbv zeta. set (r' := (reconcile_node_sizes (repo w)).2).
  assert (Hn : forall k n', nodes r' !! k = Some n' -> exists n, nodes (repo w) !! k = Some n /\ n_id n' = n_id n /\
     n_current_version_id n' = n_current_version_id n).
  { intros k n'. simpl. rewrite lookup_fmap. intros (n & Hkn & ->)%fmap_Some. exists n. by destruct (needs_reconcile _ n). }
  split; [split; [split|by destruct Hf]|].
  - by apply Hk.
  - intros k n' (n & Hkn & -> & _)%Hn. by apply Hk.
  - intros k n' vid (n & Hkn & _ & ->)%Hn. by apply Hk.
  - by apply Hk.
  - intros id data HR. pose proof HR as [_ (n & Hnode & Hkind & Hlen & Hver)].
    assert (Hno : needs_reconcile (repo w) n = false).
    { unfold needs_reconcile. destruct (bool_decide (n_kind n = _)); [simpl|done].
      destruct Hver as [(v & (Hv & Hid & Hst) & _)|[Hnone Hcur]].
      - rewrite bool_decide_true; [done|]. apply list_elem_of_fmap. exists v.
        rewrite (keyed_nodes _ Hk _ _ Hnode). split; [done|]. apply list_elem_of_filter. split; [done|].
        apply elem_of_hm_values. eauto.
      - replace (n_size n =? committed_size (repo w) n) with true; [by rewrite andb_false_r|].
        symmetry. apply Z.eqb_eq. rewrite Hlen. unfold committed_size.
        destruct (n_current_version_id n) as [vid|]; simpl; [|by subst].
        destruct Hcur as (v & Hv & _ & _ & Hs & _). by rewrite Hv. }
    eapply (Repr_kept (repo w) r' _ _ _ _ n); [done| |naive_solver|done|].
    + simpl. rewrite lookup_fmap, Hnode. simpl. by rewrite Hno.
    + intros v (Hv & _). by split.
Qed.

(** Sessions are no part of a file. *)
Lemma sessions_ok w ss :
  Inv w -> Inv (set_repo w (with_sessions (repo w) ss)) /\
  forall id data, Repr state (repo w) (objs w) id data ->
    Repr state (with_sessions (repo w) ss) (objs w) id data.
Proof.
  intros [[] []]. split; [by split; split|]. intros id data HR. pose proof HR as [_ (n & Hn & _)].
  eapply (Repr_kept (repo w) _ _ _ _ _ n); [done|done|naive_solver|done|]. by intros v (Hv & _).
Qed.

End Store.
End Sweep.

(** ** Properties *)

Section Safety.
Context `{AeadLaws} `{HashOrder} {S : Type} `{Store.ObjectStoreLaws S} (state : Config).

(** Exactly the garbage is collected: [collectable_objects] lists, without repetition,
    objects that some version dead since before the cutoff refers to and no live
    version does; and when the list is shorter than the limit it has all of them. *)
Theorem collectable_objects_exact r older limit :
  exists res, collectable_objects older limit r = Ok res /\ NoDup res /\
    (forall x, x ∈ res -> dead_row older r x (hm_iter (chunks r))) /\
    (len res < limit -> forall x, dead_row older r x (hm_iter (chunks r)) -> x ∈ res).
Proof.
  destruct (collect_versions_spec older limit r (hm_iter (chunks r)) [] ltac:(constructor)) as (H1' & H2' & H3').
  eexists. split; [reflexivity|]. split_and!; [done| |by eauto].
  intros x Hx. destruct (H2' x Hx) as [?%not_elem_of_nil|?]; done.
Qed.

(** One sweep; it makes no version, so a write in progress after it was one before. *)
Lemma collect_once_ok (w : World S) retention :
  Inv w -> retention <= MAX_RETENTION ->
  exists report w', collect_once retention w = (Ok report, w') /\ Inv w' /\
    (forall id data, Repr state (repo w) (objs w) id data ->
      settled (clock w (ticks w) - retention) (repo w) id ->
      Repr state (repo w') (objs w') id data) /\
    (forall k l c, chunks (repo w) !! k = Some l -> c ∈ l -> is_Some (objs w' !! c_object_id c) ->
      exists l', chunks (repo w') !! k = Some l' /\ c ∈ l') /\
    clock w' = clock w /\ forall k v, versions (repo w') !! k = Some v -> versions (repo w) !! k = Some v.
Proof.
  intros HI Hret. unfold collect_once. set (cutoff := clock w (ticks w) - retention).
  set (w1 := (tick w).2). change (tick w) with (@Ok string Z (clock w (ticks w)), w1).
  unfold mbind at 1. unfold G_bind at 1. change (tick w) with (@Ok string Z (clock w (ticks w)), w1).
  cbv beta iota zeta. rewrite (proj2 (Z.ltb_ge _ _)) by done. fold cutoff.
  set (doomed := collect_versions cutoff BATCH (repo w1) (hm_iter (chunks (repo w1))) []).
  unfold mbind at 1. unfold G_bind at 1.
  change (ask_repo (collectable_objects cutoff BATCH) w1) with (@Ok string (list Uuid) doomed, w1). cbv beta iota.
  destruct (sweep_swept doomed default_report w1 (fresh_store _ (proj2 HI))) as (report & w2 & Hsweep & Hsw).
  unfold mbind at 1. unfold G_bind at 1. rewrite Hsweep.
  assert (HI1 : Inv w1) by (by apply (Inv_ext w)).
  pose proof (swept_Inv _ _ _ HI1 Hsw) as HI2.
  destruct (purge_ok state cutoff w2 HI2) as [HI3 HR3].
  set (w3 := set_repo w2 (purge_empty_dead_versions cutoff (repo w2)).2) in *.
  set (w4 := (tick w3).2).
  set (w5 := set_repo w4 (purge_expired_sessions (clock w3 (ticks w3)) (repo w4)).2).
  destruct (sessions_ok state w4 (sessions (purge_expired_sessions (clock w3 (ticks w3)) (repo w4)).2)
    (Inv_ext w3 w4 eq_refl eq_refl eq_refl eq_refl HI3)) as [HI5 HR5].
  destruct (reconcile_ok state w5 HI5) as [HI6 HR6].
  eexists _, (set_repo w5 (reconcile_node_sizes (repo w5)).2). split; [reflexivity|]. split; [exact HI6|]. split.
  2: { split; [|split; [exact (sw_clock _ _ _ Hsw)|]].
       - intros k l c Hl Hc Ho. destruct (sw_rows _ _ _ Hsw k l c Hl Hc Ho) as (l' & Hl' & Hc'). exists l'. split; [|done].
         by apply (purge_rows cutoff (repo w2) k l' c (proj1 HI2)).
       - intros k v Hv. rewrite <-(sw_versions _ _ _ Hsw : _ = versions (repo w)).
       by apply (purge_lookup cutoff (repo w2) k v (proj1 HI2)) in Hv as [? _]. }
  intros id data HR Hset. apply HR6, HR5, (HR3 id data).
  - by apply (swept_Repr state cutoff BATCH w1 w2).
  - intros v (Hv & ? & ?). rewrite (sw_versions _ _ _ Hsw) in Hv. apply Hset. by split_and!.
Qed.


(** C28 A sweep never damages a live file. The store may answer each deletion as it likes
    (done, no such object, kept on purpose, an error), and may have deleted the object or
    not, as long as it touches no other object and has none of that id when it says done
    or that there is none. Then a sweep with a retention the clock can hold succeeds; every file
    that is stored whole, with a size that is that of its bytes, and whose writes in
    progress (if any) were active within the retention period has exactly the content it
    had before; the invariant is kept; and the rows of an object the store still holds
    are still there, so that a later sweep finds it. Objects are shared between versions,
    so this is the claim that nothing is deleted that a live version still refers to. *)
Theorem collect_once_safe (w : World S) retention :
  Inv w -> retention <= MAX_RETENTION ->
  exists report w', collect_once retention w = (Ok report, w') /\ Inv w' /\
    (forall id data, Repr state (repo w) (objs w) id data ->
      settled (clock w (ticks w) - retention) (repo w) id ->
      Repr state (repo w') (objs w') id data) /\
    (forall k l c, chunks (repo w) !! k = Some l -> c ∈ l -> is_Some (objs w' !! c_object_id c) ->
      exists l', chunks (repo w') !! k = Some l' /\ c ∈ l').
Proof.
  intros HI Hret. destruct (collect_once_ok w retention HI Hret) as (report & w' & Hc & HI' & HR & Hrows & _). by exists report, w'.
Qed.

(** The task that sweeps, however long it runs: a file whose writes in progress, if any, are
    within the retention period whenever the task looks keeps its content. *)
Theorem spawn_safe retention sweeps (w : World S) id data :
  Inv w -> retention <= MAX_RETENTION -> Repr state (repo w) (objs w) id data ->
  (forall k, settled (clock w k - retention) (repo w) id) ->
  Inv (spawn retention sweeps w) /\ Repr state (repo (spawn retention sweeps w)) (objs (spawn retention sweeps w)) id data.
Proof.
  intros HI Hret. revert w HI. induction sweeps as [|n IH]; intros w HI HR Hset; simpl; [done|].
  destruct (collect_once_ok w retention HI Hret) as (report & w' & Hc & HI' & Hkeep & _ & Hclock & Hv). rewrite Hc. simpl.
  apply IH; [done|by apply Hkeep|]. intros k v (Hin & Hid & Hst). rewrite Hclock. apply Hset. split_and!; [by apply Hv|done|done].
Qed.

End Safety.
(** *** Witnesses *)

Import Example.

Import MoodyStore.

(** Every deletion is refused on purpose, and the object stays. *)
Definition grudge (w : World MemoryObjectStore.t) : World MoodyStore.t :=
  {| repo := repo w; store := MoodyStore.mk (store w) (fun _ => Some (Store.Retained 0%N, false)) 0;
     locks := locks w; clock := clock w; ticks := ticks w; uuids := uuids w; drawn := drawn w |}.
Lemma grudge_ok w id data : Inv w -> Repr config (repo w) (objs w) id data ->
  Inv (grudge w) /\ Repr config (repo (grudge w)) (objs (grudge w)) id data.
Proof.
  intros [Hk [Hinj Hf _]] HR. split; [|exact HR]. split; [exact Hk|]. split; [exact Hinj|exact Hf|].
  intros n e gone [= <- <-] x. done.
Qed.
Definition grudging : World MoodyStore.t := grudge written.
Lemma grudging_ok : Inv grudging /\ Repr config (repo grudging) (objs grudging) file (text "hello").
Proof. destruct written_ok as [HI HR]. by apply grudge_ok. Qed.

Lemma collect_once_safe_witness : exists report w',
  collect_once 5 grudging = (Ok report, w') /\ Repr config (repo w') (objs w') file (text "hello").
Proof.
  destruct grudging_ok as [HI HR].
  destruct (collect_once_safe config grudging 5 HI) as (report & w' & Hc & _ & Hkeep & _); [vm_compute; discriminate|].
  exists report, w'. split; [exact Hc|]. apply Hkeep; [exact HR|].
  assert (Hall : map_Forall (fun _ v => clock grudging (ticks grudging) - 5 <= v_created_at v) (versions (repo grudging)))
    by (apply (bool_decide_unpack _); vm_compute; reflexivity).
  intros v (Hv & _). exact (Hall _ _ Hv).
Defined.

End GcFacts.
