(* ===== verification/Nodes.v ===== *)
(** * The node handlers

    Models [src/crates/dcfs-server/src/handlers/nodes.rs] (module [Nodes]) with the
    requests and responses of [src/crates/dcfs-protocol/src/nodes.rs], and proves
    that every entry keeps a name of its own in an existing directory under them. *)
From Stdlib.Strings Require String.
From stdpp Require Import pretty.
From S2P Require Import Prelude Core Crypto ObjectStore Repository Locks Server.

Module Nodes.
Import AppErrors Records AppState.

(** The requests, without the idempotency keys the handlers ignore. *)
Record NodeResponse : Type := {
  nr_id : Uuid; nr_parent_id : option Uuid; nr_name : bytes; nr_kind : NodeModel.NodeKind;
  nr_mode : Z; nr_uid : Z; nr_gid : Z; nr_size : Z; nr_atime : Z; nr_mtime : Z; nr_ctime : Z;
  nr_current_version_id : option Uuid; nr_generation : Z; nr_link_target : option bytes;
}.
Record CreateNodeRequest : Type := {
  cn_parent_id : Uuid; cn_name : bytes; cn_kind : NodeModel.NodeKind; cn_mode : Z; cn_uid : Z;
  cn_gid : Z; cn_link_target : option bytes; cn_idempotency_key : Uuid;
}.
Record PatchNodeRequest : Type := {
  pn_mode : option Z; pn_uid : option Z; pn_gid : option Z; pn_size : option Z;
  pn_mtime : option Z; pn_atime : option Z;
}.
Record RenameNodeRequest : Type := { rn_new_parent_id : Uuid; rn_new_name : bytes }.

Definition node_to_response (n : NodeRecord) : NodeResponse :=
  {| nr_id := n_id n; nr_parent_id := n_parent_id n; nr_name := n_name n;
     nr_kind := if bool_decide (n_kind n = "directory"%string) then NodeModel.Directory
                else if bool_decide (n_kind n = "symlink"%string) then NodeModel.Symlink else NodeModel.File;
     nr_mode := u32 (n_mode n); nr_uid := u32 (n_uid n); nr_gid := u32 (n_gid n); nr_size := u64 (n_size n);
     nr_atime := n_atime n; nr_mtime := n_mtime n; nr_ctime := n_ctime n;
     nr_current_version_id := n_current_version_id n; nr_generation := u64 (n_generation n);
     nr_link_target := n_link_target n |}.

(** [NameBytes::to_name] and [?]: an invalid name is a bad request. *)
Definition name_message (e : Name.NodeNameError) : string :=
  match e with
  | Name.ContainsNul => "invalid name: filename contains NUL byte"
  | Name.ContainsSlash => "invalid name: filename contains slash"
  | Name.Empty => "invalid name: filename is empty"
  end.

Section Handlers.
Context `{HashOrder} {S : Type} (state : Config).
Abbreviation M := (AppState.M S).

Definition to_name (bs : bytes) : M bytes :=
  match Name.new bs with
  | Ok name => mret name
  | Err e => fail (bad_request (name_message e))
  end.

Definition get_fs_info : M Z := mret (chunk_size state).
Definition get_root : M NodeResponse :=
  n ← query MemoryRepo.get_root; mret (node_to_response n).
Definition get_node (id : Uuid) : M NodeResponse :=
  n ← query (MemoryRepo.get_node id); mret (node_to_response n).

Definition delete_node (id : Uuid) : M Z :=
  node ← query (MemoryRepo.get_node id);
  _ ← (if bool_decide (n_kind node = "directory"%string) then
         children ← query (MemoryRepo.list_children id 1 0);
         if negb (bool_decide (children = [])) then fail directory_not_empty
         else if bool_decide (n_parent_id node = None)
         then fail (bad_request "cannot delete the root directory")
         else mret tt
       else mret tt);
  _ ← update (MemoryRepo.delete_node id);
  mret 204.

Definition patch_node (id : Uuid) (req : PatchNodeRequest) : M NodeResponse :=
  t ← now;
  node ← update (MemoryRepo.update_node_attr t id (i32 <$> pn_mode req) (i32 <$> pn_uid req)
                   (i32 <$> pn_gid req) (i64 <$> pn_size req) (pn_mtime req) (pn_atime req));
  mret (node_to_response node).

Definition rename_node (id : Uuid) (req : RenameNodeRequest) : M NodeResponse :=
  new_name ← to_name (rn_new_name req);
  source ← query (MemoryRepo.get_node id);
  children ← query (MemoryRepo.list_children (rn_new_parent_id req) 1000 0);
  _ ← match list_find (fun c => n_name c = new_name) children with
      | Some (_, target) =>
          if negb (bool_decide (n_id target = id)) && negb (bool_decide (n_kind target = n_kind source))
          then fail (bad_request ("cannot rename a " +:+ n_kind source +:+ " onto a " +:+ n_kind target))
          else mret tt
      | None => mret tt
      end;
  t ← now;
  _ ← update (MemoryRepo.rename_node t id (rn_new_parent_id req) new_name);
  node ← query (MemoryRepo.get_node id);
  mret (node_to_response node).

Definition publish_node (id : Uuid) (req : RenameNodeRequest) : M NodeResponse :=
  new_name ← to_name (rn_new_name req);
  t ← now;
  _ ← update (MemoryRepo.publish_node t id (rn_new_parent_id req) new_name);
  node ← query (MemoryRepo.get_node id);
  mret (node_to_response node).

(** The name has been decoded from base64url by then. *)
Definition lookup_child (parent : Uuid) (name : bytes) : M NodeResponse :=
  n ← query (MemoryRepo.find_child parent name); mret (node_to_response n).

Definition list_children (parent : Uuid) (limit offset : option Z) : M (list NodeResponse * bool) :=
  let limit := default 100 limit in
  children ← query (MemoryRepo.list_children parent limit (default 0 offset));
  mret (node_to_response <$> children, len children =? limit).

Definition create_node (req : CreateNodeRequest) : M (Z * NodeResponse) :=
  name ← to_name (cn_name req);
  match cn_kind req with
  | NodeModel.Symlink =>
      match cn_link_target req with
      | None => fail (bad_request "a symlink needs link_target")
      | Some target =>
          if bool_decide (target = []) then fail (bad_request "a symlink target cannot be empty") else
          t ← now;
          node ← update (MemoryRepo.create_symlink t (cn_idempotency_key req) (cn_parent_id req) name target
                           (i32 (cn_uid req)) (i32 (cn_gid req)));
          mret (201, node_to_response node)
      end
  | kind =>
      if bool_decide (cn_link_target req <> None)
      then fail (bad_request "link_target is only valid when kind is Symlink") else
      let kind_str := match kind with NodeModel.Directory => "directory" | _ => "file" end in
      t ← now;
      node ← update (MemoryRepo.create_node t (cn_idempotency_key req) (cn_parent_id req) name kind_str
                       (i32 (cn_mode req)) (i32 (cn_uid req)) (i32 (cn_gid req)));
      mret (201, node_to_response node)
  end.

(** [path.split('/')], empty segments included. *)
Fixpoint split_slash (p : bytes) : list bytes :=
  match p with
  | [] => [[]]
  | b :: p' =>
      if bool_decide (b = x2f) then [] :: split_slash p'
      else match split_slash p' with
           | [] => [[b]]
           | seg :: segs => (b :: seg) :: segs
           end
  end.
(** [trim_start_matches('/')]. *)
Fixpoint trim_start (p : bytes) : bytes :=
  match p with
  | b :: p' => if bool_decide (b = x2f) then trim_start p' else p
  | [] => []
  end.

(** The loop of [resolve_path] over the segments. *)
Fixpoint walk (segments : list bytes) (current : NodeRecord) : M NodeRecord :=
  match segments with
  | [] => mret current
  | segment :: rest =>
      if bool_decide (segment = []) then walk rest current else
      children ← query (MemoryRepo.list_children (n_id current) 1000 0);
      match list_find (fun c => n_name c = segment) children with
      | Some (_, child) => walk rest child
      | None => fail (not_found "path not found")
      end
  end.

Definition resolve_path (path : bytes) : M NodeResponse :=
  let path := trim_start path in
  root ← query MemoryRepo.get_root;
  if bool_decide (path = []) then mret (node_to_response root) else
  node ← walk (split_slash path) root;
  mret (node_to_response node).

End Handlers.
End Nodes.

(** ** The namespace *)
Module Namespace.
Import Records MemoryRepo AppState.

(** Rows under their ids; every entry is in a directory; no two entries of a
    directory share a name; the root is a directory without a parent. *)
Record entries_ok (r : Repo) : Prop := {
  ent_keyed : forall k n, nodes r !! k = Some n -> n_id n = k;
  ent_parent : forall k n p, nodes r !! k = Some n -> n_parent_id n = Some p ->
    exists d, nodes r !! p = Some d /\ n_kind d = "directory"%string;
  ent_names : forall k1 n1 k2 n2 p, nodes r !! k1 = Some n1 -> nodes r !! k2 = Some n2 ->
    n_parent_id n1 = Some p -> n_parent_id n2 = Some p -> n_name n1 = n_name n2 -> k1 = k2;
  ent_root : exists d, nodes r !! root_id r = Some d /\ n_kind d = "directory"%string /\ n_parent_id d = None;
}.

Definition child_of (r : Repo) (p : Uuid) (name : bytes) (k : Uuid) : Prop :=
  exists n, nodes r !! k = Some n /\ n_parent_id n = Some p /\ n_name n = name.

(** [m] is the entry [n] at another place: nothing but the parent, the name and the
    time of the change is another. *)
Definition relocated (n : NodeRecord) (p : Uuid) (name : bytes) (m : NodeRecord) : Prop :=
  n_parent_id m = Some p /\ n_name m = name /\
  n_id m = n_id n /\ n_kind m = n_kind n /\ n_link_target m = n_link_target n /\
  n_size m = n_size n /\ n_current_version_id m = n_current_version_id n /\ n_generation m = n_generation n /\
  n_mode m = n_mode n /\ n_uid m = n_uid n /\ n_gid m = n_gid n /\
  n_atime m = n_atime n /\ n_mtime m = n_mtime n.

Section Facts.
Context `{HashOrder}.

Lemma is_child_true p name n : is_child p name n = true <-> n_parent_id n = Some p /\ n_name n = name.
Proof. unfold is_child. by rewrite andb_true_iff, !bool_decide_eq_true. Qed.

Lemma existsb_values (f : NodeRecord -> bool) (r : Repo) :
  existsb f (hm_values (nodes r)) = true <-> exists k n, nodes r !! k = Some n /\ f n = true.
Proof.
  rewrite existsb_exists. setoid_rewrite <-list_elem_of_In. setoid_rewrite elem_of_hm_values. naive_solver.
Qed.

Lemma find_child_spec r p name :
  entries_ok r ->
  match find_child p name r with
  | Ok n => child_of r p name (n_id n) /\ nodes r !! n_id n = Some n
  | Err e => e = NotFound /\ forall k, ~ child_of r p name k
  end.
Proof.
  intros Ht. unfold find_child. destruct (filter _ _) as [|n l] eqn:Hf; simpl.
  - split; [done|]. intros k (n & Hn & Hp & Hna).
    assert (Hin : n ∈ filter (fun n => is_child p name n = true) (hm_values (nodes r))).
    { apply list_elem_of_filter. rewrite is_child_true, elem_of_hm_values. eauto. }
    rewrite Hf in Hin. by apply not_elem_of_nil in Hin.
  - assert (Hin : n ∈ filter (fun n => is_child p name n = true) (hm_values (nodes r))) by (rewrite Hf; set_solver).
    apply list_elem_of_filter in Hin as [[Hp Hna]%is_child_true [k Hk]%elem_of_hm_values].
    rewrite (ent_keyed _ Ht _ _ Hk). split; [by exists n|done].
Qed.

Lemma no_children_of r k n :
  entries_ok r -> nodes r !! k = Some n -> n_kind n <> "directory"%string ->
  forall j m, nodes r !! j = Some m -> n_parent_id m <> Some k.
Proof. intros Ht Hk Hkind j m Hj Hp. destruct (ent_parent _ Ht _ _ _ Hj Hp) as (d & Hd & ?). congruence. Qed.

(** Asking for one child tells whether there is any. *)
Lemma listed_children r p :
  exists l, list_children p 1 0 r = Ok l /\
    ((l = [] /\ forall j m, nodes r !! j = Some m -> n_parent_id m <> Some p) \/
     (l <> [] /\ exists j m, nodes r !! j = Some m /\ n_parent_id m = Some p)).
Proof.
  unfold list_children. rewrite zdrop_0 by lia.
  assert (Hin : forall m, m ∈ filter (fun n => is_in p n = true) (hm_values (nodes r)) <->
            exists j, nodes r !! j = Some m /\ n_parent_id m = Some p).
  { intros m. rewrite list_elem_of_filter, elem_of_hm_values. unfold is_in. rewrite bool_decide_eq_true. naive_solver. }
  eexists. split; [reflexivity|]. destruct (filter _ _) as [|x l].
  - left. split; [done|]. intros j m Hj Hp. assert (Hm : m ∈ []) by (apply Hin; eauto). by apply not_elem_of_nil in Hm.
  - right. split; [intros Hnil%(f_equal length); rewrite ztake_take in Hnil; done|].
    destruct (proj1 (Hin x)) as (j & ? & ?); [set_solver|eauto].
Qed.

(** Removing an entry nobody is inside of. *)
Lemma entries_ok_delete r k :
  entries_ok r -> k <> root_id r -> (forall j m, nodes r !! j = Some m -> n_parent_id m <> Some k) ->
  entries_ok (with_nodes r (delete k (nodes r))).
Proof.
  intros [Hk Hp Hn (d & Hd & Hdk & Hdp)] Hroot Hno.
  assert (Hsub : forall j m, delete k (nodes r) !! j = Some m -> nodes r !! j = Some m).
  { intros j m. rewrite lookup_delete. by case_decide. }
  split; simpl.
  - intros j m Hj%Hsub. by apply Hk.
  - intros j m p Hj%Hsub Hpar. destruct (Hp _ _ _ Hj Hpar) as (e & He & Hek). exists e. split; [|done].
    rewrite lookup_delete_ne; [done|]. intros ->. by apply (Hno j m).
  - intros k1 n1 k2 n2 p H1%Hsub H2%Hsub. by apply Hn.
  - exists d. by rewrite lookup_delete_ne.
Qed.

(** Putting an entry where no other entry is. *)
Lemma entries_ok_place r id n parent d name t :
  entries_ok r -> id <> root_id r -> nodes r !! id = Some n ->
  nodes r !! parent = Some d -> n_kind d = "directory"%string ->
  (forall k, k <> id -> ~ child_of r parent name k) ->
  entries_ok (with_nodes r (<[id := set_place (Some parent) name t n]> (nodes r))).
Proof.
  intros [Hk Hp Hn (e & He & Hek & Hep)] Hroot Hid Hpar Hpk Hfree.
  assert (Hdir : forall p f, nodes r !! p = Some f -> n_kind f = "directory"%string ->
    exists f', <[id := set_place (Some parent) name t n]> (nodes r) !! p = Some f' /\ n_kind f' = "directory"%string).
  { intros p f Hf Hfk. rewrite lookup_insert. case_decide; [|eauto]. subst. eexists. split; [done|]. simpl. congruence. }
  split; simpl.
  - intros j m. rewrite lookup_insert. case_decide; [intros [= <-]; subst; by apply Hk in Hid|apply Hk].
  - intros j m p. rewrite lookup_insert. case_decide.
    + intros [= <-] [= <-]. by eapply Hdir.
    + intros Hj Hpj. destruct (Hp _ _ _ Hj Hpj) as (f & Hf & Hfk). by eapply Hdir.
  - intros k1 n1 k2 n2 p. rewrite !lookup_insert. repeat case_decide; subst; try done.
    + intros [= <-] H2 [= <-] Hp2 Hna. destruct (Hfree k2); [done|]. by exists n2.
    + intros H1 [= <-] Hp1 [= <-] Hna. destruct (Hfree k1); [done|]. by exists n1.
    + by apply Hn.
  - exists e. by rewrite lookup_insert_ne.
Qed.

(** The entry a rename would replace. *)
Lemma victim_spec r id parent name :
  entries_ok r ->
  match head (filter (fun n => negb (bool_decide (n_id n = id)) && is_child parent name n = true) (hm_values (nodes r))) with
  | Some v => n_id v <> id /\ nodes r !! n_id v = Some v /\ child_of r parent name (n_id v)
  | None => forall k, k <> id -> ~ child_of r parent name k
  end.
Proof.
  intros Ht. destruct (filter _ _) as [|v l] eqn:Hf; simpl.
  - intros k Hne (n & Hn & Hp & Hna).
    assert (Hin : n ∈ filter (fun n => negb (bool_decide (n_id n = id)) && is_child parent name n = true) (hm_values (nodes r))).
    { apply list_elem_of_filter. rewrite andb_true_iff, is_child_true, elem_of_hm_values.
      rewrite bool_decide_false by (by rewrite (ent_keyed _ Ht _ _ Hn)). eauto. }
    rewrite Hf in Hin. by apply not_elem_of_nil in Hin.
  - assert (Hin : v ∈ filter (fun n => negb (bool_decide (n_id n = id)) && is_child parent name n = true) (hm_values (nodes r)))
      by (rewrite Hf; set_solver).
    apply list_elem_of_filter in Hin as [[Hne [Hp Hna]%is_child_true]%andb_true_iff [k Hk]%elem_of_hm_values].
    apply negb_true_iff, bool_decide_eq_false in Hne. rewrite (ent_keyed _ Ht _ _ Hk) in *. split_and!; [done|done|by exists v].
Qed.

Lemma existsb_is_in r v :
  existsb (is_in v) (hm_values (nodes r)) = true <-> exists j m, nodes r !! j = Some m /\ n_parent_id m = Some v.
Proof. rewrite existsb_values. unfold is_in. by setoid_rewrite bool_decide_eq_true. Qed.

(** What [rename_node] of the repository does, on every branch. *)
Lemma rename_node_spec r t id n parent d name :
  entries_ok r -> id <> root_id r -> nodes r !! id = Some n ->
  nodes r !! parent = Some d -> n_kind d = "directory"%string ->
  match rename_node t id parent name r with
  | (Ok tt, r') => entries_ok r' /\ r' = with_nodes r (nodes r') /\
      (exists m, nodes r' !! id = Some m /\ relocated n parent name m) /\
      (forall k, k <> id -> ~ child_of r parent name k -> nodes r' !! k = nodes r !! k) /\
      (forall k, k <> id -> child_of r parent name k -> nodes r' !! k = None)
  | (Err e, r') => r' = r /\ e = DirectoryNotEmpty /\ exists v j m, v <> id /\ child_of r parent name v /\
      nodes r !! j = Some m /\ n_parent_id m = Some v
  end.
Proof.
  intros Ht Hroot Hid Hpar Hpk. unfold rename_node. rewrite Hid.
  pose proof (victim_spec r id parent name Ht) as Hv. destruct (head _) as [v|]; simpl.
  2: { split_and!; [by eapply entries_ok_place|done| | |].
       - exists (set_place (Some parent) name t n). simpl. by rewrite lookup_insert_eq.
       - intros k Hk _. simpl. by rewrite lookup_insert_ne.
       - intros k Hk Hc. by destruct (Hv k Hk). }
  destruct Hv as (Hne & Hvn & Hvc).
  destruct (bool_decide (n_kind v = "directory"%string) && existsb (is_in (n_id v)) (hm_values (nodes r))) eqn:Hfull.
  { apply andb_true_iff in Hfull as [_ (j & m & Hj & Hm)%existsb_is_in].
    split; [done|]. split; [done|]. exists (n_id v), j, m. by split_and!. }
  assert (Hempty : forall j m, nodes r !! j = Some m -> n_parent_id m <> Some (n_id v)).
  { apply andb_false_iff in Hfull as [Hkind%bool_decide_eq_false|Hno]; [by eapply no_children_of|].
    intros j m Hj Hm. assert (Hyes : existsb (is_in (n_id v)) (hm_values (nodes r)) = true)
      by (apply existsb_is_in; eauto). congruence. }
  assert (Hvr : n_id v <> root_id r).
  { intros Heq. destruct (ent_root _ Ht) as (e & He & _ & Hep). destruct Hvc as (v' & Hv' & Hvp & _). congruence. }
  pose proof (entries_ok_delete r (n_id v) Ht Hvr Hempty) as Ht'.
  assert (Hpv : parent <> n_id v).
  { intros ->. destruct Hvc as (v' & Hv' & Hvp & _). by apply (Hempty _ _ Hv'). }
  simpl. rewrite lookup_delete_ne, Hid by done.
  assert (Hfree : forall k, k <> id -> ~ child_of (with_nodes r (delete (n_id v) (nodes r))) parent name k).
  { intros k Hk (m & Hm & Hmp & Hmn). simpl in Hm. rewrite lookup_delete in Hm. case_decide as Hd; [done|].
    destruct Hvc as (v' & Hv' & Hvp & Hvnm). apply Hd. eapply (ent_names _ Ht); eauto. congruence. }
  split_and!.
  - apply (entries_ok_place (with_nodes r (delete (n_id v) (nodes r))) id n parent d name t Ht'); try done;
      simpl; by rewrite lookup_delete_ne.
  - done.
  - exists (set_place (Some parent) name t n). simpl. by rewrite lookup_insert_eq.
  - intros k Hk Hnc. simpl. rewrite lookup_insert_ne by done. rewrite lookup_delete_ne; [done|]. by intros <-.
  - intros k Hk (m & Hm & Hmp & Hmn). simpl. rewrite lookup_insert_ne by done.
    destruct Hvc as (v' & Hv' & Hvp & Hvnm). replace k with (n_id v); [by rewrite lookup_delete_eq|].
    eapply (ent_names _ Ht); eauto. congruence.
Qed.

(** *** Walking a path *)

(** [names] lead from entry [k] to entry [k']. *)
Inductive reaches (r : Repo) : Uuid -> list bytes -> Uuid -> Prop :=
| reach_here k : reaches r k [] k
| reach_child k name j names k' : child_of r k name j -> reaches r j names k' -> reaches r k (name :: names) k'.

(** No directory has more children than the handlers list. *)
Definition few_children (r : Repo) : Prop :=
  forall p, len (filter (fun n => is_in p n = true) (hm_values (nodes r))) <= 1000.

(** The names joined with slashes. *)
Fixpoint join (names : list bytes) : bytes :=
  match names with
  | [] => []
  | [name] => name
  | name :: names' => name ++ x2f :: join names'
  end.

Lemma split_slash_app name rest :
  (x2f ∉ name) -> Nodes.split_slash (name ++ x2f :: rest) = name :: Nodes.split_slash rest.
Proof.
  induction name as [|b name IH]; intros Hn; simpl; [done|].
  rewrite bool_decide_false by set_solver. by rewrite IH by set_solver.
Qed.
Lemma split_slash_one name : (x2f ∉ name) -> Nodes.split_slash name = [name].
Proof.
  induction name as [|b name IH]; intros Hn; simpl; [done|].
  rewrite bool_decide_false by set_solver. by rewrite IH by set_solver.
Qed.
Lemma split_join names : names <> [] -> Forall Name.valid names -> Nodes.split_slash (join names) = names.
Proof.
  intros Hne Hv. induction Hv as [|name names [Hn [_ Hs]] Hv IH]; [done|].
  destruct names as [|name' names]; [by apply split_slash_one|].
  change (join (name :: name' :: names)) with (name ++ x2f :: join (name' :: names)).
  rewrite split_slash_app by done. by rewrite IH.
Qed.
Lemma trim_valid name rest : Name.valid name -> Nodes.trim_start (name ++ rest) = name ++ rest.
Proof. intros (Hne & _ & Hs). destruct name as [|b name]; [done|]. simpl. rewrite bool_decide_false by set_solver. done. Qed.
Lemma trim_join names : Forall Name.valid names -> Nodes.trim_start (join names) = join names.
Proof.
  destruct 1 as [|name names Hn _]; [done|]. destruct names as [|name' names].
  - simpl. rewrite <-(app_nil_r name). by apply trim_valid.
  - by apply (trim_valid name (x2f :: join (name' :: names))).
Qed.

Lemma listed_child {S} (w : World S) p name j m :
  entries_ok (repo w) -> few_children (repo w) -> child_of (repo w) p name j -> nodes (repo w) !! j = Some m ->
  exists l i, query (list_children p 1000 0) w = (Ok l, w) /\ list_find (fun c => n_name c = name) l = Some (i, m).
Proof.
  intros Ht Hf (n & Hn & Hp & Hna) Hm. assert (n = m) as -> by congruence.
  set (l := filter (fun n => is_in p n = true) (hm_values (nodes (repo w)))).
  assert (Hl : list_children p 1000 0 (repo w) = Ok l)
    by (unfold list_children; rewrite zdrop_0 by lia; by rewrite ztake_all by apply Hf).
  exists l. assert (Hin : m ∈ l).
  { apply list_elem_of_filter. unfold is_in. rewrite bool_decide_true, elem_of_hm_values by done. eauto. }
  destruct (list_find (fun c => n_name c = name) l) as [[i c]|] eqn:Hfind.
  - exists i. unfold query. rewrite Hl. split; [done|]. do 2 f_equal.
    apply list_find_Some in Hfind as (Hi & Hcn & _). apply list_elem_of_lookup_2 in Hi.
    apply list_elem_of_filter in Hi as [Hcp%bool_decide_eq_true [k Hk]%elem_of_hm_values].
    assert (k = j) by (eapply (ent_names _ Ht); eauto; congruence). congruence.
  - apply list_find_None in Hfind. rewrite Forall_forall in Hfind. by destruct (Hfind m Hin).
Qed.

Lemma walk_reaches {S} (w : World S) names k n k' n' :
  entries_ok (repo w) -> few_children (repo w) -> Forall Name.valid names ->
  reaches (repo w) k names k' -> nodes (repo w) !! k = Some n -> nodes (repo w) !! k' = Some n' ->
  Nodes.walk names n w = (Ok n', w).
Proof.
  intros Ht Hf Hv Hr. revert n. induction Hr as [k|k name j names k' Hc Hr IH]; intros n Hn Hn'; [by simplify_eq|].
  apply Forall_cons in Hv as [[Hne _] Hv]. cbn [Nodes.walk]. rewrite bool_decide_false by done.
  pose proof Hc as (m & Hm & _). rewrite (ent_keyed _ Ht _ _ Hn).
  destruct (listed_child w k name j m Ht Hf Hc Hm) as (l & i & Hl & Hfind).
  unfold mbind, M_bind. rewrite Hl, Hfind. by apply IH.
Qed.

End Facts.

(** ** Properties *)

Section Props.
Context `{HashOrder} {S : Type}.
Implicit Types w : World S.

(** Deleting. [delete_node] removes exactly the entry it is given, and only when
    nothing is inside it: a directory that is not empty, the root and a missing
    node are refused with the world unchanged. No entry is ever orphaned. *)
Theorem delete_node_correct w id :
  entries_ok (repo w) ->
  match Nodes.delete_node id w with
  | (Ok status, w') => status = 204 /\ nodes (repo w') = delete id (nodes (repo w)) /\
      is_Some (nodes (repo w) !! id) /\ entries_ok (repo w') /\
      forall j m, nodes (repo w) !! j = Some m -> n_parent_id m <> Some id
  | (Err e, w') => w' = w /\
      (e = Fail (AppErrors.not_found "resource not found") /\ nodes (repo w) !! id = None \/
       e = Fail AppErrors.directory_not_empty /\ (exists j m, nodes (repo w) !! j = Some m /\ n_parent_id m = Some id) \/
       e = Fail (AppErrors.bad_request "cannot delete the root directory") /\
         exists d, nodes (repo w) !! id = Some d /\ n_parent_id d = None)
  end.
Proof.
  intros Ht. unfold Nodes.delete_node, mret, M_ret, mbind, M_bind, query, get_node.
  destruct (nodes (repo w) !! id) as [n|] eqn:Hn; cbn [ok_or map_err]; [|by split; [|left]].
  assert (Hdel : id <> root_id (repo w) -> (forall j m, nodes (repo w) !! j = Some m -> n_parent_id m <> Some id) ->
    let '(res, w') := update (delete_node id) w in
    res = Ok tt /\ nodes (repo w') = delete id (nodes (repo w)) /\ entries_ok (repo w')).
  { intros Hr Hno. unfold update, delete_node. rewrite Hn. simpl. split_and!; try done. by apply entries_ok_delete. }
  destruct (ent_root _ Ht) as (d & Hd & Hdk & Hdp).
  case_bool_decide as Hkind; cbv beta iota.
  - destruct (listed_children (repo w) id) as (l & Hl & Hcase). rewrite Hl. cbn [map_err].
    destruct Hcase as [[-> Hno]|[Hne Hyes]]; [rewrite bool_decide_true by done|rewrite bool_decide_false by done]; simpl.
    + case_bool_decide as Hp; simpl; [by split; [|right; right; eauto]|].
      destruct (update (delete_node id) w) as [res w'] eqn:Hu.
      destruct Hdel as (-> & ? & ?); [congruence|done|]. by split_and!.
    + split; [done|]. right. by left.
  - destruct (update (delete_node id) w) as [res w'] eqn:Hu.
    pose proof (no_children_of _ _ _ Ht Hn Hkind) as Hno.
    destruct Hdel as (-> & ? & ?); [congruence|done|]. by split_and!.
Qed.

(** The outcome a rename may have. *)
Definition rename_outcome w id n parent name (out : result (fault AppErrors.AppError) Nodes.NodeResponse * World S) : Prop :=
  match out with
  | (Ok response, w') => entries_ok (repo w') /\ repo w' = with_nodes (repo w) (nodes (repo w')) /\
      (exists m, nodes (repo w') !! id = Some m /\ relocated n parent name m /\ response = Nodes.node_to_response m) /\
      (forall k, k <> id -> ~ child_of (repo w) parent name k -> nodes (repo w') !! k = nodes (repo w) !! k) /\
      (forall k v, k <> id -> child_of (repo w) parent name k -> nodes (repo w) !! k = Some v ->
         nodes (repo w') !! k = None /\ n_kind v = n_kind n)
  | (Err e, w') => repo w' = repo w /\ exists k v, k <> id /\ child_of (repo w) parent name k /\
      nodes (repo w) !! k = Some v /\
      (e = Fail (AppErrors.bad_request ("cannot rename a " +:+ n_kind n +:+ " onto a " +:+ n_kind v)) /\ n_kind v <> n_kind n \/
       e = Fail AppErrors.directory_not_empty /\ n_kind v = n_kind n /\ exists j m, nodes (repo w) !! j = Some m /\ n_parent_id m = Some k)
  end.

(** The part of the handler after the kinds have been compared. *)
Lemma rename_tail w id n parent d name :
  entries_ok (repo w) -> id <> root_id (repo w) ->
  nodes (repo w) !! id = Some n -> nodes (repo w) !! parent = Some d -> n_kind d = "directory"%string ->
  (forall k v, k <> id -> child_of (repo w) parent name k -> nodes (repo w) !! k = Some v -> n_kind v = n_kind n) ->
  rename_outcome w id n parent name
    ((t ← now; _ ← update (rename_node t id parent name); node ← query (get_node id);
      mret (Nodes.node_to_response node)) w).
Proof.
  intros Ht Hroot Hn Hd Hdk Hkinds. unfold mbind, M_bind, mret, M_ret. cbn [now]. unfold update. cbn [repo].
  pose proof (rename_node_spec (repo w) (clock w (ticks w)) id n parent d name Ht Hroot Hn Hd Hdk) as Hspec.
  destruct (rename_node _ id parent name (repo w)) as [[[]|e] r'].
  - destruct Hspec as (Ht' & Hrest & (m & Hm & Hmoved) & Hsame & Hgone). cbn [map_err]. unfold query, get_node. cbn [repo set_repo].
    rewrite Hm. cbn [ok_or map_err rename_outcome]. simpl repo.
    split_and!; try done; [by exists m|]. intros k v Hk Hck Hv. split; [by apply Hgone|by eapply Hkinds].
  - destruct Hspec as (-> & -> & v & j & m & Hv & Hvc & Hj & Hm). pose proof Hvc as (u & Hu & _).
    simpl. split; [done|]. exists v, u. split_and!; try done. right. split; [done|]. split; [by eapply Hkinds|]. by exists j, m.
Qed.

(** What the handler finds under the new name. *)
Lemma rename_target w parent name :
  entries_ok (repo w) -> few_children (repo w) ->
  exists l, query (list_children parent 1000 0) w = (Ok l, w) /\
    match list_find (fun c => n_name c = name) l with
    | Some (_, target) => child_of (repo w) parent name (n_id target) /\ nodes (repo w) !! n_id target = Some target
    | None => forall k, ~ child_of (repo w) parent name k
    end.
Proof.
  intros Ht Hf. unfold query, list_children. rewrite zdrop_0, ztake_all by (lia || apply Hf). cbn [map_err].
  eexists. split; [reflexivity|]. destruct (list_find _ _) as [[i c]|] eqn:Hfind.
  - apply list_find_Some in Hfind as (Hi & Hcn & _). apply list_elem_of_lookup_2 in Hi.
    apply list_elem_of_filter in Hi as [Hcp%bool_decide_eq_true [k Hk]%elem_of_hm_values].
    rewrite (ent_keyed _ Ht _ _ Hk). split; [by exists c|done].
  - intros k (m & Hm & Hp & Hna). apply list_find_None in Hfind. rewrite Forall_forall in Hfind.
    destruct (Hfind m); [|done]. apply list_elem_of_filter. unfold is_in.
    rewrite bool_decide_true, elem_of_hm_values by done. eauto.
Qed.

(** The handler's outcome, on every branch. *)
Lemma rename_node_cases w id n parent d name :
  entries_ok (repo w) -> few_children (repo w) -> id <> root_id (repo w) -> Name.valid name ->
  nodes (repo w) !! id = Some n -> nodes (repo w) !! parent = Some d -> n_kind d = "directory"%string ->
  rename_outcome w id n parent name
    (Nodes.rename_node id {| Nodes.rn_new_parent_id := parent; Nodes.rn_new_name := name |} w).
Proof.
  intros Ht Hf Hroot Hname Hn Hd Hdk. unfold Nodes.rename_node, Nodes.to_name. cbn [Nodes.rn_new_name Nodes.rn_new_parent_id].
  rewrite (CoreFacts.name_new_valid _ Hname). unfold mbind at 1, M_bind at 1, mret at 1, M_ret at 1.
  assert (Hq : query (get_node id) w = (Ok n, w)) by (unfold query, get_node; by rewrite Hn).
  unfold mbind at 1, M_bind at 1. rewrite Hq.
  destruct (rename_target w parent name Ht Hf) as (l & Hl & Htarget).
  unfold mbind at 1, M_bind at 1. rewrite Hl. unfold mbind at 1, M_bind at 1.
  destruct (list_find _ l) as [[i v]|].
  2: { apply (rename_tail w id n parent d name Ht Hroot Hn Hd Hdk). intros k u _ Hc. by destruct (Htarget k). }
  destruct Htarget as [Hvc Hv].
  destruct (negb (bool_decide (n_id v = id)) && negb (bool_decide (n_kind v = n_kind n))) eqn:Hbad.
  { apply andb_true_iff in Hbad as [?%negb_true_iff%bool_decide_eq_false ?%negb_true_iff%bool_decide_eq_false].
    split; [done|]. exists (n_id v), v. split_and!; try done. by left. }
  apply (rename_tail w id n parent d name Ht Hroot Hn Hd Hdk).
  intros k u Hk Hc Hu. pose proof Hc as (u' & Hu' & Hup & Hun). pose proof Hvc as (v' & Hv' & Hvp & Hvn).
  assert (k = n_id v) as -> by (eapply (ent_names _ Ht); eauto; congruence). assert (u = v) as -> by congruence.
  apply andb_false_iff in Hbad as [?%negb_false_iff%bool_decide_eq_true|?%negb_false_iff%bool_decide_eq_true]; done.
Qed.

(** C40 Renaming. Moving an entry, other than the root, into an existing directory under
    a valid name, in a namespace with unique names and no directory of more than a
    thousand entries, either fails with the repository unchanged, because the entry it
    would replace is of another kind or is a directory with something in it, or leaves
    the entry at its new place, with its content, size, mode, owner and every other
    field but the time of the change as they were, and answers with it; the replaced
    entry, of the same kind, is gone, and every other entry, version and chunk is as it
    was. Names stay unique and every entry stays in a directory. *)
Theorem rename_node_correct w id n parent d name :
  entries_ok (repo w) -> few_children (repo w) -> id <> root_id (repo w) -> Name.valid name ->
  nodes (repo w) !! id = Some n -> nodes (repo w) !! parent = Some d -> n_kind d = "directory"%string ->
  rename_outcome w id n parent name
    (Nodes.rename_node id {| Nodes.rn_new_parent_id := parent; Nodes.rn_new_name := name |} w).
Proof. apply rename_node_cases. Qed.

(** Paths. Resolving the slash-joined names of a chain of entries from the root, with
    or without leading slashes, answers the entry the chain ends in. *)
Theorem resolve_path_correct w names k n slashes :
  entries_ok (repo w) -> few_children (repo w) -> Forall Name.valid names ->
  reaches (repo w) (root_id (repo w)) names k -> nodes (repo w) !! k = Some n ->
  Nodes.resolve_path (replicate slashes x2f ++ join names) w = (Ok (Nodes.node_to_response n), w).
Proof.
  intros Ht Hf Hv Hr Hn. destruct (ent_root _ Ht) as (d & Hd & _).
  assert (Htrim : Nodes.trim_start (replicate slashes x2f ++ join names) = join names).
  { induction slashes as [|s IH]; [by apply trim_join|]. simpl. done. }
  unfold Nodes.resolve_path. rewrite Htrim. unfold mbind, M_bind. unfold query at 1, get_root, get_node. rewrite Hd.
  cbn [ok_or map_err]. destruct names as [|name names].
  { simpl. inversion Hr. by simplify_eq. }
  rewrite bool_decide_false.
  2: { intros Hnil. apply Forall_cons in Hv as [(Hne & _) _]. destruct names; simpl in Hnil; [done|].
       by apply app_eq_nil in Hnil as [? _]. }
  rewrite split_join by done. by rewrite (walk_reaches w (name :: names) (root_id (repo w)) d k n).
Qed.

End Props.
(** *** Witnesses: a directory with one file in it *)

Definition dir : Uuid := 2.
Definition inner : Uuid := 3.
Definition small_repo : Repo :=
  (create_node 0 inner dir [x62] "file" 420 0 0
    (create_node 0 dir 1 [x61] "directory" 493 0 0 (MemoryRepo.new 1%N 0)).2).2.
Definition small : World unit :=
  {| repo := small_repo; store := tt; locks := Locks.new; clock := Z.of_nat; ticks := 0;
     uuids := N.of_nat; drawn := 0 |}.

Lemma small_lookup k n :
  nodes small_repo !! k = Some n ->
  (k = 1%N /\ n_id n = 1%N /\ n_parent_id n = None /\ n_kind n = "directory"%string) \/
  (k = dir /\ n_id n = dir /\ n_parent_id n = Some 1%N /\ n_name n = [x61] /\ n_kind n = "directory"%string) \/
  (k = inner /\ n_id n = inner /\ n_parent_id n = Some dir /\ n_name n = [x62]).
Proof.
  assert (Hn : exists n3 n2 n1, nodes small_repo = <[inner := n3]> (<[dir := n2]> {[ 1%N := n1 ]}) /\
    (n_id n1 = 1%N /\ n_parent_id n1 = None /\ n_kind n1 = "directory"%string) /\
    (n_id n2 = dir /\ n_parent_id n2 = Some 1%N /\ n_name n2 = [x61] /\ n_kind n2 = "directory"%string) /\
    (n_id n3 = inner /\ n_parent_id n3 = Some dir /\ n_name n3 = [x62])).
  { do 3 eexists. split; [reflexivity|]. by split_and!. }
  destruct Hn as (n3 & n2 & n1 & -> & H1 & H2 & H3). rewrite !lookup_insert, lookup_singleton.
  repeat case_decide; intros [= <-]; subst; auto.
Qed.

Lemma small_ok : entries_ok (repo small) /\ few_children (repo small).
Proof.
  split; [split|].
  - intros k n Hk%small_lookup. naive_solver.
  - intros k n p Hk%small_lookup Hp. destruct Hk as [?|[(-> & _ & Hp' & _)|(-> & _ & Hp' & _)]]; [naive_solver| |];
      rewrite Hp' in Hp; injection Hp as <-; eexists; (split; [reflexivity|done]).
  - intros k1 n1 k2 n2 p H1%small_lookup H2%small_lookup Hp1 Hp2 _. unfold dir, inner in *.
    destruct H1 as [?|[?|?]], H2 as [?|[?|?]]; destruct_and?; congruence.
  - eexists. split; [reflexivity|]. done.
  - intros p. etrans; [|instantiate (1 := len (hm_values (nodes (repo small)))); vm_compute; discriminate].
    unfold len. pose proof (length_filter (fun n => is_in p n = true) (hm_values (nodes (repo small)))). lia.
Qed.

Lemma delete_node_correct_witness :
  match Nodes.delete_node inner small with
  | (Ok status, w') => status = 204 /\ entries_ok (repo w')
  | (Err _, _) => False
  end.
Proof.
  pose proof (delete_node_correct small inner (proj1 small_ok)) as Hd.
  assert (Hok : exists w', Nodes.delete_node inner small = (Ok 204, w')) by (eexists; vm_compute; reflexivity).
  destruct Hok as [w' Hok]. rewrite Hok in *. destruct Hd as (? & _ & _ & ? & _). by split.
Defined.

Lemma rename_node_correct_witness : exists n, nodes (repo small) !! inner = Some n /\
  rename_outcome small inner n 1%N [x63] (Nodes.rename_node inner {| Nodes.rn_new_parent_id := 1; Nodes.rn_new_name := [x63] |} small).
Proof.
  eexists. split; [reflexivity|]. destruct small_ok as [Ht Hf].
  eapply (rename_node_correct small inner _ 1%N _ [x63]); [exact Ht|exact Hf|discriminate| |reflexivity|reflexivity|reflexivity].
  split; [discriminate|]. split; apply (bool_decide_unpack _); vm_compute; reflexivity.
Defined.

Lemma resolve_path_correct_witness : exists n,
  Nodes.resolve_path [x2f; x61; x2f; x62] small = (Ok (Nodes.node_to_response n), small) /\ n_id n = inner.
Proof.
  assert (Hn : exists n, nodes (repo small) !! inner = Some n /\ n_id n = inner) by (eexists; split; reflexivity).
  destruct Hn as (n & Hn & Hid). exists n. split; [|exact Hid]. destruct small_ok as [Ht Hf].
  apply (resolve_path_correct small [[x61]; [x62]] inner n 1); [exact Ht|exact Hf| | |exact Hn].
  - repeat constructor; try discriminate; apply (bool_decide_unpack _); vm_compute; reflexivity.
  - eapply (reach_child _ _ _ dir); [|eapply (reach_child _ _ _ inner); [|constructor]];
      eexists; (split; [reflexivity|done]).
Defined.

End Namespace.
