(* ===== verification/Places.v ===== *)
(** * What writing keeps of the tree

    Reading, writing and committing a file leave every entry where it is. The claim is
    closed under the composition of handlers, so it is proved operation by operation. *)
From S2P Require Import Prelude Core Crypto ObjectStore Repository Locks Server Data Nodes.

Module Places.
Import Records MemoryRepo AppState Namespace.

(** Where an entry is, and what it is. *)
Definition place (n : NodeRecord) : Uuid * option Uuid * bytes * string := (n_id n, n_parent_id n, n_name n, n_kind n).
Definition tree (r : Repo) : gmap Uuid (Uuid * option Uuid * bytes * string) * Uuid := (place <$> nodes r, root_id r).

Lemma tree_same r r' : nodes r' = nodes r -> root_id r' = root_id r -> tree r' = tree r.
Proof. intros Hn Hr. unfold tree. by rewrite Hn, Hr. Qed.
Lemma tree_insert r id n n' : nodes r !! id = Some n -> place n' = place n -> tree (with_nodes r (<[id := n']> (nodes r))) = tree r.
Proof.
  intros Hn Hp. unfold tree. simpl. f_equal. rewrite fmap_insert, Hp. apply insert_id. by rewrite lookup_fmap, Hn.
Qed.
Lemma tree_lookup r r' k n : tree r' = tree r -> nodes r !! k = Some n -> exists n', nodes r' !! k = Some n' /\ place n' = place n.
Proof.
  intros [= Ht _] Hn. apply (f_equal (lookup k)) in Ht. rewrite !lookup_fmap, Hn in Ht. simpl in Ht.
  by apply fmap_Some in Ht as (n' & Hn' & Hp); exists n'.
Qed.
Lemma child_of_tree r r' p name k : tree r' = tree r -> child_of r p name k -> child_of r' p name k.
Proof.
  intros Ht (n & Hn & Hp & Hna). destruct (tree_lookup r r' k n Ht Hn) as (n' & Hn' & [= _ Hp' Hna' _]). exists n'. split_and!; congruence.
Qed.
Lemma entries_ok_tree r r' : tree r' = tree r -> entries_ok r -> entries_ok r'.
Proof.
  intros Ht [Hk Hp Hna (d & Hd & Hdk & Hdp)]. assert (Hback : forall k n', nodes r' !! k = Some n' ->
    exists n, nodes r !! k = Some n /\ place n = place n') by (intros k n'; by apply tree_lookup).
  pose proof (f_equal snd Ht) as Hroot. simpl in Hroot. split.
  - intros k n' (n & Hn & Hpl)%Hback. injection Hpl as Hid _ _ _. rewrite <-Hid. by apply Hk.
  - intros k n' p (n & Hn & Hpl)%Hback Hp'. injection Hpl as _ Hpar _ _. rewrite <-Hpar in Hp'.
    destruct (Hp k n p Hn Hp') as (e & He & Hek). destruct (tree_lookup r r' p e Ht He) as (e' & He' & Hpl). injection Hpl as _ _ _ Hke.
    exists e'. split; congruence.
  - intros k1 n1' k2 n2' p (n1 & Hn1 & Hpl1)%Hback (n2 & Hn2 & Hpl2)%Hback Hq1 Hq2 Heq. injection Hpl1 as _ Hp1 Hna1 _. injection Hpl2 as _ Hp2 Hna2 _.
    apply (Hna k1 n1 k2 n2 p); congruence.
  - destruct (tree_lookup r r' (root_id r) d Ht Hd) as (d' & Hd' & Hpl). injection Hpl as _ Hp' _ Hk'. exists d'. rewrite Hroot. split_and!; congruence.
Qed.

(** *** The repository *)

Definition keeps_tree {A} (f : Repo -> result RepositoryError A * Repo) : Prop := forall r, tree (f r).2 = tree r.

Lemma create_staging_places vid t id base cs : keeps_tree (create_staging_version vid t id base cs).
Proof.
  intros r. unfold create_staging_version. destruct (nodes r !! id) as [n|] eqn:Hn; [|done]. simpl.
  etrans; [|by apply (tree_insert r id n (set_content (n_current_version_id n) (i64 (n_generation n + 1)) (n_size n) n))].
  by apply tree_same.
Qed.
Lemma touch_staging_places t vid size : keeps_tree (touch_staging_version t vid size).
Proof. intros r. unfold touch_staging_version. repeat case_match; done. Qed.
Lemma attach_places `{HashOrder} vid i off size h o : keeps_tree (attach_chunk vid i off size h o).
Proof. intros r. unfold attach_chunk. repeat case_match; done. Qed.
Lemma copy_places `{HashOrder} a b i j : keeps_tree (copy_chunk_range a b i j).
Proof. intros r. unfold copy_chunk_range. repeat case_match; done. Qed.
Lemma update_attr_places t id mode uid gid size mtime atime : keeps_tree (update_node_attr t id mode uid gid size mtime atime).
Proof.
  intros r. unfold update_node_attr. destruct (nodes r !! id) as [n|] eqn:Hn; [|done]. simpl. by eapply tree_insert.
Qed.
Lemma commit_version_places t guard size h : keeps_tree (commit_version t guard size h).
Proof.
  intros r. unfold commit_version. destruct (nodes r !! g_node_id guard) as [n|] eqn:Hn; [|done]. do 2 (destruct (negb _); [done|]).
  destruct (versions r !! _); [|done]. destruct (_ !! g_version_id guard); [|done].
  exact (tree_insert r (g_node_id guard) n (set_content (Some (g_version_id guard)) (n_generation n) size n) Hn eq_refl).
Qed.

(** *** Handlers *)

Section Handlers.
Context {S : Type}.
Definition keeps {A} (m : M S A) : Prop := forall w, tree (repo (m w).2) = tree (repo w).

Lemma places_bind {A B} (m : M S A) (f : A -> M S B) : keeps m -> (forall a, keeps (f a)) -> keeps (m ≫= f).
Proof.
  intros Hm Hf w. unfold mbind, M_bind. specialize (Hm w). destruct (m w) as [[a|e] w']; simpl in *; [|done]. by rewrite Hf.
Qed.
Lemma keeps_same {A} (m : M S A) : (forall w, repo (m w).2 = repo w) -> keeps m.
Proof. intros Hm w. by rewrite Hm. Qed.
Lemma keeps_update {A} (f : Repo -> result RepositoryError A * Repo) : keeps_tree f -> keeps (update f).
Proof. intros Hf w. unfold update. specialize (Hf (repo w)). by destruct (f (repo w)). Qed.
Lemma keeps_on_store {A} (f : S -> result Store.ObjectStoreError A * S) : keeps (on_store f).
Proof. intros w. unfold on_store. by destruct (f (store w)). Qed.
Lemma keeps_for_each {A} (l : list A) (f : A -> M S unit) : (forall a, keeps (f a)) -> keeps (for_each l f).
Proof. intros Hf. induction l as [|a l IH]; simpl; [done|]. apply places_bind; [apply Hf|done]. Qed.
Lemma keeps_locked {A} node (m : M S A) : keeps m -> keeps (with_write_lock node m).
Proof.
  intros Hm w. unfold with_write_lock. destruct (Locks.write_lock node (locks w)) as [l ls].
  specialize (Hm (set_locks w ls)). by destruct (m (set_locks w ls)).
Qed.
End Handlers.

Create HintDb keeps.
#[export] Hint Resolve keeps_update keeps_on_store create_staging_places touch_staging_places attach_places copy_places
  update_attr_places commit_version_places : keeps.
(** Goes through a handler, branch by branch. *)
Ltac keeps := repeat first
  [ solve [auto with keeps]
  | apply places_bind; [|intros ?]
  | apply keeps_locked
  | apply keeps_for_each; intros ?
  | solve [apply keeps_same; intros ?; reflexivity]
  | case_match ].

Section Data.
Context `{Aead} `{HashOrder} {S : Type} `{Store.ObjectStore S} (state : Config).

Lemma commit_working_keeps id : keeps (S := S) (Data.commit_working_version id).
Proof. unfold Data.commit_working_version. keeps. Qed.
Lemma write_data_keeps id offset body : keeps (S := S) (Data.write_data state id offset body).
Proof.
  pose proof (commit_working_keeps id). unfold Data.write_data, Data.write_bytes, Data.write_locked, Data.working_version, Data.write_chunk,
    Data.write_chunk_plaintext, Data.read_chunk_plaintext. keeps.
Qed.
Lemma sync_node_keeps id : keeps (S := S) (Data.sync_node id).
Proof. pose proof (commit_working_keeps id). unfold Data.sync_node, Data.commit_node. keeps. Qed.
End Data.
End Places.
