(* ===== verification/Dav.v ===== *)
(** * The WebDAV gateway

    Models [src/crates/dcfs-server/src/dav.rs]: the file system and the open files that the
    [dav-server] library drives. Paths are a type of that library (class [DavPath]); what
    its methods are documented to give is [DavPathLaws]. *)
From Stdlib.Strings Require String.
From S2P Require Import Prelude Core Crypto ObjectStore Repository Locks Server Data Nodes.

Module Dav.
Import Records AppState.

(** The errors of the library that are used. *)
Inductive FsError : Type := NotFoundError | Exists | Forbidden | GeneralFailure.

(** [DavPath] of the library. *)
Class DavPath (P : Type) : Type := {
  as_bytes : P -> bytes;
  file_name_bytes : P -> bytes;
  parent : P -> P;
}.
(** [OpenOptions] of the library, as far as it is looked at. *)
Record OpenOptions : Type := { truncate : bool; create : bool; create_new : bool }.
(** [std::io::SeekFrom]. *)
Inductive SeekFrom : Type := Start (at_ : Z) | Current (by_ : Z) | End_ (by_ : Z).

Record Meta : Type := { m_len : Z; m_is_dir : bool; m_modified : Z }.
Record Entry : Type := { e_name : bytes; e_meta : Meta }.
(** An open file. *)
Record File : Type := { f_node_id : Uuid; f_pos : Z }.

Definition to_fs_error (e : RepositoryError) : FsError :=
  match e with
  | NotFound => NotFoundError
  | AlreadyExists => Exists
  | DirectoryNotEmpty => Forbidden
  | _ => GeneralFailure
  end.

(** [timestamp] is the whole seconds of a time in nanoseconds. *)
Definition meta_of (n : NodeRecord) : Meta :=
  {| m_len := Z.max (n_size n) 0; m_is_dir := bool_decide (n_kind n = "directory"%string);
     m_modified := Z.max (n_mtime n / 1000000000) 0 |}.

(** [u64::saturating_add_signed]. *)
Definition saturating_add_signed (a by_ : Z) : Z := Z.max 0 (Z.min (a + by_) (2 ^ 64 - 1)).

Section Gateway.
Context `{Aead} `{HashOrder} {S : Type} `{Store.ObjectStore S} {P : Type} `{DavPath P}.
Context (state : Config) (sched : nat -> nat).

Definition D (A : Type) : Type := World S -> result (fault FsError) A * World S.
#[global] Instance D_ret : MRet D := fun A a w => (Ok a, w).
#[global] Instance D_bind : MBind D := fun A B f m w =>
  match m w with
  | (Ok a, w') => f a w'
  | (Err e, w') => (Err e, w')
  end.
Definition refuse {A} (e : FsError) : D A := fun w => (Err (Fail e), w).

(** A call of the repository and [.map_err(to_fs_error)?]. *)
Definition ask_repo {A} (f : MemoryRepo.Repo -> result RepositoryError A) : D A := fun w =>
  (map_err (Fail ∘ to_fs_error) (f (repo w)), w).
Definition change_repo {A} (f : MemoryRepo.Repo -> result RepositoryError A * MemoryRepo.Repo) : D A := fun w =>
  let '(res, r) := f (repo w) in (map_err (Fail ∘ to_fs_error) res, set_repo w r).
(** A handler and [.map_err(|_| FsError::GeneralFailure)?]. *)
Definition handler {A} (m : AppState.M S A) : D A := fun w =>
  let '(res, w') := m w in
  (map_err (fun e => match e with Fail _ => Fail GeneralFailure | Panic => Panic end) res, w').
Definition draw {A} (m : AppState.M S A) : D A := handler m.

(** ** Paths *)

Fixpoint resolve_from (segments : list bytes) (node : NodeRecord) : D NodeRecord :=
  match segments with
  | [] => mret node
  | segment :: rest =>
      if bool_decide (segment = []) then resolve_from rest node else
      child ← ask_repo (MemoryRepo.find_child (n_id node) segment);
      resolve_from rest child
  end.
Definition resolve (path : P) : D NodeRecord :=
  root ← ask_repo MemoryRepo.get_root;
  resolve_from (Nodes.split_slash (as_bytes path)) root.
Definition resolve_parent (path : P) : D (NodeRecord * bytes) :=
  let name := file_name_bytes path in
  if bool_decide (name = []) then refuse Forbidden else
  parent ← resolve (parent path);
  mret (parent, name).

(** ** Open files *)

Definition file_metadata (f : File) : D Meta :=
  node ← ask_repo (MemoryRepo.get_node (f_node_id f)); mret (meta_of node).
(** [write_bytes], and [write_buf] of a buffer with these bytes. *)
Definition write_bytes (buf : bytes) (f : File) : D File :=
  written ← handler (Data.write_bytes state (f_node_id f) (f_pos f) buf);
  mret {| f_node_id := f_node_id f; f_pos := f_pos f +u written |}.
Definition read_bytes (count : Z) (f : File) : D (bytes * File) :=
  got ← handler (Data.read_bytes state sched (f_node_id f) (Some (f_pos f)) (Some count));
  mret (got.1, {| f_node_id := f_node_id f; f_pos := f_pos f +u len got.1 |}).
Definition seek (pos : SeekFrom) (f : File) : D (Z * File) :=
  at_ ← match pos with
        | Start at_ => mret at_
        | Current by_ => mret (saturating_add_signed (f_pos f) by_)
        | End_ by_ => node ← ask_repo (MemoryRepo.get_node (f_node_id f)); mret (saturating_add_signed (Z.max (n_size node) 0) by_)
        end;
  mret (at_, {| f_node_id := f_node_id f; f_pos := at_ |}).
Definition flush (f : File) : D unit := handler (Data.commit_node (f_node_id f)).

(** ** The file system *)

Definition metadata (path : P) : D Meta := node ← resolve path; mret (meta_of node).
Definition entry_of (child : NodeRecord) : Entry := {| e_name := n_name child; e_meta := meta_of child |}.
Definition read_dir (path : P) : D (list Entry) :=
  dir ← resolve path;
  if negb (bool_decide (n_kind dir = "directory"%string)) then refuse Forbidden else
  children ← ask_repo (MemoryRepo.list_children (n_id dir) 10000 0);
  mret (entry_of <$> children).

Definition create_node (path : P) (kind : string) (mode : Z) : D NodeRecord :=
  found ← resolve_parent path;
  id ← draw fresh_uuid;
  t ← draw now;
  change_repo (MemoryRepo.create_node t id (n_id found.1) found.2 kind mode 0 0).
Definition open (path : P) (options : OpenOptions) : D File := fun w =>
  let opened (m : D NodeRecord) : D File := node ← m; mret {| f_node_id := n_id node; f_pos := 0 |} in
  match resolve path w with
  | (Ok node, w') =>
      if create_new options then (Err (Fail Exists), w')
      else if bool_decide (n_kind node = "directory"%string) then (Err (Fail Forbidden), w')
      else opened (
        _ ← (if truncate options then
               t ← draw now;
               change_repo (MemoryRepo.update_node_attr t (n_id node) None None None (Some 0) None None)
             else mret node);
        mret node) w'
  | (Err (Fail NotFoundError), w') =>
      if create options || create_new options then opened (create_node path "file" 33188) w' else (Err (Fail NotFoundError), w')
  | (Err e, w') => (Err e, w')
  end.
Definition create_dir (path : P) : D unit := fun w =>
  match resolve path w with
  | (Ok _, w') => (Err (Fail Exists), w')
  | (Err Panic, w') => (Err Panic, w')
  | (Err (Fail _), w') => (_ ← create_node path "directory" 16877; mret tt) w'
  end.
Definition remove_file (path : P) : D unit :=
  node ← resolve path;
  if bool_decide (n_kind node = "directory"%string) then refuse Forbidden else
  change_repo (MemoryRepo.delete_node (n_id node)).
Definition remove_dir (path : P) : D unit :=
  node ← resolve path;
  if negb (bool_decide (n_kind node = "directory"%string)) then refuse Forbidden else
  change_repo (MemoryRepo.delete_node (n_id node)).
Definition rename (from to : P) : D unit :=
  node ← resolve from;
  found ← resolve_parent to;
  t ← draw now;
  change_repo (MemoryRepo.rename_node t (n_id node) (n_id found.1) found.2).

End Gateway.
End Dav.
