(* ===== verification/DavProps.v ===== *)
(** * The WebDAV gateway: paths and open files

    Proofs about [Dav]: a path names the entry its names lead to; an open file is a flat
    file with a position; creating a file makes an empty one under its name. *)
From Stdlib.Strings Require String.
From S2P Require Import Prelude Core Crypto ObjectStore Repository Locks Server Data DataSpec DataWrite DataRead Example DataProps Nodes Dav.

Module DavFacts.
Import Records AppState Spec Namespace Dav.

(** The names in a path. *)
Definition names {P} `{DavPath P} (p : P) : list bytes := filter (fun s => s <> []) (Nodes.split_slash (as_bytes p)).
(** What the library documents: the file name is the last name of the path, and its parent
    is the path without it. *)
Class DavPathLaws (P : Type) `{DavPath P} : Prop := {
  file_name_law : forall p, file_name_bytes p = default [] (last (names p));
  parent_law : forall p, file_name_bytes p <> [] -> names p = names (parent p) ++ [file_name_bytes p];
}.

Lemma dav_bind_Ok {S A B} (m : D A) (f : A -> D B) (w w' : World S) a : m w = (Ok a, w') -> (m ≫= f) w = f a w'.
Proof. intros Hm. unfold mbind, D_bind. by rewrite Hm. Qed.

Lemma slice_cut {A} (l : list A) a b : 0 <= a -> slice l a (Z.min b (len l)) = slice l a b.
Proof.
  intros Ha. destruct (Z.le_ge_cases b (len l)); [by rewrite Z.min_l|]. rewrite Z.min_r by done. unfold slice.
  destruct (Z.le_ge_cases a (len l)); [rewrite !ztake_all; [done|rewrite len_zdrop; lia..]|]. rewrite zdrop_all by done.
  by rewrite !ztake_take, !take_nil.
Qed.

(** ** Paths *)

Section Paths.
Context `{HashOrder} {S : Type} {P : Type} `{DavPath P}.
Implicit Types (w : World S) (p : P).

Lemma resolve_from_spec w segments k n : entries_ok (repo w) -> MemoryRepo.nodes (repo w) !! k = Some n ->
  let '(r, w') := resolve_from segments n w in w' = w /\
  match r with
  | Ok n' => exists k', reaches (repo w) k (filter (fun s => s <> []) segments) k' /\ MemoryRepo.nodes (repo w) !! k' = Some n'
  | Err e => e = Fail NotFoundError /\ forall k', ~ reaches (repo w) k (filter (fun s => s <> []) segments) k'
  end.
Proof.
  intros Ht. revert k n. induction segments as [|s segments IH]; intros k n Hn; simpl.
  { split; [done|]. exists k. by split; [constructor|]. }
  case_bool_decide as Hs.
  { rewrite filter_cons_False by (subst; by intros []). by apply IH. }
  rewrite filter_cons_True by done. unfold mbind, D_bind, ask_repo. rewrite (ent_keyed _ Ht _ _ Hn).
  pose proof (find_child_spec (repo w) k s Ht) as Hc. destruct (MemoryRepo.find_child k s (repo w)) as [m|e]; simpl.
  - destruct Hc as [Hc Hm]. specialize (IH (n_id m) m Hm). destruct (resolve_from segments m w) as [[n'|e] w']; destruct IH as [-> IH].
    + split; [done|]. destruct IH as (k' & Hr & Hk'). exists k'. split; [by econstructor|done].
    + split; [done|]. destruct IH as [-> IH]. split; [done|]. intros k' Hr. inversion Hr as [|? ? j ? ? Hj Hr']; subst.
      apply (IH k'). replace (n_id m) with j; [done|]. destruct Hj as (a & Ha & Hap & Han), Hc as (b & Hb & Hbp & Hbn).
      apply (ent_names _ Ht j a (n_id m) b k); congruence.
  - destruct Hc as [-> Hc]. split; [done|]. split; [done|]. intros k' Hr. inversion Hr; subst. by eapply Hc.
Qed.

(** A path names what its names, empty ones left out, lead to from the root, however many
    entries there are in the directories on the way, and nothing exactly when they lead
    nowhere. *)
Lemma resolve_ok w p : entries_ok (repo w) ->
  let '(r, w') := resolve p w in w' = w /\
  match r with
  | Ok n => exists k, reaches (repo w) (MemoryRepo.root_id (repo w)) (names p) k /\ MemoryRepo.nodes (repo w) !! k = Some n
  | Err e => e = Fail NotFoundError /\ forall k, ~ reaches (repo w) (MemoryRepo.root_id (repo w)) (names p) k
  end.
Proof.
  intros Ht. destruct (ent_root _ Ht) as (d & Hd & _). unfold resolve.
  erewrite dav_bind_Ok by (unfold ask_repo, MemoryRepo.get_root, MemoryRepo.get_node; rewrite Hd; done). by apply resolve_from_spec.
Qed.

Lemma reaches_fun r k l j j' : entries_ok r -> reaches r k l j -> reaches r k l j' -> j = j'.
Proof.
  intros Ht Hr. revert j'. induction Hr as [k|k name j l k' (a & Ha & Hap & Han) Hr IH]; intros j' Hr'; inversion Hr' as [|? ? i ? ? (b & Hb & Hbp & Hbn)]; subst; [done|].
  apply IH. replace j with i; [done|]. apply (ent_names _ Ht i b j a k); congruence.
Qed.

End Paths.

(** ** Open files *)

Inductive HandleOp : Type := Write (buf : bytes) | Read (count : Z) | Seek (pos : SeekFrom) | Flush.
Inductive Answer : Type := Wrote | Got (bs : bytes) | At (pos : Z) | Flushed.

(** A flat file with a position. *)
Definition flat_seek (data : bytes) (at_ : Z) (pos : SeekFrom) : Z :=
  match pos with
  | Start a => a
  | Current by_ => saturating_add_signed at_ by_
  | End_ by_ => saturating_add_signed (len data) by_
  end.
Definition flat_step (op : HandleOp) (c : bytes * Z) : Answer * (bytes * Z) :=
  match op with
  | Write buf => (Wrote, (write_flat c.1 c.2 buf, c.2 + len buf))
  | Read count => let got := slice c.1 c.2 (c.2 + count) in (Got got, (c.1, c.2 + len got))
  | Seek pos => (At (flat_seek c.1 c.2 pos), (c.1, flat_seek c.1 c.2 pos))
  | Flush => (Flushed, c)
  end.
Fixpoint flat_run (ops : list HandleOp) (c : bytes * Z) : list Answer * (bytes * Z) :=
  match ops with
  | [] => ([], c)
  | op :: ops => let '(a, c) := flat_step op c in let '(l, c) := flat_run ops c in (a :: l, c)
  end.
(** Arguments of their types, and files that stay below 2^62 bytes. *)
Definition fits (op : HandleOp) (c : bytes * Z) : Prop :=
  match op with
  | Write buf => c.2 + len buf < 2 ^ 62
  | Read count => 0 <= count < 2 ^ 62
  | Seek (Start a) => 0 <= a < 2 ^ 64
  | _ => True
  end.
Fixpoint all_fit (ops : list HandleOp) (c : bytes * Z) : Prop :=
  match ops with
  | [] => True
  | op :: ops => fits op c /\ all_fit ops (flat_step op c).2
  end.

Section Handles.
Context `{AL : AeadLaws} `{HO : HashOrder} {S : Type} `{OL : Store.ObjectStoreLaws S} (state : Config) (sched : nat -> nat).
Implicit Types (w : World S).

Definition handle_step (op : HandleOp) (f : File) : D (Answer * File) :=
  match op with
  | Write buf => f' ← Dav.write_bytes state buf f; mret (Wrote, f')
  | Read count => got ← Dav.read_bytes state sched count f; mret (Got got.1, got.2)
  | Seek pos => at_ ← Dav.seek pos f; mret (At at_.1, at_.2)
  | Flush => _ ← Dav.flush f; mret (Flushed, f)
  end.
Fixpoint handle_run (ops : list HandleOp) (f : File) : D (list Answer * File) :=
  match ops with
  | [] => mret ([], f)
  | op :: ops => a ← handle_step op f; l ← handle_run ops a.2; mret (a.1 :: l.1, l.2)
  end.

Lemma handler_Ok {A} (m : AppState.M S A) w a w' : m w = (Ok a, w') -> handler m w = (Ok a, w').
Proof. intros Hm. unfold handler. by rewrite Hm. Qed.

Definition at_pos (id : Uuid) (pos : Z) : File := {| f_node_id := id; f_pos := pos |}.
Lemma saturating_range a b : 0 <= saturating_add_signed a b < 2 ^ 64.
Proof. unfold saturating_add_signed. lia. Qed.

Lemma handle_step_ok w id data pos op :
  chunk_fits (chunk_size state) -> 1 <= parallel_chunk_fetches state -> Inv w -> Repr state (repo w) (objs w) id data -> 0 <= pos < 2 ^ 64 ->
  fits op (data, pos) ->
  exists w', handle_step op (at_pos id pos) w = (Ok ((flat_step op (data, pos)).1, at_pos id (flat_step op (data, pos)).2.2), w') /\
    Inv w' /\ touches id w w' /\ Repr state (repo w') (objs w') id (flat_step op (data, pos)).2.1 /\ 0 <= (flat_step op (data, pos)).2.2 < 2 ^ 64.
Proof.
  intros Hcs Hpar HI HR Hpos Hfit. destruct op as [buf|count|sk|]; simpl in Hfit |- *.
  - destruct (DataProps.write_bytes_ok state w id data pos buf Hcs HI HR) as (w' & Hw & HI' & Ht & HR'); [lia|lia|]. exists w'.
    pose proof (len_nonneg buf). unfold Dav.write_bytes. simpl. erewrite dav_bind_Ok; [|erewrite dav_bind_Ok by (apply handler_Ok, Hw); reflexivity].
    rewrite wadd_id by lia. split; [done|]. split_and!; try done; lia.
  - destruct (ReadFacts.read_bytes_ok state Hpar w sched id data (Some pos) (Some count) HI HR) as (s' & c & Hr & [Hsd Hs] & _);
      [intros o [= <-]; lia|intros o [= <-]; lia|].
    unfold ReadFacts.read_flat in Hr. simpl in Hr. rewrite slice_cut in Hr by lia.
    set (got := slice data pos (pos + count)) in *. assert (Hlen : pos + len got < 2 ^ 64).
    { unfold got. rewrite len_slice. pose proof (repr_size _ _ _ _ _ HR). lia. }
    exists (set_store w s'). pose proof (len_nonneg got).
    unfold Dav.read_bytes. simpl. erewrite dav_bind_Ok; [|erewrite dav_bind_Ok by (apply handler_Ok, Hr); reflexivity]. simpl.
    rewrite wadd_id by lia. split; [done|]. destruct HI as [Hk [Hinj Hnew _]]. pose proof (len_nonneg got).
    assert (Ho : objs (set_store w s') = objs w) by exact Hs.
    split; [split; [exact Hk|split; [exact Hinj| |exact Hsd]]; intros n Hn; rewrite Ho; by apply Hnew|].
    split; [split; try done; by rewrite Ho|]. split; [by rewrite Ho|lia].
  - exists w. assert (Hrun : Dav.seek sk (at_pos id pos) w = (Ok (flat_seek data pos sk, at_pos id (flat_seek data pos sk)), w)).
    { destruct sk as [a|b|b]; [done|done|]. destruct HR as [_ (n & Hn & _ & Hsz & _)]. unfold Dav.seek. pose proof (len_nonneg data).
      erewrite dav_bind_Ok; [|erewrite dav_bind_Ok by (unfold ask_repo, MemoryRepo.get_node; cbn [f_node_id at_pos]; rewrite Hn; reflexivity); reflexivity].
      by rewrite Hsz, Z.max_l by lia. }
    erewrite dav_bind_Ok by exact Hrun. split; [done|]. split; [done|]. split; [reflexivity|]. split; [done|].
    destruct sk; [done|apply saturating_range..].
  - destruct (DataProps.commit_node_ok state w id data HI HR) as (w' & Hw & HI' & Ht & HR' & _). exists w'.
    unfold Dav.flush. erewrite dav_bind_Ok by (apply handler_Ok, Hw). by repeat (split; [done|]).
Qed.

(** C16 An open file is a flat file with a position. Whatever writes, reads, seeks and
    flushes go through an open file, they all succeed, with the answers of a flat list of
    bytes with a cursor; afterwards the file has the bytes of the flat one, and no other
    file has changed. *)
Theorem dav_file_refines w id data pos ops :
  chunk_fits (chunk_size state) -> 1 <= parallel_chunk_fetches state -> Inv w -> Repr state (repo w) (objs w) id data -> 0 <= pos < 2 ^ 64 ->
  all_fit ops (data, pos) ->
  exists w', handle_run ops (at_pos id pos) w = (Ok ((flat_run ops (data, pos)).1, at_pos id (flat_run ops (data, pos)).2.2), w') /\
    Inv w' /\ Repr state (repo w') (objs w') id (flat_run ops (data, pos)).2.1 /\
    forall id2 data2, id2 <> id -> Repr state (repo w) (objs w) id2 data2 -> Repr state (repo w') (objs w') id2 data2.
Proof.
  intros Hcs Hpar. revert w data pos. induction ops as [|op ops IH]; intros w data pos HI HR Hpos Hfit; [by exists w|].
  destruct Hfit as [Hf Hfit]. destruct (handle_step_ok w id data pos op Hcs Hpar HI HR Hpos Hf) as (w1 & Hw1 & HI1 & Ht & HR1 & Hpos1).
  cbn [handle_run flat_run]. erewrite dav_bind_Ok by exact Hw1. destruct (flat_step op (data, pos)) as [a [data1 pos1]]. simpl in *.
  destruct (IH w1 data1 pos1 HI1 HR1 Hpos1 Hfit) as (w2 & Hw2 & HI2 & HR2 & Hothers). exists w2.
  erewrite dav_bind_Ok by exact Hw2. destruct (flat_run ops (data1, pos1)) as [l [data2 pos2]]. simpl in *. repeat (split; [done|]).
  intros id2 d2 Hne Hd2. apply Hothers; [done|]. by apply (SpecFacts.Repr_frame state w w1 id).
Qed.

End Handles.
(** ** Creating *)

Section Create.
Context `{AL : AeadLaws} `{HO : HashOrder} {S : Type} `{OL : Store.ObjectStoreLaws S} (state : Config).
Context {P : Type} {DP : DavPath P} {DL : DavPathLaws P}.
Implicit Types (w : World S) (p : P).

(** The identifier that is drawn next is no node's, and no version is of it. *)
Definition next_is_new w : Prop :=
  MemoryRepo.nodes (repo w) !! uuids w (drawn w) = None /\
  forall k v, MemoryRepo.versions (repo w) !! k = Some v -> v_node_id v <> uuids w (drawn w).

Definition with_node r id n := MemoryRepo.with_nodes r (<[id := n]> (MemoryRepo.nodes r)).
Lemma entries_ok_insert r k d id n name :
  entries_ok r -> MemoryRepo.nodes r !! k = Some d -> n_kind d = "directory"%string -> MemoryRepo.nodes r !! id = None ->
  (forall j, ~ child_of r k name j) -> n_id n = id -> n_parent_id n = Some k -> n_name n = name -> entries_ok (with_node r id n).
Proof.
  intros [Hk Hp Hn (root & Hr & Hrk & Hrp)] Hd Hdk Hnew Hfree Hid Hpar Hname.
  assert (Hlook : forall j m, <[id := n]> (MemoryRepo.nodes r) !! j = Some m -> (j = id /\ m = n) \/ MemoryRepo.nodes r !! j = Some m).
  { intros j m. rewrite lookup_insert. case_decide; [intros [= <-]; by left|by right]. }
  assert (Hkeep : forall j m, MemoryRepo.nodes r !! j = Some m -> <[id := n]> (MemoryRepo.nodes r) !! j = Some m).
  { intros j m Hj. rewrite lookup_insert_ne; [done|]. intros <-. congruence. }
  split; simpl.
  - intros j m [[-> ->]|Hj]%Hlook; [done|by apply Hk].
  - intros j m q [[-> ->]|Hj]%Hlook Hq.
    + exists d. assert (q = k) as -> by congruence. split; [by apply Hkeep|done].
    + destruct (Hp _ _ _ Hj Hq) as (e & He & Hek). exists e. split; [by apply Hkeep|done].
  - intros k1 n1 k2 n2 q [[-> ->]|Ha1]%Hlook [[-> ->]|Ha2]%Hlook Hq1 Hq2 Heq; [done| | |by apply (Hn k1 n1 k2 n2 q)].
    + destruct (Hfree k2). exists n2. split_and!; congruence.
    + destruct (Hfree k1). exists n1. split_and!; congruence.
  - exists root. split; [by apply Hkeep|done].
Qed.
Lemma reaches_insert r id n k l j : MemoryRepo.nodes r !! id = None -> reaches r k l j -> reaches (with_node r id n) k l j.
Proof.
  intros Hnew. induction 1 as [k|k name j l k' (m & Hm & Hmp & Hmn) Hr IH]; [constructor|]. econstructor; [|done].
  exists m. split; [|done]. simpl. rewrite lookup_insert_ne; [done|]. intros <-. congruence.
Qed.
Lemma reaches_snoc r k l j name j' : reaches r k l j -> child_of r j name j' -> reaches r k (l ++ [name]) j'.
Proof. induction 1; intros Hc; simpl; econstructor; eauto. constructor. Qed.

Lemma new_entry_ok w k d id t name : Inv w -> entries_ok (repo w) -> MemoryRepo.nodes (repo w) !! k = Some d -> n_kind d = "directory"%string ->
  id = uuids w (drawn w) -> next_is_new w -> (forall j, ~ child_of (repo w) k name j) ->
  exists n, MemoryRepo.create_node t id k name "file" 33188 0 0 (repo w) = (Ok n, with_node (repo w) id n) /\ n_id n = id /\
    n_parent_id n = Some k /\ n_name n = name /\
    forall w', repo w' = with_node (repo w) id n -> store w' = store w -> uuids w' = uuids w -> drawn w' = Datatypes.S (drawn w) ->
      Inv w' /\ entries_ok (repo w') /\ Repr state (repo w') (objs w') id [] /\
      forall id2 data2, Repr state (repo w) (objs w) id2 data2 -> Repr state (repo w') (objs w') id2 data2.
Proof.
  intros [Hkey [Hinj Hfresh Hsd]] He Hd Hdk Hid [Hnew Hnov] Hfree. rewrite <-Hid in *. unfold MemoryRepo.create_node. rewrite Hnew.
  eexists. split; [reflexivity|]. repeat (split; [reflexivity|]). intros w' Hr Hs Hu Hdr. rewrite Hr.
  match goal with |- context [with_node _ _ ?m] => set (n := m) in * end.
  assert (Ho : objs w' = objs w) by (unfold objs; by rewrite Hs). rewrite Ho.
  assert (Htouch : touches id w w').
  { split; rewrite ?Hr, ?Ho; try done. intros j Hj. simpl. by rewrite lookup_insert_ne. }
  split.
  { split; [|split].
    - rewrite Hr. destruct Hkey as [Hv Hn Hc Hst]. split; simpl; [done| | |done].
      + intros j m. rewrite lookup_insert. case_decide; [intros [= <-]; by subst j|by apply Hn].
      + intros j m vid. rewrite lookup_insert. case_decide; [by intros [= <-]|by apply Hc].
    - by rewrite Hu.
    - intros m Hm. rewrite Hu, Hr, Ho. apply Hfresh. lia.
    - by rewrite Hs. }
  split; [by apply (entries_ok_insert (repo w) k d id n name)|]. split.
  - split; [rewrite len_nil; lia|]. exists n. split; [simpl; apply lookup_insert_eq|]. split; [done|]. split; [done|]. right. split; [|done].
    intros v (Hv & Hvn & _). simpl in Hv. by apply (Hnov _ _ Hv).
  - intros id2 data2 HR. pose proof HR as [_ (m & Hm & _)]. rewrite <-Hr, <-Ho. apply (SpecFacts.Repr_frame state w w' id); [done| |done].
    intros ->. congruence.
Qed.

Lemma names_nonempty p : Forall (fun s => s <> []) (names p).
Proof. apply Forall_forall. intros s [? _]%list_elem_of_filter. done. Qed.
Lemma names_root_reaches r p : names p = [] -> reaches r (MemoryRepo.root_id r) (names p) (MemoryRepo.root_id r).
Proof. intros ->. constructor. Qed.

(** Creating a file. Opening a path that names nothing, in a directory that is there,
    with leave to create makes an empty file of that name in that directory, with the
    position at its start; every entry keeps a name of its own in a directory, and no
    other file changes. *)
Theorem dav_open_creates w p k d options :
  Inv w -> entries_ok (repo w) -> next_is_new w -> create options || create_new options = true ->
  (forall j, ~ reaches (repo w) (MemoryRepo.root_id (repo w)) (names p) j) ->
  reaches (repo w) (MemoryRepo.root_id (repo w)) (names (parent p)) k ->
  MemoryRepo.nodes (repo w) !! k = Some d -> n_kind d = "directory"%string ->
  exists id w', Dav.open p options w = (Ok (at_pos id 0), w') /\ Inv w' /\ entries_ok (repo w') /\
    reaches (repo w') (MemoryRepo.root_id (repo w')) (names p) id /\ Repr state (repo w') (objs w') id [] /\
    forall id2 data2, Repr state (repo w) (objs w) id2 data2 -> Repr state (repo w') (objs w') id2 data2.
Proof.
  intros HI He Hnext Hopt Hno Hk Hd Hdk. pose proof (resolve_ok w p He) as Hres.
  assert (Hname : file_name_bytes p <> []).
  { rewrite file_name_law. destruct (last (names p)) as [s|] eqn:Hl; simpl.
    - pose proof (names_nonempty p) as Hall. rewrite Forall_forall in Hall. apply Hall. apply last_Some in Hl as [l ->]. set_solver.
    - apply last_None in Hl. destruct (Hno (MemoryRepo.root_id (repo w))). by apply names_root_reaches. }
  pose proof (parent_law p Hname) as Hp. unfold Dav.open. destruct (resolve p w) as [[n|e] w0]; destruct Hres as [-> Hres].
  { destruct Hres as (j & Hj & _). by destruct (Hno j). }
  destruct Hres as [-> _]. rewrite Hopt.
  pose proof (resolve_ok w (parent p) He) as Hpar. unfold create_node, resolve_parent.
  rewrite bool_decide_false by done. destruct (resolve (parent p) w) as [[dir|e] w0] eqn:Hrp; destruct Hpar as [-> Hpar].
  2: { destruct Hpar as [_ Hpar]. by destruct (Hpar k). }
  destruct Hpar as (k' & Hk' & Hdir). assert (k' = k) as -> by (by eapply reaches_fun). assert (dir = d) as -> by congruence.
  assert (Hfree : forall j, ~ child_of (repo w) k (file_name_bytes p) j).
  { intros j Hj. apply (Hno j). rewrite Hp. by eapply reaches_snoc. }
  destruct (new_entry_ok w k d (uuids w (drawn w)) (clock w (ticks w)) (file_name_bytes p) HI He Hd Hdk eq_refl Hnext Hfree)
    as (n & Hcreate & Hid & Hpn & Hnm & Hnew).
  unfold draw, handler, change_repo, mbind, D_bind. rewrite Hrp. cbn -[MemoryRepo.create_node]. rewrite (ent_keyed _ He _ _ Hd).
  rewrite Hcreate. cbn. rewrite Hid. eexists _, _. split; [reflexivity|]. match goal with |- Inv ?w' /\ _ => destruct (Hnew w' eq_refl eq_refl eq_refl eq_refl) as (HI' & He' & HR' & Hothers) end.
  split; [exact HI'|]. split; [exact He'|]. split; [|by split]. rewrite Hp. eapply reaches_snoc.
  - apply reaches_insert; [apply Hnext|exact Hk].
  - exists n. split; [apply lookup_insert_eq|done].
Qed.

End Create.
End DavFacts.
