(* ===== verification/DavExample.v ===== *)
(** * WebDAV on a small server

    Paths as the bytes they are, the theorems of [DavProps] on the server of [Example], and
    runs of the gateway that end where they should not. *)
From Stdlib.Strings Require String.
From S2P Require Import Prelude Core Crypto ObjectStore Repository Locks Server Data DataSpec DataWrite DataRead Example DataProps Gc Nodes Dav DavProps.

Module DavExample.
Import Records AppState Spec Namespace Dav DavFacts Example.

(** ** Paths *)

Definition segments (b : bytes) : list bytes := filter (fun s => s <> []) (Nodes.split_slash b).
Definition rejoin (l : list bytes) : bytes := concat ((fun s => x2f :: s) <$> l).
#[export] Instance raw_path : DavPath bytes := {|
  as_bytes := fun b => b;
  file_name_bytes := fun b => default [] (last (segments b));
  parent := fun b => rejoin (removelast (segments b)) |}.

Lemma split_slash_free b : Forall (fun s => x2f ∉ s) (Nodes.split_slash b).
Proof.
  induction b as [|c b IH]; simpl; [repeat constructor; by apply not_elem_of_nil|]. case_bool_decide as Hc.
  - constructor; [by apply not_elem_of_nil|done].
  - destruct (Nodes.split_slash b) as [|s l]; [repeat constructor; set_solver|]. apply Forall_cons in IH as [Hs Hl]. constructor; [set_solver|done].
Qed.
Lemma segments_rejoin l : Forall (fun s => (x2f ∉ s) /\ s <> []) l -> segments (rejoin l) = l.
Proof.
  assert (Hgo : forall l, Forall (fun s => (x2f ∉ s) /\ s <> []) l -> Nodes.split_slash (rejoin l) = [] :: l).
  { clear l. induction 1 as [|s l [Hs Hne] Hl IH]; [done|]. unfold rejoin in *. cbn [fmap list_fmap concat app Nodes.split_slash].
    rewrite bool_decide_true by done. f_equal. destruct l as [|s' l]; [simpl; rewrite app_nil_r; by apply split_slash_one|].
    change (concat ((fun s => x2f :: s) <$> s' :: l)) with (x2f :: s' ++ concat ((fun s => x2f :: s) <$> l)) in *.
    rewrite split_slash_app by done. f_equal. simpl in IH. by injection IH as ->. }
  intros Hl. unfold segments. rewrite Hgo by done. rewrite filter_cons_False by (by intros []).
  induction Hl as [|s l [_ Hs] Hl IH]; [done|]. rewrite filter_cons_True by done. by rewrite IH.
Qed.
Lemma segments_ok b : Forall (fun s => (x2f ∉ s) /\ s <> []) (segments b).
Proof.
  apply Forall_forall. intros s [Hne Hin]%list_elem_of_filter. split; [|done].
  pose proof (split_slash_free b) as Hall. rewrite Forall_forall in Hall. by apply Hall.
Qed.
#[export] Instance raw_path_laws : DavPathLaws bytes.
Proof.
  split; [done|]. intros b Hne. unfold names. simpl in *. change (filter _ (Nodes.split_slash ?x)) with (segments x).
  pose proof (segments_ok b) as Hok. destruct (last (segments b)) as [s|] eqn:Hl; [|done]. apply last_Some in Hl as [l Hl].
  rewrite Hl in *. rewrite removelast_last. simpl. change (filter _ (Nodes.split_slash ?x)) with (segments x).
  rewrite segments_rejoin; [done|]. by apply Forall_app in Hok as [? _].
Qed.

(** ** The theorems *)

Lemma empty_file_entries : entries_ok (repo empty_file).
Proof.
  assert (Hlook : forall k n, MemoryRepo.nodes (repo empty_file) !! k = Some n ->
    (k = root /\ n_id n = root /\ n_parent_id n = None /\ n_kind n = "directory"%string) \/
    (k = file /\ n_id n = file /\ n_parent_id n = Some root /\ n_name n = [x61])).
  { assert (Hn : exists n1 n0, MemoryRepo.nodes (repo empty_file) = <[file := n1]> {[ root := n0 ]} /\
      (n_id n1 = file /\ n_parent_id n1 = Some root /\ n_name n1 = [x61]) /\ n_id n0 = root /\ n_parent_id n0 = None /\ n_kind n0 = "directory"%string)
      by (do 2 eexists; split; [reflexivity|]; by split_and!).
    destruct Hn as (n1 & n0 & -> & Hn1 & Hn0). intros k n. rewrite lookup_insert. case_decide; [intros [= <-]; subst; by right|].
    rewrite lookup_singleton. case_decide; [|done]. intros [= <-]. subst. by left. }
  split.
  - intros k n [(-> & ? & _)|(-> & ? & _)]%Hlook; done.
  - intros k n p [(-> & _ & Hp & _)|(-> & _ & Hp & _)]%Hlook Hq; [congruence|]. assert (p = root) as -> by congruence.
    eexists. split; [reflexivity|reflexivity].
  - intros k1 n1 k2 n2 p [(-> & _ & Hp1 & _)|(-> & _ & Hp1 & _)]%Hlook [(-> & _ & Hp2 & _)|(-> & _ & Hp2 & _)]%Hlook; congruence.
  - eexists. split; [reflexivity|]. done.
Qed.
Example a_is_found : n_id <$> (resolve (text "//a") empty_file).1 = Ok file.
Proof. vm_compute. reflexivity. Qed.

Definition session : list HandleOp := [Write (text "hello"); Seek (Start 1); Read 3; Flush; Seek (End_ (-1)); Read 10].
Lemma dav_file_refines_witness : exists w',
  handle_run config (fun n => n) session (at_pos file 0) empty_file =
    (Ok ([Wrote; At 1; Got (text "ell"); Flushed; At 4; Got (text "o")], at_pos file 5), w') /\
  Repr config (repo w') (objs w') file (text "hello").
Proof.
  destruct (dav_file_refines config (fun n => n) empty_file file [] 0 session) as (w' & Hrun & _ & HR & _).
  - exact config_fits.
  - vm_compute. discriminate.
  - exact example_inv.
  - exact example_repr.
  - lia.
  - vm_compute. repeat split; discriminate.
  - exists w'. split; [exact Hrun|exact HR].
Defined.

Lemma dav_open_creates_witness : exists id w',
  Dav.open (text "/b") {| truncate := true; create := true; create_new := false |} empty_file = (Ok (at_pos id 0), w') /\
  reaches (repo w') (MemoryRepo.root_id (repo w')) (names (text "/b")) id /\ Repr config (repo w') (objs w') id [].
Proof.
  destruct (resolve (text "/b") empty_file) as [r w0] eqn:Hr. pose proof (resolve_ok empty_file (text "/b") empty_file_entries) as Hres.
  rewrite Hr in Hres. vm_compute in Hr. injection Hr as <- _. destruct Hres as [_ [_ Hno]].
  destruct (ent_root _ empty_file_entries) as (d & Hd & Hdk & _).
  destruct (dav_open_creates config empty_file (text "/b") root d {| truncate := true; create := true; create_new := false |})
    as (id & w' & Hopen & _ & _ & Hreach & HR & _); [exact example_inv|exact empty_file_entries| |reflexivity|exact Hno|constructor|exact Hd|exact Hdk|].
  - split; [reflexivity|]. intros k v Hv. change (MemoryRepo.versions (repo empty_file)) with (∅ : gmap Uuid FileVersionRecord) in Hv.
    by rewrite lookup_empty in Hv.
  - exists id, w'. split; [exact Hopen|]. split; [exact Hreach|exact HR].
Defined.

(** ** Runs that end elsewhere *)

Definition put_options : OpenOptions := {| truncate := true; create := true; create_new := false |}.
Definition put (path : string) (body : bytes) : D unit :=
  f ← Dav.open (text path) put_options; f ← Dav.write_bytes config body f; Dav.flush f.
Definition content (path : string) : D bytes :=
  f ← Dav.open (text path) {| truncate := false; create := false; create_new := false |};
  got ← Dav.read_bytes config (fun n => n) 100 f; mret got.1.

(** A file is created inside a file. *)
Lemma put_inside_a_file :
  ((_ ← put "/a/b" (text "x"); content "/a/b") empty_file).1 = Ok (text "x") /\ n_kind <$> (MemoryRepo.get_node file (repo empty_file)) = Ok "file"%string.
Proof. vm_compute. auto. Qed.
(** A directory is removed with something in it, which stays behind without a directory. *)
Lemma removed_dir_leaves_orphans :
  let w := ((_ ← Dav.create_dir (text "/d"); _ ← put "/d/x" (text "x"); Dav.remove_dir (text "/d")) empty_file : result (fault FsError) unit * _).2 in
  ((_ ← Dav.create_dir (text "/d"); _ ← put "/d/x" (text "x"); Dav.remove_dir (text "/d")) empty_file).1 = Ok tt /\
  existsb (fun n => bool_decide (n_name n = text "x") && negb (bool_decide (n_parent_id n = Some root))) (hm_values (MemoryRepo.nodes (repo w))) = true.
Proof. vm_compute. auto. Qed.
(** A file is replaced by an empty one; the next sweep brings its bytes back. *)
Lemma empty_put_is_undone :
  let w := ((_ ← put "/a" (text "hello"); put "/a" []) empty_file).2 in
  (content "/a" w).1 = Ok [] /\ (content "/a" (Gc.collect_once 100 w).2).1 = Ok (text "hello").
Proof. vm_compute. auto. Qed.

End DavExample.
