(* ===== verification/WriteLog.v ===== *)
(** * The write log of the mount

    Models [src/crates/dcfs-cache/src/journal.rs] (module [Journal]) and
    [src/crates/dcfs-fuse/src/writelog.rs] (module [WriteLog]): the durable record of
    writes that were accepted but not yet sent. A run's file is known by the UUID it is
    named after; the journal is the list of the entries its complete lines parse to, and
    what a failed append may have left after them. Every file operation may fail:
    [faults n] is [Some k] when the [n]-th one fails after transferring [k] bytes; for an
    append to the journal, which writes a line and then its end, [0] is nothing, [1] a part
    of the line, and more the line without its end. *)
From S2P Require Import Prelude.

Module Journal.

Record JournalEntry : Type := {
  je_node_id : Uuid;
  je_base_version_id : option Uuid;
  je_generation : Z;
  je_local_path : Uuid;
  je_offset : Z;
  je_logical_size : Z;
  je_dirty : bool;
}.

(** What follows the last complete line: nothing, a whole entry, or something no reader
    makes an entry of. *)
Inductive Tail : Type := Ended | Unended (e : JournalEntry) | Torn.

(** The directory: the runs' files and the journal, which may not exist. *)
Record Dir : Type := { files : gmap Uuid bytes; journal : option (list JournalEntry); tail : Tail; io : nat }.

Definition set_files (d : Dir) (fs : gmap Uuid bytes) : Dir :=
  {| files := fs; journal := journal d; tail := tail d; io := S (io d) |}.
Definition set_lines (d : Dir) (j : option (list JournalEntry)) (t : Tail) : Dir :=
  {| files := files d; journal := j; tail := t; io := S (io d) |}.
Definition set_journal (d : Dir) (j : option (list JournalEntry)) : Dir := set_lines d j (tail d).
Definition lines (d : Dir) : list JournalEntry := default [] (journal d).

Section Ops.
Context (faults : nat -> option nat).

(** A line that is written after an unfinished one continues it, and neither can be read. *)
Definition record_dirty (e : JournalEntry) (d : Dir) : result unit unit * Dir :=
  match faults (io d) with
  | None => (Ok tt, set_lines d (Some (match tail d with Ended => lines d ++ [e] | _ => lines d end)) Ended)
  | Some O => (Err tt, set_journal d (journal d))
  | Some (S O) => (Err tt, set_lines d (Some (lines d)) Torn)
  | Some (S (S _)) => (Err tt, set_lines d (Some (lines d)) (match tail d with Ended => Unended e | _ => Torn end))
  end.

Definition recover (d : Dir) : result unit (list JournalEntry) * Dir :=
  match journal d with
  | None => (Ok [], d)
  | Some entries =>
      match faults (io d) with
      | Some _ => (Err tt, set_journal d (journal d))
      | None => (Ok (entries ++ match tail d with Unended e => [e] | _ => [] end), set_journal d (journal d))
      end
  end.

Definition clear (d : Dir) : result unit unit * Dir :=
  match journal d with
  | None => (Ok tt, d)
  | Some _ =>
      match faults (io d) with
      | Some _ => (Err tt, set_journal d (journal d))
      | None => (Ok tt, set_lines d None Ended)
      end
  end.

End Ops.
End Journal.

Module WriteLog.
Import Journal.

Record PendingRun : Type := { pr_node_id : Uuid; pr_offset : Z; pr_data : bytes }.

Section Ops.
Context (faults : nat -> option nat).

(** [begin], for the fresh name [path]. *)
Definition begin_run (path : Uuid) (node_id : Uuid) (offset : Z) (data : bytes) (d : Dir) : result unit Uuid * Dir :=
  match faults (io d) with
  | Some k => (Err tt, set_files d (<[path := take k data]> (files d)))
  | None =>
      let d := set_files d (<[path := data]> (files d)) in
      match record_dirty faults {| je_node_id := node_id; je_base_version_id := None; je_generation := 0;
              je_local_path := path; je_offset := offset; je_logical_size := len data; je_dirty := true |} d with
      | (Ok _, d) => (Ok path, d)
      | (Err e, d) => (Err e, d)
      end
  end.

Definition extend (path : Uuid) (data : bytes) (d : Dir) : result unit unit * Dir :=
  match files d !! path with
  | None => (Err tt, set_files d (files d))
  | Some old =>
      match faults (io d) with
      | Some k => (Err tt, set_files d (<[path := old ++ take k data]> (files d)))
      | None => (Ok tt, set_files d (<[path := old ++ data]> (files d)))
      end
  end.

Definition finish (path : Uuid) (d : Dir) : Dir :=
  set_files d (match faults (io d) with Some _ => files d | None => delete path (files d) end).

(** The loop of [take_pending]: runs whose file is gone or empty are skipped. *)
Fixpoint read_runs (entries : list JournalEntry) (d : Dir) : list PendingRun * Dir :=
  match entries with
  | [] => ([], d)
  | e :: rest =>
      let read := match faults (io d) with Some _ => None | None => files d !! je_local_path e end in
      let '(runs, d') := read_runs rest (set_files d (files d)) in
      match read with
      | Some (b :: data) =>
          ({| pr_node_id := je_node_id e; pr_offset := je_offset e; pr_data := b :: data |} :: runs, d')
      | _ => (runs, d')
      end
  end.

Definition take_pending (d : Dir) : result unit (list PendingRun) * Dir :=
  match recover faults d with
  | (Err e, d) => (Err e, d)
  | (Ok entries, d) => let '(runs, d) := read_runs entries d in (Ok runs, d)
  end.

Definition reset (d : Dir) : result unit unit * Dir :=
  let '(entries, d) := match recover faults d with
                       | (Ok entries, d) => (entries, d)
                       | (Err _, d) => ([], d)
                       end in
  let d := foldl (fun d e => finish (je_local_path e) d) d entries in
  clear faults d.

End Ops.
End WriteLog.
