(* ===== verification/Mount.v ===== *)
(** * The mount's file-system service

    Models [src/crates/dcfs-fuse/src/service.rs] (module [Mount]) over the interface of
    [client.rs] (class [ServerClient]), with the errors of [errno.rs]. The service keeps
    the inode table, buffers writes and records them in the write log, and reads through
    the block cache. Every operation runs to its end before the next one starts; [MountTasks]
    has those that interleave. *)
From S2P Require Import Prelude Core Crypto ObjectStore Repository Locks Server Nodes BlockCache WriteLog.

Module Client.
Import Nodes.

Inductive ClientError : Type :=
| NotFound
| AlreadyExists
| InvalidName
| Conflict (m : string)
| DirectoryNotEmpty
| Unauthorized
| BackendUnavailable
| InvalidRequest (m : string)
| Http (m : string)
| Io (raw_os_error : option Z) (m : string).

(** [to_errno], with the numbers Linux gives the errors. *)
Definition to_errno (e : ClientError) : Z :=
  match e with
  | NotFound => 2
  | AlreadyExists => 17
  | InvalidName => 22
  | Conflict _ => 17
  | DirectoryNotEmpty => 39
  | Unauthorized => 13
  | BackendUnavailable => 5
  | InvalidRequest _ => 22
  | Http _ => 5
  | Io raw _ => default 5 raw
  end.

(** A query is a function of what the server holds; [tick] is what happens there and on
    the way to it between two requests. *)
Class ServerClient (S : Type) : Type := {
  tick : S -> S;
  fs_info : S -> result ClientError Z;
  get_node : Uuid -> S -> result ClientError NodeResponse;
  get_node_by_path : bytes -> S -> result ClientError NodeResponse;
  find_child : Uuid -> bytes -> S -> result ClientError NodeResponse;
  list_children : Uuid -> option Z -> option Z -> S -> result ClientError (list NodeResponse);
  read_file : Uuid -> Z -> Z -> S -> result ClientError bytes;
  read_file_cacheable : Uuid -> Z -> Z -> S -> result ClientError (bytes * bool);
  create_node : CreateNodeRequest -> S -> result ClientError NodeResponse * S;
  patch_node : Uuid -> PatchNodeRequest -> S -> result ClientError NodeResponse * S;
  rename_node : Uuid -> RenameNodeRequest -> S -> result ClientError NodeResponse * S;
  delete_node : Uuid -> S -> result ClientError unit * S;
  write_file : Uuid -> Z -> bytes -> S -> result ClientError Z * S;
  sync_file : Uuid -> S -> result ClientError unit * S;
}.
End Client.

Module Mount.
Import Nodes Client Journal WriteLog BlockCache.

Definition ROOT_INO : Z := 1.
Definition PAGE : Z := 1000.
Definition STATFS_NOMINAL_BYTES : Z := 1024 * 1024 * 1024 * 1024 * 1024.
Definition WRITE_BUFFER_BYTES : Z := 4 * 1024 * 1024.

Record Attr : Type := {
  at_ino : Z; at_size : Z; at_kind : NodeModel.NodeKind; at_mode : Z; at_uid : Z; at_gid : Z;
  at_atime : Z; at_mtime : Z; at_ctime : Z;
}.
Record FsStats : Type := { block_size : Z; total_blocks : Z; free_blocks : Z; name_max : Z }.
Record DirEntry : Type := { de_ino : Z; de_kind : NodeModel.NodeKind; de_name : bytes }.

(** [Inodes]. *)
Record Inodes : Type := {
  by_ino : gmap Z Uuid;
  by_id : gmap Uuid Z;
  seen : gmap Z (option Uuid * Z);
  high_water : gmap Z Z;
  next : Z;
}.

Record PendingWrite : Type := { pw_offset : Z; pw_data : bytes; pw_log_path : option Uuid }.

Record Fs : Type := {
  chunk_size : Z;
  log : option Dir;
  cache : option Cache;
  inodes : Inodes;
  pending : gmap Z PendingWrite;
}.

Section Service.
Context {S : Type} `{ServerClient S} `{HashOrder}.
Context (mode : Mode) (disk_faults : nat -> Key -> bool) (log_faults : nat -> option nat).
(** The order in which the fetches of one read complete. *)
Context (completed : list nat -> list nat).

(** The service, the server behind the client and the supply of fresh UUIDs. *)
Record World : Type := { fs : Fs; srv : S; uuids : nat -> Uuid; drawn : nat }.

Definition with_fs (w : World) (f : Fs) : World := {| fs := f; srv := srv w; uuids := uuids w; drawn := drawn w |}.
Definition with_srv (w : World) (s : S) : World := {| fs := fs w; srv := s; uuids := uuids w; drawn := drawn w |}.
Definition with_log (w : World) (l : option Dir) : World :=
  with_fs w {| chunk_size := chunk_size (fs w); log := l; cache := cache (fs w); inodes := inodes (fs w);
               pending := pending (fs w) |}.
Definition with_cache (w : World) (c : option Cache) : World :=
  with_fs w {| chunk_size := chunk_size (fs w); log := log (fs w); cache := c; inodes := inodes (fs w);
               pending := pending (fs w) |}.
Definition with_inodes (w : World) (i : Inodes) : World :=
  with_fs w {| chunk_size := chunk_size (fs w); log := log (fs w); cache := cache (fs w); inodes := i;
               pending := pending (fs w) |}.
Definition with_pending (w : World) (p : gmap Z PendingWrite) : World :=
  with_fs w {| chunk_size := chunk_size (fs w); log := log (fs w); cache := cache (fs w); inodes := inodes (fs w);
               pending := p |}.

Definition M (A : Type) : Type := World -> result (fault ClientError) A * World.
#[global] Instance M_ret : MRet M := fun A a w => (Ok a, w).
#[global] Instance M_bind : MBind M := fun A B f m w =>
  match m w with
  | (Ok a, w') => f a w'
  | (Err e, w') => (Err e, w')
  end.

Definition fail {A} (e : ClientError) : M A := fun w => (Err (Fail e), w).
Definition get : M World := fun w => (Ok w, w).
Definition put (w : World) : M unit := fun _ => (Ok tt, w).
Definition fresh_uuid : M Uuid := fun w =>
  (Ok (uuids w (drawn w)), {| fs := fs w; srv := srv w; uuids := uuids w; drawn := Datatypes.S (drawn w) |}).
(** A query, and a request that changes the server, with [?]. *)
Definition query {A} (q : S -> result ClientError A) : M A := fun w =>
  (map_err Fail (q (srv w)), with_srv w (tick (srv w))).
Definition request {A} (q : S -> result ClientError A * S) : M A := fun w =>
  let '(r, s) := q (srv w) in (map_err Fail r, with_srv w s).

(** *** Inodes *)

Definition ino_for (id : Uuid) : M Z := fun w =>
  let i := inodes (fs w) in
  match by_id i !! id with
  | Some ino => (Ok ino, w)
  | None =>
      (Ok (next i), with_inodes w
        {| by_ino := <[next i := id]> (by_ino i); by_id := <[id := next i]> (by_id i); seen := seen i;
           high_water := high_water i; next := next i +u 1 |})
  end.

Definition id_for (ino : Z) : M Uuid := fun w =>
  match by_ino (inodes (fs w)) !! ino with
  | Some id => (Ok id, w)
  | None => (Err (Fail NotFound), w)
  end.

Definition set_seen (ino : Z) (v : option Uuid) (size : Z) (i : Inodes) : Inodes :=
  {| by_ino := by_ino i; by_id := by_id i; seen := <[ino := (v, size)]> (seen i); high_water := high_water i;
     next := next i |}.
Definition set_high_water (ino : Z) (reach : Z) (i : Inodes) : Inodes :=
  {| by_ino := by_ino i; by_id := by_id i; seen := seen i; high_water := <[ino := reach]> (high_water i);
     next := next i |}.
(** What [remove] and [rename] drop for an inode that is gone. *)
Definition drop_inode (ino : Z) (id : Uuid) (i : Inodes) : Inodes :=
  {| by_ino := delete ino (by_ino i); by_id := delete id (by_id i); seen := delete ino (seen i);
     high_water := delete ino (high_water i); next := next i |}.

Definition attr_of (node : NodeResponse) : M Attr :=
  ino ← ino_for (nr_id node);
  w ← get;
  _ ← put (with_inodes w (set_seen ino (nr_current_version_id node) (nr_size node) (inodes (fs w))));
  mret {| at_ino := ino; at_size := Z.max (nr_size node) (default 0 (high_water (inodes (fs w)) !! ino));
          at_kind := nr_kind node; at_mode := nr_mode node; at_uid := nr_uid node; at_gid := nr_gid node;
          at_atime := nr_atime node; at_mtime := nr_mtime node; at_ctime := nr_ctime node |}.

Definition mount_with (c : option Cache) (l : option Dir) (s : S) (us : nat -> Uuid) : result ClientError World :=
  root ← get_node_by_path [x2f] s;
  let s := tick s in
  info ← fs_info s;
  mret {| fs := {| chunk_size := Z.max info 1; log := l; cache := c;
                   inodes := {| by_ino := {[ROOT_INO := nr_id root]}; by_id := {[nr_id root := ROOT_INO]};
                                seen := ∅; high_water := ∅; next := ROOT_INO + 1 |};
                   pending := ∅ |};
          srv := tick s; uuids := us; drawn := 0 |}.

(** Following the pages; [fuel] bounds their number. *)
Fixpoint children_from (fuel : nat) (parent_id : Uuid) (offset : Z) : M (list NodeResponse) :=
  match fuel with
  | O => fun w => (Err Panic, w)
  | Datatypes.S fuel' =>
      page ← query (list_children parent_id (Some PAGE) (Some offset));
      if len page <? PAGE then mret page
      else rest ← children_from fuel' parent_id (u32 (offset + PAGE)); mret (page ++ rest)
  end.
Definition children_of (fuel : nat) (parent_id : Uuid) : M (list NodeResponse) := children_from fuel parent_id 0.

(** *** Buffered writes *)

Definition invalidate_cache (node_id : Uuid) : M unit :=
  w ← get;
  match cache (fs w) with
  | Some c => put (with_cache w (Some (BlockCache.invalidate disk_faults node_id c)))
  | None => mret tt
  end.

(** Dropping the durable record of a run. *)
Definition finish_log (path : option Uuid) : M unit :=
  w ← get;
  match log (fs w), path with
  | Some l, Some p => put (with_log w (Some (WriteLog.finish log_faults p l)))
  | _, _ => mret tt
  end.

Definition send (node_id : Uuid) (run : PendingWrite) : M unit :=
  _ ← request (write_file node_id (pw_offset run) (pw_data run));
  finish_log (pw_log_path run).

Definition start_run (node_id : Uuid) (offset : Z) (data : bytes) : M PendingWrite :=
  w ← get;
  match log (fs w) with
  | Some l =>
      path ← fresh_uuid;
      let '(r, l) := WriteLog.begin_run log_faults path node_id offset data l in
      w ← get;
      _ ← put (with_log w (Some l));
      mret {| pw_offset := offset; pw_data := data;
              pw_log_path := match r with Ok p => Some p | Err _ => None end |}
  | None => mret {| pw_offset := offset; pw_data := data; pw_log_path := None |}
  end.

Definition flush (ino : Z) : M unit :=
  w ← get;
  match pending (fs w) !! ino with
  | Some buffered =>
      _ ← put (with_pending w (delete ino (pending (fs w))));
      node_id ← id_for ino;
      _ ← send node_id buffered;
      invalidate_cache node_id
  | None => mret tt
  end.

Fixpoint send_all (drained : list (Z * PendingWrite)) : M unit :=
  match drained with
  | [] => mret tt
  | (ino, buffered) :: rest =>
      node_id ← id_for ino;
      _ ← send node_id buffered;
      _ ← invalidate_cache node_id;
      send_all rest
  end.
Definition flush_all : M unit :=
  w ← get;
  _ ← put (with_pending w ∅);
  send_all (hm_iter (pending (fs w))).

(** The loop of [recover]: a run the server refuses is skipped. *)
Fixpoint replay (runs : list PendingRun) (replayed : Z) (s : S) : Z * S :=
  match runs with
  | [] => (replayed, s)
  | run :: rest =>
      match write_file (pr_node_id run) (pr_offset run) (pr_data run) s with
      | (Ok _, s) => replay rest (replayed +u 1) s
      | (Err _, s) => replay rest replayed s
      end
  end.
Definition io_error : ClientError := Io None "write log".
Definition recover : M Z :=
  w ← get;
  match log (fs w) with
  | None => mret 0
  | Some l =>
      match WriteLog.take_pending log_faults l with
      | (Err _, l) => _ ← put (with_log w (Some l)); fail io_error
      | (Ok [], l) => _ ← put (with_log w (Some l)); mret 0
      | (Ok runs, l) =>
          let '(replayed, s) := replay runs 0 (srv w) in
          let '(r, l) := WriteLog.reset log_faults l in
          _ ← put (with_srv (with_log w (Some l)) s);
          match r with Ok _ => mret replayed | Err _ => fail io_error end
      end
  end.

(** The three ways a write meets what is buffered: it continues the run, breaks it, or
    starts one. *)
Definition begin_pending (node_id : Uuid) (ino offset : Z) (data : bytes) : M unit :=
  run ← start_run node_id offset data;
  w ← get;
  put (with_pending w (<[ino := run]> (pending (fs w)))).
Definition buffer_write (node_id : Uuid) (ino offset : Z) (data : bytes) : M unit :=
  w ← get;
  match pending (fs w) !! ino with
  | Some buffered =>
      if pw_offset buffered +u len (pw_data buffered) =? offset then
        let l := match log (fs w), pw_log_path buffered with
                 | Some l, Some path => Some (WriteLog.extend log_faults path data l).2
                 | l, _ => l
                 end in
        put (with_pending (with_log w l)
               (<[ino := {| pw_offset := pw_offset buffered; pw_data := pw_data buffered ++ data;
                            pw_log_path := pw_log_path buffered |}]> (pending (fs w))))
      else
        _ ← put (with_pending w (delete ino (pending (fs w))));
        _ ← send node_id buffered;
        begin_pending node_id ino offset data
  | None => begin_pending node_id ino offset data
  end.

(** Sending the run where it ends on a part boundary or has grown too big. *)
Definition send_if_full (node_id : Uuid) (ino : Z) : M unit :=
  w ← get;
  match pending (fs w) !! ino with
  | None => fun w => (Err Panic, w)
  | Some buffered =>
      let end_ := pw_offset buffered +u len (pw_data buffered) in
      let on_boundary := end_ mod chunk_size (fs w) =? 0 in
      let too_big := Z.max (chunk_size (fs w)) WRITE_BUFFER_BYTES *u 2 <=? len (pw_data buffered) in
      if on_boundary || too_big then
        _ ← put (with_pending w (delete ino (pending (fs w))));
        send node_id buffered
      else mret tt
  end.

Definition write (ino offset : Z) (data : bytes) : M Z :=
  node_id ← id_for ino;
  w ← get;
  let reach := Z.max (default 0 (high_water (inodes (fs w)) !! ino)) (offset +u len data) in
  _ ← put (with_inodes w (set_high_water ino reach (inodes (fs w))));
  _ ← buffer_write node_id ino offset data;
  _ ← send_if_full node_id ino;
  _ ← invalidate_cache node_id;
  mret (len data).

(** *** The operations of the kernel *)

Definition statfs (f : Fs) : FsStats :=
  {| block_size := u32 (Z.min (chunk_size f) (2 ^ 32 - 1));
     total_blocks := STATFS_NOMINAL_BYTES / Z.max (chunk_size f) 1;
     free_blocks := STATFS_NOMINAL_BYTES / Z.max (chunk_size f) 1; name_max := 255 |}.

Definition getattr (ino : Z) : M Attr :=
  _ ← flush ino;
  id ← id_for ino;
  node ← query (get_node id);
  attr_of node.

Definition lookup (parent_ino : Z) (name : bytes) : M Attr :=
  _ ← flush_all;
  parent_id ← id_for parent_ino;
  child ← query (find_child parent_id name);
  attr_of child.

Fixpoint entries_of (children : list NodeResponse) : M (list DirEntry) :=
  match children with
  | [] => mret []
  | child :: rest =>
      ino ← ino_for (nr_id child);
      entries ← entries_of rest;
      mret ({| de_ino := ino; de_kind := nr_kind child; de_name := nr_name child |} :: entries)
  end.
Definition readdir (fuel : nat) (ino : Z) : M (list DirEntry) :=
  _ ← flush_all;
  id ← id_for ino;
  node ← query (get_node id);
  if negb (bool_decide (nr_kind node = NodeModel.Directory)) then fail (InvalidRequest "not a directory") else
  parent_ino ← match nr_parent_id node with Some p => ino_for p | None => mret ino end;
  children ← children_of fuel id;
  entries ← entries_of children;
  mret ({| de_ino := ino; de_kind := NodeModel.Directory; de_name := [x2e] |}
        :: {| de_ino := parent_ino; de_kind := NodeModel.Directory; de_name := [x2e; x2e] |} :: entries).

(** [NameBytes::new]. *)
Definition name_bytes (name : bytes) : M bytes :=
  match Name.new name with Ok n => mret n | Err _ => fail InvalidName end.

Definition create (parent_ino : Z) (name : bytes) (kind : NodeModel.NodeKind) (mode uid gid : Z) : M Attr :=
  parent_id ← id_for parent_ino;
  name ← name_bytes name;
  key ← fresh_uuid;
  node ← request (create_node {| cn_parent_id := parent_id; cn_name := name; cn_kind := kind; cn_mode := mode;
                                 cn_uid := uid; cn_gid := gid; cn_link_target := None; cn_idempotency_key := key |});
  attr_of node.

Definition symlink (parent_ino : Z) (name target : bytes) (uid gid : Z) : M Attr :=
  parent_id ← id_for parent_ino;
  name ← name_bytes name;
  if bool_decide (target = []) then fail (InvalidRequest "empty symlink target") else
  key ← fresh_uuid;
  node ← request (create_node {| cn_parent_id := parent_id; cn_name := name; cn_kind := NodeModel.Symlink;
                                 cn_mode := 41471 (* 0o120777 *); cn_uid := uid; cn_gid := gid;
                                 cn_link_target := Some target; cn_idempotency_key := key |});
  attr_of node.

Definition readlink (ino : Z) : M bytes :=
  id ← id_for ino;
  node ← query (get_node id);
  match nr_link_target node with
  | Some target => mret target
  | None => fail (InvalidRequest "not a symlink")
  end.

Definition short_read_error : ClientError := Io None "short read".

(** Reading from the server, refusing a read that stops before the end of the file. *)
Definition read_direct (node_id : Uuid) (offset expected : Z) : M bytes :=
  out ← query (read_file node_id offset expected);
  if len out <? expected then fail short_read_error else mret out.

Definition cached_read (c : Cache) (node_id version_id : Uuid) (offset expected : Z) : M bytes := fun w =>
  let '(r, c) := BlockCache.read mode disk_faults node_id version_id offset expected
                   (fun at_ size => read_file_cacheable node_id at_ size (srv w)) completed c in
  (r, with_srv (with_cache w (Some c)) (tick (srv w))).

(** The version and size a read goes by: asked again after a local write. *)
Definition version_for (ino : Z) (node_id : Uuid) : M (option Uuid * Z) :=
  w ← get;
  let i := inodes (fs w) in
  match seen i !! ino, high_water i !! ino with
  | Some remembered, None => mret remembered
  | _, _ =>
      node ← query (get_node node_id);
      w ← get;
      _ ← put (with_inodes w (set_seen ino (nr_current_version_id node) (nr_size node) (inodes (fs w))));
      mret (nr_current_version_id node, nr_size node)
  end.

Definition read (ino offset size : Z) : M bytes :=
  _ ← flush ino;
  node_id ← id_for ino;
  vs ← version_for ino node_id;
  let expected := Z.min size (saturating_sub vs.2 offset) in
  if expected =? 0 then mret [] else
  w ← get;
  match cache (fs w), vs.1 with
  | Some c, Some version_id =>
      out ← cached_read c node_id version_id offset expected;
      if len out <? expected
      then _ ← invalidate_cache node_id; read_direct node_id offset expected
      else mret out
  | _, _ => read_direct node_id offset expected
  end.

Definition setattr (ino : Z) (mode uid gid size mtime atime : option Z) : M Attr :=
  _ ← flush ino;
  w ← get;
  _ ← match size with
      | Some size => put (with_inodes w (set_high_water ino size (inodes (fs w))))
      | None => mret tt
      end;
  id ← id_for ino;
  _ ← invalidate_cache id;
  _ ← fresh_uuid;
  node ← request (patch_node id {| pn_mode := mode; pn_uid := uid; pn_gid := gid; pn_size := size;
                                   pn_mtime := mtime; pn_atime := atime |});
  attr_of node.

Definition fsync (ino : Z) : M unit :=
  _ ← flush ino;
  id ← id_for ino;
  request (sync_file id).

(** Dropping what is buffered for an inode, with its durable record. *)
Definition drop_pending (ino : Z) : M unit :=
  w ← get;
  match pending (fs w) !! ino with
  | Some dropped =>
      _ ← put (with_pending w (delete ino (pending (fs w))));
      finish_log (pw_log_path dropped)
  | None => mret tt
  end.
Definition forget_inode (ino : Z) (id : Uuid) : M unit :=
  w ← get; put (with_inodes w (drop_inode ino id (inodes (fs w)))).

Definition remove (parent_ino : Z) (name : bytes) : M unit :=
  target ← lookup parent_ino name;
  _ ← drop_pending (at_ino target);
  id ← id_for (at_ino target);
  _ ← request (delete_node id);
  _ ← invalidate_cache id;
  forget_inode (at_ino target) id.

(** [if let Ok(a) = m { f(a) }], where [m]'s effects stay. *)
Definition when_ok {A} (m : M A) (f : A -> M unit) : M unit := fun w =>
  match m w with
  | (Ok a, w') => f a w'
  | (Err (Fail _), w') => (Ok tt, w')
  | (Err Panic, w') => (Err Panic, w')
  end.

Definition rename (parent_ino : Z) (name : bytes) (new_parent_ino : Z) (new_name : bytes) : M unit :=
  target ← lookup parent_ino name;
  id ← id_for (at_ino target);
  new_parent_id ← id_for new_parent_ino;
  _ ← when_ok (lookup new_parent_ino new_name) (fun replaced =>
        if bool_decide (at_ino replaced = at_ino target) then mret tt else
        _ ← drop_pending (at_ino replaced);
        when_ok (id_for (at_ino replaced)) (fun replaced_id =>
          _ ← invalidate_cache replaced_id;
          forget_inode (at_ino replaced) replaced_id));
  new_name ← name_bytes new_name;
  _ ← fresh_uuid;
  _ ← request (rename_node id {| rn_new_parent_id := new_parent_id; rn_new_name := new_name |});
  mret tt.

(** *** Mirroring *)

(** [match m { Ok(a) => .., Err(e) => .. }]. *)
Definition attempt {A} (m : M A) : M (result ClientError A) := fun w =>
  match m w with
  | (Ok a, w') => (Ok (Ok a), w')
  | (Err (Fail e), w') => (Ok (Err e), w')
  | (Err Panic, w') => (Err Panic, w')
  end.

(** Reading one file block by block, up to the first read that fails; [fuel] bounds the
    blocks. *)
Fixpoint mirror_file (fuel : nat) (ino at_ size : Z) : M unit :=
  match fuel with
  | O => fun w => (Err Panic, w)
  | Datatypes.S fuel' =>
      if size <=? at_ then mret tt else
      r ← attempt (read ino at_ BLOCK_SIZE);
      match r with
      | Err _ => mret tt
      | Ok _ => mirror_file fuel' ino (at_ +u BLOCK_SIZE) size
      end
  end.

(** The entries of one directory: the directories in it are queued, the files read. *)
Fixpoint mirror_entries (entries : list DirEntry) (queue : list Z) (files bytes : Z) : M (list Z * Z * Z) :=
  match entries with
  | [] => mret (queue, files, bytes)
  | e :: rest =>
      if bool_decide (de_name e = [x2e]) || bool_decide (de_name e = [x2e; x2e]) then mirror_entries rest queue files bytes
      else if bool_decide (de_kind e = NodeModel.Directory) then mirror_entries rest (de_ino e :: queue) files bytes
      else
        r ← attempt (getattr (de_ino e));
        match r with
        | Err _ => mirror_entries rest queue files bytes
        | Ok attr =>
            _ ← mirror_file (Z.to_nat (div_ceil (at_size attr) BLOCK_SIZE + 1)) (de_ino e) 0 (at_size attr);
            mirror_entries rest queue (files +u 1) (bytes +u at_size attr)
        end
  end.

(** The walk; the head of [queue] is the end the vector is popped at. *)
Fixpoint mirror (fuel pages : nat) (queue : list Z) (files bytes : Z) : M (Z * Z) :=
  match queue, fuel with
  | [], _ => mret (files, bytes)
  | _ :: _, O => fun w => (Err Panic, w)
  | ino :: queue', Datatypes.S fuel' =>
      entries ← readdir pages ino;
      acc ← mirror_entries entries queue' files bytes;
      mirror fuel' pages acc.1.1 acc.1.2 acc.2
  end.
Definition prefetch_all (fuel pages : nat) : M (Z * Z) := mirror fuel pages [ROOT_INO] 0 0.

End Service.
End Mount.
