(* ===== verification/MountFacts.v ===== *)
(** * Buffering in the mount is invisible

    Proofs about [Mount]: what a file looks like through the mount is the server's copy
    with the buffered run written over it ([view]); the operations act on that as on a
    flat file, and after a crash the write log brings the server to it. *)
From S2P Require Import Prelude Core Crypto ObjectStore Repository Locks Server Nodes BlockCache WriteLog Mount.

Module MountSpec.
Import Nodes Client Journal WriteLog Mount.

(** Files are kept below this size. *)
Definition MAX_SIZE : Z := 2 ^ 62.

(** What the mount relies on in the server: [content] is what a file holds. A write that
    fails was applied or was not, and touches no other file. *)
Class ClientLaws (S : Type) `{ServerClient S} : Type := {
  content : S -> Uuid -> option bytes;
  valid : S -> Prop;
  tick_law s : valid s -> valid (tick s) /\ forall id, content (tick s) id = content s id;
  write_file_law id offset data s b :
    valid s -> content s id = Some b -> 0 <= offset -> data <> [] -> offset + len data < MAX_SIZE ->
    let '(r, s') := write_file id offset data s in
    valid s' /\ (forall id', id' <> id -> content s' id' = content s id') /\
    match r with
    | Ok _ => content s' id = Some (write_flat b offset data)
    | Err _ => content s' id = Some b \/ content s' id = Some (write_flat b offset data)
    end;
  read_file_law id offset size s out b :
    valid s -> content s id = Some b -> 0 <= offset -> 0 <= size -> offset + size < 2 ^ 64 ->
    read_file id offset size s = Ok out -> out = slice b offset (offset + size);
  read_file_cacheable_law id offset size s out keepable b :
    valid s -> content s id = Some b -> 0 <= offset -> 0 <= size -> offset + size < 2 ^ 64 ->
    read_file_cacheable id offset size s = Ok (out, keepable) -> out = slice b offset (offset + size);
  get_node_law id s node b : valid s -> get_node id s = Ok node -> content s id = Some b ->
    nr_id node = id /\ nr_size node = len b;
  sync_file_law id s : valid s -> is_Some (content s id) ->
    let '(_, s') := sync_file id s in valid s' /\ forall id', content s' id' = content s id';
}.

Section Spec.
Context {S : Type} `{ClientLaws S} (mode : BlockCache.Mode).
Implicit Types (w : World (S := S)) (i : Inodes).

(** The inode table is a bijection between inodes and nodes, below the next number. *)
Definition inodes_ok i : Prop :=
  (forall ino id, by_ino i !! ino = Some id <-> by_id i !! id = Some ino) /\
  (forall ino id, by_ino i !! ino = Some id -> ino < next i) /\
  (forall ino, is_Some (seen i !! ino) -> ino < next i).

(** What a file looks like through the mount. *)
Definition overlay (run : option PendingWrite) (b : bytes) : bytes :=
  match run with Some p => write_flat b (pw_offset p) (pw_data p) | None => b end.
Definition view w (ino : Z) : option bytes :=
  id ← by_ino (inodes (fs w)) !! ino;
  overlay (pending (fs w) !! ino) <$> content (srv w) id.

(** The write log holds exactly the buffered runs: every buffered run has its file and its
    line, a file of the journal belongs to a buffered run, and names are not reused. *)
Record recorded_in w (d : Dir) : Prop := {
  rec_pending : forall ino p id, pending (fs w) !! ino = Some p -> by_ino (inodes (fs w)) !! ino = Some id ->
    exists e, e ∈ default [] (journal d) /\ pw_log_path p = Some (je_local_path e) /\
      files d !! je_local_path e = Some (pw_data p) /\ je_node_id e = id /\ je_offset e = pw_offset p;
  rec_entry : forall e, e ∈ default [] (journal d) -> is_Some (files d !! je_local_path e) ->
    exists ino p, pending (fs w) !! ino = Some p /\ pw_log_path p = Some (je_local_path e);
  rec_paths : forall ino ino' p p', pending (fs w) !! ino = Some p -> pending (fs w) !! ino' = Some p' ->
    pw_log_path p = pw_log_path p' -> ino = ino';
  rec_nodup : NoDup (je_local_path <$> default [] (journal d));
  rec_fresh : forall n, (drawn w <= n)%nat ->
    files d !! uuids w n = None /\ (uuids w n ∉ (je_local_path <$> default [] (journal d)));
  rec_supply : forall n m, uuids w n = uuids w m -> n = m;
  rec_tail : tail d = Ended;
}.
Definition recorded w : Prop := exists d, log (fs w) = Some d /\ recorded_in w d.

(** What holds between operations; [stale] are the files whose cached blocks may be out
    of date, which is none between operations. *)
Definition bytes_of (s : S) (id : Uuid) : bytes := default [] (content s id).
Record sound_but (stale : Uuid -> Prop) w : Prop := {
  s_valid : valid (srv w);
  s_inodes : inodes_ok (inodes (fs w));
  s_chunk : 1 <= chunk_size (fs w);
  s_pending : forall ino p, pending (fs w) !! ino = Some p ->
    is_Some (view w ino) /\ is_Some (high_water (inodes (fs w)) !! ino) /\
    0 <= pw_offset p /\ pw_data p <> [] /\ pw_offset p + len (pw_data p) < MAX_SIZE;
  s_seen : forall ino id v size b, seen (inodes (fs w)) !! ino = Some (v, size) ->
    high_water (inodes (fs w)) !! ino = None -> by_ino (inodes (fs w)) !! ino = Some id ->
    content (srv w) id = Some b -> size = len b;
  s_cache : forall c, cache (fs w) = Some c -> BlockCacheFacts.accounted mode c /\
    forall k b, ~ stale (BlockCache.node_id k) -> is_Some (BlockCache.blocks c !! k) ->
      BlockCache.disk c !! k = Some b ->
      b = BlockCacheFacts.block_of (bytes_of (srv w) (BlockCache.node_id k)) (BlockCache.index k);
}.
Definition sound : World (S := S) -> Prop := sound_but (fun _ => False).

(** The file behind one inode changes by [f], no other file does. *)
Definition others_same (ino : Z) w w' : Prop := forall ino', ino' <> ino -> view w' ino' = view w ino'.
Definition changes (ino : Z) (f : bytes -> bytes) w w' : Prop :=
  view w' ino = f <$> view w ino /\ others_same ino w w'.

(** The server refused a write of the file. *)
Definition refused (id : Uuid) (e : ClientError) : Prop :=
  exists offset data s s', write_file (S := S) id offset data s = (Err e, s').

End Spec.
End MountSpec.

Module MountFacts.
Import Nodes Client Journal WriteLog Mount MountSpec.

Section Facts.
Context {S : Type} {SC : ServerClient S} {CL : ClientLaws S} {HO : HashOrder}.
Context (mode : BlockCache.Mode) (disk_faults : nat -> BlockCache.Key -> bool) (log_faults : nat -> option nat).
Context (completed : list nat -> list nat).
Implicit Types (w : World (S := S)).

Abbreviation sound_but := (sound_but mode).
Abbreviation sound := (sound mode).
Abbreviation send := (send log_faults).

(** *** The monad and the frame *)

Lemma bind_ok {A B} (m : M A) (f : A -> M B) w a w1 : m w = (Ok a, w1) -> (m ≫= f) w = f a w1.
Proof. intros Hm. unfold mbind, M_bind. by rewrite Hm. Qed.
Lemma bind_err {A B} (m : M A) (f : A -> M B) w e w1 : m w = (Err e, w1) -> (m ≫= f) w = (Err e, w1).
Proof. intros Hm. unfold mbind, M_bind. by rewrite Hm. Qed.

(** Only the log and the supply of UUIDs differ. *)
Record same_files w w' : Prop := {
  sf_srv : srv w' = srv w;
  sf_inodes : inodes (fs w') = inodes (fs w);
  sf_pending : pending (fs w') = pending (fs w);
  sf_chunk : chunk_size (fs w') = chunk_size (fs w);
  sf_cache : cache (fs w') = cache (fs w);
}.

Lemma same_files_refl w : same_files w w.
Proof. done. Qed.

Lemma finish_log_spec path w :
  exists w', finish_log log_faults path w = (Ok tt, w') /\ same_files w w'.
Proof.
  unfold finish_log. rewrite (bind_ok get _ w w w) by done.
  destruct (log (fs w)), path; eexists; (split; [reflexivity|done]).
Qed.

Lemma start_run_spec id offset data w :
  exists run w', start_run log_faults id offset data w = (Ok run, w') /\ same_files w w' /\
    pw_offset run = offset /\ pw_data run = data.
Proof.
  unfold start_run. rewrite (bind_ok get _ w w w) by done. destruct (log (fs w)) as [l|].
  - erewrite bind_ok by reflexivity. destruct (begin_run _ _ _ _ _ l) as [r l']. do 2 eexists. split; [reflexivity|by repeat split].
  - do 2 eexists. split; [reflexivity|by repeat split].
Qed.

(** *** Views *)

Lemma view_ext w w' ino :
  by_ino (inodes (fs w')) !! ino = by_ino (inodes (fs w)) !! ino ->
  pending (fs w') !! ino = pending (fs w) !! ino ->
  (forall id, by_ino (inodes (fs w)) !! ino = Some id -> content (srv w') id = content (srv w) id) ->
  view w' ino = view w ino.
Proof.
  intros Hb Hp Hc. unfold view. rewrite Hb, Hp. destruct (by_ino (inodes (fs w)) !! ino) as [id|] eqn:Hid; simpl; [|done].
  by rewrite (Hc id).
Qed.

Lemma view_Some w ino b :
  view w ino = Some b <-> exists id b0, by_ino (inodes (fs w)) !! ino = Some id /\ content (srv w) id = Some b0 /\
    b = overlay (pending (fs w) !! ino) b0.
Proof.
  unfold view. destruct (by_ino (inodes (fs w)) !! ino) as [id|]; simpl; [|split; [done|naive_solver]].
  destruct (content (srv w) id) as [b0|] eqn:Hb; simpl; [|split; [done|naive_solver]]. naive_solver.
Qed.

Lemma same_files_view w w' ino : same_files w w' -> view w' ino = view w ino.
Proof. intros []. apply view_ext; congruence. Qed.

Lemma changes_trans ino f g w1 w2 w3 : changes ino f w1 w2 -> changes ino g w2 w3 -> changes ino (g ∘ f) w1 w3.
Proof.
  intros [H1 H2] [H3 H4]. split; [by rewrite H3, H1, option_fmap_compose|].
  intros ino' Hne. by rewrite H4, H2.
Qed.

Lemma same_files_sound stale w w' : same_files w w' -> sound_but stale w -> sound_but stale w'.
Proof.
  intros Hsame []. pose proof Hsame as [E1 E2 E3 E4 E5]. constructor; rewrite ?E1, ?E2, ?E3, ?E4, ?E5; try done.
  intros ino p. rewrite (same_files_view w w') by done. apply s_pending0.
Qed.

(** The server moves on without changing a file. *)
Lemma server_moves stale w s :
  sound_but stale w -> valid s -> (forall id, content s id = content (srv w) id) ->
  sound_but stale (with_srv w s) /\ forall ino, view (with_srv w s) ino = view w ino.
Proof.
  intros [] Hv Hc. assert (Hview : forall ino, view (with_srv w s) ino = view w ino) by (intros ino; by apply view_ext).
  split; [|done]. constructor; try done.
  - intros ino p Hp. rewrite Hview. by apply s_pending0.
  - intros ino id v size b Hseen Hnone Hid. simpl. rewrite Hc. by apply (s_seen0 ino id v).
  - intros c Hcache. destruct (s_cache0 c Hcache) as [? Hblk]. split; [done|]. intros k b Hk. unfold bytes_of. simpl.
    rewrite Hc. by apply Hblk.
Qed.

Lemma sound_weaken (P Q : Uuid -> Prop) w : (forall id, P id -> Q id) -> sound_but P w -> sound_but Q w.
Proof.
  intros HPQ []. constructor; try done. intros c Hc. destruct (s_cache0 c Hc) as [? Hb]. split; [done|].
  intros k b Hk. apply Hb. naive_solver.
Qed.

Lemma inodes_inj i ino ino' id :
  inodes_ok i -> by_ino i !! ino = Some id -> by_ino i !! ino' = Some id -> ino' = ino.
Proof. intros [Hbij _] H1%Hbij H2%Hbij. congruence. Qed.

(** *** Sending a run that was taken out of the buffer *)

Lemma send_spec id run b w :
  valid (srv w) -> content (srv w) id = Some b -> 0 <= pw_offset run -> pw_data run <> [] ->
  pw_offset run + len (pw_data run) < MAX_SIZE ->
  let '(r, w') := send id run w in
  exists s, same_files (with_srv w s) w' /\ valid s /\
  (forall id', id' <> id -> content s id' = content (srv w) id') /\ is_Some (content s id) /\
  match r with
  | Ok _ => content s id = Some (write_flat b (pw_offset run) (pw_data run))
  | Err (Fail e) => refused (S := S) id e
  | Err Panic => False
  end.
Proof.
  intros Hv Hb Hoff Hd Hend.
  pose proof (write_file_law id (pw_offset run) (pw_data run) (srv w) b Hv Hb Hoff Hd Hend) as Hlaw.
  unfold send, Mount.send. destruct (write_file id (pw_offset run) (pw_data run) (srv w)) as [r s] eqn:Hw.
  destruct Hlaw as (Hv' & Hother & Hr). destruct r as [n|e].
  - destruct (finish_log_spec (pw_log_path run) (with_srv w s)) as (w' & Hf & Hs).
    rewrite (bind_ok _ _ w n (with_srv w s)) by (unfold request; by rewrite Hw). rewrite Hf. exists s. by split_and?.
  - rewrite (bind_err _ _ w (Fail e) (with_srv w s)) by (unfold request; by rewrite Hw).
    exists s. split_and?; try done; [by destruct Hr as [-> | ->]|]. by exists (pw_offset run), (pw_data run), (srv w), s.
Qed.

(** What an operation on one file ends in, when what it sends may be refused. *)
Definition outcome {A} (ino : Z) (bad : ClientError -> Prop) (post : A -> World -> Prop) w (res : result (fault ClientError) A * World) : Prop :=
  others_same ino w res.2 /\
  match res.1 with
  | Ok a => post a res.2
  | Err (Fail e) => bad e
  | Err Panic => False
  end.

Definition unsent ino w : World := with_pending w (delete ino (pending (fs w))).

Lemma send_unsent stale ino id p w :
  sound_but stale w -> pending (fs w) !! ino = Some p -> by_ino (inodes (fs w)) !! ino = Some id ->
  outcome ino (refused (S := S) id) (fun _ w' => sound_but (fun id' => stale id' \/ id' = id) w' /\
      pending (fs w') = delete ino (pending (fs w)) /\ inodes (fs w') = inodes (fs w) /\
      cache (fs w') = cache (fs w) /\ view w' ino = view w ino) w (send id p (unsent ino w)).
Proof.
  intros Hsound Hp Hid. destruct (s_pending _ _ _ Hsound _ _ Hp) as ([b0 Hview] & Hhw & Hoff & Hd & Hend).
  apply view_Some in Hview as (id' & b & Hid' & Hb & _). rewrite Hid in Hid'. injection Hid' as <-.
  pose proof (send_spec id p b (unsent ino w) (s_valid _ _ _ Hsound) Hb Hoff Hd Hend) as Hsend.
  destruct (send id p (unsent ino w)) as [r w'] eqn:Hrun. destruct Hsend as (s & [E1 E2 E3 E4 E5] & Hv & Hother & _ & Hr).
  simpl in E1, E2, E3, E4, E5, Hother, Hr. unfold outcome. simpl.
  assert (Hothers : others_same ino w w').
  { intros ino' Hne. apply view_ext; [by rewrite E2|by rewrite E3, lookup_delete_ne|].
    intros id' Hid'. rewrite E1. apply Hother. intros ->. apply Hne. by eapply inodes_inj; [apply Hsound| |]. }
  split; [done|].
  - destruct r as [[]|[e|]]; [|done|done]. pose proof Hr as Hb'.
    split_and?; [|done|done|done|].
    + destruct Hsound. constructor; rewrite ?E1, ?E2, ?E3, ?E4, ?E5; try done.
      * intros ino' p' Hp'. apply lookup_delete_Some in Hp' as [Hne Hp'].
        destruct (s_pending0 ino' p' Hp') as [Hs ?]. split; [|done]. by rewrite Hothers by done.
      * intros ino' id' v size b' Hseen Hnone Hid' Hb''. assert (ino' <> ino) by (intros ->; by rewrite Hnone in Hhw; destruct Hhw).
        apply (s_seen0 ino' id' v size b'); try done. rewrite <-Hother; [done|]. intros ->.
        assert (ino' = ino) by by eapply inodes_inj. done.
      * intros c Hc. destruct (s_cache0 c Hc) as [Ha Hblk]. split; [done|]. intros k bl Hst Hs Hdisk.
        unfold bytes_of. rewrite Hother by naive_solver. apply Hblk; naive_solver.
    + unfold view. rewrite E2, E3, Hid. cbn [mbind option_bind]. by rewrite lookup_delete_eq, E1, Hb', Hp, Hb.
Qed.

Lemma outcome_bind {A B} ino bad (P : A -> World -> Prop) (Q : B -> World -> Prop) w (m : M A) (f : A -> M B) :
  outcome ino bad P w (m w) ->
  (forall a w1, P a w1 -> outcome ino bad Q w1 (f a w1)) -> outcome ino bad Q w ((m ≫= f) w).
Proof.
  intros [Ho Hm] Hf. destruct (m w) as [[a|e] w1] eqn:Hr.
  - rewrite (bind_ok _ _ _ _ _ Hr). destruct (Hf a w1 Hm) as [Ho' Hf']. split; [|done].
    intros ino' Hne. by rewrite Ho', Ho.
  - rewrite (bind_err _ _ _ _ _ Hr). split; [done|]. simpl in *. by destruct e.
Qed.

Lemma outcome_weaken {A} ino (bad bad' : ClientError -> Prop) (P Q : A -> World -> Prop) w w' res :
  others_same ino w' w -> (forall e, bad e -> bad' e) -> (forall a w1, P a w1 -> Q a w1) ->
  outcome ino bad P w res -> outcome ino bad' Q w' res.
Proof.
  intros Hw Hbad HPQ [Ho Hr]. split; [intros ino' Hne; by rewrite Ho, Hw|]. destruct res as [[a|[e|]] w1]; simpl in *; auto.
Qed.

Lemma others_refl ino w : others_same ino w w.
Proof. done. Qed.

(** *** Buffering *)

Lemma pending_insert stale ino id p w w' :
  sound_but stale w -> by_ino (inodes (fs w)) !! ino = Some id -> is_Some (content (srv w) id) ->
  is_Some (high_water (inodes (fs w)) !! ino) ->
  0 <= pw_offset p -> pw_data p <> [] -> pw_offset p + len (pw_data p) < MAX_SIZE ->
  same_files (with_pending w (<[ino := p]> (pending (fs w)))) w' ->
  sound_but stale w' /\ others_same ino w w' /\ view w' ino = overlay (Some p) <$> content (srv w) id.
Proof.
  intros [] Hid [b Hb] Hhw Hoff Hd Hend [E1 E2 E3 E4 E5]. simpl in E1, E2, E3, E4, E5.
  assert (Ho : others_same ino w w').
  { intros ino' Hne. apply view_ext; [by rewrite E2|by rewrite E3, lookup_insert_ne|intros; by rewrite E1]. }
  assert (Hv : view w' ino = overlay (Some p) <$> content (srv w) id).
  { unfold view. rewrite E2, E3, Hid, E1. cbn [mbind option_bind]. by rewrite lookup_insert_eq. }
  split_and?; [|done|done]. constructor; rewrite ?E1, ?E2, ?E3, ?E4, ?E5; try done.
  intros ino' p' [[<- <-]|[Hne Hp']]%lookup_insert_Some; [by rewrite Hv, Hb|].
  destruct (s_pending0 ino' p' Hp') as [Hs ?]. split; [|done]. by rewrite Ho.
Qed.

Abbreviation writes offset data w ino := ((fun b => write_flat b offset data) <$> view w ino).

Lemma begin_pending_spec stale ino id offset data w :
  sound_but stale w -> by_ino (inodes (fs w)) !! ino = Some id -> is_Some (high_water (inodes (fs w)) !! ino) ->
  pending (fs w) !! ino = None -> is_Some (view w ino) -> 0 <= offset -> data <> [] -> offset + len data < MAX_SIZE ->
  outcome ino (refused (S := S) id) (fun _ w' => sound_but stale w' /\ is_Some (pending (fs w') !! ino) /\
      inodes (fs w') = inodes (fs w) /\ view w' ino = writes offset data w ino) w
    (begin_pending log_faults id ino offset data w).
Proof.
  intros Hsound Hid Hhw Hnone [b Hview] Hoff Hd Hend. unfold begin_pending.
  apply view_Some in Hview as (id' & b0 & Hid' & Hb & _). rewrite Hid in Hid'. injection Hid' as <-.
  destruct (start_run_spec id offset data w) as (run & w1 & Hrun & [E1 E2 E3 E4 E5] & <- & <-).
  rewrite (bind_ok _ _ _ _ _ Hrun). rewrite (bind_ok get _ w1 w1 w1) by done.
  destruct (pending_insert stale ino id run w (with_pending w1 (<[ino := run]> (pending (fs w1)))))
    as (H1 & H2 & H3); try done; [constructor; simpl; congruence|].
  split; [done|]. simpl. rewrite lookup_insert_eq. split_and?; try done.
  rewrite H3. unfold view. rewrite Hid, Hnone. cbn [mbind option_bind]. by destruct (content (srv w) id).
Qed.

Lemma buffer_write_spec stale ino id offset data w :
  sound_but stale w -> by_ino (inodes (fs w)) !! ino = Some id -> is_Some (high_water (inodes (fs w)) !! ino) ->
  is_Some (view w ino) -> 0 <= offset -> data <> [] -> offset + len data < MAX_SIZE ->
  outcome ino (refused (S := S) id) (fun _ w' => sound_but (fun id' => stale id' \/ id' = id) w' /\ is_Some (pending (fs w') !! ino) /\
      inodes (fs w') = inodes (fs w) /\ view w' ino = writes offset data w ino) w
    (buffer_write log_faults id ino offset data w).
Proof.
  intros Hsound Hid Hhw Hsome Hoff Hd Hend. unfold buffer_write. rewrite (bind_ok get _ w w w) by done.
  destruct (pending (fs w) !! ino) as [p|] eqn:Hp.
  - destruct (s_pending _ _ _ Hsound _ _ Hp) as (_ & _ & Hpo & Hpd & Hpe). pose proof (len_nonneg (pw_data p)).
    unfold MAX_SIZE in *. rewrite wadd_id by lia. destruct (Z.eqb_spec (pw_offset p + len (pw_data p)) offset) as [<-|Hne].
    + set (p' := Build_PendingWrite _ _ _). set (l := match log (fs w) with Some _ => _ | None => _ end).
      destruct (pending_insert stale ino id p' w (with_pending (with_log w l) (<[ino := p']> (pending (fs w)))))
        as (H1 & H2 & H3); try done; [|by destruct (pw_data p)|simpl; rewrite len_app; unfold MAX_SIZE; lia|].
      { destruct Hsome as [b (id' & b0 & Hid' & Hb & _)%view_Some]. rewrite Hid in Hid'. injection Hid' as <-. by rewrite Hb. }
      split; [done|]. simpl. rewrite lookup_insert_eq. split_and?; try done.
      * eapply sound_weaken; [|done]. naive_solver.
      * rewrite H3. unfold view. rewrite Hid, Hp. cbn [mbind option_bind]. destruct (content (srv w) id); [|done].
        simpl. by rewrite write_flat_app.
    + rewrite (bind_ok (put _) _ w tt (unsent ino w)) by done.
      pose proof (send_unsent stale ino id p w Hsound Hp Hid) as Hsend.
      assert (Hpre : others_same ino w (unsent ino w)).
      { intros ino' Hne'. apply view_ext; [done|simpl; by rewrite lookup_delete_ne|done]. }
      eapply (outcome_weaken _ _ _ _ _ (unsent ino w)); [done|done|intros a w1 HQ; exact HQ|].
      eapply outcome_bind; [eapply (outcome_weaken _ _ _ _ _ w); [|done|intros a w1 HQ; exact HQ|exact Hsend]|].
      { intros ino' Hne'. symmetry. by apply Hpre. }
      intros [] w1 (Hs1 & Hp1 & Hi1 & _ & Hv1). rewrite <-Hv1, <-Hi1.
      apply begin_pending_spec; rewrite ?Hi1, ?Hp1; try done; [apply lookup_delete_eq|by rewrite Hv1].
  - eapply outcome_weaken; [apply others_refl|done| |by apply (begin_pending_spec stale)].
    intros _ w1 (H1 & H2 & H3 & H4). split_and?; try done. eapply sound_weaken; [|done]. naive_solver.
Qed.

Lemma unsent_others ino w : others_same ino (unsent ino w) w.
Proof. intros ino' Hne. apply view_ext; [done|simpl; by rewrite lookup_delete_ne|done]. Qed.
Lemma unsent_others' ino w : others_same ino w (unsent ino w).
Proof. intros ino' Hne. symmetry. by apply unsent_others. Qed.

Lemma send_if_full_spec stale ino id w :
  sound_but stale w -> by_ino (inodes (fs w)) !! ino = Some id -> is_Some (pending (fs w) !! ino) ->
  outcome ino (refused (S := S) id) (fun _ w' => sound_but (fun id' => stale id' \/ id' = id) w' /\
      inodes (fs w') = inodes (fs w) /\ view w' ino = view w ino) w (send_if_full log_faults id ino w).
Proof.
  intros Hsound Hid [p Hp]. unfold send_if_full. rewrite (bind_ok get _ w w w) by done. rewrite Hp.
  destruct (_ || _).
  - rewrite (bind_ok (put _) _ w tt (unsent ino w)) by done.
    eapply outcome_weaken; [apply others_refl|done| |by apply (send_unsent stale)]. naive_solver.
  - split; [done|]. simpl. split_and?; try done. eapply sound_weaken; [|done]. naive_solver.
Qed.

(** *** The cache *)

Definition holds_less w w' : Prop :=
  forall c', cache (fs w') = Some c' -> exists c, cache (fs w) = Some c /\ BlockCache.held c' <= BlockCache.held c.

Lemma invalidate_cache_spec id w :
  sound_but (fun id' => False \/ id' = id) w ->
  exists w', invalidate_cache disk_faults id w = (Ok tt, w') /\ sound w' /\
    srv w' = srv w /\ inodes (fs w') = inodes (fs w) /\ pending (fs w') = pending (fs w) /\
    (forall ino', view w' ino' = view w ino') /\ holds_less w w'.
Proof.
  intros Hsound. unfold invalidate_cache. rewrite (bind_ok get _ w w w) by done.
  destruct (cache (fs w)) as [c|] eqn:Hc.
  - destruct (BlockCacheFacts.invalidate_spec mode disk_faults (fun _ _ => []) id c) as (H1 & H2 & H3 & H4).
    destruct (s_cache _ _ _ Hsound c Hc) as [Ha Hblk]. eexists. split; [reflexivity|]. split_and?; try done.
    2: { intros c' [= <-]. exists c. split; [done|]. by apply H4. }
    destruct Hsound. constructor; try done. intros c' [= <-]. split; [by apply H4|]. intros k b _ Hs Hk. rewrite H1 in Hs.
    case_bool_decide as Hn; [by destruct Hs|]. apply Hblk; [naive_solver|done|by rewrite <-H3].
  - exists w. split_and?; try done; [|intros c Hc'; congruence].
    destruct Hsound. constructor; try done. intros c Hc'. congruence.
Qed.

(** *** Operations *)

Lemma set_high_water_sound stale ino reach w :
  sound_but stale w -> sound_but stale (with_inodes w (set_high_water ino reach (inodes (fs w)))).
Proof.
  intros []. constructor; try done.
  - intros ino' p Hp. destruct (s_pending0 ino' p Hp) as (? & ? & ?). split; [done|split; [|done]].
    simpl. destruct (decide (ino' = ino)) as [->|]; [by rewrite lookup_insert_eq|by rewrite lookup_insert_ne].
  - intros ino' id' v size b Hseen Hnone. simpl in Hnone. apply lookup_insert_None in Hnone as [Hnone _].
    by apply (s_seen0 ino' id' v size b).
Qed.

Lemma write_spec ino id offset data w :
  sound w -> by_ino (inodes (fs w)) !! ino = Some id -> is_Some (view w ino) -> 0 <= offset -> data <> [] -> offset + len data < MAX_SIZE ->
  outcome ino (refused (S := S) id) (fun n w' => n = len data /\ sound w' /\ view w' ino = writes offset data w ino) w
    (Mount.write disk_faults log_faults ino offset data w).
Proof.
  intros Hsound Hid Hsome Hoff Hd Hend. unfold Mount.write.
  rewrite (bind_ok _ _ w id w) by (unfold id_for; by rewrite Hid). rewrite (bind_ok get _ w w w) by done.
  set (reach := Z.max _ _). set (w1 := with_inodes w _). rewrite (bind_ok (put w1) _ w tt w1) by done.
  assert (H1 : sound w1) by by apply set_high_water_sound.
  assert (Hsame : forall ino', view w1 ino' = view w ino') by done. rewrite <-(Hsame ino).
  eapply (outcome_weaken _ _ _ _ _ w1); [done|done|intros a w2 HQ; exact HQ|].
  eapply outcome_bind; [eapply buffer_write_spec; try done; simpl; by rewrite lookup_insert_eq|].
  intros [] w2 (H2 & Hp2 & Hi2 & Hv2).
  eapply outcome_bind; [eapply send_if_full_spec; [exact H2|by rewrite Hi2|done]|].
  intros [] w3 (H3 & Hi3 & Hv3).
  destruct (invalidate_cache_spec id w3) as (w4 & Hrun & H4 & _ & _ & _ & Hv4 & _).
  { eapply sound_weaken; [|exact H3]. naive_solver. }
  rewrite (bind_ok _ _ _ _ _ Hrun). split; [by intros ??|]. simpl. split_and?; try done. by rewrite Hv4, Hv3.
Qed.

Lemma flush_spec ino id w :
  sound w -> by_ino (inodes (fs w)) !! ino = Some id ->
  outcome ino (refused (S := S) id) (fun _ w' => sound w' /\ pending (fs w') = delete ino (pending (fs w)) /\
      inodes (fs w') = inodes (fs w) /\ view w' ino = view w ino /\ holds_less w w') w
    (flush disk_faults log_faults ino w).
Proof.
  intros Hsound Hid. unfold flush. rewrite (bind_ok get _ w w w) by done.
  destruct (pending (fs w) !! ino) as [p|] eqn:Hp; [|split; [done|]; simpl; rewrite delete_id by done; split_and?; try done; by intros c; exists c].
  rewrite (bind_ok (put _) _ w tt (unsent ino w)) by done.
  rewrite (bind_ok _ _ _ id (unsent ino w)) by (unfold id_for; simpl; by rewrite Hid).
  eapply (outcome_weaken _ _ _ _ _ (unsent ino w)); [apply unsent_others'|done|intros a w1 HQ; exact HQ|].
  eapply outcome_bind.
  { eapply (outcome_weaken _ _ _ _ _ w); [apply unsent_others|done|intros a w1 HQ; exact HQ|by apply (send_unsent (fun _ => False))]. }
  intros [] w1 (H1 & Hp1 & Hi1 & Hc1 & Hv1).
  destruct (invalidate_cache_spec id w1 H1) as (w2 & Hrun & H2 & _ & Hi2 & Hp2 & Hv2 & Hh2).
  rewrite Hrun. split; [by intros ??|]. simpl. rewrite Hp2, Hi2, Hv2. split_and?; try done.
  unfold holds_less in *. by rewrite <-Hc1.
Qed.

Lemma fsync_spec ino id w :
  sound w -> by_ino (inodes (fs w)) !! ino = Some id -> is_Some (view w ino) ->
  outcome ino (fun e => refused (S := S) id e \/ exists s s' : S, sync_file id s = (Err e, s'))
    (fun _ w' => sound w' /\ content (srv w') id = view w ino /\ view w' ino = view w ino /\
       pending (fs w') = delete ino (pending (fs w)) /\
       exists s : S, valid s /\ is_Some (content s id) /\ sync_file id s = (Ok tt, srv w')) w
    (Mount.fsync disk_faults log_faults ino w).
Proof.
  intros Hsound Hid Hsome. unfold Mount.fsync. pose proof (flush_spec ino id w Hsound Hid) as [Ho Hr].
  destruct (flush disk_faults log_faults ino w) as [[[]|e] w1] eqn:Hrun; simpl in *.
  2: { rewrite (bind_err _ _ _ _ _ Hrun). split; [done|]. destruct e; [by left|done]. }
  destruct Hr as (H1 & Hp1 & Hi1 & Hv1 & _). rewrite (bind_ok _ _ _ _ _ Hrun). rewrite <-Hi1 in Hid.
  rewrite (bind_ok _ _ w1 id w1) by (unfold id_for; by rewrite Hid). unfold request.
  assert (Hc1 : content (srv w1) id = view w1 ino).
  { unfold view. rewrite Hid, Hp1, lookup_delete_eq. simpl. by destruct (content (srv w1) id). }
  pose proof (sync_file_law id (srv w1) (s_valid _ _ _ H1) ltac:(by rewrite Hc1, Hv1)) as Hlaw.
  destruct (sync_file id (srv w1)) as [r s] eqn:Hs. destruct Hlaw as [Hv Hc].
  destruct (server_moves _ w1 s H1 Hv Hc) as [H2 Hsame].
  split; [intros ino' Hne; rewrite Hsame; by apply Ho|]. destruct r as [[]|e]; simpl; [|right; eauto].
  rewrite Hsame, Hc, Hc1, Hv1. split_and?; try done. exists (srv w1). split; [apply H1|]. by rewrite Hc1, Hv1.
Qed.

(** *** Reading *)

Lemma slice_clip (b : bytes) offset size :
  0 <= offset -> 0 <= size ->
  slice b offset (offset + size) = slice b offset (offset + Z.min size (saturating_sub (len b) offset)) /\
  len (slice b offset (offset + size)) = Z.min size (saturating_sub (len b) offset).
Proof.
  intros Hoff Hsize. pose proof (len_nonneg b). unfold saturating_sub.
  assert (Hl : len (slice b offset (offset + size)) = Z.min size (Z.max 0 (len b - offset))) by (rewrite len_slice; lia).
  split; [|done]. destruct (decide (offset + size <= len b)); [f_equal; lia|].
  destruct (decide (offset <= len b)); [by rewrite !BlockCacheFacts.slice_past by lia|].
  rewrite (slice_empty b offset (offset + Z.min _ _)) by lia.
  rewrite Z.max_l, Z.min_r in Hl by lia. by apply len_nil_inv in Hl.
Qed.

(** The server failed a request about the file. *)
Definition failed (id : Uuid) (e : ClientError) : Prop :=
  refused (S := S) id e \/ exists s : S, get_node id s = Err e \/
    exists offset size, read_file id offset size s = Err e \/ read_file_cacheable id offset size s = Err e.

(** A step that changes neither a file nor what is buffered. *)
Definition quiet w w' : Prop :=
  sound w' /\ (forall id, content (srv w') id = content (srv w) id) /\ (forall ino, view w' ino = view w ino) /\
  by_ino (inodes (fs w')) = by_ino (inodes (fs w)) /\ cache (fs w') = cache (fs w).

Lemma quiet_tick w : sound w -> quiet w (with_srv w (tick (srv w))).
Proof.
  intros Hsound. destruct (tick_law (srv w) (s_valid _ _ _ Hsound)) as [Hv Hc].
  destruct (server_moves _ w _ Hsound Hv Hc). by split_and?.
Qed.

Lemma see_node ino id v b w :
  sound w -> by_ino (inodes (fs w)) !! ino = Some id -> content (srv w) id = Some b ->
  sound (with_inodes w (set_seen ino v (len b) (inodes (fs w)))).
Proof.
  intros [] Hid Hb. constructor; try done; simpl.
  { destruct s_inodes0 as (? & Hnext & Hs). split; [done|split; [done|]]. simpl. intros ino'.
    destruct (decide (ino' = ino)) as [->|]; [intros _; by eapply Hnext|rewrite lookup_insert_ne by done; apply Hs]. }
  intros ino' id' v' size' b' Hseen.
  apply lookup_insert_Some in Hseen as [[<- [= <- <-]]|[_ Hseen]]; [congruence|]. by apply (s_seen0 ino' id' v').
Qed.

Lemma version_for_spec ino id b w :
  sound w -> by_ino (inodes (fs w)) !! ino = Some id -> content (srv w) id = Some b ->
  let '(r, w') := version_for ino id w in
  quiet w w' /\
  match r with Ok vs => vs.2 = len b | Err (Fail e) => failed id e | Err Panic => False end.
Proof.
  intros Hsound Hid Hb. unfold version_for. rewrite (bind_ok get _ w w w) by done.
  assert (Hask : let '(r, w') := (node ← query (get_node id); w ← get;
      _ ← put (with_inodes w (set_seen ino (nr_current_version_id node) (nr_size node) (inodes (fs w))));
      mret (nr_current_version_id node, nr_size node)) w in
    quiet w w' /\ match r with Ok vs => vs.2 = len b | Err (Fail e) => failed id e | Err Panic => False end).
  { pose proof (quiet_tick w Hsound) as Hq. set (w1 := with_srv w (tick (srv w))) in *.
    destruct (get_node id (srv w)) as [node|e] eqn:Hn.
    - rewrite (bind_ok _ _ w node w1) by (unfold query; by rewrite Hn). rewrite (bind_ok get _ w1 w1 w1) by done.
      destruct (get_node_law id (srv w) node b (s_valid _ _ _ Hsound) Hn Hb) as [_ Hsize]. rewrite Hsize.
      erewrite bind_ok by reflexivity. split; [|done]. destruct Hq as (H1 & Hc & Hv & Hi & Hca).
      split; [apply (see_node ino id); [done|done|by rewrite Hc]|done].
    - rewrite (bind_err _ _ w (Fail e) w1) by (unfold query; by rewrite Hn). split; [done|].
      right. exists (srv w). by left. }
  destruct (seen _ !! ino) as [[v size]|] eqn:Hseen; [|exact Hask].
  destruct (high_water _ !! ino) eqn:Hhw; [exact Hask|].
  split; [by split_and?|]. simpl. by apply (s_seen _ _ _ Hsound ino id v size b).
Qed.

Lemma read_direct_spec id offset expected b w :
  sound w -> content (srv w) id = Some b -> 0 <= offset -> 0 <= expected -> offset + expected < 2 ^ 64 ->
  offset + expected <= len b ->
  let '(r, w') := read_direct id offset expected w in
  quiet w w' /\ match r with
            | Ok out => out = slice b offset (offset + expected)
            | Err (Fail e) => failed id e
            | Err Panic => False
            end.
Proof.
  intros Hsound Hb Hoff Hexp Hend Hle. unfold read_direct. pose proof (quiet_tick w Hsound) as Hq.
  destruct (read_file id offset expected (srv w)) as [out|e] eqn:Hr.
  - pose proof (read_file_law id offset expected (srv w) out b (s_valid _ _ _ Hsound) Hb Hoff Hexp Hend Hr) as ->.
    erewrite bind_ok by (unfold query; by rewrite Hr).
    rewrite len_slice by lia. rewrite (proj2 (Z.ltb_ge _ _)) by lia. done.
  - erewrite bind_err by (unfold query; by rewrite Hr). split; [done|]. right. exists (srv w). right. eauto.
Qed.

(** The read's budget: what is held and what one read may add stay within 64 bits. *)
Definition cache_fits (size : Z) w : Prop :=
  match mode with BlockCache.Stream budget => 0 <= budget | BlockCache.Mirror => True end /\
  forall c, cache (fs w) = Some c ->
    BlockCache.held c + (size / BlockCache.BLOCK_SIZE + 2) * BlockCache.BLOCK_SIZE < 2 ^ 64.

Lemma cached_read_spec c id version offset size b w :
  (forall l, completed l ≡ₚ l) -> sound w -> cache (fs w) = Some c -> content (srv w) id = Some b ->
  0 <= offset -> 0 < size -> offset + size < 2 ^ 63 -> cache_fits size w ->
  let '(r, w') := cached_read mode disk_faults completed c id version offset size w in
  sound w' /\ (forall ino, view w' ino = view w ino) /\
  match r with
  | Ok out => out = slice b offset (offset + size)
  | Err (Fail e) => failed id e
  | Err Panic => False
  end.
Proof.
  intros Hperm Hsound Hc Hb Hoff Hsize Hend [Hbudget Hfit]. unfold cached_read.
  set (contents := fun (n _ : Uuid) => bytes_of (srv w) n).
  set (fetch := fun at_ size => read_file_cacheable id at_ size (srv w)).
  destruct (s_cache _ _ _ Hsound c Hc) as [Ha Hg].
  assert (Hgen : BlockCacheFacts.genuine contents c) by (intros k bl Hs Hd; apply Hg; [intros []|done|done]).
  assert (Hfetch : forall i d keepable, BlockCache.first_block offset <= i <= BlockCache.last_block offset size -> fetch (i * BlockCache.BLOCK_SIZE) BlockCache.BLOCK_SIZE = Ok (d, keepable) ->
    d = BlockCacheFacts.block_of (contents id version) i /\ len d <= BlockCache.BLOCK_SIZE).
  { intros i d keepable Hi Hd.
    pose proof (BlockCacheFacts.span_bounds offset size Hoff Hsize ltac:(lia)) as (_ & ? & ? & _).
    unfold BlockCache.BLOCK_SIZE in *.
    assert (d = slice b (i * (1024 * 1024)) (i * (1024 * 1024) + 1024 * 1024)) as ->.
    { apply (read_file_cacheable_law id _ _ (srv w) d keepable b); [apply Hsound|done|lia|lia|lia|exact Hd]. }
    unfold contents, bytes_of. rewrite Hb. simpl default. split; [done|]. rewrite len_slice by lia. lia. }
  pose proof (BlockCacheFacts.read_spec mode disk_faults contents Hbudget id version offset size fetch completed
    Hperm Hoff Hsize ltac:(lia) c Hgen Ha (Hfit c Hc)) as Hr. fold fetch.
  destruct (BlockCache.read mode disk_faults id version offset size fetch completed c) as [r c'].
  destruct Hr as (Hg' & Ha' & Hr).
  { intros i d keepable Hi Hd. destruct (Hfetch i d keepable Hi Hd). done. }
  assert (H1 : sound (with_cache w (Some c'))).
  { destruct Hsound. constructor; try done. simpl. intros c'' [= <-]. split; [done|]. intros k bl _ Hs Hd.
    by apply (Hg' k bl). }
  destruct (quiet_tick _ H1) as (H2 & _ & Hv & _). split; [exact H2|]. split; [intros ino; apply (Hv ino)|].
  destruct r as [out|[e|]]; [|destruct Hr as (i & _ & He)|done].
  - rewrite Hr; [unfold contents, bytes_of; by rewrite Hb|]. intros i d keepable Hi Hd. by apply (Hfetch i d keepable).
  - right. exists (srv w). right. eauto.
Qed.

Lemma mount_read_spec ino id offset size b w :
  (forall l, completed l ≡ₚ l) -> sound w -> by_ino (inodes (fs w)) !! ino = Some id -> view w ino = Some b ->
  0 <= offset -> 0 <= size -> offset + size < 2 ^ 63 -> cache_fits size w ->
  outcome ino (failed id) (fun out w' => out = slice b offset (offset + size) /\ sound w' /\ view w' ino = Some b) w
    (Mount.read mode disk_faults log_faults completed ino offset size w).
Proof.
  intros Hperm Hsound Hid Hview Hoff Hsize Hend [Hbudget Hfit]. unfold Mount.read.
  eapply outcome_bind.
  { eapply outcome_weaken; [apply others_refl| |intros a w1 HQ; exact HQ|by apply (flush_spec ino id)]. by left. }
  intros [] w1 (H1 & Hp1 & Hi1 & Hv1 & Hh1). rewrite <-Hi1 in Hid. rewrite <-Hv1 in Hview.
  assert (Hb : content (srv w1) id = Some b).
  { unfold view in Hview. rewrite Hid, Hp1, lookup_delete_eq in Hview. simpl in Hview. by destruct (content (srv w1) id). }
  rewrite (bind_ok _ _ w1 id w1) by (unfold id_for; by rewrite Hid).
  pose proof (version_for_spec ino id b w1 H1 Hid Hb) as Hvs.
  destruct (version_for ino id w1) as [[vs|e] w2] eqn:Hrun; destruct Hvs as ((H2 & E1 & E2 & E3 & E4) & Hvs).
  2: { rewrite (bind_err _ _ _ _ _ Hrun). split; [|by destruct e]. intros ??. apply E2. }
  rewrite (bind_ok _ _ _ _ _ Hrun). rewrite Hvs. destruct (slice_clip b offset size Hoff Hsize) as [Hclip Hlen].
  rewrite <-E1 in Hb. rewrite <-(E2 ino) in Hview.
  eapply (outcome_weaken _ _ _ _ _ w2); [intros ??; apply E2|done|intros a w3 HQ; exact HQ|].
  rewrite Hclip. set (expected := Z.min size _) in *.
  destruct (Z.eqb_spec expected 0) as [->|Hne].
  { split; [done|]. simpl. split_and?; try done. symmetry. apply slice_empty. lia. }
  assert (Hexp : 0 < expected <= size /\ offset + expected <= len b) by (unfold expected, saturating_sub in *; lia).
  assert (Hdirect : outcome ino (failed id) (fun out w' => out = slice b offset (offset + expected) /\ sound w' /\ view w' ino = Some b) w2
      (read_direct id offset expected w2)).
  { pose proof (read_direct_spec id offset expected b w2 H2 Hb) as Hd.
    destruct (read_direct id offset expected w2) as [r w4]. destruct Hd as [(H4 & _ & Hv4 & _) Hd]; [lia..|].
    split; [intros ??; apply Hv4|]. destruct r as [out|[e|]]; simpl; [|done|done]. by rewrite Hv4. }
  rewrite (bind_ok get _ w2 w2 w2) by done.
  destruct (cache (fs w2)) as [c|] eqn:Hc; [|exact Hdirect]. destruct vs.1 as [v|]; [|exact Hdirect].
  assert (Hfits : cache_fits expected w2).
  { split; [done|]. intros c' Hc'. rewrite Hc, E4 in Hc'. destruct (Hh1 c' Hc') as (c0 & Hc0 & Hle).
    specialize (Hfit c0 Hc0). unfold BlockCache.BLOCK_SIZE in *.
    assert (expected / (1024 * 1024) <= size / (1024 * 1024)) by (apply Z.div_le_mono; lia). lia. }
  pose proof (cached_read_spec c id v offset expected b w2 Hperm H2 Hc Hb Hoff) as Hr.
  destruct (cached_read _ _ _ c id v offset expected w2) as [[out|e] w3] eqn:Hrun3;
    destruct Hr as (H3 & Hv3 & Hr); try lia; try done.
  - rewrite (bind_ok _ _ _ _ _ Hrun3). subst out. rewrite Hclip in Hlen. rewrite Hlen, Z.ltb_irrefl.
    split; [intros ??; apply Hv3|]. simpl. by rewrite Hv3.
  - rewrite (bind_err _ _ _ _ _ Hrun3). split; [intros ??; apply Hv3|by destruct e].
Qed.

(** *** Inodes *)

Lemma ino_for_spec id w :
  sound w -> next (inodes (fs w)) + 1 < 2 ^ 64 -> 0 <= next (inodes (fs w)) ->
  exists ino w', ino_for id w = (Ok ino, w') /\ sound w' /\ by_ino (inodes (fs w')) !! ino = Some id /\
    by_id (inodes (fs w)) ⊆ by_id (inodes (fs w')) /\
    (by_id (inodes (fs w)) !! id = None -> forall ino' id', by_ino (inodes (fs w)) !! ino' = Some id' -> ino' < ino) /\
    (forall ino' , is_Some (by_ino (inodes (fs w)) !! ino') -> view w' ino' = view w ino') /\
    srv w' = srv w /\ next (inodes (fs w)) <= next (inodes (fs w')) <= next (inodes (fs w)) + 1.
Proof.
  intros Hsound Hfit Hpos. pose proof (s_inodes _ _ _ Hsound) as (Hbij & Hnext & Hsn). unfold ino_for.
  destruct (by_id (inodes (fs w)) !! id) as [ino|] eqn:Hid.
  { exists ino, w. split_and?; try done; [by apply Hbij|lia]. }
  set (i := inodes (fs w)) in *.
  assert (Hnew : by_ino i !! next i = None).
  { destruct (by_ino i !! next i) eqn:Hn; [|done]. apply Hnext in Hn. lia. }
  assert (Hnp : pending (fs w) !! next i = None).
  { destruct (pending (fs w) !! next i) eqn:Hp; [|done]. destruct (s_pending _ _ _ Hsound _ _ Hp) as ([b (id' & b0 & Hb & _)%view_Some] & _).
    fold i in Hb. congruence. }
  rewrite (wadd_id (next i) 1) by lia. set (w' := with_inodes w _).
  assert (Hold : forall ino', is_Some (by_ino i !! ino') -> view w' ino' = view w ino').
  { intros ino' [x Hx]. apply view_ext; simpl; try done. rewrite lookup_insert_ne; [done|]. congruence. }
  exists (next i), w'. split; [reflexivity|]. simpl. rewrite lookup_insert_eq. split_and?; try done; try lia.
  - destruct Hsound. constructor; try done; simpl.
    + split; [|split]; simpl.
      * intros ino' id'. destruct (decide (ino' = next i)) as [->|Hne].
        { rewrite lookup_insert_eq. destruct (decide (id' = id)) as [->|Hne'].
          - by rewrite lookup_insert_eq.
          - rewrite lookup_insert_ne by done. split; [congruence|]. intros Hl%Hbij. congruence. }
        rewrite lookup_insert_ne by done. destruct (decide (id' = id)) as [->|Hne'].
        { rewrite lookup_insert_eq. split; [intros Hl%Hbij; congruence|congruence]. }
        rewrite lookup_insert_ne by done. apply Hbij.
      * intros ino' id' [[<- <-]|[_ Hl]]%lookup_insert_Some; [lia|]. apply Hnext in Hl. lia.
      * intros ino' Hs%Hsn. lia.
    + intros ino' p Hp. destruct (s_pending0 ino' p Hp) as (Hs & ?). split; [|done].
      change (is_Some (view w' ino')). rewrite Hold; [done|]. destruct Hs as [b (id' & b0 & Hb & _)%view_Some]. fold i in Hb. by rewrite Hb.
    + intros ino' id' v size b Hseen Hnone [[<- <-]|[_ Hl]]%lookup_insert_Some; [|by apply (s_seen0 ino' id' v)].
      assert (next i < next i) by (apply Hsn; by rewrite Hseen). lia.
  - by apply insert_subseteq.
Qed.

Lemma attr_of_spec node w :
  sound w -> 0 <= next (inodes (fs w)) -> next (inodes (fs w)) + 1 < 2 ^ 64 ->
  (forall b, content (srv w) (nr_id node) = Some b -> nr_size node = len b) -> is_Some (content (srv w) (nr_id node)) ->
  exists a w', attr_of node w = (Ok a, w') /\ sound w' /\ by_ino (inodes (fs w')) !! at_ino a = Some (nr_id node) /\
    (forall ino', is_Some (by_ino (inodes (fs w)) !! ino') -> view w' ino' = view w ino').
Proof.
  intros Hsound Hpos Hfit Hsize [b Hb].
  destruct (ino_for_spec (nr_id node) w Hsound Hfit Hpos) as (ino & w1 & Hrun & H1 & Hino & _ & _ & Hv & Es & _).
  unfold attr_of. rewrite (bind_ok _ _ _ _ _ Hrun). rewrite (bind_ok get _ w1 w1 w1) by done.
  erewrite bind_ok by reflexivity. do 2 eexists. split; [reflexivity|]. rewrite (Hsize b Hb). rewrite <-Es in Hb.
  split_and?; [by apply (see_node ino (nr_id node))|done|]. intros ino' Hs. rewrite <-Hv by done. by apply view_ext.
Qed.

Lemma mount_sound c l s us w :
  valid s -> (forall c', c = Some c' -> c' = BlockCache.new) ->
  match mode with BlockCache.Stream budget => 0 <= budget | BlockCache.Mirror => True end ->
  mount_with c l s us = Ok w ->
  sound w /\ (forall id, content (srv w) id = content s id) /\ log (fs w) = l /\ next (inodes (fs w)) = 2.
Proof.
  intros Hv Hc Hbudget Hm. destruct (tick_law s Hv) as [Hv1 Hc1]. destruct (tick_law _ Hv1) as [Hv2 Hc2]. unfold mount_with in Hm. destruct (get_node_by_path _ s) as [root|]; [|done]. simpl in Hm.
  destruct (fs_info (tick s)) as [info|]; [|done]. simpl in Hm. injection Hm as <-.
  split; [|split; [intros id; simpl; by rewrite Hc2, Hc1|done]]. constructor; simpl; try done.
  - split; [|split]; simpl.
    + intros ino id. rewrite !lookup_singleton_Some. naive_solver.
    + intros ino id [<- _]%lookup_singleton_Some. unfold ROOT_INO. lia.
    + intros ino [x Hx]. by rewrite lookup_empty in Hx.
  - lia.
  - intros c' ->. rewrite (Hc c' eq_refl). split.
    + split; [split; [done|]|by destruct mode]. intros k x Hx. by destruct (lookup_empty_Some k x Hx).
    + intros k b _ [x Hx]. by destruct (lookup_empty_Some k x Hx).
Qed.

(** ** Properties *)

(** Buffering a write is invisible. A write through the mount that returns did accept
    all of the bytes, and the file as the mount shows it is the old one with the bytes
    written over it at the offset, holes zero-filled, whether the bytes continue the
    buffered run, break it or are sent at once; no other file changes, also when it
    fails. It fails only when the server refuses a write of this file, and it never
    panics. *)
Theorem write_visible ino offset data b w :
  sound w -> view w ino = Some b -> 0 <= offset -> data <> [] -> offset + len data < MAX_SIZE ->
  let '(r, w') := Mount.write disk_faults log_faults ino offset data w in
  others_same ino w w' /\
  match r with
  | Ok n => n = len data /\ sound w' /\ view w' ino = Some (write_flat b offset data)
  | Err (Fail e) => exists id, by_ino (inodes (fs w)) !! ino = Some id /\ refused (S := S) id e
  | Err Panic => False
  end.
Proof.
  intros Hsound Hview Hoff Hd Hend. pose proof Hview as (id & b0 & Hid & _)%view_Some.
  pose proof (write_spec ino id offset data w Hsound Hid ltac:(by rewrite Hview) Hoff Hd Hend) as [Ho Hr].
  rewrite Hview in Hr.
  destruct (Mount.write _ _ _ _ _ w) as [[n|[e|]] w']; simpl in *; [done| |done]. split; [done|]. eauto.
Qed.

(** A read through the mount returns exactly the bytes of the file as the mount shows
    it, clipped at its end: buffered writes are included, and so is what other reads left
    in the block cache, whichever of its file operations fail. It fails only when the
    server failed a request about this file: it never reports a short read of a server
    that answers, it never panics, and it changes no file. *)
Theorem read_shows_view ino offset size b w :
  (forall l, completed l ≡ₚ l) -> sound w -> view w ino = Some b ->
  0 <= offset -> 0 <= size -> offset + size < 2 ^ 63 -> cache_fits size w ->
  let '(r, w') := Mount.read mode disk_faults log_faults completed ino offset size w in
  others_same ino w w' /\
  match r with
  | Ok out => out = slice b offset (offset + size) /\ sound w' /\ view w' ino = Some b
  | Err (Fail e) => exists id, by_ino (inodes (fs w)) !! ino = Some id /\ failed id e
  | Err Panic => False
  end.
Proof.
  intros Hperm Hsound Hview Hoff Hsize Hend Hfit.
  destruct (by_ino (inodes (fs w)) !! ino) as [id|] eqn:Hid; [|unfold view in Hview; by rewrite Hid in Hview].
  pose proof (mount_read_spec ino id offset size b w Hperm Hsound Hid Hview Hoff Hsize Hend Hfit) as [Ho Hr].
  destruct (Mount.read _ _ _ _ _ _ _ w) as [[n|[e|]] w']; simpl in *; [done| |done]. split; [done|]. eauto.
Qed.

(** After [fsync] returns, the server holds the file as the mount showed it and nothing
    of it is buffered any more; no file changes. *)
Theorem fsync_reaches_server ino id w :
  sound w -> by_ino (inodes (fs w)) !! ino = Some id -> is_Some (view w ino) ->
  let '(r, w') := Mount.fsync disk_faults log_faults ino w in
  others_same ino w w' /\
  match r with
  | Ok _ => sound w' /\ content (srv w') id = view w ino /\ view w' ino = view w ino /\
            pending (fs w') = delete ino (pending (fs w))
  | Err (Fail e) => refused (S := S) id e \/ exists s s' : S, sync_file id s = (Err e, s')
  | Err Panic => False
  end.
Proof.
  intros Hsound Hid Hsome. pose proof (fsync_spec ino id w Hsound Hid Hsome) as [Ho Hr].
  destruct (Mount.fsync _ _ _ w) as [[[]|[e|]] w']; [|done..]. destruct Hr as (? & ? & ? & ? & _). by split_and?.
Qed.

(** Inode numbers. A node keeps the number it was given for as long as it is known, two
    nodes never share one, and a node seen for the first time gets a number above every
    one in use, so the number of a file that was removed is not given to another. *)
Theorem ino_for_correct id w :
  sound w -> 0 <= next (inodes (fs w)) -> next (inodes (fs w)) + 1 < 2 ^ 64 ->
  exists ino w', ino_for id w = (Ok ino, w') /\ sound w' /\ by_ino (inodes (fs w')) !! ino = Some id /\
    by_id (inodes (fs w)) ⊆ by_id (inodes (fs w')) /\
    (by_id (inodes (fs w)) !! id = None -> ino = next (inodes (fs w)) /\ next (inodes (fs w')) = ino + 1) /\
    (forall id', by_ino (inodes (fs w')) !! ino = Some id' -> id' = id) /\ ino_for id w' = (Ok ino, w').
Proof.
  intros Hsound Hpos Hfit. destruct (ino_for_spec id w Hsound Hfit Hpos) as (ino & w' & Hrun & H' & Hino & Hsub & _ & _).
  exists ino, w'. split_and?; try done.
  - intros Hnone. unfold ino_for in Hrun. rewrite Hnone in Hrun. injection Hrun as <- <-. split; [done|]. simpl. by rewrite wadd_id by lia.
  - intros id' Hid'. congruence.
  - apply (proj1 (s_inodes _ _ _ H')) in Hino. unfold ino_for. by rewrite Hino.
Qed.

End Facts.
End MountFacts.
