(* ===== verification/MountRecovery.v ===== *)
(** * The write log of the mount recovers a crash

    Proofs about [Mount] over [WriteLog]: while no file operation of the log fails, every
    operation keeps the log equal to what is buffered ([recorded]), and replaying the log
    at the next mount brings the server to what the mount showed before the crash. *)
From S2P Require Import Prelude Core Crypto ObjectStore Repository Locks Server Nodes BlockCache WriteLog Mount MountFacts.

Module Recovery.
Import Nodes Client Journal WriteLog Mount MountSpec MountFacts.

(** No file operation of the log fails. *)
Definition healthy : nat -> option nat := fun _ => None.

Section Recovery.
Context {S : Type} {SC : ServerClient S} {CL : ClientLaws S} {HO : HashOrder}.
Context (mode : BlockCache.Mode) (disk_faults : nat -> BlockCache.Key -> bool) (completed : list nat -> list nat).
Implicit Types (w : World (S := S)) (d : Dir).

Abbreviation sound := (sound mode).

Lemma bind_inv {A B} (m : M A) (f : A -> M B) w b w' :
  (m ≫= f) w = (Ok b, w') -> exists a w1, m w = (Ok a, w1) /\ f a w1 = (Ok b, w').
Proof. unfold mbind, M_bind. destruct (m w) as [[a|e] w1]; [|done]. by exists a, w1. Qed.

(** *** Keeping the log *)

Lemma recorded_ext w w' :
  log (fs w') = log (fs w) -> pending (fs w') = pending (fs w) ->
  by_ino (inodes (fs w')) = by_ino (inodes (fs w)) -> uuids w' = uuids w -> drawn w' = drawn w ->
  recorded w -> recorded w'.
Proof.
  intros E1 E2 E3 E4 E5 (d & Hd & []). exists d. rewrite E1. split; [done|].
  constructor; rewrite ?E2, ?E3, ?E4, ?E5; done.
Qed.

(** Steps that leave the log and what it records alone. *)
Ltac same_log :=
  match goal with Hrec : recorded _ |- recorded _ => eapply recorded_ext; [..|exact Hrec]; done end.

Lemma pending_known stale ino p w :
  sound_but mode stale w -> pending (fs w) !! ino = Some p -> is_Some (by_ino (inodes (fs w)) !! ino).
Proof.
  intros Hsound Hp. destruct (s_pending _ _ _ Hsound ino p Hp) as ([b (id & b0 & Hid & _)%view_Some] & _). by rewrite Hid.
Qed.

Lemma journal_path_inj d e e' :
  NoDup (je_local_path <$> default [] (journal d)) -> e ∈ default [] (journal d) -> e' ∈ default [] (journal d) ->
  je_local_path e = je_local_path e' -> e = e'.
Proof.
  intros Hnd [i Hi]%list_elem_of_lookup [j Hj]%list_elem_of_lookup Heq.
  assert (i = j) as ->; [|congruence]. eapply NoDup_lookup; [exact Hnd| |]; rewrite list_lookup_fmap.
  - rewrite Hi. reflexivity.
  - rewrite Hj. simpl. by rewrite Heq.
Qed.

Lemma send_recorded ino id p w w' :
  recorded w -> pending (fs w) !! ino = Some p -> by_ino (inodes (fs w)) !! ino = Some id ->
  Mount.send healthy id p (unsent ino w) = (Ok tt, w') -> recorded w'.
Proof.
  intros (d & Hd & []) Hp Hid Hrun. unfold Mount.send in Hrun.
  apply bind_inv in Hrun as (n & w1 & Hreq & Hfin). unfold request in Hreq.
  destruct (write_file _ _ _ _) as [r s]. injection Hreq as Hr <-.
  destruct (rec_pending0 ino p id Hp Hid) as (e & He & Hpath & Hfile & Hn & Ho).
  unfold finish_log in Hfin. rewrite (bind_ok get _ _ _ _ eq_refl) in Hfin.
  simpl in Hfin. rewrite Hd, Hpath in Hfin. injection Hfin as <-.
  exists (finish healthy (je_local_path e) d). split; [done|]. constructor; simpl.
  - intros ino' p' id' [Hne Hp']%lookup_delete_Some Hid'.
    destruct (rec_pending0 ino' p' id' Hp' Hid') as (e' & He' & Hpath' & Hfile' & Hn' & Ho'). exists e'. split_and?; [done|done| |done|done].
    rewrite lookup_delete_ne; [done|]. intros Heq. apply Hne. eapply rec_paths0; [exact Hp|exact Hp'|]. congruence.
  - intros e' He' [b Hb]. apply lookup_delete_Some in Hb as [Hne Hb].
    destruct (rec_entry0 e' He') as (ino' & p' & Hp' & Hpath'); [by rewrite Hb|].
    exists ino', p'. split; [|done]. rewrite lookup_delete_ne; [done|]. intros ->. congruence.
  - intros ino1 ino2 p1 p2 [_ H1]%lookup_delete_Some [_ H2]%lookup_delete_Some. by apply rec_paths0.
  - done.
  - intros m Hm. destruct (rec_fresh0 m Hm). split; [|done]. by apply lookup_delete_None; right.
  - done.
  - done.
Qed.

Lemma begin_recorded stale ino id offset data w w' :
  sound_but mode stale w -> recorded w -> pending (fs w) !! ino = None -> by_ino (inodes (fs w)) !! ino = Some id ->
  begin_pending healthy id ino offset data w = (Ok tt, w') -> recorded w'.
Proof.
  intros Hsound (d & Hd & []) Hp Hid Hrun. unfold begin_pending, start_run in Hrun.
  apply bind_inv in Hrun as (run & w1 & Hstart & Hput).
  rewrite (bind_ok get _ _ _ _ eq_refl), Hd in Hstart. erewrite bind_ok in Hstart by reflexivity.
  cbn [begin_run healthy record_dirty set_files io files journal tail set_journal set_lines] in Hstart. rewrite rec_tail0 in Hstart.
  rewrite (bind_ok get _ _ _ _ eq_refl) in Hstart. erewrite bind_ok in Hstart by reflexivity.
  injection Hstart as <- <-. rewrite (bind_ok get _ _ _ _ eq_refl) in Hput. injection Hput as <-.
  set (path := uuids w (drawn w)). destruct (rec_fresh0 (drawn w) ltac:(lia)) as [Hnew Hnew'].
  eexists. split; [reflexivity|].
  assert (Hneq : forall e, e ∈ default [] (journal d) -> je_local_path e <> path).
  { intros e He Heq. apply Hnew'. apply list_elem_of_fmap. exists e. by rewrite Heq. }
  constructor; simpl.
  - intros ino' p' id' [[<- <-]|[Hne Hp']]%lookup_insert_Some Hid'.
    + eexists. split; [apply elem_of_app; right; apply list_elem_of_singleton; reflexivity|]. simpl.
      rewrite lookup_insert_eq. split_and?; try done. congruence.
    + destruct (rec_pending0 ino' p' id' Hp' Hid') as (e & He & Hpath & Hfile & Hn' & Ho'). exists e.
      split_and?; [apply elem_of_app; by left|done| |done|done]. rewrite lookup_insert_ne; [done|].
      intros Heq. by apply (Hneq e He).
  - intros e [He|He]%elem_of_app Hs.
    + rewrite lookup_insert_ne in Hs by (intros Heq; by apply (Hneq e He)).
      destruct (rec_entry0 e He Hs) as (ino' & p' & Hp' & ?). exists ino', p'. split; [|done].
      rewrite lookup_insert_ne; [done|]. congruence.
    + apply list_elem_of_singleton in He as ->. eexists ino, _. rewrite lookup_insert_eq. by split.
  - assert (Hold : forall ino' p', pending (fs w) !! ino' = Some p' -> pw_log_path p' <> Some path).
    { intros ino' p' Hp' Heq. destruct (pending_known _ ino' p' w Hsound Hp') as [id' Hid'].
      destruct (rec_pending0 ino' p' id' Hp' Hid') as (e & He & Hpath & _). apply (Hneq e He). congruence. }
    intros ino1 ino2 p1 p2 [[<- <-]|[_ H1]]%lookup_insert_Some [[<- <-]|[_ H2]]%lookup_insert_Some Heq; try done.
    + by destruct (Hold _ _ H2).
    + by destruct (Hold _ _ H1).
    + by eapply rec_paths0.
  - rewrite fmap_app, NoDup_app. split_and?; [done| |apply NoDup_singleton].
    intros x Hx Hx'. apply list_elem_of_singleton in Hx' as ->. by apply Hnew'.
  - intros n Hn. destruct (rec_fresh0 n ltac:(lia)) as [H1 H2].
    assert (Hne : path <> uuids w n) by (intros Heq; apply rec_supply0 in Heq; lia).
    rewrite lookup_insert_ne by done. split; [done|]. rewrite fmap_app.
    intros [?|Hx]%elem_of_app; [done|]. apply list_elem_of_singleton in Hx. by apply Hne.
  - done.
  - done.
Qed.

Lemma extend_recorded ino p data w d :
  recorded_in w d -> pending (fs w) !! ino = Some p -> is_Some (by_ino (inodes (fs w)) !! ino) ->
  let path := default 0%N (pw_log_path p) in
  let p' := {| pw_offset := pw_offset p; pw_data := pw_data p ++ data; pw_log_path := pw_log_path p |} in
  recorded_in (with_pending w (<[ino := p']> (pending (fs w)))) (extend healthy path data d).2.
Proof.
  intros [] Hp [id Hid]. cbv zeta. destruct (rec_pending0 ino p id Hp Hid) as (e & He & Hpath & Hfile & Hn & Ho).
  rewrite Hpath. simpl default. unfold extend. rewrite Hfile. cbn [healthy snd].
  assert (Hlook : forall x b, files d !! x = Some b -> is_Some (<[je_local_path e := pw_data p ++ data]> (files d) !! x)).
  { intros x b Hx. destruct (decide (x = je_local_path e)) as [->|]; [by rewrite lookup_insert_eq|by rewrite lookup_insert_ne, Hx]. }
  constructor; simpl.
  - intros ino' p' id' [[<- <-]|[Hne Hp']]%lookup_insert_Some Hid'.
    + exists e. simpl. rewrite lookup_insert_eq. split_and?; try done. congruence.
    + destruct (rec_pending0 ino' p' id' Hp' Hid') as (e' & He' & Hpath' & Hfile' & Hn' & Ho'). exists e'.
      split_and?; [done|done| |done|done]. rewrite lookup_insert_ne; [done|]. intros Heq. apply Hne.
      eapply rec_paths0; [exact Hp|exact Hp'|]. congruence.
  - intros e' He' [b Hb].
    assert (is_Some (files d !! je_local_path e')) as Hs.
    { apply lookup_insert_Some in Hb as [[<- _]|[_ Hb]]; [by rewrite Hfile|by rewrite Hb]. }
    destruct (rec_entry0 e' He' Hs) as (ino' & p' & Hp' & Hpath'). destruct (decide (ino' = ino)) as [->|].
    + exists ino. eexists. rewrite lookup_insert_eq. split; [done|]. simpl. congruence.
    + exists ino', p'. by rewrite lookup_insert_ne.
  - intros ino1 ino2 p1 p2 [[<- <-]|[_ H1]]%lookup_insert_Some [[<- <-]|[_ H2]]%lookup_insert_Some Heq; try done;
      eapply rec_paths0; try done; simpl in Heq; congruence.
  - done.
  - intros n Hn'. destruct (rec_fresh0 n Hn') as [H1 H2]. split; [|done]. rewrite lookup_insert_ne; [done|]. congruence.
  - done.
  - done.
Qed.

Lemma buffer_recorded ino id offset data w w' :
  sound w -> recorded w -> by_ino (inodes (fs w)) !! ino = Some id ->
  buffer_write healthy id ino offset data w = (Ok tt, w') -> recorded w'.
Proof.
  intros Hsound Hrec Hid Hrun. unfold buffer_write in Hrun. rewrite (bind_ok get _ _ _ _ eq_refl) in Hrun.
  destruct (pending (fs w) !! ino) as [p|] eqn:Hp; [|by eapply begin_recorded].
  destruct (_ =? offset).
  - destruct Hrec as (d & Hd & Hin). destruct (rec_pending _ _ Hin ino p id Hp Hid) as (e & _ & Hpath & _).
    rewrite Hd, Hpath in Hrun. injection Hrun as <-.
    pose proof (extend_recorded ino p data w d Hin Hp ltac:(by rewrite Hid)) as Hext. rewrite Hpath in Hext.
    simpl default in Hext. eexists. split; [reflexivity|]. by destruct Hext.
  - rewrite (bind_ok (put _) _ w tt (unsent ino w) eq_refl) in Hrun.
    apply bind_inv in Hrun as ([] & w1 & Hsend & Hbegin).
    pose proof (send_unsent mode healthy (fun _ => False) ino id p w Hsound Hp Hid) as [_ Hs]. rewrite Hsend in Hs.
    destruct Hs as (Hs1 & Hp1 & Hi1 & _).
    eapply (begin_recorded (fun id' => False \/ id' = id)); [exact Hs1| | | |exact Hbegin].
    + by eapply send_recorded.
    + rewrite Hp1. apply lookup_delete_eq.
    + by rewrite Hi1.
Qed.

Lemma send_if_full_recorded stale ino id w w' :
  sound_but mode stale w -> recorded w -> by_ino (inodes (fs w)) !! ino = Some id ->
  send_if_full healthy id ino w = (Ok tt, w') -> recorded w'.
Proof.
  intros Hsound Hrec Hid Hrun. unfold send_if_full in Hrun. rewrite (bind_ok get _ _ _ _ eq_refl) in Hrun.
  destruct (pending (fs w) !! ino) as [p|] eqn:Hp; [|done]. destruct (_ || _); [|by injection Hrun as <-].
  rewrite (bind_ok (put _) _ w tt (unsent ino w) eq_refl) in Hrun. by eapply send_recorded.
Qed.

Lemma invalidate_recorded id w w' :
  recorded w -> invalidate_cache disk_faults id w = (Ok tt, w') -> recorded w'.
Proof.
  intros Hrec Hrun. unfold invalidate_cache in Hrun. rewrite (bind_ok get _ _ _ _ eq_refl) in Hrun.
  destruct (cache (fs w)); injection Hrun as <-; [|done]. by same_log.
Qed.

Lemma write_recorded ino offset data w n w' :
  sound w -> recorded w -> is_Some (view w ino) -> 0 <= offset -> data <> [] -> offset + len data < MAX_SIZE ->
  Mount.write disk_faults healthy ino offset data w = (Ok n, w') -> recorded w'.
Proof.
  intros Hsound Hrec Hsome Hoff Hd Hend Hrun. unfold Mount.write in Hrun. apply bind_inv in Hrun as (id & w0 & Hid & Hrun).
  unfold id_for in Hid. destruct (by_ino (inodes (fs w)) !! ino) as [id'|] eqn:Hid'; [|done]. injection Hid as -> <-.
  rewrite (bind_ok get _ _ _ _ eq_refl) in Hrun. set (w1 := with_inodes w _) in *.
  rewrite (bind_ok (put w1) _ _ tt w1 eq_refl) in Hrun.
  apply bind_inv in Hrun as ([] & w2 & H2 & Hrun). apply bind_inv in Hrun as ([] & w3 & H3 & Hrun).
  apply bind_inv in Hrun as ([] & w4 & H4 & Hrun). injection Hrun as _ <-.
  assert (Hs1 : sound w1) by (by apply set_high_water_sound).
  assert (Hhw : is_Some (high_water (inodes (fs w1)) !! ino)) by (simpl; by rewrite lookup_insert_eq).
  pose proof (buffer_write_spec mode healthy (fun _ => False) ino id offset data w1 Hs1 Hid' Hhw Hsome Hoff Hd Hend) as [_ Hb].
  rewrite H2 in Hb. destruct Hb as (Hs2 & _ & Hi2 & _).
  eapply invalidate_recorded; [|exact H4]. eapply send_if_full_recorded; [exact Hs2| | |exact H3].
  - eapply (buffer_recorded ino id offset data w1); [done|by same_log|done|exact H2].
  - by rewrite Hi2.
Qed.

Lemma flush_recorded ino w w' :
  sound w -> recorded w -> flush disk_faults healthy ino w = (Ok tt, w') -> recorded w'.
Proof.
  intros Hsound Hrec Hrun. unfold flush in Hrun. rewrite (bind_ok get _ _ _ _ eq_refl) in Hrun.
  destruct (pending (fs w) !! ino) as [p|] eqn:Hp; [|by injection Hrun as <-].
  rewrite (bind_ok (put _) _ w tt (unsent ino w) eq_refl) in Hrun. apply bind_inv in Hrun as (id & w1 & Hid & Hrun).
  unfold id_for in Hid. simpl in Hid. destruct (by_ino (inodes (fs w)) !! ino) as [id'|] eqn:Hid'; [|done].
  injection Hid as -> <-. apply bind_inv in Hrun as ([] & w2 & H2 & H3).
  eapply invalidate_recorded; [|exact H3]. by eapply send_recorded.
Qed.

Lemma fsync_recorded ino w w' :
  sound w -> recorded w -> Mount.fsync disk_faults healthy ino w = (Ok tt, w') -> recorded w'.
Proof.
  intros Hsound Hrec Hrun. unfold Mount.fsync in Hrun. apply bind_inv in Hrun as ([] & w1 & H1 & Hrun).
  apply bind_inv in Hrun as (id & w2 & Hid & Hrun). unfold id_for in Hid. destruct (_ !! ino); [|done].
  injection Hid as -> <-. unfold request in Hrun. destruct (sync_file _ _) as [r s]. injection Hrun as _ <-.
  eapply recorded_ext; [..|by eapply flush_recorded]; done.
Qed.

Lemma read_recorded ino offset size w out w' :
  sound w -> recorded w -> Mount.read mode disk_faults healthy completed ino offset size w = (Ok out, w') -> recorded w'.
Proof.
  intros Hsound Hrec Hrun. unfold Mount.read in Hrun. apply bind_inv in Hrun as ([] & w1 & H1 & Hrun).
  apply bind_inv in Hrun as (id & w2 & Hid & Hrun). unfold id_for in Hid. destruct (_ !! ino); [|done].
  injection Hid as -> <-. apply bind_inv in Hrun as (vs & w2 & H2 & Hrun).
  assert (Hrec2 : recorded w2).
  { assert (Hrec1 : recorded w1) by by eapply flush_recorded. unfold version_for in H2.
    rewrite (bind_ok get _ _ _ _ eq_refl) in H2.
    assert (Hask : forall node w1', recorded w1' -> (w ← get; _ ← put (with_inodes w (set_seen ino (nr_current_version_id node) (nr_size node)
      (inodes (fs w)))); mret (nr_current_version_id node, nr_size node)) w1' = (Ok vs, w2) -> recorded w2).
    { intros node w1' Hrec1' Hput. clear Hrec Hrec1. rewrite (bind_ok get _ _ _ _ eq_refl) in Hput. injection Hput as _ <-. by same_log. }
    destruct (seen (inodes (fs w1)) !! ino), (high_water (inodes (fs w1)) !! ino); try (injection H2 as _ <-; done);
      apply bind_inv in H2 as (node & w1' & Hq & H2); unfold query in Hq; injection Hq as _ <-; (eapply Hask; [|exact H2]); clear Hrec; same_log. }
  destruct (_ =? 0); [by injection Hrun as _ <-|]. rewrite (bind_ok get _ _ _ _ eq_refl) in Hrun.
  assert (Hdirect : forall w3 at_ n, recorded w3 -> read_direct id at_ n w3 = (Ok out, w') -> recorded w').
  { intros w3 at_ n H3 Hd. unfold read_direct in Hd. apply bind_inv in Hd as (b & w3' & Hq & Hd). unfold query in Hq.
    injection Hq as _ <-. destruct (_ <? _); [done|]. injection Hd as _ <-. clear Hrec Hrec2. same_log. }
  destruct (cache (fs w2)) as [c|]; [|by eapply Hdirect]. destruct vs.1 as [v|]; [|by eapply Hdirect].
  apply bind_inv in Hrun as (b & w3 & H3 & Hrun). unfold cached_read in H3.
  destruct (BlockCache.read _ _ _ _ _ _ _ _ _) as [r c']. injection H3 as _ <-.
  assert (Hrec3 : recorded (with_srv (with_cache w2 (Some c')) (tick (srv w2)))) by (clear Hrec; same_log).
  destruct (_ <? _); [|by injection Hrun as _ <-]. apply bind_inv in Hrun as ([] & w4 & H4 & Hrun).
  eapply Hdirect; [|exact Hrun]. by eapply invalidate_recorded.
Qed.

(** *** Replaying *)

(** The run an entry of the journal stands for. *)
Definition run_of d (e : JournalEntry) : option PendingRun :=
  match files d !! je_local_path e with
  | Some (b :: data) => Some {| pr_node_id := je_node_id e; pr_offset := je_offset e; pr_data := b :: data |}
  | _ => None
  end.

Lemma read_runs_spec entries d :
  exists d', read_runs healthy entries d = (omap (run_of d) entries, d') /\ files d' = files d /\ journal d' = journal d /\ tail d' = tail d.
Proof.
  revert d. induction entries as [|e entries IH]; intros d; simpl; [by exists d|].
  destruct (IH (set_files d (files d))) as (d' & -> & E1 & E2). exists d'. split; [|done].
  change (run_of (set_files d (files d))) with (run_of d).
  assert (Hrun : run_of d e = match files d !! je_local_path e with Some (b :: data) => Some {| pr_node_id := je_node_id e;
    pr_offset := je_offset e; pr_data := b :: data |} | _ => None end) by done.
  rewrite Hrun. by destruct (files d !! je_local_path e) as [[|b data]|].
Qed.

Lemma NoDup_omap {A B C} (f : B -> C) (g : A -> option B) (l : list A) :
  NoDup l -> (forall x y a b, x ∈ l -> y ∈ l -> g x = Some a -> g y = Some b -> f a = f b -> x = y) ->
  NoDup (f <$> omap g l).
Proof.
  induction 1 as [|x l Hx Hnd IH]; intros Hinj; simpl; [constructor|].
  assert (IH' : NoDup (f <$> omap g l)) by (apply IH; intros; eapply Hinj; try done; by right).
  destruct (g x) as [a|] eqn:Hg; [|done]. simpl. constructor; [|done].
  intros (b & Hab & (y & Hy & Hgy)%list_elem_of_omap)%list_elem_of_fmap.
  apply Hx. assert (x = y) as -> by (eapply (Hinj x y a b); [left|by right|done..]). done.
Qed.

(** The server accepts writes to the files it has. *)
Definition accepting : Prop :=
  forall id offset data (s : S) b, valid s -> content s id = Some b ->
    0 <= offset -> data <> [] -> offset + len data < MAX_SIZE -> exists n s', write_file id offset data s = (Ok n, s').

Lemma replay_spec runs k s :
  valid s -> NoDup (pr_node_id <$> runs) ->
  (forall r, r ∈ runs -> is_Some (content s (pr_node_id r)) /\ 0 <= pr_offset r /\ pr_data r <> [] /\
     pr_offset r + len (pr_data r) < MAX_SIZE) ->
  accepting ->
  let '(_, s') := replay runs k s in
  valid s' /\ forall id b, content s id = Some b ->
    (id ∉ (pr_node_id <$> runs) -> content s' id = Some b) /\
    (forall r, r ∈ runs -> pr_node_id r = id -> content s' id = Some (write_flat b (pr_offset r) (pr_data r))).
Proof.
  intros Hv Hnd Hok Hacc. revert k s Hv Hnd Hok. induction runs as [|r runs IH]; intros k s Hv Hnd Hok; simpl.
  { split; [done|]. intros id b Hb. split; [done|]. set_solver. }
  apply NoDup_cons in Hnd as [Hr Hnd]. destruct (Hok r ltac:(left)) as ([b0 Hb0] & Hoff & Hd & Hend).
  pose proof (write_file_law (pr_node_id r) (pr_offset r) (pr_data r) s b0 Hv Hb0 Hoff Hd Hend) as Hlaw.
  destruct (Hacc (pr_node_id r) (pr_offset r) (pr_data r) s b0 Hv Hb0 Hoff Hd Hend) as (n & s1 & Hw).
  rewrite Hw in *. destruct Hlaw as (Hv1 & Hother & Hres).
  assert (Hrest : forall k', let '(_, s') := replay runs k' s1 in
    valid s' /\ forall id b, content s1 id = Some b ->
      (id ∉ (pr_node_id <$> runs) -> content s' id = Some b) /\
      (forall r, r ∈ runs -> pr_node_id r = id -> content s' id = Some (write_flat b (pr_offset r) (pr_data r)))).
  { intros k'. apply IH; [done|done|]. intros r' Hr'. rewrite Hother; [apply Hok; by right|]. intros Heq.
    apply Hr, list_elem_of_fmap. exists r'. split; [congruence|done]. }
  assert (Hstep : forall k', let '(_, s') := replay runs k' s1 in
    valid s' /\ forall id b, content s id = Some b ->
      (id ∉ pr_node_id r :: (pr_node_id <$> runs) -> content s' id = Some b) /\
      (forall r', r' ∈ r :: runs -> pr_node_id r' = id ->
         content s' id = Some (write_flat b (pr_offset r') (pr_data r')))).
  { intros k'. specialize (Hrest k'). destruct (replay runs k' s1) as [k'' s']. destruct Hrest as [Hv' Hrest].
    split; [done|]. intros id b Hb. split.
    - intros [Hne Hni]%not_elem_of_cons. apply Hrest; [by rewrite Hother|done].
    - intros r' [->|Hr']%elem_of_cons Hid.
      + subst id. rewrite Hb in Hb0. injection Hb0 as <-. exact (proj1 (Hrest _ _ Hres) Hr).
      + assert (id <> pr_node_id r). { intros Heq. apply Hr, list_elem_of_fmap. exists r'. split; [congruence|done]. }
        apply (Hrest id b); [by rewrite Hother|done|done]. }
  apply Hstep.
Qed.

Lemma recorded_runs w d r :
  sound w -> recorded_in w d -> r ∈ omap (run_of d) (default [] (journal d)) <->
  exists ino p, pending (fs w) !! ino = Some p /\ by_ino (inodes (fs w)) !! ino = Some (pr_node_id r) /\
    pr_offset r = pw_offset p /\ pr_data r = pw_data p.
Proof.
  intros Hsound []. rewrite list_elem_of_omap. split.
  - intros (e & He & Hr). unfold run_of in Hr. destruct (files d !! je_local_path e) as [[|b data]|] eqn:Hf; try done.
    injection Hr as <-. destruct (rec_entry0 e He) as (ino & p & Hp & Hpath); [by rewrite Hf|].
    destruct (pending_known _ ino p w Hsound Hp) as [id Hid].
    destruct (rec_pending0 ino p id Hp Hid) as (e' & He' & Hpath' & Hfile & <- & Ho).
    assert (e' = e) as -> by (eapply journal_path_inj; try done; congruence). exists ino, p. simpl. split_and?; congruence.
  - intros (ino & p & Hp & Hid & Ho & Hd). destruct (rec_pending0 ino p _ Hp Hid) as (e & He & Hpath & Hfile & Hn & Ho').
    exists e. split; [done|]. unfold run_of. rewrite Hfile. destruct (s_pending _ _ _ Hsound ino p Hp) as (_ & _ & _ & Hne & _).
    destruct r as [rn ro rd]. simpl in *. destruct (pw_data p); [done|]. congruence.
Qed.

Lemma recorded_runs_nodup w d :
  sound w -> recorded_in w d -> NoDup (pr_node_id <$> omap (run_of d) (default [] (journal d))).
Proof.
  intros Hsound Hrec. pose proof Hrec as []. apply NoDup_omap; [by eapply NoDup_fmap_1|].
  intros x y a b Hx Hy Ha Hb Heq.
  assert (Hpath : forall e r, e ∈ default [] (journal d) -> run_of d e = Some r -> exists ino p,
    pending (fs w) !! ino = Some p /\ pw_log_path p = Some (je_local_path e) /\ by_ino (inodes (fs w)) !! ino = Some (pr_node_id r)).
  { intros e r He Hr. unfold run_of in Hr. destruct (files d !! je_local_path e) as [[|c data]|] eqn:Hf; try done.
    injection Hr as <-. destruct (rec_entry0 e He) as (ino & p & Hp & Hpath); [by rewrite Hf|].
    destruct (pending_known _ ino p w Hsound Hp) as [id Hid].
    destruct (rec_pending0 ino p id Hp Hid) as (e' & He' & Hpath' & _ & <- & _).
    assert (e' = e) as -> by (eapply journal_path_inj; try done; congruence). by exists ino, p. }
  destruct (Hpath x a Hx Ha) as (ino1 & p1 & Hp1 & Hl1 & Hi1). destruct (Hpath y b Hy Hb) as (ino2 & p2 & Hp2 & Hl2 & Hi2).
  rewrite Heq in Hi1. assert (ino1 = ino2) as -> by (eapply inodes_inj; [apply Hsound| |]; done).
  eapply journal_path_inj; try done. congruence.
Qed.

Lemma reset_spec d :
  exists d', reset healthy d = (Ok tt, d') /\ journal d' = None.
Proof.
  unfold reset, Journal.recover. destruct (journal d) as [es|] eqn:Hj; simpl.
  2: { unfold clear. rewrite Hj. by exists d. }
  assert (Hfold : forall l d0, journal (foldl (fun d e => finish healthy (je_local_path e) d) d0 l) = journal d0).
  { induction l as [|e l IH]; intros d0; simpl; [done|]. by rewrite IH. }
  unfold clear. rewrite Hfold. simpl. by eexists.
Qed.

Lemma recover_spec w d w2 :
  sound w -> recorded_in w d -> accepting -> valid (srv w2) -> (forall id, content (srv w2) id = content (srv w) id) ->
  log (fs w2) = Some d ->
  exists n w3, Mount.recover healthy w2 = (Ok n, w3) /\ valid (srv w3) /\
    (forall ino id b, by_ino (inodes (fs w)) !! ino = Some id -> view w ino = Some b -> content (srv w3) id = Some b) /\
    (forall id b, (forall ino, by_ino (inodes (fs w)) !! ino <> Some id) -> content (srv w) id = Some b ->
       content (srv w3) id = Some b) /\
    exists d', log (fs w3) = Some d' /\ (take_pending healthy d').1 = Ok [].
Proof.
  intros Hsound Hrec Hacc Hvalid Es El. set (runs := omap (run_of d) (default [] (journal d))).
  assert (Htake : exists d1, take_pending healthy d = (Ok runs, d1) /\ files d1 = files d /\ journal d1 = journal d /\ tail d1 = tail d).
  { unfold take_pending, Journal.recover, runs. destruct (journal d) as [es|] eqn:Hj; simpl; [|by exists d].
    rewrite (rec_tail _ _ Hrec), app_nil_r.
    destruct (read_runs_spec es (set_journal d (journal d))) as (d1 & Hr & E1 & E2 & E3). rewrite Hj in Hr. rewrite Hr.
    exists d1. split; [done|]. rewrite E1, E2, E3. simpl. by rewrite ?Hj, ?(rec_tail _ _ Hrec). }
  destruct Htake as (d1 & Htake & E1 & E2 & E3).
  assert (Hone : forall ino id b, by_ino (inodes (fs w)) !! ino = Some id -> view w ino = Some b ->
    exists b0, content (srv w) id = Some b0 /\ b = overlay (pending (fs w) !! ino) b0).
  { intros ino id b Hid Hview. unfold view in Hview. rewrite Hid in Hview. simpl in Hview.
    destruct (content (srv w) id) as [b0|]; [|done]. injection Hview as <-. by exists b0. }
  assert (Hmem : forall ino id, by_ino (inodes (fs w)) !! ino = Some id -> id ∈ (pr_node_id <$> runs) ->
    exists p, pending (fs w) !! ino = Some p /\ {| pr_node_id := id; pr_offset := pw_offset p; pr_data := pw_data p |} ∈ runs).
  { intros ino id Hid (r & -> & Hr)%list_elem_of_fmap. pose proof Hr as Hr'.
    apply (recorded_runs w d r Hsound Hrec) in Hr' as (ino' & p & Hp & Hid' & Ho & Hd).
    assert (ino' = ino) as -> by (eapply inodes_inj; [apply Hsound| |]; done).
    exists p. split; [done|]. rewrite <-Ho, <-Hd. by destruct r. }
  pose proof (replay_spec runs 0 (srv w2) Hvalid (recorded_runs_nodup w d Hsound Hrec)) as Hreplay.
  destruct (replay runs 0 (srv w2)) as [k s'] eqn:Hrun. destruct Hreplay as [Hv' Hreplay]; [|exact Hacc|].
  { intros r Hr. apply (recorded_runs w d r Hsound Hrec) in Hr as (ino & p & Hp & Hid & -> & ->).
    destruct (s_pending _ _ _ Hsound ino p Hp) as ([b (id & b0 & Hid' & Hb0 & _)%view_Some] & _ & ? & ? & ?).
    rewrite Hid in Hid'. injection Hid' as <-. by rewrite Es, Hb0. }
  assert (Hviews : (forall ino id b, by_ino (inodes (fs w)) !! ino = Some id -> view w ino = Some b -> content s' id = Some b) /\
    (forall id b, (forall ino, by_ino (inodes (fs w)) !! ino <> Some id) -> content (srv w) id = Some b -> content s' id = Some b)).
  { split.
    - intros ino id b Hid Hview. destruct (Hone ino id b Hid Hview) as (b0 & Hb0 & ->).
      rewrite <-Es in Hb0. destruct (Hreplay id b0 Hb0) as [Hno Hyes]. destruct (pending (fs w) !! ino) as [p|] eqn:Hp; simpl.
      + apply (Hyes {| pr_node_id := id; pr_offset := pw_offset p; pr_data := pw_data p |}); [|done].
        apply (recorded_runs w d _ Hsound Hrec). by exists ino, p.
      + apply Hno. intros Hin. destruct (Hmem ino id Hid Hin) as (p & Hp' & _). congruence.
    - intros id b Hno Hb. rewrite <-Es in Hb. apply (Hreplay id b Hb). intros (r & -> & Hr)%list_elem_of_fmap.
      apply (recorded_runs w d r Hsound Hrec) in Hr as (ino & p & _ & Hid & _). by apply (Hno ino). }
  destruct Hviews as [Hv1 Hv2]. unfold Mount.recover. rewrite (bind_ok get _ w2 w2 w2) by done. rewrite El, Htake.
  destruct runs as [|r0 runs0] eqn:Hruns.
  - simpl in Hrun. injection Hrun as <- <-. do 2 eexists. split; [reflexivity|]. simpl.
    split_and?; try done. exists d1. split; [done|]. unfold take_pending, Journal.recover. rewrite E2.
    destruct (journal d) as [es|] eqn:Hj; simpl; [|done]. rewrite E3, (rec_tail _ _ Hrec), app_nil_r.
    destruct (read_runs_spec es (set_journal d1 (Some es))) as (d2 & Hr & _ & _). rewrite Hr. simpl. f_equal.
    rewrite <-Hruns. apply list_omap_ext, Forall_Forall2_diag, Forall_forall. intros e _. unfold run_of. simpl. by rewrite E1.
  - rewrite Hrun. destruct (reset_spec d1) as (d2 & Hreset & Hj2). rewrite Hreset.
    erewrite bind_ok by reflexivity. do 2 eexists. split; [reflexivity|]. simpl. split_and?; try done.
    exists d2. split; [done|]. unfold take_pending, Journal.recover. by rewrite Hj2.
Qed.

(** ** The mount as flat files *)

Inductive Event : Type :=
| EWrite (ino offset : Z) (data : bytes)
| ERead (ino offset size : Z) (out : bytes)
| EFsync (ino : Z).

(** The specification: files are byte strings, known by their inodes. *)
Definition flat_step (files : gmap Z bytes) (ev : Event) : option (gmap Z bytes) :=
  match ev with
  | EWrite ino offset data => Some (alter (fun b => write_flat b offset data) ino files)
  | ERead ino offset size out =>
      b ← files !! ino;
      if bool_decide (out = slice b offset (offset + size)) then Some files else None
  | EFsync _ => Some files
  end.
Fixpoint flat_run (files : gmap Z bytes) (evs : list Event) : option (gmap Z bytes) :=
  match evs with
  | [] => Some files
  | ev :: evs' => files' ← flat_step files ev; flat_run files' evs'
  end.

(** Operations of the mount that succeed, on files, within the range of offsets. *)
Inductive step (log_faults : nat -> option nat) : World (S := S) -> Event -> World (S := S) -> Prop :=
| step_write ino offset data n w w' :
    is_Some (view w ino) -> 0 <= offset -> data <> [] -> offset + len data < MAX_SIZE ->
    Mount.write disk_faults log_faults ino offset data w = (Ok n, w') ->
    step log_faults w (EWrite ino offset data) w'
| step_read ino offset size out w w' :
    is_Some (view w ino) -> 0 <= offset -> 0 <= size -> offset + size < 2 ^ 63 -> cache_fits mode size w ->
    Mount.read mode disk_faults log_faults completed ino offset size w = (Ok out, w') ->
    step log_faults w (ERead ino offset size out) w'
| step_fsync ino w w' :
    is_Some (view w ino) -> Mount.fsync disk_faults log_faults ino w = (Ok tt, w') ->
    step log_faults w (EFsync ino) w'.
Inductive steps (log_faults : nat -> option nat) : World (S := S) -> list Event -> World (S := S) -> Prop :=
| steps_nil w : steps log_faults w [] w
| steps_cons w ev w1 evs w2 : step log_faults w ev w1 -> steps log_faults w1 evs w2 -> steps log_faults w (ev :: evs) w2.

Definition shows w (files : gmap Z bytes) : Prop := forall ino, files !! ino = view w ino.

Lemma changes_shows ino f w w' files :
  shows w files -> others_same ino w w' -> view w' ino = f <$> view w ino -> shows w' (alter f ino files).
Proof.
  intros Hs Ho Hv ino'. destruct (decide (ino' = ino)) as [->|Hne].
  - by rewrite lookup_alter_eq, Hs.
  - by rewrite lookup_alter_ne, Hs, Ho.
Qed.
Lemma same_shows ino w w' files :
  shows w files -> others_same ino w w' -> view w' ino = view w ino -> shows w' files.
Proof. intros Hs Ho Hv ino'. rewrite Hs. destruct (decide (ino' = ino)) as [->|Hne]; [done|]. by rewrite Ho. Qed.

Context (Hperm : forall l, completed l ≡ₚ l).

Lemma step_sim log_faults w ev w' files :
  sound w -> shows w files -> step log_faults w ev w' ->
  exists files', flat_step files ev = Some files' /\ shows w' files' /\ sound w'.
Proof.
  intros Hsound Hshows Hstep. destruct Hstep as [ino offset data n w w' [b Hb] ? ? ? Hrun|ino offset size out w w' [b Hb] ? ? ? Hfit Hrun|ino w w' [b Hb] Hrun];
    pose proof Hb as (id & b0 & Hid & _)%view_Some.
  - pose proof (write_spec mode disk_faults log_faults ino id offset data w Hsound Hid ltac:(by rewrite Hb) ltac:(done) ltac:(done) ltac:(done)) as [Ho Hw].
    rewrite Hrun in *. destruct Hw as (_ & Hs' & Hv). eexists. split; [reflexivity|]. split; [|done]. eapply changes_shows; [done|exact Ho|exact Hv].
  - pose proof (mount_read_spec mode disk_faults log_faults completed ino id offset size b w Hperm Hsound Hid Hb
      ltac:(done) ltac:(done) ltac:(done) Hfit) as [Ho Hr].
    rewrite Hrun in *. destruct Hr as (-> & Hs' & Hv). exists files. simpl. rewrite Hshows, Hb. simpl.
    rewrite bool_decide_true by done. split_and?; [done| |done]. eapply same_shows; [done|exact Ho|by rewrite Hb].
  - pose proof (fsync_spec mode disk_faults log_faults ino id w Hsound Hid ltac:(by rewrite Hb)) as [Ho Hf]. rewrite Hrun in *.
    destruct Hf as (Hs' & _ & Hv & _). exists files. split_and?; [done| |done]. eapply same_shows; [done|exact Ho|exact Hv].
Qed.

Lemma steps_sim log_faults w evs w' files :
  sound w -> shows w files -> steps log_faults w evs w' ->
  exists files', flat_run files evs = Some files' /\ shows w' files' /\ sound w'.
Proof.
  intros Hsound Hshows Hsteps. revert files Hshows. induction Hsteps as [w|w ev w1 evs w2 Hstep Hsteps IH]; intros files Hshows.
  - by exists files.
  - destruct (step_sim _ _ _ _ _ Hsound Hshows Hstep) as (files1 & Hf & Hs1 & H1). simpl. rewrite Hf. by apply IH.
Qed.

Lemma step_recorded w ev w' : sound w -> recorded w -> step healthy w ev w' -> recorded w'.
Proof.
  intros Hsound Hrec Hstep. destruct Hstep; [by eapply write_recorded|by eapply read_recorded|by eapply fsync_recorded].
Qed.
Lemma steps_recorded w evs w' files : sound w -> shows w files -> recorded w -> steps healthy w evs w' -> recorded w'.
Proof.
  intros Hsound Hshows Hrec Hsteps. revert files Hshows. induction Hsteps as [|w ev w1 evs w2 Hstep Hsteps IH]; intros files Hshows; [done|].
  destruct (step_sim _ _ _ _ _ Hsound Hshows Hstep) as (files1 & _ & Hs1 & H1). eapply IH; [done| |done]. exact (step_recorded _ _ _ Hsound Hrec Hstep).
Qed.

(** A crash and the next mount. *)
Lemma crash_recovers w evs w' files d us c w2 :
  sound w -> recorded w -> shows w files -> steps healthy w evs w' -> accepting ->
  log (fs w') = Some d -> mount_with c (Some d) (srv w') us = Ok w2 ->
  exists files' n w3, flat_run files evs = Some files' /\ Mount.recover healthy w2 = (Ok n, w3) /\
    (forall ino id b, by_ino (inodes (fs w')) !! ino = Some id -> files' !! ino = Some b -> content (srv w3) id = Some b) /\
    (forall id b, (forall ino, by_ino (inodes (fs w')) !! ino <> Some id) -> content (srv w') id = Some b ->
       content (srv w3) id = Some b) /\
    exists d', log (fs w3) = Some d' /\ (take_pending healthy d').1 = Ok [].
Proof.
  intros Hsound Hrec Hshows Hsteps Hacc Hd Hmount.
  destruct (steps_sim _ _ _ _ _ Hsound Hshows Hsteps) as (files' & Hf & Hs' & Hsound').
  destruct (steps_recorded _ _ _ _ Hsound Hshows Hrec Hsteps) as (d' & Hd' & Hrec'). rewrite Hd in Hd'. injection Hd' as <-.
  destruct (tick_law (srv w') (s_valid _ _ _ Hsound')) as [Hv1 Hc1]. destruct (tick_law _ Hv1) as [Hv2 Hc2].
  assert (Hw2 : srv w2 = tick (tick (srv w')) /\ log (fs w2) = Some d).
  { unfold mount_with in Hmount. destruct (get_node_by_path _ _); [|done]. simpl in Hmount.
    destruct (fs_info (tick (srv w'))); [|done]. simpl in Hmount. by injection Hmount as <-. }
  destruct Hw2 as [Es El].
  destruct (recover_spec w' d w2 Hsound' Hrec' Hacc ltac:(by rewrite Es) ltac:(intros id; by rewrite Es, Hc2, Hc1) El) as (n & w3 & Hr & _ & H1 & H2 & H3).
  exists files', n, w3. split_and?; try done. intros ino id b Hid Hb. apply (H1 ino id b Hid). by rewrite <-Hs'.
Qed.

(** ** Properties *)

(** C20 The mount behaves as flat files. Whatever sequence of writes, reads and [fsync]s
    succeeds, with whatever faults in the write log and the block cache, the reads
    returned what a memory that applies the writes at once would have returned, and the
    files the mount shows at the end are the files of that memory. *)
Theorem mount_refines_flat_files log_faults w evs w' files :
  sound w -> shows w files -> steps log_faults w evs w' ->
  exists files', flat_run files evs = Some files' /\ shows w' files' /\ sound w'.
Proof. apply steps_sim. Qed.

(** A crash loses no accepted write. Start from a mount whose log holds exactly what is
    buffered (an empty one, at first), let any sequence of writes, reads and [fsync]s
    succeed, and then lose everything in memory. A new mount over the same log and server
    recovers: the replay returns, and afterwards the server holds, for every file, what
    a memory that applies the writes at once would hold. Other files are left alone and
    nothing is left to replay. *)
Theorem crash_loses_no_write w evs w' files d us c w2 :
  sound w -> recorded w -> shows w files -> steps healthy w evs w' -> accepting ->
  log (fs w') = Some d -> mount_with c (Some d) (srv w') us = Ok w2 ->
  exists files' n w3, flat_run files evs = Some files' /\ Mount.recover healthy w2 = (Ok n, w3) /\
    (forall ino id b, by_ino (inodes (fs w')) !! ino = Some id -> files' !! ino = Some b -> content (srv w3) id = Some b) /\
    (forall id b, (forall ino, by_ino (inodes (fs w')) !! ino <> Some id) -> content (srv w') id = Some b ->
       content (srv w3) id = Some b) /\
    exists d', log (fs w3) = Some d' /\ (take_pending healthy d').1 = Ok [].
Proof. apply crash_recovers. Qed.

End Recovery.
End Recovery.
