(* ===== verification/FakeClient.v ===== *)
(** * The in-memory server of the mount's tests

    Models [src/crates/dcfs-fuse/src/fake_client.rs] as an instance of the client
    interface, and shows that it keeps what the mount relies on. Times and new UUIDs are
    read from supplies in its state. *)
From S2P Require Import Prelude Core Crypto ObjectStore Repository Locks Server Nodes BlockCache WriteLog Mount MountFacts.

Module FakeClient.
Import Nodes Client.

Record FakeClient : Type := {
  nodes : gmap Uuid NodeResponse;
  file_data : gmap Uuid bytes;
  clock : nat -> Z; ticks : nat;
  supply : nat -> Uuid; issued : nat;
}.

Definition CHUNK_SIZE : Z := 64.
Definition root_id : Uuid := 0%N.

(** A request reads the clock and draws a UUID at most once. *)
Definition with_nodes (c : FakeClient) (ns : gmap Uuid NodeResponse) (fd : gmap Uuid bytes) : FakeClient :=
  {| nodes := ns; file_data := fd; clock := clock c; ticks := S (ticks c); supply := supply c; issued := S (issued c) |}.
Definition now (c : FakeClient) : Z := clock c (ticks c).
Definition new_v4 (c : FakeClient) : Uuid := supply c (issued c).

Definition new (clock : nat -> Z) (supply : nat -> Uuid) : FakeClient :=
  {| nodes := {[root_id := {| nr_id := root_id; nr_parent_id := None; nr_name := [x72; x6f; x6f; x74];
       nr_kind := NodeModel.Directory; nr_mode := 493 (* 0o755 *); nr_uid := 0; nr_gid := 0; nr_size := 0;
       nr_atime := clock 0%nat; nr_mtime := clock 0%nat; nr_ctime := clock 0%nat; nr_current_version_id := None;
       nr_generation := 0; nr_link_target := None |}]};
     file_data := ∅; clock := clock; ticks := 1; supply := supply; issued := 0 |}.

(** The order of byte strings. *)
Fixpoint name_leb (a b : bytes) : bool :=
  match a, b with
  | [], _ => true
  | _ :: _, [] => false
  | x :: a', y :: b' =>
      match N.compare (Byte.to_N x) (Byte.to_N y) with
      | Lt => true | Gt => false | Eq => name_leb a' b'
      end
  end.
Fixpoint name_insert (n : NodeResponse) (l : list NodeResponse) : list NodeResponse :=
  match l with
  | [] => [n]
  | m :: l' => if name_leb (nr_name n) (nr_name m) then n :: m :: l' else m :: name_insert n l'
  end.

Section Client.
Context `{HashOrder}.

Definition is_child (parent : Uuid) (n : NodeResponse) : bool := bool_decide (nr_parent_id n = Some parent).
Definition named (parent : Uuid) (name : bytes) (n : NodeResponse) : bool :=
  is_child parent n && bool_decide (nr_name n = name).

Definition fc_get_node (id : Uuid) (c : FakeClient) : result ClientError NodeResponse :=
  ok_or (nodes c !! id) NotFound.
Definition fc_get_node_by_path (path : bytes) (c : FakeClient) : result ClientError NodeResponse :=
  if bool_decide (path = [x2f]) then fc_get_node root_id c else Err NotFound.
Definition fc_find_child (parent : Uuid) (name : bytes) (c : FakeClient) : result ClientError NodeResponse :=
  if negb (bool_decide (is_Some (nodes c !! parent))) then Err NotFound else
  ok_or (head (filter (fun n => named parent name n = true) (hm_values (nodes c)))) NotFound.
Definition fc_list_children (parent : Uuid) (limit offset : option Z) (c : FakeClient)
    : result ClientError (list NodeResponse) :=
  if negb (bool_decide (is_Some (nodes c !! parent))) then Err NotFound else
  let children := foldr name_insert [] (filter (fun n => is_child parent n = true) (hm_values (nodes c))) in
  Ok (ztake (default (u32 (len children)) limit) (zdrop (default 0 offset) children)).

Definition fc_create_node (req : CreateNodeRequest) (c : FakeClient) : result ClientError NodeResponse * FakeClient :=
  if negb (bool_decide (is_Some (nodes c !! cn_parent_id req))) then (Err NotFound, c) else
  if existsb (named (cn_parent_id req) (cn_name req)) (hm_values (nodes c)) then (Err AlreadyExists, c) else
  let node_id := new_v4 c in
  let node := {| nr_id := node_id; nr_parent_id := Some (cn_parent_id req); nr_name := cn_name req;
                 nr_kind := cn_kind req; nr_mode := cn_mode req; nr_uid := cn_uid req; nr_gid := cn_gid req;
                 nr_size := 0; nr_atime := now c; nr_mtime := now c; nr_ctime := now c;
                 nr_current_version_id := None; nr_generation := 0; nr_link_target := cn_link_target req |} in
  (Ok node, with_nodes c (<[node_id := node]> (nodes c))
              (if bool_decide (cn_kind req = NodeModel.File) then <[node_id := []]> (file_data c) else file_data c)).

Definition fc_patch_node (id : Uuid) (req : PatchNodeRequest) (c : FakeClient)
    : result ClientError NodeResponse * FakeClient :=
  match nodes c !! id with
  | None => (Err NotFound, c)
  | Some n =>
      let n := {| nr_id := nr_id n; nr_parent_id := nr_parent_id n; nr_name := nr_name n; nr_kind := nr_kind n;
                  nr_mode := default (nr_mode n) (pn_mode req); nr_uid := default (nr_uid n) (pn_uid req);
                  nr_gid := default (nr_gid n) (pn_gid req); nr_size := default (nr_size n) (pn_size req);
                  nr_atime := default (nr_atime n) (pn_atime req); nr_mtime := default (nr_mtime n) (pn_mtime req);
                  nr_ctime := now c; nr_current_version_id := nr_current_version_id n;
                  nr_generation := nr_generation n +u 1; nr_link_target := nr_link_target n |} in
      (Ok n, with_nodes c (<[id := n]> (nodes c)) (file_data c))
  end.

Definition fc_rename_node (id : Uuid) (req : RenameNodeRequest) (c : FakeClient)
    : result ClientError NodeResponse * FakeClient :=
  match nodes c !! id with
  | None => (Err NotFound, c)
  | Some _ =>
      let victim := head (filter (fun n => (negb (bool_decide (nr_id n = id)) &&
                                            named (rn_new_parent_id req) (rn_new_name req) n) = true)
                            (hm_values (nodes c))) in
      let move c :=
        match nodes c !! id with
        | None => (Err NotFound, c)
        | Some n =>
            let n := {| nr_id := nr_id n; nr_parent_id := Some (rn_new_parent_id req); nr_name := rn_new_name req;
                        nr_kind := nr_kind n; nr_mode := nr_mode n; nr_uid := nr_uid n; nr_gid := nr_gid n;
                        nr_size := nr_size n; nr_atime := nr_atime n; nr_mtime := nr_mtime n; nr_ctime := now c;
                        nr_current_version_id := nr_current_version_id n; nr_generation := nr_generation n +u 1;
                        nr_link_target := nr_link_target n |} in
            (Ok n, with_nodes c (<[id := n]> (nodes c)) (file_data c))
        end in
      match victim with
      | Some v =>
          if bool_decide (nr_kind v = NodeModel.Directory) && existsb (is_child (nr_id v)) (hm_values (nodes c))
          then (Err DirectoryNotEmpty, c)
          else move {| nodes := delete (nr_id v) (nodes c); file_data := delete (nr_id v) (file_data c);
                       clock := clock c; ticks := ticks c; supply := supply c; issued := issued c |}
      | None => move c
      end
  end.

Definition fc_delete_node (id : Uuid) (c : FakeClient) : result ClientError unit * FakeClient :=
  match nodes c !! id with
  | None => (Err NotFound, c)
  | Some n =>
      if bool_decide (nr_kind n = NodeModel.Directory) && existsb (is_child id) (hm_values (nodes c))
      then (Err DirectoryNotEmpty, c)
      else (Ok tt, with_nodes c (delete id (nodes c)) (delete id (file_data c)))
  end.

Definition fc_read_file (id : Uuid) (offset size : Z) (c : FakeClient) : result ClientError bytes :=
  match file_data c !! id with
  | None => Err NotFound
  | Some data => if len data <=? offset then Ok [] else Ok (slice data offset (Z.min (offset +u size) (len data)))
  end.

Definition fc_write_file (id : Uuid) (offset : Z) (data : bytes) (c : FakeClient) : result ClientError Z * FakeClient :=
  match file_data c !! id with
  | None => (Err NotFound, c)
  | Some file =>
      let end_ := offset +u len data in
      let file := if len file <? end_ then resize file end_ else file in
      let file := splice file offset data in
      let publish n := {| nr_id := nr_id n; nr_parent_id := nr_parent_id n; nr_name := nr_name n; nr_kind := nr_kind n;
                          nr_mode := nr_mode n; nr_uid := nr_uid n; nr_gid := nr_gid n; nr_size := len file;
                          nr_atime := nr_atime n; nr_mtime := now c; nr_ctime := nr_ctime n;
                          nr_current_version_id := Some (new_v4 c); nr_generation := nr_generation n +u 1;
                          nr_link_target := nr_link_target n |} in
      (Ok (len data), with_nodes c (alter publish id (nodes c)) (<[id := file]> (file_data c)))
  end.

Definition fc_sync_file (id : Uuid) (c : FakeClient) : result ClientError unit * FakeClient :=
  match nodes c !! id with Some _ => (Ok tt, c) | None => (Err NotFound, c) end.

#[global] Instance fake_client : ServerClient FakeClient := {|
  tick c := c;
  fs_info _ := Ok CHUNK_SIZE;
  get_node := fc_get_node;
  get_node_by_path := fc_get_node_by_path;
  find_child := fc_find_child;
  list_children := fc_list_children;
  read_file := fc_read_file;
  read_file_cacheable id offset size c := b ← fc_read_file id offset size c; mret (b, true);
  create_node := fc_create_node;
  patch_node := fc_patch_node;
  rename_node := fc_rename_node;
  delete_node := fc_delete_node;
  write_file := fc_write_file;
  sync_file := fc_sync_file;
|}.

End Client.
End FakeClient.

(** ** The laws *)
Module FakeFacts.
Import Nodes Client FakeClient MountSpec.

Section Laws.
Context `{HashOrder}.

(** Every file has a node of its size. *)
Definition fake_valid (c : FakeClient) : Prop :=
  forall id d, file_data c !! id = Some d -> exists n, nodes c !! id = Some n /\ nr_id n = id /\ nr_size n = len d.

Lemma fake_read_ok id offset size c out b :
  file_data c !! id = Some b -> 0 <= offset -> 0 <= size -> offset + size < 2 ^ 64 ->
  fc_read_file id offset size c = Ok out -> out = slice b offset (offset + size).
Proof.
  intros Hb Hoff Hsize Hend Hr. unfold fc_read_file in Hr. rewrite Hb in Hr.
  destruct (MountFacts.slice_clip b offset size Hoff Hsize) as [Hclip Hlen]. unfold saturating_sub in *.
  destruct (Z.leb_spec (len b) offset); injection Hr as <-.
  - symmetry. apply len_nil_inv. lia.
  - unwrap. rewrite Hclip. f_equal. lia.
Qed.

Lemma fake_write_ok id offset data c b :
  fake_valid c -> file_data c !! id = Some b -> 0 <= offset -> data <> [] -> offset + len data < 2 ^ 64 ->
  exists c', fc_write_file id offset data c = (Ok (len data), c') /\ fake_valid c' /\
    (forall id', id' <> id -> file_data c' !! id' = file_data c !! id') /\
    file_data c' !! id = Some (write_flat b offset data).
Proof.
  intros Hv Hb Hoff Hd Hend. pose proof (len_nonneg data). unfold fc_write_file. rewrite Hb. unwrap.
  assert (Hflat : splice (if len b <? offset + len data then resize b (offset + len data) else b) offset data
    = write_flat b offset data).
  { unfold write_flat. rewrite bool_decide_false by done. f_equal. destruct (Z.ltb_spec (len b) (offset + len data)).
    - f_equal. lia.
    - rewrite Z.max_l by lia. unfold resize. rewrite ztake_all by lia. by rewrite Z.sub_diag, app_nil_r. }
  rewrite Hflat. eexists. split; [reflexivity|]. simpl. split_and?.
  - intros id' d' Hl. simpl in Hl. apply lookup_insert_Some in Hl as [[<- <-]|[Hne Hd']]; simpl.
    + destruct (Hv id b Hb) as (n & Hn & Hid & _). rewrite lookup_alter_eq, Hn. simpl. eauto.
    + rewrite lookup_alter_ne by done. by apply Hv.
  - intros id' Hne. by rewrite lookup_insert_ne.
  - by rewrite lookup_insert_eq.
Qed.

#[global] Program Instance fake_laws : ClientLaws FakeClient := {|
  content c id := file_data c !! id;
  valid := fake_valid;
|}.
Next Obligation. by intros c Hv. Qed.
Next Obligation.
  intros id offset data c b Hv Hb Hoff Hd Hend.
  destruct (fake_write_ok id offset data c b Hv Hb Hoff Hd ltac:(unfold MAX_SIZE in *; lia)) as (c' & Hw & ?).
  simpl. by rewrite Hw.
Qed.
Next Obligation. intros id offset size c out b _ Hb Hoff Hsize Hend Hr. exact (fake_read_ok id offset size c out b Hb Hoff Hsize Hend Hr). Qed.
Next Obligation.
  intros id offset size c out keepable b _ Hb Hoff Hsize Hend Hr. simpl in Hr.
  destruct (fc_read_file id offset size c) as [b'|] eqn:Hb'; [|done]. injection Hr as <- <-.
  exact (fake_read_ok id offset size c b' b Hb Hoff Hsize Hend Hb').
Qed.
Next Obligation.
  intros id c n b Hv Hn Hb. destruct (Hv id b Hb) as (n' & Hn' & ? & ?). simpl in Hn. unfold fc_get_node in Hn.
  rewrite Hn' in Hn. by injection Hn as <-.
Qed.
Next Obligation. intros id c Hv _. simpl. unfold fc_sync_file. by destruct (nodes c !! id). Qed.

End Laws.
End FakeFacts.
