(* ===== verification/MountExample.v ===== *)
(** * A mount of the in-memory server

    One mounted file, on which the theorems about the mount are applied and the findings
    about its buffering are evaluated. *)
From S2P Require Import Prelude Core Crypto ObjectStore Repository Locks Server Nodes BlockCache WriteLog Mount MountFacts MountRecovery FakeClient.

Module MountExample.
Import Nodes Client Journal WriteLog Mount MountSpec MountFacts Recovery FakeClient FakeFacts.

Definition stream : BlockCache.Mode := BlockCache.Stream (4 * 1024 * 1024).
Definition no_faults : nat -> BlockCache.Key -> bool := fun _ _ => false.
Definition empty_log : Dir := {| files := ∅; journal := None; tail := Ended; io := 0 |}.

(** A server with one empty file, and a mount of it that has looked the file up. *)
Definition request : CreateNodeRequest :=
  {| cn_parent_id := root_id; cn_name := [x66]; cn_kind := NodeModel.File; cn_mode := 420; cn_uid := 0; cn_gid := 0;
     cn_link_target := None; cn_idempotency_key := 7%N |}.
Definition file_id : Uuid := 100%N.
Definition server : FakeClient :=
  (fc_create_node request (FakeClient.new Z.of_nat (fun n => 100 + N.of_nat n)%N)).2.
Definition file_node : NodeResponse :=
  {| nr_id := file_id; nr_parent_id := Some root_id; nr_name := [x66]; nr_kind := NodeModel.File; nr_mode := 420;
     nr_uid := 0; nr_gid := 0; nr_size := 0; nr_atime := 1; nr_mtime := 1; nr_ctime := 1;
     nr_current_version_id := None; nr_generation := 0; nr_link_target := None |}.
Definition run_names (n : nat) : Uuid := (1000 + N.of_nat n)%N.
Definition fresh_mount : World (S := FakeClient) :=
  {| fs := {| chunk_size := 64; log := Some empty_log; cache := Some BlockCache.new;
              inodes := {| by_ino := {[1 := root_id]}; by_id := {[root_id := 1]}; seen := ∅; high_water := ∅; next := 2 |};
              pending := ∅ |};
     srv := server; uuids := run_names; drawn := 0 |}.
Definition opened : World (S := FakeClient) := (attr_of file_node fresh_mount).2.

Lemma mount_fresh : mount_with (Some BlockCache.new) (Some empty_log) server run_names = Ok fresh_mount.
Proof. reflexivity. Qed.
Lemma find_file : find_child root_id [x66] server = Ok file_node.
Proof. vm_compute. reflexivity. Qed.

Lemma server_valid : valid server.
Proof.
  intros id d Hd.
  assert (Hdata : file_data server = {[file_id := []]}) by (vm_compute; reflexivity).
  rewrite Hdata in Hd. apply lookup_singleton_Some in Hd as [<- <-]. exists file_node. split; [vm_compute; reflexivity|done].
Qed.
Lemma fresh_sound : sound stream fresh_mount.
Proof.
  apply (mount_sound stream (Some BlockCache.new) (Some empty_log) server run_names).
  - apply server_valid.
  - congruence.
  - simpl. lia.
  - apply mount_fresh.
Qed.
Lemma opened_sound : sound stream opened.
Proof.
  destruct (attr_of_spec stream file_node fresh_mount fresh_sound ltac:(simpl; lia) ltac:(simpl; lia)) as (a & w & Hrun & Hw & _).
  - intros b Hb. vm_compute in Hb. by injection Hb as <-.
  - vm_compute. by eexists.
  - unfold opened. by rewrite Hrun.
Qed.
Lemma opened_recorded : recorded opened.
Proof.
  exists empty_log. split; [reflexivity|]. constructor.
  - intros ino p id Hp. by destruct (lookup_empty_Some _ _ Hp).
  - intros e He. by apply not_elem_of_nil in He.
  - intros ino ino' p p' Hp. by destruct (lookup_empty_Some _ _ Hp).
  - constructor.
  - intros n _. split; [done|apply not_elem_of_nil].
  - intros n m. change (run_names n = run_names m -> n = m). unfold run_names. lia.
  - done.
Qed.
Lemma fake_accepting : accepting (S := FakeClient).
Proof.
  intros id offset data s b Hv Hb Hoff Hd Hend.
  destruct (fake_write_ok id offset data s b Hv Hb Hoff Hd ltac:(unfold MAX_SIZE in *; lia)) as (s' & Hw & _).
  exists (len data), s'. exact Hw.
Qed.

(** *** Instances of the properties *)

Lemma ino_for_correct_witness :
  exists ino w', ino_for file_id fresh_mount = (Ok ino, w') /\ ino = 2 /\ ino_for file_id w' = (Ok ino, w').
Proof.
  destruct (ino_for_correct stream file_id fresh_mount fresh_sound ltac:(simpl; lia) ltac:(simpl; lia))
    as (ino & w' & Hrun & _ & _ & _ & Hnew & _ & Hagain).
  exists ino, w'. split; [exact Hrun|]. split; [apply Hnew; reflexivity|exact Hagain].
Defined.

Definition written : World (S := FakeClient) := (Mount.write no_faults healthy 2 3 [x61; x62] opened).2.

Lemma write_visible_witness :
  sound stream opened /\ (Mount.write no_faults healthy 2 3 [x61; x62] opened).1 = Ok 2 /\ sound stream written /\
  view written 2 = Some [x00; x00; x00; x61; x62].
Proof.
  split; [apply opened_sound|].
  pose proof (write_visible stream no_faults healthy 2 3 [x61; x62] [] opened opened_sound ltac:(vm_compute; reflexivity) ltac:(lia) ltac:(done)
    ltac:(vm_compute; reflexivity)) as Hw.
  assert (Hok : (Mount.write no_faults healthy 2 3 [x61; x62] opened).1 = Ok 2) by (vm_compute; reflexivity).
  unfold written. destruct (Mount.write no_faults healthy 2 3 [x61; x62] opened) as [r w']. simpl in Hok. subst r.
  destruct Hw as (_ & _ & Hs & Hv). split; [reflexivity|]. split; [exact Hs|]. simpl. rewrite Hv. vm_compute. reflexivity.
Defined.

Lemma written_sound : sound stream written.
Proof.
  destruct (write_spec stream no_faults healthy 2 file_id 3 [x61; x62] opened opened_sound) as [_ Hw].
  - vm_compute. reflexivity.
  - vm_compute. by eexists.
  - lia.
  - done.
  - vm_compute. reflexivity.
  - assert (Hok : (Mount.write no_faults healthy 2 3 [x61; x62] opened).1 = Ok 2) by (vm_compute; reflexivity).
    rewrite Hok in Hw. apply Hw.
Qed.

Lemma written_fits size : 0 <= size <= 1024 -> cache_fits stream size written.
Proof.
  intros Hsize. split; [simpl; lia|]. intros c Hc. vm_compute in Hc. injection Hc as <-. unfold BlockCache.BLOCK_SIZE. simpl.
  Z.div_mod_to_equations. lia.
Qed.

Lemma read_shows_view_witness :
  (Mount.read stream no_faults healthy id 2 2 10 written).1 = Ok [x00; x61; x62].
Proof.
  pose proof (read_shows_view stream no_faults healthy id 2 2 10 [x00; x00; x00; x61; x62] written ltac:(done) written_sound
    ltac:(vm_compute; reflexivity) ltac:(lia) ltac:(lia) ltac:(lia) (written_fits 10 ltac:(lia))) as Hr.
  assert (Hok : match (Mount.read stream no_faults healthy id 2 2 10 written).1 with Ok _ => true | Err _ => false end = true)
    by (vm_compute; reflexivity).
  destruct (Mount.read stream no_faults healthy id 2 2 10 written) as [[out|e] w']; [|discriminate Hok].
  destruct Hr as (_ & Hout & _). simpl. rewrite Hout. vm_compute. reflexivity.
Defined.

Lemma fsync_reaches_server_witness :
  content (srv (Mount.fsync no_faults healthy 2 written).2) file_id = Some [x00; x00; x00; x61; x62].
Proof.
  pose proof (fsync_reaches_server stream no_faults healthy 2 file_id written written_sound ltac:(vm_compute; reflexivity)
    ltac:(vm_compute; by eexists)) as Hf.
  assert (Hok : (Mount.fsync no_faults healthy 2 written).1 = Ok tt) by (vm_compute; reflexivity).
  destruct (Mount.fsync no_faults healthy 2 written) as [r w']. simpl in Hok. subst r.
  destruct Hf as (_ & _ & Hc & _). cbn [snd]. rewrite Hc. vm_compute. reflexivity.
Defined.

(** Two writes that are buffered as one run, and a read between them. *)
Definition events : list Event := [EWrite 2 3 [x61; x62]; EWrite 2 5 [x63]].
Definition written2 : World (S := FakeClient) := (Mount.write no_faults healthy 2 5 [x63] written).2.
Definition known_files : gmap Z bytes := {[2 := []]}.

Lemma events_run : steps stream no_faults id healthy opened events written2.
Proof.
  assert (Hw : Mount.write no_faults healthy 2 3 [x61; x62] opened = (Ok 2, written)).
  { unfold written. assert (Hok : (Mount.write no_faults healthy 2 3 [x61; x62] opened).1 = Ok 2) by (vm_compute; reflexivity).
    by destruct (Mount.write no_faults healthy 2 3 [x61; x62] opened) as [r w']; simpl in *; subst r. }
  assert (Hw2 : Mount.write no_faults healthy 2 5 [x63] written = (Ok 1, written2)).
  { unfold written2. assert (Hok : (Mount.write no_faults healthy 2 5 [x63] written).1 = Ok 1) by (vm_compute; reflexivity).
    by destruct (Mount.write no_faults healthy 2 5 [x63] written) as [r w']; simpl in *; subst r. }
  econstructor; [eapply step_write; [vm_compute; by eexists|lia|done|vm_compute; reflexivity|exact Hw]|].
  econstructor; [eapply step_write; [vm_compute; by eexists|lia|done|vm_compute; reflexivity|exact Hw2]|constructor].
Qed.
Lemma opened_shows : shows opened known_files.
Proof.
  intros ino. unfold known_files. destruct (decide (ino = 2)) as [->|Hne]; [vm_compute; reflexivity|].
  rewrite lookup_singleton_ne by done. unfold view.
  assert (Hb : by_ino (inodes (fs opened)) = <[2 := file_id]> {[1 := root_id]}) by reflexivity.
  rewrite Hb, lookup_insert_ne by done.
  destruct (decide (ino = 1)) as [->|Hne1]; [vm_compute; reflexivity|]. by rewrite lookup_singleton_ne.
Qed.

Lemma mount_refines_flat_files_witness :
  exists files', flat_run known_files events = Some files' /\ shows written2 files' /\
    files' !! 2 = Some [x00; x00; x00; x61; x62; x63].
Proof.
  destruct (mount_refines_flat_files stream no_faults id ltac:(done) healthy opened events written2 known_files
    opened_sound opened_shows events_run) as (files' & Hf & Hs & _).
  exists files'. split; [exact Hf|]. split; [exact Hs|]. rewrite (Hs 2). vm_compute. reflexivity.
Defined.

Definition crashed_log : Dir := default empty_log (log (fs written2)).

Lemma crash_loses_no_write_witness :
  exists w2 n w3, mount_with None (Some crashed_log) (srv written2) run_names = Ok w2 /\
    Mount.recover healthy w2 = (Ok n, w3) /\ content (srv w3) file_id = Some [x00; x00; x00; x61; x62; x63].
Proof.
  destruct (mount_with None (Some crashed_log) (srv written2) run_names) as [w2|e] eqn:Hm; [|vm_compute in Hm; discriminate Hm].
  destruct (crash_loses_no_write stream no_faults id ltac:(done) opened events written2 known_files crashed_log run_names None w2
    opened_sound opened_recorded opened_shows events_run fake_accepting ltac:(reflexivity) Hm)
    as (files' & n & w3 & Hf & Hr & Hc & _ & _).
  exists w2, n, w3. split; [reflexivity|]. split; [exact Hr|]. apply (Hc 2 file_id).
  - vm_compute. reflexivity.
  - assert (Hflat : (files' ← flat_run known_files events; files' !! 2) = Some [x00; x00; x00; x61; x62; x63])
      by (vm_compute; reflexivity).
    rewrite Hf in Hflat. exact Hflat.
Defined.

(** *** What a refused write leaves behind *)

(** A server that refuses the next [refusals] writes. *)
Record Flaky : Type := { inner : FakeClient; refusals : nat }.
Definition forward {A} (q : FakeClient -> result ClientError A * FakeClient) (f : Flaky) : result ClientError A * Flaky :=
  let '(r, c) := q (inner f) in (r, {| inner := c; refusals := refusals f |}).
#[local] Instance flaky_client : ServerClient Flaky := {|
  tick f := f; fs_info f := fs_info (inner f); get_node id f := get_node id (inner f);
  get_node_by_path p f := get_node_by_path p (inner f); find_child p n f := find_child p n (inner f);
  list_children p l o f := list_children p l o (inner f); read_file id o n f := read_file id o n (inner f);
  read_file_cacheable id o n f := read_file_cacheable id o n (inner f);
  create_node r := forward (create_node r); patch_node id r := forward (patch_node id r);
  rename_node id r := forward (rename_node id r); delete_node id := forward (delete_node id);
  write_file id o d f := match refusals f with
                         | O => forward (write_file id o d) f
                         | Datatypes.S k => (Err BackendUnavailable, {| inner := inner f; refusals := k |})
                         end;
  sync_file id := forward (sync_file id);
|}.

Definition flaky_mount (refusals : nat) : World (S := Flaky) :=
  {| fs := fs opened; srv := {| inner := server; refusals := refusals |}; uuids := run_names; drawn := 0 |}.
Definition after {S A} (m : M (S := S) A) (w : World) : World := (m w).2.

(** An [fsync] fails, a second one reports success, and the bytes never arrive. *)
Lemma refused_run_is_lost :
  let w := after (Mount.write no_faults healthy 2 0 [x61]) (flaky_mount 1) in
  let '(r1, w) := Mount.fsync no_faults healthy 2 w in
  let '(r2, w) := Mount.fsync no_faults healthy 2 w in
  r1 = Err (Fail BackendUnavailable) /\ r2 = Ok tt /\ file_data (inner (srv w)) !! file_id = Some [].
Proof. vm_compute. done. Qed.

(** The record of the refused run stays, and the next mount replays it over bytes that
    were written and synchronised after it. *)
Lemma refused_run_is_replayed_over_newer :
  let w := after (Mount.write no_faults healthy 2 0 [x61]) (flaky_mount 1) in
  let w := after (Mount.fsync no_faults healthy 2) w in
  let '(r1, w) := Mount.write no_faults healthy 2 0 [x62] w in
  let '(r2, w) := Mount.fsync no_faults healthy 2 w in
  r1 = Ok 1 /\ r2 = Ok tt /\ file_data (inner (srv w)) !! file_id = Some [x62] /\
  match mount_with None (log (fs w)) (srv w) run_names with
  | Ok w => file_data (inner (srv (after (Mount.recover healthy) w))) !! file_id = Some [x61]
  | Err _ => False
  end.
Proof. vm_compute. done. Qed.

(** A run the server refuses during recovery is forgotten with the rest of the log. *)
Lemma refused_replay_is_lost :
  let w := after (Mount.write no_faults healthy 2 0 [x61]) (flaky_mount 0) in
  match mount_with None (log (fs w)) {| inner := inner (srv w); refusals := 1 |} run_names with
  | Ok w => let '(r, w) := Mount.recover healthy w in
            r = Ok 0 /\ log (fs w) ≫= journal = None /\ file_data (inner (srv w)) !! file_id = Some []
  | Err _ => False
  end.
Proof. vm_compute. done. Qed.

(** A line of the journal that was cut short takes the next one with it: the second run is
    recorded without an error, and after a crash it is not found. *)
Definition cut_once (n : nat) : option nat := if bool_decide (n = 1%nat) then Some 1%nat else None.
Lemma cut_line_takes_next :
  let w := after (Mount.write no_faults cut_once 2 0 [x61]) (flaky_mount 0) in
  let '(r, w) := Mount.write no_faults cut_once 2 10 [x62] w in
  r = Ok 1 /\ (pw_log_path <$> pending (fs w) !! 2) = Some (Some (run_names 1)) /\
  (fst ∘ take_pending healthy <$> log (fs w)) = Some (Ok []).
Proof. vm_compute. done. Qed.

End MountExample.
