(* ===== verification/MountTasks.v ===== *)
(** * The mount under concurrent requests

    Models [src/crates/dcfs-fuse/src/service.rs] once more, at the grain at which the tasks
    that [fs.rs] spawns for the kernel's requests interleave. An action is a section under the
    inode table's mutex, a request to the server, a step of the block cache ([CacheTasks]), or
    what is done to the buffer and the write log, which only the holder of the lock [pending]
    touches; that lock is held across requests, and given back on every way out. Run alone the
    programs are the operations of [Mount]. *)
From S2P Require Import Prelude Core Crypto ObjectStore Repository Locks Server Nodes BlockCache CacheTasks WriteLog Mount.

Module MountTasks.
Import Nodes Client Journal WriteLog Mount.

Section Programs.
Context {S : Type} `{ServerClient S} `{HashOrder}.
Context (mode : BlockCache.Mode) (disk_faults : nat -> BlockCache.Key -> bool) (log_faults : nat -> option nat).
Context (completed : list nat -> list nat).

Inductive Prog (A : Type) : Type :=
| Ret (r : result (fault ClientError) A)
| Act {B : Type} (m : M (S := S) B) (k : result (fault ClientError) B -> Prog A)
| Acquire (k : Prog A)      (* [self.pending.lock().await] *)
| Release (k : Prog A).     (* the guard goes out of scope *)
#[global] Arguments Ret {A} _.
#[global] Arguments Act {A B} _ _.
#[global] Arguments Acquire {A} _.
#[global] Arguments Release {A} _.

(** An error ends a program, as [?] does. *)
Fixpoint prog_bind {A B} (p : Prog A) (f : A -> Prog B) : Prog B :=
  match p with
  | Ret (Ok a) => f a
  | Ret (Err e) => Ret (Err e)
  | Act m k => Act m (fun b => prog_bind (k b) f)
  | Acquire k => Acquire (prog_bind k f)
  | Release k => Release (prog_bind k f)
  end.
#[global] Instance prog_ret : MRet Prog := fun A a => Ret (Ok a).
#[global] Instance prog_mbind : MBind Prog := fun A B f p => prog_bind p f.
Definition act {B} (m : M (S := S) B) : Prog B := Act m Ret.

(** The guard of the lock is dropped at the end, and on every early return. *)
Fixpoint releasing {A} (p : Prog A) : Prog A :=
  match p with
  | Ret r => Release (Ret r)
  | Act m k => Act m (fun b => releasing (k b))
  | Acquire k => Acquire (releasing k)
  | Release k => Release (releasing k)
  end.
Definition locked {A} (p : Prog A) : Prog A := Acquire (releasing p).

(** *** The cache *)

Definition cache_step {B} (a : CacheTasks.Action (E := ClientError) B) : M (S := S) B := fun w =>
  match cache (fs w) with
  | Some c =>
      let '(b, c) := CacheTasks.perform
        {| CacheTasks.fails := disk_faults (BlockCache.io c);
           CacheTasks.answered := fun node_id _ at_ size => read_file_cacheable node_id at_ size (srv w) |} a c in
      (Ok b, with_cache w (Some c))
  | None => (Err Panic, w)
  end.
Fixpoint on_cache {A} (p : CacheTasks.Prog (E := ClientError) A) : Prog A :=
  match p with
  | CacheTasks.Ret a => mret a
  | CacheTasks.Act a k => Act (cache_step a) (fun r => match r with Ok b => on_cache (k b) | Err e => Ret (Err e) end)
  end.
Definition has_cache : M (S := S) bool := fun w => (Ok (bool_decide (is_Some (cache (fs w)))), w).
Definition invalidate_cache (node_id : Uuid) : Prog unit :=
  cached ← act has_cache;
  if cached : bool then on_cache (CacheTasks.invalidate node_id) else mret tt.

(** *** Buffered writes *)

Definition send (node_id : Uuid) (run : PendingWrite) : Prog unit :=
  _ ← act (request (write_file node_id (pw_offset run) (pw_data run)));
  act (finish_log log_faults (pw_log_path run)).

Definition buffered (ino : Z) : M (S := S) (option PendingWrite) := fun w => (Ok (pending (fs w) !! ino), w).
Definition unbuffer (ino : Z) : M (S := S) unit := fun w => (Ok tt, with_pending w (delete ino (pending (fs w)))).

Definition flush (ino : Z) : Prog unit :=
  locked (
    run ← act (buffered ino);
    match run with
    | Some run =>
        _ ← act (unbuffer ino);
        node_id ← act (id_for ino);
        _ ← send node_id run;
        invalidate_cache node_id
    | None => mret tt
    end).

Fixpoint send_all (drained : list (Z * PendingWrite)) : Prog unit :=
  match drained with
  | [] => mret tt
  | (ino, run) :: rest =>
      node_id ← act (id_for ino);
      _ ← send node_id run;
      _ ← invalidate_cache node_id;
      send_all rest
  end.
Definition drain : M (S := S) (list (Z * PendingWrite)) := fun w => (Ok (hm_iter (pending (fs w))), with_pending w ∅).
Definition flush_all : Prog unit := locked (drained ← act drain; send_all drained).

(** The run that is buffered for the inode grows, in the log too. *)
Definition extend_run (ino : Z) (run : PendingWrite) (data : bytes) : M (S := S) unit := fun w =>
  let l := match log (fs w), pw_log_path run with
           | Some l, Some path => Some (WriteLog.extend log_faults path data l).2
           | l, _ => l
           end in
  (Ok tt, with_pending (with_log w l)
            (<[ino := {| pw_offset := pw_offset run; pw_data := pw_data run ++ data; pw_log_path := pw_log_path run |}]>
               (pending (fs w)))).
Definition buffer_write (node_id : Uuid) (ino offset : Z) (data : bytes) : Prog unit :=
  run ← act (buffered ino);
  match run with
  | Some run =>
      if pw_offset run +u len (pw_data run) =? offset then act (extend_run ino run data)
      else
        _ ← act (unbuffer ino);
        _ ← send node_id run;
        act (begin_pending log_faults node_id ino offset data)
  | None => act (begin_pending log_faults node_id ino offset data)
  end.

(** The run is taken out where it ends on a part boundary or has grown too big. *)
Definition take_full (ino : Z) : M (S := S) (option PendingWrite) := fun w =>
  match pending (fs w) !! ino with
  | None => (Err Panic, w)
  | Some run =>
      let end_ := pw_offset run +u len (pw_data run) in
      let on_boundary := end_ mod chunk_size (fs w) =? 0 in
      let too_big := Z.max (chunk_size (fs w)) WRITE_BUFFER_BYTES *u 2 <=? len (pw_data run) in
      if on_boundary || too_big then (Ok (Some run), with_pending w (delete ino (pending (fs w)))) else (Ok None, w)
  end.
Definition send_if_full (node_id : Uuid) (ino : Z) : Prog unit :=
  full ← act (take_full ino);
  match full with Some run => send node_id run | None => mret tt end.

Definition reach_to (ino reach : Z) : M (S := S) unit := fun w =>
  (Ok tt, with_inodes w (set_high_water ino (Z.max (default 0 (high_water (inodes (fs w)) !! ino)) reach) (inodes (fs w)))).
Definition write (ino offset : Z) (data : bytes) : Prog Z :=
  node_id ← act (id_for ino);
  _ ← act (reach_to ino (offset +u len data));
  locked (
    _ ← buffer_write node_id ino offset data;
    _ ← send_if_full node_id ino;
    _ ← invalidate_cache node_id;
    mret (len data)).

(** *** Reading and the rest *)

Definition remembered (ino : Z) : M (S := S) (option (option Uuid * Z) * bool) := fun w =>
  (Ok (seen (inodes (fs w)) !! ino, bool_decide (is_Some (high_water (inodes (fs w)) !! ino))), w).
Definition see (ino : Z) (v : option Uuid) (size : Z) : M (S := S) unit := fun w =>
  (Ok tt, with_inodes w (set_seen ino v size (inodes (fs w)))).
Definition version_for (ino : Z) (node_id : Uuid) : Prog (option Uuid * Z) :=
  known ← act (remembered ino);
  match known with
  | (Some remembered, false) => mret remembered
  | _ =>
      node ← act (query (get_node node_id));
      _ ← act (see ino (nr_current_version_id node) (nr_size node));
      mret (nr_current_version_id node, nr_size node)
  end.

Definition read_direct (node_id : Uuid) (offset expected : Z) : Prog bytes :=
  out ← act (query (read_file node_id offset expected));
  if len out <? expected then Ret (Err (Fail short_read_error)) else mret out.
(** The fetches' requests are over when the cache has put the bytes together. *)
Definition moves_on : M (S := S) unit := fun w => (Ok tt, with_srv w (tick (srv w))).
Definition cached_read (node_id version_id : Uuid) (offset expected : Z) : Prog bytes :=
  r ← on_cache (CacheTasks.read mode node_id version_id offset expected completed);
  _ ← act moves_on;
  Ret r.
Definition read (ino offset size : Z) : Prog bytes :=
  _ ← flush ino;
  node_id ← act (id_for ino);
  vs ← version_for ino node_id;
  let expected := Z.min size (saturating_sub vs.2 offset) in
  if expected =? 0 then mret [] else
  cached ← act has_cache;
  match cached, vs.1 with
  | true, Some version_id =>
      out ← cached_read node_id version_id offset expected;
      if len out <? expected
      then _ ← invalidate_cache node_id; read_direct node_id offset expected
      else mret out
  | _, _ => read_direct node_id offset expected
  end.

Definition attr_of (node : NodeResponse) : Prog Attr :=
  ino ← act (ino_for (nr_id node));
  size ← act (fun w => (Ok (Z.max (nr_size node) (default 0 (high_water (inodes (fs w)) !! ino))),
                        with_inodes w (set_seen ino (nr_current_version_id node) (nr_size node) (inodes (fs w)))));
  mret {| at_ino := ino; at_size := size; at_kind := nr_kind node; at_mode := nr_mode node; at_uid := nr_uid node;
          at_gid := nr_gid node; at_atime := nr_atime node; at_mtime := nr_mtime node; at_ctime := nr_ctime node |}.
Definition getattr (ino : Z) : Prog Attr :=
  _ ← flush ino;
  id ← act (id_for ino);
  node ← act (query (get_node id));
  attr_of node.
Definition fsync (ino : Z) : Prog unit :=
  _ ← flush ino;
  id ← act (id_for ino);
  act (request (sync_file id)).

(** ** Running them *)

(** Alone: the lock is always free. *)
Fixpoint alone {A} (p : Prog A) (w : World (S := S)) : result (fault ClientError) A * World :=
  match p with
  | Ret r => (r, w)
  | Act m k => let '(r, w) := m w in alone (k r) w
  | Acquire k | Release k => alone k w
  end.

(** Together: the tasks and who has the lock. [FlushAllRequest] is how [lookup] and
    [readdir] begin. *)
Inductive Request : Type :=
| WriteRequest (ino offset : Z) (data : bytes)
| ReadRequest (ino offset size : Z)
| GetattrRequest (ino : Z)
| FsyncRequest (ino : Z)
| FlushAllRequest.
Inductive Outcome : Type := Written (n : Z) | Bytes (b : bytes) | Attributes (a : Attr) | Synced | Flushed.
Definition program (q : Request) : Prog Outcome :=
  match q with
  | WriteRequest ino offset data => n ← write ino offset data; mret (Written n)
  | ReadRequest ino offset size => b ← read ino offset size; mret (Bytes b)
  | GetattrRequest ino => a ← getattr ino; mret (Attributes a)
  | FsyncRequest ino => _ ← fsync ino; mret Synced
  | FlushAllRequest => _ ← flush_all; mret Flushed
  end.

Record State : Type := { world : World (S := S); holder : option nat; tasks : gmap nat (Prog Outcome) }.
Definition start (w : World) (requests : gmap nat Request) : State :=
  {| world := w; holder := None; tasks := program <$> requests |}.
(** A turn of task [t]. A task that waits for the lock stays where it is. *)
Definition step (s : State) (t : nat) : State :=
  match tasks s !! t with
  | None | Some (Ret _) => s
  | Some (Act m k) => let '(r, w) := m (world s) in {| world := w; holder := holder s; tasks := <[t := k r]> (tasks s) |}
  | Some (Acquire k) =>
      match holder s with
      | None => {| world := world s; holder := Some t; tasks := <[t := k]> (tasks s) |}
      | Some _ => s
      end
  | Some (Release k) => {| world := world s; holder := None; tasks := <[t := k]> (tasks s) |}
  end.
Definition run (schedule : list nat) (s : State) : State := foldl step s schedule.

End Programs.
End MountTasks.
