(* ===== verification/MountTasksProps.v ===== *)
(** * Concurrent requests through the mount

    The programs of [MountTasks], run alone, are the operations of [Mount]; and in every
    interleaving, while no request ends in an error, the writes take effect one at a time in
    the order in which they get the lock: what the mount shows of a file is what those writes
    make of it, and what reads and fsyncs see of a file is what it was at a moment since they
    began. *)
From S2P Require Import Prelude Core Crypto ObjectStore Repository Locks Server Nodes BlockCache CacheTasks CacheTasksProps WriteLog Mount MountFacts MountTasks.

Module MountTasksFacts.
Import Nodes Client Journal WriteLog Mount MountSpec.
Import MountFacts(bind_ok, bind_err).
Import MountTasks(Prog, Ret, Act, Acquire, Release, act, releasing, locked, on_cache, cache_step, program, step, run, start, world, holder, tasks, State, Request, WriteRequest, ReadRequest, GetattrRequest, FsyncRequest, FlushAllRequest, Outcome, Written, Bytes, Attributes, Synced, Flushed).

(** ** Alone they are the operations of the mount *)

Section Alone.
Context {S : Type} `{ServerClient S} `{HashOrder}.
Context (mode : BlockCache.Mode) (disk_faults : nat -> BlockCache.Key -> bool) (log_faults : nat -> option nat).
Context (completed : list nat -> list nat).
Abbreviation alone := (MountTasks.alone (S := S)).

Lemma prog_alone_bind {A B} (p : Prog A) (f : A -> Prog B) w : alone (p ≫= f) w = ((alone p : M A) ≫= (fun a => alone (f a))) w.
Proof.
  unfold mbind, M_bind, MountTasks.prog_mbind. revert w. induction p as [[a|e]|B' m k IH|k IH|k IH]; intros w; simpl; try done.
  destruct (m w) as [r w']. apply IH.
Qed.
Lemma alone_locked {A} (p : Prog A) w : alone (locked p) w = alone p w.
Proof. revert w. simpl. induction p as [r|B' m k IH|k IH|k IH]; intros w; simpl in *; try done. destruct (m w). apply IH. Qed.
Lemma alone_act {B} (m : M B) w : alone (act m) w = m w.
Proof. simpl. by destruct (m w). Qed.

(** A program of the cache. *)
Lemma alone_on_cache {A} (p : CacheTasks.Prog (E := ClientError) A) w c :
  cache (fs w) = Some c ->
  alone (on_cache disk_faults p) w =
  let '(a, c') := CacheTasks.alone disk_faults (fun node _ at_ size => read_file_cacheable node at_ size (srv w)) p c in
  (Ok a, with_cache w (Some c')).
Proof.
  revert w c. induction p as [a|B a k IH]; intros w c Hc; simpl.
  - destruct w as [[] ? ? ?]. unfold with_cache, with_fs. simpl in *. by rewrite Hc.
  - unfold cache_step. rewrite Hc. destruct (CacheTasks.perform _ a c) as [b c'] eqn:Hp.
    rewrite (IH b (with_cache w (Some c')) c') by done. simpl. by destruct (CacheTasks.alone _ _ (k b) c').
Qed.
Lemma alone_step {A B} (m : M A) (f : A -> Prog B) w a w1 : m w = (Ok a, w1) -> alone (act m ≫= f) w = alone (f a) w1.
Proof. intros Hm. rewrite prog_alone_bind. rewrite (bind_ok _ _ w a w1); [done|]. by rewrite alone_act. Qed.
Lemma alone_invalidate_cache id w : alone (MountTasks.invalidate_cache disk_faults id) w = invalidate_cache disk_faults id w.
Proof.
  unfold MountTasks.invalidate_cache, invalidate_cache. erewrite alone_step by reflexivity. rewrite (bind_ok get _ w w w) by done.
  destruct (cache (fs w)) as [c|] eqn:Hc; [|done]. rewrite bool_decide_true by done.
  rewrite (alone_on_cache _ w c Hc). by rewrite CacheTasksFacts.alone_invalidate.
Qed.
Lemma alone_seq {A B} (p : Prog A) (f : A -> Prog B) (m : M A) (g : A -> M B) w :
  (forall w, alone p w = m w) -> (forall a w, alone (f a) w = g a w) -> alone (p ≫= f) w = (m ≫= g) w.
Proof. intros Hp Hf. rewrite prog_alone_bind. unfold mbind, M_bind. rewrite Hp. by destruct (m w) as [[a|e] w']. Qed.
Lemma alone_then {A B} (m : M A) (f : A -> Prog B) (g : A -> M B) w :
  (forall a w, alone (f a) w = g a w) -> alone (act m ≫= f) w = (m ≫= g) w.
Proof. apply alone_seq. intros w'. apply alone_act. Qed.

Lemma alone_send id r w : alone (MountTasks.send log_faults id r) w = send log_faults id r w.
Proof. apply alone_then. intros _ w'. apply alone_act. Qed.
Lemma alone_flush ino w : alone (MountTasks.flush disk_faults log_faults ino) w = flush disk_faults log_faults ino w.
Proof.
  unfold MountTasks.flush. rewrite alone_locked. unfold flush. erewrite alone_step by reflexivity. rewrite (bind_ok get _ w w w) by done.
  destruct (pending (fs w) !! ino) as [r|]; [|done]. erewrite alone_step by reflexivity. erewrite bind_ok by reflexivity.
  apply alone_then. intros id w1. apply alone_seq; [apply alone_send|]. intros _ w2. apply alone_invalidate_cache.
Qed.
Lemma alone_send_all drained w : alone (MountTasks.send_all disk_faults log_faults drained) w = send_all disk_faults log_faults drained w.
Proof.
  revert w. induction drained as [|[ino r] drained IH]; intros w; [done|]. cbn [MountTasks.send_all send_all]. apply alone_then.
  intros id w1. apply alone_seq; [apply alone_send|]. intros _ w2. apply alone_seq; [apply alone_invalidate_cache|]. intros _. apply IH.
Qed.
Lemma alone_flush_all w : alone (MountTasks.flush_all disk_faults log_faults) w = flush_all disk_faults log_faults w.
Proof.
  unfold MountTasks.flush_all. rewrite alone_locked. erewrite alone_step by reflexivity. rewrite alone_send_all. reflexivity.
Qed.

Lemma alone_buffer_write id ino offset data w :
  alone (MountTasks.buffer_write log_faults id ino offset data) w = buffer_write log_faults id ino offset data w.
Proof.
  unfold MountTasks.buffer_write, buffer_write. erewrite alone_step by reflexivity. rewrite (bind_ok get _ w w w) by done.
  destruct (pending (fs w) !! ino) as [r|]; [|apply alone_act]. destruct (_ =? offset); [by rewrite alone_act|].
  erewrite alone_step by reflexivity. erewrite bind_ok by reflexivity.
  apply alone_seq; [apply alone_send|]. intros _ w2. apply alone_act.
Qed.
Lemma alone_send_if_full id ino w : alone (MountTasks.send_if_full log_faults id ino) w = send_if_full log_faults id ino w.
Proof.
  unfold MountTasks.send_if_full, send_if_full. rewrite (bind_ok get _ w w w) by done.
  rewrite prog_alone_bind. unfold mbind, M_bind. rewrite alone_act. unfold MountTasks.take_full.
  destruct (pending (fs w) !! ino) as [r|]; [|done]. destruct (_ || _); [|done]. apply alone_send.
Qed.
Lemma alone_write ino offset data w :
  alone (MountTasks.write disk_faults log_faults ino offset data) w = write disk_faults log_faults ino offset data w.
Proof.
  apply alone_then. intros id w1. erewrite alone_step by reflexivity. rewrite (bind_ok get _ w1 w1 w1) by done.
  erewrite (bind_ok (put _)) by reflexivity. rewrite alone_locked.
  apply alone_seq; [apply alone_buffer_write|]. intros _ w2. apply alone_seq; [apply alone_send_if_full|]. intros _ w3.
  by apply alone_seq; [apply alone_invalidate_cache|].
Qed.

Lemma alone_version_for ino id w : alone (MountTasks.version_for ino id) w = version_for ino id w.
Proof.
  unfold MountTasks.version_for, version_for. erewrite alone_step by reflexivity. rewrite (bind_ok get _ w w w) by done.
  destruct (seen _ !! ino) as [v|]; [destruct (high_water _ !! ino); [|done]|]; by apply alone_then.
Qed.
Lemma alone_read_direct id offset expected w : alone (MountTasks.read_direct id offset expected) w = read_direct id offset expected w.
Proof. apply alone_then. intros out w1. by destruct (_ <? _). Qed.
Lemma alone_cached_read id version offset expected w c :
  cache (fs w) = Some c ->
  alone (MountTasks.cached_read mode disk_faults completed id version offset expected) w
  = cached_read mode disk_faults completed c id version offset expected w.
Proof.
  intros Hc. unfold MountTasks.cached_read, cached_read. rewrite prog_alone_bind. unfold mbind, M_bind. rewrite (alone_on_cache _ w c Hc), CacheTasksFacts.alone_read.
  by destruct (BlockCache.read _ _ _ _ _ _ _ _ c).
Qed.
Lemma alone_mount_read ino offset size w :
  alone (MountTasks.read mode disk_faults log_faults completed ino offset size) w = read mode disk_faults log_faults completed ino offset size w.
Proof.
  apply alone_seq; [apply alone_flush|]. intros _ w1. apply alone_then. intros id w2. apply alone_seq; [apply alone_version_for|].
  intros [v fsize] w3. cbv zeta. destruct (_ =? 0); [done|]. erewrite alone_step by reflexivity. rewrite (bind_ok get _ w3 w3 w3) by done.
  destruct (cache (fs w3)) as [c|] eqn:Hc; [rewrite bool_decide_true by done|apply alone_read_direct].
  cbn [fst]. destruct v as [v|]; [|apply alone_read_direct].
  rewrite prog_alone_bind. unfold mbind, M_bind. rewrite (alone_cached_read _ _ _ _ _ c Hc).
  destruct (cached_read _ _ _ c id v _ _ w3) as [[out|e] w4]; [|done].
  destruct (_ <? _); [|done]. apply alone_seq; [apply alone_invalidate_cache|]. intros _. apply alone_read_direct.
Qed.
Lemma alone_getattr ino w : alone (MountTasks.getattr disk_faults log_faults ino) w = getattr disk_faults log_faults ino w.
Proof.
  apply alone_seq; [apply alone_flush|]. intros _ w1. apply alone_then. intros id w2. apply alone_then. intros node w3. by apply alone_then.
Qed.
Lemma alone_fsync ino w : alone (MountTasks.fsync disk_faults log_faults ino) w = fsync disk_faults log_faults ino w.
Proof. apply alone_seq; [apply alone_flush|]. intros _ w1. apply alone_then. intros id w2. apply alone_act. Qed.
End Alone.

(** ** Together *)

Section Together.
Context {S : Type} {SC : ServerClient S} {CL : ClientLaws S} {HO : HashOrder}.
Context (mode : BlockCache.Mode) (disk_faults : nat -> BlockCache.Key -> bool) (log_faults : nat -> option nat).
Context (completed : list nat -> list nat).
(** Where the tasks start from. *)
Context (w0 : World (S := S)).
Implicit Types (w : World (S := S)).
Abbreviation Prog := (Prog (S := S)).

(** *** The specification *)

(** What every file holds, and what a request makes of it. *)
Definition Flat : Type := Z -> option bytes.
Definition effect (q : Request) (g : Flat) : Flat :=
  match q with
  | WriteRequest ino offset data => fun i => if bool_decide (i = ino) then (fun b => write_flat b offset data) <$> g i else g i
  | _ => g
  end.
Definition flat (requests : gmap nat Request) (order : list nat) : Flat :=
  foldl (fun g t => match requests !! t with Some q => effect q g | None => g end) (view w0) order.
(** Who gets the lock in the course of a schedule. *)
Definition acquires (s : State (S := S)) (t : nat) : bool :=
  match tasks s !! t, holder s with Some (Acquire _), None => true | _, _ => false end.
Fixpoint lock_order (schedule : list nat) (s : State (S := S)) : list nat :=
  match schedule with
  | [] => []
  | t :: rest => (if acquires s t then [t] else []) ++ lock_order rest (step s t)
  end.

(** *** What tasks may rely on *)

(** What always holds: the inodes stay those of the start, files stay files, and a file whose
    inode has not been written through the mount is as it was. *)
Record base w : Prop := {
  b_valid : valid (srv w);
  b_chunk : 1 <= chunk_size (fs w);
  b_by_ino : by_ino (inodes (fs w)) = by_ino (inodes (fs w0));
  b_by_id : by_id (inodes (fs w)) = by_id (inodes (fs w0));
  b_files : forall id, is_Some (content (srv w0) id) -> is_Some (content (srv w) id);
  b_cache : cache (fs w0) = None -> cache (fs w) = None;
  b_untouched : forall ino id, by_ino (inodes (fs w0)) !! ino = Some id -> high_water (inodes (fs w)) !! ino = None ->
    content (srv w) id = content (srv w0) id;
  b_seen : forall ino id v size b, seen (inodes (fs w)) !! ino = Some (v, size) -> high_water (inodes (fs w)) !! ino = None ->
    by_ino (inodes (fs w0)) !! ino = Some id -> content (srv w0) id = Some b -> size = len b;
}.
(** Some time later; and later without a change to the buffer or to a file. *)
Definition later w w' : Prop :=
  base w' /\ forall ino, is_Some (high_water (inodes (fs w)) !! ino) -> is_Some (high_water (inodes (fs w')) !! ino).
Definition keeps w w' : Prop :=
  later w w' /\ pending (fs w') = pending (fs w) /\ forall id, content (srv w') id = content (srv w) id.

Lemma later_refl w : base w -> later w w.
Proof. by split. Qed.
Lemma keeping_refl w : base w -> keeps w w.
Proof. intros. split; [by apply later_refl|done]. Qed.
Lemma later_trans w1 w2 w3 : later w1 w2 -> later w2 w3 -> later w1 w3.
Proof. intros [_ H1] [H2 H3]. split; [done|]. intros ino Hi. by apply H3, H1. Qed.
Lemma keeping_trans w1 w2 w3 : keeps w1 w2 -> keeps w2 w3 -> keeps w1 w3.
Proof.
  intros (H1 & H2 & H3) (H4 & H5 & H6). split; [by eapply later_trans|]. split; [by rewrite H5|]. intros id. by rewrite H6.
Qed.
Lemma keeps_later w w' : keeps w w' -> later w w'.
Proof. by intros [? _]. Qed.

(** What holds while no one has the lock: the mount shows [g]. *)
Definition pending_ok w : Prop :=
  forall ino p, pending (fs w) !! ino = Some p ->
    is_Some (view w ino) /\ is_Some (high_water (inodes (fs w)) !! ino) /\
    0 <= pw_offset p /\ pw_data p <> [] /\ pw_offset p + len (pw_data p) < MAX_SIZE.
Definition shown (g : Flat) w : Prop := pending_ok w /\ forall ino, view w ino = g ino.

Lemma keeps_view w w' ino : base w -> keeps w w' -> view w' ino = view w ino.
Proof.
  intros Hb ([Hb' _] & Hp & Hc). apply MountFacts.view_ext; [by rewrite (b_by_ino _ Hb), (b_by_ino _ Hb')|by rewrite Hp|done].
Qed.
Lemma keeps_shown g w w' : base w -> keeps w w' -> shown g w -> shown g w'.
Proof.
  intros Hb Hk [Hp Hg]. pose proof Hk as ([_ Hhw] & Hpe & _). split; [|intros ino; by rewrite (keeps_view w w')].
  intros ino p Hpi. rewrite Hpe in Hpi. destruct (Hp ino p Hpi) as (? & ? & ?). rewrite (keeps_view w w') by done. auto.
Qed.

(** *** The logic *)

(** A task has yet to get the lock, has it, with the files before and after what it does, or
    has given it back. *)
Inductive Phase : Type := Before | Holding (g g' : Flat) | After.
(** What the holder may do to a file on the server. *)
Definition moves (g g' : Flat) w w' : Prop :=
  forall ino id, by_ino (inodes (fs w0)) !! ino = Some id ->
    content (srv w') id = content (srv w) id \/ content (srv w') id = g ino \/ content (srv w') id = g' ino.

Section Logic.
Context (eff : Flat -> Flat) (settled : Flat -> World (S := S) -> Prop).

(** [good Q ph w obs p]: from [w], where the task has last acted, the rest [p] of it does what it
    may, whatever the others do in between, and ends with [Q]; [obs] are the states of the server
    at its actions since it gave the lock back. *)
Fixpoint good {A} (Q : Phase -> World (S := S) -> list S -> result (fault ClientError) A -> Prop) (ph : Phase)
    (w : World (S := S)) (obs : list S) (p : Prog A) : Prop :=
  match p with
  | Ret r => Q ph w obs r
  | Act m k =>
      match ph with
      | Holding g g' =>
          forall w1, keeps w w1 -> later w1 (m w1).2 /\ moves g g' w1 (m w1).2 /\ good Q ph (m w1).2 obs (k (m w1).1)
      | _ => forall w1, later w w1 -> keeps w1 (m w1).2 /\ good Q ph (m w1).2 (obs ++ [srv w1]) (k (m w1).1)
      end
  | Acquire k =>
      ph = Before /\ forall w1 g, later w w1 -> shown g w1 -> good Q (Holding g (eff g)) w1 obs k
  | Release k =>
      match ph with
      | Holding g g' =>
          forall w1, keeps w w1 ->
            (exists e, k = Ret (Err e) /\ Q After w1 [] (Err e)) \/ (shown g' w1 /\ settled g' w1 /\ good Q After w1 [] k)
      | _ => False
      end
  end.

Lemma good_bind {A B} (P : Phase -> World -> list S -> result (fault ClientError) A -> Prop)
    (Q : Phase -> World -> list S -> result (fault ClientError) B -> Prop) ph w obs (p : Prog A) (f : A -> Prog B) :
  good P ph w obs p -> (forall ph w obs e, P ph w obs (Err e) -> Q ph w obs (Err e)) ->
  (forall ph w obs a, P ph w obs (Ok a) -> good Q ph w obs (f a)) -> good Q ph w obs (p ≫= f).
Proof.
  unfold mbind, MountTasks.prog_mbind. intros Hp He Hf. revert ph w obs Hp.
  induction p as [[a|e]|B' m k IH|k IH|k IH]; intros ph w obs Hp; simpl in *; [by apply Hf|by apply He| | |].
  - destruct ph; intros w1 Hw1; destruct (Hp w1 Hw1) as [H1 H2]; [split; [done|by apply IH]| |split; [done|by apply IH]].
    destruct H2. split; [done|]. split; [done|by apply IH].
  - destruct Hp as [-> Hp]. split; [done|]. intros w1 g Hw1 Hg. by apply IH, Hp.
  - destruct ph as [|g g'|]; [done| |done]. intros w1 Hw1. destruct (Hp w1 Hw1) as [(e & -> & HP)|(H1 & H2 & H3)]; [left; exists e; auto|right].
    split; [done|]. split; [done|by apply IH].
Qed.
Lemma good_impl {A} (P Q : Phase -> World -> list S -> result (fault ClientError) A -> Prop) ph w obs (p : Prog A) :
  good P ph w obs p -> (forall ph w obs r, P ph w obs r -> Q ph w obs r) -> good Q ph w obs p.
Proof.
  intros Hp HPQ. revert ph w obs Hp. induction p as [r|B' m k IH|k IH|k IH]; intros ph w obs Hp; simpl in *; [by apply HPQ| | |].
  - destruct ph; intros w1 Hw1; destruct (Hp w1 Hw1) as [H1 H2]; [split; [done|by apply IH]| |split; [done|by apply IH]].
    destruct H2. split; [done|]. split; [done|by apply IH].
  - destruct Hp as [-> Hp]. split; [done|]. intros w1 g Hw1 Hg. by apply IH, Hp.
  - destruct ph as [|g g'|]; [done| |done]. intros w1 Hw1. destruct (Hp w1 Hw1) as [(e & -> & HP)|(H1 & H2 & H3)]; [left; exists e; auto|right].
    split; [done|]. split; [done|by apply IH].
Qed.

(** A section under the lock. *)
Definition held {A} (R : A -> Prop) (g g' : Flat) (ph : Phase) w (obs : list S) (r : result (fault ClientError) A) : Prop :=
  ph = Holding g g' /\ match r with Ok a => base w /\ shown g' w /\ settled g' w /\ R a | Err _ => True end.
Definition released {A} (R : A -> Prop) (ph : Phase) w (obs : list S) (r : result (fault ClientError) A) : Prop :=
  match r with Ok a => ph = After /\ obs = [] /\ base w /\ R a | Err _ => True end.
Context (settled_keeps : forall g w w', base w -> keeps w w' -> settled g w -> settled g w').

Lemma good_releasing {A} (R : A -> Prop) g g' ph w obs (p : Prog A) :
  good (held R g g') ph w obs p -> ph <> Before -> good (released R) ph w obs (releasing p).
Proof.
  revert ph w obs. induction p as [r|B' m k IH|k IH|k IH]; intros ph w obs Hp Hph; simpl in *.
  - destruct Hp as [-> Hr]. intros w1 Hw1. destruct r as [a|e]; [right|left; by exists e]. destruct Hr as (Hb & Hs & Hset & HR).
    split; [by eapply keeps_shown|]. split; [by eapply settled_keeps|]. split; [done|]. split; [done|]. split; [apply Hw1|done].
  - destruct ph; [done| |]; intros w1 Hw1; destruct (Hp w1 Hw1) as [H1 H2]; [|split; [done|by apply IH]].
    destruct H2. split; [done|]. split; [done|by apply IH].
  - by destruct Hp as [-> _].
  - destruct ph as [|g1 g1'|]; [done| |done]. intros w1 Hw1. destruct (Hp w1 Hw1) as [(e & _ & [HP _])|(H1 & H2 & H3)].
    + discriminate HP.
    + right. split; [done|]. split; [done|by apply IH].
Qed.
Lemma good_locked {A} (R : A -> Prop) w obs (p : Prog A) :
  (forall w1 g, later w w1 -> shown g w1 -> good (held R g (eff g)) (Holding g (eff g)) w1 obs p) ->
  good (released R) Before w obs (locked p).
Proof. intros Hp. split; [done|]. intros w1 g Hw1 Hg. by eapply good_releasing; [apply Hp|]. Qed.

(** An action of the holder that touches neither a file nor the buffer. *)
Lemma held_quiet {A B} (Q : Phase -> World -> list S -> result (fault ClientError) A -> Prop) g g' w obs (m : M B) k :
  (forall w1, base w1 -> keeps w1 (m w1).2) -> (forall w1, keeps w w1 -> good Q (Holding g g') (m w1).2 obs (k (m w1).1)) ->
  good Q (Holding g g') w obs (Act m k).
Proof.
  intros Hm Hk w1 Hw1. pose proof (Hm w1 (proj1 (keeps_later _ _ Hw1))) as Hm1. split; [by apply keeps_later|].
  split; [|by apply Hk]. intros ino id _. left. apply Hm1.
Qed.
Lemma held_then {A B} (Q : Phase -> World -> list S -> result (fault ClientError) A -> Prop) g g' w obs (m : M B) (f : B -> Prog A) :
  (forall w1, base w1 -> keeps w1 (m w1).2) ->
  (forall w1, keeps w w1 -> match (m w1).1 with
                            | Ok b => good Q (Holding g g') (m w1).2 obs (f b)
                            | Err e => Q (Holding g g') (m w1).2 obs (Err e)
                            end) ->
  good Q (Holding g g') w obs (act m ≫= f).
Proof. intros Hm Hf. apply held_quiet; [done|]. intros w1 Hw1. specialize (Hf w1 Hw1). by destruct (m w1) as [[b|e] w2]. Qed.
End Logic.
#[local] Arguments good : simpl never.

(** *** Quiet actions *)

Lemma id_for_keeps ino w : base w -> keeps w (id_for ino w).2.
Proof. intros. unfold id_for. destruct (_ !! ino); by apply keeping_refl. Qed.
Lemma same_files_keeps w w' : base w -> MountFacts.same_files w w' -> keeps w w'.
Proof.
  intros Hb [E1 E2 E3 E4 E5]. split; [|by rewrite E1]. split; [|by rewrite E2].
  destruct Hb. constructor; rewrite ?E1, ?E2, ?E4, ?E5; done.
Qed.
Lemma finish_log_keeps path w : base w -> keeps w (finish_log log_faults path w).2.
Proof. intros Hb. destruct (MountFacts.finish_log_spec log_faults path w) as (w' & -> & Hs). by apply same_files_keeps. Qed.
Lemma with_cache_keeps w c : base w -> is_Some (cache (fs w)) -> keeps w (with_cache w c).
Proof.
  intros Hb [c0 Hc]. split; [|done]. split; [|done]. destruct Hb. constructor; try done. intros Hn. specialize (b_cache0 Hn). congruence.
Qed.
Lemma cache_step_keeps {B} (a : CacheTasks.Action B) w : base w -> keeps w (cache_step disk_faults a w).2.
Proof.
  intros Hb. unfold cache_step. destruct (cache (fs w)) as [c|] eqn:Hc; [|by apply keeping_refl].
  destruct (CacheTasks.perform _ a c). apply with_cache_keeps; [done|by rewrite Hc].
Qed.
Lemma server_keeps w s : base w -> valid s -> (forall id, content s id = content (srv w) id) -> keeps w (with_srv w s).
Proof.
  intros Hb Hv Hc. split; [|done]. split; [|done]. destruct Hb. constructor; try done; simpl.
  - intros id. rewrite Hc. apply b_files0.
  - intros ino id. rewrite Hc. apply b_untouched0.
Qed.
Lemma tick_keeps w : base w -> keeps w (with_srv w (tick (srv w))).
Proof. intros Hb. destruct (tick_law (srv w) (b_valid _ Hb)). by apply server_keeps. Qed.
Lemma reach_to_keeps ino reach w : base w -> keeps w (MountTasks.reach_to ino reach w).2.
Proof.
  intros Hb. assert (Hgrow : forall i, is_Some (high_water (inodes (fs w)) !! i) ->
    is_Some (high_water (inodes (fs (MountTasks.reach_to ino reach w).2)) !! i)).
  { intros i Hi. simpl. destruct (decide (i = ino)) as [->|]; [by rewrite lookup_insert_eq|by rewrite lookup_insert_ne]. }
  split; [|done]. split; [|done].
  assert (Hnone : forall i, high_water (inodes (fs (MountTasks.reach_to ino reach w).2)) !! i = None -> high_water (inodes (fs w)) !! i = None).
  { intros i Hi. destruct (high_water (inodes (fs w)) !! i) eqn:Hw; [|done]. destruct (Hgrow i) as [? Hx]; [by rewrite Hw|]. congruence. }
  destruct Hb. constructor; try done.
  - intros i id Hi Hn%Hnone. by apply b_untouched0 with i.
  - intros i id v size b Hs Hn%Hnone. by apply b_seen0 with v.
Qed.

(** The programs of the cache, in either phase. *)
Section Quiet.
Context (eff : Flat -> Flat) (settled : Flat -> World (S := S) -> Prop).
Abbreviation good := (good eff settled).

Lemma held_on_cache {A} (Q : Phase -> World -> list S -> result (fault ClientError) A -> Prop) g g' w obs p :
  base w -> (forall w1 r, keeps w w1 -> Q (Holding g g') w1 obs r) -> good Q (Holding g g') w obs (on_cache disk_faults p).
Proof.
  intros Hb HQ. revert w Hb HQ. induction p as [a|B a k IH]; intros w Hb HQ; [apply HQ; by apply keeping_refl|].
  cbn [on_cache]. apply held_quiet; [intros w1; apply cache_step_keeps|]. intros w1 Hw1.
  pose proof (cache_step_keeps a w1 (proj1 (keeps_later _ _ Hw1))) as Hk. destruct (cache_step disk_faults a w1) as [[b|e] w2].
  - apply IH; [apply Hk|]. intros w3 r Hw3. apply HQ. by eapply keeping_trans, keeping_trans.
  - apply HQ. by eapply keeping_trans.
Qed.
Lemma held_invalidate (Q : Phase -> World -> list S -> result (fault ClientError) unit -> Prop) g g' w obs id :
  base w -> (forall w1 r, keeps w w1 -> Q (Holding g g') w1 obs r) ->
  good Q (Holding g g') w obs (MountTasks.invalidate_cache disk_faults id).
Proof.
  intros Hb HQ. apply held_then; [intros w1; apply keeping_refl|]. intros w1 Hw1. cbn [MountTasks.has_cache fst snd].
  case_bool_decide; [|by apply HQ]. apply held_on_cache; [apply Hw1|]. intros w2 r Hw2. apply HQ. by eapply keeping_trans.
Qed.
Lemma after_on_cache {A} (Q : Phase -> World -> list S -> result (fault ClientError) A -> Prop) w obs p :
  base w -> (forall w1 obs' r, later w w1 -> Q After w1 (obs ++ obs') r) -> good Q After w obs (on_cache disk_faults p).
Proof.
  intros Hb HQ. revert w obs Hb HQ. induction p as [a|B a k IH]; intros w obs Hb HQ.
  { simpl. rewrite <-(app_nil_r obs). apply HQ. by apply later_refl. }
  cbn [on_cache]. intros w1 Hw1. pose proof (cache_step_keeps a w1 (proj1 Hw1)) as Hk. split; [done|].
  destruct (cache_step disk_faults a w1) as [[b|e] w2].
  - apply IH; [apply Hk|]. intros w3 obs' r Hw3. rewrite <-app_assoc. apply HQ.
    eapply later_trans; [exact Hw1|]. eapply later_trans; [apply Hk|done].
  - apply HQ. eapply later_trans; [exact Hw1|apply Hk].
Qed.
End Quiet.

(** *** Runs on their way to the server *)

Context (Hinodes : inodes_ok (inodes (fs w0))).

(** The mount would show [g] if the runs [m], which the holder has taken out, were still in the
    buffer. *)
Definition taken (g : Flat) (m : gmap Z PendingWrite) w : Prop :=
  base w /\ m ##ₘ pending (fs w) /\ shown g (with_pending w (m ∪ pending (fs w))).

Lemma with_pending_id w : with_pending w (pending (fs w)) = w.
Proof. by destruct w as [[] ? ? ?]. Qed.
Lemma taken_none g w : taken g ∅ w <-> base w /\ shown g w.
Proof.
  unfold taken. rewrite map_empty_union, with_pending_id. split; [tauto|]. intros [? ?]. split; [done|]. split; [apply map_disjoint_empty_l|done].
Qed.
Lemma with_pending_base w m : base w -> base (with_pending w m).
Proof. by intros []. Qed.
Lemma with_pending_keeps w w' m : keeps w w' -> keeps (with_pending w m) (with_pending w' m).
Proof. intros ([Hb Hhw] & _ & Hc). split; [|done]. split; [by apply with_pending_base|done]. Qed.
Lemma taken_keeps g m w w' : keeps w w' -> taken g m w -> taken g m w'.
Proof.
  intros Hk (Hb & Hd & Hs). pose proof Hk as ([Hb' _] & Hp & _). split; [done|]. rewrite Hp. split; [done|].
  eapply keeps_shown; [|by apply with_pending_keeps|done]. by apply with_pending_base.
Qed.
Lemma unbuffer_taken g ino p w :
  base w -> shown g w -> pending (fs w) !! ino = Some p -> taken g {[ino := p]} (with_pending w (delete ino (pending (fs w)))).
Proof.
  intros Hb Hs Hp. split; [by apply with_pending_base|]. simpl. split; [apply map_disjoint_singleton_l, lookup_delete_eq|].
  rewrite <-insert_union_singleton_l, insert_delete_id by done. exact (eq_ind_r (shown g) Hs (with_pending_id w)).
Qed.
Lemma drain_taken g w : base w -> shown g w -> taken g (pending (fs w)) (with_pending w ∅).
Proof.
  intros Hb Hs. split; [by apply with_pending_base|]. simpl. split; [apply map_disjoint_empty_r|].
  rewrite map_union_empty. exact (eq_ind_r (shown g) Hs (with_pending_id w)).
Qed.

Lemma ino_inj ino ino' id : by_ino (inodes (fs w0)) !! ino = Some id -> by_ino (inodes (fs w0)) !! ino' = Some id -> ino' = ino.
Proof. by apply MountFacts.inodes_inj. Qed.

(** The server has answered the request for one of them. *)
Lemma send_taken g m ino id p w r s :
  taken g m w -> m !! ino = Some p -> by_ino (inodes (fs w0)) !! ino = Some id ->
  write_file id (pw_offset p) (pw_data p) (srv w) = (r, s) ->
  later w (with_srv w s) /\
  (forall ino' id', by_ino (inodes (fs w0)) !! ino' = Some id' ->
     content s id' = content (srv w) id' \/ content s id' = g ino') /\
  match r with Ok _ => taken g (delete ino m) (with_srv w s) | Err _ => True end.
Proof.
  intros (Hb & Hdis & Hpok & Hg) Hm Hid Hw. destruct (Hpok ino p) as (Hsome & Hhw & Hoff & Hd & Hend).
  { simpl. by apply lookup_union_Some_l. }
  destruct Hsome as [b0 (id' & b & Hid' & Hc & _)%MountFacts.view_Some]. simpl in Hid', Hc, Hhw. rewrite (b_by_ino _ Hb), Hid in Hid'. injection Hid' as <-.
  pose proof (write_file_law id (pw_offset p) (pw_data p) (srv w) b (b_valid _ Hb) Hc Hoff Hd Hend) as Hlaw. rewrite Hw in Hlaw.
  destruct Hlaw as (Hv & Hother & Hr).
  assert (Hview : g ino = Some (write_flat b (pw_offset p) (pw_data p))).
  { rewrite <-Hg. unfold view. simpl. rewrite (b_by_ino _ Hb), Hid. simpl. by rewrite Hc, (lookup_union_Some_l _ _ _ _ Hm). }
  assert (Hnew : content s id = Some b \/ content s id = g ino) by (rewrite Hview; destruct r; auto).
  assert (Hlater : later w (with_srv w s)).
  { split; [|done]. destruct Hb. constructor; try done; simpl.
    - intros id' Hs. destruct (decide (id' = id)) as [->|]; [|rewrite Hother by done; auto]. destruct Hnew as [-> | ->]; [done|by rewrite Hview].
    - intros ino' id' Hi Hn. rewrite Hother; [by apply b_untouched0 with ino'|]. intros ->. rewrite (ino_inj ino ino' id Hid Hi) in Hn.
      rewrite Hn in Hhw. by destruct Hhw. }
  split; [done|]. split.
  { intros ino' id' Hi. destruct (decide (id' = id)) as [->|Hne]; [|left; by apply Hother].
    rewrite (ino_inj ino ino' id Hid Hi), Hc. done. }
  destruct r as [n|e]; [|done]. split; [apply Hlater|]. simpl. split; [by apply map_disjoint_delete_l|].
  assert (Hsame : forall i, view (with_pending (with_srv w s) (delete ino m ∪ pending (fs w))) i = g i).
  { intros i. rewrite <-Hg. destruct (decide (i = ino)) as [->|Hne].
    - rewrite Hg, Hview. unfold view. simpl. rewrite (b_by_ino _ Hb), Hid. simpl. rewrite Hr. simpl.
      rewrite lookup_union_r, (map_disjoint_Some_l _ _ _ _ Hdis Hm); [done|apply lookup_delete_eq].
    - apply MountFacts.view_ext; simpl; [done| |].
      + rewrite !lookup_union. by rewrite lookup_delete_ne.
      + intros id' Hi. apply Hother. intros ->. apply Hne. rewrite (b_by_ino _ Hb) in Hi. by apply (ino_inj ino i id). }
  split; [|exact Hsame]. intros i pi Hpi. simpl in Hpi. rewrite Hsame, <-Hg. apply Hpok. simpl.
  apply lookup_union_Some in Hpi as [Hpi|Hpi]; [apply lookup_delete_Some in Hpi as [_ Hpi]; by apply lookup_union_Some_l| |by apply map_disjoint_delete_l].
  apply lookup_union_Some; [done|by right].
Qed.

(** *** Under the lock *)

Section Held.
Context (eff : Flat -> Flat) (settled : Flat -> World (S := S) -> Prop) (g g' : Flat).
Abbreviation good := (good eff settled).
Abbreviation Post A := (Phase -> World (S := S) -> list S -> result (fault ClientError) A -> Prop).

Lemma held_send (Q : Post unit) g1 m ino id p w obs :
  g1 = g \/ g1 = g' -> taken g1 m w -> m !! ino = Some p -> by_ino (inodes (fs w0)) !! ino = Some id ->
  (forall w1 e, Q (Holding g g') w1 obs (Err e)) -> (forall w1, later w w1 -> taken g1 (delete ino m) w1 -> pending (fs w1) = pending (fs w) -> Q (Holding g g') w1 obs (Ok tt)) ->
  good Q (Holding g g') w obs (MountTasks.send log_faults id p).
Proof.
  intros Hg1 Ht Hm Hid HE HQ w1 Hw1. pose proof (taken_keeps _ _ _ _ Hw1 Ht) as Ht1. unfold request.
  destruct (write_file id (pw_offset p) (pw_data p) (srv w1)) as [r s] eqn:Hw.
  destruct (send_taken g1 m ino id p w1 r s Ht1 Hm Hid Hw) as (Hl & Hmv & Hr). split; [done|]. split.
  { intros ino' id' Hi. destruct (Hmv ino' id' Hi) as [?|?]; [by left|right]. destruct Hg1 as [-> | ->]; [by left|by right]. }
  destruct r as [n|e]; [|apply HE]. apply held_quiet; [intros w2; apply finish_log_keeps|]. intros w2 Hw2.
  pose proof (finish_log_keeps (pw_log_path p) w2 (proj1 (keeps_later _ _ Hw2))) as Hk.
  destruct (MountFacts.finish_log_spec log_faults (pw_log_path p) w2) as (w3 & Hrun & _). rewrite Hrun in *. simpl in *.
  pose proof (keeping_trans _ _ _ Hw2 Hk) as Hk2. apply HQ; [|by eapply taken_keeps|].
  { eapply later_trans; [apply Hw1|]. eapply later_trans; [exact Hl|apply Hk2]. }
  rewrite (proj1 (proj2 Hk2)). apply Hw1.
Qed.

Lemma id_for_known ino id w : base w -> by_ino (inodes (fs w0)) !! ino = Some id -> id_for ino w = (Ok id, w).
Proof. intros Hb Hi. unfold id_for. by rewrite (b_by_ino _ Hb), Hi. Qed.

Lemma held_flush (Q : Post unit) ino id w obs :
  base w -> shown g w -> by_ino (inodes (fs w0)) !! ino = Some id ->
  (forall w1 e, Q (Holding g g') w1 obs (Err e)) ->
  (forall w1, base w1 -> shown g w1 -> pending (fs w1) !! ino = None -> Q (Holding g g') w1 obs (Ok tt)) ->
  good Q (Holding g g') w obs
    (run ← act (MountTasks.buffered ino);
     match run with
     | Some run => _ ← act (MountTasks.unbuffer ino); node_id ← act (id_for ino); _ ← MountTasks.send log_faults node_id run;
                   MountTasks.invalidate_cache disk_faults node_id
     | None => mret tt
     end).
Proof.
  intros Hb Hs Hid HE HQ. apply held_then; [intros w1; apply keeping_refl|]. intros w1 Hw1. cbn [MountTasks.buffered fst snd].
  pose proof (keeps_shown _ _ _ Hb Hw1 Hs) as Hs1. pose proof (proj1 (keeps_later _ _ Hw1)) as Hb1.
  destruct (pending (fs w1) !! ino) as [p|] eqn:Hp; [|by apply HQ].
  intros w2 Hw2. pose proof (proj1 (keeps_later _ _ Hw2)) as Hb2. pose proof (keeps_shown _ _ _ Hb1 Hw2 Hs1) as Hs2.
  assert (Hp2 : pending (fs w2) !! ino = Some p) by by rewrite (proj1 (proj2 Hw2)).
  pose proof (unbuffer_taken g ino p w2 Hb2 Hs2 Hp2) as Ht. split; [split; [apply Ht|done]|]. split; [by left|]. cbn [MountTasks.unbuffer fst snd].
  apply held_then; [intros w3; apply id_for_keeps|]. intros w3 Hw3. rewrite (id_for_known ino id w3 (proj1 (keeps_later _ _ Hw3)) Hid). cbn [fst snd].
  apply (taken_keeps _ _ _ _ Hw3) in Ht. eapply (good_bind _ _ (fun ph w4 obs4 r => ph = Holding g g' /\ obs4 = obs /\
    match r with Ok _ => base w4 /\ shown g w4 /\ pending (fs w4) !! ino = None | Err _ => True end)).
  - eapply held_send; [by left|exact Ht|apply lookup_singleton_eq|done|done|]. intros w4. rewrite delete_singleton_eq, taken_none.
    intros _ [Hb4 Hs4] Hp4. split; [done|]. split; [done|]. split; [done|]. split; [done|]. rewrite Hp4.
    by apply (map_disjoint_singleton_l _ _ p), Ht.
  - intros ph w4 obs4 e (-> & -> & _). apply HE.
  - intros ph w4 obs4 [] (-> & -> & Hb4 & Hs4 & Hp4). apply held_invalidate; [done|]. intros w5 r Hw5.
    destruct r as [[]|e]; [|apply HE]. apply HQ; [apply Hw5|by eapply keeps_shown|by rewrite (proj1 (proj2 Hw5))].
Qed.

Lemma held_send_all (Q : Post unit) drained m w obs :
  taken g m w -> NoDup drained.*1 -> m = list_to_map drained ->
  (forall w1 e, Q (Holding g g') w1 obs (Err e)) ->
  (forall w1, base w1 -> shown g w1 -> Q (Holding g g') w1 obs (Ok tt)) ->
  good Q (Holding g g') w obs (MountTasks.send_all disk_faults log_faults drained).
Proof.
  intros Ht Hnd Hm HE HQ. revert m w Ht Hnd Hm. induction drained as [|[ino p] drained IH]; intros m w Ht Hnd ->; cbn [MountTasks.send_all].
  { apply taken_none in Ht as [? ?]. by apply HQ. }
  apply NoDup_cons in Hnd as [Hni Hnd]. simpl in Hni.
  assert (Hino : exists id, by_ino (inodes (fs w0)) !! ino = Some id).
  { destruct Ht as (Hb & _ & Hpok & _). destruct (Hpok ino p) as ([b (id & _ & Hid & _)%MountFacts.view_Some] & _).
    - simpl. apply lookup_union_Some_l. apply lookup_insert_eq.
    - exists id. by rewrite <-(b_by_ino _ Hb). }
  destruct Hino as [id Hid]. apply held_then; [intros w1; apply id_for_keeps|]. intros w1 Hw1.
  rewrite (id_for_known ino id w1 (proj1 (keeps_later _ _ Hw1)) Hid). cbn [fst snd]. apply (taken_keeps _ _ _ _ Hw1) in Ht.
  eapply (good_bind _ _ (fun ph w4 obs4 r => ph = Holding g g' /\ obs4 = obs /\
    match r with Ok _ => taken g (list_to_map drained) w4 | Err _ => True end)).
  - eapply held_send; [by left|exact Ht|apply lookup_insert_eq|done|done|]. intros w4 _ Ht4 _. split; [done|]. split; [done|].
    rewrite list_to_map_cons, delete_insert_id in Ht4; [done|]. by apply not_elem_of_list_to_map_1.
  - intros ph w4 obs4 e (-> & -> & _). apply HE.
  - intros ph w4 obs4 [] (-> & -> & Ht4). eapply (good_bind _ _ (fun ph w5 obs5 r => ph = Holding g g' /\ obs5 = obs /\
      match r with Ok _ => taken g (list_to_map drained) w5 | Err _ => True end)).
    + apply held_invalidate; [apply Ht4|]. intros w5 r Hw5. split; [done|]. split; [done|]. destruct r; [by eapply taken_keeps|done].
    + intros ph w5 obs5 e (-> & -> & _). apply HE.
    + intros ph w5 obs5 [] (-> & -> & Ht5). by eapply IH.
Qed.
Lemma held_flush_all (Q : Post unit) w obs :
  base w -> shown g w -> (forall w1 e, Q (Holding g g') w1 obs (Err e)) ->
  (forall w1, base w1 -> shown g w1 -> Q (Holding g g') w1 obs (Ok tt)) ->
  good Q (Holding g g') w obs (drained ← act MountTasks.drain; MountTasks.send_all disk_faults log_faults drained).
Proof.
  intros Hb Hs HE HQ w1 Hw1. pose proof (proj1 (keeps_later _ _ Hw1)) as Hb1. pose proof (keeps_shown _ _ _ Hb Hw1 Hs) as Hs1.
  pose proof (drain_taken g w1 Hb1 Hs1) as Ht. split; [split; [apply Ht|done]|]. split; [by left|]. cbn [MountTasks.drain fst snd].
  eapply held_send_all; [exact Ht| |symmetry|done|done].
  - rewrite hm_iter_perm. apply NoDup_fst_map_to_list.
  - rewrite (list_to_map_proper _ (map_to_list (pending (fs w1)))); [apply list_to_map_to_list| |apply hm_iter_perm].
    rewrite hm_iter_perm. apply NoDup_fst_map_to_list.
Qed.

(** A write puts its bytes into the buffer. *)
Context (ino : Z) (id : Uuid) (offset : Z) (data : bytes).
Context (Hid : by_ino (inodes (fs w0)) !! ino = Some id) (Hfile : is_Some (content (srv w0) id)).
Context (Hoff : 0 <= offset) (Hdata : data <> []) (Hfit : offset + len data < MAX_SIZE).
Context (Hg' : g' = effect (WriteRequest ino offset data) g).

Lemma buffer_shown p w w' :
  base w -> is_Some (high_water (inodes (fs w)) !! ino) -> 0 <= pw_offset p -> pw_data p <> [] -> pw_offset p + len (pw_data p) < MAX_SIZE ->
  (forall b, content (srv w) id = Some b -> g' ino = Some (write_flat b (pw_offset p) (pw_data p))) ->
  shown g w -> MountFacts.same_files (with_pending w (<[ino := p]> (pending (fs w)))) w' ->
  base w' /\ shown g' w' /\ is_Some (pending (fs w') !! ino) /\ later w w'.
Proof.
  intros Hb Hhw Hpo Hpd Hpf Hval [Hpok Hg] [E1 E2 E3 E4 E5]. simpl in *.
  assert (Hb' : base w') by (destruct Hb; constructor; rewrite ?E1, ?E2, ?E4, ?E5; done).
  assert (Hview : forall i, view w' i = g' i).
  { intros i. destruct (decide (i = ino)) as [->|Hne].
    - destruct (b_files _ Hb id Hfile) as [b Hc]. rewrite (Hval b Hc). unfold view. rewrite E1, E2, E3, (b_by_ino _ Hb), Hid. simpl.
      by rewrite Hc, lookup_insert_eq.
    - rewrite Hg'. simpl. rewrite bool_decide_false by done. rewrite <-Hg. apply MountFacts.view_ext; [by rewrite E2|by rewrite E3, lookup_insert_ne|].
      by rewrite E1. }
  split; [done|]. rewrite E3, lookup_insert_eq. split; [|split; [done|split; [done|by rewrite E2]]]. split; [|done].
  intros i pi Hpi. rewrite E3 in Hpi. rewrite E2, Hview. apply lookup_insert_Some in Hpi as [[<- <-]|[Hne Hpi]].
  - destruct (b_files _ Hb id Hfile) as [b Hc]. by rewrite (Hval b Hc).
  - rewrite Hg'. simpl. rewrite bool_decide_false by done. rewrite <-Hg. by apply Hpok.
Qed.

Lemma effect_here b : g ino = Some b -> g' ino = Some (write_flat b offset data).
Proof. intros Hb. rewrite Hg'. simpl. by rewrite bool_decide_true, Hb. Qed.
Lemma shown_unbuffered w : base w -> shown g w -> pending (fs w) !! ino = None -> content (srv w) id = g ino.
Proof. intros Hb [_ Hs] Hp. rewrite <-Hs. unfold view. rewrite (b_by_ino _ Hb), Hid, Hp. simpl. by destruct (content (srv w) id). Qed.

Lemma quiet_moves w w' : (forall i, content (srv w') i = content (srv w) i) -> moves g g' w w'.
Proof. intros Hc i x _. left. apply Hc. Qed.

Lemma held_begin {A} (Q : Post A) w obs k :
  base w -> is_Some (high_water (inodes (fs w)) !! ino) -> shown g w -> pending (fs w) !! ino = None ->
  (forall w1, later w w1 -> shown g' w1 -> is_Some (pending (fs w1) !! ino) -> good Q (Holding g g') w1 obs (k (Ok tt))) ->
  good Q (Holding g g') w obs (Act (begin_pending log_faults id ino offset data) k).
Proof.
  intros Hb Hhw Hs Hp HQ w1 Hw1. pose proof (proj1 (keeps_later _ _ Hw1)) as Hb1. pose proof (keeps_shown _ _ _ Hb Hw1 Hs) as Hs1.
  assert (Hp1 : pending (fs w1) !! ino = None) by by rewrite (proj1 (proj2 Hw1)).
  destruct (MountFacts.start_run_spec log_faults id offset data w1) as (r & w2 & Hrun & Hsame & Ho & Hd).
  unfold begin_pending. rewrite (bind_ok _ _ _ _ _ Hrun), (bind_ok get _ w2 w2 w2) by done. cbn [put fst snd].
  destruct (buffer_shown r w1 (with_pending w2 (<[ino := r]> (pending (fs w2))))) as (Hb3 & Hs3 & Hp3 & Hl3); rewrite ?Ho, ?Hd; try done.
  - by apply Hw1.
  - intros b Hc. apply effect_here. by rewrite <-(shown_unbuffered w1).
  - destruct Hsame as [E1 E2 E3 E4 E5]. constructor; simpl; congruence.
  - split; [done|]. split; [apply quiet_moves; intros i; simpl; by rewrite (MountFacts.sf_srv _ _ Hsame)|].
    apply HQ; [|done|done]. eapply later_trans; [apply Hw1|done].
Qed.

Lemma held_buffer_write (Q : Post unit) w obs :
  base w -> is_Some (high_water (inodes (fs w)) !! ino) -> shown g w ->
  (forall w1 e, Q (Holding g g') w1 obs (Err e)) ->
  (forall w1, later w w1 -> shown g' w1 -> is_Some (pending (fs w1) !! ino) -> Q (Holding g g') w1 obs (Ok tt)) ->
  good Q (Holding g g') w obs (MountTasks.buffer_write log_faults id ino offset data).
Proof.
  intros Hb Hhw Hs HE HQ. apply held_then; [intros w1; apply keeping_refl|]. intros w1 Hw1. cbn [MountTasks.buffered fst snd].
  pose proof (proj1 (keeps_later _ _ Hw1)) as Hb1. pose proof (keeps_shown _ _ _ Hb Hw1 Hs) as Hs1.
  assert (Hhw1 : is_Some (high_water (inodes (fs w1)) !! ino)) by by apply Hw1.
  destruct (pending (fs w1) !! ino) as [p|] eqn:Hp.
  2: { apply held_begin; try done. intros w2 Hl2. apply HQ. eapply later_trans; [apply Hw1|done]. }
  destruct (proj1 Hs1 ino p Hp) as (_ & _ & Hpo & Hpd & Hpf). pose proof (len_nonneg (pw_data p)).
  assert (Hend : pw_offset p +u len (pw_data p) = pw_offset p + len (pw_data p)) by (unfold MAX_SIZE in *; by unwrap).
  rewrite Hend. destruct (Z.eqb_spec (pw_offset p + len (pw_data p)) offset) as [Hoffset|Hne].
  - intros w2 Hw2. pose proof (proj1 (keeps_later _ _ Hw2)) as Hb2. pose proof (keeps_shown _ _ _ Hb1 Hw2 Hs1) as Hs2.
    assert (Hp2 : pending (fs w2) !! ino = Some p) by by rewrite (proj1 (proj2 Hw2)).
    set (p' := {| pw_offset := pw_offset p; pw_data := pw_data p ++ data; pw_log_path := pw_log_path p |}).
    destruct (buffer_shown p' w2 (MountTasks.extend_run log_faults ino p data w2).2) as (Hb3 & Hs3 & Hp3 & Hl3); try done.
    + by apply Hw2.
    + simpl. by destruct (pw_data p).
    + simpl. rewrite len_app. lia.
    + intros b Hc. simpl. rewrite <-write_flat_app, Hoffset by done. apply effect_here. rewrite <-(proj2 Hs2). unfold view.
      by rewrite (b_by_ino _ Hb2), Hid, Hp2; simpl; rewrite Hc.
    + split; [done|]. split; [by apply quiet_moves|]. apply HQ; [|done|done]. eapply later_trans; [apply Hw1|]. eapply later_trans; [apply Hw2|done].
  - intros w2 Hw2. pose proof (proj1 (keeps_later _ _ Hw2)) as Hb2. pose proof (keeps_shown _ _ _ Hb1 Hw2 Hs1) as Hs2.
    assert (Hp2 : pending (fs w2) !! ino = Some p) by by rewrite (proj1 (proj2 Hw2)).
    pose proof (unbuffer_taken g ino p w2 Hb2 Hs2 Hp2) as Ht. split; [split; [apply Ht|done]|]. split; [by apply quiet_moves|]. cbn [MountTasks.unbuffer fst snd].
    eapply (good_bind _ _ (fun ph w4 obs4 r => ph = Holding g g' /\ obs4 = obs /\
      match r with Ok _ => later w w4 /\ shown g w4 /\ pending (fs w4) !! ino = None | Err _ => True end)).
    + eapply held_send; [by left|exact Ht|apply lookup_singleton_eq|done|done|]. intros w4 Hl4. rewrite delete_singleton_eq, taken_none.
      intros [Hb4 Hs4] Hp4. split; [done|]. split; [done|]. split; [|split; [done|]].
      * eapply later_trans; [apply Hw1|]. eapply later_trans; [apply Hw2|]. exact Hl4.
      * rewrite Hp4. apply lookup_delete_eq.
    + intros ph w4 obs4 e (-> & -> & _). apply HE.
    + intros ph w4 obs4 [] (-> & -> & Hl4 & Hs4 & Hp4). apply held_begin; try done; [apply Hl4|by apply Hl4|].
      intros w5 Hl5. apply HQ. by eapply later_trans.
Qed.
Lemma held_send_if_full (Q : Post unit) w obs :
  base w -> shown g' w -> is_Some (pending (fs w) !! ino) ->
  (forall w1 e, Q (Holding g g') w1 obs (Err e)) -> (forall w1, base w1 -> shown g' w1 -> Q (Holding g g') w1 obs (Ok tt)) ->
  good Q (Holding g g') w obs (MountTasks.send_if_full log_faults id ino).
Proof.
  intros Hb Hs [p Hp] HE HQ w1 Hw1. pose proof (proj1 (keeps_later _ _ Hw1)) as Hb1. pose proof (keeps_shown _ _ _ Hb Hw1 Hs) as Hs1.
  assert (Hp1 : pending (fs w1) !! ino = Some p) by by rewrite (proj1 (proj2 Hw1)). unfold MountTasks.take_full. rewrite Hp1.
  destruct (_ || _); cbn [fst snd].
  - pose proof (unbuffer_taken g' ino p w1 Hb1 Hs1 Hp1) as Ht. split; [split; [apply Ht|done]|]. split; [by apply quiet_moves|].
    eapply (held_send _ g'); [by right|exact Ht|apply lookup_singleton_eq|done|done|]. intros w4 _. rewrite delete_singleton_eq, taken_none.
    intros [Hb4 Hs4] _. by apply HQ.
  - split; [by apply later_refl|]. split; [by apply quiet_moves|]. by apply HQ.
Qed.
Lemma held_write (Q : Post Z) w obs :
  base w -> is_Some (high_water (inodes (fs w)) !! ino) -> shown g w ->
  (forall w1 e, Q (Holding g g') w1 obs (Err e)) ->
  (forall w1, base w1 -> shown g' w1 -> Q (Holding g g') w1 obs (Ok (len data))) ->
  good Q (Holding g g') w obs
    (_ ← MountTasks.buffer_write log_faults id ino offset data; _ ← MountTasks.send_if_full log_faults id ino;
     _ ← MountTasks.invalidate_cache disk_faults id; mret (len data)).
Proof.
  intros Hb Hhw Hs HE HQ.
  eapply (good_bind _ _ (fun ph w1 obs1 r => ph = Holding g g' /\ obs1 = obs /\
    match r with Ok _ => base w1 /\ shown g' w1 /\ is_Some (pending (fs w1) !! ino) | Err _ => True end)).
  { apply held_buffer_write; try done. intros w1 Hl1 Hs1 Hp1. split; [done|]. split; [done|]. split; [apply Hl1|done]. }
  { intros ph w1 obs1 e (-> & -> & _). apply HE. }
  intros ph w1 obs1 [] (-> & -> & Hb1 & Hs1 & Hp1).
  eapply (good_bind _ _ (fun ph w2 obs2 r => ph = Holding g g' /\ obs2 = obs /\ match r with Ok _ => base w2 /\ shown g' w2 | Err _ => True end)).
  { by apply held_send_if_full. }
  { intros ph w2 obs2 e (-> & -> & _). apply HE. }
  intros ph w2 obs2 [] (-> & -> & Hb2 & Hs2).
  eapply (good_bind _ _ (fun ph w3 obs3 r => ph = Holding g g' /\ obs3 = obs /\ match r with Ok _ => base w3 /\ shown g' w3 | Err _ => True end)).
  { apply held_invalidate; [done|]. intros w3 r Hw3. split; [done|]. split; [done|]. destruct r; [|done].
    split; [apply Hw3|by eapply keeps_shown]. }
  { intros ph w3 obs3 e (-> & -> & _). apply HE. }
  intros ph w3 obs3 [] (-> & -> & Hb3 & Hs3). by apply HQ.
Qed.
End Held.

(** *** The programs *)

(** The file a request reads, and what is known of it when the request has flushed it. *)
Definition watched (q : Request) : option Z :=
  match q with ReadRequest ino _ _ | GetattrRequest ino | FsyncRequest ino => Some ino | _ => None end.
Definition settled (q : Request) (g : Flat) w : Prop :=
  match watched q with
  | Some ino => forall id, by_ino (inodes (fs w0)) !! ino = Some id -> content (srv w) id = g ino
  | None => True
  end.
Lemma settled_stable q g w w' : base w -> keeps w w' -> settled q g w -> settled q g w'.
Proof. intros _ (_ & _ & Hc). unfold settled. destruct (watched q) as [ino|]; [|done]. intros Hs id. rewrite Hc. apply Hs. Qed.

Definition well_formed (q : Request) : Prop :=
  match q with
  | WriteRequest ino offset data => is_Some (view w0 ino) /\ 0 <= offset /\ data <> [] /\ offset + len data < MAX_SIZE
  | ReadRequest ino offset size => is_Some (view w0 ino) /\ 0 <= offset /\ 0 <= size /\ offset + size < 2 ^ 63
  | GetattrRequest ino | FsyncRequest ino => is_Some (view w0 ino)
  | FlushAllRequest => True
  end.
(** What a request answers, by the states of the server that it saw. A read without a cache gives
    bytes the file has all had at one moment, up to the end it had at one. *)
Definition right_answer (q : Request) (obs : list S) (o : Outcome) : Prop :=
  match q, o with
  | WriteRequest _ _ data, Written n => n = len data
  | ReadRequest ino offset size, Bytes out =>
      cache (fs w0) = None ->
      exists id s s' b b', by_ino (inodes (fs w0)) !! ino = Some id /\ s ∈ obs /\ s' ∈ obs /\
        content s id = Some b /\ content s' id = Some b' /\
        out = slice b offset (offset + len out) /\ len out = Z.min size (saturating_sub (len b') offset)
  | GetattrRequest ino, Attributes a =>
      at_ino a = ino /\ exists id s b, by_ino (inodes (fs w0)) !! ino = Some id /\ s ∈ obs /\ content s id = Some b /\ len b <= at_size a
  | FsyncRequest _, Synced | FlushAllRequest, Flushed => True
  | _, _ => False
  end.
Definition ended (q : Request) (ph : Phase) w (obs : list S) (r : result (fault ClientError) Outcome) : Prop :=
  match r with Ok o => ph = After /\ right_answer q obs o | Err _ => True end.

Lemma known_ino ino : is_Some (view w0 ino) -> exists id, by_ino (inodes (fs w0)) !! ino = Some id /\ is_Some (content (srv w0) id).
Proof. intros [b (id & b0 & Hid & Hc & _)%MountFacts.view_Some]. exists id. by rewrite Hc. Qed.

Lemma good_write ino offset data w :
  base w -> well_formed (WriteRequest ino offset data) ->
  good (effect (WriteRequest ino offset data)) (settled (WriteRequest ino offset data)) (ended (WriteRequest ino offset data)) Before w []
    (program mode disk_faults log_faults completed (WriteRequest ino offset data)).
Proof.
  intros Hb (Hfile & Hoff & Hd & Hfit). destruct (known_ino ino Hfile) as (id & Hid & Hc). set (q := WriteRequest ino offset data).
  apply (good_bind _ _ (released (fun n => n = len data))); [|done|]; [|intros ph w1 obs1 n (-> & -> & _ & ->); by split].
  intros w1 Hw1. split; [apply id_for_keeps, Hw1|]. rewrite (id_for_known ino id w1 (proj1 Hw1) Hid). cbn [fst snd].
  intros w2 Hw2. split; [apply reach_to_keeps, Hw2|]. cbn [MountTasks.reach_to fst snd].
  assert (Hhw : is_Some (high_water (inodes (fs (MountTasks.reach_to ino (offset +u len data) w2).2)) !! ino)) by (simpl; by rewrite lookup_insert_eq).
  pose proof (reach_to_keeps ino (offset +u len data) w2 (proj1 Hw2)) as Hk. cbn [MountTasks.reach_to snd] in Hk, Hhw.
  apply good_locked; [intros; by eapply settled_stable|]. intros w3 g Hw3 Hs3.
  apply (held_write _ _ g _ ino id offset data Hid Hc Hoff Hd Hfit eq_refl); [apply Hw3|by apply Hw3|done|done|].
  intros w4 Hb4 Hs4. by split_and?.
Qed.

(** What begins with a flush of one file. *)
Lemma good_flush eff' settled' ino id w obs :
  (forall g, eff' g = g) -> (forall g w, content (srv w) id = g ino -> settled' g w) ->
  (forall g w w', base w -> keeps w w' -> settled' g w -> settled' g w') -> by_ino (inodes (fs w0)) !! ino = Some id ->
  good eff' settled' (released (fun _ => True)) Before w obs (MountTasks.flush disk_faults log_faults ino).
Proof.
  intros Heff Hset Hst Hid. apply good_locked; [done|]. intros w1 g Hw1 Hs1. rewrite Heff.
  apply (held_flush _ _ g g _ ino id); [apply Hw1|done|done|done|]. intros w2 Hb2 Hs2 Hp2. split; [done|]. split; [done|].
  split; [done|]. split; [|done]. apply Hset. by apply (shown_unbuffered g ino id).
Qed.
Lemma good_flush_all w :
  good (effect FlushAllRequest) (settled FlushAllRequest) (ended FlushAllRequest) Before w []
    (program mode disk_faults log_faults completed FlushAllRequest).
Proof.
  apply (good_bind _ _ (released (fun _ => True))); [|done|]; [|intros ph w1 obs1 [] (-> & -> & _); by split].
  apply good_locked; [intros; by eapply settled_stable|]. intros w1 g Hw1 Hs1. apply held_flush_all; [apply Hw1|done|done|].
  intros w2 Hb2 Hs2. by split_and?.
Qed.

(** *** After the lock *)

Section AfterLock.
Context (eff' : Flat -> Flat) (settled' : Flat -> World (S := S) -> Prop).
Abbreviation good := (good eff' settled').

Lemma after_then {A B} (Q : Phase -> World (S := S) -> list S -> result (fault ClientError) A -> Prop) w obs (m : M B) (f : B -> Prog A) :
  (forall w1, later w w1 -> keeps w1 (m w1).2 /\ match (m w1).1 with
                                                | Ok b => good Q After (m w1).2 (obs ++ [srv w1]) (f b)
                                                | Err e => Q After (m w1).2 (obs ++ [srv w1]) (Err e)
                                                end) ->
  good Q After w obs (act m ≫= f).
Proof. intros Hm w1 Hw1. destruct (Hm w1 Hw1) as [Hk Hf]. split; [done|]. by destruct (m w1) as [[b|e] w2]. Qed.
Lemma query_keeps {A} (q : S -> result ClientError A) w : base w -> keeps w (query q w).2.
Proof. apply tick_keeps. Qed.

(** What is known of the file's size after [version_for], and of what a read from the server gives. *)
Context (ino : Z) (id : Uuid) (Hid : by_ino (inodes (fs w0)) !! ino = Some id) (Hfile : is_Some (content (srv w0) id)).
Definition saw (obs : list S) (P : bytes -> Prop) : Prop := exists s b, s ∈ obs /\ content s id = Some b /\ P b.
Definition sized (ph : Phase) w (obs' : list S) (r : result (fault ClientError) (option Uuid * Z)) : Prop :=
  match r with Ok vs => ph = After /\ base w /\ saw obs' (fun b => vs.2 = len b) | Err _ => True end.

Lemma see_keeps v size w : base w -> (high_water (inodes (fs w)) !! ino = None -> forall b, content (srv w0) id = Some b -> size = len b) ->
  keeps w (MountTasks.see ino v size w).2.
Proof.
  intros Hb Hsize. split; [|done]. split; [|done]. destruct Hb. constructor; try done. simpl.
  intros ino' id' v' size' b' Hs Hn Hi Hc. apply lookup_insert_Some in Hs as [[<- [= <- <-]]|[_ Hs]]; [|by apply (b_seen0 ino' id' v')].
  rewrite Hid in Hi. injection Hi as <-. by apply Hsize.
Qed.
Lemma good_version_for w obs : base w -> good sized After w obs (MountTasks.version_for ino id).
Proof.
  intros Hb. apply after_then. intros w1 Hw1. split; [apply keeping_refl, Hw1|]. cbn [MountTasks.remembered fst snd].
  assert (Hask : forall w1 obs1, good sized After w1 obs1 (node ← act (query (get_node id));
    _ ← act (MountTasks.see ino (nr_current_version_id node) (nr_size node)); mret (nr_current_version_id node, nr_size node))).
  { clear w1 Hw1. intros w1 obs1. apply after_then. intros w2 Hw2. split; [apply query_keeps, Hw2|]. unfold query.
    destruct (get_node id (srv w2)) as [node|e] eqn:Hn; cbn [map_err fst snd]; [|done].
    destruct (b_files _ (proj1 Hw2) id Hfile) as [b Hc]. destruct (get_node_law id (srv w2) node b (b_valid _ (proj1 Hw2)) Hn Hc) as [_ Hsize].
    apply after_then. intros w3 Hw3. assert (Hk : keeps w3 (MountTasks.see ino (nr_current_version_id node) (nr_size node) w3).2).
    { apply see_keeps; [apply Hw3|]. intros Hnone b0 Hb0. rewrite Hsize. f_equal.
      assert (Hnone2 : high_water (inodes (fs w2)) !! ino = None).
      { destruct (high_water (inodes (fs w2)) !! ino) eqn:Hh; [|done]. destruct (proj2 Hw3 ino) as [x Hx]; [simpl; by rewrite Hh|]. congruence. }
      pose proof (b_untouched _ (proj1 Hw2) ino id Hid Hnone2). congruence. }
    split; [done|]. split; [done|]. split; [apply Hk|]. exists (srv w2), b. split; [set_solver|]. split; [done|]. exact Hsize. }
  destruct (seen (inodes (fs w1)) !! ino) as [[v size]|] eqn:Hseen; [|apply Hask]. case_bool_decide as Hh; [apply Hask|].
  split; [done|]. split; [apply Hw1|]. destruct Hfile as [b0 Hb0]. exists (srv w1), b0. split; [set_solver|].
  rewrite <-eq_None_not_Some in Hh. split; [by rewrite (b_untouched _ (proj1 Hw1) ino id Hid Hh)|].
  exact (b_seen _ (proj1 Hw1) ino id v size b0 Hseen Hh Hid Hb0).
Qed.

Definition read_ok (offset expected : Z) (obs : list S) (ph : Phase) w (obs' : list S) (r : result (fault ClientError) bytes) : Prop :=
  match r with
  | Ok out => ph = After /\ (forall s, s ∈ obs -> s ∈ obs') /\
              (cache (fs w0) = None -> len out = expected /\ saw obs' (fun b => out = slice b offset (offset + len out)))
  | Err _ => True
  end.
Lemma good_read_direct w offset expected obs0 obs :
  0 <= offset -> 0 <= expected -> offset + expected < 2 ^ 63 -> (forall s, s ∈ obs0 -> s ∈ obs) ->
  good (read_ok offset expected obs0) After w obs (MountTasks.read_direct id offset expected).
Proof.
  intros Hoff Hexp Hend Hsub. apply after_then. intros w1 Hw1. split; [apply query_keeps, Hw1|]. unfold query.
  destruct (read_file id offset expected (srv w1)) as [out|e] eqn:Hr; cbn [map_err fst snd]; [|done].
  destruct (b_files _ (proj1 Hw1) id Hfile) as [b Hc].
  pose proof (read_file_law id offset expected (srv w1) out b (b_valid _ (proj1 Hw1)) Hc Hoff Hexp ltac:(lia) Hr) as Hout.
  destruct (Z.ltb_spec (len out) expected); [done|]. split; [done|]. split; [set_solver|]. intros _.
  assert (Hlen : len out = expected) by (subst out; rewrite len_slice in * by lia; pose proof (len_nonneg b); lia).
  split; [done|]. exists (srv w1), b. split; [set_solver|]. split; [done|]. by rewrite Hlen.
Qed.
Lemma good_cached_read w v offset expected obs0 obs :
  base w -> cache (fs w0) <> None -> 0 <= offset -> 0 <= expected -> offset + expected < 2 ^ 63 -> (forall s, s ∈ obs0 -> s ∈ obs) ->
  good (read_ok offset expected obs0) After w obs
    (out ← MountTasks.cached_read mode disk_faults completed id v offset expected;
     if len out <? expected
     then _ ← MountTasks.invalidate_cache disk_faults id; MountTasks.read_direct id offset expected else mret out).
Proof.
  intros Hb Hcache Hoff Hexp Hend Hsub. set (Q := fun (ph : Phase) (w1 : World (S := S)) (obs1 : list S) => ph = After /\ base w1 /\ forall s, s ∈ obs0 -> s ∈ obs1).
  apply (good_bind _ _ (fun ph w1 obs1 _ => Q ph w1 obs1)); [|done|].
  { apply (good_bind _ _ (fun ph w1 obs1 _ => Q ph w1 obs1)); [|done|].
    - apply after_on_cache; [done|]. intros w1 obs1 r Hw1. split; [done|]. split; [apply Hw1|set_solver].
    - intros ph w1 obs1 r (-> & Hb1 & Hsub1). intros w2 Hw2. split; [apply tick_keeps, Hw2|]. split; [done|].
      split; [apply tick_keeps, Hw2|set_solver]. }
  intros ph w1 obs1 out (-> & Hb1 & Hsub1). destruct (_ <? _); [|by split_and?].
  apply (good_bind _ _ (fun ph w1 obs1 _ => Q ph w1 obs1)); [|done|].
  - apply after_then. intros w2 Hw2. split; [apply keeping_refl, Hw2|]. cbn [MountTasks.has_cache fst snd].
    case_bool_decide; [|split; [done|]; split; [apply Hw2|set_solver]]. apply after_on_cache; [apply Hw2|].
    intros w3 obs3 r Hw3. split; [done|]. split; [apply Hw3|set_solver].
  - intros ph w2 obs2 [] (-> & Hb2 & Hsub2). by apply good_read_direct.
Qed.
End AfterLock.

Lemma good_read ino offset size w :
  let q := ReadRequest ino offset size in
  well_formed q -> good (effect q) (settled q) (ended q) Before w [] (program mode disk_faults log_faults completed q).
Proof.
  intros q (Hfile & Hoff & Hsize & Hend). destruct (known_ino ino Hfile) as (id & Hid & Hc).
  apply (good_bind _ _ (fun ph w1 obs1 r => match r with
    | Ok out => ph = After /\ right_answer q obs1 (Bytes out) | Err _ => True end)); [|done|].
  2: { intros ph w1 obs1 out (-> & Hr). by split. }
  apply (good_bind _ _ (released (fun _ => True))); [|done|].
  { apply (good_flush _ _ ino id); [done| |intros; by eapply settled_stable|done]. intros g w1 Hw1 id' Hid'. congruence. }
  intros ph w1 obs1 [] (-> & -> & Hb1 & _). apply after_then. intros w2 Hw2. split; [apply id_for_keeps, Hw2|].
  rewrite (id_for_known ino id w2 (proj1 Hw2) Hid). cbn [fst snd].
  apply (good_bind _ _ (sized id)); [apply good_version_for; [done|done|apply Hw2]|done|].
  intros ph w3 obs3 [v fsize] (-> & Hb3 & s' & b' & Hin' & Hc' & Hlen). simpl in Hlen. cbv zeta. cbn [fst snd].
  set (expected := Z.min size (saturating_sub fsize offset)). assert (Hexp : 0 <= expected <= size) by (unfold expected, saturating_sub; lia).
  assert (Hdone : forall ph w obs r, read_ok id offset expected obs3 ph w obs r -> match r with
    | Ok out => ph = After /\ right_answer q obs (Bytes out) | Err _ => True end).
  { intros ph w4 obs4 [out|e]; [|done]. intros (-> & Hsub & Hr). split; [done|]. intros Hnone.
    destruct (Hr Hnone) as (Hl & s & b & Hin & Hcb & Hout). exists id, s, s', b, b'. split_and?; try done; [by apply Hsub|].
    rewrite Hl. unfold expected. by rewrite Hlen. }
  destruct (Z.eqb_spec expected 0) as [Hz|Hz].
  { split; [done|]. intros _. exists id, s', s', b', b'. split_and?; try done; [rewrite slice_empty; [done|unfold len; simpl; lia]|].
    rewrite <-Hlen. fold expected. unfold len. simpl. lia. }
  eapply good_impl; [|exact Hdone]. apply after_then. intros w4 Hw4. split; [apply keeping_refl, Hw4|]. cbn [MountTasks.has_cache fst snd].
  case_bool_decide as Hca; [destruct v as [v|]|].
  - apply (good_cached_read _ _ ino id); try done; try lia; [apply Hw4| |set_solver]. intros Hnone. rewrite (b_cache _ (proj1 Hw4) Hnone) in Hca. by destruct Hca.
  - apply (good_read_direct _ _ ino id); try done; try lia. set_solver.
  - apply (good_read_direct _ _ ino id); try done; try lia. set_solver.
Qed.
Lemma good_fsync ino w :
  let q := FsyncRequest ino in
  well_formed q -> good (effect q) (settled q) (ended q) Before w [] (program mode disk_faults log_faults completed q).
Proof.
  intros q Hfile. destruct (known_ino ino Hfile) as (id & Hid & Hc).
  apply (good_bind _ _ (fun ph w1 obs1 r => match r with Ok _ => ph = After | Err _ => True end)); [|done|by intros ph w1 obs1 [] ->].
  apply (good_bind _ _ (released (fun _ => True))); [|done|].
  { apply (good_flush _ _ ino id); [done| |intros; by eapply settled_stable|done]. intros g w1 Hw1 id' Hid'. congruence. }
  intros ph w1 obs1 [] (-> & -> & Hb1 & _). apply after_then. intros w2 Hw2. split; [apply id_for_keeps, Hw2|].
  rewrite (id_for_known ino id w2 (proj1 Hw2) Hid). cbn [fst snd]. intros w3 Hw3. unfold request.
  pose proof (sync_file_law id (srv w3) (b_valid _ (proj1 Hw3)) (b_files _ (proj1 Hw3) id Hc)) as Hlaw.
  destruct (sync_file id (srv w3)) as [r s']. destruct Hlaw as [Hv Hsame]. split; [apply server_keeps; [apply Hw3|done|done]|].
  by destruct r.
Qed.

Lemma attr_keeps ino id v size w :
  base w -> by_ino (inodes (fs w0)) !! ino = Some id ->
  (high_water (inodes (fs w)) !! ino = None -> forall b, content (srv w0) id = Some b -> size = len b) ->
  keeps w (with_inodes w (set_seen ino v size (inodes (fs w)))).
Proof. intros Hb Hid Hsize. exact (see_keeps ino id Hid v size w Hb Hsize). Qed.
Lemma good_getattr ino w :
  let q := GetattrRequest ino in
  well_formed q -> good (effect q) (settled q) (ended q) Before w [] (program mode disk_faults log_faults completed q).
Proof.
  intros q Hfile. destruct (known_ino ino Hfile) as (id & Hid & Hfid).
  apply (good_bind _ _ (fun ph w1 obs1 r => match r with
    | Ok a => ph = After /\ right_answer q obs1 (Attributes a) | Err _ => True end)); [|done|].
  2: { intros ph w1 obs1 a (-> & Hr). by split. }
  apply (good_bind _ _ (released (fun _ => True))); [|done|].
  { apply (good_flush _ _ ino id); [done| |intros; by eapply settled_stable|done]. intros g w1 Hw1 id' Hid'. congruence. }
  intros ph w1 obs1 [] (-> & -> & Hb1 & _). apply after_then. intros w2 Hw2. split; [apply id_for_keeps, Hw2|].
  rewrite (id_for_known ino id w2 (proj1 Hw2) Hid). cbn [fst snd].
  apply after_then. intros w3 Hw3. split; [apply query_keeps, Hw3|]. unfold query.
  destruct (get_node id (srv w3)) as [node|e] eqn:Hn; cbn [map_err fst snd]; [|done].
  destruct (b_files _ (proj1 Hw3) id Hfid) as [b Hc]. destruct (get_node_law id (srv w3) node b (b_valid _ (proj1 Hw3)) Hn Hc) as [Hnid Hsize].
  apply after_then. intros w4 Hw4. unfold ino_for. rewrite (b_by_id _ (proj1 Hw4)), Hnid, (proj1 (proj1 Hinodes _ _) Hid). cbn [fst snd].
  split; [apply keeping_refl, Hw4|]. apply after_then. intros w5 Hw5. cbn [fst snd].
  assert (Hk : keeps w5 (with_inodes w5 (set_seen ino (nr_current_version_id node) (nr_size node) (inodes (fs w5))))).
  { apply (attr_keeps ino id); [apply Hw5|done|]. intros Hnone b0 Hb0. rewrite Hsize. f_equal.
    assert (Hnone3 : high_water (inodes (fs w3)) !! ino = None).
    { destruct (high_water (inodes (fs w3)) !! ino) eqn:Hh; [|done]. destruct (proj2 Hw5 ino) as [x Hx]; [|congruence].
      apply (proj2 Hw4). simpl. by rewrite Hh. }
    pose proof (b_untouched _ (proj1 Hw3) ino id Hid Hnone3). congruence. }
  split; [exact Hk|]. split; [done|]. split; [done|]. exists id, (srv w3), b. split; [done|]. split; [set_solver|]. split; [done|]. simpl. lia.
Qed.

Lemma good_program q w :
  base w -> well_formed q -> good (effect q) (settled q) (ended q) Before w [] (program mode disk_faults log_faults completed q).
Proof.
  intros Hb Hq. destruct q; [by apply good_write|by apply good_read|by apply good_getattr|by apply good_fsync|apply good_flush_all].
Qed.

(** *** Schedules *)

Context (requests : gmap nat Request).
Abbreviation flat_after := (flat requests).

Lemma flat_snoc order t q : requests !! t = Some q -> flat_after (order ++ [t]) = effect q (flat_after order).
Proof. intros Hq. unfold flat. rewrite foldl_app. simpl. by rewrite Hq. Qed.

(** What a file was at a moment since those in [pre] had the lock. *)
Definition recent (pre order : list nat) (ino : Z) (c : option bytes) : Prop :=
  exists mid, pre `prefix_of` mid /\ mid `prefix_of` order /\ c = flat_after mid ino.
Lemma recent_more pre order order' ino c : order `prefix_of` order' -> recent pre order ino c -> recent pre order' ino c.
Proof. intros Ho (mid & ? & ? & ?). exists mid. split; [done|]. split; [by etrans|done]. Qed.

Section Invariant.
(** One task is watched from a moment at which it had not begun. *)
Context (pre : list nat) (star : nat).

Definition tracked (order : list nat) (s : State (S := S)) (t : nat) (q : Request) (ph : Phase) (obs : list S) : Prop :=
  t = star ->
  match ph with
  | Before => True
  | Holding _ _ => forall o, order = o ++ [t] -> pre `prefix_of` o
  | After =>
      (forall o t', holder s = Some t' -> order = o ++ [t'] -> pre `prefix_of` o) /\
      forall ino id, watched q = Some ino -> by_ino (inodes (fs w0)) !! ino = Some id ->
        recent pre order ino (content (srv (world s)) id) /\ forall s', s' ∈ obs -> recent pre order ino (content s' id)
  end.
Definition placed (order : list nat) (s : State (S := S)) (t : nat) (ph : Phase) (wl : World (S := S)) : Prop :=
  match ph with
  | Before => holder s <> Some t /\ (t ∉ order) /\ later wl (world s)
  | Holding g g' => holder s = Some t /\ keeps wl (world s) /\ exists o, order = o ++ [t] /\ g = flat_after o /\ g' = flat_after order
  | After => holder s <> Some t /\ t ∈ order /\ later wl (world s)
  end.
Definition task_ok (order : list nat) (s : State (S := S)) (t : nat) (p : Prog Outcome) : Prop :=
  exists q ph wl obs, requests !! t = Some q /\ good (effect q) (settled q) (ended q) ph wl obs p /\ placed order s t ph wl /\
    tracked order s t q ph obs.
Definition failed (s : State (S := S)) : Prop := exists t e, tasks s !! t = Some (Ret (Err e)).
Record fine (order : list nat) (s : State (S := S)) : Prop := {
  f_base : base (world s);
  f_pre : pre `prefix_of` order;
  f_nodup : NoDup order;
  f_tasks : forall t p, tasks s !! t = Some p -> task_ok order s t p;
  f_shown : holder s = None -> shown (flat_after order) (world s);
  f_holder : forall t, holder s = Some t -> is_Some (tasks s !! t);
}.

(** The one that has the lock is the last that got it. *)
Lemma holder_last order s t : fine order s -> holder s = Some t -> exists o, order = o ++ [t].
Proof.
  intros Hf Ht. destruct (f_holder _ _ Hf t Ht) as [p Hp]. destruct (f_tasks _ _ Hf t p Hp) as (q & ph & wl & obs & _ & _ & Hpl & _).
  destruct ph; simpl in Hpl; [by destruct Hpl| |by destruct Hpl]. destruct Hpl as (_ & _ & o & -> & _). by exists o.
Qed.

(** The others, when one has acted. *)
Lemma other_task order s w' t' p' q ph wl obs :
  fine order s -> placed order s t' ph wl -> tracked order s t' q ph obs ->
  (keeps (world s) w' \/
   exists t o, holder s = Some t /\ t' <> t /\ order = o ++ [t] /\ later (world s) w' /\ moves (flat_after o) (flat_after order) (world s) w') ->
  let s' := {| world := w'; holder := holder s; tasks := p' |} in placed order s' t' ph wl /\ tracked order s' t' q ph obs.
Proof.
  intros Hf Hpl Htr Hw. assert (Hl : later (world s) w') by (destruct Hw as [?|(t & o & _ & _ & _ & ? & _)]; [by apply keeps_later|done]).
  split.
  - destruct ph as [|g g'|]; simpl in *.
    + destruct Hpl as (? & ? & ?). split_and?; try done. by eapply later_trans.
    + destruct Hpl as (Hh & Hk & Ho). split; [done|]. split; [|done]. destruct Hw as [Hw|(t & o & Ht & Hne & _)]; [by eapply keeping_trans|congruence].
    + destruct Hpl as (? & ? & ?). split_and?; try done. by eapply later_trans.
  - intros Hstar. specialize (Htr Hstar). destruct ph as [|g g'|]; [done|done|]. destruct Htr as [Hpre Hrec]. split; [exact Hpre|].
    intros ino id Hwa Hid. destruct (Hrec ino id Hwa Hid) as [Hr Hobs]. split; [|exact Hobs]. simpl.
    destruct Hw as [(_ & _ & Hc)|(t & o & Ht & _ & Ho & _ & Hmv)]; [by rewrite Hc|].
    destruct (Hmv ino id Hid) as [->|[->| ->]]; [exact Hr| |].
    + exists o. split; [by apply (Hpre o t)|]. split; [rewrite Ho; apply prefix_app_r|]; done.
    + exists order. split; [apply Hf|done].
Qed.

Lemma step_act order s t B (m : M B) k :
  fine order s -> tasks s !! t = Some (Act m k) -> fine order (step s t).
Proof.
  intros Hf Ht. unfold step. rewrite Ht. destruct (f_tasks _ _ Hf t _ Ht) as (q & ph & wl & obs & Hq & Hgood & Hpl & Htr).
  destruct (m (world s)) as [r w'] eqn:Hm. set (s' := MountTasks.Build_State _ _ _).
  assert (Hact : exists obs', good (effect q) (settled q) (ended q) ph w' obs' (k r) /\ placed order s' t ph w' /\ tracked order s' t q ph obs' /\
    (keeps (world s) w' \/ holder s = Some t /\ exists o, order = o ++ [t] /\ later (world s) w' /\ moves (flat_after o) (flat_after order) (world s) w')).
  { destruct ph as [|g g'|]; simpl in Hpl.
    - destruct Hpl as (Hh & Hno & Hl). destruct (Hgood (world s) Hl) as [Hk Hg]. rewrite Hm in Hk, Hg. simpl in Hk, Hg.
      eexists. split; [exact Hg|]. split; [split; [done|]; split; [done|]; apply later_refl; apply Hk|]. split; [done|by left].
    - destruct Hpl as (Hh & Hk & o & Ho & -> & ->). destruct (Hgood (world s) Hk) as (Hl & Hmv & Hg). rewrite Hm in Hl, Hmv, Hg. simpl in Hl, Hmv, Hg.
      eexists. split; [exact Hg|]. split; [split; [done|]; split; [apply keeping_refl, Hl|by exists o]|]. split; [exact Htr|].
      right. split; [done|]. by exists o.
    - destruct Hpl as (Hh & Hin & Hl). destruct (Hgood (world s) Hl) as [Hk Hg]. rewrite Hm in Hk, Hg. simpl in Hk, Hg.
      eexists. split; [exact Hg|]. split; [split; [done|]; split; [done|]; apply later_refl; apply Hk|]. split; [|by left].
      intros Hstar. destruct (Htr Hstar) as [Hpre Hrec]. split; [exact Hpre|]. intros ino id Hwa Hid.
      destruct (Hrec ino id Hwa Hid) as [Hr Hobs]. simpl. rewrite (proj2 (proj2 Hk)). split; [exact Hr|].
      intros s1 [?| ->%list_elem_of_singleton]%elem_of_app; [by apply Hobs|exact Hr]. }
  destruct Hact as (obs' & Hg & Hpl' & Htr' & Hw). constructor; simpl.
  - destruct Hw as [Hk|(_ & o & _ & Hl & _)]; [apply Hk|apply Hl].
  - apply Hf.
  - apply Hf.
  - intros t' p' [[<- <-]|[Hne Ht']]%lookup_insert_Some; [by exists q, ph, w', obs'|].
    destruct (f_tasks _ _ Hf t' _ Ht') as (q1 & ph1 & wl1 & obs1 & Hq1 & Hg1 & Hpl1 & Htr1). exists q1, ph1, wl1, obs1.
    split; [done|]. split; [done|]. apply other_task; try done. destruct Hw as [?|(Hh & o & Ho & Hl & Hmv)]; [by left|right]. exists t, o. auto.
  - intros Hn. destruct Hw as [Hk|(Hh & _)]; [|congruence]. eapply keeps_shown; [apply Hf|exact Hk|by apply Hf].
  - intros t' Hh. destruct (decide (t' = t)) as [->|]; [by rewrite lookup_insert_eq|rewrite lookup_insert_ne by done; by apply Hf].
Qed.

Lemma step_acquire order s t k :
  fine order s -> tasks s !! t = Some (Acquire k) -> holder s = None ->
  fine (order ++ [t]) {| world := world s; holder := Some t; tasks := <[t := k]> (tasks s) |}.
Proof.
  intros Hf Ht Hh. destruct (f_tasks _ _ Hf t _ Ht) as (q & ph & wl & obs & Hq & Hgood & Hpl & Htr).
  destruct Hgood as [-> Hgood]. destruct Hpl as (_ & Hno & Hl). specialize (Hgood (world s) (flat_after order) Hl (f_shown _ _ Hf Hh)).
  rewrite <-(flat_snoc order t q Hq) in Hgood. constructor; simpl.
  - apply Hf.
  - apply prefix_app_r, Hf.
  - apply NoDup_app. split; [apply Hf|]. split; [|apply NoDup_singleton]. intros x Hx ->%list_elem_of_singleton. done.
  - intros t' p' [[<- <-]|[Hne Ht']]%lookup_insert_Some.
    + exists q, (Holding (flat_after order) (flat_after (order ++ [t]))), (world s), obs. split; [done|]. split; [exact Hgood|].
      split; [split; [done|]; split; [apply keeping_refl, Hf|by exists order]|]. intros _ o [<- _]%app_inj_2; [apply Hf|done].
    + destruct (f_tasks _ _ Hf t' _ Ht') as (q1 & ph1 & wl1 & obs1 & Hq1 & Hg1 & Hpl1 & Htr1). exists q1, ph1, wl1, obs1.
      split; [done|]. split; [done|]. destruct ph1 as [|g1 g1'|]; simpl in Hpl1.
      * split; [|done]. destruct Hpl1 as (_ & Hno1 & Hl1). split; [by intros [= ->]|]. split; [|done]. set_solver.
      * destruct Hpl1 as [Hh1 _]. congruence.
      * destruct Hpl1 as (_ & Hin1 & Hl1). split; [split; [by intros [= ->]|]; split; [set_solver|done]|].
        intros Hstar. destruct (Htr1 Hstar) as [_ Hrec]. simpl. split.
        { intros o t1 _ [<- _]%app_inj_2; [apply Hf|done]. }
        intros ino id Hwa Hid. destruct (Hrec ino id Hwa Hid) as [Hr Hobs].
        split; [eapply recent_more; [apply prefix_app_r|]; done|]. intros s1 Hs1. eapply recent_more; [apply prefix_app_r; done|]. by apply Hobs.
  - done.
  - intros t' [= <-]. by rewrite lookup_insert_eq.
Qed.

Lemma step_release order s t k :
  fine order s -> tasks s !! t = Some (Release k) ->
  let s' := {| world := world s; holder := None; tasks := <[t := k]> (tasks s) |} in failed s' \/ fine order s'.
Proof.
  intros Hf Ht s'. destruct (f_tasks _ _ Hf t _ Ht) as (q & ph & wl & obs & Hq & Hgood & Hpl & Htr).
  destruct ph as [|g g'|]; [done| |done]. destruct Hpl as (Hh & Hk & o & Ho & -> & ->). destruct (Hgood (world s) Hk) as [(e & -> & _)|(Hs & Hset & Hg)].
  { left. exists t, e. apply lookup_insert_eq. }
  right. constructor; simpl.
  - apply Hf.
  - apply Hf.
  - apply Hf.
  - intros t' p' [[<- <-]|[Hne Ht']]%lookup_insert_Some.
    + exists q, After, (world s), []. split; [done|]. split; [exact Hg|].
      split; [split; [done|]; split; [rewrite Ho; set_solver|apply later_refl, Hf]|].
      intros Hstar. split; [done|]. intros ino id Hwa Hid. split; [|by intros s1 ?%not_elem_of_nil].
      exists order. split; [apply Hf|]. split; [done|]. unfold settled in Hset. rewrite Hwa in Hset. by apply Hset.
    + destruct (f_tasks _ _ Hf t' _ Ht') as (q1 & ph1 & wl1 & obs1 & Hq1 & Hg1 & Hpl1 & Htr1). exists q1, ph1, wl1, obs1.
      split; [done|]. split; [done|]. destruct ph1 as [|g1 g1'|]; simpl in Hpl1.
      * by split; [destruct Hpl1|].
      * destruct Hpl1 as [Hh1 _]. congruence.
      * split; [by destruct Hpl1|]. intros Hstar. destruct (Htr1 Hstar) as [_ Hrec]. by split.
  - intros _. exact Hs.
  - done.
Qed.

Definition got (s : State (S := S)) (t : nat) : list nat := if acquires s t then [t] else [].
Lemma step_fine order s t : fine order s -> failed (step s t) \/ fine (order ++ got s t) (step s t).
Proof.
  intros Hf. unfold got, acquires. destruct (tasks s !! t) as [[r|B m k|k|k]|] eqn:Ht.
  - right. unfold step. by rewrite Ht, app_nil_r.
  - right. rewrite app_nil_r. by eapply step_act.
  - unfold step. rewrite Ht. right. destruct (holder s) eqn:Hh; [by rewrite app_nil_r|]. by apply step_acquire.
  - rewrite app_nil_r. unfold step. rewrite Ht. by apply step_release.
  - right. unfold step. by rewrite Ht, app_nil_r.
Qed.
Lemma step_failed s t : failed s -> failed (step s t).
Proof.
  intros (t0 & e & H0). exists t0, e. unfold step. destruct (tasks s !! t) as [[r|B m k|k|k]|] eqn:Ht; try done.
  - destruct (m (world s)). simpl. rewrite lookup_insert_ne; [done|]. congruence.
  - destruct (holder s); [done|]. simpl. rewrite lookup_insert_ne; [done|]. congruence.
  - simpl. rewrite lookup_insert_ne; [done|]. congruence.
Qed.
Lemma run_failed schedule s : failed s -> failed (run schedule s).
Proof. revert s. induction schedule as [|t schedule IH]; intros s Hs; simpl; [done|]. by apply IH, step_failed. Qed.
Lemma run_fine schedule order s :
  failed s \/ fine order s -> failed (run schedule s) \/ fine (order ++ lock_order schedule s) (run schedule s).
Proof.
  revert order s. induction schedule as [|t schedule IH]; intros order s Hs; simpl; [by rewrite app_nil_r|].
  rewrite app_assoc. apply IH. destruct Hs as [Hs|Hs]; [left; by apply step_failed|by apply step_fine].
Qed.
End Invariant.

Lemma fine_watch pre0 star0 order s t : fine pre0 star0 order s -> t ∉ order -> fine order t order s.
Proof.
  intros [] Hno. constructor; try done. intros t' p' Ht'. destruct (f_tasks0 t' p' Ht') as (q & ph & wl & obs & Hq & Hg & Hpl & _).
  exists q, ph, wl, obs. split; [done|]. split; [done|]. split; [done|]. intros ->.
  destruct ph as [|g g'|]; [done| |]; simpl in Hpl; [destruct Hpl as (_ & _ & o & -> & _); set_solver|by destruct Hpl as (_ & ? & _)].
Qed.
Lemma lock_order_app a b s : lock_order (a ++ b) s = lock_order a s ++ lock_order b (run a s).
Proof. revert s. induction a as [|t a IH]; intros s; simpl; [done|]. by rewrite IH, app_assoc. Qed.
Lemma lock_order_in schedule s t : t ∈ lock_order schedule s -> t ∈ schedule.
Proof.
  revert s. induction schedule as [|t' schedule IH]; intros s; simpl; [done|]. intros [Hin|Hin]%elem_of_app; [|right; by eapply IH].
  destruct (acquires s t'); set_solver.
Qed.

Abbreviation begin := (start mode disk_faults log_faults completed w0 requests).

Lemma start_fine : base w0 -> shown (view w0) w0 -> map_Forall (fun _ => well_formed) requests -> fine [] 0 [] begin.
Proof.
  intros Hb Hs Hq. constructor; simpl; try done; [constructor|]. intros t p Hp. simpl in Hp. apply lookup_fmap_Some in Hp as (q & <- & Ht).
  exists q, Before, w0, []. split; [done|]. split; [by apply good_program; [|apply (Hq t q Ht)]|].
  split; [|done]. split; [done|]. split; [apply not_elem_of_nil|by apply later_refl].
Qed.

(** What the answer to a request may be, where [was ino c] says that the file was [c] at a moment
    between the request and the answer. *)
Definition answered (was : Z -> option bytes -> Prop) (q : Request) (o : Outcome) w : Prop :=
  match q, o with
  | WriteRequest _ _ data, Written n => n = len data
  | ReadRequest ino offset size, Bytes out =>
      cache (fs w0) = None ->
      exists b b', was ino (Some b) /\ was ino (Some b') /\
        out = slice b offset (offset + len out) /\ len out = Z.min size (saturating_sub (len b') offset)
  | GetattrRequest ino, Attributes a => at_ino a = ino /\ exists b, was ino (Some b) /\ len b <= at_size a
  | FsyncRequest ino, Synced => exists id, by_ino (inodes (fs w0)) !! ino = Some id /\ was ino (content (srv w) id)
  | FlushAllRequest, Flushed => True
  | _, _ => False
  end.
Lemma right_answered pre order s t q o obs :
  well_formed q -> tracked pre t order s t q After obs -> right_answer q obs o -> answered (recent pre order) q o (world s).
Proof.
  intros Hq Htr Hr. destruct (Htr eq_refl) as [_ Hrec]. destruct q, o; try done; simpl in *.
  - intros Hnone. destruct (Hr Hnone) as (id & s1 & s2 & c & c' & Hid & H1 & H2 & Hb & Hb' & Hout).
    destruct (Hrec _ id eq_refl Hid) as [_ Hobs]. exists c, c'. rewrite <-Hb at 1. rewrite <-Hb' at 1. split; [by apply Hobs|]. split; [by apply Hobs|done].
  - destruct Hr as (Ha & id & s1 & c & Hid & H1 & Hb & Hle). split; [done|]. exists c. split; [|done].
    destruct (Hrec _ id eq_refl Hid) as [_ Hobs]. rewrite <-Hb. by apply Hobs.
  - destruct (known_ino _ Hq) as (id & Hid & _). exists id. split; [done|]. exact (proj1 (Hrec _ id eq_refl Hid)).
Qed.

Lemma sound_base : sound mode w0 -> base w0 /\ shown (view w0) w0.
Proof.
  intros []. split; [by constructor|split; [exact s_pending0|done]].
Qed.
Lemma fine_answered pre order s t q o :
  well_formed q -> fine pre t order s -> requests !! t = Some q -> tasks s !! t = Some (Ret (Ok o)) ->
  t ∈ order /\ answered (recent pre order) q o (world s).
Proof.
  intros Hwf Hf Hq Ht. destruct (f_tasks _ _ _ _ Hf t _ Ht) as (q' & ph & wl & obs & Hq' & Hg & Hpl & Htr).
  rewrite Hq in Hq'. injection Hq' as <-. destruct Hg as [-> Hr]. split; [apply Hpl|]. by eapply right_answered.
Qed.
Lemma holder_moves pre star order s t :
  fine pre star order s -> ~ failed s -> holder s = Some t ->
  exists p, tasks s !! t = Some p /\ match p with Act _ _ | Release _ => True | _ => False end.
Proof.
  intros Hf Hnf Hh. destruct (f_holder _ _ _ _ Hf t Hh) as [p Hp]. exists p. split; [done|].
  destruct (f_tasks _ _ _ _ Hf t p Hp) as (q & ph & wl & obs & _ & Hg & Hpl & _).
  destruct ph as [|g g'|]; [by destruct Hpl| |by destruct Hpl]. destruct p as [[o|e]|B m k|k|k]; [by destruct Hg| |done|by destruct Hg|done].
  apply Hnf. by exists t, e.
Qed.
End Together.

(** ** The property *)

Section Property.
Context {S : Type} {SC : ServerClient S} {CL : ClientLaws S} {HO : HashOrder}.
Context (mode : BlockCache.Mode) (disk_faults : nat -> BlockCache.Key -> bool) (log_faults : nat -> option nat).
Context (completed : list nat -> list nat).

(** C21 Concurrent requests through the mount. However the tasks of writes, reads, attribute
    requests, fsyncs and flushes of everything interleave, as long as none has ended in an error:
    each gets the lock once, and the one that has it can always go on; when no one has it, every
    file looks exactly as if the writes that got the lock had been made one after another, in that
    order, to what was there; a write that has returned is among them. And whatever had happened
    when a request was made, what it reads of a file is what the file was at a moment since then:
    without a cache a read returns bytes the file had together at one such moment, up to the end
    it had at one; attributes never report less than the size at one; and after an fsync the server
    has the file as it was at one, with every write in it that had returned when the fsync was
    asked for. *)
Theorem writes_take_turns (w0 : World (S := S)) (requests : gmap nat Request) (schedule : list nat) :
  sound mode w0 -> map_Forall (fun _ => well_formed w0) requests ->
  let begin := start mode disk_faults log_faults completed w0 requests in
  let s := run schedule begin in let order := lock_order schedule begin in
  (forall t e, tasks s !! t <> Some (Ret (Err e))) ->
  NoDup order /\
  (forall t, holder s = Some t ->
     exists p, tasks s !! t = Some p /\ match p with Act _ _ | Release _ => True | _ => False end) /\
  (holder s = None -> forall ino, view (world s) ino = flat w0 requests order ino) /\
  (forall t q o, requests !! t = Some q -> tasks s !! t = Some (Ret (Ok o)) -> t ∈ order /\
     forall pre rest, schedule = pre ++ rest -> t ∉ pre ->
       answered w0 (recent w0 requests (lock_order pre begin) order) q o (world s)).
Proof.
  intros Hsound Hq begin s order Hok. destruct (sound_base mode w0 Hsound) as [Hb Hs]. pose proof (s_inodes _ _ _ Hsound) as Hin.
  assert (Hnf : ~ failed s) by (intros (t & e & Ht); by apply (Hok t e)).
  pose proof (start_fine mode disk_faults log_faults completed w0 Hin requests Hb Hs Hq) as Hstart. fold begin in Hstart.
  destruct (run_fine disk_faults log_faults completed w0 Hin requests [] 0 schedule [] begin (or_intror Hstart)) as [?|Hf]; [done|]. simpl in Hf. fold s order in Hf.
  split; [apply Hf|]. split; [intros t; by eapply holder_moves|]. split; [intros Hh; by apply Hf|].
  intros t q o Ht Hret. split.
  { destruct (f_tasks _ _ _ _ _ _ Hf t _ Hret) as (q' & ph & wl & obs & _ & [-> _] & Hpl & _). apply Hpl. }
  assert (Hrun : forall pre rest, schedule = pre ++ rest -> run rest (run pre begin) = s) by (unfold s, run; intros pre rest ->; by rewrite foldl_app).
  intros pre rest Hsch Hpre. destruct (run_fine disk_faults log_faults completed w0 Hin requests [] 0 pre [] begin (or_intror Hstart)) as [Hbad|Hf0].
  { exfalso. apply Hnf. rewrite <-(Hrun pre rest Hsch). by apply run_failed. }
  simpl in Hf0. apply (fine_watch disk_faults log_faults completed w0 Hin requests _ _ _ _ t) in Hf0; [|intros Hin'; apply Hpre; by eapply lock_order_in].
  destruct (run_fine disk_faults log_faults completed w0 Hin requests _ t rest _ _ (or_intror Hf0)) as [Hbad|Hf1].
  { exfalso. apply Hnf. by rewrite <-(Hrun pre rest Hsch). }
  rewrite <-lock_order_app, <-Hsch in Hf1. fold order in Hf1.
  rewrite (Hrun pre rest Hsch) in Hf1. by apply (fine_answered w0 requests _ _ _ t q o (Hq t q Ht) Hf1 Ht Hret).
Qed.
End Property.

End MountTasksFacts.
