(* ===== verification/Kernel.v ===== *)
(** * The kernel's requests

    Models [src/crates/dcfs-fuse/src/handle.rs] (module [HandleTable]) and [fs.rs] (module
    [DiscordFs]): what the mount replies to the kernel. A reply is a value; a task that
    panics sends none. The directory buffer of the [fuser] library is a parameter: whether
    one more entry fits after those already in it. Requests run one after another. *)
From Stdlib.Strings Require String.
From S2P Require Import Prelude Core Crypto ObjectStore Repository Locks Server Nodes BlockCache WriteLog Mount.

Module HandleTable.

Record HandleInfo : Type := { h_ino : Z; h_writable : bool }.
Record t : Type := { next_handle : Z; handles : gmap Z HandleInfo }.

Definition new : t := {| next_handle := 1; handles := ∅ |}.
(** [fetch_add] wraps. *)
Definition open (ino : Z) (writable : bool) (s : t) : Z * t :=
  (next_handle s, {| next_handle := next_handle s +u 1;
                     handles := <[next_handle s := {| h_ino := ino; h_writable := writable |}]> (handles s) |}).
Definition get (handle : Z) (s : t) : option HandleInfo := handles s !! handle.
Definition close (handle : Z) (s : t) : option HandleInfo * t :=
  (handles s !! handle, {| next_handle := next_handle s; handles := delete handle (handles s) |}).

End HandleTable.

Module DiscordFs.
Import Client Mount.

Definition TTL : Z := 1.

Inductive FileType : Type := RegularFile | Directory | Symlink.
(** [fuser::FileAttr]; times in nanoseconds since the epoch. *)
Record FileAttr : Type := {
  fa_ino : Z; fa_size : Z; fa_blocks : Z; fa_atime : Z; fa_mtime : Z; fa_ctime : Z; fa_crtime : Z;
  fa_kind : FileType; fa_perm : Z; fa_nlink : Z; fa_uid : Z; fa_gid : Z; fa_rdev : Z; fa_blksize : Z; fa_flags : Z;
}.
Inductive TimeOrNow : Type := Now | SpecificTime (time : Z).

Definition u16 (z : Z) : Z := z mod 2 ^ 16.
Definition file_type (k : NodeModel.NodeKind) : FileType :=
  match k with NodeModel.File => RegularFile | NodeModel.Directory => Directory | NodeModel.Symlink => Symlink end.
Definition to_system_time (dt : Z) : Z := if dt / 1000000000 <? 0 then 0 else dt.
Definition from_time_or_now (now : Z) (t : TimeOrNow) : Z := match t with Now => now | SpecificTime time => time end.
Definition to_file_attr (a : Attr) : FileAttr :=
  {| fa_ino := at_ino a; fa_size := at_size a; fa_blocks := div_ceil (at_size a) 512;
     fa_atime := to_system_time (at_atime a); fa_mtime := to_system_time (at_mtime a); fa_ctime := to_system_time (at_ctime a);
     fa_crtime := to_system_time (at_ctime a); fa_kind := file_type (at_kind a);
     fa_perm := u16 (Z.land (at_mode a) 4095); fa_nlink := if bool_decide (at_kind a = NodeModel.Directory) then 2 else 1;
     fa_uid := at_uid a; fa_gid := at_gid a; fa_rdev := 0; fa_blksize := 4096; fa_flags := 0 |}.

Record DirReply : Type := { dr_ino : Z; dr_offset : Z; dr_kind : FileType; dr_name : bytes }.
Inductive Reply : Type :=
| REntry (ttl : Z) (a : FileAttr)
| RAttr (ttl : Z) (a : FileAttr)
| RDirectory (l : list DirReply)
| RCreated (ttl : Z) (a : FileAttr) (fh : Z)
| RData (b : bytes)
| RStatfs (blocks bfree bavail files ffree bsize namelen frsize : Z)
| ROpened (fh : Z)
| RWritten (n : Z)
| ROk
| RError (errno : Z).

(** The requests, with what of them is looked at. *)
Inductive Request : Type :=
| KLookup (parent : Z) (name : bytes)
| KGetattr (ino : Z)
| KSetattr (ino : Z) (mode uid gid size : option Z) (atime mtime : option TimeOrNow)
| KReaddir (ino offset : Z)
| KCreate (parent : Z) (name : bytes) (mode uid gid : Z)
| KMkdir (parent : Z) (name : bytes) (mode uid gid : Z)
| KSymlink (parent : Z) (link_name target : bytes) (uid gid : Z)
| KReadlink (ino : Z)
| KStatfs
| KOpen (ino flags : Z)
| KRead (ino offset size : Z)
| KWrite (ino offset : Z) (data : bytes)
| KFsync (ino : Z)
| KFlush (ino : Z)
| KRelease (fh : Z)
| KUnlink (parent : Z) (name : bytes)
| KRmdir (parent : Z) (name : bytes)
| KRename (parent : Z) (name : bytes) (newparent : Z) (newname : bytes) (flags : Z).

(** The entries from [index] on, until the buffer is full. *)
Fixpoint add_entries (full : list DirReply -> DirReply -> bool) (index : Z) (entries : list DirEntry) (added : list DirReply)
    : list DirReply :=
  match entries with
  | [] => added
  | e :: rest =>
      let d := {| dr_ino := de_ino e; dr_offset := index + 1; dr_kind := file_type (de_kind e); dr_name := de_name e |} in
      if full added d then added else add_entries full (index + 1) rest (added ++ [d])
  end.
(** [entries.into_iter().enumerate().skip(offset as usize)]. *)
Definition page (full : list DirReply -> DirReply -> bool) (entries : list DirEntry) (offset : Z) : list DirReply :=
  add_entries full (u64 offset) (zdrop (u64 offset) entries) [].

Section Adapter.
Context {S : Type} `{ServerClient S} `{HashOrder}.
Context (mode : BlockCache.Mode) (disk_faults : nat -> BlockCache.Key -> bool) (log_faults : nat -> option nat)
  (completed : list nat -> list nat) (full : list DirReply -> DirReply -> bool) (pages : nat) (now : Z).

Record Kernel : Type := { mount : World (S := S); table : HandleTable.t }.
Definition with_mount (k : Kernel) (w : World (S := S)) : Kernel := {| mount := w; table := table k |}.
Definition with_table (k : Kernel) (t : HandleTable.t) : Kernel := {| mount := mount k; table := t |}.

(** [match fs.op().await { Ok(a) => reply, Err(e) => reply.error(to_errno(&e)) }]. *)
Definition answer {A} (m : Mount.M A) (f : A -> Kernel -> Reply * Kernel) (k : Kernel) : option Reply * Kernel :=
  match m (mount k) with
  | (Ok a, w) => let '(r, k') := f a (with_mount k w) in (Some r, k')
  | (Err (Fail e), w) => (Some (RError (to_errno e)), with_mount k w)
  | (Err Panic, w) => (None, with_mount k w)
  end.
Definition reply {A} (f : A -> Reply) (a : A) (k : Kernel) : Reply * Kernel := (f a, k).

(** [O_WRONLY | O_RDWR]. *)
Definition O_WRITES : Z := 3.

Definition lookup (parent : Z) (name : bytes) : Kernel -> option Reply * Kernel :=
  answer (Mount.lookup disk_faults log_faults parent name) (reply (REntry TTL ∘ to_file_attr)).
Definition getattr (ino : Z) : Kernel -> option Reply * Kernel :=
  answer (Mount.getattr disk_faults log_faults ino) (reply (RAttr TTL ∘ to_file_attr)).
Definition setattr (ino : Z) (mode uid gid size : option Z) (atime mtime : option TimeOrNow) : Kernel -> option Reply * Kernel :=
  answer (Mount.setattr disk_faults log_faults ino mode uid gid size (from_time_or_now now <$> mtime) (from_time_or_now now <$> atime))
    (reply (RAttr TTL ∘ to_file_attr)).
Definition readdir (ino offset : Z) : Kernel -> option Reply * Kernel :=
  answer (Mount.readdir disk_faults log_faults pages ino) (reply (fun entries => RDirectory (page full entries offset))).
Definition create (parent : Z) (name : bytes) (mode uid gid : Z) : Kernel -> option Reply * Kernel :=
  answer (Mount.create parent name NodeModel.File mode uid gid)
    (fun attr k => let '(fh, t) := HandleTable.open (at_ino attr) true (table k) in
                   (RCreated TTL (to_file_attr attr) fh, with_table k t)).
Definition mkdir (parent : Z) (name : bytes) (mode uid gid : Z) : Kernel -> option Reply * Kernel :=
  answer (Mount.create parent name NodeModel.Directory mode uid gid) (reply (REntry TTL ∘ to_file_attr)).
Definition symlink (parent : Z) (link_name target : bytes) (uid gid : Z) : Kernel -> option Reply * Kernel :=
  answer (Mount.symlink parent link_name target uid gid) (reply (REntry TTL ∘ to_file_attr)).
Definition readlink (ino : Z) : Kernel -> option Reply * Kernel := answer (Mount.readlink ino) (reply RData).
Definition statfs (k : Kernel) : option Reply * Kernel :=
  let s := Mount.statfs (fs (mount k)) in
  (Some (RStatfs (total_blocks s) (free_blocks s) (free_blocks s) 0 0 (block_size s) (name_max s) (block_size s)), k).
Definition open (ino flags : Z) (k : Kernel) : option Reply * Kernel :=
  let '(fh, t) := HandleTable.open ino (negb (Z.land flags O_WRITES =? 0)) (table k) in (Some (ROpened fh), with_table k t).
Definition read (ino offset size : Z) : Kernel -> option Reply * Kernel :=
  answer (Mount.read mode disk_faults log_faults completed ino (Z.max offset 0) size) (reply RData).
Definition write (ino offset : Z) (data : bytes) : Kernel -> option Reply * Kernel :=
  answer (Mount.write disk_faults log_faults ino (Z.max offset 0) data) (reply (RWritten ∘ u32)).
Definition fsync (ino : Z) : Kernel -> option Reply * Kernel :=
  answer (Mount.fsync disk_faults log_faults ino) (reply (fun _ => ROk)).
Definition flush (ino : Z) : Kernel -> option Reply * Kernel :=
  answer (Mount.fsync disk_faults log_faults ino) (reply (fun _ => ROk)).
Definition release (fh : Z) (k : Kernel) : option Reply * Kernel :=
  (Some ROk, with_table k (HandleTable.close fh (table k)).2).
Definition unlink (parent : Z) (name : bytes) : Kernel -> option Reply * Kernel :=
  answer (Mount.remove disk_faults log_faults parent name) (reply (fun _ => ROk)).
Definition rmdir (parent : Z) (name : bytes) : Kernel -> option Reply * Kernel := unlink parent name.
(** The flags are not looked at. *)
Definition rename (parent : Z) (name : bytes) (newparent : Z) (newname : bytes) (flags : Z) : Kernel -> option Reply * Kernel :=
  answer (Mount.rename disk_faults log_faults parent name newparent newname) (reply (fun _ => ROk)).

Definition serve (req : Request) : Kernel -> option Reply * Kernel :=
  match req with
  | KLookup parent name => lookup parent name
  | KGetattr ino => getattr ino
  | KSetattr ino mode uid gid size atime mtime => setattr ino mode uid gid size atime mtime
  | KReaddir ino offset => readdir ino offset
  | KCreate parent name mode uid gid => create parent name mode uid gid
  | KMkdir parent name mode uid gid => mkdir parent name mode uid gid
  | KSymlink parent link_name target uid gid => symlink parent link_name target uid gid
  | KReadlink ino => readlink ino
  | KStatfs => statfs
  | KOpen ino flags => open ino flags
  | KRead ino offset size => read ino offset size
  | KWrite ino offset data => write ino offset data
  | KFsync ino => fsync ino
  | KFlush ino => flush ino
  | KRelease fh => release fh
  | KUnlink parent name => unlink parent name
  | KRmdir parent name => rmdir parent name
  | KRename parent name newparent newname flags => rename parent name newparent newname flags
  end.

End Adapter.
End DiscordFs.
