(* ===== verification/KernelProps.v ===== *)
(** * The kernel's requests: what they show

    Proofs about [Kernel]: the files the kernel sees are flat files; a directory read in
    pieces is read whole; handles are told apart. *)
From Stdlib.Strings Require String.
From S2P Require Import Prelude Core Crypto ObjectStore Repository Locks Server Nodes BlockCache WriteLog Mount MountFacts MountRecovery Kernel.

Module KernelFacts.
Import Nodes Client Mount MountSpec MountFacts Recovery DiscordFs.

(** ** Directories *)

Section Listing.
Context (full : list DirReply -> DirReply -> bool).

Definition numbered (index : Z) (entries : list DirEntry) : list DirReply :=
  imap (fun i e => {| dr_ino := de_ino e; dr_offset := index + Z.of_nat i + 1; dr_kind := file_type (de_kind e); dr_name := de_name e |}) entries.
Arguments numbered : simpl never.
Lemma numbered_cons index e l : numbered index (e :: l) =
  {| dr_ino := de_ino e; dr_offset := index + 1; dr_kind := file_type (de_kind e); dr_name := de_name e |} :: numbered (index + 1) l.
Proof. unfold numbered. rewrite imap_cons. f_equal; [by rewrite Z.add_0_r|]. apply imap_ext. intros i x _. simpl. f_equal. lia. Qed.
Lemma numbered_app index l1 l2 : numbered index (l1 ++ l2) = numbered index l1 ++ numbered (index + len l1) l2.
Proof.
  revert index. induction l1 as [|e l1 IH]; intros index; [by rewrite len_nil, Z.add_0_r|]. rewrite <-app_comm_cons, !numbered_cons, IH, <-app_comm_cons.
  by replace (index + len (e :: l1)) with (index + 1 + len l1) by (rewrite len_cons; lia).
Qed.
Lemma add_entries_spec index entries added : exists k,
  add_entries full index entries added = added ++ numbered index (take k entries) /\ (k <= length entries)%nat /\
  (entries <> [] -> (forall d, full added d = false) -> (1 <= k)%nat).
Proof.
  revert index added. induction entries as [|e entries IH]; intros index added; simpl.
  { exists 0%nat. by rewrite app_nil_r. }
  destruct (full added _) eqn:Hf.
  - exists 0%nat. rewrite app_nil_r. split; [done|]. split; [lia|]. intros _ Hno. by rewrite Hno in Hf.
  - destruct (IH (index + 1) (added ++ [{| dr_ino := de_ino e; dr_offset := index + 1; dr_kind := file_type (de_kind e); dr_name := de_name e |}])) as (k & -> & Hk & _).
    exists (S k). rewrite firstn_cons, numbered_cons, <-app_assoc. split; [done|]. split; [lia|]. intros; lia.
Qed.
Lemma last_numbered index l d : last (numbered index l) = Some d -> dr_offset d = index + len l.
Proof.
  induction l as [|e l _] using rev_ind; [done|]. rewrite numbered_app, last_app. rewrite numbered_cons. simpl.
  intros [= <-]. simpl. rewrite len_app. change (len [e]) with 1. lia.
Qed.

End Listing.

(** *** A directory of a server

    A server answers for the directory [id] with [node] and the pages of [children], for
    as long as [steady] holds of it. *)
Record serves_dir {S} `{ServerClient S} (steady : S -> Prop) (id : Uuid) (node : NodeResponse) (children : list NodeResponse) : Prop := {
  sd_tick s : steady s -> steady (tick s);
  sd_node s : steady s -> get_node id s = Ok node;
  sd_children s offset : steady s -> 0 <= offset < 2 ^ 32 ->
    list_children id (Some PAGE) (Some offset) s = Ok (ztake PAGE (zdrop offset children));
}.

Section ReadDir.
Context {S : Type} `{ServerClient S} `{HashOrder}.
Context (disk_faults : nat -> BlockCache.Key -> bool) (log_faults : nat -> option nat)
  (full : list DirReply -> DirReply -> bool) (pages : nat).
Context (steady : S -> Prop) (id : Uuid) (node : NodeResponse) (children : list NodeResponse).
Hypothesis Hdir : serves_dir steady id node children.
Hypothesis Hmany : len children + PAGE < 2 ^ 32.
Implicit Types (w : World (S := S)) (i : Inodes).

Lemma inodes_ok_ino id' i w : inodes (fs w) = i -> inodes_ok i -> 0 <= next i -> next i + 1 < 2 ^ 64 ->
  exists ino i', ino_for id' w = (Ok ino, with_inodes w i') /\ inodes_ok i' /\ by_id i' !! id' = Some ino /\
    by_id i ⊆ by_id i' /\ by_ino i ⊆ by_ino i' /\ next i <= next i' <= next i + 1 /\
    (is_Some (by_id i !! id') -> i' = i).
Proof.
  intros Hi (Hbij & Hnext & Hsn) Hpos Hfit. unfold ino_for. rewrite Hi.
  destruct (by_id i !! id') as [ino|] eqn:Hid.
  { exists ino, i. split; [|split_and!; done || lia]. unfold with_inodes, with_fs. rewrite <-Hi. by destruct w as [[]]. }
  assert (Hnew : by_ino i !! next i = None).
  { destruct (by_ino i !! next i) eqn:Hn; [|done]. apply Hnext in Hn. lia. }
  rewrite (wadd_id (next i) 1) by lia. do 2 eexists. split; [reflexivity|]. simpl. rewrite lookup_insert_eq.
  split; [|split_and!; [done|by apply insert_subseteq..|lia|lia|by intros [? ?]]]. split_and!; simpl.
  - intros ino' id''. destruct (decide (ino' = next i)) as [->|Hne].
    { rewrite lookup_insert_eq. destruct (decide (id'' = id')) as [->|Hne']; [by rewrite lookup_insert_eq|].
      rewrite lookup_insert_ne by done. split; [congruence|]. intros Hl%Hbij. congruence. }
    rewrite lookup_insert_ne by done. destruct (decide (id'' = id')) as [->|Hne'].
    { rewrite lookup_insert_eq. split; [intros Hl%Hbij; congruence|congruence]. }
    rewrite lookup_insert_ne by done. apply Hbij.
  - intros ino' id'' [[<- <-]|[_ Hl]]%lookup_insert_Some; [lia|]. apply Hnext in Hl. lia.
  - intros ino' Hs%Hsn. lia.
Qed.

(** The entries of a listing under the numbers of an inode table. *)
Definition entry_of i (c : NodeResponse) : DirEntry :=
  {| de_ino := default 0 (by_id i !! nr_id c); de_kind := nr_kind c; de_name := nr_name c |}.
Definition parent_of i (ino : Z) : Z := match nr_parent_id node with Some p => default 0 (by_id i !! p) | None => ino end.
Definition whole_dir i (ino : Z) : list DirEntry :=
  {| de_ino := ino; de_kind := NodeModel.Directory; de_name := [x2e] |}
  :: {| de_ino := parent_of i ino; de_kind := NodeModel.Directory; de_name := [x2e; x2e] |} :: (entry_of i <$> children).

Definition numbers i : Prop := (forall c, c ∈ children -> is_Some (by_id i !! nr_id c)) /\
  (forall p, nr_parent_id node = Some p -> is_Some (by_id i !! p)).

Lemma entry_of_mono i i' c : by_id i ⊆ by_id i' -> is_Some (by_id i !! nr_id c) -> entry_of i' c = entry_of i c.
Proof. intros Hsub [ino Hino]. unfold entry_of. by rewrite Hino, (lookup_weaken _ _ _ _ Hino Hsub). Qed.

Lemma entries_of_run l i w : inodes (fs w) = i -> inodes_ok i -> 0 <= next i -> next i + len l < 2 ^ 64 ->
  exists i', entries_of l w = (Ok (entry_of i' <$> l), with_inodes w i') /\ inodes_ok i' /\
    (forall c, c ∈ l -> is_Some (by_id i' !! nr_id c)) /\ by_id i ⊆ by_id i' /\ by_ino i ⊆ by_ino i' /\ 0 <= next i' <= next i + len l /\
    ((forall c, c ∈ l -> is_Some (by_id i !! nr_id c)) -> i' = i).
Proof.
  revert i w. induction l as [|c l IH]; intros i w Hi Hok Hpos Hfit.
  { exists i. split; [|split_and!; try done; try (unfold len; simpl; lia); set_solver]. unfold with_inodes, with_fs. rewrite <-Hi. by destruct w as [[]]. }
  rewrite len_cons in Hfit. pose proof (len_nonneg l).
  destruct (inodes_ok_ino (nr_id c) i w Hi Hok Hpos ltac:(lia)) as (ino & i1 & Hrun & Hok1 & Hino & Hs1 & Hb1 & Hn1 & Hsame1).
  destruct (IH i1 (with_inodes w i1) eq_refl Hok1 ltac:(lia) ltac:(lia)) as (i2 & Hrest & Hok2 & Hk2 & Hs2 & Hb2 & Hn2 & Hsame2).
  exists i2. cbn [entries_of]. rewrite (bind_ok _ _ _ _ _ Hrun), (bind_ok _ _ _ _ _ Hrest). split.
  { unfold mret, M_ret. rewrite fmap_cons. f_equal. do 2 f_equal. unfold entry_of. by rewrite (lookup_weaken _ _ _ _ Hino Hs2). }
  split; [done|]. rewrite len_cons. split; [|split; [by etrans|split; [by etrans|split; [lia|]]]].
  - intros c' [->|Hc']%elem_of_cons; [|by apply Hk2]. exists ino. by eapply lookup_weaken.
  - intros Hall. rewrite Hsame1 in Hsame2 by (apply Hall; set_solver). apply Hsame2. intros c' Hc'. apply Hall. set_solver.
Qed.

Lemma children_from_run fuel offset w :
  steady (srv w) -> 0 <= offset <= len children -> len children < offset + PAGE * Z.of_nat fuel ->
  exists s', children_from fuel id offset w = (Ok (zdrop offset children), with_srv w s') /\ steady s'.
Proof.
  revert offset w. induction fuel as [|fuel IH]; intros offset w Hs Hoff Hfuel; [lia|]. cbn [children_from].
  assert (Hq : query (list_children id (Some PAGE) (Some offset)) w
    = (Ok (ztake PAGE (zdrop offset children)), with_srv w (tick (srv w)))).
  { unfold query. rewrite (sd_children _ _ _ _ Hdir) by (done || (unfold PAGE in *; lia)). done. }
  rewrite (bind_ok _ _ _ _ _ Hq). rewrite len_ztake, len_zdrop.
  pose proof (sd_tick _ _ _ _ Hdir _ Hs) as Hs1. destruct (Z.ltb_spec (Z.max 0 (PAGE `min` Z.max 0 (len children - Z.max 0 offset))) PAGE) as [Hlast|Hmore].
  - exists (tick (srv w)). split; [|done]. unfold mret, M_ret. do 2 f_equal. apply ztake_all. rewrite len_zdrop. unfold PAGE in *. lia.
  - assert (Hu : u32 (offset + PAGE) = offset + PAGE) by (apply Z.mod_small; unfold PAGE in *; lia). rewrite Hu.
    destruct (IH (offset + PAGE) (with_srv w (tick (srv w))) Hs1) as (s' & Hrest & Hs'); [unfold PAGE in *; lia..|].
    exists s'. rewrite (bind_ok _ _ _ _ _ Hrest). split; [|done]. unfold mret, M_ret. f_equal. f_equal.
    rewrite <-(ztake_zdrop PAGE (zdrop offset children)) at 2. f_equal. rewrite !zdrop_drop, drop_drop. f_equal. unfold PAGE in *. lia.
Qed.

(** The state between two calls, and one call. *)
Record at_dir (ino : Z) w : Prop := {
  ad_steady : steady (srv w);
  ad_clean : pending (fs w) = ∅;
  ad_inodes : inodes_ok (inodes (fs w));
  ad_ino : by_ino (inodes (fs w)) !! ino = Some id;
  ad_next : 0 <= next (inodes (fs w));
}.

Hypothesis Hkind : nr_kind node = NodeModel.Directory.
Hypothesis Hpages : len children < PAGE * Z.of_nat pages.

Lemma readdir_run ino w :
  at_dir ino w -> next (inodes (fs w)) + len children + 1 < 2 ^ 64 ->
  exists w', Mount.readdir disk_faults log_faults pages ino w = (Ok (whole_dir (inodes (fs w')) ino), w') /\
    at_dir ino w' /\ numbers (inodes (fs w')) /\ by_ino (inodes (fs w)) ⊆ by_ino (inodes (fs w')) /\
    next (inodes (fs w')) <= next (inodes (fs w)) + len children + 1 /\
    (numbers (inodes (fs w)) -> inodes (fs w') = inodes (fs w)).
Proof.
  intros [Hs Hclean Hok Hino Hpos] Hfit. pose proof (len_nonneg children). unfold Mount.readdir, Mount.flush_all.
  rewrite (bind_ok _ _ w tt (with_pending w ∅)).
  2: { rewrite (bind_ok get _ w w w) by done. erewrite bind_ok by reflexivity. rewrite Hclean.
       replace (hm_iter (∅ : gmap Z PendingWrite)) with (@nil (Z * PendingWrite)); [done|].
       symmetry. apply Permutation_nil. rewrite hm_iter_perm, map_to_list_empty. done. }
  set (w0 := with_pending w ∅).
  rewrite (bind_ok (id_for ino) _ w0 id w0) by (unfold id_for; simpl; by rewrite Hino).
  assert (Hq : query (get_node id) w0 = (Ok node, with_srv w0 (tick (srv w)))).
  { unfold query. simpl. by rewrite (sd_node _ _ _ _ Hdir _ Hs). }
  rewrite (bind_ok _ _ _ _ _ Hq), Hkind, bool_decide_true by done. cbn [negb]. set (w1 := with_srv w0 (tick (srv w))).
  assert (Hpar : exists i1, (match nr_parent_id node with Some p => ino_for p | None => mret ino end) w1
      = (Ok (parent_of i1 ino), with_inodes w1 i1) /\ inodes_ok i1 /\
    (forall p, nr_parent_id node = Some p -> is_Some (by_id i1 !! p)) /\ by_ino (inodes (fs w)) ⊆ by_ino i1 /\
    by_id (inodes (fs w)) ⊆ by_id i1 /\ next (inodes (fs w)) <= next i1 <= next (inodes (fs w)) + 1 /\
    (numbers (inodes (fs w)) -> i1 = inodes (fs w))).
  { unfold parent_of. destruct (nr_parent_id node) as [p|] eqn:Hp.
    - destruct (inodes_ok_ino p (inodes (fs w)) w1 eq_refl Hok Hpos ltac:(lia)) as (pino & i1 & Hrun & Hok1 & Hpi & ? & ? & ? & Hsame).
      exists i1. rewrite Hpi. split_and!; try done; try lia.
      + intros p' [= <-]. by exists pino.
      + intros [_ Hk]. by apply Hsame, Hk.
    - exists (inodes (fs w)). split; [unfold mret, M_ret; by destruct w as [[]]|]. split_and!; done || lia. }
  destruct Hpar as (i1 & Hpar & Hok1 & Hp1 & Hb1 & Hi1 & Hn1 & Hsame1). rewrite (bind_ok _ _ _ _ _ Hpar).
  destruct (children_from_run pages 0 (with_inodes w1 i1)) as (s2 & Hch & Hs2); [by apply (sd_tick _ _ _ _ Hdir)|lia|lia|].
  unfold children_of. rewrite (bind_ok _ _ _ _ _ Hch), zdrop_0 by lia.
  destruct (entries_of_run children i1 (with_srv (with_inodes w1 i1) s2) eq_refl Hok1 ltac:(lia) ltac:(lia))
    as (i2 & Hent & Hok2 & Hk2 & Hs12 & Hb12 & Hn2 & Hsame2).
  rewrite (bind_ok _ _ _ _ _ Hent). exists (with_inodes (with_srv (with_inodes w1 i1) s2) i2). simpl. split.
  { unfold mret, M_ret, whole_dir, parent_of. do 4 f_equal. destruct (nr_parent_id node) as [p|]; [|done].
    destruct (Hp1 p eq_refl) as [x Hx]. by rewrite Hx, (lookup_weaken _ _ _ _ Hx Hs12). }
  split; [constructor; simpl; try done; [|lia]; by repeat (eapply lookup_weaken; [|done])|].
  split; [split; [done|]; intros p [x Hx]%Hp1; exists x; by eapply lookup_weaken|].
  split; [by etrans|]. split; [lia|]. intros Hk. rewrite (Hsame1 Hk) in Hsame2. apply Hsame2, Hk.
Qed.

(** The kernel asks again from where the last reply ended, until a reply is empty. *)
Fixpoint read_all (calls : nat) (ino offset : Z) (k : Kernel (S := S)) : option (list DirReply) * Kernel (S := S) :=
  match calls with
  | O => (None, k)
  | Datatypes.S calls =>
      match DiscordFs.readdir disk_faults log_faults full pages ino offset k with
      | (Some (RDirectory p), k) =>
          match last p with
          | None => (Some [], k)
          | Some d => let '(rest, k) := read_all calls ino (dr_offset d) k in (app p <$> rest, k)
          end
      | (_, k) => (None, k)
      end
  end.

Lemma readdir_reply ino offset k :
  at_dir ino (mount k) -> next (inodes (fs (mount k))) + len children + 1 < 2 ^ 64 ->
  exists k', DiscordFs.readdir disk_faults log_faults full pages ino offset k
      = (Some (RDirectory (page full (whole_dir (inodes (fs (mount k'))) ino) offset)), k') /\
    at_dir ino (mount k') /\ numbers (inodes (fs (mount k'))) /\
    by_ino (inodes (fs (mount k))) ⊆ by_ino (inodes (fs (mount k'))) /\
    next (inodes (fs (mount k'))) <= next (inodes (fs (mount k))) + len children + 1 /\
    (numbers (inodes (fs (mount k))) -> inodes (fs (mount k')) = inodes (fs (mount k))).
Proof.
  intros Hat Hfit. destruct (readdir_run ino (mount k) Hat Hfit) as (w' & Hrun & Hrest). exists (with_mount k w').
  split; [|exact Hrest]. unfold DiscordFs.readdir, answer. by rewrite Hrun.
Qed.

Lemma read_all_from calls ino pos k :
  (forall d, full [] d = false) -> at_dir ino (mount k) ->
  numbers (inodes (fs (mount k))) /\ next (inodes (fs (mount k))) + len children + 1 < 2 ^ 64 \/ next (inodes (fs (mount k))) < 2 ^ 63 ->
  (pos <= length children + 2)%nat -> (length children + 2 - pos < calls)%nat ->
  exists k', read_all calls ino (Z.of_nat pos) k
      = (Some (numbered (Z.of_nat pos) (drop pos (whole_dir (inodes (fs (mount k'))) ino))), k') /\
    at_dir ino (mount k') /\ numbers (inodes (fs (mount k'))) /\
    by_ino (inodes (fs (mount k))) ⊆ by_ino (inodes (fs (mount k'))) /\
    (numbers (inodes (fs (mount k))) -> inodes (fs (mount k')) = inodes (fs (mount k))).
Proof.
  intros Hfits. revert pos k. induction calls as [|calls IH]; intros pos k Hat Hfit Hpos Hcalls; [lia|]. cbn [read_all].
  assert (Hfit' : next (inodes (fs (mount k))) + len children + 1 < 2 ^ 64) by (unfold PAGE in Hmany; destruct Hfit as [[_ ?]|?]; lia).
  destruct (readdir_reply ino (Z.of_nat pos) k Hat Hfit') as (k1 & -> & Hat1 & Hnum1 & Hsub1 & Hnext1 & Hsame1).
  set (E := whole_dir (inodes (fs (mount k1))) ino).
  assert (HE : length E = (length children + 2)%nat) by (unfold E, whole_dir; simpl; rewrite length_fmap; lia).
  assert (Hu : u64 (Z.of_nat pos) = Z.of_nat pos) by (apply Z.mod_small; unfold PAGE, len in Hmany; lia).
  unfold page. rewrite Hu, zdrop_drop, Nat2Z.id.
  destruct (add_entries_spec full (Z.of_nat pos) (drop pos E) []) as (n & -> & Hn & Hp). rewrite length_drop in Hn. cbn [app].
  destruct (last (numbered _ _)) as [d|] eqn:Hl.
  - assert (Hn1 : (1 <= n)%nat) by (destruct n; [by rewrite take_0 in Hl|lia]). apply last_numbered in Hl. unfold len in Hl. rewrite length_take, length_drop, HE in Hl. rewrite HE in Hn.
    replace (dr_offset d) with (Z.of_nat (pos + n)) by lia.
    destruct (IH (pos + n)%nat k1 Hat1) as (k' & -> & Hat' & Hnum' & Hsub' & Hsame'); [|lia|lia|].
    { left. split; [done|]. destruct Hfit as [[Hnum _]|?]; [by rewrite (Hsame1 Hnum)|unfold PAGE in Hmany; lia]. }
    exists k'. split; [|split_and!; [done..|by etrans|]].
    + cbn [fmap option_fmap option_map]. do 2 f_equal. specialize (Hsame' Hnum1). rewrite Hsame'. fold E.
      replace (Z.of_nat (pos + n)) with (Z.of_nat pos + len (take n (drop pos E))) by (unfold len; rewrite length_take, length_drop, HE; lia).
      rewrite <-drop_drop, <-numbered_app. f_equal. apply take_drop.
    + intros Hnum. by rewrite (Hsame' Hnum1), (Hsame1 Hnum).
  - exists k1. split; [|by split_and!]. do 2 f_equal. fold E. destruct (decide (drop pos E = [])) as [->|Hne]; [done|].
    specialize (Hp Hne Hfits). apply last_None in Hl. apply (f_equal length) in Hl. unfold numbered in Hl. rewrite length_imap, length_take, length_drop in Hl.
    cbn [length] in Hl.
    assert (Hlt : (pos < length E)%nat) by (destruct (decide (pos < length E)%nat); [done|]; destruct Hne; apply drop_ge; lia). lia.
Qed.

(** Reading a directory gives every entry once, in the order of the server, under the
    number by which the kernel then finds it. *)
Lemma read_all_whole calls ino k :
  (forall d, full [] d = false) -> at_dir ino (mount k) -> next (inodes (fs (mount k))) < 2 ^ 63 ->
  (length children + 2 < calls)%nat ->
  exists parent entries k', read_all calls ino 0 k = (Some (numbered 0
      ({| de_ino := ino; de_kind := NodeModel.Directory; de_name := [x2e] |}
       :: {| de_ino := parent; de_kind := NodeModel.Directory; de_name := [x2e; x2e] |} :: entries)), k') /\
    match nr_parent_id node with Some p => by_ino (inodes (fs (mount k'))) !! parent = Some p | None => parent = ino end /\
    Forall2 (fun e c => de_name e = nr_name c /\ de_kind e = nr_kind c /\
      by_ino (inodes (fs (mount k'))) !! de_ino e = Some (nr_id c)) entries children /\
    by_ino (inodes (fs (mount k))) ⊆ by_ino (inodes (fs (mount k'))) /\ steady (srv (mount k')).
Proof.
  intros Hfits Hat Hnext Hcalls.
  destruct (read_all_from calls ino 0 k Hfits Hat ltac:(by right) ltac:(lia) ltac:(lia)) as (k' & Hrun & Hat' & [Hk Hp] & Hsub & _).
  exists (parent_of (inodes (fs (mount k'))) ino), (entry_of (inodes (fs (mount k'))) <$> children), k'.
  pose proof (ad_inodes _ _ Hat') as (Hbij & _). split; [exact Hrun|]. split; [|split; [|split; [done|apply Hat']]].
  - unfold parent_of. destruct (nr_parent_id node) as [p|]; [|done]. destruct (Hp p eq_refl) as [x Hx]. rewrite Hx. by apply Hbij.
  - rewrite Forall2_fmap_l. apply Forall_Forall2_diag, Forall_forall. intros c Hc. split; [done|]. split; [done|].
    destruct (Hk c Hc) as [x Hx]. simpl. rewrite Hx. by apply Hbij.
Qed.

End ReadDir.

(** ** Handles *)

(** The tables there can be, after [n] handles were given out. *)
Inductive given : nat -> HandleTable.t -> Prop :=
| given_none : given 0 HandleTable.new
| given_open n s ino writable : given n s -> given (S n) (HandleTable.open ino writable s).2
| given_close n s handle : given n s -> given n (HandleTable.close handle s).2.

Lemma given_spec n s : given n s -> Z.of_nat n < 2 ^ 64 - 1 ->
  HandleTable.next_handle s = Z.of_nat n + 1 /\ forall h, is_Some (HandleTable.handles s !! h) -> 0 < h <= Z.of_nat n.
Proof.
  induction 1 as [|n s ino writable Hg IH|n s h0 Hg IH]; intros Hn; simpl.
  - split; [done|]. intros h. rewrite lookup_empty. by intros [? ?].
  - destruct IH as [Hnext Hall]; [lia|]. rewrite Hnext. split; [rewrite wadd_id; lia|]. intros h. rewrite lookup_insert. case_decide; [lia|].
    intros Hh%Hall. lia.
  - destruct (IH Hn) as [Hnext Hall]. split; [done|]. intros h. rewrite lookup_delete. case_decide; [by intros [? ?]|apply Hall].
Qed.

(** Handles are told apart. Through any sequence of opens and closes, the handle an
    open gives is no handle that is still open; afterwards it stands for what was opened,
    and every other handle for what it stood for. *)
Theorem handles_are_distinct n s ino writable : given n s -> Z.of_nat n < 2 ^ 64 - 1 ->
  let '(h, s') := HandleTable.open ino writable s in
  HandleTable.get h s = None /\ HandleTable.get h s' = Some {| HandleTable.h_ino := ino; HandleTable.h_writable := writable |} /\
  forall h', h' <> h -> HandleTable.get h' s' = HandleTable.get h' s.
Proof.
  intros Hg Hn. destruct (given_spec n s Hg Hn) as [Hnext Hall]. unfold HandleTable.open, HandleTable.get. simpl. split_and!.
  - apply eq_None_not_Some. intros Hs%Hall. lia.
  - apply lookup_insert_eq.
  - intros h' Hne. by apply lookup_insert_ne.
Qed.

(** ** Files *)

Section Files.
Context {S : Type} {SC : ServerClient S} {CL : ClientLaws S} {HO : HashOrder}.
Context (mode : BlockCache.Mode) (disk_faults : nat -> BlockCache.Key -> bool) (log_faults : nat -> option nat) (completed : list nat -> list nat).
Context (full : list DirReply -> DirReply -> bool) (pages : nat) (now : Z).
Context (Hperm : forall l, completed l ≡ₚ l).
Abbreviation sound := (sound mode).
Abbreviation serve := (DiscordFs.serve mode disk_faults log_faults completed full pages now).

(** What the kernel sends about open files, in the types it sends it in. *)
Definition in_range (req : Request) (k : Kernel (S := S)) : Prop :=
  match req with
  | KWrite ino offset data => is_Some (view (mount k) ino) /\ data <> [] /\ len data < 2 ^ 32 /\ Z.max offset 0 + len data < MAX_SIZE
  | KRead ino offset size => is_Some (view (mount k) ino) /\ 0 <= size < 2 ^ 32 /\ offset < 2 ^ 62 /\ cache_fits mode size (mount k)
  | KFsync ino | KFlush ino => is_Some (view (mount k) ino)
  | KStatfs | KOpen _ _ | KRelease _ => True
  | _ => False
  end.
(** Requests that are answered, none of them with an error. *)
Inductive served : Kernel (S := S) -> list (Request * Reply) -> Kernel (S := S) -> Prop :=
| served_none k : served k [] k
| served_next k req r k1 l k2 : in_range req k -> serve req k = (Some r, k1) -> (forall errno, r <> RError errno) ->
    served k1 l k2 -> served k ((req, r) :: l) k2.

(** The replies of flat files. *)
Definition flat_serve (files : gmap Z bytes) (req : Request) (r : Reply) : option (gmap Z bytes) :=
  match req, r with
  | KWrite ino offset data, RWritten n =>
      if n =? len data then Some (alter (fun b => write_flat b (Z.max offset 0) data) ino files) else None
  | KRead ino offset size, RData out =>
      b ← files !! ino; if bool_decide (out = slice b (Z.max offset 0) (Z.max offset 0 + size)) then Some files else None
  | (KFsync _ | KFlush _ | KRelease _), ROk | KStatfs, RStatfs _ _ _ _ _ _ _ _ | KOpen _ _, ROpened _ => Some files
  | _, _ => None
  end.
Fixpoint flat_served (files : gmap Z bytes) (l : list (Request * Reply)) : option (gmap Z bytes) :=
  match l with
  | [] => Some files
  | (req, r) :: l => files ← flat_serve files req r; flat_served files l
  end.

Lemma answer_inv {A} (m : Mount.M (S := S) A) f (k : Kernel (S := S)) r k' : answer m f k = (Some r, k') -> (forall errno, r <> RError errno) ->
  exists a w, m (mount k) = (Ok a, w) /\ f a (with_mount k w) = (r, k').
Proof.
  unfold answer. destruct (m (mount k)) as [[a|[e|]] w]; [|by intros [= <- <-] Hno; destruct (Hno (to_errno e))|done].
  destruct (f a (with_mount k w)) as [r0 k0] eqn:Hf. intros [= <- <-] _. by exists a, w.
Qed.

Lemma serve_sim req k r k' files : sound (mount k) -> shows (mount k) files -> in_range req k -> serve req k = (Some r, k') ->
  (forall errno, r <> RError errno) ->
  exists files', flat_serve files req r = Some files' /\ shows (mount k') files' /\ sound (mount k').
Proof.
  intros Hs Hf Hin Hrun Hno. destruct req; try done; cbn [DiscordFs.serve] in Hrun; simpl in Hin.
  - injection Hrun as <- <-. by exists files.
  - injection Hrun as <- <-. by exists files.
  - destruct Hin as (Hv & Hsz & Hoff & Hfit). apply answer_inv in Hrun as (out & w & Hread & [= <- <-]); [|done].
    destruct (step_sim mode disk_faults completed Hperm log_faults (mount k) (ERead ino (Z.max offset 0) size out) w files Hs Hf) as (files' & Hflat & Hs' & Hsound').
    { constructor; try done; lia. }
    exists files'. by split.
  - destruct Hin as (Hv & Hd & Hlen & Hend). apply answer_inv in Hrun as (n & w & Hwrite & [= <- <-]); [|done]. pose proof Hv as [b (id & b0 & Hid & _)%view_Some].
    pose proof (write_spec mode disk_faults log_faults ino id (Z.max offset 0) data (mount k) Hs Hid Hv ltac:(lia) Hd Hend) as [_ Hw].
    rewrite Hwrite in Hw. destruct Hw as [-> _].
    destruct (step_sim mode disk_faults completed Hperm log_faults (mount k) (EWrite ino (Z.max offset 0) data) w files Hs Hf) as (files' & Hflat & Hs' & Hsound').
    { econstructor; try done; lia. }
    exists files'. simpl in Hflat |- *. pose proof (len_nonneg data). unfold u32. rewrite Z.mod_small, Z.eqb_refl by lia. by split.
  - apply answer_inv in Hrun as ([] & w & Hsync & [= <- <-]); [|done].
    destruct (step_sim mode disk_faults completed Hperm log_faults (mount k) (EFsync ino) w files Hs Hf) as (files' & Hflat & Hs' & Hsound'); [by constructor|].
    exists files'. by split.
  - apply answer_inv in Hrun as ([] & w & Hsync & [= <- <-]); [|done].
    destruct (step_sim mode disk_faults completed Hperm log_faults (mount k) (EFsync ino) w files Hs Hf) as (files' & Hflat & Hs' & Hsound'); [by constructor|].
    exists files'. by split.
  - injection Hrun as <- <-. by exists files.
Qed.

(** C18 The kernel sees flat files. Whatever requests about open files the kernel sends,
    as long as none is answered with an error, the replies are those of flat files that
    apply every write at once: all the bytes written, the bytes in the range read; and
    the files the mount shows at the end are those flat files. *)
Theorem kernel_sees_flat_files k l k' files : sound (mount k) -> shows (mount k) files -> served k l k' ->
  exists files', flat_served files l = Some files' /\ shows (mount k') files' /\ sound (mount k').
Proof.
  intros Hs Hf Hserved. revert files Hs Hf. induction Hserved as [k|k req r k1 l k2 Hin Hrun Hno Hserved IH]; intros files Hs Hf; [by exists files|].
  destruct (serve_sim req k r k1 files Hs Hf Hin Hrun Hno) as (files1 & Hflat & Hf1 & Hs1). simpl. rewrite Hflat. by apply IH.
Qed.

End Files.
End KernelFacts.
