(* ===== verification/KernelExample.v ===== *)
(** * The kernel and a small mount

    Requests to the mount of [MountExample], on which the theorems of [KernelProps] are
    applied; and a rename that replaces what it was told not to. *)
From S2P Require Import Prelude Core Crypto ObjectStore Repository Locks Server Nodes BlockCache WriteLog Mount MountFacts MountRecovery FakeClient MountExample Kernel KernelProps.

Module KernelExample.
Import Client Mount MountSpec MountFacts Recovery FakeClient MountExample DiscordFs KernelFacts.

(** Two entries fit a reply. *)
Definition two_fit (added : list DirReply) (_ : DirReply) : bool := bool_decide (2 <= length added)%nat.
Abbreviation serve := (DiscordFs.serve stream no_faults healthy id two_fit 5 0).
Definition start : Kernel (S := FakeClient) := {| mount := opened; table := HandleTable.new |}.

Definition opening : Kernel (S := FakeClient) := (serve (KOpen 2 2) start).2.
Definition writing : Kernel (S := FakeClient) := (serve (KWrite 2 3 [x61; x62]) opening).2.
Definition syncing : Kernel (S := FakeClient) := (serve (KFlush 2) writing).2.
Definition session : list (Request * Reply) :=
  [(KOpen 2 2, ROpened 1); (KWrite 2 3 [x61; x62], RWritten 2); (KFlush 2, ROk); (KRelease 1, ROk)].

Lemma step_of req k r : (serve req k).1 = Some r -> serve req k = (Some r, (serve req k).2).
Proof. intros Hr. destruct (serve req k) as [r0 k0]. simpl in *. by subst. Qed.
Lemma session_served : served stream no_faults healthy id two_fit 5 0 start session (serve (KRelease 1) syncing).2.
Proof.
  econstructor; [exact I|apply step_of; vm_compute; reflexivity|done|].
  econstructor; [|apply step_of; vm_compute; reflexivity|done|].
  { split; [vm_compute; by eexists|]. split; [done|]. split; vm_compute; reflexivity. }
  econstructor; [vm_compute; by eexists|apply step_of; vm_compute; reflexivity|done|].
  econstructor; [exact I|apply step_of; vm_compute; reflexivity|done|constructor].
Qed.

Lemma kernel_sees_flat_files_witness : exists files',
  flat_served known_files session = Some files' /\ shows (mount (serve (KRelease 1) syncing).2) files' /\
  files' !! 2 = Some [x00; x00; x00; x61; x62].
Proof.
  destruct (kernel_sees_flat_files stream no_faults healthy id two_fit 5 0 ltac:(done) start session _ known_files
    opened_sound opened_shows session_served) as (files' & Hf & Hs & _).
  exists files'. split; [exact Hf|]. split; [exact Hs|].
  assert (Hflat : (files' ← flat_served known_files session; files' !! 2) = Some [x00; x00; x00; x61; x62]) by (vm_compute; reflexivity).
  rewrite Hf in Hflat. exact Hflat.
Defined.

Lemma handles_are_distinct_witness : exists h s', HandleTable.open 9 true (HandleTable.open 8 false HandleTable.new).2 = (h, s') /\
  HandleTable.get h (HandleTable.open 8 false HandleTable.new).2 = None /\ HandleTable.get 1 s' = HandleTable.get 1 (HandleTable.open 8 false HandleTable.new).2.
Proof.
  do 2 eexists. split; [reflexivity|].
  destruct (handles_are_distinct 1 (HandleTable.open 8 false HandleTable.new).2 9 true ltac:(repeat constructor) ltac:(vm_compute; reflexivity))
    as (Hnew & _ & Hothers). split; [exact Hnew|]. apply Hothers. done.
Defined.

(** [RENAME_NOREPLACE] is 1. *)
Definition with_two : Kernel (S := FakeClient) := (serve (KCreate 1 [x67] 420 0 0) start).2.
Lemma noreplace_replaces :
  (serve (KLookup 1 [x66]) with_two).1 <> (serve (KLookup 1 [x67]) with_two).1 /\
  (serve (KRename 1 [x67] 1 [x66] 1) with_two).1 = Some ROk /\
  (serve (KLookup 1 [x67]) (serve (KRename 1 [x67] 1 [x66] 1) with_two).2).1 = Some (RError 2).
Proof. split; [vm_compute; discriminate|]. split; vm_compute; reflexivity. Qed.

End KernelExample.
