(* ===== verification/HttpClient.v ===== *)
(** * The mount's HTTP client

    Models [src/crates/dcfs-fuse/src/client.rs]: [send_retrying] and the requests of
    [HttpClient], over a network that loses requests and answers, talking to the
    handlers of the server ([Nodes], [Data]) through the routes of [lib.rs]. A response is
    its status and its typed body: JSON and base64 carry the values they are given. The
    client is let in ([Auth] has the check). What a GET leaves behind in the object
    store is not kept. *)
From stdpp Require Import pretty.
From S2P Require Import Prelude Core Crypto ObjectStore Repository Locks Server Data Nodes BlockCache WriteLog Mount.

Module HttpClient.
Import Nodes Client.

#[global] Instance ErrorCode_eq_dec : EqDecision AppErrors.ErrorCode.
Proof. solve_decision. Defined.

(** What becomes of one attempt: the server's answer arrives, it arrives without its
    body, the request or the answer is lost, or something on the way answers with a
    status of its own. *)
Inductive Fate : Type :=
| Answered
| Cut
| RequestLost
| AnswerLost
| Turned (status : Z).

(** A response: a status, the body of a success, the code of a failure. *)
Record Response (A : Type) : Type := { r_status : Z; r_body : option A; r_code : option AppErrors.ErrorCode }.
Arguments Build_Response {A}.
Arguments r_status {A}.
Arguments r_body {A}.
Arguments r_code {A}.

(** What the server sends back for a handler's result; one that panics drops the
    connection. *)
Definition respond {A} (success : A -> Z) (r : result (fault AppErrors.AppError) A) : option (Response A) :=
  match r with
  | Ok a => Some {| r_status := success a; r_body := Some a; r_code := None |}
  | Err (Fail e) => Some {| r_status := AppErrors.status e; r_body := None; r_code := Some (AppErrors.code e) |}
  | Err Panic => None
  end.
Definition without_body {A} (resp : Response A) : Response A :=
  {| r_status := r_status resp; r_body := None; r_code := None |}.

(** [resp.status().is_server_error()], or 429, or no response at all. *)
Definition must_wait {A} (outcome : option (Response A)) : bool :=
  match outcome with
  | Some resp => (500 <=? r_status resp) && (r_status resp <? 600) || (r_status resp =? 429)
  | None => true
  end.

Definition unexpected {A} (status : Z) : result ClientError A := Err (Http ("HTTP " +:+ pretty status)).
(** [resp.json()], and [resp.bytes()]. *)
Definition body_of {A} (resp : Response A) : result ClientError A :=
  match r_body resp with Some a => Ok a | None => Err (Http "error decoding response body") end.

(** [MAX_WRITE_BYTES] and the limit on the write route. *)
Definition MAX_WRITE_BYTES : Z := 64 * 1024 * 1024.

Section Client.
Context `{Aead} `{HashOrder} {S : Type} `{Store.ObjectStore S} (state : AppState.Config) (sched : nat -> nat).
Abbreviation Server := (AppState.World S).

(** [net t lane k] is what becomes of the [k]-th attempt of the request made at time [t];
    requests that are under way together are told apart by their lane. *)
Context (net : nat -> Z -> nat -> Fate) (max_attempts : nat).
(** What the server does between two requests. *)
Context (idle : Server -> Server).

(** The server behind the client, and how many requests were made. *)
Record t : Type := { server : Server; time : nat }.

(** [build().send().await]: [None] is no response. *)
Definition attempt {A} (handler : AppState.M S A) (success : A -> Z) (fate : Fate) (s : Server)
    : option (Response A) * Server :=
  match fate with
  | RequestLost => (None, s)
  | Turned status => (Some {| r_status := status; r_body := None; r_code := None |}, s)
  | Answered => let '(r, s') := handler s in (respond success r, s')
  | Cut => let '(r, s') := handler s in (without_body <$> respond success r, s')
  | AnswerLost => let '(_, s') := handler s in (None, s')
  end.

(** The last try of [send_retrying]. *)
Definition last_try {A} (handler : AppState.M S A) (success : A -> Z) (fate : Fate) (retried : bool)
    (s : Server) : result ClientError (Response A * bool) * Server :=
  match attempt handler success fate s with
  | (Some resp, s') => (Ok (resp, retried), s')
  | (None, s') => (Err (Http "error sending request"), s')
  end.

(** Its loop from attempt [k] on, with [left] of them to go, and then the last try. *)
Fixpoint retry_from {A} (handler : AppState.M S A) (success : A -> Z) (fates : nat -> Fate) (left k : nat)
    (retried : bool) (s : Server) : result ClientError (Response A * bool) * Server :=
  match left with
  | O => last_try handler success (fates k) retried s
  | Datatypes.S left' =>
      let '(outcome, s') := attempt handler success (fates k) s in
      match outcome with
      | Some resp =>
          if must_wait outcome
          then retry_from handler success fates left' (Datatypes.S k) (negb (left' =? 0)%nat || retried) s'
          else (Ok (resp, retried), s')
      | None => retry_from handler success fates left' (Datatypes.S k) (negb (left' =? 0)%nat || retried) s'
      end
  end.

Definition send_retrying {A} (handler : AppState.M S A) (success : A -> Z) (lane : Z) (c : t)
    : result ClientError (Response A * bool) * Server :=
  retry_from handler success (net (time c) lane) max_attempts 0 false (server c).

Definition next (c : t) (s : Server) : t := {| server := s; time := Datatypes.S (time c) |}.
Definition ok_status {A} : A -> Z := fun _ => 200.

(** A request, what its response means, and whether it was retried. *)
Definition exchange {A B} (handler : AppState.M S A) (success : A -> Z) (lane : Z)
    (meaning : Response A -> bool -> result ClientError B) (c : t) : result ClientError B * t :=
  match send_retrying handler success lane c with
  | (Ok (resp, retried), s) => (meaning resp retried, next c s)
  | (Err e, s) => (Err e, next c s)
  end.
(** A GET. *)
Definition fetch {A B} (handler : AppState.M S A) (success : A -> Z) (lane : Z)
    (meaning : Response A -> result ClientError B) (c : t) : result ClientError B :=
  (exchange handler success lane (fun resp _ => meaning resp) c).1.

(** [match resp.status().as_u16()] with the arms most requests share. *)
Definition or_not_found {A B} (resp : Response A) (other : result ClientError B) : result ClientError B :=
  let status := r_status resp in
  if (status =? 401) || (status =? 403) then Err Unauthorized
  else if status =? 404 then Err NotFound else other.
Definition json_or_not_found {A} (resp : Response A) : result ClientError A :=
  if r_status resp =? 200 then body_of resp else or_not_found resp (unexpected (r_status resp)).

Definition http_fs_info : t -> result ClientError Z :=
  fetch (get_fs_info state) ok_status 0 (fun resp =>
    if r_status resp =? 200 then body_of resp
    else if (r_status resp =? 401) || (r_status resp =? 403) then Err Unauthorized
    else unexpected (r_status resp)).
Definition http_get_node (id : Uuid) : t -> result ClientError NodeResponse :=
  fetch (Nodes.get_node id) ok_status 0 json_or_not_found.
Definition http_get_node_by_path (path : bytes) : t -> result ClientError NodeResponse :=
  fetch (resolve_path path) ok_status 0 json_or_not_found.
Definition http_find_child (parent : Uuid) (name : bytes) : t -> result ClientError NodeResponse :=
  fetch (lookup_child parent name) ok_status 0 json_or_not_found.
Definition http_list_children (parent : Uuid) (limit offset : option Z) (c : t) : result ClientError (list NodeResponse) :=
  page ← fetch (Nodes.list_children parent limit offset) ok_status 0 json_or_not_found c;
  mret page.1.

(** The status of a read is its own, and so is the header [x-dfs-committed]. *)
Definition data_status (a : Z * bool * bytes) : Z := a.1.1.
Definition http_read_file_cacheable (id : Uuid) (offset size : Z) : t -> result ClientError (bytes * bool) :=
  fetch (Data.read_data state sched id (Some offset) (Some size)) data_status offset (fun resp =>
    if r_status resp =? 200 then (a ← body_of resp; mret (a.2, a.1.2))
    else or_not_found resp (unexpected (r_status resp))).
Definition http_read_file (id : Uuid) (offset size : Z) : t -> result ClientError bytes :=
  fetch (Data.read_data state sched id (Some offset) (Some size)) data_status offset (fun resp =>
    if r_status resp =? 200 then (a ← body_of resp; mret a.2)
    else or_not_found resp (unexpected (r_status resp))).

Definition http_create_node (req : CreateNodeRequest) (c : t) : result ClientError NodeResponse * t :=
  match send_retrying (Nodes.create_node req) fst 0 c with
  | (Err e, s) => (Err e, next c s)
  | (Ok (resp, retried), s) =>
      let status := r_status resp in
      let c' := next c s in
      if (status =? 201) || (status =? 200) then (a ← body_of resp; mret a.2, c')
      else if (status =? 401) || (status =? 403) then (Err Unauthorized, c')
      else if status =? 409 then
        if retried then
          match http_get_node (cn_idempotency_key req) c' with
          | Ok node => (if bool_decide (nr_name node = cn_name req) then Ok node else Err AlreadyExists, next c' s)
          | Err _ => (Err AlreadyExists, next c' s)
          end
        else (Err AlreadyExists, c')
      else if status =? 400 then (Err InvalidName, c')
      else (unexpected status, c')
  end.

Definition http_patch_node (id : Uuid) (req : PatchNodeRequest) : t -> result ClientError NodeResponse * t :=
  exchange (Nodes.patch_node id req) ok_status 0 (fun resp _ =>
    if r_status resp =? 200 then body_of resp
    else or_not_found resp (if r_status resp =? 409 then Err (Conflict "conflict") else unexpected (r_status resp))).

Definition http_rename_node (id : Uuid) (req : RenameNodeRequest) : t -> result ClientError NodeResponse * t :=
  exchange (Nodes.rename_node id req) ok_status 0 (fun resp _ =>
    if r_status resp =? 200 then body_of resp
    else or_not_found resp
      (if r_status resp =? 409 then
         if bool_decide (r_code resp = Some AppErrors.DirectoryNotEmpty) then Err DirectoryNotEmpty else Err AlreadyExists
       else unexpected (r_status resp))).

Definition http_delete_node (id : Uuid) : t -> result ClientError unit * t :=
  exchange (Nodes.delete_node id) (fun status => status) 0 (fun resp retried =>
    let status := r_status resp in
    if (status =? 204) || (status =? 200) then Ok tt
    else if (status =? 401) || (status =? 403) then Err Unauthorized
    else if status =? 404 then if retried then Ok tt else Err NotFound
    else if status =? 409 then Err DirectoryNotEmpty
    else unexpected status).

(** The write route, behind its body limit. *)
Definition write_route (id : Uuid) (offset : Z) (data : bytes) : AppState.M S (Z * string) :=
  if MAX_WRITE_BYTES <? len data
  then AppState.fail {| AppErrors.status := 413; AppErrors.code := AppErrors.InvalidRequest;
                        AppErrors.message := "length limit exceeded" |}
  else Data.write_data state id (Some offset) data.
Definition http_write_file (id : Uuid) (offset : Z) (data : bytes) : t -> result ClientError Z * t :=
  exchange (write_route id offset data) fst 0 (fun resp _ =>
    if (r_status resp =? 200) || (r_status resp =? 204) then Ok (len data)
    else or_not_found resp (unexpected (r_status resp))).

Definition http_sync_file (id : Uuid) : t -> result ClientError unit * t :=
  exchange (Data.sync_node id) (fun status => status) 0 (fun resp _ =>
    if (r_status resp =? 200) || (r_status resp =? 204) then Ok tt
    else or_not_found resp (unexpected (r_status resp))).

Definition http_client : ServerClient t := {|
  tick c := next c (idle (server c));
  fs_info := http_fs_info;
  get_node := http_get_node;
  get_node_by_path := http_get_node_by_path;
  find_child := http_find_child;
  list_children := http_list_children;
  read_file := http_read_file;
  read_file_cacheable := http_read_file_cacheable;
  create_node := http_create_node;
  patch_node := http_patch_node;
  rename_node := http_rename_node;
  delete_node := http_delete_node;
  write_file := http_write_file;
  sync_file := http_sync_file;
|}.

End Client.
End HttpClient.
