(* ===== verification/HttpProps.v ===== *)
(** * The mount over HTTP

    [HttpClient] over the server's handlers keeps what the mount relies on
    ([MountSpec.ClientLaws]), however the network loses requests and answers; so the
    mount's theorems hold for the mount, the client and the server together. *)
From stdpp Require Import pretty.
From S2P Require Import Prelude Core Crypto ObjectStore Repository Locks Server Data DataSpec DataWrite DataRead Example DataProps Nodes BlockCache WriteLog Mount MountFacts MountRecovery HttpClient.

Module HttpFacts.
Import Records MemoryRepo AppState Spec SpecFacts ReadFacts Client HttpClient.

(** *** Sending *)

Section Send.
Context {S A : Type} (handler : M S A) (success : A -> Z).
Context (made_up : Z -> Prop).
Implicit Types (s : World S) (P : World S -> Prop).

(** A response is one the network made up, or what the handler answered on the state the
    earlier attempts left. *)
Definition answers P (status : Z) (body : option A) (code : option AppErrors.ErrorCode) s' : Prop :=
  exists s0 r, P s0 /\ handler s0 = (r, s') /\
    match r with
    | Ok a => status = success a /\ (body = None \/ body = Some a)
    | Err (Fail e) => status = AppErrors.status e /\ body = None /\ (code = None \/ code = Some (AppErrors.code e))
    | Err Panic => False
    end.
Definition response_ok P (resp : Response A) s' : Prop :=
  P s' /\ ((made_up (r_status resp) /\ r_body resp = None /\ r_code resp = None) \/
    answers P (r_status resp) (r_body resp) (r_code resp) s').

Lemma attempt_spec P fate s :
  (forall status, fate = Turned status -> made_up status) ->
  (forall s, P s -> P (handler s).2) -> P s ->
  match attempt handler success fate s with
  | (Some resp, s') => response_ok P resp s'
  | (None, s') => P s'
  end.
Proof.
  intros Hfate HP Hs. unfold attempt, response_ok. specialize (HP s Hs) as Hs'.
  destruct fate as [| | | |status]; try done; [| | |simpl; split; [done|left; eauto]].
  all: destruct (handler s) as [r s'] eqn:Hr; try done; destruct r as [a|[e|]]; simpl; try done.
  all: split; [done|]; right; exists s; eexists; split; [done|]; split; [done|]; cbn; eauto.
Qed.

Lemma retry_from_spec P fates left k retried s :
  (forall j status, fates j = Turned status -> made_up status) ->
  (forall s, P s -> P (handler s).2) -> P s ->
  match retry_from handler success fates left k retried s with
  | (Ok (resp, _), s') => response_ok P resp s'
  | (Err e, s') => P s' /\ e = Http "error sending request"
  end.
Proof.
  intros Hf HP. revert k retried s. induction left as [|left IH]; intros k retried s Hs; simpl.
  - unfold last_try. pose proof (attempt_spec P (fates k) s (Hf k) HP Hs) as Ha.
    by destruct (attempt _ _ _ _) as [[resp|] s'].
  - pose proof (attempt_spec P (fates k) s (Hf k) HP Hs) as Ha.
    destruct (attempt _ _ _ _) as [[resp|] s'].
    + destruct (must_wait (Some resp)); [|done]. apply IH. apply Ha.
    + by apply IH.
Qed.

End Send.

(** Whatever is not one of the expected statuses is an error. *)
Lemma or_not_found_err {A B} (resp : Response A) m (out : B) : or_not_found resp (unexpected m) <> Ok out.
Proof. unfold or_not_found, unexpected. by repeat case_match. Qed.

(** A node that is returned is the one the server has. *)
Lemma http_get_node_found `{HashOrder} {S} net max_attempts id (c : t (S := S)) node :
  (forall t lane k status, net t lane k = Turned status -> 400 <= status) ->
  http_get_node net max_attempts id c = Ok node ->
  exists n, nodes (repo (server c)) !! id = Some n /\ node = Nodes.node_to_response n.
Proof.
  intros Hhonest Hget. unfold http_get_node, fetch, exchange, send_retrying in Hget.
  pose proof (retry_from_spec (Nodes.get_node id) ok_status (Z.le 400) (fun s => s = server c) (net (time c) 0)
    max_attempts 0 false (server c) (fun j st => Hhonest _ _ j st)) as Hs.
  destruct (retry_from _ _ _ _ _ _ _) as [[[resp retried]|e] s']; [|done]. cbn [fst] in Hget.
  unfold json_or_not_found, body_of in Hget.
  destruct (Z.eqb_spec (r_status resp) 200); [|by apply or_not_found_err in Hget].
  destruct Hs as [_ [[? _]|(s0 & r & -> & Hr & Hm)]]; [|done|lia|].
  - intros s ->. unfold Nodes.get_node, mbind, M_bind, query, MemoryRepo.get_node.
    by destruct (nodes (repo (server c)) !! id).
  - unfold Nodes.get_node, mbind, M_bind, query, MemoryRepo.get_node in Hr.
    destruct (nodes (repo (server c)) !! id) as [n|]; simpl in Hr; injection Hr as <- <-.
    + exists n. split; [done|]. destruct Hm as [_ [Hb|Hb]]; rewrite Hb in Hget; [done|by injection Hget].
    + destruct Hm as (_ & Hb & _). by rewrite Hb in Hget.
Qed.

(** *** What the server holds *)

Section Server.
Context `{AL : AeadLaws} `{HO : HashOrder} {S : Type} `{OL : Store.ObjectStoreLaws S} (state : Config).
Context (sched : nat -> nat).
Hypothesis chunk_ok : chunk_fits (chunk_size state).
Hypothesis parallel_ok : 1 <= parallel_chunk_fetches state.
Implicit Types s : World S.

(** The bytes of a file: what a read of the whole of it returns. *)
Definition file_bytes s (id : Uuid) : option bytes :=
  n ← nodes (repo s) !! id;
  match (Data.read_bytes state sched id None None s).1 with
  | Ok (b, _) => if n_size n =? len b then Some b else None
  | Err _ => None
  end.

(** A symbolic link has a size and no content. *)
Definition is_link s (id : Uuid) (n : NodeRecord) : Prop :=
  0 < n_size n /\ n_current_version_id n = None /\ forall v, ~ open_version (repo s) id v.
(** What is not a directory is a file or a link. *)
Definition consistent s : Prop :=
  Inv s /\ forall id n, nodes (repo s) !! id = Some n -> n_kind n <> "directory"%string ->
    is_link s id n \/ exists data, Repr state (repo s) (objs s) id data.

Lemma directory_has_no_bytes s id n :
  nodes (repo s) !! id = Some n -> n_kind n = "directory"%string -> file_bytes s id = None.
Proof.
  intros Hn Hd. unfold file_bytes, Data.read_bytes. rewrite Hn. simpl.
  erewrite bind_Ok; [|unfold query, MemoryRepo.get_node; by rewrite Hn]. by rewrite bool_decide_true.
Qed.

Lemma link_has_no_bytes s id n :
  keyed (repo s) -> nodes (repo s) !! id = Some n -> n_kind n <> "directory"%string -> is_link s id n ->
  file_bytes s id = None.
Proof.
  intros Hk Hn Hd (Hsz & Hcur & Hopen). unfold file_bytes, Data.read_bytes. rewrite Hn. simpl.
  erewrite bind_Ok; [|unfold query, MemoryRepo.get_node; by rewrite Hn].
  rewrite bool_decide_false by done. cbn [default]. rewrite Z.max_l by lia.
  destruct (Z.leb_spec (n_size n) 0); [lia|]. cbn [default]. rewrite Z.sub_0_r, Z.min_id.
  destruct (Z.eqb_spec (n_size n) 0); [lia|].
  erewrite bind_Ok by reflexivity. rewrite find_open_none, Hcur by done. simpl. rewrite len_nil.
  by destruct (Z.eqb_spec (n_size n) 0).
Qed.

Lemma file_bytes_repr s id b : consistent s -> file_bytes s id = Some b <-> Repr state (repo s) (objs s) id b.
Proof.
  intros [HI Hall]. unfold file_bytes.
  assert (Hread : forall data, Repr state (repo s) (objs s) id data ->
    exists s' c, Data.read_bytes state sched id None None s = (Ok (data, c), s')).
  { intros data HR. destruct (read_bytes_ok state parallel_ok s sched id data None None HI HR) as (s' & c & Hr & _);
      [done..|]. exists (set_store s s'), c. rewrite Hr. do 3 f_equal. apply slice_all. }
  split.
  - destruct (nodes (repo s) !! id) as [n|] eqn:Hn; [|done]. cbn [mbind option_bind].
    destruct (decide (n_kind n = "directory"%string)) as [Hd|Hd].
    { pose proof (directory_has_no_bytes s id n Hn Hd) as Hno. unfold file_bytes in Hno.
      rewrite Hn in Hno. cbn [mbind option_bind] in Hno. by rewrite Hno. }
    destruct (Hall id n Hn Hd) as [Hl|[data HR]].
    + pose proof (link_has_no_bytes s id n (proj1 HI) Hn Hd Hl) as Hno. unfold file_bytes in Hno.
      rewrite Hn in Hno. cbn [mbind option_bind] in Hno. by rewrite Hno.
    + destruct (Hread data HR) as (s' & c & ->). simpl. destruct (_ =? _); [|done]. by intros [= ->].
  - intros HR. destruct (Hread b HR) as (s' & c & ->). pose proof HR as [_ (n & -> & _ & Hsz & _)]. simpl.
    by rewrite Hsz, Z.eqb_refl.
Qed.

(** An operation on one file leaves the others alone. *)
Lemma consistent_touches s s' id data :
  consistent s -> Inv s' -> touches id s s' -> Repr state (repo s') (objs s') id data ->
  consistent s' /\ file_bytes s' id = Some data /\ forall id', id' <> id -> file_bytes s' id' = file_bytes s id'.
Proof.
  intros Hc HI' Ht HR. pose proof Hc as [HI Hall].
  assert (Hcases : forall id' n, id' <> id -> nodes (repo s') !! id' = Some n -> n_kind n <> "directory"%string ->
    (is_link s id' n /\ is_link s' id' n) \/ exists data,
      Repr state (repo s) (objs s) id' data /\ Repr state (repo s') (objs s') id' data).
  { intros id' n Hne Hn Hd. rewrite (t_nodes _ _ _ Ht) in Hn by done. destruct (Hall id' n Hn Hd) as [Hl|[d' HR']].
    - left. split; [done|]. destruct Hl as (? & ? & Hopen). split; [done|]. split; [done|].
      intros v (Hv & Hid & Hst). apply (Hopen v). split_and!; try done. apply (t_versions _ _ _ Ht); congruence.
    - right. exists d'. split; [done|]. by apply (Repr_frame state s s' id). }
  assert (Hc' : consistent s').
  { split; [done|]. intros id' n Hn Hd. destruct (decide (id' = id)) as [->|Hne]; [eauto|].
    destruct (Hcases id' n Hne Hn Hd) as [[_ Hl]|(d' & _ & HR')]; eauto. }
  split; [done|]. split; [by apply file_bytes_repr|]. intros id' Hne.
  destruct (nodes (repo s') !! id') as [n|] eqn:Hn.
  2: { unfold file_bytes. rewrite <-(t_nodes _ _ _ Ht) by done. by rewrite Hn. }
  destruct (decide (n_kind n = "directory"%string)) as [Hd|Hd].
  { rewrite (directory_has_no_bytes s' id' n Hn Hd). rewrite (t_nodes _ _ _ Ht) in Hn by done.
    by rewrite (directory_has_no_bytes s id' n Hn Hd). }
  destruct (Hcases id' n Hne Hn Hd) as [[Hl Hl']|(d' & HR1 & HR2)].
  - rewrite (link_has_no_bytes s' id' n (proj1 HI') Hn Hd Hl'). rewrite (t_nodes _ _ _ Ht) in Hn by done.
    by rewrite (link_has_no_bytes s id' n (proj1 HI) Hn Hd Hl).
  - apply (file_bytes_repr s id' d' Hc) in HR1 as ->. by apply file_bytes_repr.
Qed.

Lemma consistent_store s (s' : S) :
  consistent s -> Store.keeps s' (objs s) ->
  consistent (set_store s s') /\ forall id, file_bytes (set_store s s') id = file_bytes s id.
Proof.
  intros Hc [Hsd Ho]. assert (Heq : objs (set_store s s') = objs s) by done.
  assert (Hc' : consistent (set_store s s')).
  { destruct Hc as [[Hk [Hinj Hf _]] Hall]. split; [split; [done|]; split; [done| |done]|].
    - intros n Hn. rewrite Heq. by apply Hf.
    - intros id n Hn Hd. rewrite Heq. by apply (Hall id n). }
  split; [done|]. intros id. apply option_eq. intros b. by rewrite !file_bytes_repr, Heq by done.
Qed.

(** *** The handlers on a consistent server *)

Lemma write_route_ok s id b offset data :
  consistent s -> file_bytes s id = Some b -> 0 <= offset -> offset + len data < 2 ^ 62 -> len data <= MAX_WRITE_BYTES ->
  exists m s', write_route state id offset data s = (Ok (200, m), s') /\
    consistent s' /\ file_bytes s' id = Some (write_flat b offset data) /\
    forall id', id' <> id -> file_bytes s' id' = file_bytes s id'.
Proof.
  intros Hc Hb Hoff Hend Hmax. unfold write_route. destruct (Z.ltb_spec MAX_WRITE_BYTES (len data)); [lia|].
  apply file_bytes_repr in Hb; [|done]. pose proof Hc as [HI _]. unfold Data.write_data. cbn [default].
  destruct (DataProps.write_bytes_ok state s id b offset data chunk_ok HI Hb Hoff Hend) as (s' & Hw & HI' & Ht & HR).
  eexists _, s'. erewrite bind_Ok by exact Hw. split; [reflexivity|]. by apply (consistent_touches s s' id).
Qed.

Lemma write_route_spec s id b offset data :
  consistent s -> file_bytes s id = Some b -> 0 <= offset -> offset + len data < 2 ^ 62 ->
  match write_route state id offset data s with
  | (Ok a, s') => a.1 = 200 /\ consistent s' /\ file_bytes s' id = Some (write_flat b offset data) /\
      forall id', id' <> id -> file_bytes s' id' = file_bytes s id'
  | (Err (Fail e), s') => s' = s /\ 400 <= AppErrors.status e
  | (Err Panic, _) => False
  end.
Proof.
  intros Hc Hb Hoff Hend. destruct (Z.le_gt_cases (len data) MAX_WRITE_BYTES) as [Hle|Hgt].
  - by destruct (write_route_ok s id b offset data Hc Hb Hoff Hend Hle) as (m & s' & -> & ?).
  - unfold write_route. by destruct (Z.ltb_spec MAX_WRITE_BYTES (len data)); [|lia].
Qed.

Lemma sync_node_spec s id b :
  consistent s -> file_bytes s id = Some b ->
  exists s', Data.sync_node id s = (Ok 204, s') /\ consistent s' /\
    (forall id', file_bytes s' id' = file_bytes s id') /\ forall v, ~ open_version (repo s') id v.
Proof.
  intros Hc Hb. pose proof Hb as HR. apply file_bytes_repr in HR; [|done]. pose proof Hc as [HI _].
  destruct (DataProps.commit_node_ok state s id b HI HR) as (s' & Hw & HI' & Ht & HR' & Hno).
  exists s'. unfold Data.sync_node. erewrite bind_Ok by exact Hw. split; [done|].
  destruct (consistent_touches s s' id b Hc HI' Ht HR') as (Hc' & Hb' & Hothers). split; [done|].
  split; [|done]. intros id'. destruct (decide (id' = id)) as [->|Hne]; [congruence|by apply Hothers].
Qed.

Lemma read_data_spec s id b offset size :
  consistent s -> file_bytes s id = Some b -> 0 <= offset -> 0 <= size ->
  exists s' c, Data.read_data state sched id (Some offset) (Some size) s
      = (Ok (200, c, slice b offset (offset + size)), s') /\
    consistent s' /\ forall id', file_bytes s' id' = file_bytes s id'.
Proof.
  intros Hc Hb Hoff Hsize. apply file_bytes_repr in Hb; [|done]. pose proof Hc as [HI _].
  destruct (read_bytes_ok state parallel_ok s sched id b (Some offset) (Some size) HI Hb) as (s' & c & Hr & Ho & _);
    [by intros ? [= <-]..|].
  exists (set_store s s'), c. unfold Data.read_data. erewrite bind_Ok by exact Hr. split; [|by apply consistent_store].
  assert (Heq : read_flat b (Some offset) (Some size) = slice b offset (offset + size)).
  2: { cbn [fst snd]. by rewrite Heq. }
  unfold read_flat. cbn [default from_option]. unfold Datatypes.id. destruct (MountFacts.slice_clip b offset size Hoff Hsize) as [-> _].
  unfold saturating_sub. destruct (Z.le_ge_cases offset (len b)); [f_equal; lia|]. rewrite !slice_empty by lia. done.
Qed.

End Server.

(** *** The laws *)

Section Laws.
Context `{AL : AeadLaws} `{HO : HashOrder} {S : Type} `{OL : Store.ObjectStoreLaws S} (state : Config).
Context (sched : nat -> nat) (net : nat -> Z -> nat -> Fate) (max_attempts : nat) (idle : World S -> World S).

(** Parts that fit the manifest's columns; whatever answers in the server's place
    reports an error; and what happens at the server between requests loses nothing. *)
Record reachable_server : Prop := {
  rs_chunk : chunk_fits (chunk_size state);
  rs_parallel : 1 <= parallel_chunk_fetches state;
  rs_honest : forall t lane k status, net t lane k = Turned status -> 400 <= status;
  rs_idle : forall s, consistent state s -> consistent state (idle s) /\
    forall id, file_bytes state sched (idle s) id = file_bytes state sched s id;
}.
Hypothesis reachable : reachable_server.
Implicit Types (c : t (S := S)) (s : World S).

Lemma write_flat_twice b offset data :
  0 <= offset -> write_flat (write_flat b offset data) offset data = write_flat b offset data.
Proof.
  intros Hoff. destruct (decide (data = [])) as [->|Hd]; [by rewrite !write_flat_nil|].
  apply getb_ext; [rewrite !len_write_flat by done; lia|]. intros i _. rewrite !getb_write_flat by done.
  by destruct (_ && _).
Qed.

(** A write that was sent any number of times is there once, or not at all. *)
Lemma http_write_spec id offset data c b :
  consistent state (server c) -> file_bytes state sched (server c) id = Some b ->
  0 <= offset -> data <> [] -> offset + len data < 2 ^ 62 ->
  let '(r, c') := http_write_file state net max_attempts id offset data c in
  consistent state (server c') /\
  (forall id', id' <> id -> file_bytes state sched (server c') id' = file_bytes state sched (server c) id') /\
  match r with
  | Ok n => n = len data /\ file_bytes state sched (server c') id = Some (write_flat b offset data)
  | Err _ => file_bytes state sched (server c') id = Some b \/
             file_bytes state sched (server c') id = Some (write_flat b offset data)
  end.
Proof.
  destruct reachable as [Hchunk Hpar Hhonest _]. intros Hc Hb Hoff Hd Hend.
  set (P s := consistent state s /\
    (forall id', id' <> id -> file_bytes state sched s id' = file_bytes state sched (server c) id') /\
    (file_bytes state sched s id = Some b \/ file_bytes state sched s id = Some (write_flat b offset data))).
  assert (Hstep : forall s, P s -> match write_route state id offset data s with
    | (Ok a, s') => a.1 = 200 /\ P s' /\ file_bytes state sched s' id = Some (write_flat b offset data)
    | (Err (Fail e), s') => s' = s /\ 400 <= AppErrors.status e
    | (Err Panic, _) => False end).
  { intros s (Hcs & Hothers & Hbs). assert (Hcur : exists b', file_bytes state sched s id = Some b' /\
      write_flat b' offset data = write_flat b offset data).
    { destruct Hbs as [Hbs|Hbs]; [by exists b|]. eexists. split; [exact Hbs|]. by apply write_flat_twice. }
    destruct Hcur as (b' & Hb' & Hw).
    pose proof (write_route_spec state sched Hchunk Hpar s id b' offset data Hcs Hb' Hoff Hend) as Hr.
    destruct (write_route _ _ _ _ _) as [[a|[e|]] s']; try done. rewrite Hw in Hr.
    destruct Hr as (? & ? & ? & Ho). split; [done|]. split; [|done]. split; [done|]. split; [|by right].
    intros id' Hne. by rewrite Ho, Hothers. }
  assert (HP : P (server c)) by (split; [done|]; split; [done|by left]).
  assert (Hkeep : forall s, P s -> P (write_route state id offset data s).2).
  { intros s HPs. specialize (Hstep s HPs).
    destruct (write_route _ _ _ _ _) as [[a|[e'|]] s1]; [by apply Hstep|by destruct Hstep as [-> _]|done]. }
  unfold http_write_file, exchange, send_retrying.
  pose proof (retry_from_spec (write_route state id offset data) fst (Z.le 400) P (net (time c) 0) max_attempts 0 false (server c)
    (fun j st => Hhonest _ _ j st) Hkeep HP) as Hs.
  destruct (retry_from _ _ _ _ _ _ _) as [[[resp retried]|e] s']; [|by destruct Hs as [(? & ? & ?) _]].
  destruct Hs as [(Hcs & Hothers & Hbs) Hresp].
  cbn [server next]. split; [done|]. split; [done|].
  destruct (Z.eqb_spec (r_status resp) 200) as [H2|H2], (Z.eqb_spec (r_status resp) 204) as [H4|H4]; cbn [orb].
  4: by unfold or_not_found, unexpected; repeat case_match.
  all: split; [done|]; destruct Hresp as [[? _]|(s0 & r & HP0 & Hr & Hm)]; [lia|].
  all: specialize (Hstep s0 HP0); rewrite Hr in Hstep; destruct r as [a|[e|]]; [apply Hstep|lia|done].
Qed.

Lemma reads_keep id c offset size b :
  consistent state (server c) -> file_bytes state sched (server c) id = Some b -> 0 <= offset -> 0 <= size ->
  match send_retrying net max_attempts (Data.read_data state sched id (Some offset) (Some size)) data_status offset c with
  | (Ok (resp, _), _) => 400 <= r_status resp \/ r_status resp = 200 /\
      forall a, r_body resp = Some a -> a.2 = slice b offset (offset + size)
  | (Err _, _) => True
  end.
Proof.
  destruct reachable as [Hchunk Hpar Hhonest _]. intros Hc Hb Hoff Hsize.
  set (P s := consistent state s /\ file_bytes state sched s id = Some b).
  assert (Hstep : forall s, P s -> exists s' k, Data.read_data state sched id (Some offset) (Some size) s
    = (Ok (200, k, slice b offset (offset + size)), s') /\ P s').
  { intros s [Hcs Hbs]. destruct (read_data_spec state sched Hpar s id b offset size Hcs Hbs Hoff Hsize)
      as (s' & k & Hr & Hcs' & Hbs'). exists s', k. split; [done|]. split; [done|]. by rewrite Hbs'. }
  unfold send_retrying.
  pose proof (retry_from_spec (Data.read_data state sched id (Some offset) (Some size)) data_status (Z.le 400) P (net (time c) offset)
    max_attempts 0 false (server c) (fun j st => Hhonest _ _ j st)) as Hs.
  destruct (retry_from _ _ _ _ _ _ _) as [[[resp retried]|e] s']; [|done].
  destruct Hs as [_ [[? _]|(s0 & r & HP0 & Hr & Hm)]]; [|by split|by left|].
  - intros s HPs. by destruct (Hstep s HPs) as (s1 & k & -> & ?).
  - destruct (Hstep s0 HP0) as (s1 & k & Hr' & _). rewrite Hr in Hr'. injection Hr' as -> ->. right.
    destruct Hm as [Hst Hbody]. split; [done|]. intros a Ha. destruct Hbody as [Hn|Hn]; rewrite Hn in Ha; [done|].
    by injection Ha as <-.
Qed.

Lemma http_read_ok id offset size c out b :
  consistent state (server c) -> file_bytes state sched (server c) id = Some b -> 0 <= offset -> 0 <= size ->
  http_read_file state sched net max_attempts id offset size c = Ok out -> out = slice b offset (offset + size).
Proof.
  intros Hc Hb Hoff Hsize. pose proof (reads_keep id c offset size b Hc Hb Hoff Hsize) as Hr.
  unfold http_read_file, fetch, exchange. destruct (send_retrying _ _ _ _ _ _) as [[[resp ret]|e] s']; [|done].
  cbn [fst]. destruct (Z.eqb_spec (r_status resp) 200); [|by intros ?%or_not_found_err].
  unfold body_of. destruct (r_body resp) as [a|]; [|done]. intros [= <-].
  destruct Hr as [?|[_ Hr]]; [lia|by apply Hr].
Qed.

Lemma http_read_cacheable_ok id offset size c out keep b :
  consistent state (server c) -> file_bytes state sched (server c) id = Some b -> 0 <= offset -> 0 <= size ->
  http_read_file_cacheable state sched net max_attempts id offset size c = Ok (out, keep) ->
  out = slice b offset (offset + size).
Proof.
  intros Hc Hb Hoff Hsize. pose proof (reads_keep id c offset size b Hc Hb Hoff Hsize) as Hr.
  unfold http_read_file_cacheable, fetch, exchange. destruct (send_retrying _ _ _ _ _ _) as [[[resp ret]|e] s']; [|done].
  cbn [fst]. destruct (Z.eqb_spec (r_status resp) 200); [|by intros ?%or_not_found_err].
  unfold body_of. destruct (r_body resp) as [a|]; [|done]. intros [= <- <-].
  destruct Hr as [?|[_ Hr]]; [lia|by apply Hr].
Qed.

Lemma http_get_node_ok id c node b :
  consistent state (server c) -> http_get_node net max_attempts id c = Ok node ->
  file_bytes state sched (server c) id = Some b -> Nodes.nr_id node = id /\ Nodes.nr_size node = len b.
Proof.
  destruct reachable as [Hchunk Hpar Hhonest _]. intros Hc Hget Hb.
  apply file_bytes_repr in Hb as [Hsz (n & Hn & _ & Hlen & _)]; [|done..].
  destruct (http_get_node_found net max_attempts id c node Hhonest Hget) as (n' & Hn' & ->).
  rewrite Hn in Hn'. injection Hn' as <-. simpl. rewrite Hlen. pose proof (len_nonneg b). split; [|by unwrap].
  destruct Hc as [[Hk _] _]. by apply (keyed_nodes _ Hk).
Qed.

(** A sync that was answered left nothing open. *)
Lemma http_sync_spec id c :
  consistent state (server c) -> is_Some (file_bytes state sched (server c) id) ->
  let '(r, c') := http_sync_file net max_attempts id c in
  consistent state (server c') /\
  (forall id', file_bytes state sched (server c') id' = file_bytes state sched (server c) id') /\
  (r = Ok tt -> forall v, ~ open_version (repo (server c')) id v).
Proof.
  destruct reachable as [Hchunk Hpar Hhonest _]. intros Hc [b Hb].
  set (P s := consistent state s /\ forall id', file_bytes state sched s id' = file_bytes state sched (server c) id').
  assert (Hstep : forall s, P s -> exists s', Data.sync_node id s = (Ok 204, s') /\ P s' /\
    forall v, ~ open_version (repo s') id v).
  { intros s [Hcs Hbs]. destruct (sync_node_spec state sched Hpar s id b Hcs ltac:(by rewrite Hbs)) as (s' & Hr & Hcs' & Hbs' & Hno).
    exists s'. split; [done|]. split; [|done]. split; [done|]. intros id'. by rewrite Hbs', Hbs. }
  unfold http_sync_file, exchange, send_retrying.
  pose proof (retry_from_spec (Data.sync_node id) (fun st => st) (Z.le 400) P (net (time c) 0) max_attempts 0 false (server c)
    (fun j st => Hhonest _ _ j st)
    ltac:(intros s HPs; destruct (Hstep s HPs) as (s1 & -> & ? & _); done) ltac:(by split)) as Hs.
  destruct (retry_from _ _ _ _ _ _ _) as [[[resp retried]|e] s']; [|by destruct Hs as [[? ?] _]].
  destruct Hs as [[Hcs Hbs] Hresp]. cbn [server next]. split; [done|]. split; [done|].
  destruct Hresp as [[? _]|(s0 & r & HP0 & Hr & _)].
  - destruct (Z.eqb_spec (r_status resp) 200); [lia|]. destruct (Z.eqb_spec (r_status resp) 204); [lia|].
    cbn [orb]. by intros ?%or_not_found_err.
  - intros _. destruct (Hstep s0 HP0) as (s1 & Hr' & _ & Hno). rewrite Hr in Hr'. by injection Hr' as -> ->.
Qed.

#[local] Instance client : ServerClient (t (S := S)) := http_client state sched net max_attempts idle.

#[local] Program Instance http_laws : MountSpec.ClientLaws (t (S := S)) := {|
  MountSpec.content c id := file_bytes state sched (server c) id;
  MountSpec.valid c := consistent state (server c);
|}.
Next Obligation. intros c Hc. apply (rs_idle reachable (server c) Hc). Qed.
Next Obligation.
  intros id offset data c b Hc Hb Hoff Hd Hend. pose proof (http_write_spec id offset data c b Hc Hb Hoff Hd Hend) as Hw.
  simpl. destruct (http_write_file _ _ _ _ _ _ _) as [r c']. destruct Hw as (? & ? & ?). split; [done|]. split; [done|].
  destruct r; naive_solver.
Qed.
Next Obligation. intros id offset size c out b Hc Hb Hoff Hsize _ Hr. exact (http_read_ok id offset size c out b Hc Hb Hoff Hsize Hr). Qed.
Next Obligation.
  intros id offset size c out keep b Hc Hb Hoff Hsize _ Hr.
  exact (http_read_cacheable_ok id offset size c out keep b Hc Hb Hoff Hsize Hr).
Qed.
Next Obligation. intros id c node b Hc Hget Hb. exact (http_get_node_ok id c node b Hc Hget Hb). Qed.
Next Obligation.
  intros id c Hc Hb. pose proof (http_sync_spec id c Hc Hb) as Hs. simpl.
  destruct (http_sync_file _ _ _ _) as [r c']. naive_solver.
Qed.

(** *** The mount, the client and the server together *)

Context (mode : BlockCache.Mode) (disk_faults : nat -> BlockCache.Key -> bool) (log_faults : nat -> option nat).
Context (completed : list nat -> list nat) (completed_perm : forall l, completed l ≡ₚ l).

(** C4 From the kernel to the object store. Take a sequence of writes, reads and [fsync]s
    through the mount in which every call succeeded, over a network that may lose requests
    and answers (a call succeeds when one of its attempts is answered), with faults of the
    local disk. Its reads returned what a memory that applies the writes at once would have
    returned; and when an [fsync] of a file then succeeds too, the sealed chunks and the
    manifest the server has committed for it are that memory's bytes. Nothing is said of
    sequences in which a call was refused. *)
Theorem mount_to_chunks w evs w1 ino id b w2 files :
  MountSpec.sound mode w -> Recovery.shows w files ->
  Recovery.steps mode disk_faults completed log_faults w evs w1 ->
  Mount.by_ino (Mount.inodes (Mount.fs w1)) !! ino = Some id -> MountSpec.view w1 ino = Some b ->
  Mount.fsync disk_faults log_faults ino w1 = (Ok tt, w2) ->
  exists files', Recovery.flat_run files evs = Some files' /\ files' !! ino = Some b /\
    let s := server (Mount.srv w2) in
    Repr state (repo s) (objs s) id b /\ forall v, ~ open_version (repo s) id v.
Proof.
  intros Hsound Hshows Hsteps Hid Hview Hsync.
  destruct (Recovery.steps_sim mode disk_faults completed completed_perm log_faults w evs w1 files Hsound Hshows Hsteps)
    as (files' & Hrun & Hshows1 & Hsound1).
  exists files'. split; [done|]. split; [by rewrite Hshows1|].
  pose proof (MountFacts.fsync_spec mode disk_faults log_faults ino id w1 Hsound1 Hid ltac:(by rewrite Hview)) as [_ Hf].
  rewrite Hsync in Hf. destruct Hf as (Hsound2 & Hcontent & _ & _ & c & Hc & Hfile & Hs).
  pose proof (http_sync_spec id c Hc Hfile) as Hspec. simpl in Hs. rewrite Hs in Hspec. destruct Hspec as (Hc2 & _ & Hno).
  split; [|by apply Hno]. apply (file_bytes_repr state sched (rs_parallel reachable) (server (Mount.srv w2))); [done|].
  etrans; [exact Hcontent|done].
Qed.

End Laws.
End HttpFacts.
