(* ===== verification/HttpRetry.v ===== *)
(** * Retried requests

    What the retries of [HttpClient] do to the server's namespace: a create, a delete or
    a rename that was sent any number of times is applied at most once, and one that is
    reported as done is done; an outage shorter than the retries is invisible; and the
    server's refusals reach the kernel as the errors it expects. *)
From S2P Require Import Prelude Core Crypto ObjectStore Repository Locks Server Data DataSpec DataWrite DataRead Example DataProps Nodes BlockCache WriteLog Mount MountFacts MountRecovery HttpClient HttpProps.

Module HttpRetry.
Import Records MemoryRepo AppState Spec SpecFacts Nodes Client HttpClient HttpFacts Namespace.

Abbreviation table s := (nodes (repo s)).

Section Retry.
Context `{HO : HashOrder} {S : Type}.
Context (net : nat -> Z -> nat -> Fate) (max_attempts : nat).
(** What answers in the server's place is a gateway that cannot reach it, or one that
    wants the client to slow down. *)
Definition gateway_status (status : Z) : Prop := 500 <= status < 600 \/ status = 429.
Definition gateways : Prop := forall t lane k status, net t lane k = Turned status -> gateway_status status.
Hypothesis Hgate : gateways.
Implicit Types (c : t (S := S)) (s : World S).

Lemma send_retrying_spec {A} (handler : M S A) (success : A -> Z) lane c (P : World S -> Prop) :
  (forall s, P s -> P (handler s).2) -> P (server c) ->
  match send_retrying net max_attempts handler success lane c with
  | (Ok (resp, _), s') => P s' /\ (gateway_status (r_status resp) \/
      answers handler success P (r_status resp) (r_body resp) (r_code resp) s')
  | (Err e, s') => P s' /\ e = Http "error sending request"
  end.
Proof.
  intros HP Hc. unfold send_retrying.
  pose proof (retry_from_spec handler success gateway_status P (net (time c) lane) max_attempts 0 false (server c)
    (fun j st => Hgate _ _ j st) HP Hc) as Hs.
  destruct (retry_from _ _ _ _ _ _ _) as [[[resp b]|e] s']; [|done]. destruct Hs as [? [[? _]|?]]; eauto.
Qed.

Lemma honest t lane k status : net t lane k = Turned status -> 400 <= status.
Proof. intros Ht%Hgate. unfold gateway_status in Ht. lia. Qed.

(** *** Creating *)

(** Nothing happened, or the node was made, as it was asked for. *)
Definition kind_text (kind : NodeModel.NodeKind) : string :=
  match kind with NodeModel.Directory => "directory" | NodeModel.File => "file" | NodeModel.Symlink => "symlink" end.
Definition made (req : CreateNodeRequest) s n s' : Prop :=
  table s' = <[cn_idempotency_key req := n]> (table s) /\
  n_id n = cn_idempotency_key req /\ n_parent_id n = Some (cn_parent_id req) /\ n_name n = cn_name req /\
  n_kind n = kind_text (cn_kind req) /\ n_link_target n = cn_link_target req /\ n_current_version_id n = None /\
  n_uid n = i32 (cn_uid req) /\ n_gid n = i32 (cn_gid req) /\
  (cn_kind req <> NodeModel.Symlink -> n_mode n = i32 (cn_mode req) /\ n_size n = 0).
Definition at_most_made req s s' : Prop := table s' = table s \/ exists n, made req s n s'.

Lemma create_node_handler req s :
  table s !! cn_idempotency_key req = None ->
  match Nodes.create_node req s with
  | (Ok (status, node), s') => status = 201 /\ exists n, node = node_to_response n /\ made req s n s'
  | (Err (Fail e), s') => table s' = table s
  | (Err Panic, _) => False
  end.
Proof.
  intros Hnew. unfold made, Nodes.create_node, to_name, mbind, M_bind, mret, M_ret, AppState.fail, now, update.
  destruct (Name.new (cn_name req)) as [name|e] eqn:Hname; [|done].
  assert (name = cn_name req) as -> by (unfold Name.new in Hname; repeat case_match; by simplify_eq).
  unfold create_symlink, MemoryRepo.create_node. simpl.
  destruct (cn_kind req), (cn_link_target req) as [target|]; simpl; rewrite ?Hnew; simpl; try done.
  all: repeat match goal with |- context [if ?b then _ else _] => destruct b; simpl; [done|] end.
  all: split; [done|]; eexists; split; [reflexivity|]; by split_and!.
Qed.

Lemma create_again req s0 s :
  table s !! cn_idempotency_key req = None -> at_most_made req s s0 ->
  match Nodes.create_node req s0 with
  | (Ok (status, node), s') => status = 201 /\ exists n, node = node_to_response n /\ made req s n s'
  | (Err (Fail e), s') => table s' = table s0
  | (Err Panic, _) => False
  end.
Proof.
  intros Hnew [Heq|(n & Htab & _)].
  { pose proof (create_node_handler req s0 ltac:(by rewrite Heq)) as Hh. unfold made in *. by rewrite <-Heq. }
  assert (Hthere : table s0 !! cn_idempotency_key req = Some n) by (by rewrite Htab, lookup_insert_eq).
  unfold Nodes.create_node, to_name, mbind, M_bind, mret, M_ret, AppState.fail, now, update.
  destruct (Name.new (cn_name req)) as [name|e]; [|done].
  unfold create_symlink, MemoryRepo.create_node. simpl.
  destruct (cn_kind req), (cn_link_target req) as [target|]; simpl; rewrite ?Hthere; simpl; try done.
  destruct (bool_decide _); simpl; [done|]. by rewrite Hthere.
Qed.

Lemma create_once req c :
  table (server c) !! cn_idempotency_key req = None ->
  let '(r, c') := http_create_node net max_attempts req c in
  at_most_made req (server c) (server c') /\
  forall node, r = Ok node -> exists n, node = node_to_response n /\ made req (server c) n (server c').
Proof.
  intros Hnew. unfold http_create_node.
  assert (Hkeep : forall s, at_most_made req (server c) s -> at_most_made req (server c) (Nodes.create_node req s).2).
  { intros s Hms. pose proof (create_again req s (server c) Hnew Hms) as Hh.
    destruct (Nodes.create_node req s) as [[[st nd]|[e'|]] s1]; cbn [snd]; [| |done].
    - destruct Hh as (_ & n & _ & Hmade). right. by exists n.
    - destruct Hms as [Hms|(n & Hm & ?)]; [left; congruence|right; exists n; split; [congruence|done]]. }
  pose proof (send_retrying_spec (Nodes.create_node req) fst 0 c (at_most_made req (server c)) Hkeep ltac:(by left)) as Hs.
  destruct (send_retrying _ _ _ _ _ _) as [[[resp retried]|e] s']; [|by destruct Hs].
  destruct Hs as [Hms Hresp]. destruct (_ || _) eqn:Hok.
  { split; [done|]. intros node Hnode. unfold body_of in Hnode. destruct (r_body resp) as [a|] eqn:Hbody; [|done].
    injection Hnode as <-. destruct Hresp as [Hg|(s0 & r & HP0 & Hr & Hm)]; [unfold gateway_status in Hg; lia|].
    pose proof (create_again req s0 (server c) Hnew HP0) as Hh. rewrite Hr in Hh.
    destruct r as [[st nd]|[e|]]; [|by destruct Hm as (_ & ? & _)|done]. destruct Hm as [_ [?|[= ->]]]; [done|]. apply Hh. }
  destruct ((r_status resp =? 401) || (r_status resp =? 403)); [done|].
  destruct (r_status resp =? 409); [|by destruct (r_status resp =? 400)].
  destruct retried; [|done]. destruct (http_get_node _ _ _ _) as [node|] eqn:Hget; [|done].
  split; [done|]. intros node'. case_bool_decide as Hname; [|done]. intros [= <-].
  destruct (http_get_node_found net max_attempts _ _ _ honest Hget) as (n & Hn & ->). exists n. split; [done|].
  destruct Hms as [Hms|(n' & Hm & ?)]; [cbn in Hn; congruence|]. cbn in Hn. rewrite Hm, lookup_insert_eq in Hn.
  injection Hn as <-. by split.
Qed.

(** *** Deleting *)

Lemma delete_node_handler id s :
  match Nodes.delete_node id s with
  | (Ok status, s') => status = 204 /\ table s' = delete id (table s)
  | (Err (Fail e), s') => s' = s /\ 400 <= AppErrors.status e /\ (AppErrors.status e = 404 -> table s !! id = None)
  | (Err Panic, _) => False
  end.
Proof.
  unfold Nodes.delete_node, mbind, M_bind, query, MemoryRepo.get_node, update, MemoryRepo.delete_node, AppState.fail, mret, M_ret.
  destruct (table s !! id) as [n|] eqn:Hn; simpl; [|done].
  destruct (bool_decide (n_kind n = _)); simpl; [|by rewrite Hn].
  repeat match goal with |- context [if ?b then _ else _] => destruct b; simpl; [done|] end. by rewrite Hn.
Qed.

Definition at_most_gone id s s' : Prop := table s' = table s \/ table s' = delete id (table s).

Lemma delete_once id c :
  let '(r, c') := http_delete_node net max_attempts id c in
  at_most_gone id (server c) (server c') /\ (r = Ok tt -> table (server c') = delete id (table (server c))).
Proof.
  unfold http_delete_node, exchange.
  assert (Hdone : forall s s', at_most_gone id (server c) s -> table s' = delete id (table s) ->
    table s' = delete id (table (server c))).
  { intros s s' [Hs|Hs] ->; rewrite Hs; [done|]. apply delete_delete_eq. }
  assert (Hkeep : forall s, at_most_gone id (server c) s -> at_most_gone id (server c) (Nodes.delete_node id s).2).
  { intros s Hms. pose proof (delete_node_handler id s) as Hh. destruct (Nodes.delete_node id s) as [[st|[e|]] s1]; cbn [snd].
    - right. by apply (Hdone s s1 Hms), Hh.
    - by destruct Hh as [-> _].
    - done. }
  pose proof (send_retrying_spec (Nodes.delete_node id) (fun status => status) 0 c _ Hkeep ltac:(by left)) as Hs.
  destruct (send_retrying _ _ _ _ _ _) as [[[resp retried]|e] s']; [|by destruct Hs].
  destruct Hs as [Hms [Hg|(s0 & r & HP0 & Hr & Hm)]]; cbn [server next]; (split; [done|]).
  - unfold gateway_status in Hg. unfold unexpected. repeat case_match; try done; lia.
  - pose proof (delete_node_handler id s0) as Hh. rewrite Hr in Hh. destruct r as [st|[e|]]; [| |done].
    + intros _. by apply (Hdone s0), Hh.
    + destruct Hh as (-> & Hlow & Hgone). destruct Hm as (Hst & _). rewrite Hst.
      destruct (Z.eqb_spec (AppErrors.status e) 404) as [H404|].
      * intros _. destruct HP0 as [HP0|HP0]; [|done]. rewrite HP0. symmetry. apply delete_id. rewrite <-HP0. by apply Hgone.
      * unfold unexpected. repeat case_match; try done; lia.
Qed.

(** *** Renaming *)

(** The state after one application: the entry is at its new place with all it had, what
    was under the new name is gone and every other entry is as it was. *)
Definition moved (id : Uuid) (req : RenameNodeRequest) s m s' : Prop :=
  let '(p, name) := (rn_new_parent_id req, rn_new_name req) in
  (exists n, table s !! id = Some n /\ relocated n p name m) /\ table s' !! id = Some m /\
  (forall k, k <> id -> child_of (repo s) p name k -> table s' !! k = None) /\
  (forall k, k <> id -> ~ child_of (repo s) p name k -> table s' !! k = table s !! k).
Definition at_most_moved id req s s' : Prop := table s' = table s \/ exists m, moved id req s m s'.

(** Entries are filed under their ids, and names are unique in a directory. *)
Definition tidy s : Prop :=
  (forall k n, table s !! k = Some n -> n_id n = k) /\
  (forall k1 k2 p name, child_of (repo s) p name k1 -> child_of (repo s) p name k2 -> k1 = k2).

Lemma tidy_table s s' : table s' = table s -> tidy s -> tidy s'.
Proof. unfold tidy, child_of. by intros ->. Qed.

Lemma moved_tidy id req s m s' : tidy s -> moved id req s m s' -> tidy s'.
Proof.
  intros [Hids Huniq] ((n & Hn & Hp & Hna & Hid & _) & Hm & Hgone & Hsame).
  assert (Hold : forall k n', k <> id -> table s' !! k = Some n' ->
    table s !! k = Some n' /\ ~ child_of (repo s) (rn_new_parent_id req) (rn_new_name req) k).
  { intros k n' Hk Hk'. destruct (table s !! k) as [n''|] eqn:Hs.
    - destruct (decide (n_parent_id n'' = Some (rn_new_parent_id req) /\ n_name n'' = rn_new_name req)) as [[]|Hno].
      + rewrite (Hgone k) in Hk'; [done|done|by exists n''].
      + assert (~ child_of (repo s) (rn_new_parent_id req) (rn_new_name req) k) by (intros (? & ? & ?); naive_solver).
        rewrite <-(Hsame k), Hk' in Hs by done. by simplify_eq.
    - rewrite (Hsame k), Hs in Hk'; [done|done|]. intros (? & ? & _). congruence. }
  split.
  - intros k n' Hk. destruct (decide (k = id)) as [->|Hne]; [|by apply Hids, Hold].
    rewrite Hm in Hk. injection Hk as <-. rewrite Hid. by apply Hids.
  - intros k1 k2 p name (n1 & H1 & Hp1 & Hn1) (n2 & H2 & Hp2 & Hn2).
    destruct (decide (k1 = id)) as [->|Hne1], (decide (k2 = id)) as [->|Hne2]; [done| | |].
    + apply Hold in H2 as [H2 []]; [|done]. exists n2. split_and!; congruence.
    + apply Hold in H1 as [H1 []]; [|done]. exists n1. split_and!; congruence.
    + apply Hold in H1 as [H1 _], H2 as [H2 _]; [|done..]. by eapply Huniq; [exists n1|exists n2].
Qed.

(** Applying it again changes no more than applying it once. *)
Lemma moved_again id req s1 m s2 m' s3 : moved id req s1 m s2 -> moved id req s2 m' s3 -> moved id req s1 m' s3.
Proof.
  intros ((n & Hn & Hr) & Hm & Hgone & Hsame) ((n' & Hn' & Hr') & Hm' & Hgone' & Hsame'). rewrite Hm in Hn'. injection Hn' as <-.
  assert (Hnone : forall k, k <> id -> ~ child_of (repo s2) (rn_new_parent_id req) (rn_new_name req) k).
  { intros k Hk (v & Hv & Hvp & Hvn). destruct (table s1 !! k) as [v'|] eqn:Hs.
    - destruct (decide (n_parent_id v' = Some (rn_new_parent_id req) /\ n_name v' = rn_new_name req)) as [[]|Hno].
      + rewrite (Hgone k) in Hv; [done|done|by exists v'].
      + rewrite (Hsame k), Hs in Hv; [naive_solver|done|]. intros (? & ? & ?). naive_solver.
    - rewrite (Hsame k), Hs in Hv; [done|done|]. intros (? & ? & _). congruence. }
  split_and!; [|done| |].
  - exists n. split; [done|]. unfold relocated in *. destruct_and!. split_and!; congruence.
  - intros k Hk Hc. rewrite (Hsame' k) by auto. by apply Hgone.
  - intros k Hk Hc. rewrite (Hsame' k) by auto. by apply Hsame.
Qed.

Lemma moved_table id req s1 s2 m s3 : table s2 = table s1 -> moved id req s2 m s3 -> moved id req s1 m s3.
Proof. unfold moved, child_of. by intros ->. Qed.

Lemma at_most_moved_step id req s1 s2 m s3 :
  at_most_moved id req s1 s2 -> moved id req s2 m s3 -> moved id req s1 m s3.
Proof. intros [Heq|[m' Hm]] H2; [by eapply moved_table|by eapply moved_again]. Qed.

Lemma rename_repo_moves t0 id req s :
  tidy s ->
  match MemoryRepo.rename_node t0 id (rn_new_parent_id req) (rn_new_name req) (repo s) with
  | (Ok tt, r') => exists m, moved id req s m (set_repo s r')
  | (Err _, r') => r' = repo s
  end.
Proof.
  intros [Hids Huniq]. unfold MemoryRepo.rename_node. destruct (table s !! id) as [n|] eqn:Hn; [|done].
  destruct (filter _ _) as [|v l] eqn:Hf; simpl.
  { exists (set_place (Some (rn_new_parent_id req)) (rn_new_name req) t0 n).
    split_and!; [by exists n|apply lookup_insert_eq| |].
    - intros k Hk (u & Hu & Hp & Hna). assert (Hin : u ∈ @nil NodeRecord); [|by apply elem_of_nil in Hin].
      rewrite <-Hf. apply list_elem_of_filter. split; [|apply elem_of_hm_values; by exists k].
      apply andb_true_iff. split; [|by apply is_child_true]. rewrite (Hids _ _ Hu). by rewrite bool_decide_false.
    - intros k Hk _. simpl. by rewrite lookup_insert_ne. }
  assert (Hv : v ∈ v :: l) by apply list_elem_of_here. rewrite <-Hf in Hv.
  apply list_elem_of_filter in Hv as [[Hne [Hp Hname]%is_child_true]%andb_true_iff [k0 Hk0]%elem_of_hm_values].
  apply negb_true_iff, bool_decide_eq_false in Hne. pose proof (Hids _ _ Hk0) as Hid. subst k0.
  destruct (_ && _); [done|]. simpl. rewrite lookup_delete_ne, Hn by done.
  assert (Hvc : child_of (repo s) (rn_new_parent_id req) (rn_new_name req) (n_id v)) by (by exists v).
  exists (set_place (Some (rn_new_parent_id req)) (rn_new_name req) t0 n).
    split_and!; [by exists n|apply lookup_insert_eq| |]; intros k Hk Hc; simpl; rewrite lookup_insert_ne by done.
  - rewrite (Huniq _ _ _ _ Hc Hvc). apply lookup_delete_eq.
  - rewrite lookup_delete_ne; [done|]. by intros <-.
Qed.

Definition renamed id req s (out : result (fault AppErrors.AppError) NodeResponse * World S) : Prop :=
  match out with
  | (Ok node, s') => exists m, node = node_to_response m /\ moved id req s m s'
  | (Err (Fail e), s') => table s' = table s
  | (Err Panic, _) => False
  end.

(** A check of the handler passes, or is where it ends. *)
Lemma renamed_check id req s (m : M S unit) (f : unit -> M S NodeResponse) :
  (m s = (Ok tt, s) \/ exists e, m s = (Err (Fail e), s)) -> renamed id req s (f tt s) -> renamed id req s ((m ≫= f) s).
Proof. intros [Hm|[e Hm]] Hf; unfold mbind, M_bind; by rewrite Hm. Qed.

Lemma rename_node_handler id req s : tidy s -> renamed id req s (Nodes.rename_node id req s).
Proof.
  intros Hk. unfold Nodes.rename_node, to_name. destruct (Name.new (rn_new_name req)) as [name|e] eqn:Hname; [|done].
  assert (name = rn_new_name req) as -> by (unfold Name.new in Hname; repeat case_match; by simplify_eq).
  rewrite (bind_Ok _ _ s (rn_new_name req) s) by done.
  destruct (table s !! id) as [n|] eqn:Hn.
  2: { erewrite bind_Err; [|unfold query, MemoryRepo.get_node; by rewrite Hn]. done. }
  erewrite bind_Ok; [|unfold query, MemoryRepo.get_node; by rewrite Hn]. erewrite bind_Ok by reflexivity.
  apply renamed_check.
  { destruct (list_find _ _) as [[? target]|]; [|by left]. destruct (_ && _); [right; by eexists|by left]. }
  erewrite bind_Ok by reflexivity. pose proof (rename_repo_moves (clock s (ticks s)) id req s Hk) as Hr.
  unfold mbind, M_bind, update. cbn [repo].
  destruct (MemoryRepo.rename_node _ _ _ _ _) as [[[]|e] r']; simpl in *; [|by rewrite Hr].
  destruct Hr as [m Hm]. pose proof Hm as (_ & Hm' & _). unfold query, MemoryRepo.get_node. simpl in *. rewrite Hm'. simpl.
  by exists m.
Qed.

Lemma rename_once id req c :
  tidy (server c) ->
  let '(r, c') := http_rename_node net max_attempts id req c in
  at_most_moved id req (server c) (server c') /\
  forall node, r = Ok node -> exists m, node = node_to_response m /\ moved id req (server c) m (server c').
Proof.
  intros Hk. unfold http_rename_node, exchange.
  assert (Htidy : forall s, at_most_moved id req (server c) s -> tidy s)
    by (intros s [Heq|[m Hm]]; [by eapply tidy_table|by eapply moved_tidy]).
  assert (Hkeep : forall s, at_most_moved id req (server c) s -> at_most_moved id req (server c) (Nodes.rename_node id req s).2).
  { intros s Hms. pose proof (rename_node_handler id req s (Htidy s Hms)) as Hh. unfold renamed in Hh.
    destruct (Nodes.rename_node id req s) as [[node|[e|]] s1]; cbn [snd]; [| |done].
    - destruct Hh as (m & _ & Hm). right. exists m. by eapply at_most_moved_step.
    - unfold at_most_moved, moved in *. by rewrite Hh. }
  pose proof (send_retrying_spec (Nodes.rename_node id req) ok_status 0 c _ Hkeep ltac:(by left)) as Hs.
  destruct (send_retrying _ _ _ _ _ _) as [[[resp retried]|e] s']; [|by destruct Hs].
  destruct Hs as [Hms Hresp]. cbn [server next]. split; [done|]. intros node. unfold body_of.
  destruct (Z.eqb_spec (r_status resp) 200).
  2: { unfold or_not_found, unexpected. by repeat case_match. }
  destruct Hresp as [Hg|(s0 & r & HP0 & Hr & Hm)]; [unfold gateway_status in Hg; lia|].
  pose proof (rename_node_handler id req s0 (Htidy s0 HP0)) as Hh. unfold renamed in Hh. rewrite Hr in Hh.
  destruct r as [nd|[err|]]; [|by destruct Hm as (_ & -> & _)|done].
  destruct Hm as [_ [->| ->]]; [done|]. intros [= <-]. destruct Hh as (m & -> & Hm). exists m. split; [done|].
  by eapply at_most_moved_step.
Qed.

(** C23 Retried requests are applied once. However often the network makes the client send
    a create, a delete or a rename again, the server's entries are those before or those
    after one application: a create makes its one node or none, a delete removes its node
    or nothing, and in a namespace of unique names with
    entries under their ids, a rename moves its node (replacing at most the entry in its
    way) or nothing. A request that is reported as done is done. *)
Theorem retries_apply_once c :
  (forall req, table (server c) !! cn_idempotency_key req = None ->
    let '(r, c') := http_create_node net max_attempts req c in
    at_most_made req (server c) (server c') /\
    forall node, r = Ok node -> exists n, node = node_to_response n /\ made req (server c) n (server c')) /\
  (forall id, let '(r, c') := http_delete_node net max_attempts id c in
    at_most_gone id (server c) (server c') /\ (r = Ok tt -> table (server c') = delete id (table (server c)))) /\
  (forall id req, tidy (server c) -> let '(r, c') := http_rename_node net max_attempts id req c in
    at_most_moved id req (server c) (server c') /\
    forall node, r = Ok node -> exists m, node = node_to_response m /\ moved id req (server c) m (server c')).
Proof.
  split; [intros req; apply create_once|]. split; [exact (fun id => delete_once id c)|intros id req; apply rename_once].
Qed.

End Retry.

(** ** Outages *)

Section Outage.
Context `{AL : AeadLaws} `{HO : HashOrder} {S : Type} `{OL : Store.ObjectStoreLaws S} (state : Config).
Context (sched : nat -> nat) (net : nat -> Z -> nat -> Fate) (max_attempts : nat) (idle : World S -> World S).
Implicit Types (c : t (S := S)) (s : World S).

(** The server cannot be reached, or its answers cannot, for the first [j] attempts from
    attempt [k] on; then it answers. *)
Definition unreachable (fate : Fate) : Prop :=
  fate = RequestLost \/ fate = AnswerLost \/ exists status, fate = Turned status /\ gateway_status status.
Definition outage (fates : nat -> Fate) (k j : nat) : Prop :=
  (forall i, (i < j)%nat -> unreachable (fates (k + i)%nat)) /\ fates (k + j)%nat = Answered.

Lemma unreachable_waits {A} (handler : M S A) success fate s :
  unreachable fate -> let '(outcome, s') := attempt handler success fate s in
  must_wait outcome = true /\ (s' = s \/ s' = (handler s).2).
Proof.
  unfold unreachable, attempt. intros [->|[->|(status & -> & Hg)]]; [by split; [|left]| |].
  - destruct (handler s) as [r s']. split; [done|by right].
  - split; [|by left]. unfold must_wait, gateway_status in *. simpl.
    destruct (Z.leb_spec 500 status), (Z.ltb_spec status 600), (Z.eqb_spec status 429); done || lia.
Qed.

Lemma retry_answered {A} (handler : M S A) success fates (P : World S -> Prop) left k j retried s :
  (forall s, P s -> exists a s', handler s = (Ok a, s') /\ P s' /\ 200 <= success a < 300) ->
  P s -> outage fates k j -> (j <= left)%nat ->
  exists s0 a s' r, P s0 /\ handler s0 = (Ok a, s') /\ retry_from handler success fates left k retried s
    = (Ok ({| r_status := success a; r_body := Some a; r_code := None |}, r), s').
Proof.
  intros Hh. revert k j retried s. induction left as [|left IH]; intros k j retried s Hs [Hout Hans] Hj.
  - assert (j = 0)%nat as -> by lia. rewrite Nat.add_0_r in Hans. simpl. unfold last_try. rewrite Hans. simpl.
    destruct (Hh s Hs) as (a & s' & Hr & _ & _). rewrite Hr. by exists s, a, s', retried.
  - simpl. destruct j as [|j].
    + rewrite Nat.add_0_r in Hans. rewrite Hans. simpl. destruct (Hh s Hs) as (a & s' & Hr & _ & Hst). rewrite Hr. simpl.
      destruct (Z.leb_spec 500 (success a)), (Z.eqb_spec (success a) 429); try lia. simpl.
      by exists s, a, s', retried.
    + pose proof (unreachable_waits handler success (fates k) s) as Hw.
      specialize (Hout 0%nat ltac:(lia)) as Hfirst. rewrite Nat.add_0_r in Hfirst. specialize (Hw Hfirst).
      assert (Hnext : outage fates (Datatypes.S k) j).
      { split; [|by rewrite Nat.add_succ_comm]. intros i Hi. rewrite Nat.add_succ_comm. apply Hout. lia. }
      destruct (attempt _ _ _ _) as [outcome s1]. destruct Hw as [Hw Hs1].
      assert (HP1 : P s1). { destruct Hs1 as [->| ->]; [done|]. by destruct (Hh s Hs) as (a & s' & -> & ? & _). }
      destruct (IH (Datatypes.S k) j (negb (left =? 0)%nat || retried) s1 HP1 Hnext ltac:(lia)) as (s0 & a & s' & r & ? & ? & Hr).
      exists s0, a, s', r. split; [done|]. split; [done|]. rewrite <-Hr. destruct outcome as [resp|]; [|done]. by rewrite Hw.
Qed.

Hypothesis reachable : reachable_server state sched net idle.

Lemma write_survives c id b offset data j :
  consistent state (server c) -> file_bytes state sched (server c) id = Some b -> 0 <= offset ->
  data <> [] -> offset + len data < 2 ^ 62 -> len data <= MAX_WRITE_BYTES ->
  (j <= max_attempts)%nat -> outage (net (time c) 0) 0 j ->
  exists c', http_write_file state net max_attempts id offset data c = (Ok (len data), c') /\
    file_bytes state sched (server c') id = Some (write_flat b offset data).
Proof.
  pose proof (rs_chunk _ _ _ _ reachable) as Hchunk. pose proof (rs_parallel _ _ _ _ reachable) as Hpar.
  intros Hc Hb Hoff Hd Hend Hmax Hj Hout.
  destruct (http_write_file state net max_attempts id offset data c) as [r c'] eqn:Hw. exists c'.
  pose proof (http_write_spec state sched net max_attempts idle reachable id offset data c b Hc Hb Hoff Hd Hend) as Hspec.
  rewrite Hw in Hspec. destruct Hspec as (_ & _ & Hspec).
  assert (Hr : r = Ok (len data)); [|subst r; split; [done|apply Hspec]].
  destruct (retry_answered (write_route state id offset data) fst (net (time c) 0)
    (fun s => consistent state s /\ exists b, file_bytes state sched s id = Some b) max_attempts 0 j false (server c))
    as (s0 & a & s' & ret & HP & Hr & Hsend); [|by split; [|exists b]|done|done|].
  - intros s [Hcs [b' Hbs]].
    destruct (write_route_ok state sched Hchunk Hpar s id b' offset data Hcs Hbs Hoff Hend Hmax) as (m & s' & Hr & ? & Hb' & _).
    exists (200, m), s'. split; [done|]. split; [by split; [|eexists]|simpl; lia].
  - unfold http_write_file, exchange, send_retrying in Hw. rewrite Hsend in Hw. destruct HP as [Hcs [b' Hbs]].
    destruct (write_route_ok state sched Hchunk Hpar s0 id b' offset data Hcs Hbs Hoff Hend Hmax) as (m & s1 & Hr' & _).
    rewrite Hr in Hr'. injection Hr' as -> ->. by injection Hw as <-.
Qed.

Lemma sync_survives c id b j :
  consistent state (server c) -> file_bytes state sched (server c) id = Some b ->
  (j <= max_attempts)%nat -> outage (net (time c) 0) 0 j ->
  exists c', http_sync_file net max_attempts id c = (Ok tt, c') /\
    forall id', file_bytes state sched (server c') id' = file_bytes state sched (server c) id'.
Proof.
  pose proof (rs_parallel _ _ _ _ reachable) as Hpar. intros Hc Hb Hj Hout.
  destruct (http_sync_file net max_attempts id c) as [r c'] eqn:Hw. exists c'.
  pose proof (http_sync_spec state sched net max_attempts idle reachable id c Hc ltac:(by rewrite Hb)) as Hspec.
  rewrite Hw in Hspec. destruct Hspec as (_ & Hsame & _). split; [|done]. f_equal.
  destruct (retry_answered (Data.sync_node id) (fun st => st) (net (time c) 0)
    (fun s => consistent state s /\ file_bytes state sched s id = Some b) max_attempts 0 j false (server c))
    as (s0 & a & s' & ret & [Hcs Hbs] & Hr & Hsend); [|by split|done|done|].
  - intros s [Hcs Hbs]. destruct (sync_node_spec state sched Hpar s id b Hcs Hbs) as (s' & Hr & ? & Hb' & _).
    exists 204, s'. split; [done|]. split; [split; [done|by rewrite Hb']|lia].
  - unfold http_sync_file, exchange, send_retrying in Hw. rewrite Hsend in Hw.
    destruct (sync_node_spec state sched Hpar s0 id b Hcs Hbs) as (s1 & Hr' & _).
    rewrite Hr in Hr'. injection Hr' as -> ->. by injection Hw as <-.
Qed.

Lemma read_survives c id b offset size j :
  consistent state (server c) -> file_bytes state sched (server c) id = Some b -> 0 <= offset -> 0 <= size ->
  (j <= max_attempts)%nat -> outage (net (time c) offset) 0 j ->
  http_read_file state sched net max_attempts id offset size c = Ok (slice b offset (offset + size)).
Proof.
  pose proof (rs_parallel _ _ _ _ reachable) as Hpar. intros Hc Hb Hoff Hsize Hj Hout.
  destruct (retry_answered (Data.read_data state sched id (Some offset) (Some size)) data_status (net (time c) offset)
    (fun s => consistent state s /\ file_bytes state sched s id = Some b) max_attempts 0 j false (server c))
    as (s0 & a & s' & ret & [Hcs Hbs] & Hr & Hsend); [|by split|done|done|].
  - intros s [Hcs Hbs]. destruct (read_data_spec state sched Hpar s id b offset size Hcs Hbs Hoff Hsize) as (s' & k & Hr & ? & Hb').
    eexists _, s'. split; [exact Hr|]. split; [split; [done|by rewrite Hb']|unfold data_status; simpl; lia].
  - unfold http_read_file, fetch, exchange, send_retrying. rewrite Hsend.
    destruct (read_data_spec state sched Hpar s0 id b offset size Hcs Hbs Hoff Hsize) as (s1 & k & Hr' & _).
    rewrite Hr in Hr'. by injection Hr' as -> ->.
Qed.

(** C24 A server that comes back in time was never away. When the server cannot be
    reached, or its answers are lost, for no more attempts than the client retries, a
    write still returns the number of bytes given to it and is in the file once, a read
    still returns the bytes of the file, and a sync still succeeds. *)
Theorem outage_is_survived c id b offset data size :
  consistent state (server c) -> file_bytes state sched (server c) id = Some b -> 0 <= offset -> 0 <= size ->
  data <> [] -> offset + len data < 2 ^ 62 -> len data <= MAX_WRITE_BYTES ->
  (forall lane, exists j, (j <= max_attempts)%nat /\ outage (net (time c) lane) 0 j) ->
  (exists c', http_write_file state net max_attempts id offset data c = (Ok (len data), c') /\
     file_bytes state sched (server c') id = Some (write_flat b offset data)) /\
  (exists c', http_sync_file net max_attempts id c = (Ok tt, c') /\
     forall id', file_bytes state sched (server c') id' = file_bytes state sched (server c) id') /\
  http_read_file state sched net max_attempts id offset size c = Ok (slice b offset (offset + size)).
Proof.
  intros Hc Hb Hoff Hsize Hd Hend Hmax Hout.
  destruct (Hout 0) as (j0 & Hj0 & Hout0). destruct (Hout offset) as (j1 & Hj1 & Hout1).
  split; [by apply (write_survives c id b offset data j0)|].
  split; [by apply (sync_survives c id b j0)|by apply (read_survives c id b offset size j1)].
Qed.

End Outage.

(** ** Errors *)

Section Errors.
Context `{HO : HashOrder} {S : Type} (net : nat -> Z -> nat -> Fate) (max_attempts : nat).
Implicit Types (c : t (S := S)) (s : World S).

(** Requests are answered at the first attempt. *)
Definition prompt c : Prop := forall lane, net (time c) lane 0%nat = Answered.

Lemma send_prompt {A} (handler : M S A) success lane c r s' resp :
  prompt c -> handler (server c) = (r, s') -> respond success r = Some resp -> must_wait (Some resp) = false ->
  send_retrying net max_attempts handler success lane c = (Ok (resp, false), s').
Proof.
  intros Hp Hh Hr Hw. unfold send_retrying. destruct max_attempts as [|n]; simpl; unfold last_try; rewrite Hp; simpl; rewrite Hh, Hr; [done|].
  by rewrite Hw.
Qed.

Definition ENOENT : Z := 2.
Definition EIO : Z := 5.
Definition EEXIST : Z := 17.
Definition EINVAL : Z := 22.
Definition ENOTEMPTY : Z := 39.

Lemma get_node_errno id c :
  prompt c -> map_err to_errno (http_get_node net max_attempts id c)
    = match table (server c) !! id with Some n => Ok (node_to_response n) | None => Err ENOENT end.
Proof.
  intros Hp. unfold http_get_node, fetch, exchange.
  assert (Hh : Nodes.get_node id (server c) = (match table (server c) !! id with
    | Some n => Ok (node_to_response n) | None => Err (Fail (AppErrors.not_found "resource not found")) end, server c)).
  { unfold Nodes.get_node, mbind, M_bind, query, MemoryRepo.get_node. by destruct (_ !! _). }
  destruct (table (server c) !! id) as [n|]; by rewrite (send_prompt _ ok_status _ _ _ _ _ Hp Hh eq_refl eq_refl).
Qed.

Definition has_children s id : Prop := exists j m, table s !! j = Some m /\ n_parent_id m = Some id.
#[global] Instance has_children_dec s id : Decision (has_children s id).
Proof.
  refine (cast_if (decide (Exists (fun m => n_parent_id m = Some id) (hm_values (table s))))).
  - apply list.Exists_exists in e as (m & Hm & Hp). apply elem_of_hm_values in Hm as [j Hj]. by exists j, m.
  - intros (j & m & Hj & Hp). apply n, list.Exists_exists. exists m. split; [|done]. apply elem_of_hm_values. by exists j.
Defined.

Lemma delete_node_answer id s :
  entries_ok (repo s) ->
  (Nodes.delete_node id s).1 = match table s !! id with
    | None => Err (Fail (AppErrors.not_found "resource not found"))
    | Some n => if decide (has_children s id) then Err (Fail AppErrors.directory_not_empty)
                else if decide (n_kind n = "directory"%string /\ n_parent_id n = None)
                then Err (Fail (AppErrors.bad_request "cannot delete the root directory")) else Ok 204 end.
Proof.
  intros Ht. unfold Nodes.delete_node. destruct (table s !! id) as [n|] eqn:Hn.
  2: { erewrite bind_Err; [|unfold query, MemoryRepo.get_node; by rewrite Hn]. done. }
  erewrite bind_Ok; [|unfold query, MemoryRepo.get_node; by rewrite Hn].
  assert (Hdel : update (MemoryRepo.delete_node id) s
    = (Ok tt, set_repo s (with_nodes (repo s) (delete id (table s)))))
    by (unfold update, MemoryRepo.delete_node; by rewrite Hn).
  destruct (listed_children (repo s) id) as (l & Hl & Hcases).
  assert (Hlist : query (MemoryRepo.list_children id 1 0) s = (Ok l, s)) by (unfold query; by rewrite Hl).
  destruct (decide (n_kind n = "directory"%string)) as [Hd|Hd].
  - rewrite bool_decide_true by done. destruct Hcases as [[-> Hno]|[Hne (j & m & Hj & Hm)]].
    + rewrite decide_False by (intros (j & m & Hj & Hm); by apply (Hno j m)).
      destruct (decide (n_parent_id n = None)) as [Hpar|Hpar].
      * rewrite decide_True by done. erewrite bind_Err; [done|]. erewrite bind_Ok by exact Hlist.
        by rewrite (bool_decide_true (n_parent_id n = None)) by done.
      * rewrite decide_False by naive_solver. erewrite bind_Ok.
        2: { erewrite bind_Ok by exact Hlist. rewrite (bool_decide_false (n_parent_id n = None)) by done. reflexivity. }
        by erewrite bind_Ok by exact Hdel.
    + rewrite decide_True by (by exists j, m). erewrite bind_Err; [done|]. erewrite bind_Ok by exact Hlist.
      by rewrite bool_decide_false by done.
  - rewrite bool_decide_false by done. rewrite decide_False, decide_False by
      (naive_solver || (intros (j & m & Hj & Hm); by apply (no_children_of _ _ _ Ht Hn Hd j m))).
    erewrite bind_Ok by reflexivity. by erewrite bind_Ok by exact Hdel.
Qed.

Lemma delete_node_errno id c :
  entries_ok (repo (server c)) -> prompt c ->
  let '(r, c') := http_delete_node net max_attempts id c in
  map_err to_errno r = match table (server c) !! id with
    | None => Err ENOENT
    | Some n => if decide (has_children (server c) id) then Err ENOTEMPTY
                else if decide (n_kind n = "directory"%string /\ n_parent_id n = None) then Err EIO else Ok tt
    end /\ table (server c') = if map_err to_errno r then delete id (table (server c)) else table (server c).
Proof.
  intros Ht Hp. unfold http_delete_node, exchange.
  pose proof (delete_node_answer id (server c) Ht) as Hh. pose proof (delete_node_handler id (server c)) as Hs.
  destruct (Nodes.delete_node id (server c)) as [r s'] eqn:Hrun. simpl in Hh.
  destruct (table (server c) !! id) as [n|]; [destruct (decide _); [|destruct (decide _)]|]; subst r;
    rewrite (send_prompt _ (fun status => status) _ _ _ _ _ Hp Hrun eq_refl eq_refl); split; try done; simpl;
    by destruct Hs as [? Hs]; subst.
Qed.

Lemma name_new_spec bs : Name.new bs = Ok bs /\ Name.valid bs \/ (exists e, Name.new bs = Err e) /\ ~ Name.valid bs.
Proof. unfold Name.new, Name.valid. repeat case_bool_decide; [right..|by left]; split; eauto; naive_solver. Qed.

(** A target where none may be or none where one must, and an id, or the name of a
    symbolic link, that is in use. *)
Definition bad_link (req : CreateNodeRequest) : Prop :=
  if decide (cn_kind req = NodeModel.Symlink) then cn_link_target req = None \/ cn_link_target req = Some []
  else cn_link_target req <> None.
Definition taken (req : CreateNodeRequest) s : Prop :=
  is_Some (table s !! cn_idempotency_key req) \/
  cn_kind req = NodeModel.Symlink /\ exists k, child_of (repo s) (cn_parent_id req) (cn_name req) k.

Definition created req s (out : result Z NodeResponse * World S) : Prop :=
  match out with
  | (Ok node, s') => (Name.valid (cn_name req) /\ ~ bad_link req /\ ~ taken req s) /\
      exists n, node = node_to_response n /\ made req s n s'
  | (Err e, s') => table s' = table s /\
      (e = EINVAL /\ (~ Name.valid (cn_name req) \/ bad_link req) \/
       e = EEXIST /\ Name.valid (cn_name req) /\ ~ bad_link req /\ taken req s)
  end.

Lemma existsb_is_child s p name :
  existsb (is_child p name) (hm_values (table s)) = true <-> exists k, child_of (repo s) p name k.
Proof.
  rewrite existsb_exists. setoid_rewrite <-list_elem_of_In. split.
  - intros (n & [k Hk]%elem_of_hm_values & [Hp Hn]%is_child_true). by exists k, n.
  - intros (k & n & Hk & Hp & Hn). exists n. split; [apply elem_of_hm_values; by exists k|by apply is_child_true].
Qed.

Lemma create_node_answer req s :
  let '(r, s') := Nodes.create_node req s in
  match r with
  | Ok (status, node) => status = 201 /\ created req s (Ok node, s')
  | Err (Fail e) => created req s (Err (if AppErrors.status e =? 409 then EEXIST else EINVAL), s') /\
      (AppErrors.status e = 400 \/ AppErrors.status e = 409)
  | Err Panic => False
  end.
Proof.
  unfold Nodes.create_node, to_name. destruct (name_new_spec (cn_name req)) as [[Hname Hvalid]|[[e Hname] Hbad]]; rewrite Hname.
  2: { simpl. split_and!; try done; [|by left]. left. split; [done|]. by left. }
  erewrite bind_Ok by reflexivity.
  unfold created, bad_link, taken, made, mbind, M_bind, mret, M_ret, now, update, AppState.fail, create_symlink, MemoryRepo.create_node.
  pose proof (existsb_is_child s (cn_parent_id req) (cn_name req)) as Hname'.
  destruct (cn_kind req), (cn_link_target req) as [[|x link]|]; simpl; try (split_and!; naive_solver).
  all: destruct (table s !! cn_idempotency_key req) as [n|] eqn:Hn; simpl; try (split_and!; naive_solver).
  all: try (destruct (existsb _ _); simpl; try (split_and!; naive_solver)).
  all: split; [done|]; split; [|eexists; split; [done|]; by split_and!].
  all: split; [done|]; split; [naive_solver|]; intros [[? ?]|[? ?]]; naive_solver.
Qed.

Lemma create_node_errno req c :
  prompt c -> created req (server c)
    (let '(r, c') := http_create_node net max_attempts req c in (map_err to_errno r, server c')).
Proof.
  intros Hp. unfold http_create_node. pose proof (create_node_answer req (server c)) as Hh.
  destruct (Nodes.create_node req (server c)) as [[[status node]|[e|]] s'] eqn:Hrun; [| |done].
  - destruct Hh as [-> Hh]. by rewrite (send_prompt _ fst _ _ _ _ _ Hp Hrun eq_refl eq_refl).
  - destruct Hh as [Hh Hst]. erewrite (send_prompt _ fst _ _ _ _ _ Hp Hrun eq_refl).
    + simpl. by destruct Hst as [Hst|Hst]; rewrite Hst in *.
    + unfold must_wait. simpl. by destruct Hst as [Hst|Hst]; rewrite Hst.
Qed.

Lemma rename_onto_full t0 id n parent name v nv r :
  entries_ok r -> nodes r !! id = Some n -> child_of r parent name v -> v <> id ->
  nodes r !! v = Some nv -> n_kind nv = "directory"%string -> (exists j m, nodes r !! j = Some m /\ n_parent_id m = Some v) ->
  MemoryRepo.rename_node t0 id parent name r = (Err Records.DirectoryNotEmpty, r).
Proof.
  intros Ht Hn Hv Hne Hnv Hk Hin. unfold MemoryRepo.rename_node. rewrite Hn.
  pose proof (victim_spec r id parent name Ht) as Hvic. destruct (head _) as [w|]; [|by destruct (Hvic v Hne)].
  destruct Hvic as (_ & Hw & Hwc). assert (n_id w = v) as Hid.
  { destruct Hwc as (w' & Hw' & ? & ?), Hv as (v' & Hv' & ? & ?). eapply (ent_names _ Ht); eauto; congruence. }
  rewrite Hid in *. assert (w = nv) as -> by congruence. rewrite bool_decide_true by done.
  by rewrite (proj2 (existsb_is_in r v)).
Qed.

Lemma rename_not_empty_errno id n req v c :
  entries_ok (repo (server c)) -> few_children (repo (server c)) -> prompt c -> Name.valid (rn_new_name req) ->
  table (server c) !! id = Some n -> n_kind n = "directory"%string ->
  child_of (repo (server c)) (rn_new_parent_id req) (rn_new_name req) v -> v <> id -> has_children (server c) v ->
  map_err to_errno (http_rename_node net max_attempts id req c).1 = Err ENOTEMPTY.
Proof.
  intros Ht Hfew Hp Hvalid Hn Hkind Hv Hne (j & m & Hj & Hm). pose proof Hv as (nv & Hnv & _).
  destruct (ent_parent _ Ht _ _ _ Hj Hm) as (d & Hd & Hdk). rewrite Hnv in Hd. injection Hd as <-.
  destruct (Nodes.rename_node id req (server c)) as [r s'] eqn:Hrun. pose proof Hrun as Hh. unfold Nodes.rename_node, to_name in Hh.
  destruct (name_new_spec (rn_new_name req)) as [[Hname _]|[_ Hbad]]; [|done]. rewrite Hname in Hh.
  erewrite bind_Ok in Hh by reflexivity. erewrite bind_Ok in Hh; [|unfold query, MemoryRepo.get_node; by rewrite Hn].
  destruct (listed_child (server c) _ _ v nv Ht Hfew Hv Hnv) as (l & i & Hl & Hfind).
  erewrite bind_Ok in Hh by exact Hl. rewrite Hfind, Hdk, Hkind in Hh. rewrite (bool_decide_true ("directory"%string = _)) in Hh by done.
  rewrite andb_false_r in Hh. erewrite bind_Ok in Hh by reflexivity. erewrite bind_Ok in Hh by reflexivity.
  unfold mbind, M_bind, update in Hh. cbn [repo] in Hh.
  rewrite (rename_onto_full _ id n _ _ v nv (repo (server c)) Ht Hn Hv Hne Hnv Hdk) in Hh by eauto.
  injection Hh as <- <-. unfold http_rename_node, exchange.
  by rewrite (send_prompt _ ok_status _ _ _ _ _ Hp Hrun eq_refl eq_refl).
Qed.

(** A rename goes through, or what is in the way is not of its kind or not empty. *)
Definition rename_answered id n req s (out : result Z NodeResponse * World S) : Prop :=
  match out with
  | (Ok node, s') => exists m, node = node_to_response m /\ moved id req s m s'
  | (Err e, s') => table s' = table s /\ exists k v, k <> id /\
      child_of (repo s) (rn_new_parent_id req) (rn_new_name req) k /\ table s !! k = Some v /\
      (e = EIO /\ n_kind v <> n_kind n \/ e = ENOTEMPTY /\ n_kind v = n_kind n /\ has_children s k)
  end.

Lemma rename_node_errno id n d req c :
  entries_ok (repo (server c)) -> few_children (repo (server c)) -> prompt c -> Name.valid (rn_new_name req) ->
  id <> root_id (repo (server c)) -> table (server c) !! id = Some n ->
  table (server c) !! rn_new_parent_id req = Some d -> n_kind d = "directory"%string ->
  rename_answered id n req (server c)
    (let '(r, c') := http_rename_node net max_attempts id req c in (map_err to_errno r, server c')).
Proof.
  intros Ht Hfew Hp Hvalid Hroot Hn Hd Hdk. unfold http_rename_node, exchange.
  pose proof (rename_node_cases (server c) id n (rn_new_parent_id req) d (rn_new_name req) Ht Hfew Hroot Hvalid Hn Hd Hdk) as Hh.
  replace {| rn_new_parent_id := _; rn_new_name := _ |} with req in Hh by (by destruct req).
  destruct (Nodes.rename_node id req (server c)) as [[node|e] s'] eqn:Hrun.
  - rewrite (send_prompt _ ok_status _ _ _ _ _ Hp Hrun eq_refl eq_refl). simpl.
    destruct Hh as (_ & _ & (m & Hm & Hr & ->) & Hsame & Hgone). exists m. split; [done|].
    split_and!; [by exists n|done| |done]. intros k Hk Hc. pose proof Hc as (v & Hv & _). by apply (Hgone k v).
  - destruct Hh as (Hrepo & k & v & Hk & Hc & Hv & [[-> Hkind]|(-> & Hkind & j & m & Hj & Hm)]);
      rewrite (send_prompt _ ok_status _ _ _ _ _ Hp Hrun eq_refl eq_refl); simpl; rewrite Hrepo; split; try done;
      exists k, v; split_and!; try done; [by left|right]. split_and!; [done|done|by exists j, m].
Qed.

Lemma rename_refused_errno id req c :
  prompt c -> ~ Name.valid (rn_new_name req) \/ table (server c) !! id = None ->
  let '(r, c') := http_rename_node net max_attempts id req c in table (server c') = table (server c) /\
    (map_err to_errno r = Err EIO /\ ~ Name.valid (rn_new_name req) \/
     map_err to_errno r = Err ENOENT /\ Name.valid (rn_new_name req)).
Proof.
  intros Hp Hor. unfold http_rename_node, exchange.
  destruct (Nodes.rename_node id req (server c)) as [r s'] eqn:Hrun. pose proof Hrun as Hh. unfold Nodes.rename_node, to_name in Hh.
  destruct (name_new_spec (rn_new_name req)) as [[Hname Hvalid]|[[e Hname] Hbad]]; rewrite Hname in Hh.
  - destruct Hor as [?|Hn]; [done|]. erewrite bind_Ok in Hh by reflexivity.
    erewrite bind_Err in Hh; [|unfold query, MemoryRepo.get_node; by rewrite Hn]. injection Hh as <- <-.
    rewrite (send_prompt _ ok_status _ _ _ _ _ Hp Hrun eq_refl eq_refl). split; [done|]. by right.
  - injection Hh as <- <-. rewrite (send_prompt _ ok_status _ _ _ _ _ Hp Hrun eq_refl eq_refl). split; [done|]. by left.
Qed.


End Errors.
End HttpRetry.
