(* ===== verification/HttpExample.v ===== *)
(** * A mount over an unreliable network

    The server of [Example] behind a network that loses the answer to every first attempt
    and answers the second one itself, with the properties of the client applied to it. *)
From Stdlib.Strings Require String.
From S2P Require Import Prelude Core Crypto ObjectStore Repository Locks Server Data DataSpec DataWrite DataRead Example DataProps Nodes BlockCache WriteLog Mount MountFacts MountRecovery HttpClient HttpProps HttpRetry.

Module HttpExample.
Import Nodes Client Journal WriteLog Mount MountSpec MountFacts Recovery HttpClient HttpFacts HttpRetry Example.

Definition bad_net (t : nat) (lane : Z) (k : nat) : Fate :=
  match k with 0%nat => AnswerLost | 1%nat => Turned 503 | _ => Answered end.
Definition good_net (t : nat) (lane : Z) (k : nat) : Fate := Answered.
Definition in_order (n : nat) : nat := n.
Abbreviation Http := (HttpClient.t (S := MemoryObjectStore.t)).

Definition start : Http := {| HttpClient.server := empty_file; time := 0 |}.

Lemma bad_gateways : gateways bad_net.
Proof. intros t lane k status. unfold bad_net, gateway_status. destruct k as [|[|k]]; try done. intros [= <-]. lia. Qed.

Lemma http_reachable : reachable_server config in_order bad_net id.
Proof.
  split; [exact config_fits|vm_compute; discriminate| |].
  - intros t lane k status Ht%bad_gateways. unfold gateway_status in Ht. lia.
  - intros s Hs. by split.
Qed.

Lemma start_consistent : consistent config empty_file.
Proof.
  split; [apply example_inv|]. intros k n Hn Hk. right.
  destruct (decide (k = file)) as [->|Hne]; [eexists; apply example_repr|].
  exfalso. apply Hk. assert (Hnodes : exists n1 n0, MemoryRepo.nodes (AppState.repo empty_file) = <[file := n1]> {[ root := n0 ]} /\
    Records.n_kind n0 = "directory"%string) by (do 2 eexists; split; reflexivity).
  destruct Hnodes as (n1 & n0 & Heq & Hkind). rewrite Heq, lookup_insert_ne in Hn by done.
  apply lookup_singleton_Some in Hn as [_ <-]. exact Hkind.
Qed.

(** *** The mount *)

#[local] Instance http : ServerClient Http := client config in_order bad_net 6 id.
#[local] Instance laws : ClientLaws Http := http_laws config in_order bad_net 6 id http_reachable.

Definition stream : BlockCache.Mode := BlockCache.Stream (4 * 1024 * 1024).
Definition no_faults : nat -> BlockCache.Key -> bool := fun _ _ => false.
Definition empty_log : Dir := {| files := ∅; journal := None; tail := Ended; io := 0 |}.
Definition run_names (n : nat) : Uuid := (1000 + N.of_nat n)%N.

Definition fresh_mount : World (S := Http) :=
  {| fs := {| chunk_size := 4; log := Some empty_log; cache := Some BlockCache.new;
              inodes := {| by_ino := {[1 := root]}; by_id := {[root := 1]}; seen := ∅; high_water := ∅; Mount.next := 2 |};
              pending := ∅ |};
     srv := {| HttpClient.server := empty_file; time := 2 |}; uuids := run_names; drawn := 0 |}.
Definition file_node : NodeResponse :=
  {| nr_id := file; nr_parent_id := Some root; nr_name := [x61]; nr_kind := NodeModel.File; nr_mode := 420;
     nr_uid := 0; nr_gid := 0; nr_size := 0; nr_atime := 0; nr_mtime := 0; nr_ctime := 0;
     nr_current_version_id := None; nr_generation := 0; nr_link_target := None |}.
Definition opened : World (S := Http) := (attr_of file_node fresh_mount).2.

Lemma http_mount_fresh : mount_with (Some BlockCache.new) (Some empty_log) start run_names = Ok fresh_mount.
Proof. reflexivity. Qed.
Lemma http_find_file : find_child root [x61] start = Ok file_node.
Proof. vm_compute. reflexivity. Qed.

Lemma file_is_empty : file_bytes config in_order empty_file file = Some [].
Proof. apply file_bytes_repr; [vm_compute; discriminate|apply start_consistent|apply example_repr]. Qed.

Lemma http_fresh_sound : sound stream fresh_mount.
Proof.
  apply (mount_sound stream (Some BlockCache.new) (Some empty_log) start run_names).
  - apply start_consistent.
  - congruence.
  - simpl. lia.
  - apply http_mount_fresh.
Qed.
Lemma http_opened_sound : sound stream opened.
Proof.
  destruct (attr_of_spec stream file_node fresh_mount http_fresh_sound ltac:(simpl; lia) ltac:(simpl; lia)) as (a & w & Hrun & Hw & _).
  - intros b Hb. change (file_bytes config in_order empty_file file = Some b) in Hb. rewrite file_is_empty in Hb. by injection Hb as <-.
  - change (is_Some (file_bytes config in_order empty_file file)). by rewrite file_is_empty.
  - unfold opened. by rewrite Hrun.
Qed.

Definition known_files : gmap Z bytes := {[2 := []]}.
Lemma http_opened_shows : shows opened known_files.
Proof.
  intros ino. unfold known_files. destruct (decide (ino = 2)) as [->|Hne]; [vm_compute; reflexivity|].
  rewrite lookup_singleton_ne by done. unfold view.
  assert (Hb : by_ino (inodes (fs opened)) = <[2 := file]> {[1 := root]}) by reflexivity.
  rewrite Hb, lookup_insert_ne by done.
  destruct (decide (ino = 1)) as [->|Hne1]; [vm_compute; reflexivity|]. by rewrite lookup_singleton_ne.
Qed.

(** A write of six bytes at offset three, which is three parts of the file. *)
Definition written : World (S := Http) := (Mount.write no_faults healthy 2 3 (text "abcdef") opened).2.
Definition synced : World (S := Http) := (Mount.fsync no_faults healthy 2 written).2.
Definition events : list Event := [EWrite 2 3 (text "abcdef")].

Lemma http_events_run : steps stream no_faults id healthy opened events written.
Proof.
  assert (Hw : Mount.write no_faults healthy 2 3 (text "abcdef") opened = (Ok 6, written)).
  { unfold written. assert (Hok : (Mount.write no_faults healthy 2 3 (text "abcdef") opened).1 = Ok 6) by (vm_compute; reflexivity).
    by destruct (Mount.write no_faults healthy 2 3 (text "abcdef") opened) as [r w']; simpl in *; subst r. }
  econstructor; [eapply step_write; [vm_compute; by eexists|lia|done|vm_compute; reflexivity|exact Hw]|constructor].
Qed.
Lemma fsync_run : Mount.fsync no_faults healthy 2 written = (Ok tt, synced).
Proof.
  unfold synced. assert (Hok : (Mount.fsync no_faults healthy 2 written).1 = Ok tt) by (vm_compute; reflexivity).
  by destruct (Mount.fsync no_faults healthy 2 written) as [r w']; simpl in *; subst r.
Qed.

Lemma mount_to_chunks_witness :
  exists files', flat_run known_files events = Some files' /\ files' !! 2 = Some (zeroes 3 ++ text "abcdef") /\
    let s := HttpClient.server (srv synced) in
    Spec.Repr config (AppState.repo s) (Spec.objs s) file (zeroes 3 ++ text "abcdef") /\
    forall v, ~ Spec.open_version (AppState.repo s) file v.
Proof.
  exact (mount_to_chunks config in_order bad_net 6 id http_reachable stream no_faults healthy id (fun l => Permutation_refl l)
    opened events written 2 file (zeroes 3 ++ text "abcdef") synced known_files
    http_opened_sound http_opened_shows http_events_run ltac:(vm_compute; reflexivity) ltac:(vm_compute; reflexivity) fsync_run).
Defined.

(** *** The client *)

Definition new_request : CreateNodeRequest :=
  {| cn_parent_id := root; cn_name := [x62]; cn_kind := NodeModel.File; cn_mode := 420; cn_uid := 0; cn_gid := 0;
     cn_link_target := None; cn_idempotency_key := 7%N |}.

(** The answer to the create is lost, the retry finds the node, and one node was made. *)
Lemma retries_apply_once_witness :
  exists node c' n, http_create_node bad_net 6 new_request start = (Ok node, c') /\ node = node_to_response n /\
    made new_request empty_file n (HttpClient.server c').
Proof.
  destruct (retries_apply_once bad_net 6 bad_gateways start) as [Hcreate _].
  specialize (Hcreate new_request ltac:(vm_compute; reflexivity)).
  assert (Hok : match (http_create_node bad_net 6 new_request start).1 with Ok _ => true | Err _ => false end = true)
    by (vm_compute; reflexivity).
  destruct (http_create_node bad_net 6 new_request start) as [[node|e] c']; [|discriminate Hok].
  destruct Hcreate as [_ Hmade]. destruct (Hmade node eq_refl) as (n & Hn & Hm). exists node, c', n. auto.
Defined.

Lemma bad_outage (c : Http) lane : exists j, (j <= 6)%nat /\ outage (bad_net (time c) lane) 0 j.
Proof.
  exists 2%nat. split; [lia|]. split; [|reflexivity]. intros [|[|i]] Hi; [right; by left| |lia].
  right. right. exists 503. split; [reflexivity|]. unfold gateway_status. lia.
Qed.

Lemma outage_is_survived_witness :
  (exists c', http_write_file config bad_net 6 file 3 (text "abcdef") start = (Ok 6, c') /\
     file_bytes config in_order (HttpClient.server c') file = Some (zeroes 3 ++ text "abcdef")) /\
  http_read_file config in_order bad_net 6 file 3 10 start = Ok [].
Proof.
  destruct (outage_is_survived config in_order bad_net 6 id http_reachable start file [] 3 (text "abcdef") 10
    start_consistent file_is_empty ltac:(lia) ltac:(lia) ltac:(discriminate) ltac:(vm_compute; reflexivity) ltac:(vm_compute; discriminate)
    (bad_outage start)) as (Hw & _ & Hr).
  split; [exact Hw|exact Hr].
Defined.

Lemma start_entries : Namespace.entries_ok (AppState.repo empty_file).
Proof.
  assert (Hnodes : exists n1 n0, MemoryRepo.nodes (AppState.repo empty_file) = <[file := n1]> {[ root := n0 ]} /\
    MemoryRepo.root_id (AppState.repo empty_file) = root /\
    Records.n_id n1 = file /\ Records.n_id n0 = root /\ Records.n_kind n0 = "directory"%string /\
    Records.n_parent_id n1 = Some root /\ Records.n_parent_id n0 = None)
    by (do 2 eexists; split; [reflexivity|]; by split_and!).
  destruct Hnodes as (n1 & n0 & Heq & Hroot & Hi1 & Hi0 & Hk0 & Hp1 & Hp0).
  assert (Hlook : forall k n, MemoryRepo.nodes (AppState.repo empty_file) !! k = Some n -> k = file /\ n = n1 \/ k = root /\ n = n0).
  { intros k n. rewrite Heq, lookup_insert. case_decide; [intros [= <-]; by left|].
    rewrite lookup_singleton. case_decide; [intros [= <-]; by right|done]. }
  split.
  - intros k n [[-> ->]|[-> ->]]%Hlook; done.
  - intros k n p [[-> ->]|[-> ->]]%Hlook Hp; [|congruence]. assert (p = root) as -> by congruence.
    exists n0. split; [|done]. rewrite Heq. by vm_compute.
  - intros k1 m1 k2 m2 p [[-> ->]|[-> ->]]%Hlook [[-> ->]|[-> ->]]%Hlook; congruence.
  - exists n0. rewrite Hroot. split; [rewrite Heq; by vm_compute|done].
Qed.
Lemma start_few : Namespace.few_children (AppState.repo empty_file).
Proof.
  intros p. assert (Hv : length (hm_values (MemoryRepo.nodes (AppState.repo empty_file))) = 2%nat) by (vm_compute; reflexivity).
  unfold len. pose proof (length_filter (fun n => MemoryRepo.is_in p n = true) (hm_values (MemoryRepo.nodes (AppState.repo empty_file)))). lia.
Qed.


(** *** A replay that is not known to be one *)

(** The first answer is lost, the second arrives. *)
Definition once_lost (t : nat) (lane : Z) (k : nat) : Fate := match k with 0%nat => AnswerLost | _ => Answered end.

(** With one attempt and the last try, the last try is a replay, but it is not marked as
    one: the client reports a conflict with the node it has just made, and that the node
    it has just deleted is missing. *)
Lemma last_try_meets_itself :
  let '(r, c) := http_create_node once_lost 1 new_request start in
  r = Err AlreadyExists /\ is_Some (MemoryRepo.nodes (AppState.repo (HttpClient.server c)) !! 7%N) /\
  let '(r, c) := http_delete_node once_lost 1 7%N c in
  r = Err Client.NotFound /\ MemoryRepo.nodes (AppState.repo (HttpClient.server c)) !! 7%N = None.
Proof. vm_compute. split; [done|]. split; [by eexists|done]. Qed.

End HttpExample.
