(* ===== verification/KernelHttp.v ===== *)
(** * Reading a directory

    The path of a directory listing from the server to the kernel: the kernel reads a
    directory of the server of [Nodes] through the adapter of [Kernel], the mount of
    [Mount] and the client of [HttpClient], over a network with outages. *)
From S2P Require Import Prelude Core Crypto ObjectStore Repository Locks Server Data DataSpec DataWrite DataRead Example DataProps Nodes BlockCache WriteLog Mount MountFacts MountRecovery Kernel KernelProps HttpClient HttpProps HttpRetry HttpExample.

Module KernelHttp.
Import Records MemoryRepo AppState Nodes Client Mount MountSpec DiscordFs KernelFacts HttpClient HttpFacts Namespace HttpRetry.

Section Listing.
Context `{AL : AeadLaws} `{HO : HashOrder} {S : Type} `{OL : Store.ObjectStoreLaws S} (state : Config).
Context (sched : nat -> nat) (net : nat -> Z -> nat -> Fate) (max_attempts : nat) (idle : AppState.World S -> AppState.World S).
Context (disk_faults : nat -> BlockCache.Key -> bool) (log_faults : nat -> option nat)
  (full : list DirReply -> DirReply -> bool) (pages : nat).
#[local] Instance client : ServerClient (t (S := S)) := http_client state sched net max_attempts idle.

(** No outage is longer than the retries, and what else happens at the server leaves the
    namespace alone. *)
Hypothesis Hnet : forall time lane, exists j, (j <= max_attempts)%nat /\ outage (net time lane) 0 j.
Hypothesis Hidle : forall s, nodes (repo (idle s)) = nodes (repo s).

Definition holds (tab : gmap Uuid NodeRecord) (c : t (S := S)) : Prop := table (server c) = tab.

(** A query that is answered leaves the namespace as it is, so its answer arrives. *)
Lemma fetch_answered {A} tab (handler : AppState.M S A) lane c (a : A) :
  (forall s, table s = tab -> exists s', handler s = (Ok a, s') /\ table s' = tab) -> holds tab c ->
  fetch net max_attempts handler ok_status lane json_or_not_found c = Ok a.
Proof.
  intros Hh Hc. destruct (Hnet (time c) lane) as (j & Hj & Hout).
  destruct (retry_answered handler ok_status (net (time c) lane) (fun s => table s = tab) max_attempts 0 j false (server c))
    as (s0 & a' & s' & r & Hs0 & Hr & Hsend); [|done|done|done|].
  - intros s Hs. destruct (Hh s Hs) as (s' & Hr & Hs'). exists a, s'. unfold ok_status. by split_and!.
  - unfold fetch, exchange, send_retrying. rewrite Hsend. destruct (Hh s0 Hs0) as (s1 & Hr' & _). rewrite Hr in Hr'. by injection Hr' as -> ->.
Qed.

Definition in_dir (id : Uuid) (tab : gmap Uuid NodeRecord) : list NodeRecord :=
  filter (fun n => is_in id n = true) (hm_values tab).

Lemma server_serves_dir tab id n : tab !! id = Some n ->
  serves_dir (holds tab) id (node_to_response n) (node_to_response <$> in_dir id tab).
Proof.
  intros Hn. split.
  - intros c Hc. unfold holds in *. simpl. by rewrite Hidle.
  - intros c Hc. apply (fetch_answered tab); [|done]. intros s <-. exists s. split; [|done].
    unfold Nodes.get_node, mbind, AppState.M_bind, AppState.query, MemoryRepo.get_node. by rewrite Hn.
  - intros c offset Hc Hoff. unfold list_children. simpl. unfold http_list_children.
    set (l := ztake PAGE (zdrop offset (in_dir id tab))).
    rewrite (fetch_answered tab _ _ _ (node_to_response <$> l, len l =? PAGE)); [|intros s Hs; exists s; split; [by subst tab|done]|done].
    unfold mbind, result_bind, mret, result_ret. cbn [fst]. f_equal. unfold l. by rewrite !ztake_take, !zdrop_drop, fmap_take, fmap_drop.
Qed.

Lemma elem_in_dir id tab m : (forall k n, tab !! k = Some n -> n_id n = k) ->
  m ∈ in_dir id tab <-> tab !! n_id m = Some m /\ n_parent_id m = Some id.
Proof.
  intros Hids. unfold in_dir. rewrite list_elem_of_filter, elem_of_hm_values. unfold is_in. rewrite bool_decide_eq_true. split.
  - intros (Hp & k & Hk). by rewrite (Hids _ _ Hk).
  - intros (Hm & Hp). by split; [|exists (n_id m)].
Qed.

Lemma in_dir_NoDup id tab : (forall k n, tab !! k = Some n -> n_id n = k) -> NoDup (n_id <$> in_dir id tab).
Proof.
  intros Hids. unfold in_dir. eapply (sublist_NoDup _ (n_id <$> hm_values tab)).
  - unfold hm_values. rewrite <-list_fmap_compose.
    rewrite (list_fmap_ext _ (@fst Uuid NodeRecord)); [rewrite hm_iter_perm; apply NoDup_fst_map_to_list|].
    intros i [k n] Hin%list_elem_of_lookup_2%elem_of_hm_iter. by apply Hids.
  - apply fmap_sublist, sublist_filter.
Qed.

(** C19 A directory is read whole. The kernel reads a directory of the server with calls
    that each ask to go on from where the reply before ended: however few entries fit a
    reply, as long as one does, and over a network with outages no longer than the
    retries, in a mount that has no write buffered and while nobody changes the namespace,
    every call is answered, and by the time a reply is empty, after no more calls than
    there are entries and one, the kernel has been given the directory itself, its
    parent and each entry of the directory on the server once, with its name and kind and
    a number that now leads to that node. Numbers given before still lead where they
    led. *)
Theorem readdir_is_whole calls ino id n k tab :
  (forall k n, tab !! k = Some n -> n_id n = k) -> tab !! id = Some n -> n_kind n = "directory"%string ->
  len (in_dir id tab) + PAGE < 2 ^ 32 -> len (in_dir id tab) < PAGE * Z.of_nat pages -> (length (in_dir id tab) + 2 < calls)%nat ->
  (forall d, full [] d = false) ->
  holds tab (srv (mount k)) -> pending (fs (mount k)) = ∅ -> inodes_ok (inodes (fs (mount k))) ->
  by_ino (inodes (fs (mount k))) !! ino = Some id -> 0 <= Mount.next (inodes (fs (mount k))) < 2 ^ 63 ->
  exists parent entries k', read_all disk_faults log_faults full pages calls ino 0 k = (Some (numbered 0
      ({| de_ino := ino; de_kind := NodeModel.Directory; de_name := [x2e] |}
       :: {| de_ino := parent; de_kind := NodeModel.Directory; de_name := [x2e; x2e] |} :: entries)), k') /\
    match n_parent_id n with Some p => by_ino (inodes (fs (mount k'))) !! parent = Some p | None => parent = ino end /\
    (exists children, NoDup (n_id <$> children) /\
       (forall m, m ∈ children <-> tab !! n_id m = Some m /\ n_parent_id m = Some id) /\
       Forall2 (fun e m => de_name e = n_name m /\ de_kind e = nr_kind (node_to_response m) /\
         by_ino (inodes (fs (mount k'))) !! de_ino e = Some (n_id m)) entries children) /\
    by_ino (inodes (fs (mount k))) ⊆ by_ino (inodes (fs (mount k'))) /\ holds tab (srv (mount k')).
Proof.
  intros Hids Hn Hkind Hmany Hpages Hcalls Hfull Hs Hclean Hok Hino [Hpos Hnext].
  destruct (read_all_whole disk_faults log_faults full pages (holds tab) id (node_to_response n) (node_to_response <$> in_dir id tab)
    (server_serves_dir tab id n Hn)) with (calls := calls) (ino := ino) (k := k)
    as (parent & entries & k' & Hrun & Hpar & Hall & Hsub & Hs'); try (unfold len in *; rewrite length_fmap; done); try done.
  - simpl. by rewrite Hkind.
  - exists parent, entries, k'. split; [exact Hrun|]. split; [exact Hpar|]. split; [|by split].
    exists (in_dir id tab). split; [by apply in_dir_NoDup|]. split; [intros m; by apply elem_in_dir|].
    by rewrite Forall2_fmap_r in Hall.
Qed.

End Listing.
End KernelHttp.

(** ** A directory over a bad network *)

Module KernelHttpExample.
Import Client Mount MountSpec MountFacts Recovery DiscordFs KernelFacts KernelHttp HttpClient HttpRetry Example HttpExample.

(** One entry fits a reply. *)
Definition one_fits (added : list DirReply) (_ : DirReply) : bool := bool_decide (1 <= length added)%nat.
#[local] Instance behind : ServerClient Http := KernelHttp.client config in_order bad_net 6 id.
Definition begun : Kernel (S := Http) := {| mount := fresh_mount; DiscordFs.table := HandleTable.new |}.
Abbreviation names := (MemoryRepo.nodes (AppState.repo empty_file)).

Lemma names_keyed k n : names !! k = Some n -> Records.n_id n = k.
Proof. apply (Namespace.ent_keyed _ start_entries). Qed.
Lemma begun_inodes : inodes_ok (inodes (fs (mount begun))).
Proof.
  split_and!; simpl.
  - intros ino id. rewrite !lookup_singleton_Some. naive_solver.
  - intros ino id [<- _]%lookup_singleton_Some. lia.
  - intros ino. rewrite lookup_empty. by intros [? ?].
Qed.

Lemma readdir_is_whole_witness : exists parent entries k',
  read_all no_faults healthy one_fits 1 4 1 0 begun = (Some (numbered 0
      ({| de_ino := 1; de_kind := NodeModel.Directory; de_name := [x2e] |}
       :: {| de_ino := parent; de_kind := NodeModel.Directory; de_name := [x2e; x2e] |} :: entries)), k') /\
  by_ino (inodes (fs (mount begun))) ⊆ by_ino (inodes (fs (mount k'))).
Proof.
  assert (Hroot : exists n, names !! root = Some n /\ Records.n_kind n = "directory"%string) by (eexists; split; reflexivity).
  destruct Hroot as (n & Hn & Hkind).
  destruct (readdir_is_whole config in_order bad_net 6 id no_faults healthy one_fits 1
    (fun time lane => bad_outage {| HttpClient.server := empty_file; HttpClient.time := time |} lane) (fun _ => eq_refl)
    4 1 root n begun names names_keyed Hn Hkind)
    as (parent & entries & k' & Hrun & _ & _ & Hsub & _); [vm_compute; done|vm_compute; done|vm_compute; lia|done|done|done|exact begun_inodes|done|simpl; lia|].
  exists parent, entries, k'. split; [exact Hrun|exact Hsub].
Defined.

End KernelHttpExample.
