(* ===== verification/MountTasksExample.v ===== *)
(** * Concurrent requests through two mounts

    A mount of the in-memory server on which writes, a read and an fsync interleave; and a mount
    of the real server on which a read that was under way during a write leaves the old bytes in
    the cache. *)
From S2P Require Import Prelude Core Crypto ObjectStore Repository Locks Server Data DataSpec DataWrite DataRead Example DataProps Nodes BlockCache CacheTasks WriteLog Mount MountFacts MountRecovery FakeClient MountExample HttpClient HttpProps HttpRetry HttpExample MountTasks MountTasksProps.

Module MountTasksExample.
Import Nodes Client Journal WriteLog Mount MountSpec Recovery.
Import MountTasks(Prog, Ret, Act, Acquire, Release, program, step, run, start, world, holder, tasks, State, Request, WriteRequest, ReadRequest, GetattrRequest, FsyncRequest, FlushAllRequest, Outcome, Written, Bytes, Attributes, Synced, Flushed).
Import MountTasksFacts.

(** What has become of a task. *)
Definition outcome {S} (s : State (S := S)) (t : nat) : option (result (fault ClientError) Outcome) :=
  match tasks s !! t with Some (Ret r) => Some r | _ => None end.

(** *** Two writes, a read and an fsync, turn by turn *)

Definition uncached : World (S := FakeClient.FakeClient) := with_cache MountExample.opened None.
Definition four : gmap nat Request :=
  list_to_map [(0%nat, WriteRequest 2 0 [x61; x62]); (1%nat, WriteRequest 2 1 [x63; x64]); (2%nat, ReadRequest 2 0 10); (3%nat, FsyncRequest 2)].
Definition turns : list nat := [0; 0; 0]%nat ++ concat (replicate 20 [1; 0; 2; 3]%nat).
Abbreviation four_start := (start MountExample.stream MountExample.no_faults healthy id uncached four).
Abbreviation four_end := (run turns four_start).

Lemma uncached_sound : sound MountExample.stream uncached.
Proof. destruct MountExample.opened_sound. by constructor. Qed.
Lemma four_well_formed : map_Forall (fun _ => well_formed uncached) four.
Proof.
  intros t q Hq. apply elem_of_list_to_map_2 in Hq. rewrite !elem_of_cons, elem_of_nil in Hq.
  assert (Hview : is_Some (view uncached 2)) by (vm_compute; by eexists).
  destruct Hq as [[= -> ->]|[[= -> ->]|[[= -> ->]|[[= -> ->]|[]]]]]; simpl; split_and?; try done; vm_compute; reflexivity || discriminate.
Qed.
(** No task has ended in an error. *)
Definition unharmed {S} (s : State (S := S)) : bool :=
  forallb (fun p : nat * Prog Outcome => match p.2 with Ret (Err _) => false | _ => true end) (map_to_list (tasks s)).
Lemma unharmed_ok {S} (s : State (S := S)) : unharmed s = true -> forall t e, tasks s !! t <> Some (Ret (Err e)).
Proof.
  unfold unharmed. rewrite forallb_forall. intros Hall t e Ht. apply elem_of_map_to_list, list_elem_of_In, Hall in Ht. discriminate Ht.
Qed.

Lemma four_unharmed : unharmed four_end = true.
Proof. vm_compute. reflexivity. Qed.
Lemma four_order : lock_order turns four_start = [0; 2; 3; 1]%nat.
Proof. vm_compute. reflexivity. Qed.
Lemma four_pre_order : lock_order [0; 0; 0]%nat four_start = [0%nat].
Proof. vm_compute. reflexivity. Qed.
Lemma four_free : holder four_end = None.
Proof. vm_compute. reflexivity. Qed.
Lemma four_read : tasks four_end !! 2%nat = Some (Ret (Ok (Bytes [x61; x62]))).
Proof. vm_compute. reflexivity. Qed.

Lemma two_new : 2%nat ∉ [0; 0; 0]%nat.
Proof. set_solver. Qed.

(** The first write has the lock when the others come; the read sees it, and not the second. *)
Lemma writes_take_turns_witness :
  view (world four_end) 2 = Some [x61; x63; x64] /\ tasks four_end !! 2%nat = Some (Ret (Ok (Bytes [x61; x62]))) /\
  answered uncached (recent uncached four [0%nat] [0; 2; 3; 1]%nat) (ReadRequest 2 0 10) (Bytes [x61; x62]) (world four_end).
Proof.
  pose proof (writes_take_turns MountExample.stream MountExample.no_faults healthy id uncached four turns uncached_sound four_well_formed) as Hturns.
  cbv zeta in Hturns. rewrite four_order in Hturns.
  destruct (Hturns (unharmed_ok four_end four_unharmed)) as (_ & _ & Hview & Hans).
  split; [rewrite (Hview four_free); vm_compute; reflexivity|]. split; [exact four_read|].
  destruct (Hans 2%nat (ReadRequest 2 0 10) (Bytes [x61; x62]) eq_refl four_read) as [_ Hread].
  rewrite <-four_pre_order. apply (Hread [0; 0; 0]%nat (concat (replicate 20 [1; 0; 2; 3]%nat)) eq_refl), two_new.
Defined.

(** *** A block that outlives the write *)

#[local] Existing Instances ToyAead.toy MemoryObjectStore.memory_store Example.object_limit.
#[local] Instance net : ServerClient HttpExample.Http := HttpClient.http_client Example.config HttpExample.in_order HttpExample.good_net 6 id.
Definition old : bytes := Example.text "old!".
Definition committed : World (S := HttpExample.Http) :=
  (Mount.fsync HttpExample.no_faults healthy 2 (Mount.write HttpExample.no_faults healthy 2 0 old HttpExample.opened).2).2.
Definition around : gmap nat Request :=
  list_to_map [(0%nat, ReadRequest 2 0 4); (1%nat, WriteRequest 2 0 (Example.text "new")); (2%nat, ReadRequest 2 0 4); (3%nat, ReadRequest 2 0 4)].
(** The first read has fetched its block when the write is made; it stores it when the second
    read has sent the write to the server and emptied the cache. *)
Definition race : list nat :=
  replicate 10 0%nat ++ replicate 12 1%nat ++ replicate 10 2%nat ++ replicate 8 0%nat ++ replicate 20 2%nat ++ replicate 30 3%nat.
Definition after_race : State (S := HttpExample.Http) :=
  run race (start HttpExample.stream HttpExample.no_faults healthy id committed around).

(** The write had returned when the second and the third read were made, and the server has it;
    but both are served the old block, which has the same key while the write is not committed. *)
Theorem stale_block_served :
  outcome after_race 1 = Some (Ok (Written 3)) /\
  outcome after_race 2 = Some (Ok (Bytes old)) /\ outcome after_race 3 = Some (Ok (Bytes old)) /\
  read_file Example.file 0 4 (srv (world after_race)) = Ok (Example.text "new!").
Proof. vm_compute. split_and!; reflexivity. Qed.
End MountTasksExample.
