(* ===== verification/Versions.v ===== *)
(** * The version handlers

    Models [src/crates/dcfs-server/src/handlers/versions.rs] with the requests and
    responses of [src/crates/dcfs-protocol/src/versions.rs]: staging a version,
    uploading its chunks, and the guarded commit that makes it the file. *)
From stdpp Require Import pretty.
From S2P Require Import Prelude Crypto ObjectStore Repository Locks Server Data DataSpec DataWrite Example.

Module Versions.
Import AppErrors Records AppState.

(** The requests, without the fields the handlers ignore. *)
Record UploadChunkRequest : Type := { uc_chunk_index : Z; uc_plaintext_size : Z; uc_plaintext_hash : string }.
Record CommitVersionRequest : Type := {
  cv_total_size : Z; cv_plaintext_hash : string; cv_expected_generation : Z; cv_expected_current_version : option Uuid;
}.
Record StageVersionResponse : Type := { sv_version_id : Uuid; sv_node_id : Uuid; sv_generation : Z; sv_chunk_size : Z }.
Record UploadChunkResponse : Type := { ur_object_id : Uuid; ur_ciphertext_size : Z }.
Record CommitVersionResponse : Type := { cr_version_id : Uuid; cr_node_id : Uuid; cr_generation : Z; cr_committed_at : Z }.
Record ChunkManifestEntry : Type := { ce_chunk_index : Z; ce_object_id : Uuid; ce_plaintext_hash : string; ce_plaintext_size : Z }.

Section Handlers.
Context `{Aead} `{HashOrder} {S : Type} `{Store.ObjectStore S} (state : Config).
Abbreviation M := (AppState.M S).

Definition stage_version (node_id : Uuid) : M (Z * StageVersionResponse) :=
  node ← query (MemoryRepo.get_node node_id);
  version_id ← fresh_uuid;
  t ← now;
  version ← update (MemoryRepo.create_staging_version version_id t node_id (n_current_version_id node)
                      (i64 (chunk_size state)));
  mret (201, {| sv_version_id := v_id version; sv_node_id := node_id;
                sv_generation := u64 (n_generation node) +u 1; sv_chunk_size := u64 (v_chunk_size version) |}).

Definition upload_chunk (version_id : Uuid) (req : UploadChunkRequest) (body : bytes) : M (Z * UploadChunkResponse) :=
  version ← query (MemoryRepo.get_version version_id);
  if bool_decide (v_state version <> "staging"%string) then fail (conflict "version is no longer staging") else
  if negb (uc_plaintext_size req =? len body)
  then fail (bad_request ("plaintext_size " +:+ pretty (uc_plaintext_size req) +:+ " does not match the "
                            +:+ pretty (len body) +:+ " bytes received")) else
  let chunk_size := Z.max (v_chunk_size version) 1 in
  if chunk_size <? len body
  then fail (bad_request ("chunk is larger than the version's chunk size of " +:+ pretty chunk_size)) else
  written ← Data.write_chunk_plaintext state body (v_node_id version);
  if negb (bool_decide (uc_plaintext_hash req = ""%string)) && negb (bool_decide (uc_plaintext_hash req = written.2))
  then fail (bad_request "plaintext_hash does not match the body") else
  _ ← update (MemoryRepo.attach_chunk version_id (i64 (uc_chunk_index req))
                (i64 (uc_chunk_index req *u chunk_size)) (i32 (len body)) written.2 written.1);
  mret (201, {| ur_object_id := written.1; ur_ciphertext_size := len body +u Crypto.ciphertext_overhead (len body) |}).

Definition list_chunks (version_id : Uuid) : M (list ChunkManifestEntry) :=
  chunks ← query (MemoryRepo.get_chunks version_id);
  mret ((fun c => {| ce_chunk_index := u64 (c_chunk_index c); ce_object_id := c_object_id c;
                     ce_plaintext_hash := c_plaintext_hash c; ce_plaintext_size := u64 (c_plaintext_size c) |}) <$> chunks).

(** The manifest check: contiguous from 0, and the total size. *)
Fixpoint check_manifest (expected_index total : Z) (chunks : list FileChunkRecord) : result AppError Z :=
  match chunks with
  | [] => Ok total
  | chunk :: chunks' =>
      if negb (u64 (c_chunk_index chunk) =? expected_index)
      then Err (bad_request ("manifest has a hole: expected chunk " +:+ pretty expected_index
                               +:+ ", found " +:+ pretty (c_chunk_index chunk)))
      else check_manifest (expected_index + 1) (total +u Z.max (c_plaintext_size chunk) 0) chunks'
  end.

Definition commit_version (version_id : Uuid) (req : CommitVersionRequest) : M CommitVersionResponse :=
  version ← query (MemoryRepo.get_version version_id);
  chunks ← query (MemoryRepo.get_chunks version_id);
  match check_manifest 0 0 chunks with
  | Err e => fail e
  | Ok total =>
      if negb (total =? cv_total_size req)
      then fail (bad_request ("manifest covers " +:+ pretty total +:+ " bytes but total_size is "
                                +:+ pretty (cv_total_size req))) else
      t ← now;
      committed ← update (MemoryRepo.commit_version t
        {| g_node_id := v_node_id version; g_version_id := version_id;
           g_expected_generation := i64 (cv_expected_generation req);
           g_expected_current_version := cv_expected_current_version req |}
        (i64 (cv_total_size req)) (cv_plaintext_hash req));
      t' ← now;
      mret {| cr_version_id := v_id committed; cr_node_id := v_node_id version;
              cr_generation := cv_expected_generation req +u 1;
              cr_committed_at := default t' (v_committed_at committed) |}
  end.

Definition get_version (version_id : Uuid) : M CommitVersionResponse :=
  version ← query (MemoryRepo.get_version version_id);
  mret {| cr_version_id := v_id version; cr_node_id := v_node_id version; cr_generation := 0;
          cr_committed_at := default (v_created_at version) (v_committed_at version) |}.

End Handlers.
End Versions.

(** ** Properties *)
Module VersionsFacts.
Import Records MemoryRepo AppState Versions.

(** What the manifest check accepts. *)
Lemma check_manifest_spec chunks i total t :
  check_manifest i total chunks = Ok t <->
  (forall k c, chunks !! k = Some c -> u64 (c_chunk_index c) = i + Z.of_nat k) /\
  t = foldl (fun acc c => acc +u Z.max (c_plaintext_size c) 0) total chunks.
Proof.
  revert i total. induction chunks as [|c cs IH]; intros i total; simpl; [naive_solver|].
  destruct (Z.eqb_spec (u64 (c_chunk_index c)) i) as [Heq|Hne]; simpl.
  - rewrite IH. split; intros [Hk ->]; (split; [|done]).
    + intros [|k] d Hd; simpl in Hd; [injection Hd as <-; lia|]. rewrite (Hk k d Hd). lia.
    + intros k d Hd. rewrite (Hk (S k) d Hd). lia.
  - split; [done|]. intros [Hk _]. specialize (Hk O c eq_refl). lia.
Qed.

(** What [commit_version] of the repository does, on every branch. *)
Lemma commit_guard r t g size hash :
  match MemoryRepo.commit_version t g size hash r with
  | (Ok v, r') => exists n, nodes r !! g_node_id g = Some n /\ n_generation n = g_expected_generation g /\
      n_current_version_id n = g_expected_current_version g /\ is_Some (versions r !! g_version_id g) /\
      v_state v = "committed"%string /\ v_size v = size /\
      nodes r' = <[g_node_id g := set_content (Some (g_version_id g)) (n_generation n) size n]> (nodes r) /\
      versions r' !! g_version_id g = Some v
  | (Err e, r') => r' = r /\ (e = NotFound \/ e = Conflict)
  end.
Proof.
  unfold MemoryRepo.commit_version. destruct (nodes r !! g_node_id g) as [n|] eqn:Hn; [|by auto].
  destruct (Z.eqb_spec (n_generation n) (g_expected_generation g)) as [Hg|]; simpl; [|by auto].
  case_bool_decide as Hc; simpl; [|by auto].
  destruct (versions r !! g_version_id g) as [v|] eqn:Hv; [|by auto].
  destruct (n_current_version_id n) as [old|] eqn:Hcur.
  - rewrite lookup_alter. destruct (decide (old = g_version_id g)) as [->|]; rewrite Hv; simpl;
      (exists n; split_and!; try done; congruence || by rewrite lookup_insert_eq).
  - rewrite Hv. exists n. simpl. split_and!; try done; congruence || by rewrite lookup_insert_eq.
Qed.

Section Props.
Context `{HashOrder} {S : Type}.

Lemma commit_handler_spec (w : World S) version_id req :
  match Versions.commit_version version_id req w with
  | (Ok response, w') => exists v cs n, versions (repo w) !! version_id = Some v /\ chunks (repo w) !! version_id = Some cs /\
      (forall k c, cs !! k = Some c -> u64 (c_chunk_index c) = Z.of_nat k) /\
      cv_total_size req = foldl (fun acc c => acc +u Z.max (c_plaintext_size c) 0) 0 cs /\
      nodes (repo w) !! v_node_id v = Some n /\ n_generation n = i64 (cv_expected_generation req) /\
      n_current_version_id n = cv_expected_current_version req /\
      (exists n', nodes (repo w') !! v_node_id v = Some n' /\ n_current_version_id n' = Some version_id /\
         n_size n' = i64 (cv_total_size req)) /\
      cr_node_id response = v_node_id v
  | (Err e, w') => repo w' = repo w
  end.
Proof.
  unfold Versions.commit_version, mbind, M_bind. unfold query at 1, MemoryRepo.get_version.
  destruct (versions (repo w) !! version_id) as [v|] eqn:Hv; cbn [ok_or map_err]; [|done].
  unfold query at 1, get_chunks. destruct (chunks (repo w) !! version_id) as [cs|] eqn:Hcs; cbn [ok_or map_err]; [|done].
  destruct (check_manifest 0 0 cs) as [total|e] eqn:Hm; [|done]. apply check_manifest_spec in Hm as [Hk Ht].
  destruct (Z.eqb_spec total (cv_total_size req)) as [Heq|]; simpl; [|done].
  unfold update. cbn [repo].
  pose proof (commit_guard (repo w) (clock w (ticks w)) {| g_node_id := v_node_id v; g_version_id := version_id;
    g_expected_generation := i64 (cv_expected_generation req);
    g_expected_current_version := cv_expected_current_version req |} (i64 (cv_total_size req)) (cv_plaintext_hash req)) as Hg.
  destruct (MemoryRepo.commit_version _ _ _ _ (repo w)) as [[v'|e] r']; simpl in *.
  - destruct Hg as (n & Hn & Hgen & Hcur & _ & _ & _ & Hns & _). exists v, cs, n. split_and!; try done; [congruence|].
    eexists. rewrite Hns, lookup_insert_eq. by split_and!.
  - by destruct Hg as [-> _].
Qed.

(** A version is only committed whole and only once. When the commit handler succeeds,
    the manifest has exactly the parts 0, 1, 2, ... and their sizes add up to the
    size the client named, the node still had the generation and current version
    the client expected, and the version is the node's current one from then on;
    when it fails, the repository is unchanged. *)
Theorem commit_version_guarded (w : World S) version_id req :
  match Versions.commit_version version_id req w with
  | (Ok response, w') => exists v cs n, versions (repo w) !! version_id = Some v /\ chunks (repo w) !! version_id = Some cs /\
      (forall k c, cs !! k = Some c -> u64 (c_chunk_index c) = Z.of_nat k) /\
      cv_total_size req = foldl (fun acc c => acc +u Z.max (c_plaintext_size c) 0) 0 cs /\
      nodes (repo w) !! v_node_id v = Some n /\ n_generation n = i64 (cv_expected_generation req) /\
      n_current_version_id n = cv_expected_current_version req /\
      (exists n', nodes (repo w') !! v_node_id v = Some n' /\ n_current_version_id n' = Some version_id /\
         n_size n' = i64 (cv_total_size req))
  | (Err e, w') => repo w' = repo w
  end.
Proof.
  pose proof (commit_handler_spec w version_id req) as Hs.
  destruct (Versions.commit_version version_id req w) as [[response|e] w']; [|done].
  destruct Hs as (v & cs & n & ? & ? & ? & ? & ? & ? & ? & ? & _). by exists v, cs, n.
Qed.

(** C33 No lost update. Once a commit has gone through, a commit of a version of the same
    file that expects the state the first one expected is refused, and changes
    nothing: of two writers that started from the same version, one wins. *)
Theorem commit_excludes (w w1 : World S) v1 v2 req1 req2 response rec2 :
  Versions.commit_version v1 req1 w = (Ok response, w1) ->
  cv_expected_current_version req2 = cv_expected_current_version req1 -> cv_expected_current_version req1 <> Some v1 ->
  versions (repo w1) !! v2 = Some rec2 -> v_node_id rec2 = cr_node_id response ->
  exists e w2, Versions.commit_version v2 req2 w1 = (Err e, w2) /\ repo w2 = repo w1.
Proof.
  intros Hc Hexp Hne Hv2 Hnode.
  pose proof (commit_handler_spec w v1 req1) as H1. rewrite Hc in H1.
  destruct H1 as (r1 & _ & _ & _ & _ & _ & _ & _ & _ & _ & (n' & Hn' & Hcur' & _) & Hid).
  pose proof (commit_handler_spec w1 v2 req2) as H2. destruct (Versions.commit_version v2 req2 w1) as [[resp2|e] w2].
  - exfalso. destruct H2 as (v & _ & n & Hv & _ & _ & _ & Hn & _ & Hcur & _). congruence.
  - by exists e, w2.
Qed.

End Props.
(** *** Witness: two versions staged from the same empty file *)

Import Example.

Definition staged : World MemoryObjectStore.t :=
  ((_ ← stage_version config file; stage_version config file) empty_file).2.
Definition no_parts : CommitVersionRequest :=
  {| cv_total_size := 0; cv_plaintext_hash := ""; cv_expected_generation := 2; cv_expected_current_version := None |}.

Lemma commit_excludes_witness : exists e w2,
  Versions.commit_version 101%N no_parts (Versions.commit_version 100%N no_parts staged).2 = (Err e, w2) /\
  repo w2 = repo (Versions.commit_version 100%N no_parts staged).2.
Proof.
  eapply (commit_excludes staged _ 100%N 101%N no_parts no_parts);
    [vm_compute; reflexivity|reflexivity|discriminate|vm_compute; reflexivity|reflexivity].
Defined.

End VersionsFacts.
