(* ===== verification/Auth.v ===== *)
(** * Authentication and sessions

    Models [src/crates/dcfs-server/src/auth.rs] (the credentials a request presents, the
    comparison with the configured token, the two layers that let a request
    through) and [handlers/sessions.rs] (issuing and revoking sessions). Strings are
    their bytes; a header value is what [to_str] returned for it. *)
From Stdlib.Strings Require String.
From S2P Require Import Prelude Crypto ObjectStore Repository Locks Server Example.

Module Auth.
Import AppErrors Records AppState.

Definition str (s : string) : bytes := String.list_byte_of_string s.

(** *** String operations of the standard library *)

Definition strip_prefix (prefix s : bytes) : option bytes :=
  if bool_decide (ztake (len prefix) s = prefix) then Some (zdrop (len prefix) s) else None.

(** [split_once(c)] at the first occurrence. *)
Fixpoint split_once (c : byte) (s : bytes) : option (bytes * bytes) :=
  match s with
  | [] => None
  | b :: s' =>
      if bool_decide (b = c) then Some ([], s')
      else match split_once c s' with Some (l, r) => Some (b :: l, r) | None => None end
  end.
Fixpoint split_on (c : byte) (s : bytes) : list bytes :=
  match s with
  | [] => [[]]
  | b :: s' =>
      if bool_decide (b = c) then [] :: split_on c s'
      else match split_on c s' with seg :: segs => (b :: seg) :: segs | [] => [[b]] end
  end.
Definition is_space (b : byte) : bool :=
  bool_decide (b ∈ [x20; x09; x0a; x0b; x0c; x0d]).
Fixpoint trim_left (s : bytes) : bytes :=
  match s with b :: s' => if is_space b then trim_left s' else s | [] => [] end.
Definition trim (s : bytes) : bytes := rev (trim_left (rev (trim_left s))).

(** [String::from_utf8]: well-formed UTF-8, by the table of the Unicode standard. *)
Definition within (lo hi : Z) (b : byte) : bool := (lo <=? byte_to_Z b) && (byte_to_Z b <=? hi).
Fixpoint is_utf8 (n : nat) (s : bytes) : bool :=
  match n with
  | O => bool_decide (s = [])
  | S n' =>
      match s with
      | [] => true
      | a :: s1 =>
          if within 0 127 a then is_utf8 n' s1 else
          match s1 with
          | b :: s2 =>
              if within 194 223 a then within 128 191 b && is_utf8 n' s2 else
              match s2 with
              | c :: s3 =>
                  let second := if byte_to_Z a =? 224 then within 160 191 b
                                else if byte_to_Z a =? 237 then within 128 159 b else within 128 191 b in
                  if within 224 239 a then second && within 128 191 c && is_utf8 n' s3 else
                  match s3 with
                  | d :: s4 =>
                      let second := if byte_to_Z a =? 240 then within 144 191 b
                                    else if byte_to_Z a =? 244 then within 128 143 b else within 128 191 b in
                      within 240 244 a && second && within 128 191 c && within 128 191 d && is_utf8 n' s4
                  | [] => false
                  end
              | [] => false
              end
          | [] => false
          end
      end
  end.
Definition from_utf8 (s : bytes) : option bytes := if is_utf8 (length s) s then Some s else None.

(** *** Credentials *)

Definition ALPHABET : bytes := str "ABCDEFGHIJKLMNOPQRSTUVWXYZabcdefghijklmnopqrstuvwxyz0123456789+/".
Definition position (b : byte) : option Z := (fun p : nat * byte => Z.of_nat p.1) <$> list_find (fun c => c = b) ALPHABET.
(** [u8::is_ascii_whitespace]. *)
Definition is_ascii_whitespace (b : byte) : bool := bool_decide (b ∈ [x20; x09; x0a; x0c; x0d]).

(** The loop of [base64_decode]: [buffer] and [bits] are [u32]s. *)
Fixpoint base64_loop (input : bytes) (buffer bits : Z) (out : bytes) : option bytes :=
  match input with
  | [] => Some out
  | b :: input' =>
      if bool_decide (b = x3d) || is_ascii_whitespace b then base64_loop input' buffer bits out else
      value ← position b;
      let buffer := Z.lor (u32 (Z.shiftl buffer 6)) value in
      let bits := bits + 6 in
      if 8 <=? bits
      then base64_loop input' buffer (bits - 8) (out ++ [byte_of_Z (Z.shiftr buffer (bits - 8))])
      else base64_loop input' buffer bits out
  end.
Definition base64_decode (input : bytes) : option bytes := base64_loop input 0 0 [].

Definition presented_token (header_value : bytes) : option bytes :=
  match strip_prefix (str "Bearer ") header_value with
  | Some token => Some token
  | None =>
      encoded ← strip_prefix (str "Basic ") header_value;
      decoded ← base64_decode encoded;
      decoded ← from_utf8 decoded;
      '(_, password) ← split_once x3a decoded;
      Some password
  end.

Definition SESSION_COOKIE : bytes := str "dcfs_session".
Definition cookie_value (pair : bytes) : option bytes :=
  match split_once x3d (trim pair) with
  | Some (name, value) => if bool_decide (name = SESSION_COOKIE) then Some value else None
  | None => None
  end.
Definition session_cookie (header_value : bytes) : option bytes := head (omap cookie_value (split_on x3b header_value)).

(** One step of the comparison, and the comparison. *)
Definition constant_time_eq (a b : bytes) : bool :=
  let different := u8 (Z.lxor (len a) (len b)) in
  let different := foldl (fun acc i => Z.lor acc (Z.lxor (byte_to_Z (getb a i)) (byte_to_Z (getb b i)))) different
                     (seqZ 0 (Z.max (len a) (len b))) in
  different =? 0.
Definition token_matches (presented expected : bytes) : bool := constant_time_eq presented expected.

Section Layers.
Context `{Aead} `{HashOrder} {S : Type} (state : Config).
Abbreviation M := (AppState.M S).

Definition hash_token (token : bytes) : string := Crypto.hash_data token.

(** The headers of a request that carry a credential. *)
Record Headers : Type := { authorization : option bytes; cookie : option bytes }.

Definition presented (h : Headers) : bytes :=
  default [] (match authorization h ≫= presented_token with
              | Some token => Some token
              | None => cookie h ≫= session_cookie
              end).

(** What a layer decides: run the request, as a session or not, or refuse it. *)
Inductive verdict : Type := Run (session : option Uuid) | Refuse (e : AppError).

Definition unauthorized (m : string) : AppError := {| status := 401; code := Unauthorized; message := m |}.

Definition require_token (h : Headers) : M verdict :=
  match api_token state with
  | None => mret (Run None)
  | Some expected =>
      let p := presented h in
      if constant_time_eq p (str expected) then mret (Run None) else
      if negb (bool_decide (p = [])) then
        t ← now;
        found ← ask (MemoryRepo.find_session t (hash_token p));
        match found with
        | Ok session => mret (Run (Some (s_id session)))
        | Err _ => mret (Refuse (unauthorized "unauthorized"))
        end
      else mret (Refuse (unauthorized "unauthorized"))
  end.

Definition require_bootstrap_token (h : Headers) : M verdict :=
  match api_token state with
  | None => mret (Run None)
  | Some expected =>
      if constant_time_eq (presented h) (str expected) then mret (Run None)
      else mret (Refuse (unauthorized "this endpoint needs the bootstrap token"))
  end.

(** *** Sessions *)

Definition MAX_TTL_SECS : Z := 30 * 24 * 60 * 60.
Definition DEFAULT_TTL_SECS : Z := 24 * 60 * 60.
Definition NANOS : Z := 1000000000.

Record CreateSessionRequest : Type := { ttl_secs : option Z; label : option string }.
Record CreateSessionResponse : Type := { cs_id : Uuid; cs_token : bytes; cs_expires_at : Z }.

(** [random] is what the operating system's generator gave, or that it failed. *)
Definition create_session (random : option bytes) (body : option CreateSessionRequest) : M (Z * CreateSessionResponse) :=
  let request := default {| ttl_secs := None; label := None |} body in
  let ttl := Z.min MAX_TTL_SECS (Z.max 1 (default DEFAULT_TTL_SECS (ttl_secs request))) in
  let label := default ""%string (label request) in
  if 200 <? len (str label) then fail (bad_request "label is too long") else
  match random with
  | None => fail (internal "cannot generate a token")
  | Some random =>
      let token := str (Crypto.to_hex random) in
      id ← fresh_uuid;
      t ← now;
      let expires_at := t + ttl * NANOS in
      t' ← now;
      session ← update (MemoryRepo.create_session t' id (hash_token token) label expires_at);
      mret (201, {| cs_id := s_id session; cs_token := token; cs_expires_at := s_expires_at session |})
  end.

Definition revoke_session (id : Uuid) : M Z :=
  _ ← update (MemoryRepo.revoke_session id);
  mret 204.

End Layers.
End Auth.

(** ** Lemmas *)
Module AuthFacts.
Import AppErrors Records AppState Auth.

(** *** The comparison *)

Lemma lor_fold_zero (f : Z -> Z) l acc :
  foldl (fun acc i => Z.lor acc (f i)) acc l = 0 <-> acc = 0 /\ (forall i, i ∈ l -> f i = 0).
Proof.
  revert acc. induction l as [|x l IH]; intros acc; simpl; [set_solver|].
  rewrite IH, Z.lor_eq_0_iff. set_solver.
Qed.

Lemma low_byte_of_xor a b : u8 (Z.lxor a b) = 0 <-> a mod 256 = b mod 256.
Proof.
  unfold u8. change 256 with (2 ^ 8). rewrite <-!Z.land_ones by lia.
  assert (Z.land (Z.lxor a b) (Z.ones 8) = Z.lxor (Z.land a (Z.ones 8)) (Z.land b (Z.ones 8))) as ->.
  { apply Z.bits_inj. intros n. rewrite !Z.land_spec, !Z.lxor_spec, !Z.land_spec.
    by destruct (Z.testbit a n), (Z.testbit b n), (Z.testbit (Z.ones 8) n). }
  apply Z.lxor_eq_0_iff.
Qed.

Lemma constant_time_eq_spec a b :
  constant_time_eq a b = true <->
  len a mod 256 = len b mod 256 /\ (forall i, 0 <= i < Z.max (len a) (len b) -> getb a i = getb b i).
Proof.
  unfold constant_time_eq. rewrite Z.eqb_eq, lor_fold_zero, low_byte_of_xor.
  apply and_iff_compat_l. split; intros Hall i Hi.
  - specialize (Hall i). rewrite elem_of_seqZ, Z.lxor_eq_0_iff in Hall. apply byte_to_Z_inj, Hall. lia.
  - apply elem_of_seqZ in Hi. rewrite Hall by lia. apply Z.lxor_nilpotent.
Qed.

Lemma constant_time_eq_refl a : constant_time_eq a a = true.
Proof. by apply constant_time_eq_spec. Qed.

Lemma padded a b :
  len b <= len a -> (forall i, 0 <= i < len a -> getb a i = getb b i) -> a = b ++ zeroes (len a - len b).
Proof.
  intros Hl Hall. pose proof (len_nonneg b). apply getb_ext.
  - rewrite len_app, len_zeroes. lia.
  - intros i Hi. rewrite Hall, getb_app, getb_zeroes by lia.
    destruct (Z.ltb_spec i (len b)); [done|]. by apply getb_over.
Qed.

(** What the comparison of secrets accepts: two strings compare equal exactly when
    they are equal, or one is the other followed by a multiple of 256 NUL bytes, because
    only the low byte of the lengths is compared. *)
Theorem constant_time_eq_exact a b :
  constant_time_eq a b = true <->
  exists k, 0 <= k /\ (a = b ++ zeroes (256 * k) \/ b = a ++ zeroes (256 * k)).
Proof.
  rewrite constant_time_eq_spec. pose proof (len_nonneg a). pose proof (len_nonneg b). split.
  - intros [Hm Hall]. destruct (Z.le_ge_cases (len b) (len a)).
    + exists ((len a - len b) / 256). split; [dlia|]. left.
      replace (256 * _) with (len a - len b) by dlia. apply padded; [lia|]. intros. apply Hall. lia.
    + exists ((len b - len a) / 256). split; [dlia|]. right.
      replace (256 * _) with (len b - len a) by dlia. apply padded; [lia|]. intros. symmetry. apply Hall. lia.
  - assert (Hpad : forall c k, 0 <= k -> len (c ++ zeroes (256 * k)) mod 256 = len c mod 256 /\
      forall i, 0 <= i -> getb (c ++ zeroes (256 * k)) i = getb c i).
    { intros c k Hk. rewrite len_app, len_zeroes. split; [dlia|]. intros i Hi.
      rewrite getb_app, getb_zeroes. destruct (Z.ltb_spec i (len c)); [done|]. by rewrite getb_over. }
    intros (k & Hk & [->| ->]); edestruct Hpad as [Hm Hg]; try exact Hk; (split; [rewrite Hm; done|]);
      intros i Hi; rewrite Hg by lia; done.
Qed.

(** *** Base64 *)

(** The standard encoding, by groups of three bytes. *)
Definition sextet (v : Z) : byte := nth (Z.to_nat v) ALPHABET x00.
Fixpoint base64_encode (l : bytes) : bytes :=
  match l with
  | [] => []
  | [a] => let a := byte_to_Z a in [sextet (a / 4); sextet (a mod 4 * 16); x3d; x3d]
  | [a; b] =>
      let a := byte_to_Z a in let b := byte_to_Z b in
      [sextet (a / 4); sextet (a mod 4 * 16 + b / 16); sextet (b mod 16 * 4); x3d]
  | a :: b :: c :: l' =>
      let a := byte_to_Z a in let b := byte_to_Z b in let c := byte_to_Z c in
      [sextet (a / 4); sextet (a mod 4 * 16 + b / 16); sextet (b mod 16 * 4 + c / 64); sextet (c mod 64)]
      ++ base64_encode l'
  end.

Lemma sextet_position v : 0 <= v < 64 ->
  position (sextet v) = Some v /\ bool_decide (sextet v = x3d) || is_ascii_whitespace (sextet v) = false.
Proof.
  intros Hv.
  assert (Hall : Forall (fun v => position (sextet v) = Some v /\
    bool_decide (sextet v = x3d) || is_ascii_whitespace (sextet v) = false) (seqZ 0 64)).
  { repeat constructor. }
  rewrite Forall_forall in Hall. apply Hall, elem_of_seqZ. lia.
Qed.

Lemma lor_low x v : 0 <= v < 64 -> Z.lor (Z.shiftl x 6) v = x * 64 + v.
Proof.
  intros Hv. assert (Hland : Z.land (Z.shiftl x 6) v = 0).
  { apply Z.bits_inj'. intros n Hn. rewrite Z.land_spec, Z.bits_0.
    destruct (Z.lt_ge_cases n 6); [by rewrite Z.shiftl_spec_low|].
    assert (v / 2 ^ n = 0) as Hz.
    { apply Z.div_small. split; [lia|]. pose proof (Z.pow_le_mono_r 2 6 n). lia. }
    replace (Z.testbit v n) with false; [apply andb_false_r|].
    symmetry. apply Z.testbit_false; [done|]. by rewrite Hz. }
  rewrite <-Z.lxor_lor, <-Z.add_nocarry_lxor by done. rewrite Z.shiftl_mul_pow2 by lia. done.
Qed.

(** One symbol: [rest] is what the [bits] bits of the buffer not yet output hold, and
    [e] is a whole byte once there are eight. *)
Definition pending (buffer bits rest : Z) : Prop := buffer mod 2 ^ bits = rest.

Lemma shift_in buffer bits rest v :
  pending buffer bits rest -> bits ∈ [0; 2; 4; 6] -> 0 <= v < 64 ->
  pending (Z.lor (u32 (Z.shiftl buffer 6)) v) (bits + 6) (rest * 64 + v).
Proof.
  intros <- Hbits Hv. unfold pending.
  assert (u32 (Z.shiftl buffer 6) = Z.shiftl (buffer mod 2 ^ 26) 6) as ->.
  { unfold u32. rewrite !Z.shiftl_mul_pow2 by lia. dlia. }
  rewrite lor_low by lia. set_unfold. destruct Hbits as [->|[->|[->|[->|[]]]]]; simpl; dlia.
Qed.

Lemma loop_keep buffer bits rest v input out :
  pending buffer 0 rest -> 0 <= v < 64 -> bits = 0 ->
  exists buffer', pending buffer' 6 v /\ base64_loop (sextet v :: input) buffer bits out = base64_loop input buffer' 6 out.
Proof.
  intros Hp Hv ->. destruct (sextet_position v Hv) as [Hpos Hskip].
  eexists. split; [|simpl; rewrite Hskip, Hpos; reflexivity].
  eapply shift_in in Hp; [|set_solver|exact Hv]. unfold pending in *. simpl in *. dlia.
Qed.

Lemma byte_of_Z_u8 x y : u8 x = u8 y -> byte_of_Z x = byte_of_Z y.
Proof. unfold byte_of_Z. by intros ->. Qed.

Lemma loop_emit buffer bits rest v input out b rest' :
  pending buffer bits rest -> bits ∈ [2; 4; 6] -> 0 <= v < 64 ->
  rest * 64 + v = byte_to_Z b * 2 ^ (bits - 2) + rest' -> 0 <= rest' < 2 ^ (bits - 2) ->
  exists buffer', pending buffer' (bits - 2) rest' /\
    base64_loop (sextet v :: input) buffer bits out = base64_loop input buffer' (bits - 2) (out ++ [b]).
Proof.
  intros Hp Hb Hv Heq Hr. destruct (sextet_position v Hv) as [Hpos Hskip].
  eapply shift_in in Hp; [|set_solver|exact Hv].
  assert (H8 : (8 <=? bits + 6) = true) by (apply Z.leb_le; set_unfold in Hb; lia).
  exists (Z.lor (u32 (Z.shiftl buffer 6)) v). simpl. rewrite Hskip, Hpos. simpl. rewrite H8.
  generalize dependent (Z.lor (u32 (Z.shiftl buffer 6)) v). intros buffer' Hp.
  replace (bits + 6 - 8) with (bits - 2) by lia. unfold pending in *. rewrite Heq in Hp.
  pose proof (byte_to_Z_range b).
  assert (byte_of_Z (Z.shiftr buffer' (bits - 2)) = b) as ->.
  { transitivity (byte_of_Z (byte_to_Z b + 256 * 0)); [|apply byte_of_to_Z]. apply byte_of_Z_u8. unfold u8.
    rewrite Z.shiftr_div_pow2 by (set_unfold in Hb; lia).
    set_unfold in Hb. destruct Hb as [->|[->|[->|[]]]]; simpl in *; dlia. }
  split; [|done]. set_unfold in Hb. destruct Hb as [->|[->|[->|[]]]]; simpl in *; dlia.
Qed.

Lemma loop_byte1 a h input buffer out :
  0 <= h < 16 -> exists buffer', pending buffer' 4 h /\
    base64_loop (sextet (byte_to_Z a / 4) :: sextet (byte_to_Z a mod 4 * 16 + h) :: input) buffer 0 out =
    base64_loop input buffer' 4 (out ++ [a]).
Proof.
  intros Hh. pose proof (byte_to_Z_range a).
  destruct (loop_keep buffer 0 0 (byte_to_Z a / 4) (sextet (byte_to_Z a mod 4 * 16 + h) :: input) out)
    as (b1 & Hp1 & ->); [apply Z.mod_1_r|dlia|done|].
  destruct (loop_emit b1 6 _ (byte_to_Z a mod 4 * 16 + h) input out a h Hp1)
    as (b2 & Hp2 & ->); [set_solver|dlia|simpl; dlia|simpl; lia|]. by exists b2.
Qed.

Lemma loop_byte2 b g input buffer out :
  pending buffer 4 (byte_to_Z b / 16) -> 0 <= g < 4 -> exists buffer', pending buffer' 2 g /\
    base64_loop (sextet (byte_to_Z b mod 16 * 4 + g) :: input) buffer 4 out = base64_loop input buffer' 2 (out ++ [b]).
Proof.
  intros Hp Hg. pose proof (byte_to_Z_range b).
  apply (loop_emit buffer 4 (byte_to_Z b / 16)); [done|set_solver|dlia|simpl; dlia|simpl; lia].
Qed.

Lemma loop_byte3 c input buffer out :
  pending buffer 2 (byte_to_Z c / 64) -> exists buffer',
    base64_loop (sextet (byte_to_Z c mod 64) :: input) buffer 2 out = base64_loop input buffer' 0 (out ++ [c]).
Proof.
  intros Hp. pose proof (byte_to_Z_range c).
  destruct (loop_emit buffer 2 (byte_to_Z c / 64) (byte_to_Z c mod 64) input out c 0) as (b & _ & ->);
    [done|set_solver|dlia|simpl; dlia|simpl; lia|]. by exists b.
Qed.

Lemma loop_encoded l : forall buffer out, base64_loop (base64_encode l) buffer 0 out = Some (out ++ l).
Proof.
  induction l as [l IH] using (induction_ltof1 _ length). unfold ltof in IH. intros buffer out.
  destruct l as [|a [|b [|c l]]]; cbn [base64_encode app].
  - by rewrite app_nil_r.
  - destruct (loop_byte1 a 0 [x3d; x3d] buffer out) as (b1 & _ & Hl); [lia|].
    by rewrite Z.add_0_r in Hl; rewrite Hl.
  - pose proof (byte_to_Z_range b).
    destruct (loop_byte1 a (byte_to_Z b / 16) [sextet (byte_to_Z b mod 16 * 4); x3d] buffer out)
      as (b1 & Hp1 & ->); [dlia|].
    destruct (loop_byte2 b 0 [x3d] b1 (out ++ [a]) Hp1) as (b2 & _ & Hl); [lia|].
    rewrite Z.add_0_r in Hl. rewrite Hl. simpl. by rewrite <-app_assoc.
  - pose proof (byte_to_Z_range b). pose proof (byte_to_Z_range c).
    edestruct (loop_byte1 a (byte_to_Z b / 16)) as (b1 & Hp1 & ->); [dlia|].
    edestruct (loop_byte2 b (byte_to_Z c / 64)) as (b2 & Hp2 & ->); [exact Hp1|dlia|].
    edestruct (loop_byte3 c) as (b3 & ->); [exact Hp2|].
    rewrite IH by (simpl; lia). by rewrite <-!app_assoc.
Qed.

Lemma split_once_app c l r : (c ∉ l) -> split_once c (l ++ c :: r) = Some (l, r).
Proof.
  induction l as [|b l IH]; intros Hc; simpl.
  - by rewrite bool_decide_true.
  - rewrite bool_decide_false, IH by set_solver. done.
Qed.

Lemma strip_prefix_app p s : strip_prefix p (p ++ s) = Some s.
Proof.
  unfold strip_prefix. rewrite bool_decide_true.
  - by rewrite zdrop_app_r, Z.sub_diag, zdrop_0.
  - by rewrite ztake_app_l, ztake_all.
Qed.

(** Basic credentials. Whatever the user name (without a colon) and the password, the
    standard Basic credential for them yields exactly the password: the decoder inverts
    base64 with its padding. *)
Theorem presented_token_basic user password :
  (x3a ∉ user) -> from_utf8 (user ++ x3a :: password) = Some (user ++ x3a :: password) ->
  base64_decode (base64_encode (user ++ x3a :: password)) = Some (user ++ x3a :: password) /\
  presented_token (str "Basic " ++ base64_encode (user ++ x3a :: password)) = Some password.
Proof.
  intros Hu Hutf.
  assert (Hdec : base64_decode (base64_encode (user ++ x3a :: password)) = Some (user ++ x3a :: password))
    by (unfold base64_decode; by rewrite loop_encoded).
  split; [done|]. unfold presented_token.
  replace (strip_prefix (str "Bearer ") _) with (None : option bytes).
  - rewrite strip_prefix_app. simpl. rewrite Hdec. simpl. rewrite Hutf. simpl. by rewrite split_once_app.
  - unfold strip_prefix. rewrite bool_decide_false; [done|]. rewrite ztake_take.
    by intros [=].
Qed.

Lemma presented_token_basic_witness :
  presented_token (str "Basic dXNlcjpzZWNyZXQ=") = Some (str "secret").
Proof. apply (presented_token_basic (str "user") (str "secret")); [set_solver|reflexivity]. Defined.

(** *** The layers *)

Section Sessions.
Context `{Aead} `{HashOrder} {S : Type} (state : Config).
Implicit Types (w : World S) (h : Headers).

(** Asking for the time changes nothing but the clock. *)
Definition tick w : World S :=
  {| repo := repo w; store := store w; locks := locks w; clock := clock w; ticks := (1 + ticks w)%nat;
     uuids := uuids w; drawn := drawn w |}.

(** The sessions a token opens at time [t]. *)
Definition live_session (t : Z) (token : bytes) (r : MemoryRepo.Repo) (s : SessionRecord) : Prop :=
  MemoryRepo.sessions r !! hash_token token = Some (s, false) /\ t < s_expires_at s.

Lemma find_session_spec t token r s :
  MemoryRepo.find_session t (hash_token token) r = Ok s <-> live_session t token r s.
Proof.
  unfold MemoryRepo.find_session, live_session.
  destruct (MemoryRepo.sessions r !! hash_token token) as [[s' revoked]|]; [|naive_solver].
  destruct revoked; simpl; [naive_solver|]. destruct (Z.leb_spec (s_expires_at s') t); naive_solver lia.
Qed.

(** Who gets in. With a token configured, a request runs exactly when it presents the
    bootstrap token, or a token whose session exists, is not revoked and has not
    expired; anything else is answered 401 with the same message. The session routes
    let only the bootstrap token in, so a session can neither mint nor revoke sessions.
    Neither layer changes the repository or the store. *)
Theorem layers_decide h w expected :
  api_token state = Some expected ->
  let granted := constant_time_eq (presented h) (str expected) in
  (require_bootstrap_token state h w =
     (Ok (if granted then Run None else Refuse (unauthorized "this endpoint needs the bootstrap token")), w)) /\
  exists v w', require_token state h w = (Ok v, w') /\ (w' = w \/ w' = tick w) /\
    (v = Run None <-> granted = true) /\
    (forall id, v = Run (Some id) <->
       granted = false /\ presented h <> [] /\
       exists s, s_id s = id /\ live_session (clock w (ticks w)) (presented h) (repo w) s) /\
    (forall e, v = Refuse e -> e = unauthorized "unauthorized").
Proof.
  intros Htok granted. unfold require_bootstrap_token, require_token. rewrite Htok. fold granted.
  destruct granted; [split; [done|]; exists (Run None), w; naive_solver|]. split; [done|].
  destruct (decide (presented h = [])) as [Hp|Hp].
  { rewrite bool_decide_true by done. simpl. eexists _, w. split_and!; [done|by left|done| |naive_solver].
    intros id. split; [done|]. naive_solver. }
  rewrite bool_decide_false by done. simpl. unfold mbind, M_bind, now, ask. simpl.
  destruct (MemoryRepo.find_session _ _ _) as [s|e] eqn:Hf; eexists _, (tick w);
    (split_and!; [done|by right|done| |naive_solver]); intros id.
  - pose proof (proj1 (find_session_spec _ _ _ _) Hf) as Hlive. split.
    + intros [= <-]. naive_solver.
    + intros (_ & _ & s' & <- & Hs'%find_session_spec). congruence.
  - split; [done|]. intros (_ & _ & s' & _ & Hs'%find_session_spec). congruence.
Qed.

Lemma require_token_session h w expected :
  api_token state = Some expected -> constant_time_eq (presented h) (str expected) = false -> presented h <> [] ->
  (require_token state h w).1 =
    Ok (match MemoryRepo.find_session (clock w (ticks w)) (hash_token (presented h)) (repo w) with
        | Ok s => Run (Some (s_id s))
        | Err _ => Refuse (unauthorized "unauthorized")
        end).
Proof.
  intros Htok Hne Hp. unfold require_token. rewrite Htok, Hne, bool_decide_false by done.
  unfold mbind, M_bind, now, ask. simpl. by destruct (MemoryRepo.find_session _ _ _).
Qed.

(** Revoking a session whose id no other session has. *)
Lemma revoke_unique th s revoked ss r :
  MemoryRepo.sessions r = <[th := (s, revoked)]> ss ->
  (forall th' p, ss !! th' = Some p -> s_id p.1 <> s_id s) ->
  exists s', MemoryRepo.sessions (MemoryRepo.revoke_session (s_id s) r).2 !! th = Some (s', true).
Proof.
  intros Hs Huniq. unfold MemoryRepo.revoke_session.
  set (P := fun p : string * (SessionRecord * bool) => bool_decide (s_id p.2.1 = s_id s) && negb p.2.2 = true).
  assert (Hin : forall th' s' b, (th', (s', b)) ∈ filter P (hm_iter (MemoryRepo.sessions r)) ->
    th' = th /\ b = false).
  { intros th' s' b [HP Hit]%list_elem_of_filter. unfold P in HP. simpl in HP.
    apply andb_true_iff in HP as [Hid%bool_decide_eq_true Hb%negb_true_iff]. split; [|done].
    apply elem_of_hm_iter in Hit. rewrite Hs in Hit. destruct (decide (th' = th)); [done|].
    rewrite lookup_insert_ne in Hit by done. by apply Huniq in Hit. }
  destruct (filter P _) as [|[th' [s' b]] l] eqn:Hf; simpl.
  - destruct revoked; [exists s; rewrite Hs; by rewrite lookup_insert_eq|]. exfalso.
    apply (not_elem_of_nil (th, (s, false))). rewrite <-Hf. apply list_elem_of_filter. split.
    + unfold P. simpl. by rewrite bool_decide_true.
    + apply elem_of_hm_iter. rewrite Hs. apply lookup_insert_eq.
  - destruct (Hin th' s' b) as [-> ->]; [left|]. exists s'. apply lookup_insert_eq.
Qed.

(** The life of a session. Creating one succeeds with an expiry between one second and
    thirty days ahead; its token opens the API from then on, as that session, until the
    expiry passes; and once the session is revoked, the token never does again. *)
Theorem session_lifecycle expected random body h w w1 code resp :
  api_token state = Some expected -> len random = 32 ->
  create_session (Some random) body w = (Ok (code, resp), w1) ->
  presented h = cs_token resp -> constant_time_eq (cs_token resp) (str expected) = false ->
  (forall th p, MemoryRepo.sessions (repo w) !! th = Some p -> s_id p.1 <> uuids w (drawn w)) ->
  code = 201 /\ clock w (ticks w) + NANOS <= cs_expires_at resp <= clock w (ticks w) + MAX_TTL_SECS * NANOS /\
  (forall w2, MemoryRepo.sessions (repo w2) = MemoryRepo.sessions (repo w1) ->
     (require_token state h w2).1 =
       Ok (if clock w2 (ticks w2) <? cs_expires_at resp then Run (Some (cs_id resp))
           else Refuse (unauthorized "unauthorized")) /\
     (require_token state h (revoke_session (cs_id resp) w2).2).1 = Ok (Refuse (unauthorized "unauthorized"))).
Proof.
  intros Htok Hlen Hcreate Hp Hne Huniq. unfold create_session in Hcreate.
  destruct (200 <? _); [done|]. unfold mbind, M_bind, fresh_uuid, now, update in Hcreate. simpl in Hcreate.
  injection Hcreate as <- <- <-. cbn [cs_token cs_id cs_expires_at s_id s_expires_at repo] in *.
  assert (Hpe : presented h <> []) by (rewrite Hp; destruct random; [done|by intros [=]]).
  split_and!; [done| | |].
  1,2: unfold MAX_TTL_SECS, NANOS; lia.
  intros w2 Hw2. cbn [set_repo repo MemoryRepo.sessions MemoryRepo.with_sessions] in Hw2. rewrite <-Hp in Hne, Hw2.
  rewrite !(require_token_session _ _ expected) by done. split.
  - unfold MemoryRepo.find_session. rewrite Hw2, lookup_insert_eq. simpl.
    rewrite Z.ltb_antisym. by destruct (_ <=? _).
  - edestruct (revoke_unique (hash_token (presented h))) as [s' Hs']; [exact Hw2|exact Huniq|].
    simpl in Hs'. unfold revoke_session, mbind, M_bind, update. simpl.
    destruct (MemoryRepo.revoke_session _ _) as [res r'] eqn:Hrev. simpl in Hs'.
    destruct res; simpl; unfold MemoryRepo.find_session; by rewrite Hs'.
Qed.

End Sessions.

(** *** Instances *)

#[local] Existing Instances ToyAead.toy.

Definition guarded : Config := AppState.with_api_token "secret" Example.config.
Definition bearer (token : bytes) : Headers := {| authorization := Some (str "Bearer " ++ token); cookie := None |}.

Lemma layers_decide_witness :
  (require_token guarded (bearer (str "secret")) Example.empty_file).1 = Ok (Run None) /\
  (require_bootstrap_token guarded (bearer (str "wrong")) Example.empty_file).1
    = Ok (Refuse (unauthorized "this endpoint needs the bootstrap token")).
Proof.
  split.
  - destruct (layers_decide guarded (bearer (str "secret")) Example.empty_file "secret" eq_refl)
      as (_ & v & w' & -> & _ & Hv & _). simpl. f_equal. apply Hv. reflexivity.
  - by destruct (layers_decide guarded (bearer (str "wrong")) Example.empty_file "secret" eq_refl) as [-> _].
Defined.

Definition issued : result (fault AppError) (Z * CreateSessionResponse) * World MemoryObjectStore.t :=
  create_session (Some (zeroes 32)) (Some {| ttl_secs := Some 60; label := None |}) Example.empty_file.
Definition issued_token : bytes := str (Crypto.to_hex (zeroes 32)).

Lemma session_lifecycle_witness :
  (require_token guarded (bearer issued_token) issued.2).1 = Ok (Run (Some 100%N)) /\
  (require_token guarded (bearer issued_token) (revoke_session 100%N issued.2).2).1
    = Ok (Refuse (unauthorized "unauthorized")).
Proof.
  destruct (session_lifecycle guarded "secret" (zeroes 32) (Some {| ttl_secs := Some 60; label := None |})
    (bearer issued_token) Example.empty_file issued.2 201
    {| cs_id := 100; cs_token := issued_token; cs_expires_at := 10 + 60 * NANOS |})
    as (_ & _ & Hlife); try reflexivity.
  - intros th p Hp. change (MemoryRepo.sessions (repo Example.empty_file)) with (∅ : gmap string (SessionRecord * bool)) in Hp.
    by rewrite lookup_empty in Hp.
  - apply (Hlife issued.2 eq_refl).
Defined.

(** The bootstrap token followed by 256 NUL bytes, as the password of a Basic
    credential, is let in as if it were the token. *)
Lemma padded_token_accepted :
  (require_token guarded
     {| authorization := Some (str "Basic " ++ base64_encode (str "user:secret" ++ zeroes 256)); cookie := None |}
     Example.empty_file).1 = Ok (Run None).
Proof. vm_compute. reflexivity. Qed.

End AuthFacts.
