(* ===== verification/Router.v ===== *)
(** * The router and the browser's pages

    Models the routes and layers of [src/crates/dcfs-server/src/lib.rs], and the handlers
    of [handlers/ui.rs], [handlers/health.rs] and [handlers/objects.rs] (module [Router]).
    The extractors of [axum], which read a handler's arguments out of a request, are a
    parameter, and so is the protocol handler of [dav-server]; a path that is no route is
    left to [axum]. *)
From Stdlib.Strings Require String.
From stdpp Require Import pretty.
From S2P Require Import Prelude Core Crypto ObjectStore Repository Locks Server Data Nodes BlockCache WriteLog Mount HttpClient Versions Auth.

Module Router.
Import AppErrors Records AppState Auth.

Inductive Method : Type := GET | HEAD | POST | PUT | PATCH | DELETE | Other (name : string).
#[global] Instance Method_eq_dec : EqDecision Method.
Proof. solve_decision. Defined.

(** The handlers the routes name. *)
Inductive Handler : Type :=
| HHealthCheck | HReadinessCheck
| HPage | HLogin | HLogout
| HServeDav
| HCreateSession | HRevokeSession
| HGetFsInfo | HGetRoot | HGetNode | HDeleteNode | HPatchNode | HRenameNode | HPublishNode | HListChildren
| HLookupChild | HCreateNode | HResolvePath
| HReadData | HWriteData | HSyncNode
| HStageVersion | HUploadChunk | HListChunks | HCommitVersion | HGetVersion
| HGetObject.

(** A request; the path is its segments, percent-decoded. *)
Record Request : Type := {
  method : Method; path : list bytes; query : bytes; headers : Headers; forwarded_proto : option bytes; body : bytes;
}.

(** What the extractors give each handler. *)
Definition Args (h : Handler) : Type :=
  match h with
  | HHealthCheck | HReadinessCheck | HPage | HLogout | HGetFsInfo | HGetRoot => unit
  | HLogin => bytes
  | HServeDav => Request
  | HCreateSession => option CreateSessionRequest
  | HRevokeSession | HGetNode | HDeleteNode | HSyncNode | HStageVersion | HListChunks | HGetVersion | HGetObject => Uuid
  | HPatchNode => Uuid * Nodes.PatchNodeRequest
  | HRenameNode | HPublishNode => Uuid * Nodes.RenameNodeRequest
  | HListChildren => Uuid * (option Z * option Z)
  | HLookupChild => Uuid * bytes
  | HCreateNode => Nodes.CreateNodeRequest
  | HResolvePath => bytes
  | HReadData => Uuid * (option Z * option Z)
  | HWriteData => Uuid * (option Z * bytes)
  | HUploadChunk => Uuid * (Versions.UploadChunkRequest * bytes)
  | HCommitVersion => Uuid * Versions.CommitVersionRequest
  end.

(** A response: its status, what its body carries, and the cookie it sets. *)
Inductive Body : Type :=
| Empty
| Text (t : string)
| StatusBody (s : string)
| Page
| Info (chunk_size : Z)
| NodeBody (n : Nodes.NodeResponse)
| NodesBody (l : list Nodes.NodeResponse) (has_more : bool)
| DataBody (committed : bool) (b : bytes)
| StageBody (r : Versions.StageVersionResponse)
| UploadBody (r : Versions.UploadChunkResponse)
| ManifestBody (l : list Versions.ChunkManifestEntry)
| CommitBody (r : Versions.CommitVersionResponse)
| SessionBody (r : CreateSessionResponse)
| ObjectBody (b : bytes)
| ErrorBody (c : ErrorCode) (m : string)
| Foreign (b : bytes).
Record Answer : Type := { a_status : Z; a_body : Body; a_cookie : option bytes }.
Definition answer (status : Z) (b : Body) : Answer := {| a_status := status; a_body := b; a_cookie := None |}.
Definition error_answer (e : AppError) : Answer := answer (status e) (ErrorBody (code e) (message e)).

(** *** The routes *)

Inductive Segment : Type := Lit (s : bytes) | Param | Rest.
Inductive Methods : Type := On (l : list (Method * Handler)) | Any (h : Handler).
Inductive Layer : Type := Open | Token | Bootstrap.
Record Route : Type := { pattern : list Segment; methods : Methods; layer : Layer }.

Definition lits (l : list string) : list Segment := (Lit ∘ str) <$> l.
Definition api (l : list string) : list Segment := lits ("api" :: "v1" :: l)%string.

Definition ui : list (list Segment * Methods) :=
  [(lits ["ui"]%string, On [(GET, HPage)]); (lits ["ui"; "login"]%string, On [(POST, HLogin)]); (lits ["ui"; "logout"]%string, On [(POST, HLogout)])].
Definition dav : list (list Segment * Methods) :=
  [(lits ["dav"]%string, Any HServeDav); (lits ["dav"]%string ++ [Rest], Any HServeDav)].
Definition health : list (list Segment * Methods) :=
  [(lits ["health"]%string, On [(GET, HHealthCheck)]); (lits ["health"; "ready"]%string, On [(GET, HReadinessCheck)])].
Definition sessions : list (list Segment * Methods) :=
  [(api ["sessions"]%string, On [(POST, HCreateSession)]); (api ["sessions"]%string ++ [Param], On [(DELETE, HRevokeSession)])].
Definition api_routes : list (list Segment * Methods) :=
  [(api ["fs"]%string, On [(GET, HGetFsInfo)]);
   (api ["nodes"; "root"]%string, On [(GET, HGetRoot)]);
   (api ["nodes"]%string ++ [Param], On [(GET, HGetNode); (DELETE, HDeleteNode); (PATCH, HPatchNode)]);
   (api ["nodes"]%string ++ Param :: lits ["rename"]%string, On [(POST, HRenameNode)]);
   (api ["nodes"]%string ++ Param :: lits ["publish"]%string, On [(POST, HPublishNode)]);
   (api ["nodes"]%string ++ Param :: lits ["children"]%string, On [(GET, HListChildren)]);
   (api ["nodes"]%string ++ Param :: lits ["children"]%string ++ [Param], On [(GET, HLookupChild)]);
   (api ["nodes"]%string, On [(POST, HCreateNode)]);
   (api ["nodes"; "resolve"]%string, On [(GET, HResolvePath)]);
   (api ["nodes"]%string ++ Param :: lits ["data"]%string, On [(GET, HReadData); (PUT, HWriteData)]);
   (api ["nodes"]%string ++ Param :: lits ["sync"]%string, On [(POST, HSyncNode)]);
   (api ["versions"; "stage"]%string, On [(POST, HStageVersion)]);
   (api ["versions"]%string ++ Param :: lits ["chunks"]%string, On [(POST, HUploadChunk); (GET, HListChunks)]);
   (api ["versions"]%string ++ Param :: lits ["commit"]%string, On [(POST, HCommitVersion)]);
   (api ["versions"]%string ++ [Param], On [(GET, HGetVersion)]);
   (api ["objects"]%string ++ [Param], On [(GET, HGetObject)])].

Definition under (l : Layer) (routes : list (list Segment * Methods)) : list Route :=
  (fun p => {| pattern := p.1; methods := p.2; layer := l |}) <$> routes.
Definition build_router : list Route :=
  under Open ui ++ under Token dav ++ under Open health ++ under Bootstrap sessions ++ under Token api_routes.

(** A pattern against a path: the values of its parameters. *)
Fixpoint matches (p : list Segment) (path : list bytes) : option (list bytes) :=
  match p, path with
  | [], [] => Some []
  | Lit s :: p, seg :: path => if bool_decide (s = seg) then matches p path else None
  | Param :: p, seg :: path => if bool_decide (seg = []) then None else cons seg <$> matches p path
  | [Rest], _ :: _ => Some path
  | _, _ => None
  end.
Definition literal (p : list Segment) : bool := forallb (fun s => match s with Lit _ => true | _ => false end) p.
(** A route whose segments are all literal goes before one with parameters. *)
Definition find_route (path : list bytes) : option (Route * list bytes) :=
  let found := omap (fun r => (fun ps => (r, ps)) <$> matches (pattern r) path) build_router in
  match filter (fun p => literal (pattern p.1) = true) found with
  | p :: _ => Some p
  | [] => head found
  end.
(** A handler of [get] takes [HEAD] too. *)
Definition pick (ms : Methods) (m : Method) : option Handler :=
  match ms with
  | Any h => Some h
  | On l => snd <$> head (filter (fun p => p.1 = (if bool_decide (m = HEAD) then GET else m)) l)
  end.

(** *** The pages *)

Definition SESSION_SECS : Z := 12 * 3600.
(** [eq_ignore_ascii_case]. *)
Definition to_ascii_lowercase (b : byte) : byte := if within 65 90 b then byte_of_Z (byte_to_Z b + 32) else b.
Definition eq_ignore_ascii_case (a b : bytes) : bool := bool_decide (to_ascii_lowercase <$> a = to_ascii_lowercase <$> b).

Section Handlers.
Context `{Aead} `{HashOrder} {S : Type} `{Store.ObjectStore S} (state : Config) (sched : nat -> nat).
(** What the generator of the operating system gives, and the WebDAV protocol. *)
Context (random : option bytes) (dav_handle : Request -> AppState.M S Answer).
Abbreviation M := (AppState.M S).

Definition session_pair (token : bytes) : bytes := SESSION_COOKIE ++ str "=" ++ token.
Definition login_cookie (token : bytes) (over_tls : bool) : bytes :=
  session_pair token ++ str "; HttpOnly; SameSite=Strict; Path=/; Max-Age=" ++ str (pretty SESSION_SECS)
    ++ (if over_tls then str "; Secure" else []).
Definition cleared_cookie : bytes := session_pair [] ++ str "; HttpOnly; SameSite=Strict; Path=/; Max-Age=0".

Definition login (forwarded_proto : option bytes) (token : bytes) : M Answer :=
  match api_token state with
  | None => fail (internal "no API token is configured")
  | Some expected =>
      if negb (token_matches token (str expected)) then mret (answer 401 (Text "wrong token")) else
      match random with
      | None => fail (internal "cannot generate a token")
      | Some bytes =>
          let token := str (Crypto.to_hex bytes) in
          id ← fresh_uuid;
          t ← now;
          t' ← now;
          _ ← update (MemoryRepo.create_session t' id (hash_token token) "browser" (t + SESSION_SECS * NANOS));
          let over_tls := match forwarded_proto with Some proto => eq_ignore_ascii_case proto (str "https") | None => false end in
          mret {| a_status := 204; a_body := Empty; a_cookie := Some (login_cookie token over_tls) |}
      end
  end.

(** [let _ = ...]: a repository call whose result is not looked at. *)
Definition regardless {A} (f : MemoryRepo.Repo -> result RepositoryError A * MemoryRepo.Repo) : M unit :=
  fun w => (Ok tt, set_repo w (f (repo w)).2).
Definition logout (h : Headers) : M Answer :=
  _ ← match cookie h ≫= session_cookie with
      | None => mret tt
      | Some token =>
          t ← now;
          found ← ask (MemoryRepo.find_session t (hash_token token));
          match found with
          | Err _ => mret tt
          | Ok session => regardless (MemoryRepo.revoke_session (s_id session))
          end
      end;
  mret {| a_status := 204; a_body := Empty; a_cookie := Some cleared_cookie |}.

Definition page : M Answer := mret (answer 200 Page).
Definition health_check : M Answer := mret (answer 200 (StatusBody "ok")).
Definition readiness_check : M Answer := mret (answer 200 (StatusBody "ready")).
Definition get_object (id : Uuid) : M bytes := on_store (Store.get id).

(** The limit [DefaultBodyLimit] sets on a route. *)
Definition within_limit {A} (limit : Z) (b : bytes) (m : M A) : M A :=
  if limit <? len b
  then fail {| AppErrors.status := 413; AppErrors.code := InvalidRequest; AppErrors.message := "length limit exceeded" |}
  else m.

(** *** The handlers behind the routes *)

Definition run (h : Handler) (hd : Headers) (proto : option bytes) : Args h -> M Answer :=
  match h return Args h -> M Answer with
  | HHealthCheck => fun _ => health_check
  | HReadinessCheck => fun _ => readiness_check
  | HPage => fun _ => page
  | HLogin => fun token => login proto token
  | HLogout => fun _ => logout hd
  | HServeDav => dav_handle
  | HCreateSession => fun body => r ← create_session random body; mret (answer r.1 (SessionBody r.2))
  | HRevokeSession => fun id => status ← revoke_session id; mret (answer status Empty)
  | HGetFsInfo => fun _ => n ← Nodes.get_fs_info state; mret (answer 200 (Info n))
  | HGetRoot => fun _ => n ← Nodes.get_root; mret (answer 200 (NodeBody n))
  | HGetNode => fun id => n ← Nodes.get_node id; mret (answer 200 (NodeBody n))
  | HDeleteNode => fun id => status ← Nodes.delete_node id; mret (answer status Empty)
  | HPatchNode => fun '(id, req) => n ← Nodes.patch_node id req; mret (answer 200 (NodeBody n))
  | HRenameNode => fun '(id, req) => n ← Nodes.rename_node id req; mret (answer 200 (NodeBody n))
  | HPublishNode => fun '(id, req) => n ← Nodes.publish_node id req; mret (answer 200 (NodeBody n))
  | HListChildren => fun '(id, (limit, offset)) => r ← Nodes.list_children id limit offset; mret (answer 200 (NodesBody r.1 r.2))
  | HLookupChild => fun '(id, name) => n ← Nodes.lookup_child id name; mret (answer 200 (NodeBody n))
  | HCreateNode => fun req => r ← Nodes.create_node req; mret (answer r.1 (NodeBody r.2))
  | HResolvePath => fun path => n ← Nodes.resolve_path path; mret (answer 200 (NodeBody n))
  | HReadData => fun '(id, (offset, size)) => r ← Data.read_data state sched id offset size; mret (answer r.1.1 (DataBody r.1.2 r.2))
  | HWriteData => fun '(id, (offset, b)) =>
      r ← within_limit HttpClient.MAX_WRITE_BYTES b (Data.write_data state id offset b); mret (answer r.1 (Text r.2))
  | HSyncNode => fun id => status ← Data.sync_node id; mret (answer status Empty)
  | HStageVersion => fun id => r ← Versions.stage_version state id; mret (answer r.1 (StageBody r.2))
  | HUploadChunk => fun '(id, (req, b)) =>
      r ← within_limit HttpClient.MAX_WRITE_BYTES b (Versions.upload_chunk state id req b); mret (answer r.1 (UploadBody r.2))
  | HListChunks => fun id => l ← Versions.list_chunks id; mret (answer 200 (ManifestBody l))
  | HCommitVersion => fun '(id, req) => r ← Versions.commit_version id req; mret (answer 200 (CommitBody r))
  | HGetVersion => fun id => r ← Versions.get_version id; mret (answer 200 (CommitBody r))
  | HGetObject => fun id => b ← get_object id; mret (answer 200 (ObjectBody b))
  end.

(** *** Serving *)

(** The middleware of a layer around the rest of the request. *)
Definition layered {A} (l : Layer) (hd : Headers) (rest : M A) : M A :=
  verdict ← match l with
            | Open => mret (Run None)
            | Token => require_token state hd
            | Bootstrap => require_bootstrap_token state hd
            end;
  match verdict with Run _ => rest | Refuse e => fail e end.

(** The layer a handler is behind. *)
Definition layer_of (h : Handler) : Layer :=
  match h with
  | HHealthCheck | HReadinessCheck | HPage | HLogin | HLogout => Open
  | HCreateSession | HRevokeSession => Bootstrap
  | _ => Token
  end.
(** A handler with its arguments, behind its layer; [None] are arguments [axum] refuses. *)
Definition call (h : Handler) (hd : Headers) (args : option (Args h)) : M Answer :=
  layered (layer_of h) hd
    (match args with
     | Some args => run h hd None args
     | None => mret (answer 422 (Text "rejected"))
     end).

(** What [axum] reads out of a request for a handler, or the status it refuses with. *)
Context (extract : forall h, list bytes -> Request -> result Z (Args h)).

(** The answer, a connection dropped by a panic, or a path that is no route. *)
Inductive Outcome : Type := Answered (a : Answer) | Dropped | NoRoute.
Definition conclude (m : M Answer) (w : World S) : Outcome * World S :=
  match m w with
  | (Ok a, w') => (Answered a, w')
  | (Err (Fail e), w') => (Answered (error_answer e), w')
  | (Err Panic, w') => (Dropped, w')
  end.
Definition serve (r : Request) (w : World S) : Outcome * World S :=
  match find_route (path r) with
  | None => (NoRoute, w)
  | Some (route, params) =>
      conclude (layered (layer route) (headers r)
        (match pick (methods route) (method r) with
         | None => mret (answer 405 Empty)
         | Some h =>
             match extract h params r with
             | Err status => mret (answer status (Text "rejected"))
             | Ok args => run h (headers r) (forwarded_proto r) args
             end
         end)) w
  end.

End Handlers.
End Router.
