(* ===== verification/RouterProps.v ===== *)
(** * The router: properties

    Every path leads to one route, a request without a credential learns and changes
    nothing, and signing in from a browser opens the API until it ends. *)
From Stdlib.Strings Require String Ascii.
From stdpp Require Import pretty.
From S2P Require Import Prelude Core Crypto ObjectStore Repository Locks Server Data DataSpec Example Nodes BlockCache WriteLog Mount HttpClient Versions Auth Router.

Module RouterFacts.
Import AppErrors Records AppState Auth AuthFacts Router.

(** ** Routes *)

(** Whether some path could match both patterns. *)
Fixpoint overlap (p q : list Segment) : bool :=
  match p, q with
  | [], [] => true
  | Rest :: _, _ :: _ | _ :: _, Rest :: _ => true
  | Lit s :: p, Lit t :: q => bool_decide (s = t) && overlap p q
  | _ :: p, _ :: q => overlap p q
  | _, _ => false
  end.
Lemma matches_overlap p q path : is_Some (matches p path) -> is_Some (matches q path) -> overlap p q = true.
Proof.
  assert (Hnil : forall p, is_Some (matches p []) -> p = []) by (intros [|[? | |] [|? ?]] [? ?]; done).
  assert (Hcons : forall seg path, ~ is_Some (matches [] (seg :: path))) by (intros ? ? [? ?]; done).
  revert q path. induction p as [|s p IH]; intros [|t q] [|seg path] Hp Hq; try done.
  - by apply Hnil in Hq.
  - by apply Hcons in Hp.
  - by apply Hnil in Hp.
  - by apply Hcons in Hq.
  - by apply Hnil in Hp.
  - assert (Hstep : forall s p, is_Some (matches (s :: p) (seg :: path)) -> s = Rest \/ is_Some (matches p path)).
    { intros [s'| |] p' [l Hl]; simpl in Hl; [case_bool_decide; [right; by eexists|done]| |by left].
      case_bool_decide; [done|]. right. apply fmap_Some in Hl as (x & Hx & _). by eexists. }
    destruct (Hstep s p Hp) as [->|Hp']; [done|]. destruct (Hstep t q Hq) as [->|Hq']; [by destruct s|].
    specialize (IH q path Hp' Hq'). destruct s as [s| |], t as [t| |]; simpl in *; try done.
    destruct Hp as [? Hp], Hq as [? Hq]. destruct (bool_decide_reflect (s = seg)) as [->|]; [|done].
    destruct (bool_decide_reflect (t = seg)) as [->|]; [|done]. by rewrite bool_decide_true.
Qed.

Definition same_rank (r1 r2 : Route) : bool := eqb (literal (pattern r1)) (literal (pattern r2)).
(** No two routes of the table compete. *)
Lemma routes_apart : forallb (fun i => forallb (fun j =>
  match build_router !! i, build_router !! j with
  | Some r1, Some r2 => bool_decide (i = j) || negb (same_rank r1 r2) || negb (overlap (pattern r1) (pattern r2))
  | _, _ => true
  end) (seq 0 (length build_router))) (seq 0 (length build_router)) = true.
Proof. vm_compute. reflexivity. Qed.

Lemma same_route path r1 r2 : r1 ∈ build_router -> r2 ∈ build_router ->
  is_Some (matches (pattern r1) path) -> is_Some (matches (pattern r2) path) ->
  literal (pattern r1) = literal (pattern r2) -> r1 = r2.
Proof.
  intros [i Hi]%list_elem_of_lookup [j Hj]%list_elem_of_lookup Hm1 Hm2 Hrank. pose proof routes_apart as Hall.
  assert (Hin : forall k (r : Route), build_router !! k = Some r -> In k (seq 0 (length build_router))).
  { intros k r Hk%lookup_lt_Some. apply in_seq. lia. }
  rewrite forallb_forall in Hall. specialize (Hall i (Hin i r1 Hi)). rewrite forallb_forall in Hall. specialize (Hall j (Hin j r2 Hj)).
  rewrite Hi, Hj in Hall. unfold same_rank in Hall. rewrite Hrank, eqb_reflx, (matches_overlap _ _ path Hm1 Hm2) in Hall.
  simpl in Hall. rewrite !orb_false_r in Hall. apply bool_decide_eq_true in Hall as ->. congruence.
Qed.
Lemma elem_of_found path r ps :
  (r, ps) ∈ omap (fun r => (fun ps => (r, ps)) <$> matches (pattern r) path) build_router <->
  r ∈ build_router /\ matches (pattern r) path = Some ps.
Proof.
  rewrite list_elem_of_omap. split.
  - intros (r' & Hr' & Hps). apply fmap_Some in Hps as (ps' & Hps & [= <- <-]). done.
  - intros [Hr Hps]. exists r. split; [done|]. by rewrite Hps.
Qed.

(** Routes. A path that is a route literally leads to that route, and any other path to
    the route whose parameters it fits; so no two routes compete for a path and the order in
    which the routers are merged does not matter. *)
Theorem one_route path r ps : r ∈ build_router -> matches (pattern r) path = Some ps ->
  literal (pattern r) = true \/ Forall (fun r' => literal (pattern r') = true -> matches (pattern r') path = None) build_router ->
  find_route path = Some (r, ps).
Proof.
  intros Hr Hps Hlit. unfold find_route. pose proof (elem_of_found path) as Hfound. set (found := omap _ _) in *.
  assert (Hthis : forall r' ps', (r', ps') ∈ found -> literal (pattern r) = literal (pattern r') -> Some (r', ps') = Some (r, ps)).
  { intros r' ps' [Hr' Hps']%Hfound Hrank. assert (r' = r) as -> by (symmetry; by apply (same_route path)). congruence. }
  assert (Hhere : (r, ps) ∈ found) by (by apply Hfound).
  destruct (filter _ found) as [|[r' ps'] l] eqn:Hf.
  - assert (Hnone : forall r' ps', (r', ps') ∈ found -> literal (pattern r') = false).
    { intros r' ps' Hin. apply not_true_is_false. intros Htrue. apply (not_elem_of_nil (r', ps')). rewrite <-Hf. by apply list_elem_of_filter. }
    destruct found as [|[r' ps'] l]; [by apply not_elem_of_nil in Hhere|]. simpl. assert (Hin : (r', ps') ∈ (r', ps') :: l) by left.
    apply Hthis; [done|]. by rewrite (Hnone r ps Hhere), (Hnone r' ps' Hin).
  - assert (Hin : (r', ps') ∈ filter (fun p => literal (pattern p.1) = true) found) by (rewrite Hf; left).
    apply list_elem_of_filter in Hin as [Htrue Hin]. simpl in Htrue. apply Hthis; [done|]. rewrite Htrue.
    destruct Hlit as [?|Hno]; [done|]. apply Hfound in Hin as [Hr' Hps']. rewrite Forall_forall in Hno. by rewrite (Hno r' Hr' Htrue) in Hps'.
Qed.

(** ** Outsiders *)

Section Outside.
Context `{Aead} `{HashOrder} {S : Type} `{Store.ObjectStore S} (state : Config) (sched : nat -> nat).
Context (random : option bytes) (dav_handle : Request -> AppState.M S Answer).
Context (extract : forall h, list bytes -> Request -> result Z (Args h)).
Implicit Types (w : World S) (r : Request) (h : Headers).

(** The tokens a request carries: what the layers look at, and the cookie. *)
Definition carried h (token : bytes) : Prop := token = presented h \/ cookie h ≫= session_cookie = Some token.
(** None of them is the configured token, or that of a live session when the server looks. *)
Definition stranger (expected : string) h w : Prop :=
  forall token, carried h token -> token_matches token (str expected) = false /\
    forall k s, ~ live_session (clock w k) token (repo w) s.
(** Nothing is guessed at the sign-in page. *)
Definition no_guess (expected : string) r : Prop :=
  forall params token, extract HLogin params r = Ok token -> token_matches token (str expected) = false.

Lemma layered_stranger {A} expected l h (rest : AppState.M S A) w : api_token state = Some expected -> stranger expected h w ->
  l <> Open -> exists e w', layered state l h rest w = (Err (Fail e), w') /\
    e = unauthorized (match l with Token => "unauthorized" | _ => "this endpoint needs the bootstrap token" end) /\
    repo w' = repo w /\ store w' = store w.
Proof.
  intros Htok Hs Hl. destruct (Hs (presented h)) as [Hne Hdead]; [by left|]. unfold token_matches in Hne.
  unfold layered, mbind, M_bind. destruct l; [done| |].
  - unfold require_token. rewrite Htok, Hne. case_bool_decide; simpl; [by eexists _, w|].
    unfold mbind, M_bind, now, ask. simpl. destruct (MemoryRepo.find_session _ _ _) as [s|e] eqn:Hf; [|eexists _, _; split; [reflexivity|done]].
    apply find_session_spec in Hf. by destruct (Hdead _ s Hf).
  - unfold require_bootstrap_token. rewrite Htok, Hne. simpl. by eexists _, w.
Qed.

Lemma logout_stranger expected h w : stranger expected h w ->
  exists w', logout h w = (Ok {| a_status := 204; a_body := Empty; a_cookie := Some cleared_cookie |}, w') /\
    repo w' = repo w /\ store w' = store w.
Proof.
  intros Hs. unfold logout. destruct (cookie h ≫= session_cookie) as [token|] eqn:Hc; [|by exists w].
  destruct (Hs token) as [_ Hdead]; [by right|]. unfold mbind, M_bind, now, ask. simpl.
  destruct (MemoryRepo.find_session _ _ _) as [s|e] eqn:Hf; [|eexists; split; [reflexivity|done]]. apply find_session_spec in Hf. by destruct (Hdead _ s Hf).
Qed.

(** The handlers of the routes that are open. *)
#[local] Instance Layer_eq_dec : EqDecision Layer.
Proof. solve_decision. Defined.
#[local] Instance Handler_eq_dec : EqDecision Handler.
Proof. solve_decision. Defined.
Definition handlers_of (ms : Methods) : list Handler := match ms with On l => snd <$> l | Any h => [h] end.
Definition open_list : list Handler := [HHealthCheck; HReadinessCheck; HPage; HLogin; HLogout].
Lemma picked ms m (h : Handler) : pick ms m = Some h -> h ∈ handlers_of ms.
Proof.
  destruct ms as [l|h']; simpl; [|intros [= ->]; set_solver]. intros Hp. apply fmap_Some in Hp as ([m' h'] & Hhd & ->).
  apply head_Some_elem_of, list_elem_of_filter in Hhd as [_ Hin]. by apply list_elem_of_fmap_2.
Qed.
Lemma open_handlers rt m (h : Handler) : rt ∈ build_router -> layer rt = Open -> pick (methods rt) m = Some h -> h ∈ open_list.
Proof.
  intros Hrt Hl Hp%picked.
  assert (Hall : forallb (fun rt => match layer rt with Open => forallb (fun x => bool_decide (x ∈ open_list)) (handlers_of (methods rt)) | _ => true end)
    build_router = true) by (vm_compute; reflexivity).
  rewrite forallb_forall in Hall. apply list_elem_of_In in Hrt. specialize (Hall rt Hrt). rewrite Hl, forallb_forall in Hall.
  apply list_elem_of_In in Hp. specialize (Hall h Hp). by apply bool_decide_eq_true in Hall.
Qed.

(** C34 Nothing to see. With a token configured, a request that carries neither it nor the
    token of a live session is answered in a way that does not depend on anything the
    server holds, and changes none of it: not a node, a version, a session or an object. *)
Theorem outsiders_learn_nothing expected r : api_token state = Some expected -> no_guess expected r ->
  exists o, forall w, stranger expected (headers r) w ->
    exists w', serve state sched random dav_handle extract r w = (o, w') /\ repo w' = repo w /\ store w' = store w.
Proof.
  intros Htok Hguess. unfold serve. destruct (find_route (path r)) as [[rt params]|] eqn:Hroute; [|by exists NoRoute; intros w; exists w].
  assert (Hrt : rt ∈ build_router).
  { unfold find_route in Hroute. destruct (filter _ _) as [|q l] eqn:Hf.
    - apply head_Some_elem_of in Hroute. by apply elem_of_found in Hroute as [? _].
    - injection Hroute as ->. assert (Hin : (rt, params) ∈ (rt, params) :: l) by left. rewrite <-Hf in Hin.
      apply list_elem_of_filter in Hin as [_ Hin]. by apply elem_of_found in Hin as [? _]. }
  destruct (decide (layer rt = Open)) as [Hl|Hl].
  2: { eexists. intros w Hs. unfold conclude.
       match goal with |- context [layered state _ _ ?m w] =>
         destruct (layered_stranger expected (layer rt) (headers r) m w Htok Hs Hl) as (e & w' & -> & -> & Hw') end. by exists w'. }
  rewrite Hl. unfold conclude, layered, mbind, M_bind. cbn [mret M_ret].
  destruct (pick _ _) as [h|] eqn:Hp; [|eexists; intros w _; by exists w].
  pose proof (open_handlers rt _ h Hrt Hl Hp) as Hh. destruct (extract h params r) as [args|st] eqn:Hx; [|eexists; intros w _; by exists w].
  unfold open_list in Hh. rewrite !elem_of_cons, elem_of_nil in Hh. destruct_or!; subst h; try (eexists; intros w _; by exists w); [|].
  - eexists. intros w _. exists w. simpl. unfold login. rewrite Htok, (Hguess params args Hx). done.
  - eexists. intros w Hs. simpl. destruct (logout_stranger expected (headers r) w Hs) as (w' & -> & Hw'). by exists w'.
Qed.

End Outside.

(** ** The browser *)

(** The pair of a cookie that is set, which the browser sends back. *)
Definition pair_of (c : bytes) : bytes := match split_once x3b c with Some (front, _) => front | None => c end.
Definition from_browser (c : bytes) : Headers := {| authorization := None; cookie := Some (pair_of c) |}.

(** No separator and no space. *)
Definition plain (b : byte) : Prop := b <> x3b /\ b <> x3d /\ is_space b = false.
#[local] Instance plain_dec b : Decision (plain b).
Proof. unfold plain. apply _. Defined.

Lemma hex_plain l : Forall plain (str (Crypto.to_hex l)).
Proof.
  assert (Hdigits : forallb (fun n => bool_decide (plain (Ascii.byte_of_ascii (Crypto.hex_digit n)))) (seqZ 0 16) = true) by (vm_compute; reflexivity).
  assert (Hdigit : forall n, 0 <= n < 16 -> plain (Ascii.byte_of_ascii (Crypto.hex_digit n))).
  { intros n Hn. rewrite forallb_forall in Hdigits. specialize (Hdigits n). apply bool_decide_eq_true in Hdigits; [done|].
    apply list_elem_of_In, elem_of_seqZ. lia. }
  induction l as [|b l IH]; [constructor|]. pose proof (byte_to_Z_range b).
  constructor; [apply Hdigit; split; [apply Z.div_pos; lia|apply Z.div_lt_upper_bound; lia]|].
  constructor; [apply Hdigit, Z.mod_pos_bound; lia|done].
Qed.

Lemma split_on_none c s : c ∉ s -> split_on c s = [s].
Proof.
  induction s as [|b s IH]; intros Hn; [done|]. simpl. rewrite bool_decide_false by set_solver. by rewrite IH by set_solver.
Qed.
Lemma trim_id s : (forall b, head s = Some b -> is_space b = false) -> (forall b, last s = Some b -> is_space b = false) -> trim s = s.
Proof.
  intros Hh Hl. unfold trim. assert (Hleft : forall s, (forall b, head s = Some b -> is_space b = false) -> trim_left s = s).
  { intros [|b s'] Hs; [done|]. simpl. by rewrite (Hs b eq_refl). }
  rewrite (Hleft s Hh), Hleft; [apply rev_involutive|]. intros b Hb. apply Hl. rewrite <-head_reverse. unfold reverse. by rewrite <-rev_alt.
Qed.
Lemma pair_closed token : Forall plain token -> x3b ∉ session_pair token.
Proof.
  intros Hp. unfold session_pair. rewrite !not_elem_of_app. split; [apply (bool_decide_unpack _); vm_compute; reflexivity|].
  split; [apply (bool_decide_unpack _); vm_compute; reflexivity|]. intros Hin. rewrite Forall_forall in Hp. by apply Hp in Hin as [? _].
Qed.
Lemma session_cookie_pair token : Forall plain token -> token <> [] -> session_cookie (session_pair token) = Some token.
Proof.
  intros Hp Hne. assert (Hv : cookie_value (session_pair token) = Some token).
  { unfold cookie_value. rewrite trim_id.
    - unfold session_pair. change (str "=" ++ token) with (x3d :: token).
      rewrite split_once_app by (apply (bool_decide_unpack _); vm_compute; reflexivity). by rewrite bool_decide_true.
    - by intros b [= <-].
    - intros b. unfold session_pair. rewrite app_assoc, last_app. destruct (last token) as [c|] eqn:Hl; [|by apply last_None in Hl].
      intros [= <-]. rewrite Forall_forall in Hp. apply last_Some in Hl as [l ->]. apply (Hp c). set_solver. }
  unfold session_cookie. rewrite split_on_none by (by apply pair_closed). cbn [omap list_omap]. by rewrite Hv.
Qed.
Lemma login_pair token tls : Forall plain token -> pair_of (login_cookie token tls) = session_pair token.
Proof.
  intros Hp%pair_closed. unfold pair_of, login_cookie.
  change (str "; HttpOnly; SameSite=Strict; Path=/; Max-Age=") with (x3b :: str " HttpOnly; SameSite=Strict; Path=/; Max-Age=").
  rewrite <-app_comm_cons. by rewrite split_once_app.
Qed.

Section Browser.
Context `{Aead} `{HashOrder} {S : Type} (state : Config).

Lemma logout_live h (w : World S) token s : cookie h ≫= session_cookie = Some token ->
  MemoryRepo.find_session (clock w (ticks w)) (hash_token token) (repo w) = Ok s ->
  repo (logout h w).2 = (MemoryRepo.revoke_session (s_id s) (repo w)).2.
Proof. intros Hc Hf. unfold logout. rewrite Hc. unfold mbind, M_bind, now, ask. simpl. by rewrite Hf. Qed.

(** Signing in. The configured token gets a cookie; sent back by the browser it opens
    the API, as the new session, for twelve hours and not longer; and once the browser has
    signed out, it never does again. *)
Theorem browser_session expected random proto token (w w1 : World S) a :
  api_token state = Some expected -> len random = 32 -> login state (Some random) proto token w = (Ok a, w1) -> a_status a = 204 ->
  constant_time_eq (str (Crypto.to_hex random)) (str expected) = false ->
  (forall th p, MemoryRepo.sessions (repo w) !! th = Some p -> s_id p.1 <> uuids w (drawn w)) ->
  token_matches token (str expected) = true /\ exists c, a_cookie a = Some c /\
    let until := clock w (ticks w) + 12 * 3600 * NANOS in
    forall w2 : World S, MemoryRepo.sessions (repo w2) = MemoryRepo.sessions (repo w1) ->
      (require_token state (from_browser c) w2).1 =
        Ok (if clock w2 (ticks w2) <? until then Run (Some (uuids w (drawn w))) else Refuse (unauthorized "unauthorized")) /\
      (clock w2 (ticks w2) < until ->
        (require_token state (from_browser c) (logout (from_browser c) w2).2).1 = Ok (Refuse (unauthorized "unauthorized"))).
Proof.
  intros Htok Hlen Hlogin Hst Hne Huniq. unfold login in Hlogin. rewrite Htok in Hlogin.
  destruct (token_matches token (str expected)); [|by injection Hlogin as <- <-]. split; [done|].
  unfold mbind, M_bind, fresh_uuid, now, update in Hlogin. simpl in Hlogin. injection Hlogin as <- <-. simpl.
  eexists. split; [reflexivity|]. set (hex := str (Crypto.to_hex random)) in *. intros w2 Hw2.
  cbn [repo MemoryRepo.sessions MemoryRepo.with_sessions] in Hw2.
  assert (Hplain : Forall plain hex) by apply hex_plain.
  assert (Hhex : hex <> []) by (destruct random; [done|by intros [=]]).
  assert (Hcookie : cookie (from_browser (login_cookie hex (match proto with Some proto => eq_ignore_ascii_case proto (str "https") | None => false end)))
    ≫= session_cookie = Some hex) by (simpl; rewrite login_pair by done; by apply session_cookie_pair).
  set (h := from_browser _) in *. assert (Hpres : presented h = hex) by (unfold presented; change (authorization h ≫= presented_token) with (@None bytes); by rewrite Hcookie).
  rewrite !(require_token_session state h _ expected) by (done || by rewrite Hpres). rewrite Hpres. unfold MemoryRepo.find_session at 1.
  rewrite Hw2, lookup_insert_eq. simpl. change (SESSION_SECS * NANOS) with (12 * 3600 * NANOS). split.
  - rewrite Z.ltb_antisym. by destruct (_ <=? _).
  - intros Hlive. assert (Hf : exists s, MemoryRepo.find_session (clock w2 (ticks w2)) (hash_token hex) (repo w2) = Ok s /\ s_id s = uuids w (drawn w)).
    { unfold MemoryRepo.find_session. rewrite Hw2, lookup_insert_eq. simpl. change (SESSION_SECS * NANOS) with (12 * 3600 * NANOS).
      destruct (Z.leb_spec (clock w (ticks w) + 12 * 3600 * NANOS) (clock w2 (ticks w2))); [lia|]. by eexists. }
    destruct Hf as (s & Hf & Hid). unfold MemoryRepo.find_session. rewrite (logout_live h w2 hex s Hcookie Hf), Hid.
    edestruct (revoke_unique (hash_token hex)) as [s' Hs']; [exact Hw2|exact Huniq|]. simpl in Hs'. by rewrite Hs'.
Qed.

End Browser.

(** *** Witnesses *)

#[local] Existing Instances ToyAead.toy MemoryObjectStore.memory_store.

Definition at_path (m : Method) (l : list string) (h : Headers) : Request :=
  {| method := m; path := str <$> l; query := []; headers := h; forwarded_proto := None; body := [] |}.
Definition nobody : Headers := {| authorization := None; cookie := None |}.
Definition no_arguments (h : Handler) (params : list bytes) (r : Request) : result Z (Args h) :=
  match h return result Z (Args h) with HGetRoot | HPage | HLogout => Ok tt | _ => Err 400 end.
Definition dav_stub : Request -> AppState.M MemoryObjectStore.t Answer := fun _ => mret (answer 404 Empty).

(** [nodes/root] is a route of its own, and any other segment there is an identifier. *)
Lemma one_route_witness :
  (exists rt, find_route (str <$> ["api"; "v1"; "nodes"; "root"]%string) = Some (rt, []) /\ methods rt = On [(GET, HGetRoot)]) /\
  exists rt, find_route (str <$> ["api"; "v1"; "nodes"; "7"]%string) = Some (rt, [str "7"]) /\
    methods rt = On [(GET, HGetNode); (DELETE, HDeleteNode); (PATCH, HPatchNode)].
Proof.
  split.
  - exists {| pattern := api ["nodes"; "root"]%string; methods := On [(GET, HGetRoot)]; layer := Token |}. split; [|reflexivity].
    apply one_route; [apply list_elem_of_lookup; exists 10%nat; reflexivity|vm_compute; reflexivity|left; reflexivity].
  - exists {| pattern := api ["nodes"]%string ++ [Param]; methods := On [(GET, HGetNode); (DELETE, HDeleteNode); (PATCH, HPatchNode)]; layer := Token |}.
    split; [|reflexivity]. apply one_route; [apply list_elem_of_lookup; exists 11%nat; reflexivity|vm_compute; reflexivity|right].
    repeat (apply List.Forall_cons; [vm_compute; intros Hl; first [discriminate Hl|reflexivity]|]). apply List.Forall_nil.
Defined.

Lemma empty_file_stranger : stranger "secret" nobody Example.empty_file.
Proof.
  intros token [->|Hc]; [|discriminate Hc]. split; [vm_compute; reflexivity|]. intros k s [Hs _].
  change (MemoryRepo.sessions (repo Example.empty_file)) with (∅ : gmap string (SessionRecord * bool)) in Hs. by rewrite lookup_empty in Hs.
Qed.
Lemma outsiders_learn_nothing_witness : exists w',
  serve guarded (fun n => n) None dav_stub no_arguments (at_path GET ["api"; "v1"; "nodes"; "root"] nobody) Example.empty_file
    = (Answered (error_answer (unauthorized "unauthorized")), w') /\ repo w' = repo Example.empty_file.
Proof.
  destruct (outsiders_learn_nothing guarded (fun n => n) None dav_stub no_arguments "secret"
    (at_path GET ["api"; "v1"; "nodes"; "root"]%string nobody) eq_refl ltac:(by intros params token)) as [o Ho].
  destruct (Ho Example.empty_file empty_file_stranger) as (w' & Hs & Hr & _). exists w'. split; [|exact Hr]. rewrite Hs. f_equal.
  assert (Hfst : (serve guarded (fun n => n) None dav_stub no_arguments (at_path GET ["api"; "v1"; "nodes"; "root"]%string nobody) Example.empty_file).1
    = Answered (error_answer (unauthorized "unauthorized"))) by (vm_compute; reflexivity).
  rewrite Hs in Hfst. exact Hfst.
Defined.

Definition signed_in : result (fault AppError) Answer * World MemoryObjectStore.t :=
  login guarded (Some (zeroes 32)) None (str "secret") Example.empty_file.
Definition browser_cookie : bytes := login_cookie (str (Crypto.to_hex (zeroes 32))) false.
Lemma browser_session_witness :
  (require_token guarded (from_browser browser_cookie) signed_in.2).1 = Ok (Run (Some 100%N)) /\
  (require_token guarded (from_browser browser_cookie) (logout (from_browser browser_cookie) signed_in.2).2).1
    = Ok (Refuse (unauthorized "unauthorized")).
Proof.
  destruct (browser_session guarded "secret" (zeroes 32) None (str "secret") Example.empty_file signed_in.2
    {| a_status := 204; a_body := Empty; a_cookie := Some browser_cookie |}) as (_ & c & Hc & Hlife); try reflexivity.
  - intros th p Hp. change (MemoryRepo.sessions (repo Example.empty_file)) with (∅ : gmap string (SessionRecord * bool)) in Hp.
    by rewrite lookup_empty in Hp.
  - injection Hc as <-. destruct (Hlife signed_in.2 eq_refl) as [Hin Hout]. split; [exact Hin|]. apply Hout. vm_compute. reflexivity.
Defined.
End RouterFacts.
