(* ===== verification/Errors.v ===== *)
(** * Errors and identifiers

    Models [src/crates/dcfs-core/src/errors.rs] (module [CoreErrors]: the errors of each part
    of the system with the text they are displayed as, and errors with their context),
    [src/crates/dcfs-core/src/ids.rs] (module [Ids]) and the context of
    [src/crates/dcfs-server/src/error.rs] (module [ServerErrors]). Displaying a floating-point
    number is a parameter; a [Debug] output is not modelled. *)
From Stdlib.Strings Require String.
From stdpp Require Import pretty.
From S2P Require Import Prelude Crypto ObjectStore Repository Locks Server Data.

Module Text.

(** [Vec::join]. *)
Fixpoint join (sep : string) (parts : list string) : string :=
  match parts with
  | [] => ""
  | [p] => p
  | p :: parts => p +:+ sep +:+ join sep parts
  end.
(** [format!("{}={}", key, value)]. *)
Definition item (key value : string) : string := key +:+ "=" +:+ value.
(** [if let Some(..)]. *)
Definition optional {A} (key : string) (show : A -> string) (o : option A) : list (string * string) :=
  match o with Some v => [(key, show v)] | None => [] end.

End Text.

Module Ids.

(** The four newtypes over [Uuid]. *)
Record NodeId : Type := { node_uuid : Uuid }.
Record FileVersionId : Type := { version_uuid : Uuid }.
Record ChunkId : Type := { chunk_uuid : Uuid }.
Record ObjectId : Type := { object_uuid : Uuid }.

(** What each of them provides; [new] draws the [Uuid] it is given. *)
Class Identifier (I : Type) : Type := { new : Uuid -> I; from_uuid : Uuid -> I; as_uuid : I -> Uuid; display : I -> string }.
#[global] Instance node_id : Identifier NodeId := {|
  new v4 := {| node_uuid := v4 |}; from_uuid u := {| node_uuid := u |}; as_uuid := node_uuid;
  display i := Data.uuid_to_string (node_uuid i) |}.
#[global] Instance file_version_id : Identifier FileVersionId := {|
  new v4 := {| version_uuid := v4 |}; from_uuid u := {| version_uuid := u |}; as_uuid := version_uuid;
  display i := Data.uuid_to_string (version_uuid i) |}.
#[global] Instance chunk_id : Identifier ChunkId := {|
  new v4 := {| chunk_uuid := v4 |}; from_uuid u := {| chunk_uuid := u |}; as_uuid := chunk_uuid;
  display i := Data.uuid_to_string (chunk_uuid i) |}.
#[global] Instance object_id : Identifier ObjectId := {|
  new v4 := {| object_uuid := v4 |}; from_uuid u := {| object_uuid := u |}; as_uuid := object_uuid;
  display i := Data.uuid_to_string (object_uuid i) |}.
#[global] Instance node_id_dec : EqDecision NodeId.
Proof. solve_decision. Defined.
#[global] Instance file_version_id_dec : EqDecision FileVersionId.
Proof. solve_decision. Defined.
#[global] Instance chunk_id_dec : EqDecision ChunkId.
Proof. solve_decision. Defined.
#[global] Instance object_id_dec : EqDecision ObjectId.
Proof. solve_decision. Defined.

End Ids.

Module CoreErrors.
Import Text.
Open Scope string_scope.

(** [Display]. *)
Class Error (E : Type) : Type := display : E -> string.
Abbreviation uuid := Data.uuid_to_string.

Inductive NodeError : Type :=
| NodeNotFound (id : Uuid) | NodeAlreadyExists (name : string) | InvalidName (reason : string) | ParentNotFound (parent_id : Uuid)
| DirectoryNotEmpty | IsDirectory | IsFile | PermissionDenied (operation : string) | NameTooLong (len : Z) | PathTooLong (len : Z).
#[global] Instance node_error : Error NodeError := fun e =>
  match e with
  | NodeNotFound id => "node not found: " +:+ uuid id
  | NodeAlreadyExists name => "node already exists: " +:+ name
  | InvalidName reason => "invalid node name: " +:+ reason
  | ParentNotFound parent_id => "parent not found: " +:+ uuid parent_id
  | DirectoryNotEmpty => "cannot delete non-empty directory"
  | IsDirectory => "node is a directory, expected file"
  | IsFile => "node is a file, expected directory"
  | PermissionDenied operation => "permission denied: " +:+ operation
  | NameTooLong len => "name too long: " +:+ pretty len +:+ " bytes (max 255)"
  | PathTooLong len => "path too long: " +:+ pretty len +:+ " bytes (max 4096)"
  end.

Inductive VersionError : Type :=
| VersionNotFound (id : Uuid) | AlreadyCommitted (id : Uuid) | Conflict (expected actual : Z) | InvalidState (state : string)
| ChunkNotFound (index : Z) (version_id : Uuid) | ChunkSizeMismatch (expected actual : Z) | HashMismatch (expected actual : string)
| VersionTooLarge (size max : Z).
#[global] Instance version_error : Error VersionError := fun e =>
  match e with
  | VersionNotFound id => "version not found: " +:+ uuid id
  | AlreadyCommitted id => "version already committed: " +:+ uuid id
  | Conflict expected actual => "version conflict: expected generation " +:+ pretty expected +:+ ", got " +:+ pretty actual
  | InvalidState state => "invalid version state: " +:+ state
  | ChunkNotFound index version_id => "chunk not found: index " +:+ pretty index +:+ " in version " +:+ uuid version_id
  | ChunkSizeMismatch expected actual => "chunk size mismatch: expected " +:+ pretty expected +:+ ", got " +:+ pretty actual
  | HashMismatch expected actual => "hash mismatch: expected " +:+ expected +:+ ", got " +:+ actual
  | VersionTooLarge size max => "version too large: " +:+ pretty size +:+ " bytes (max " +:+ pretty max +:+ ")"
  end.

Inductive ObjectError : Type :=
| ObjectNotFound (id : Uuid) | ObjectAlreadyExists (id : Uuid) | ObjectCorrupted (id : Uuid) | ObjectTooLarge (size max : Z)
| BackendUnavailable (reason : string) | QuotaExceeded (used limit : Z).
#[global] Instance object_error : Error ObjectError := fun e =>
  match e with
  | ObjectNotFound id => "object not found: " +:+ uuid id
  | ObjectAlreadyExists id => "object already exists: " +:+ uuid id
  | ObjectCorrupted id => "object corrupted: " +:+ uuid id
  | ObjectTooLarge size max => "object too large: " +:+ pretty size +:+ " bytes (max " +:+ pretty max +:+ ")"
  | BackendUnavailable reason => "storage backend unavailable: " +:+ reason
  | QuotaExceeded used limit => "storage quota exceeded: " +:+ pretty used +:+ "/" +:+ pretty limit +:+ " bytes"
  end.

Inductive CacheError : Type :=
| Miss (key : string) | Full (used limit : Z) | CacheCorrupted (reason : string) | WriteFailed (reason : string)
| ReadFailed (reason : string) | RecoveryFailed (reason : string).
#[global] Instance cache_error : Error CacheError := fun e =>
  match e with
  | Miss key => "cache miss: " +:+ key
  | Full used limit => "cache full: " +:+ pretty used +:+ "/" +:+ pretty limit +:+ " bytes"
  | CacheCorrupted reason => "cache corrupted: " +:+ reason
  | WriteFailed reason => "cache write failed: " +:+ reason
  | ReadFailed reason => "cache read failed: " +:+ reason
  | RecoveryFailed reason => "journal recovery failed: " +:+ reason
  end.

Inductive CryptoError : Type :=
| EncryptionFailed (reason : string) | DecryptionFailed (reason : string) | InvalidKey (reason : string) | AuthenticationFailed
| NonceReuse.
#[global] Instance crypto_error : Error CryptoError := fun e =>
  match e with
  | EncryptionFailed reason => "encryption failed: " +:+ reason
  | DecryptionFailed reason => "decryption failed: " +:+ reason
  | InvalidKey reason => "invalid key: " +:+ reason
  | AuthenticationFailed => "authentication failed: data tampered"
  | NonceReuse => "nonce reuse detected"
  end.

(** [f64], which is only displayed. *)
Class F64 (F : Type) : Type := f64_text : F -> string.
Inductive DiscordError (F : Type) : Type :=
| RateLimited (retry_after_secs : F) | ApiError (status : Z) (message : string) | AttachmentNotFound (id : string)
| UploadFailed (reason : string) | DownloadFailed (reason : string) | NetworkError (reason : string)
| MaxRetriesExceeded (attempts : Z) | InvalidWebhook (reason : string).
Arguments RateLimited {F} _.
Arguments ApiError {F} _ _.
Arguments AttachmentNotFound {F} _.
Arguments UploadFailed {F} _.
Arguments DownloadFailed {F} _.
Arguments NetworkError {F} _.
Arguments MaxRetriesExceeded {F} _.
Arguments InvalidWebhook {F} _.
#[global] Instance discord_error `{F64 F} : Error (DiscordError F) := fun e =>
  match e with
  | RateLimited secs => "rate limited: retry after " +:+ f64_text secs +:+ "s"
  | ApiError status message => "API error " +:+ pretty status +:+ ": " +:+ message
  | AttachmentNotFound id => "attachment not found: " +:+ id
  | UploadFailed reason => "upload failed: " +:+ reason
  | DownloadFailed reason => "download failed: " +:+ reason
  | NetworkError reason => "network error: " +:+ reason
  | MaxRetriesExceeded attempts => "max retries exceeded: " +:+ pretty attempts
  | InvalidWebhook reason => "invalid webhook: " +:+ reason
  end.

Inductive DatabaseError : Type :=
| ConnectionFailed (reason : string) | QueryFailed (reason : string) | TransactionFailed (reason : string)
| MigrationFailed (reason : string) | ConstraintViolation (constraint : string) | Deadlock | DbTimeout (operation : string).
#[global] Instance database_error : Error DatabaseError := fun e =>
  match e with
  | ConnectionFailed reason => "connection failed: " +:+ reason
  | QueryFailed reason => "query failed: " +:+ reason
  | TransactionFailed reason => "transaction failed: " +:+ reason
  | MigrationFailed reason => "migration failed: " +:+ reason
  | ConstraintViolation constraint => "constraint violation: " +:+ constraint
  | Deadlock => "deadlock detected"
  | DbTimeout operation => "timeout: " +:+ operation
  end.

Inductive ConfigError : Type :=
| MissingField (field : string) | InvalidValue (field reason : string) | FileNotFound (path : string) | ParseError (reason : string).
#[global] Instance config_error : Error ConfigError := fun e =>
  match e with
  | MissingField field => "missing required field: " +:+ field
  | InvalidValue field reason => "invalid value for " +:+ field +:+ ": " +:+ reason
  | FileNotFound path => "file not found: " +:+ path
  | ParseError reason => "parse error: " +:+ reason
  end.

Inductive InternalError : Type :=
| InvariantViolated (reason : string) | Unreachable (location : string) | ResourceExhausted (resource : string) | Bug (reason : string).
#[global] Instance internal_error : Error InternalError := fun e =>
  match e with
  | InvariantViolated reason => "invariant violated: " +:+ reason
  | Unreachable location => "unreachable code reached: " +:+ location
  | ResourceExhausted resource => "resource exhausted: " +:+ resource
  | Bug reason => "bug: " +:+ reason
  end.

(** Any of them; the constructors are the [From] implementations of [#[from]]. *)
Inductive DiscordFsError (F : Type) : Type :=
| Node (e : NodeError) | Version (e : VersionError) | Object (e : ObjectError) | Cache (e : CacheError) | Crypto (e : CryptoError)
| Discord (e : DiscordError F) | Database (e : DatabaseError) | Config (e : ConfigError) | Internal (e : InternalError).
Arguments Node {F} _.
Arguments Version {F} _.
Arguments Object {F} _.
Arguments Cache {F} _.
Arguments Crypto {F} _.
Arguments Discord {F} _.
Arguments Database {F} _.
Arguments Config {F} _.
Arguments Internal {F} _.
#[global] Instance discord_fs_error `{F64 F} : Error (DiscordFsError F) := fun e =>
  match e with
  | Node e => "Node error: " +:+ display e
  | Version e => "Version error: " +:+ display e
  | Object e => "Object error: " +:+ display e
  | Cache e => "Cache error: " +:+ display e
  | Crypto e => "Crypto error: " +:+ display e
  | Discord e => "Discord error: " +:+ display e
  | Database e => "Database error: " +:+ display e
  | Config e => "Configuration error: " +:+ display e
  | Internal e => "Internal error: " +:+ display e
  end.

(** ** Errors with context *)

Record ErrorContext : Type := {
  operation : option string;
  resource_type : option string;
  resource_id : option string;
  request_id : option Uuid;
  user_id : option Uuid;
  metadata : list (string * string);
}.
Definition new : ErrorContext :=
  {| operation := None; resource_type := None; resource_id := None; request_id := None; user_id := None; metadata := [] |}.
Definition with_operation (o : string) (c : ErrorContext) : ErrorContext :=
  {| operation := Some o; resource_type := resource_type c; resource_id := resource_id c; request_id := request_id c;
     user_id := user_id c; metadata := metadata c |}.
Definition with_resource (type id : string) (c : ErrorContext) : ErrorContext :=
  {| operation := operation c; resource_type := Some type; resource_id := Some id; request_id := request_id c;
     user_id := user_id c; metadata := metadata c |}.
Definition with_request_id (id : Uuid) (c : ErrorContext) : ErrorContext :=
  {| operation := operation c; resource_type := resource_type c; resource_id := resource_id c; request_id := Some id;
     user_id := user_id c; metadata := metadata c |}.
Definition with_user_id (id : Uuid) (c : ErrorContext) : ErrorContext :=
  {| operation := operation c; resource_type := resource_type c; resource_id := resource_id c; request_id := request_id c;
     user_id := Some id; metadata := metadata c |}.
Definition with_metadata (key value : string) (c : ErrorContext) : ErrorContext :=
  {| operation := operation c; resource_type := resource_type c; resource_id := resource_id c; request_id := request_id c;
     user_id := user_id c; metadata := metadata c ++ [(key, value)] |}.

(** What is known, in the order it is displayed. *)
Definition items (c : ErrorContext) : list (string * string) :=
  optional "operation" id (operation c) ++ optional "resource_type" id (resource_type c) ++
  optional "resource_id" id (resource_id c) ++ optional "request_id" uuid (request_id c) ++
  optional "user_id" uuid (user_id c) ++ metadata c.
#[global] Instance context_display : Error ErrorContext := fun c => join ", " ((fun p => item p.1 p.2) <$> items c).

Record ContextualError (E : Type) : Type := { error : E; context : ErrorContext }.
Arguments error {E} _.
Arguments context {E} _.
#[global] Instance contextual_error `{Error E} : Error (ContextualError E) := fun e =>
  display (error e) +:+ " [" +:+ display (context e) +:+ "]".
Definition source {E} (e : ContextualError E) : option E := Some (error e).
(** [ContextExt]: the closure runs only on an error. *)
Definition with_context {T E} (r : result E T) (f : unit -> ErrorContext) : result (ContextualError E) T :=
  match r with Ok v => Ok v | Err e => Err {| error := e; context := f tt |} end.

End CoreErrors.

Module ServerErrors.
Import Text.
Open Scope string_scope.

Record ErrorContext : Type := {
  request_id : option Uuid;
  operation : option string;
  resource_type : option string;
  resource_id : option string;
}.
Definition new : ErrorContext := {| request_id := None; operation := None; resource_type := None; resource_id := None |}.
Definition with_request_id (id : Uuid) (c : ErrorContext) : ErrorContext :=
  {| request_id := Some id; operation := operation c; resource_type := resource_type c; resource_id := resource_id c |}.
Definition with_operation (o : string) (c : ErrorContext) : ErrorContext :=
  {| request_id := request_id c; operation := Some o; resource_type := resource_type c; resource_id := resource_id c |}.
Definition with_resource (type id : string) (c : ErrorContext) : ErrorContext :=
  {| request_id := request_id c; operation := operation c; resource_type := Some type; resource_id := Some id |}.
Definition items (c : ErrorContext) : list (string * string) :=
  optional "request_id" Data.uuid_to_string (request_id c) ++ optional "operation" id (operation c) ++
  optional "resource_type" id (resource_type c) ++ optional "resource_id" id (resource_id c).
Definition display (c : ErrorContext) : string := join ", " ((fun p => item p.1 p.2) <$> items c).

(** The whole of [AppError]: what the handlers answer with, the error below it and the context. *)
Record Reported (E : Type) : Type := { answer : AppErrors.AppError; source : option E; context : ErrorContext }.
Arguments answer {E} _.
Arguments source {E} _.
Arguments context {E} _.
Definition report {E} (e : AppErrors.AppError) : Reported E := {| answer := e; source := None; context := new |}.
Definition with_context {E} (c : ErrorContext) (r : Reported E) : Reported E :=
  {| answer := answer r; source := source r; context := c |}.
Definition with_source {E} (e : E) (r : Reported E) : Reported E :=
  {| answer := answer r; source := Some e; context := context r |}.

(** [From<uuid::Error>], [From<NodeNameError>] and [From<serde_json::Error>]; the texts of the
    errors are displayed by the crates that made them. *)
Definition of_uuid_error : AppErrors.AppError := AppErrors.bad_request "invalid UUID format".
Definition of_name_error (text : string) : AppErrors.AppError := AppErrors.bad_request ("invalid name: " +:+ text).
Definition of_json_error (text : string) : AppErrors.AppError := AppErrors.bad_request ("invalid JSON: " +:+ text).

End ServerErrors.

(** ** What is displayed can be read *)

Module ErrorFacts.
Import Text.

Definition COMMA : Ascii.ascii := Ascii.ascii_of_nat 44.
Definition EQUALS : Ascii.ascii := Ascii.ascii_of_nat 61.

Fixpoint has (c : Ascii.ascii) (s : string) : bool :=
  match s with EmptyString => false | String d s => bool_decide (c = d) || has c s end.
(** The text before the first [c], and the text after it. *)
Fixpoint split_at (c : Ascii.ascii) (s : string) : string * option string :=
  match s with
  | EmptyString => (EmptyString, None)
  | String d s => if bool_decide (c = d) then (EmptyString, Some s) else let '(a, b) := split_at c s in (String d a, b)
  end.
Definition read_item (s : string) : string * string := let '(key, value) := split_at EQUALS s in (key, default EmptyString value).
Fixpoint read_items (fuel : nat) (s : string) : list (string * string) :=
  match fuel with
  | O => []
  | S fuel =>
      match split_at COMMA s with
      | (a, Some (String _ rest)) => read_item a :: read_items fuel rest
      | (a, _) => [read_item a]
      end
  end.
(** The items of a context from its text. *)
Definition read (s : string) : list (string * string) :=
  match s with EmptyString => [] | _ => read_items (String.length s) s end.
Definition readable (p : string * string) : bool :=
  negb (has COMMA p.1) && negb (has EQUALS p.1) && negb (has COMMA p.2).

Lemma has_app c a b : has c (a +:+ b) = has c a || has c b.
Proof. induction a as [|d a IH]; [done|]. rewrite append_cons. simpl. rewrite IH. by rewrite orb_assoc. Qed.
Lemma length_append a b : String.length (a +:+ b) = (String.length a + String.length b)%nat.
Proof. induction a as [|d a IH]; [done|]. rewrite append_cons. simpl. by rewrite IH. Qed.
Lemma split_here c a b : has c a = false -> split_at c (a +:+ String c b) = (a, Some b).
Proof.
  induction a as [|d a IH]; intros Ha.
  - simpl. by rewrite bool_decide_true.
  - simpl in Ha. apply orb_false_iff in Ha as [Hd Ha]. rewrite append_cons. simpl. rewrite Hd. by rewrite (IH Ha).
Qed.
Lemma split_nowhere c a : has c a = false -> split_at c a = (a, None).
Proof. induction a as [|d a IH]; simpl; [done|]. intros [Hd Ha]%orb_false_iff. by rewrite Hd, (IH Ha). Qed.

Lemma read_shown p : readable p = true -> read_item (item p.1 p.2) = p.
Proof.
  unfold readable. rewrite !andb_true_iff, !negb_true_iff. intros [[_ Hk] _]. unfold read_item, item.
  change ("=" +:+ p.2)%string with (String EQUALS p.2). rewrite split_here by done. by destruct p.
Qed.
Lemma item_no_comma p : readable p = true -> has COMMA (item p.1 p.2) = false.
Proof.
  unfold readable, item. rewrite !andb_true_iff, !negb_true_iff. intros [[Hk _] Hv]. by rewrite !has_app, Hk, Hv.
Qed.
Lemma item_length p : (0 < String.length (item p.1 p.2))%nat.
Proof. unfold item. rewrite !length_append. simpl. lia. Qed.

Lemma read_items_join l fuel :
  l <> [] -> (length l <= fuel)%nat -> forallb readable l = true -> read_items fuel (join ", " ((fun p => item p.1 p.2) <$> l)) = l.
Proof.
  revert fuel. induction l as [|p l IH]; [done|]. intros fuel _ Hf [Hp Hl]%andb_true_iff.
  destruct fuel as [|fuel]; [simpl in Hf; lia|]. destruct l as [|q l].
  - simpl. rewrite split_nowhere by (by apply item_no_comma). by rewrite read_shown.
  - assert (Hrest : read_items fuel (join ", " ((fun p => item p.1 p.2) <$> q :: l)) = q :: l).
    { apply IH; [done|simpl in *; lia|exact Hl]. }
    change (join ", " ((fun p => item p.1 p.2) <$> p :: q :: l))
      with (item p.1 p.2 +:+ String COMMA (String (Ascii.ascii_of_nat 32) (join ", " ((fun p => item p.1 p.2) <$> q :: l)))).
    cbn [read_items]. rewrite split_here by (by apply item_no_comma). by rewrite Hrest, read_shown.
Qed.
Lemma join_length l : (length l <= String.length (join ", " ((fun p => item p.1 p.2) <$> l)))%nat.
Proof.
  induction l as [|p l IH]; [simpl; lia|]. pose proof (item_length p). destruct l as [|q l]; [simpl; lia|].
  change (join ", " ((fun p => item p.1 p.2) <$> p :: q :: l))
    with (item p.1 p.2 +:+ ", " +:+ join ", " ((fun p => item p.1 p.2) <$> q :: l)).
  rewrite !length_append. cbn [length] in *. lia.
Qed.

Lemma read_join l : forallb readable l = true -> read (join ", " ((fun p => item p.1 p.2) <$> l)) = l.
Proof.
  intros Hl. destruct l as [|p l]; [done|]. pose proof (read_items_join (p :: l) _ ltac:(done) (join_length _) Hl) as Hr.
  unfold read. destruct (join _ _) eqn:Hj; [|exact Hr]. exfalso.
  pose proof (join_length (p :: l)) as Hlen. rewrite Hj in Hlen. simpl in Hlen. lia.
Qed.

(** A context can be read back from the text it is displayed as, when nothing in it has a
    comma and no key an equals sign; adding context leaves a success alone and keeps the error
    and its text. *)
Theorem context_reads_back {T E} `{CoreErrors.Error E} (c : CoreErrors.ErrorContext) (c' : ServerErrors.ErrorContext) (r : result E T) :
  forallb readable (CoreErrors.items c) = true -> forallb readable (ServerErrors.items c') = true ->
  read (CoreErrors.display c) = CoreErrors.items c /\ read (ServerErrors.display c') = ServerErrors.items c' /\
  match r, CoreErrors.with_context r (fun _ => c) with
  | Ok v, Ok w => v = w
  | Err e, Err w => CoreErrors.source w = Some e /\
  CoreErrors.display w = (CoreErrors.display e +:+ " [" +:+ CoreErrors.display c +:+ "]")%string
  | _, _ => False
  end.
Proof. intros Hc Hc'. split; [by apply read_join|]. split; [by apply read_join|]. by destruct r. Qed.

(** The tests of the source. *)
Definition ctx : CoreErrors.ErrorContext :=
  CoreErrors.with_metadata "parent_id" "xyz-456" (CoreErrors.with_resource "node" "abc-123" (CoreErrors.with_operation "create_node" CoreErrors.new)).
Example context_text :
  CoreErrors.display ctx = "operation=create_node, resource_type=node, resource_id=abc-123, parent_id=xyz-456"%string /\
  CoreErrors.display {| CoreErrors.error := CoreErrors.NameTooLong 300; CoreErrors.context := CoreErrors.with_operation "get_node" CoreErrors.new |} =
    "name too long: 300 bytes (max 255) [operation=get_node]"%string /\
  read (CoreErrors.display ctx) = CoreErrors.items ctx.
Proof. vm_compute. done. Qed.

End ErrorFacts.
