(* ===== verification/Wire.v ===== *)
(** * What goes over the wire

    Models [dcfs-protocol]: the messages of [nodes.rs], [versions.rs] and [errors.rs] as the
    fields [serde] derives their JSON from, file names as they are carried ([name.rs]), and
    the body of an error ([into_response] of [dcfs-server/src/error.rs]).

    A message type is a [Ty]: a chain of fields with their keys and types, in the order of the
    struct. [encode] and [decode] are what [serde] documents of the implementations it derives:
    unknown fields are passed over, a known field that comes twice is refused, a field that is
    missing is [None] where it is an [Option] and an error elsewhere; a struct may also come as
    the array of its fields, and a variant as an object. The text of JSON values, of UUIDs and
    of times and base64 are libraries: the class [Leaf], with what is relied on as [LeafLaws].
    The two queries also come in a URL, which is not modelled. *)
From Stdlib.Strings Require String.
From Stdlib Require Import DecimalString DecimalN DecimalZ.
From S2P Require Import Prelude Core Crypto ObjectStore Repository Locks Server Data Nodes Errors.

Module Wire.
Import AppErrors.

#[warnings="-register-all"]
Inductive Json : Type :=
| JNull | JBool (b : bool) | JNum (z : Z) | JStr (s : string) | JArr (l : list Json) | JObj (l : list (string * Json)).

Class Leaf : Type := {
  uuid_text : Uuid -> string; parse_uuid : string -> option Uuid;
  time_text : Z -> string; parse_time : string -> option Z;
  b64 : bytes -> string; unb64 : string -> option bytes;
}.
Class LeafLaws `{Leaf} : Prop := {
  uuid_law u : parse_uuid (uuid_text u) = Some u;
  time_law t : parse_time (time_text t) = Some t;
  b64_law b : unb64 (b64 b) = Some b;
}.

(** ** Enumerations *)

Open Scope string_scope.
Definition kind_text (k : NodeModel.NodeKind) : string :=
  match k with NodeModel.Directory => "Directory" | NodeModel.File => "File" | NodeModel.Symlink => "Symlink" end.
Definition parse_kind (s : string) : option NodeModel.NodeKind :=
  if bool_decide (s = "Directory") then Some NodeModel.Directory
  else if bool_decide (s = "File") then Some NodeModel.File
  else if bool_decide (s = "Symlink") then Some NodeModel.Symlink else None.
(** [rename_all = "snake_case"]. *)
Definition code_text (c : ErrorCode) : string :=
  match c with
  | NotFound => "not_found" | AlreadyExists => "already_exists" | InvalidName => "invalid_name" | Conflict => "conflict"
  | DirectoryNotEmpty => "directory_not_empty" | Integrity => "integrity" | QueueFull => "queue_full"
  | Unauthorized => "unauthorized" | BackendUnavailable => "backend_unavailable" | InvalidRequest => "invalid_request"
  end.
Definition codes : list ErrorCode := [NotFound; AlreadyExists; InvalidName; Conflict; DirectoryNotEmpty; Integrity; QueueFull;
  Unauthorized; BackendUnavailable; InvalidRequest].
Definition parse_code (s : string) : option ErrorCode := head (filter (fun c => code_text c = s) codes).

(** [ApiErrorKind] and its code. *)
Inductive ApiErrorKind : Type :=
| KNotFound | KAlreadyExists | KInvalidName | KConflict | KDirectoryNotEmpty | KIntegrity | KQueueFull | KUnauthorized
| KBackendUnavailable | KInvalidRequest (m : string).
Definition code_of_kind (k : ApiErrorKind) : ErrorCode :=
  match k with
  | KNotFound => NotFound | KAlreadyExists => AlreadyExists | KInvalidName => InvalidName | KConflict => Conflict
  | KDirectoryNotEmpty => DirectoryNotEmpty | KIntegrity => Integrity | KQueueFull => QueueFull | KUnauthorized => Unauthorized
  | KBackendUnavailable => BackendUnavailable | KInvalidRequest _ => InvalidRequest
  end.
Definition kind_message (k : ApiErrorKind) : string :=
  match k with
  | KNotFound => "not found" | KAlreadyExists => "already exists" | KInvalidName => "invalid name" | KConflict => "conflict"
  | KDirectoryNotEmpty => "directory not empty" | KIntegrity => "integrity error" | KQueueFull => "queue full"
  | KUnauthorized => "unauthorized" | KBackendUnavailable => "backend unavailable"
  | KInvalidRequest m => "invalid request: " +:+ m
  end.
Close Scope string_scope.

(** ** Message types *)

(** [TField key skip t rest]: a field, left out when it is [None] if [skip]
    ([skip_serializing_if = "Option::is_none"]), and the fields after it. *)
Inductive Ty : Type :=
| TUuid | TName | TKind | TNum (bits : Z) | TTime | TText | TBool | TCode
| TOpt (t : Ty) | TList (t : Ty)
| TNil | TField (key : string) (skip : bool) (t rest : Ty).

Fixpoint denote (t : Ty) : Type :=
  match t with
  | TUuid => Uuid | TName => bytes | TKind => NodeModel.NodeKind | TNum _ => Z | TTime => Z | TText => string | TBool => bool
  | TCode => ErrorCode
  | TOpt t => option (denote t)
  | TList t => list (denote t)
  | TNil => unit
  | TField _ _ t rest => denote t * denote rest
  end.

Definition is_none (t : Ty) : denote t -> bool :=
  match t with TOpt _ => fun v => match v with None => true | Some _ => false end | _ => fun _ => false end.
(** What a missing field is read as. *)
Definition absent (t : Ty) : option (denote t) := match t with TOpt _ => Some None | _ => None end.
(** The value of [key]; [None] when it comes twice. *)
Definition field (key : string) (l : list (string * Json)) : option (option Json) :=
  match filter (fun p : string * Json => p.1 = key) l with
  | [] => Some None
  | [(_, v)] => Some (Some v)
  | _ => None
  end.

Section Codec.
Context `{Leaf}.

Definition text {A} (parse : string -> option A) (j : Json) : option A :=
  match j with JStr s => parse s | _ => None end.
(** [NameBytes] has implementations of its own. *)
Definition serialize_name (name : bytes) : Json := JStr (b64 name).
Definition deserialize_name : Json -> option bytes := text unb64.

Fixpoint encode (t : Ty) : denote t -> Json :=
  match t with
  | TUuid => fun v => JStr (uuid_text v)
  | TName => serialize_name
  | TKind => fun v => JStr (kind_text v)
  | TNum _ => fun v => JNum v
  | TTime => fun v => JStr (time_text v)
  | TText => fun v => JStr v
  | TBool => fun v => JBool v
  | TCode => fun v => JStr (code_text v)
  | TOpt t => fun v => match v with Some v => encode t v | None => JNull end
  | TList t => fun v => JArr (encode t <$> v)
  | TNil => fun _ => JObj []
  | TField key skip t rest => fun v =>
      match encode rest v.2 with
      | JObj l => JObj (if skip && is_none t v.1 then l else (key, encode t v.1) :: l)
      | j => j
      end
  end.

(** A variant without fields: its name, or an object with the name as its key and nothing in it. *)
Definition variant {A} (parse : string -> option A) (j : Json) : option A :=
  match j with JStr s | JObj [(s, JNull)] => parse s | _ => None end.
Fixpoint decode (t : Ty) : Json -> option (denote t) :=
  match t with
  | TUuid => text parse_uuid
  | TName => deserialize_name
  | TKind => variant parse_kind
  | TNum bits => fun j => match j with JNum z => if (0 <=? z) && (z <? 2 ^ bits) then Some z else None | _ => None end
  | TTime => text parse_time
  | TText => text Some
  | TBool => fun j => match j with JBool b => Some b | _ => None end
  | TCode => variant parse_code
  | TOpt t => fun j => match j with JNull => Some None | j => Some <$> decode t j end
  | TList t => fun j => match j with JArr l => mapM (decode t) l | _ => None end
  | TNil => fun j => match j with JObj _ | JArr [] => Some tt | _ => None end
  | TField key skip t rest => fun j =>
      match j with
      | JArr [] => if skip then v ← absent t; vs ← decode rest j; Some (v, vs) else None
      | JArr (x :: l) => v ← decode t x; vs ← decode rest (JArr l); Some (v, vs)
      | JObj l =>
          v ← match field key l with Some (Some x) => decode t x | Some None => absent t | None => None end;
          vs ← decode rest j;
          Some (v, vs)
      | _ => None
      end
  end.
End Codec.

(** ** The messages *)

Open Scope string_scope.
Definition struct (fields : list (string * bool * Ty)) : Ty :=
  foldr (fun f rest => TField f.1.1 f.1.2 f.2 rest) TNil fields.
Definition plain (key : string) (t : Ty) : string * bool * Ty := (key, false, t).
(** [#[serde(default, skip_serializing_if = "Option::is_none")]]. *)
Definition skipped (key : string) (t : Ty) : string * bool * Ty := (key, true, TOpt t).

Definition NodeResponse : Ty := struct [
  plain "id" TUuid; plain "parent_id" (TOpt TUuid); plain "name" TName; plain "kind" TKind; plain "mode" (TNum 32);
  plain "uid" (TNum 32); plain "gid" (TNum 32); plain "size" (TNum 64); plain "atime" TTime; plain "mtime" TTime;
  plain "ctime" TTime; plain "current_version_id" (TOpt TUuid); plain "generation" (TNum 64); skipped "link_target" TName].
Definition CreateNodeRequest : Ty := struct [
  plain "parent_id" TUuid; plain "name" TName; plain "kind" TKind; plain "mode" (TNum 32); plain "uid" (TNum 32);
  plain "gid" (TNum 32); skipped "link_target" TName; plain "idempotency_key" TUuid].
Definition PatchNodeRequest : Ty := struct [
  plain "mode" (TOpt (TNum 32)); plain "uid" (TOpt (TNum 32)); plain "gid" (TOpt (TNum 32)); plain "size" (TOpt (TNum 64));
  plain "mtime" (TOpt TTime); plain "atime" (TOpt TTime); plain "idempotency_key" TUuid].
Definition RenameNodeRequest : Ty := struct [
  plain "new_parent_id" TUuid; plain "new_name" TName; plain "idempotency_key" TUuid].
Definition ListChildrenResponse : Ty := struct [plain "children" (TList NodeResponse); plain "has_more" TBool].
Definition ResolveQuery : Ty := struct [plain "path" TText].
Definition FsInfoResponse : Ty := struct [plain "chunk_size" (TNum 64)].
Definition ListChildrenQuery : Ty := struct [plain "limit" (TOpt (TNum 32)); plain "offset" (TOpt (TNum 32))].

Definition StageVersionRequest : Ty := struct [
  plain "node_id" TUuid; plain "expected_generation" (TNum 64); plain "expected_current_version" (TOpt TUuid);
  plain "idempotency_key" TUuid].
Definition StageVersionResponse : Ty := struct [
  plain "version_id" TUuid; plain "node_id" TUuid; plain "generation" (TNum 64); plain "chunk_size" (TNum 64)].
Definition UploadChunkRequest : Ty := struct [
  plain "chunk_index" (TNum 64); plain "plaintext_size" (TNum 64); plain "plaintext_hash" TText; plain "idempotency_key" TUuid].
Definition UploadChunkResponse : Ty := struct [plain "object_id" TUuid; plain "ciphertext_size" (TNum 64)].
Definition CommitVersionRequest : Ty := struct [
  plain "version_id" TUuid; plain "total_size" (TNum 64); plain "plaintext_hash" TText; plain "expected_generation" (TNum 64);
  plain "expected_current_version" (TOpt TUuid); plain "idempotency_key" TUuid].
Definition CommitVersionResponse : Ty := struct [
  plain "version_id" TUuid; plain "node_id" TUuid; plain "generation" (TNum 64); plain "committed_at" TTime].
Definition ChunkManifestEntry : Ty := struct [
  plain "chunk_index" (TNum 64); plain "object_id" TUuid; plain "plaintext_hash" TText; plain "plaintext_size" (TNum 64)].
Definition ReadChunkResponse : Ty := struct [
  plain "object_id" TUuid; plain "plaintext_hash" TText; plain "plaintext_size" (TNum 64)].
Definition ApiError : Ty := struct [plain "code" TCode; plain "message" TText; plain "request_id" (TOpt TText)].
Close Scope string_scope.

(** Everything the protocol names. *)
Definition messages : list Ty := [
  NodeResponse; CreateNodeRequest; PatchNodeRequest; RenameNodeRequest; ListChildrenResponse; ResolveQuery; FsInfoResponse;
  ListChildrenQuery; StageVersionRequest; StageVersionResponse; UploadChunkRequest; UploadChunkResponse; CommitVersionRequest;
  CommitVersionResponse; ChunkManifestEntry; ReadChunkResponse; ApiError; TList ChunkManifestEntry].

(** *** Names, [NameBytes] *)

Definition name_new (b : bytes) : result Name.NodeNameError bytes :=
  match Name.new b with Ok _ => Ok b | Err e => Err e end.
Definition to_base64 `{Leaf} (n : bytes) : string := b64 n.
Definition from_base64 `{Leaf} (s : string) : option bytes := unb64 s.

(** *** Errors *)

Definition api_error (c : ErrorCode) (m : string) : denote ApiError := (c, (m, (None, tt))).
Definition with_request_id (id : string) (e : denote ApiError) : denote ApiError := (e.1, (e.2.1, (Some id, tt))).
(** [into_response]: what is logged, of an error of the server; the status, and the error with the
    request id of the context. *)
Definition into_response `{Leaf} {E} (r : ServerErrors.Reported E)
    : option (Z * ErrorCode * string * string * option E) * (Z * Json) :=
  let e := ServerErrors.answer r in
  let body := api_error (code e) (message e) in
  (if (500 <=? status e) && (status e <? 600)
   then Some (status e, code e, message e, ServerErrors.display (ServerErrors.context r), ServerErrors.source r) else None,
   (status e, encode ApiError (match ServerErrors.request_id (ServerErrors.context r) with
                               | Some id => with_request_id (uuid_text id) body
                               | None => body
                               end))).

(** *** Nodes as the handlers have them *)

Definition of_node (n : Nodes.NodeResponse) : denote NodeResponse :=
  (Nodes.nr_id n, (Nodes.nr_parent_id n, (Nodes.nr_name n, (Nodes.nr_kind n, (Nodes.nr_mode n, (Nodes.nr_uid n, (Nodes.nr_gid n,
  (Nodes.nr_size n, (Nodes.nr_atime n, (Nodes.nr_mtime n, (Nodes.nr_ctime n, (Nodes.nr_current_version_id n,
  (Nodes.nr_generation n, (Nodes.nr_link_target n, tt)))))))))))))).
Definition to_node (v : denote NodeResponse) : Nodes.NodeResponse :=
  let '(id, (parent_id, (name, (kind, (mode, (uid, (gid, (size, (atime, (mtime, (ctime, (version, (generation, (target, _)))))))))))))) := v in
  {| Nodes.nr_id := id; Nodes.nr_parent_id := parent_id; Nodes.nr_name := name; Nodes.nr_kind := kind; Nodes.nr_mode := mode;
     Nodes.nr_uid := uid; Nodes.nr_gid := gid; Nodes.nr_size := size; Nodes.nr_atime := atime; Nodes.nr_mtime := mtime;
     Nodes.nr_ctime := ctime; Nodes.nr_current_version_id := version; Nodes.nr_generation := generation;
     Nodes.nr_link_target := target |}.

End Wire.

(** ** What is sent is what is read *)

Module WireFacts.
Import AppErrors Wire.

(** Fields have distinct keys; [null] stands for one value only; only an [Option] can be left out. *)
Fixpoint keys (t : Ty) : list string := match t with TField key _ _ rest => key :: keys rest | _ => [] end.
Fixpoint is_struct (t : Ty) : bool := match t with TNil => true | TField _ _ _ rest => is_struct rest | _ => false end.
Definition is_opt (t : Ty) : bool := match t with TOpt _ => true | _ => false end.
Fixpoint well_formed (t : Ty) : bool :=
  match t with
  | TOpt t => negb (is_opt t) && well_formed t
  | TList t => well_formed t
  | TField key skip t rest =>
      bool_decide (key ∉ keys rest) && is_struct rest && (negb skip || is_opt t) && well_formed t && well_formed rest
  | _ => true
  end.
(** Numbers are within their width. *)
Fixpoint valid (t : Ty) : denote t -> Prop :=
  match t with
  | TNum bits => fun v => 0 <= v < 2 ^ bits
  | TOpt t => fun v => match v with Some v => valid t v | None => True end
  | TList t => fun v => Forall (valid t) v
  | TField _ _ t rest => fun v => valid t v.1 /\ valid rest v.2
  | _ => fun _ => True
  end.

Lemma kind_law k : parse_kind (kind_text k) = Some k.
Proof. by destruct k. Qed.
Lemma code_law c : parse_code (code_text c) = Some c.
Proof. by destruct c. Qed.

Lemma field_skip key l p : p.1 <> key -> field key (p :: l) = field key l.
Proof. intros Hp. unfold field. rewrite filter_cons. by rewrite decide_False. Qed.
Lemma field_here key v l : field key l = Some None -> field key ((key, v) :: l) = Some (Some v).
Proof.
  unfold field. intros Hl. rewrite filter_cons, decide_True by done. destruct (filter _ l) as [|[? ?] [|]]; done.
Qed.

Section Codec.
Context `{LeafLaws}.

(** A field that is not of the message changes nothing. *)
Lemma decode_other t l l' :
  is_struct t = true -> (forall key, key ∈ keys t -> field key l = field key l') -> decode t (JObj l) = decode t (JObj l').
Proof.
  induction t as [| | | | | | | |t1 _|t1 _| |key skip t1 _ rest IH]; simpl; intros Hs Hf; try done.
  rewrite (Hf key) by (by left). rewrite (IH Hs); [done|]. intros k Hk. apply Hf. by right.
Qed.
Lemma encode_struct t v : is_struct t = true -> exists l, encode t v = JObj l /\ forall key, key ∉ keys t -> field key l = Some None.
Proof.
  induction t as [| | | | | | | |t1 _|t1 _| |key skip t1 _ rest IH]; simpl; intros Hs; try done.
  { exists []. done. }
  destruct (IH v.2 Hs) as (l & -> & Hl). destruct (skip && is_none t1 v.1); eexists; (split; [done|]); intros k Hk.
  - apply Hl. set_solver.
  - rewrite field_skip by set_solver. apply Hl. set_solver.
Qed.
Lemma encode_not_null t v : is_opt t = false -> well_formed t = true -> encode t v <> JNull.
Proof.
  destruct t as [| | | | | | | |t1|t1| |key skip t1 rest]; try done. intros _ Hw. simpl in Hw.
  destruct (encode_struct rest v.2) as (l & Hl & _).
  { by rewrite !andb_true_iff in Hw; destruct Hw as [[[[_ ?] _] _] _]. }
  simpl. by rewrite Hl.
Qed.

Lemma encode_decode t v : well_formed t = true -> valid t v -> decode t (encode t v) = Some v.
Proof.
  induction t as [| | |bits| | | | |t1 IH|t1 IH| |key skip t1 IH rest IHr]; intros Hw Hv; try (simpl; done).
  all: simpl in Hw, Hv; rewrite ?andb_true_iff in Hw.
  - apply uuid_law.
  - apply b64_law.
  - apply kind_law.
  - simpl. rewrite (proj2 (Z.leb_le 0 v)), (proj2 (Z.ltb_lt v _)) by lia. done.
  - apply time_law.
  - apply code_law.
  - destruct Hw as [Ho Hw]. apply negb_true_iff in Ho. destruct v as [v|]; [|done]. simpl.
    pose proof (encode_not_null t1 v Ho Hw) as Hn. specialize (IH v Hw Hv).
    destruct (encode t1 v); try done; by rewrite IH.
  - apply mapM_fmap_Forall_Some. eapply Forall_impl; [exact Hv|]. intros x. by apply IH.
  - by destruct v.
  - destruct Hw as [[[[Hk Hs] Ho] Hw1] Hw2]. apply bool_decide_eq_true in Hk. destruct v as [v vs], Hv as [Hv Hvs]. simpl in *.
    destruct (encode_struct rest vs Hs) as (l & Hl & Hout). specialize (IHr vs Hw2 Hvs). rewrite Hl in IHr |- *.
    destruct (skip && is_none t1 v) eqn:Hskip.
    + apply andb_true_iff in Hskip as [-> Hnone]. rewrite (Hout key Hk), IHr. simpl.
      destruct t1; try done. simpl in *. by destruct v.
    + rewrite field_here by (by apply Hout). rewrite (IH v Hw1 Hv). simpl.
      rewrite (decode_other rest ((key, encode t1 v) :: l) l Hs); [by rewrite IHr|].
      intros k Hin. apply field_skip. set_solver.
Qed.

(** The messages survive the wire. For every message of the protocol, what is encoded from a
    value with numbers in range is decoded to that value, also when the other side adds fields of
    its own or puts them in another order; and what a handler answers about a node or an error
    is read as it was meant. *)
Theorem messages_survive :
  (forall t v, t ∈ messages -> valid t v -> decode t (encode t v) = Some v) /\
  (forall t v l l', t ∈ messages -> is_struct t = true -> valid t v -> encode t v = JObj l ->
    (forall key, key ∈ keys t -> field key l' = field key l) -> decode t (JObj l') = Some v) /\
  (forall n, to_node <$> decode NodeResponse (encode NodeResponse (of_node (Nodes.node_to_response n))) =
    Some (Nodes.node_to_response n)) /\
  (forall E (r : ServerErrors.Reported E), decode ApiError (into_response r).2.2 =
    Some (code (ServerErrors.answer r), (message (ServerErrors.answer r),
      (uuid_text <$> ServerErrors.request_id (ServerErrors.context r), tt)))).
Proof.
  assert (Hwf : Forall (fun t => well_formed t = true) messages) by (repeat constructor).
  rewrite Forall_forall in Hwf. split; [|split; [|split]].
  - intros t v Ht. by apply encode_decode, Hwf.
  - intros t v l l' Ht Hs Hv Hl Hf. rewrite (decode_other t l' l Hs Hf), <-Hl. by apply encode_decode; [apply Hwf|].
  - intros n. rewrite encode_decode; [by destruct n| |]; [reflexivity|].
    unfold of_node, Nodes.node_to_response, u32, u64. repeat (split; [simpl; try done; try (by case_match); by apply Z.mod_pos_bound|]).
    done.
  - intros E r. unfold into_response. cbn [snd]. destruct (ServerErrors.request_id _); rewrite encode_decode; done.
Qed.
End Codec.
End WireFacts.

(** ** An instance *)

Module WireExample.
Import AppErrors Wire WireFacts.

(** Numbers in decimal, bytes as they are. *)
Definition number_text (n : N) : string := NilEmpty.string_of_uint (N.to_uint n).
Definition parse_number (s : string) : option N := N.of_uint <$> NilEmpty.uint_of_string s.
Lemma number_law n : parse_number (number_text n) = Some n.
Proof. unfold parse_number, number_text. rewrite NilEmpty.usu. simpl. by rewrite DecimalN.Unsigned.of_to. Qed.
Definition MINUS : Ascii.ascii := Ascii.ascii_of_nat 45.
Definition PLUS : Ascii.ascii := Ascii.ascii_of_nat 43.
Definition toy_time (z : Z) : string := String (if z <? 0 then MINUS else PLUS) (number_text (Z.abs_N z)).
Definition toy_parse_time (s : string) : option Z :=
  match s with
  | String c s => (fun n => if bool_decide (c = MINUS) then - Z.of_N n else Z.of_N n) <$> parse_number s
  | EmptyString => None
  end.
#[local] Instance toy : Leaf := {|
  uuid_text := number_text; parse_uuid := parse_number; time_text := toy_time; parse_time := toy_parse_time;
  b64 := String.string_of_list_byte; unb64 := fun s => Some (String.list_byte_of_string s) |}.
#[local] Instance toy_laws : LeafLaws.
Proof.
  split; simpl.
  - apply number_law.
  - intros z. unfold toy_parse_time, toy_time. rewrite number_law. simpl. f_equal.
    destruct (Z.ltb_spec z 0); simpl; lia.
  - intros b. by rewrite String.list_byte_of_string_of_list_byte.
Qed.

Definition rename : denote RenameNodeRequest := (5%N, ([x61], (9%N, tt))).
(** A peer that is newer sends a field more, and first. *)
Definition newer : list (string * Json) :=
  [("flags", JNum 1); ("idempotency_key", JStr "9"); ("new_name", JStr "a"); ("new_parent_id", JStr "5")]%string.

Lemma messages_survive_witness :
  valid RenameNodeRequest rename /\ decode RenameNodeRequest (JObj newer) = Some rename /\
  decode RenameNodeRequest (encode RenameNodeRequest rename) = Some rename.
Proof.
  destruct messages_survive as (Hround & Hother & _ & _).
  assert (Hin : RenameNodeRequest ∈ messages) by (vm_compute; repeat constructor).
  assert (Hv : valid RenameNodeRequest rename) by (repeat split).
  split; [exact Hv|]. split; [|exact (Hround _ _ Hin Hv)].
  eapply (Hother RenameNodeRequest rename _ newer Hin eq_refl Hv); [vm_compute; reflexivity|].
  intros key Hkey. vm_compute in Hkey. repeat (apply elem_of_cons in Hkey as [->|Hkey]; [vm_compute; reflexivity|]).
  by apply elem_of_nil in Hkey.
Defined.

(** A number too wide for its field, a key twice, a field that is missing, an array that is too long or too short. *)
Example refused_messages :
  decode FsInfoResponse (JObj [("chunk_size", JNum (2 ^ 64))]%string) = None /\
  decode FsInfoResponse (JObj [("chunk_size", JNum 1); ("chunk_size", JNum 1)]%string) = None /\
  decode FsInfoResponse (JObj []) = None /\
  decode FsInfoResponse (JArr [JNum 1; JNum 2]) = None /\
  decode ListChildrenQuery (JArr []) = None /\
  decode ListChildrenQuery (JObj []) = Some (None, (None, tt)) /\
  decode FsInfoResponse (JArr [JNum 1]) = Some (1, tt).
Proof. vm_compute. done. Qed.

End WireExample.
