(* ===== verification/Retry.v ===== *)
(** * Retrying

    Models the retry loops of [src/crates/dcfs-core/src/retry.rs] (module [Retry]) and the
    database retry of [src/crates/dcfs-db/src/postgres.rs] (module [PgRetry]). The
    operation acts on a state that also holds the clock; sleeping is a function of the
    state. How long to back off ([backoff_duration], floating point with random
    jitter) is a parameter of the loops. *)
From Stdlib.Strings Require String.
From S2P Require Import Prelude Repository.

Module Retry.

(** [Retryable]. *)
Class Retryable (E : Type) : Type := is_retryable : E -> bool.

Inductive RetryError (E : Type) : Type :=
| MaxRetriesExceeded (max_attempts : Z) (last_error : E)
| NonRetryable (e : E)
| Cancelled.
Arguments MaxRetriesExceeded {E} _ _.
Arguments NonRetryable {E} _.
Arguments Cancelled {E}.

Record RetryResult (E A : Type) : Type := {
  outcome : result (RetryError E) A;
  attempts : Z;
  elapsed : Z;
}.
Arguments outcome {E A} _.
Arguments attempts {E A} _.
Arguments elapsed {E A} _.

Section Loop.
Context {St A E : Type} (backoff : Z -> Z) (sleep : Z -> St -> St) (instant : St -> Z).
Context (op : St -> result E A * St).

(** The [loop] of both functions, after [made] attempts (a [u32]); [None] is out of
    fuel. *)
Fixpoint retry_loop (retryable : E -> bool) (max_attempts start : Z) (fuel : nat) (made : Z) (st : St)
    : option (RetryResult E A * St) :=
  match fuel with
  | O => None
  | S fuel' =>
      let made := u32 (made + 1) in
      match op st with
      | (Ok v, st) => Some ({| outcome := Ok v; attempts := made; elapsed := instant st - start |}, st)
      | (Err e, st) =>
          if negb (retryable e) then
            Some ({| outcome := Err (NonRetryable e); attempts := made; elapsed := instant st - start |}, st)
          else if max_attempts <=? made then
            Some ({| outcome := Err (MaxRetriesExceeded max_attempts e); attempts := made;
                     elapsed := instant st - start |}, st)
          else retry_loop retryable max_attempts start fuel' made (sleep (backoff made) st)
      end
  end.

(** One attempt is always made, and then no more than [max_attempts]. *)
Definition retry_with_predicate (max_attempts : Z) (retryable : E -> bool) (st : St)
    : option (RetryResult E A * St) :=
  retry_loop retryable max_attempts (instant st) (Z.to_nat (Z.max 1 max_attempts)) 0 st.

Definition retry_with_backoff `{Retryable E} (max_attempts : Z) (st : St) : option (RetryResult E A * St) :=
  retry_with_predicate max_attempts is_retryable st.

(** *** Specification *)

(** [k] attempts in a row failed for a reason worth another attempt, each followed by
    its pause. *)
Inductive tries (retryable : E -> bool) : nat -> St -> St -> Prop :=
| tries_0 st : tries retryable 0 st st
| tries_S k st st1 e st2 :
    tries retryable k st st1 -> op st1 = (Err e, st2) -> retryable e = true ->
    tries retryable (S k) st (sleep (backoff (Z.of_nat k + 1)) st2).

End Loop.
End Retry.

Module PgRetry.
Import Records.

(** The variants of [sqlx::Error] the code distinguishes. *)
Inductive SqlxError : Type :=
| RowNotFound
| PoolTimedOut
| PoolClosed
| Io (m : string)
| Database (code : option string) (m : string)
| Other (m : string).

Section Pg.
Context (to_string : SqlxError -> string).

Definition db_err (e : SqlxError) : RepositoryError :=
  match e with
  | RowNotFound => NotFound
  | Database (Some "23505"%string) _ => AlreadyExists
  | _ => Records.Database (to_string e)
  end.

Definition MAX_ATTEMPTS : Z := 4.

Definition contains (needle s : string) : bool :=
  match String.index 0 needle s with Some _ => true | None => false end.

Definition is_transient_sqlstate (code : option string) (m : string) : bool :=
  match code with
  | Some c =>
      if bool_decide (c ∈ ["40001"; "40P01"; "57014"; "57P01"; "57P02"; "57P03"; "55P03"; "25006"; "53300";
                           "08000"; "08001"; "08003"; "08004"; "08006"; "08007"]%string) then true
      else if bool_decide (c = "58000"%string) then contains "checkout timeout" m
      else false
  | None => false
  end.

Definition is_transient (e : SqlxError) : bool :=
  match e with
  | PoolTimedOut | PoolClosed | Io _ => true
  | Database code m => is_transient_sqlstate code m
  | _ => false
  end.

Context {St A : Type} (sleep : Z -> St -> St) (op : St -> result SqlxError A * St).

(** The [for] loop over the attempts left, with the delay in milliseconds; falling out
    of it is the [unreachable!]. *)
Fixpoint retrying_loop (remaining : list Z) (delay : Z) (st : St) : result (fault RepositoryError) A * St :=
  match remaining with
  | [] => (Err Panic, st)
  | attempt :: remaining =>
      match op st with
      | (Ok v, st) => (Ok v, st)
      | (Err e, st) =>
          if (attempt <? MAX_ATTEMPTS) && is_transient e
          then retrying_loop remaining (delay * 2) (sleep delay st)
          else (Err (Fail (db_err e)), st)
      end
  end.
Definition retrying (st : St) : result (fault RepositoryError) A * St :=
  retrying_loop (seqZ 1 MAX_ATTEMPTS) 250 st.

(** The pause after attempt [k]. *)
Definition pause (k : Z) : Z := 250 * 2 ^ (k - 1).

End Pg.
End PgRetry.

(** ** Properties *)
Module RetryFacts.
Import Retry.

Section Loop.
Context {St A E : Type} (backoff : Z -> Z) (sleep : Z -> St -> St) (instant : St -> Z).
Context (op : St -> result E A * St) (retryable : E -> bool).
Abbreviation tries := (Retry.tries backoff sleep op retryable).

(** How the loop ends when [k] attempts failed before the one made in [st1]. *)
Definition ends (max_attempts start : Z) (k : nat) (st1 : St) (r : RetryResult E A) (st2 : St) : Prop :=
  (op st1).2 = st2 /\ attempts r = Z.of_nat k + 1 /\ elapsed r = instant st2 - start /\
  match (op st1).1 with
  | Ok v => outcome r = Ok v
  | Err e => if retryable e then outcome r = Err (MaxRetriesExceeded max_attempts e) /\ attempts r = Z.max 1 max_attempts
             else outcome r = Err (NonRetryable e)
  end.

Lemma retry_loop_ends max_attempts start st fuel k st0 :
  0 <= max_attempts < 2 ^ 32 -> tries k st st0 ->
  (fuel + k)%nat = Z.to_nat (Z.max 1 max_attempts) -> (0 < fuel)%nat ->
  exists r k' st1 st2, retry_loop backoff sleep instant op retryable max_attempts start fuel (Z.of_nat k) st0 = Some (r, st2) /\
    Z.of_nat k' < Z.max 1 max_attempts /\ tries k' st st1 /\ ends max_attempts start k' st1 r st2.
Proof.
  intros Hmax. revert k st0. induction fuel as [|fuel IH]; intros k st0 Ht Hf Hpos; [lia|]. simpl.
  assert (Hk : u32 (Z.of_nat k + 1) = Z.of_nat k + 1) by (unfold u32; apply Z.mod_small; lia).
  rewrite Hk. destruct (op st0) as [[v|e] st2] eqn:Hop.
  { eexists _, k, st0, st2. split; [done|]. split; [lia|]. unfold ends. by rewrite Hop. }
  destruct (retryable e) eqn:Hr; simpl.
  2: { eexists _, k, st0, st2. split; [done|]. split; [lia|]. unfold ends. rewrite Hop. simpl. by rewrite Hr. }
  destruct (Z.leb_spec max_attempts (Z.of_nat k + 1)).
  { eexists _, k, st0, st2. split; [done|]. split; [lia|]. unfold ends. rewrite Hop. simpl. rewrite Hr.
    split_and!; try done. simpl. lia. }
  replace (Z.of_nat k + 1) with (Z.of_nat (S k)) by lia. apply IH; [|lia|lia].
  replace (Z.of_nat (S k)) with (Z.of_nat k + 1) by lia. by econstructor.
Qed.

(** Retrying ends, and rightly. Whatever the operation does, the loop returns after at
    most [max_attempts] attempts (one, if that is zero); every attempt before the last
    failed with a retryable error and was followed by its pause; the last one succeeded
    and is the result, or failed with an error that is not retryable, or used up the
    attempts, and the result says which. *)
Theorem retry_with_predicate_correct max_attempts st :
  0 <= max_attempts < 2 ^ 32 ->
  exists r k st1 st2, retry_with_predicate backoff sleep instant op max_attempts retryable st = Some (r, st2) /\
    Z.of_nat k < Z.max 1 max_attempts /\ tries k st st1 /\ ends max_attempts (instant st) k st1 r st2.
Proof.
  intros Hmax. apply (retry_loop_ends _ (instant st) st _ 0%nat st); [done|constructor|lia|lia].
Qed.

End Loop.

(** An operation that fails twice before it succeeds, on a clock. *)
Definition third_time (st : nat * Z) : result bool Z * (nat * Z) :=
  let '(n, t) := st in
  if bool_decide (n < 2)%nat then (Err true, (S n, t + 1)) else (Ok 7, (S n, t + 1)).

Lemma retry_with_predicate_correct_witness :
  exists r st, retry_with_predicate (fun k => 100 * k) (fun d st => (st.1, st.2 + d)) snd third_time 3 id (0%nat, 0) = Some (r, st) /\
    outcome r = Ok 7 /\ attempts r = 3 /\ elapsed r = 303 /\ attempts r <= 3.
Proof.
  destruct (retry_with_predicate_correct (fun k => 100 * k) (fun d st => (st.1, st.2 + d)) snd third_time id 3 (0%nat, 0))
    as (r & k & st1 & st2 & Hr & Hk & _ & (_ & Ha & _)); [lia|].
  exists r, st2. split; [done|]. rewrite Ha. vm_compute in Hr. injection Hr as <- <-. simpl in *. split_and!; lia || done.
Defined.

Section Pg.
Import Records PgRetry.
Context (to_string : SqlxError -> string).
Context {St A : Type} (sleep : Z -> St -> St) (op : St -> result SqlxError A * St).
Abbreviation pg_tries := (Retry.tries pause sleep op is_transient).

Lemma retrying_loop_ends st k st0 :
  pg_tries k st st0 -> Z.of_nat k < MAX_ATTEMPTS ->
  exists k' st1, Z.of_nat k' < MAX_ATTEMPTS /\ pg_tries k' st st1 /\
    retrying_loop to_string sleep op (seqZ (Z.of_nat k + 1) (MAX_ATTEMPTS - Z.of_nat k)) (pause (Z.of_nat k + 1)) st0
      = (map_err (fun e => Fail (db_err to_string e)) (op st1).1, (op st1).2) /\
    (forall e, (op st1).1 = Err e -> is_transient e = true -> Z.of_nat k' + 1 = MAX_ATTEMPTS).
Proof.
  remember (Z.to_nat (MAX_ATTEMPTS - Z.of_nat k)) as n eqn:Hn. revert k st0 Hn.
  induction n as [|n IH]; intros k st0 Hn Ht Hk; [lia|].
  rewrite seqZ_cons by lia. simpl. destruct (op st0) as [[v|e] st2] eqn:Hop.
  { exists k, st0. rewrite Hop. by split_and!. }
  destruct (_ && _) eqn:Hgo.
  - apply andb_true_iff in Hgo as [Hlt%Z.ltb_lt Htr].
    destruct (IH (S k) (sleep (pause (Z.of_nat k + 1)) st2)) as (k' & st1 & H1 & H2 & H3 & H4); [lia|by econstructor|lia|].
    exists k', st1. split_and!; [done|done| |done]. rewrite <-H3. f_equal.
    + f_equal; lia.
    + unfold pause. replace (Z.of_nat (S k) + 1 - 1) with (Z.succ (Z.of_nat k + 1 - 1)) by lia.
      rewrite Z.pow_succ_r by lia. lia.
  - exists k, st0. rewrite Hop. split_and!; [done|done|done|]. simpl. intros e' [= <-] Htr.
    rewrite Htr, andb_true_r in Hgo. apply Z.ltb_ge in Hgo. lia.
Qed.

(** The database retry. A query is tried at most four times, with pauses of 250, 500
    and 1000 ms, and only after transient errors: the answer is that of the last
    attempt, which succeeded, failed for good, or was the fourth. A duplicate key is
    never retried and is reported as [AlreadyExists]. The loop never runs out. *)
Theorem retrying_correct st :
  exists k st1, (k < 4)%nat /\ pg_tries k st st1 /\
    retrying to_string sleep op st = (map_err (fun e => Fail (db_err to_string e)) (op st1).1, (op st1).2) /\
    (forall e, (op st1).1 = Err e -> is_transient e = true -> k = 3%nat) /\
    (forall m, is_transient (Database (Some "23505"%string) m) = false /\
               db_err to_string (Database (Some "23505"%string) m) = AlreadyExists).
Proof.
  destruct (retrying_loop_ends st 0 st) as (k & st1 & H1 & H2 & H3 & H4); [constructor|done|].
  exists k, st1. unfold MAX_ATTEMPTS in *. split_and!; [lia|done|exact H3| |done].
  intros e He Htr. specialize (H4 e He Htr). lia.
Qed.

End Pg.
End RetryFacts.
