(* ===== verification/Backoff.v ===== *)
(** * How long to back off

    Models [RetryConfig] of [src/crates/dcfs-core/src/retry.rs] (module [Backoff]) with the
    settings of the mount's client ([default_retry] of [src/crates/dcfs-fuse/src/client.rs]),
    and [RetryConfig] of [src/crates/dcfs-discord/src/retry.rs] (module [DiscordBackoff]). An
    [f64] is a binary64 number of the Standard Library's [SpecFloat], whose operations round
    as IEEE 754 says; [powi], whose precision Rust leaves open, is a parameter, and so is the
    random number of the jitter. A [Duration] is a number of nanoseconds. *)
From Stdlib Require Import SpecFloat.
From S2P Require Import Prelude.

Module Float.

Abbreviation f64 := spec_float.
Definition prec : Z := 53.
Definition emax : Z := 1024.
Definition add : f64 -> f64 -> f64 := SFadd prec emax.
Definition sub : f64 -> f64 -> f64 := SFsub prec emax.
Definition mul : f64 -> f64 -> f64 := SFmul prec emax.
Definition div : f64 -> f64 -> f64 := SFdiv prec emax.
(** [as f64] of an integer. *)
Definition of_Z (z : Z) : f64 := binary_normalize prec emax z 0 false.
(** A literal, the number nearest to [a / b]. *)
Definition literal (a b : Z) : f64 := div (of_Z a) (of_Z b).
(** [as u64]: towards zero, and at the nearest end when out of range. *)
Definition as_u64 (x : f64) : Z :=
  match x with
  | S754_finite false m e => Z.min (2 ^ 64 - 1) (Z.shiftl (Z.pos m) e)
  | S754_infinity false => 2 ^ 64 - 1
  | _ => 0
  end.
Definition is_nan (x : f64) : bool := match x with S754_nan => true | _ => false end.
(** [f64::max] and [f64::min] pass over a NaN. *)
Definition max (x y : f64) : f64 := if is_nan x then y else if is_nan y then x else if SFltb x y then y else x.
Definition min (x y : f64) : f64 := if is_nan x then y else if is_nan y then x else if SFltb y x then y else x.
(** [f64::powi]. *)
Class Powi : Type := powi : f64 -> Z -> f64.

End Float.

Module Duration.
Import Float.

Definition from_millis (ms : Z) : Z := ms * 10 ^ 6.
Definition from_secs (s : Z) : Z := s * 10 ^ 9.
Definition as_millis (d : Z) : Z := d / 10 ^ 6.
Definition as_secs_f64 (d : Z) : f64 := add (of_Z (d / 10 ^ 9)) (div (of_Z (d mod 10 ^ 9)) (of_Z (10 ^ 9))).
(** To the nearest nanosecond, ties to even; a panic ([None]) on what no [Duration] is. *)
Definition from_secs_f64 (x : f64) : option Z :=
  match x with
  | S754_zero _ => Some 0
  | S754_finite false m e =>
      let n := Z.pos m * 10 ^ 9 in
      let d := if 0 <=? e then n * 2 ^ e
               else let q := n / 2 ^ (- e) in
                    match (2 * (n mod 2 ^ (- e))) ?= 2 ^ (- e) with
                    | Lt => q
                    | Eq => if Z.even q then q else q + 1
                    | Gt => q + 1
                    end in
      if d <? 2 ^ 64 * 10 ^ 9 then Some d else None
  | _ => None
  end.

End Duration.

Module Backoff.
Import Float Duration.

Record RetryConfig : Type := {
  max_attempts : Z;
  initial_backoff : Z;
  max_backoff : Z;
  multiplier : f64;
  jitter : bool;
}.
Definition default : RetryConfig :=
  {| max_attempts := 3; initial_backoff := from_millis 100; max_backoff := from_secs 30; multiplier := of_Z 2; jitter := true |}.
Definition new : RetryConfig := default.
Definition with_max_attempts (n : Z) (c : RetryConfig) : RetryConfig :=
  {| max_attempts := n; initial_backoff := initial_backoff c; max_backoff := max_backoff c; multiplier := multiplier c;
     jitter := jitter c |}.
Definition with_initial_backoff (d : Z) (c : RetryConfig) : RetryConfig :=
  {| max_attempts := max_attempts c; initial_backoff := d; max_backoff := max_backoff c; multiplier := multiplier c;
     jitter := jitter c |}.
Definition with_max_backoff (d : Z) (c : RetryConfig) : RetryConfig :=
  {| max_attempts := max_attempts c; initial_backoff := initial_backoff c; max_backoff := d; multiplier := multiplier c;
     jitter := jitter c |}.
Definition with_multiplier (x : f64) (c : RetryConfig) : RetryConfig :=
  {| max_attempts := max_attempts c; initial_backoff := initial_backoff c; max_backoff := max_backoff c; multiplier := x;
     jitter := jitter c |}.
Definition with_jitter (b : bool) (c : RetryConfig) : RetryConfig :=
  {| max_attempts := max_attempts c; initial_backoff := initial_backoff c; max_backoff := max_backoff c;
     multiplier := multiplier c; jitter := b |}.

Definition backoff_duration `{Powi} (c : RetryConfig) (random : f64) (attempt : Z) : Z :=
  let base := mul (of_Z (as_millis (initial_backoff c))) (powi (multiplier c) (i32 attempt)) in
  let duration := from_millis (as_u64 base) in
  let duration := if max_backoff c <? duration then max_backoff c else duration in
  if jitter c then
    let jitter_range := mul (of_Z (as_millis duration)) (literal 2 10) in
    let jitter := mul (mul (sub random (literal 1 2)) (of_Z 2)) jitter_range in
    let jittered := add (of_Z (as_millis duration)) jitter in
    from_millis (as_u64 (max jittered (of_Z 0)))
  else duration.

(** The mount's client. *)
Definition default_retry : RetryConfig :=
  with_jitter true (with_multiplier (of_Z 2) (with_max_backoff (from_secs 8)
    (with_initial_backoff (from_millis 250) (with_max_attempts 6 new)))).

End Backoff.

Module DiscordBackoff.
Import Float Duration.

Record RetryConfig : Type := {
  max_attempts : Z;
  initial_backoff : Z;
  max_backoff : Z;
  multiplier : f64;
}.
Definition default : RetryConfig :=
  {| max_attempts := 5; initial_backoff := from_millis 500; max_backoff := from_secs 30; multiplier := of_Z 2 |}.
Definition backoff_duration `{Powi} (c : RetryConfig) (attempt : Z) : option Z :=
  let base := as_secs_f64 (initial_backoff c) in
  let multiplier := powi (multiplier c) (i32 attempt) in
  let backoff_secs := min (mul base multiplier) (as_secs_f64 (max_backoff c)) in
  from_secs_f64 backoff_secs.

End DiscordBackoff.

(** ** The delays *)

Module BackoffFacts.
Import Float Duration.

(** Powers of two are exact until they overflow. *)
Definition two_to (n : Z) : f64 := if n <? 1024 then of_Z (2 ^ n) else S754_infinity false.
Class PowiLaws `{Powi} : Prop := powi_two n : 0 <= n < 2 ^ 31 -> powi (of_Z 2) n = two_to n.

Definition below (n : Z) (check : Z -> bool) : bool := forallb check (seqZ 0 n).
Lemma below_spec n check i : below n check = true -> 0 <= i < n -> check i = true.
Proof. intros Hb Hi. unfold below in Hb. rewrite forallb_forall in Hb. apply Hb, list_elem_of_In, elem_of_seqZ. lia. Qed.
Lemma i32_small n : 0 <= n < 2 ^ 31 -> i32 n = n.
Proof. intros Hn. unfold i32. rewrite Z.mod_small by lia. lia. Qed.
Lemma doubled_past n d m : 1024 <= n -> 0 < d -> m <= 2 ^ 40 -> Z.min (d * 2 ^ n) m = m.
Proof.
  intros Hn Hd Hm. apply Z.min_r. etransitivity; [exact Hm|]. transitivity (2 ^ n); [apply Z.pow_le_mono_r; lia|].
  pose proof (Z.pow_pos_nonneg 2 n ltac:(lia) ltac:(lia)). nia.
Qed.

Section Delays.
Context `{PowiLaws}.

(** The delay of the mount's client from its power of two. *)
Definition mount_delay (x : f64) : Z :=
  let duration := from_millis (as_u64 (mul (of_Z 250) x)) in if from_secs 8 <? duration then from_secs 8 else duration.
Definition discord_delay (x : f64) : option Z :=
  from_secs_f64 (min (mul (as_secs_f64 (from_millis 500)) x) (as_secs_f64 (from_secs 30))).
Definition doubling (start cap n : Z) : Z := Z.min (from_millis start * 2 ^ n) (from_secs cap).

(** The same with the jitter that one half gives. *)
Definition half_jitter (d : Z) : Z :=
  from_millis (as_u64 (max (add (of_Z (as_millis d))
    (mul (mul (sub (literal 1 2) (literal 1 2)) (of_Z 2)) (mul (of_Z (as_millis d)) (literal 2 10)))) (of_Z 0))).

Definition delays_right (n : Z) : bool :=
  (mount_delay (two_to n) =? doubling 250 8 n) && (half_jitter (doubling 250 8 n) =? doubling 250 8 n) &&
  match discord_delay (two_to n) with Some d => d =? doubling 500 30 n | None => false end.
Lemma delays_table : below 1024 delays_right = true.
Proof. vm_compute. reflexivity. Qed.
Lemma two_to_past n : 1024 <= n -> two_to n = S754_infinity false.
Proof. intros Hn. unfold two_to. by destruct (Z.ltb_spec n 1024); [lia|]. Qed.

Lemma delays n : 0 <= n -> mount_delay (two_to n) = doubling 250 8 n /\ half_jitter (doubling 250 8 n) = doubling 250 8 n /\
  discord_delay (two_to n) = Some (doubling 500 30 n).
Proof.
  intros Hn. destruct (Z.lt_ge_cases n 1024) as [Hlt|Hge].
  - pose proof (below_spec _ _ n delays_table ltac:(lia)) as Hd. unfold delays_right in Hd. case_match; [|by rewrite andb_false_r in Hd].
    rewrite !andb_true_iff, !Z.eqb_eq in Hd. destruct Hd as [[Hm Hh] ->]. split; [exact Hm|]. split; [exact Hh|reflexivity].
  - rewrite (two_to_past n Hge). unfold doubling. rewrite !doubled_past by (unfold from_secs, from_millis; lia).
    repeat split; vm_compute; reflexivity.
Qed.

(** The pauses double up to their limit. Before attempt [n], for every number the code can
    count to, the mount's client pauses 250 ms doubled [n] times or 8 s, whichever is less (with
    jitter switched off, or when the random number is one half), and the Discord client 500 ms
    doubled [n] times or 30 s; no overflow on the way shortens a pause or stops the program. *)
Theorem pauses_double n :
  0 <= n < 2 ^ 31 ->
  (forall random, Backoff.backoff_duration (Backoff.with_jitter false Backoff.default_retry) random n = doubling 250 8 n) /\
  Backoff.backoff_duration Backoff.default_retry (literal 1 2) n = doubling 250 8 n /\
  DiscordBackoff.backoff_duration DiscordBackoff.default n = Some (doubling 500 30 n).
Proof.
  intros Hn. destruct (delays n ltac:(lia)) as (Hm & Hh & Hd). split; [|split].
  - intros random. unfold Backoff.backoff_duration. cbn -[mul of_Z powi from_millis from_secs Z.ltb i32 as_millis].
    rewrite (i32_small n Hn), (powi_two n Hn). exact Hm.
  - transitivity (half_jitter (mount_delay (two_to n))); [|rewrite Hm; exact Hh]. unfold Backoff.backoff_duration.
    cbn -[mul add sub max literal of_Z powi from_millis from_secs Z.ltb i32 as_millis as_u64].
    rewrite (i32_small n Hn), (powi_two n Hn). reflexivity.
  - unfold DiscordBackoff.backoff_duration. cbn -[mul of_Z powi from_millis from_secs i32 as_secs_f64 from_secs_f64 min].
    rewrite (i32_small n Hn), (powi_two n Hn). exact Hd.
Qed.

End Delays.

(** [powi] as repeated multiplication, and by division for a negative exponent. *)
#[local] Instance repeated : Powi := fun x n =>
  if n <? 0 then div (of_Z 1) (Nat.iter (Z.to_nat (- n)) (mul x) (of_Z 1)) else Nat.iter (Z.to_nat n) (mul x) (of_Z 1).
#[local] Instance spec_float_dec : EqDecision spec_float.
Proof. solve_decision. Defined.
Definition doubles (n : Z) : bool := bool_decide (mul (of_Z 2) (two_to n) = two_to (n + 1)).
Lemma doubles_table : below 1024 doubles = true.
Proof. vm_compute. reflexivity. Qed.
Lemma two_to_S n : 0 <= n -> mul (of_Z 2) (two_to n) = two_to (n + 1).
Proof.
  intros Hn. destruct (Z.lt_ge_cases n 1024) as [Hlt|Hge].
  - exact (bool_decide_eq_true_1 _ (below_spec _ _ n doubles_table (conj Hn Hlt))).
  - rewrite !two_to_past by lia. reflexivity.
Qed.
#[local] Instance repeated_laws : PowiLaws.
Proof.
  intros n Hn. unfold powi, repeated. destruct (Z.ltb_spec n 0); [lia|]. clear Hn. revert n H. apply natlike_ind.
  - vm_compute. reflexivity.
  - intros n Hn IH. rewrite Z2Nat.inj_succ by lia. cbn [Nat.iter nat_rect]. etransitivity; [apply f_equal, IH|]. by apply two_to_S.
Qed.

(** The tests of the source. *)
Definition test : Backoff.RetryConfig :=
  Backoff.with_jitter false (Backoff.with_multiplier (of_Z 2) (Backoff.with_max_backoff (from_secs 10)
    (Backoff.with_initial_backoff (from_millis 100) Backoff.new))).
Lemma pauses_double_witness :
  0 <= 2000 < 2 ^ 31 /\ DiscordBackoff.backoff_duration DiscordBackoff.default 2000 = Some (from_secs 30).
Proof. split; [lia|]. exact (proj2 (proj2 (pauses_double 2000 ltac:(lia)))). Defined.
Example tested_pauses :
  (Backoff.backoff_duration test S754_nan <$> [0; 1; 2; 3; 10]) = [from_millis 100; from_millis 200; from_millis 400; from_millis 800; from_secs 10] /\
  DiscordBackoff.backoff_duration {| DiscordBackoff.max_attempts := 10; DiscordBackoff.initial_backoff := from_secs 1;
    DiscordBackoff.max_backoff := from_secs 5; DiscordBackoff.multiplier := of_Z 10 |} 5 = Some (from_secs 5).
Proof. vm_compute. done. Qed.

(** With jitter a pause can be longer than [max_backoff]; a negative multiplier stops the
    Discord client; past [2^31] attempts the exponent is negative. *)
Theorem pauses_can_exceed :
  Backoff.backoff_duration Backoff.default_retry (literal (2 ^ 53 - 1) (2 ^ 53)) 5 = from_millis 9600 /\
  Backoff.max_backoff Backoff.default_retry = from_millis 8000 /\
  DiscordBackoff.backoff_duration {| DiscordBackoff.max_attempts := 5; DiscordBackoff.initial_backoff := from_millis 500;
    DiscordBackoff.max_backoff := from_secs 30; DiscordBackoff.multiplier := of_Z (-2) |} 1 = None /\
  Backoff.backoff_duration (Backoff.with_jitter false Backoff.default_retry) S754_nan (2 ^ 32 - 1) = from_millis 125.
Proof. vm_compute. done. Qed.

End BackoffFacts.
