(* ===== verification/Postgres.v ===== *)
(** * The PostgreSQL repository

    Models [src/crates/dcfs-db/src/postgres.rs]: every query of [PgRepository] as what it
    does to the tables, in its transactions. The tables and their constraints are those of
    [src/migrations]: the primary keys, the foreign keys, the checks on [kind] and
    [link_target], and the two unique indexes. Nulls in a unique index are distinct.

    Any statement may fail on its way: it is refused before it runs, or it runs and its
    answer is lost. [NOW()] and [Uuid::new_v4()] are arguments; the order of rows a query
    does not order is that of [HashOrder]. *)
From Stdlib.Strings Require String.
From S2P Require Import Prelude Repository Retry.

Module Pg.
Import Records PgRetry.

(** ** Tables *)

Record NodeRow : Type := { node : NodeRecord; n_deleted_at : option Z }.
Record ObjectRow : Type := {
  o_backend : option string;
  o_message_id : string;
  o_attachment_id : string;
  o_url : option string;
  o_ciphertext_size : Z;
  o_created_at : Z;
  o_deleted_at : option Z;
}.
Record SessionRow : Type := {
  se_label : option string;
  se_token_hash : option string;
  se_created_at : Z;
  se_expires_at : Z;
  se_revoked_at : option Z;
}.
Record Db : Type := {
  nodes : gmap Uuid NodeRow;
  file_versions : gmap Uuid FileVersionRecord;
  file_chunks : gmap (Uuid * Z) FileChunkRecord;
  stored_objects : gmap Uuid ObjectRow;
  sessions : gmap Uuid SessionRow;
}.
Definition with_nodes (d : Db) (ns : gmap Uuid NodeRow) : Db :=
  {| nodes := ns; file_versions := file_versions d; file_chunks := file_chunks d;
     stored_objects := stored_objects d; sessions := sessions d |}.
Definition with_versions (d : Db) (vs : gmap Uuid FileVersionRecord) : Db :=
  {| nodes := nodes d; file_versions := vs; file_chunks := file_chunks d;
     stored_objects := stored_objects d; sessions := sessions d |}.
Definition with_chunks (d : Db) (cs : gmap (Uuid * Z) FileChunkRecord) : Db :=
  {| nodes := nodes d; file_versions := file_versions d; file_chunks := cs;
     stored_objects := stored_objects d; sessions := sessions d |}.
Definition with_objects (d : Db) (os : gmap Uuid ObjectRow) : Db :=
  {| nodes := nodes d; file_versions := file_versions d; file_chunks := file_chunks d;
     stored_objects := os; sessions := sessions d |}.
Definition with_sessions (d : Db) (ss : gmap Uuid SessionRow) : Db :=
  {| nodes := nodes d; file_versions := file_versions d; file_chunks := file_chunks d;
     stored_objects := stored_objects d; sessions := ss |}.

Definition unique_violation : SqlxError := Database (Some "23505"%string) "duplicate key value violates unique constraint".
Definition foreign_key_violation : SqlxError := Database (Some "23503"%string) "insert or update violates foreign key constraint".
Definition check_violation : SqlxError := Database (Some "23514"%string) "new row violates check constraint".
Definition out_of_range : SqlxError := Database (Some "22003"%string) "bigint out of range".

(** [deleted_at IS NULL]. *)
Definition is_live (r : NodeRow) : bool := bool_decide (n_deleted_at r = None).
(** The row takes the entry [name] of [parent]: what [idx_nodes_live_name] compares. *)
Definition takes (parent : Uuid) (name : bytes) (r : NodeRow) : bool :=
  is_live r && bool_decide (n_parent_id (node r) = Some parent) && bool_decide (n_name (node r) = name).
Definition kind_ok (n : NodeRecord) : bool :=
  bool_decide (n_kind n ∈ ["file"; "directory"; "symlink"]%string) &&
  eqb (bool_decide (n_kind n = "symlink"%string)) (bool_decide (is_Some (n_link_target n))).
Definition parent_exists (d : Db) (n : NodeRecord) : bool :=
  match n_parent_id n with Some p => bool_decide (is_Some (nodes d !! p)) | None => true end.
(** Another live row with the same parent and name; the nulls of roots are distinct. *)
Definition name_taken (d : Db) (n : NodeRecord) : bool :=
  match n_parent_id n with
  | Some p => existsb (fun r => negb (bool_decide (r.1 = n_id n)) && takes p (n_name n) r.2) (map_to_list (nodes d))
  | None => false
  end.

Definition Sql (A : Type) : Type := Db -> result SqlxError (A * Db).

(** [INSERT INTO nodes]: the checks, the two unique indexes, the foreign key. *)
Definition insert_node (n : NodeRecord) : Sql NodeRecord := fun d =>
  if negb (kind_ok n) then Err check_violation
  else if bool_decide (is_Some (nodes d !! n_id n)) || name_taken d n then Err unique_violation
  else if negb (parent_exists d n || bool_decide (n_parent_id n = Some (n_id n))) then Err foreign_key_violation
  else Ok (n, with_nodes d (<[n_id n := {| node := n; n_deleted_at := None |}]> (nodes d))).
(** [UPDATE nodes ... WHERE id = $1 AND deleted_at IS NULL]; a move is checked as an
    insertion is. The rows that were changed. *)
Definition update_node (id : Uuid) (f : NodeRecord -> NodeRecord) : Sql (option NodeRecord) := fun d =>
  match nodes d !! id with
  | Some r =>
      if negb (is_live r) then Ok (None, d) else
      let n := f (node r) in
      if name_taken d n then Err unique_violation
      else if negb (parent_exists d n) then Err foreign_key_violation
      else Ok (Some n, with_nodes d (<[id := {| node := n; n_deleted_at := None |}]> (nodes d)))
  | None => Ok (None, d)
  end.
(** [UPDATE nodes SET deleted_at = NOW() WHERE id = $1 AND deleted_at IS NULL]. *)
Definition mark_deleted (now : Z) (id : Uuid) : Sql bool := fun d =>
  match nodes d !! id with
  | Some r => if is_live r then Ok (true, with_nodes d (<[id := {| node := node r; n_deleted_at := Some now |}]> (nodes d)))
              else Ok (false, d)
  | None => Ok (false, d)
  end.

(** [BETWEEN]. *)
Definition between (first last i : Z) : bool := (first <=? i) && (i <=? last).

(** ** The connection *)

Inductive Fault : Type := Refused (e : SqlxError) | Lost (e : SqlxError).
Record Conn : Type := { db : Db; sent : nat }.

Section Repository.
Context `{HashOrder} (to_string : SqlxError -> string) (faults : nat -> option Fault).

Definition M (A : Type) : Type := Conn -> result (fault RepositoryError) A * Conn.
#[global] Instance pg_ret : MRet M := fun A a s => (Ok a, s).
#[global] Instance pg_bind : MBind M := fun A B f m s =>
  match m s with
  | (Ok a, s') => f a s'
  | (Err e, s') => (Err e, s')
  end.
Definition fail {A} (e : RepositoryError) : M A := fun s => (Err (Fail e), s).
Definition or_not_found {A} (o : option A) : M A := match o with Some a => mret a | None => fail NotFound end.

(** A statement that is sent. *)
Definition execute {A} (q : Sql A) (s : Conn) : result SqlxError A * Conn :=
  let ran := match q (db s) with Ok (a, d) => (Ok a, d) | Err e => (Err e, db s) end in
  match faults (sent s) with
  | None => (ran.1, {| db := ran.2; sent := S (sent s) |})
  | Some (Refused e) => (Err e, {| db := db s; sent := S (sent s) |})
  | Some (Lost e) => (Err e, {| db := ran.2; sent := S (sent s) |})
  end.
(** [.map_err(db_err)?]. *)
Definition run {A} (q : Sql A) : M A := fun s =>
  match execute q s with
  | (Ok a, s') => (Ok a, s')
  | (Err e, s') => (Err (Fail (db_err to_string e)), s')
  end.
Definition select {A} (f : Db -> A) : Sql A := fun d => Ok (f d, d).
Definition change (f : Db -> Db) : Sql unit := fun d => Ok (tt, f d).
(** Between [begin] and [commit]: an early return drops the transaction, which rolls back. *)
Definition transaction {A} (m : M A) : M A := fun s =>
  match run (select (fun _ => tt)) s with
  | (Err e, s') => (Err e, s')
  | (Ok _, s') =>
      match m s' with
      | (Err e, s'') => (Err e, {| db := db s; sent := sent s'' |})
      | (Ok a, s'') =>
          match faults (sent s'') with
          | None => (Ok a, {| db := db s''; sent := S (sent s'') |})
          | Some (Refused e) => (Err (Fail (db_err to_string e)), {| db := db s; sent := S (sent s'') |})
          | Some (Lost e) => (Err (Fail (db_err to_string e)), {| db := db s''; sent := S (sent s'') |})
          end
      end
  end.
(** [retrying], of a statement. *)
Definition run_retrying {A} (q : Sql A) : M A := retrying to_string (fun _ s => s) (execute q).

(** ** Nodes *)

Definition live_node (d : Db) (id : Uuid) : option NodeRecord :=
  r ← nodes d !! id; if is_live r then Some (node r) else None.
Definition live_rows (d : Db) : list NodeRecord := node <$> filter (fun r => is_live r = true) (hm_values (nodes d)).
Definition find_root (d : Db) : option NodeRecord := head (filter (fun n => n_parent_id n = None) (live_rows d)).

Definition get_node (id : Uuid) : M NodeRecord :=
  found ← run (select (fun d => live_node d id)); or_not_found found.
Definition get_root : M NodeRecord := found ← run (select find_root); or_not_found found.

(** The order of [bytea]. *)
Fixpoint bytes_le (a b : bytes) : bool :=
  match a, b with
  | [], _ => true
  | _, [] => false
  | x :: a', y :: b' => (byte_to_Z x <? byte_to_Z y) || ((byte_to_Z x =? byte_to_Z y) && bytes_le a' b')
  end.
Definition by_name (a b : NodeRecord) : Prop := bytes_le (n_name a) (n_name b) = true.
#[global] Instance by_name_dec a b : Decision (by_name a b).
Proof. unfold by_name. apply _. Defined.
Definition listing (parent : Uuid) (d : Db) : list NodeRecord :=
  merge_sort by_name (filter (fun n => MemoryRepo.is_in parent n = true) (live_rows d)).
Definition list_children (parent : Uuid) (limit offset : Z) : M (list NodeRecord) :=
  run (select (fun d => ztake limit (zdrop offset (listing parent d)))).

Definition entry (d : Db) (parent : Uuid) (name : bytes) : option NodeRecord :=
  head (filter (fun n => MemoryRepo.is_child parent name n = true) (live_rows d)).
Definition find_child (parent : Uuid) (name : bytes) : M NodeRecord :=
  found ← run (select (fun d => entry d parent name)); or_not_found found.

Definition create_node (now : Z) (id parent : Uuid) (name : bytes) (kind : string) (mode uid gid : Z) : M NodeRecord :=
  run (insert_node {| n_id := id; n_parent_id := Some parent; n_name := name; n_kind := kind; n_mode := mode;
    n_uid := uid; n_gid := gid; n_size := 0; n_atime := now; n_mtime := now; n_ctime := now;
    n_current_version_id := None; n_generation := 0; n_link_target := None |}).
Definition create_symlink (now : Z) (id parent : Uuid) (name target : bytes) (uid gid : Z) : M NodeRecord :=
  run (insert_node {| n_id := id; n_parent_id := Some parent; n_name := name; n_kind := "symlink"; n_mode := 41471;
    n_uid := uid; n_gid := gid; n_size := i64 (len target); n_atime := now; n_mtime := now; n_ctime := now;
    n_current_version_id := None; n_generation := 0; n_link_target := Some target |}).

Definition delete_node (now : Z) (id : Uuid) : M unit :=
  done_ ← run (mark_deleted now id); if done_ : bool then mret tt else fail NotFound.

Definition place (now : Z) (id new_parent : Uuid) (new_name : bytes) : M unit :=
  done_ ← run (update_node id (set_place (Some new_parent) new_name now));
  match done_ with Some _ => mret tt | None => fail NotFound end.
(** [UPDATE nodes SET deleted_at = NOW() WHERE id = $1]. *)
Definition mark_any (now : Z) (id : Uuid) : Sql unit :=
  change (fun d => with_nodes d (alter (fun r => {| node := node r; n_deleted_at := Some now |}) id (nodes d))).
Definition rename_node (now : Z) (id new_parent : Uuid) (new_name : bytes) : M unit := transaction (
  existing ← run (select (fun d => entry d new_parent new_name));
  _ ← match existing with
      | Some victim =>
          if bool_decide (n_id victim = id) then mret tt else
          _ ← (if bool_decide (n_kind victim = "directory"%string) then
                 child ← run (select (fun d => head (filter (fun n => MemoryRepo.is_in (n_id victim) n = true) (live_rows d))));
                 match child with Some _ => fail DirectoryNotEmpty | None => mret tt end
               else mret tt);
          run (mark_any now (n_id victim))
      | None => mret tt
      end;
  place now id new_parent new_name).
Definition publish_node (now : Z) (id new_parent : Uuid) (new_name : bytes) : M unit := place now id new_parent new_name.

Definition update_node_attr (now : Z) (id : Uuid) (mode uid gid size mtime atime : option Z) : M NodeRecord :=
  done_ ← run (update_node id (set_attr mode uid gid size mtime atime now)); or_not_found done_.

(** ** Versions *)

Definition is_staging (v : FileVersionRecord) : bool := bool_decide (v_state v = "staging"%string).
Definition bump (n : NodeRecord) : NodeRecord := set_content (n_current_version_id n) (n_generation n + 1) (n_size n) n.
(** [generation + 1] is a [bigint]. *)
Definition bump_generation (id : Uuid) : Sql (option NodeRecord) := fun d =>
  match live_node d id with
  | Some n => if n_generation n + 1 <? 2 ^ 63 then update_node id bump d else Err out_of_range
  | None => Ok (None, d)
  end.
Definition insert_version (v : FileVersionRecord) : Sql FileVersionRecord := fun d =>
  if bool_decide (is_Some (file_versions d !! v_id v)) then Err unique_violation
  else if negb (bool_decide (is_Some (nodes d !! v_node_id v))) ||
          match v_base_version_id v with
          | Some b => negb (bool_decide (is_Some (file_versions d !! b)) || bool_decide (b = v_id v))
          | None => false
          end
       then Err foreign_key_violation
  else Ok (v, with_versions d (<[v_id v := v]> (file_versions d))).
Definition create_staging_version (version_id : Uuid) (now : Z) (node_id : Uuid) (base : option Uuid) (chunk_size : Z)
    : M FileVersionRecord := transaction (
  bumped ← run (bump_generation node_id);
  _ ← or_not_found bumped;
  run (insert_version {| v_id := version_id; v_node_id := node_id; v_base_version_id := base; v_state := "staging";
    v_size := 0; v_plaintext_hash := ""; v_chunk_size := chunk_size; v_created_at := now; v_committed_at := None |})).

Definition newest_first (a b : FileVersionRecord) : Prop := v_created_at b <= v_created_at a.
#[global] Instance newest_first_dec a b : Decision (newest_first a b).
Proof. unfold newest_first. apply _. Defined.
Definition find_open_staging_version (node_id : Uuid) : M FileVersionRecord :=
  found ← run_retrying (select (fun d => head (merge_sort newest_first
    (filter (fun v => bool_decide (v_node_id v = node_id) && is_staging v = true) (hm_values (file_versions d))))));
  or_not_found found.
Definition touch_staging_version (now : Z) (version_id : Uuid) (size : Z) : M unit :=
  run (change (fun d => with_versions d (alter (fun v =>
    if is_staging v then set_version (v_state v) size (v_plaintext_hash v) now (v_committed_at v) v else v)
    version_id (file_versions d)))).
Definition get_version (id : Uuid) : M FileVersionRecord :=
  found ← run (select (fun d => file_versions d !! id)); or_not_found found.

Definition committed_size (d : Db) (n : NodeRecord) : Z :=
  default 0 (v_size <$> (n_current_version_id n ≫= fun id => file_versions d !! id)).
Definition needs_reconcile (d : Db) (n : NodeRecord) : bool :=
  bool_decide (n_kind n = "file"%string) && negb (n_size n =? committed_size d n) &&
  negb (existsb (fun v => bool_decide (v_node_id v = n_id n) && is_staging v) (hm_values (file_versions d))).
Definition reconcile_node_sizes : M Z :=
  run (fun d => Ok (Z.of_nat (size (filter (fun p => needs_reconcile d (node p.2) = true) (nodes d))),
    with_nodes d ((fun r => if needs_reconcile d (node r)
      then {| node := set_content (n_current_version_id (node r)) (n_generation (node r)) (committed_size d (node r)) (node r);
              n_deleted_at := n_deleted_at r |}
      else r) <$> nodes d))).

(** ** Chunks *)

Definition attach_chunk (version_id : Uuid) (chunk_index logical_offset plaintext_size : Z) (plaintext_hash : string)
    (object_id : Uuid) : M unit :=
  run (fun d => if bool_decide (is_Some (file_versions d !! version_id))
    then Ok (tt, with_chunks d (<[(version_id, chunk_index) :=
      {| c_version_id := version_id; c_chunk_index := chunk_index; c_logical_offset := logical_offset;
         c_plaintext_size := plaintext_size; c_plaintext_hash := plaintext_hash; c_object_id := object_id |}]> (file_chunks d)))
    else Err foreign_key_violation).

Definition by_index (a b : FileChunkRecord) : Prop := c_chunk_index a <= c_chunk_index b.
#[global] Instance by_index_dec a b : Decision (by_index a b).
Proof. unfold by_index. apply _. Defined.
(** The rows of a version with an index between two, [ORDER BY chunk_index]. *)
Definition manifest (d : Db) (version_id : Uuid) (keep : Z -> bool) : list FileChunkRecord :=
  merge_sort by_index (snd <$> filter (fun p : Uuid * Z * FileChunkRecord =>
    bool_decide (p.1.1 = version_id) && keep p.1.2 = true) (hm_iter (file_chunks d))).
Definition get_chunks (version_id : Uuid) : M (list FileChunkRecord) :=
  exists_ ← run (select (fun d => v_id <$> file_versions d !! version_id));
  _ ← or_not_found exists_;
  run (select (fun d => manifest d version_id (fun _ => true))).
Definition get_chunk_range (version_id : Uuid) (first last : Z) : M (list FileChunkRecord) :=
  run (select (fun d => manifest d version_id (between first last))).

(** [INSERT ... SELECT ... ON CONFLICT DO NOTHING]: the rows that were new. *)
Definition carried (d : Db) (from_version to_version : Uuid) (first last : Z) : gmap (Uuid * Z) FileChunkRecord :=
  list_to_map ((fun c => ((to_version, c_chunk_index c), set_chunk_version to_version c)) <$>
    manifest d from_version (between first last)).
Definition copy_chunk_range (from_version to_version : Uuid) (first last : Z) : M Z :=
  if last <? first then mret 0 else
  run (fun d =>
    let rows := carried d from_version to_version first last in
    let new_rows := filter (fun p : Uuid * Z * FileChunkRecord => file_chunks d !! p.1 = None) rows in
    if bool_decide (new_rows <> ∅) && negb (bool_decide (is_Some (file_versions d !! to_version))) then Err foreign_key_violation
    else Ok (Z.of_nat (size new_rows), with_chunks d (file_chunks d ∪ rows))).

(** [UPDATE file_versions SET state = 'committed' ... WHERE id = $1 AND state = 'staging']. *)
Definition commit_row (now : Z) (id : Uuid) (total_size : Z) (plaintext_hash : string) : Sql (option FileVersionRecord) := fun d =>
  match file_versions d !! id with
  | Some v =>
      if is_staging v then
        let v := set_version "committed" total_size plaintext_hash (v_created_at v) (Some now) v in
        Ok (Some v, with_versions d (<[id := v]> (file_versions d)))
      else Ok (None, d)
  | None => Ok (None, d)
  end.
Definition supersede (v : FileVersionRecord) : FileVersionRecord :=
  if bool_decide (v_state v = "committed"%string)
  then set_version "superseded" (v_size v) (v_plaintext_hash v) (v_created_at v) (v_committed_at v) v else v.
(** [UPDATE nodes SET current_version_id, size, mtime, ctime WHERE id = $1]. *)
Definition set_times (mtime ctime : Z) (n : NodeRecord) : NodeRecord := set_attr None None None None (Some mtime) None ctime n.
Definition publish_version (now : Z) (node_id version_id : Uuid) (total_size : Z) : Sql unit :=
  change (fun d => with_nodes d (alter (fun r =>
    {| node := set_times now now (set_content (Some version_id) (n_generation (node r)) total_size (node r));
       n_deleted_at := n_deleted_at r |}) node_id (nodes d))).
Definition commit_version (now : Z) (guard : CommitGuard) (total_size : Z) (plaintext_hash : string)
    : M FileVersionRecord := transaction (
  found ← run (select (fun d => live_node d (g_node_id guard)));
  n ← or_not_found found;
  if negb (n_generation n =? g_expected_generation guard) ||
     negb (bool_decide (n_current_version_id n = g_expected_current_version guard)) then fail Conflict else
  committed ← run (commit_row now (g_version_id guard) total_size plaintext_hash);
  v ← or_not_found committed;
  _ ← match n_current_version_id n with
      | Some old => run (change (fun d => with_versions d (alter supersede old (file_versions d))))
      | None => mret tt
      end;
  _ ← run (publish_version now (g_node_id guard) (g_version_id guard) total_size);
  mret v).

(** ** Object locators *)

Definition put_object_locator (now : Z) (l : ObjectLocatorRecord) : M unit :=
  run (change (fun d =>
    let old := stored_objects d !! l_object_id l in
    with_objects d (<[l_object_id l :=
      {| o_backend := Some (l_backend l); o_message_id := l_message_id l; o_attachment_id := l_attachment_id l;
         o_url := Some (l_url l); o_ciphertext_size := l_size l; o_created_at := default now (o_created_at <$> old);
         o_deleted_at := old ≫= o_deleted_at |}]> (stored_objects d)))).
Definition locator_of (id : Uuid) (r : ObjectRow) : ObjectLocatorRecord :=
  {| l_object_id := id; l_backend := default ""%string (o_backend r); l_message_id := o_message_id r;
     l_attachment_id := o_attachment_id r; l_url := default ""%string (o_url r); l_size := o_ciphertext_size r |}.
Definition get_object_locator (object_id : Uuid) : M ObjectLocatorRecord :=
  found ← run (select (fun d => r ← stored_objects d !! object_id;
    if bool_decide (o_deleted_at r = None) then Some (locator_of object_id r) else None));
  or_not_found found.
Definition touch_object_url (object_id : Uuid) (url : string) : M unit :=
  run (change (fun d => with_objects d (alter (fun r =>
    {| o_backend := o_backend r; o_message_id := o_message_id r; o_attachment_id := o_attachment_id r; o_url := Some url;
       o_ciphertext_size := o_ciphertext_size r; o_created_at := o_created_at r; o_deleted_at := o_deleted_at r |})
    object_id (stored_objects d)))).
Definition delete_object_locator (object_id : Uuid) : M unit :=
  run (change (fun d => with_objects d (delete object_id (stored_objects d)))).

(** ** Sessions *)

Definition session_of (id : Uuid) (r : SessionRow) : SessionRecord :=
  {| s_id := id; s_label := default ""%string (se_label r); s_created_at := se_created_at r; s_expires_at := se_expires_at r |}.
Definition create_session (now : Z) (id : Uuid) (token_hash label : string) (expires_at : Z) : M SessionRecord :=
  run (fun d =>
    let row := {| se_label := Some label; se_token_hash := Some token_hash; se_created_at := now;
                  se_expires_at := expires_at; se_revoked_at := None |} in
    if bool_decide (is_Some (sessions d !! id)) ||
       existsb (fun r => bool_decide (se_token_hash r.2 = Some token_hash)) (map_to_list (sessions d))
    then Err unique_violation
    else Ok (session_of id row, with_sessions d (<[id := row]> (sessions d)))).
Definition find_session (now : Z) (token_hash : string) : M SessionRecord :=
  found ← run (select (fun d => head ((fun p => session_of p.1 p.2) <$>
    filter (fun p : Uuid * SessionRow => bool_decide (se_token_hash p.2 = Some token_hash) &&
      bool_decide (se_revoked_at p.2 = None) && (now <? se_expires_at p.2) = true) (hm_iter (sessions d)))));
  or_not_found found.
Definition revoke_session (now : Z) (id : Uuid) : M bool :=
  run (fun d => match sessions d !! id with
    | Some r => if bool_decide (se_revoked_at r = None)
                then Ok (true, with_sessions d (<[id := {| se_label := se_label r; se_token_hash := se_token_hash r;
                       se_created_at := se_created_at r; se_expires_at := se_expires_at r; se_revoked_at := Some now |}]> (sessions d)))
                else Ok (false, d)
    | None => Ok (false, d)
    end).
Definition purge_expired_sessions (older_than : Z) : M Z :=
  run (fun d =>
    let kept := filter (fun p : Uuid * SessionRow => older_than <= se_expires_at p.2) (sessions d) in
    Ok (Z.of_nat (size (sessions d)) - Z.of_nat (size kept), with_sessions d kept)).

(** ** Garbage collection *)

(** The CTE [live]. *)
Definition is_current (d : Db) (v : FileVersionRecord) : bool :=
  match nodes d !! v_node_id v with
  | Some r => is_live r && bool_decide (n_current_version_id (node r) = Some (v_id v))
  | None => false
  end.
Definition live (older_than : Z) (d : Db) : gset Uuid :=
  list_to_set (v_id <$> filter (fun v => is_current d v || (is_staging v && (older_than <=? v_created_at v)) = true)
    (hm_values (file_versions d))).
Definition dead_since (older_than : Z) (d : Db) (id : Uuid) : bool :=
  match file_versions d !! id with
  | Some v => negb (bool_decide (id ∈ live older_than d)) && (default (v_created_at v) (v_committed_at v) <? older_than)
  | None => false
  end.
(** Some row of the chunks has the object, and is of a version in [among]. *)
Definition referenced (d : Db) (among : Uuid -> bool) (object_id : Uuid) : bool :=
  existsb (fun p : Uuid * Z * FileChunkRecord => bool_decide (c_object_id p.2 = object_id) && among p.1.1) (hm_iter (file_chunks d)).
Definition unreachable (older_than : Z) (d : Db) : list Uuid :=
  c_object_id ∘ snd <$> filter (fun p : Uuid * Z * FileChunkRecord => dead_since older_than d p.1.1 &&
    negb (referenced d (fun v => bool_decide (v ∈ live older_than d)) (c_object_id p.2)) = true) (hm_iter (file_chunks d)).
Definition unattached (older_than : Z) (d : Db) : list Uuid :=
  fst <$> filter (fun p : Uuid * ObjectRow => (o_created_at p.2 <? older_than) && negb (referenced d (fun _ => true) p.1) = true)
    (hm_iter (stored_objects d)).
(** [UNION] keeps one of each, in no order; [LIMIT] takes some. *)
Definition distinct (l : list Uuid) : list Uuid := (hm_iter (list_to_map ((fun x => (x, tt)) <$> l) : gmap Uuid unit)).*1.
Definition collectable_objects (older_than limit : Z) : M (list Uuid) :=
  run_retrying (select (fun d => ztake limit (distinct (unreachable older_than d ++ unattached older_than d)))).

Definition forget_object (object_id : Uuid) : M Z := transaction (
  removed ← run (fun d =>
    let kept := filter (fun p : Uuid * Z * FileChunkRecord => c_object_id p.2 <> object_id) (file_chunks d) in
    Ok (Z.of_nat (size (file_chunks d)) - Z.of_nat (size kept), with_chunks d kept));
  _ ← run (change (fun d => with_objects d (delete object_id (stored_objects d))));
  mret removed).

Definition doomed (older_than : Z) (d : Db) : gset Uuid :=
  list_to_set (v_id <$> filter (fun v =>
    (default (v_created_at v) (v_committed_at v) <? older_than) &&
    negb (existsb (fun r => is_live r && bool_decide (n_current_version_id (node r) = Some (v_id v))) (hm_values (nodes d))) &&
    negb (existsb (fun p : Uuid * Z * FileChunkRecord => bool_decide (p.1.1 = v_id v)) (hm_iter (file_chunks d))) = true)
    (hm_values (file_versions d))).
Definition unlink (gone : gset Uuid) (v : FileVersionRecord) : FileVersionRecord :=
  match v_base_version_id v with
  | Some b => if bool_decide (b ∈ gone)
              then {| v_id := v_id v; v_node_id := v_node_id v; v_base_version_id := None; v_state := v_state v;
                      v_size := v_size v; v_plaintext_hash := v_plaintext_hash v; v_chunk_size := v_chunk_size v;
                      v_created_at := v_created_at v; v_committed_at := v_committed_at v |}
              else v
  | None => v
  end.
Definition purge_empty_dead_versions (older_than : Z) : M Z :=
  run (fun d =>
    let gone := doomed older_than d in
    Ok (Z.of_nat (size (filter (fun p => p.1 ∈ gone) (file_versions d))),
        with_versions d (unlink gone <$> filter (fun p => p.1 ∉ gone) (file_versions d)))).
Definition purge_deleted_nodes (older_than : Z) : M Z :=
  run (fun d =>
    let gone (p : Uuid * NodeRow) : bool :=
      match n_deleted_at p.2 with Some t => t <? older_than | None => false end &&
      negb (existsb (fun v => bool_decide (v_node_id v = p.1)) (hm_values (file_versions d))) &&
      negb (existsb (fun r => bool_decide (n_parent_id (node r) = Some p.1)) (hm_values (nodes d))) in
    Ok (Z.of_nat (size (filter (fun p => gone p = true) (nodes d))), with_nodes d (filter (fun p => gone p = false) (nodes d)))).

(** ** The root *)

Definition root_row (id : Uuid) (now : Z) : NodeRecord :=
  {| n_id := id; n_parent_id := None; n_name := []; n_kind := "directory"; n_mode := 16877; n_uid := 0; n_gid := 0;
     n_size := 0; n_atime := now; n_mtime := now; n_ctime := now; n_current_version_id := None; n_generation := 0;
     n_link_target := None |}.
(** [ON CONFLICT DO NOTHING]. *)
Definition insert_or_nothing (n : NodeRecord) : Sql unit := fun d =>
  match insert_node n d with
  | Ok (_, d') => Ok (tt, d')
  | Err e => if bool_decide (is_Some (nodes d !! n_id n)) || name_taken d n then Ok (tt, d) else Err e
  end.
Definition ensure_root (id : Uuid) (now : Z) : M NodeRecord :=
  found ← run (select find_root);
  match found with
  | Some n => mret n
  | None =>
      _ ← run (insert_or_nothing (root_row id now));
      found ← run (select find_root);
      or_not_found found
  end.

End Repository.

(** ** Schema names *)

Definition lower (b : byte) : bool := (97 <=? byte_to_Z b) && (byte_to_Z b <=? 122).
Definition digit (b : byte) : bool := (48 <=? byte_to_Z b) && (byte_to_Z b <=? 57).
Definition underscore (b : byte) : bool := bool_decide (b = x5f).
(** [validate_schema_name], by the bytes: the characters of a multi-byte one are refused
    as its bytes are. *)
Definition validate_schema_name (schema : bytes) : bool :=
  negb (bool_decide (schema = [])) && (len schema <=? 63) &&
  match schema with b :: _ => lower b || underscore b | [] => false end &&
  forallb (fun b => lower b || digit b || underscore b) schema.

End Pg.
