(* ===== verification/PostgresFacts.v ===== *)
(** * The PostgreSQL repository: constraints and transactions

    Proofs about [Postgres]: every method keeps the constraints of the schema, whatever
    statements fail, and has its whole effect or none. *)
From Stdlib.Strings Require String.
From S2P Require Import Prelude Repository Retry Postgres.

Module PgFacts.
Import Records PgRetry Pg.

(** ** The methods that change the database *)

Inductive Op : Type :=
| CreateNode (now : Z) (id parent : Uuid) (name : bytes) (kind : string) (mode uid gid : Z)
| CreateSymlink (now : Z) (id parent : Uuid) (name target : bytes) (uid gid : Z)
| DeleteNode (now : Z) (id : Uuid)
| RenameNode (now : Z) (id new_parent : Uuid) (new_name : bytes)
| PublishNode (now : Z) (id new_parent : Uuid) (new_name : bytes)
| UpdateNodeAttr (now : Z) (id : Uuid) (mode uid gid size mtime atime : option Z)
| CreateStagingVersion (version_id : Uuid) (now : Z) (node_id : Uuid) (base : option Uuid) (chunk_size : Z)
| TouchStagingVersion (now : Z) (version_id : Uuid) (size : Z)
| ReconcileNodeSizes
| AttachChunk (version_id : Uuid) (chunk_index logical_offset plaintext_size : Z) (hash : string) (object_id : Uuid)
| CopyChunkRange (from_version to_version : Uuid) (first last : Z)
| CommitVersion (now : Z) (guard : CommitGuard) (total_size : Z) (hash : string)
| PutObjectLocator (now : Z) (l : ObjectLocatorRecord)
| TouchObjectUrl (object_id : Uuid) (url : string)
| DeleteObjectLocator (object_id : Uuid)
| CreateSession (now : Z) (id : Uuid) (token_hash label : string) (expires_at : Z)
| RevokeSession (now : Z) (id : Uuid)
| PurgeExpiredSessions (older_than : Z)
| ForgetObject (object_id : Uuid)
| PurgeEmptyDeadVersions (older_than : Z)
| PurgeDeletedNodes (older_than : Z)
| EnsureRoot (id : Uuid) (now : Z).

Lemma alter_at `{Countable K} {A} (f : A -> A) (m : gmap K A) k x : m !! k = Some x -> alter f k m = <[k := f x]> m.
Proof. intros Hk. apply map_eq. intros j. rewrite lookup_alter, lookup_insert. case_decide; [|done]. subst. by rewrite Hk. Qed.
Lemma alter_none `{Countable K} {A} (f : A -> A) (m : gmap K A) k : m !! k = None -> alter f k m = m.
Proof. intros Hk. apply map_eq. intros j. rewrite lookup_alter. case_decide; [|done]. subst. by rewrite Hk. Qed.

Section Facts.
Context `{HashOrder} (to_string : SqlxError -> string).
Implicit Types (d : Db) (s : Conn).

Definition void {A} (m : M A) : M unit := _ ← m; mret tt.
Definition exec (faults : nat -> option Fault) (op : Op) : M unit :=
  match op with
  | CreateNode now id parent name kind mode uid gid => void (create_node to_string faults now id parent name kind mode uid gid)
  | CreateSymlink now id parent name target uid gid => void (create_symlink to_string faults now id parent name target uid gid)
  | DeleteNode now id => delete_node to_string faults now id
  | RenameNode now id new_parent new_name => rename_node to_string faults now id new_parent new_name
  | PublishNode now id new_parent new_name => publish_node to_string faults now id new_parent new_name
  | UpdateNodeAttr now id mode uid gid size mtime atime => void (update_node_attr to_string faults now id mode uid gid size mtime atime)
  | CreateStagingVersion version_id now node_id base cs => void (create_staging_version to_string faults version_id now node_id base cs)
  | TouchStagingVersion now version_id size => touch_staging_version to_string faults now version_id size
  | ReconcileNodeSizes => void (reconcile_node_sizes to_string faults)
  | AttachChunk v i off size hash o => attach_chunk to_string faults v i off size hash o
  | CopyChunkRange from_v to_v first last => void (copy_chunk_range to_string faults from_v to_v first last)
  | CommitVersion now guard size hash => void (commit_version to_string faults now guard size hash)
  | PutObjectLocator now l => put_object_locator to_string faults now l
  | TouchObjectUrl o url => touch_object_url to_string faults o url
  | DeleteObjectLocator o => delete_object_locator to_string faults o
  | CreateSession now id hash label expires => void (create_session to_string faults now id hash label expires)
  | RevokeSession now id => void (revoke_session to_string faults now id)
  | PurgeExpiredSessions older => void (purge_expired_sessions to_string faults older)
  | ForgetObject o => void (forget_object to_string faults o)
  | PurgeEmptyDeadVersions older => void (purge_empty_dead_versions to_string faults older)
  | PurgeDeletedNodes older => void (purge_deleted_nodes to_string faults older)
  | EnsureRoot id now => void (ensure_root to_string faults id now)
  end.

(** ** What a method keeps *)

Section Keeps.
Context (faults : nat -> option Fault) (P : Db -> Prop).

Definition keeps {A} (m : M A) : Prop := forall s, P (db s) -> P (db (m s).2).
Definition sql_keeps {A} (q : Sql A) : Prop := forall d a d', P d -> q d = Ok (a, d') -> P d'.

Lemma keeps_ret {A} (a : A) : keeps (mret a).
Proof. by intros s. Qed.
Lemma keeps_fail {A} e : keeps (fail (A := A) e).
Proof. by intros s. Qed.
Lemma keeps_bind {A B} (m : M A) (f : A -> M B) : keeps m -> (forall a, keeps (f a)) -> keeps (m ≫= f).
Proof.
  intros Hm Hf s Hs. specialize (Hm s Hs). unfold mbind, pg_bind. destruct (m s) as [[a|e] s']; [by apply Hf|done].
Qed.
Lemma keeps_or_not_found {A} (o : option A) : keeps (or_not_found o).
Proof. destruct o; [apply keeps_ret|apply keeps_fail]. Qed.
Lemma execute_keeps {A} (q : Sql A) s : sql_keeps q -> P (db s) -> P (db (execute faults q s).2).
Proof.
  intros Hq Hs. unfold execute. specialize (Hq (db s)). destruct (faults (sent s)) as [[e|e]|]; simpl; [done| |];
    destruct (q (db s)) as [[a d']|e']; simpl; try done; by apply (Hq a).
Qed.
Lemma keeps_run {A} (q : Sql A) : sql_keeps q -> keeps (run to_string faults q).
Proof.
  intros Hq s Hs. pose proof (execute_keeps q s Hq Hs) as Hk. unfold run. by destruct (execute faults q s) as [[]].
Qed.
Lemma keeps_select {A} (f : Db -> A) : sql_keeps (select f).
Proof. intros d a d' Hd [= <- <-]. done. Qed.
Lemma keeps_change f : (forall d, P d -> P (f d)) -> sql_keeps (change f).
Proof. intros Hf d a d' Hd [= <- <-]. by apply Hf. Qed.
Lemma keeps_transaction {A} (m : M A) : keeps m -> keeps (transaction to_string faults m).
Proof.
  intros Hm s Hs. unfold transaction. pose proof (keeps_run _ (keeps_select (fun _ => tt)) s Hs) as Hb.
  destruct (run to_string faults (select (fun _ => tt)) s) as [[[]|e] s']; [|done]. specialize (Hm s' Hb).
  destruct (m s') as [[a|e] s'']; [|done]. by destruct (faults (sent s'')) as [[]|].
Qed.
Lemma keeps_retrying {A} (q : Sql A) : sql_keeps q -> keeps (run_retrying to_string faults q).
Proof.
  intros Hq s Hs. unfold run_retrying, retrying. generalize (seqZ 1 MAX_ATTEMPTS) as l, 250 as delay. intros l. revert s Hs.
  induction l as [|attempt l IH]; intros s Hs delay; simpl; [done|]. pose proof (execute_keeps q s Hq Hs) as Hk.
  destruct (execute faults q s) as [[a|e] s']; [done|]. destruct (_ && _); [by apply IH|done].
Qed.
End Keeps.

(** ** The constraints *)

Record constraints d : Prop := {
  k_node_id : forall id r, nodes d !! id = Some r -> n_id (node r) = id;
  k_kind : forall id r, nodes d !! id = Some r -> kind_ok (node r) = true;
  k_parent : forall id r p, nodes d !! id = Some r -> n_parent_id (node r) = Some p -> is_Some (nodes d !! p);
  k_name : forall id1 id2 r1 r2 p, nodes d !! id1 = Some r1 -> nodes d !! id2 = Some r2 ->
    n_deleted_at r1 = None -> n_deleted_at r2 = None -> n_parent_id (node r1) = Some p -> n_parent_id (node r2) = Some p ->
    n_name (node r1) = n_name (node r2) -> id1 = id2;
  k_version_id : forall id v, file_versions d !! id = Some v -> v_id v = id;
  k_version_node : forall id v, file_versions d !! id = Some v -> is_Some (nodes d !! v_node_id v);
  k_version_base : forall id v b, file_versions d !! id = Some v -> v_base_version_id v = Some b -> is_Some (file_versions d !! b);
  k_chunk_id : forall v i c, file_chunks d !! (v, i) = Some c -> c_version_id c = v /\ c_chunk_index c = i;
  k_chunk_version : forall v i c, file_chunks d !! (v, i) = Some c -> is_Some (file_versions d !! v);
  k_token : forall id1 id2 r1 r2 t, sessions d !! id1 = Some r1 -> sessions d !! id2 = Some r2 ->
    se_token_hash r1 = Some t -> se_token_hash r2 = Some t -> id1 = id2;
}.

Lemma name_taken_false d n id r p :
  name_taken d n = false -> n_parent_id n = Some p -> nodes d !! id = Some r -> n_deleted_at r = None ->
  n_parent_id (node r) = Some p -> n_name (node r) = n_name n -> id = n_id n.
Proof.
  unfold name_taken. intros Hno Hp Hr Hlive Hrp Hrn. rewrite Hp in Hno. destruct (decide (id = n_id n)) as [|Hne]; [done|].
  apply not_true_iff_false in Hno. destruct Hno. apply existsb_exists. exists (id, r).
  split; [by apply list_elem_of_In, elem_of_map_to_list|]. unfold takes, is_live. simpl.
  by rewrite (bool_decide_false (id = n_id n)), !bool_decide_true by done.
Qed.
Lemma name_taken_true d n : name_taken d n = true -> exists p id r, n_parent_id n = Some p /\ nodes d !! id = Some r /\ id <> n_id n /\
  n_deleted_at r = None /\ n_parent_id (node r) = Some p /\ n_name (node r) = n_name n.
Proof.
  unfold name_taken. destruct (n_parent_id n) as [p|]; [|done]. intros ((id & r) & Hin & Hr)%existsb_exists.
  apply list_elem_of_In, elem_of_map_to_list in Hin. unfold takes, is_live in Hr.
  rewrite !andb_true_iff, negb_true_iff, bool_decide_eq_false, !bool_decide_eq_true in Hr. exists p, id, r. naive_solver.
Qed.

(** A row of the nodes is added or replaced, with its parent there and its name free. *)
Lemma put_node_ok d n del :
  constraints d -> kind_ok n = true -> (forall p, n_parent_id n = Some p -> is_Some (nodes d !! p) \/ p = n_id n) ->
  (del = None -> name_taken d n = false) ->
  constraints (with_nodes d (<[n_id n := {| node := n; n_deleted_at := del |}]> (nodes d))).
Proof.
  intros [Hid Hk Hp Hn Hvi Hvn Hvb Hci Hcv Ht] Hkn Hpn Hfree.
  assert (Hsome : forall k, is_Some (nodes d !! k) -> is_Some (<[n_id n := {| node := n; n_deleted_at := del |}]> (nodes d) !! k)).
  { intros k Hkk. rewrite lookup_insert. by case_decide. }
  split; simpl; try done.
  - intros id r. rewrite lookup_insert. case_decide as Hd; [intros [= <-]; done|]. apply Hid.
  - intros id r. rewrite lookup_insert. case_decide as Hd; [intros [= <-]; done|]. apply Hk.
  - intros id r p. rewrite lookup_insert. case_decide as Hd; [intros [= <-]|intros Hr Hrp; apply Hsome; by eapply Hp]. simpl.
    intros Hp'. destruct (Hpn p Hp') as [?| ->]; [by apply Hsome|]. rewrite lookup_insert_eq. by eexists.
  - intros id1 id2 r1 r2 p. rewrite !lookup_insert. repeat case_decide; subst; try done.
    + intros [= <-] Hr2 Hd1 Hd2 Hp1 Hp2 Hnm. simpl in *. symmetry. by apply (name_taken_false d n id2 r2 p (Hfree Hd1)).
    + intros Hr1 [= <-] Hd1 Hd2 Hp1 Hp2 Hnm. simpl in *. by apply (name_taken_false d n id1 r1 p (Hfree Hd2)).
    + by apply Hn.
  - intros id v Hv. by eapply Hsome, Hvn.
Qed.

Lemma insert_node_keeps n : sql_keeps constraints (insert_node n).
Proof.
  intros d a d' Hd. unfold insert_node. destruct (kind_ok n) eqn:Hk; [|done]. simpl. destruct (_ || _) eqn:Hu; [done|].
  apply orb_false_iff in Hu as [_ Hfree]. destruct (parent_exists d n || _) eqn:Hp; [|done]. simpl. intros [= <- <-].
  apply put_node_ok; try done. intros p Hpp. unfold parent_exists in Hp. rewrite Hpp in Hp.
  apply orb_true_iff in Hp as [Hp|Hp]; apply bool_decide_eq_true in Hp; [by left|right; congruence].
Qed.
Lemma update_node_keeps id f :
  (forall n, n_id (f n) = n_id n /\ n_kind (f n) = n_kind n /\ n_link_target (f n) = n_link_target n) ->
  sql_keeps constraints (update_node id f).
Proof.
  intros Hf d a d' Hd. unfold update_node. destruct (nodes d !! id) as [r|] eqn:Hr; [|by intros [= <- <-]].
  destruct (is_live r); [|by intros [= <- <-]]. simpl. destruct (name_taken d (f (node r))) eqn:Hfree; [done|].
  destruct (parent_exists d (f (node r))) eqn:Hp; [|done]. intros [= <- <-]. destruct (Hf (node r)) as (Hi & Hk & Hl).
  rewrite <-(k_node_id _ Hd id r Hr), <-Hi. apply put_node_ok; try done.
  - unfold kind_ok. rewrite Hk, Hl. by apply (k_kind _ Hd id).
  - intros p Hpp. left. unfold parent_exists in Hp. rewrite Hpp in Hp. by apply bool_decide_eq_true in Hp.
Qed.
(** A row keeps its entry and its links, or leaves its directory. *)
Lemma same_entry_ok d id r r' :
  constraints d -> nodes d !! id = Some r -> n_id (node r') = n_id (node r) -> n_parent_id (node r') = n_parent_id (node r) ->
  n_name (node r') = n_name (node r) -> kind_ok (node r') = kind_ok (node r) -> (n_deleted_at r' = None -> n_deleted_at r = None) ->
  constraints (with_nodes d (<[id := r']> (nodes d))).
Proof.
  intros Hd Hr Hi Hp Hn Hk Hl. pose proof (k_node_id _ Hd id r Hr) as Hid. destruct r' as [n' del]. simpl in *.
  rewrite <-Hid, <-Hi. apply put_node_ok; [done|rewrite Hk; by apply (k_kind _ Hd id)| |].
  - intros p Hpp. left. apply (k_parent _ Hd id r p Hr). congruence.
  - intros Hdel. destruct (name_taken d n') eqn:Ht; [|done]. apply name_taken_true in Ht as (p & id2 & r2 & Hp1 & Hr2 & Hne & Hd2 & Hp2 & Hn2).
    destruct Hne. rewrite Hi, Hid. apply (k_name _ Hd id2 id r2 r p); try done; [by apply Hl|congruence|congruence].
Qed.
Lemma alter_node_ok d id f :
  constraints d -> (forall r, n_id (node (f r)) = n_id (node r) /\ n_parent_id (node (f r)) = n_parent_id (node r) /\
    n_name (node (f r)) = n_name (node r) /\ kind_ok (node (f r)) = kind_ok (node r) /\ (n_deleted_at (f r) = None -> n_deleted_at r = None)) ->
  constraints (with_nodes d (alter f id (nodes d))).
Proof.
  intros Hd Hf. destruct (nodes d !! id) as [r|] eqn:Hr.
  - rewrite (alter_at _ _ _ _ Hr). destruct (Hf r) as (? & ? & ? & ? & ?). by apply (same_entry_ok d id r).
  - rewrite (alter_none _ _ _ Hr). by destruct d.
Qed.

(** The rows of the versions change, and none goes. *)
Lemma put_version_ok d id v :
  constraints d -> v_id v = id -> is_Some (nodes d !! v_node_id v) ->
  (forall b, v_base_version_id v = Some b -> is_Some (file_versions d !! b) \/ b = id) ->
  constraints (with_versions d (<[id := v]> (file_versions d))).
Proof.
  intros [Hid Hk Hp Hn Hvi Hvn Hvb Hci Hcv Ht] Hv Hnode Hbase.
  assert (Hsome : forall k, is_Some (file_versions d !! k) -> is_Some (<[id := v]> (file_versions d) !! k)).
  { intros k Hkk. rewrite lookup_insert. by case_decide. }
  split; simpl; try done.
  - intros k w. rewrite lookup_insert. case_decide as E; [intros [= <-]; by subst|]. apply Hvi.
  - intros k w. rewrite lookup_insert. case_decide as E; [by intros [= <-]|]. apply Hvn.
  - intros k w b. rewrite lookup_insert. case_decide as E; [intros [= <-]|intros Hw Hb; apply Hsome; by eapply Hvb].
    intros Hb. destruct (Hbase b Hb) as [?| ->]; [by apply Hsome|]. rewrite lookup_insert_eq. by eexists.
  - intros k i c Hc. by eapply Hsome, Hcv.
Qed.
Lemma alter_version_ok d id f :
  constraints d -> (forall v, v_id (f v) = v_id v /\ v_node_id (f v) = v_node_id v /\ v_base_version_id (f v) = v_base_version_id v) ->
  constraints (with_versions d (alter f id (file_versions d))).
Proof.
  intros Hd Hf. destruct (file_versions d !! id) as [v|] eqn:Hv.
  - rewrite (alter_at _ _ _ _ Hv). destruct (Hf v) as (Hi & Hn & Hb). apply put_version_ok; [done|by rewrite Hi; apply (k_version_id _ Hd)| |].
    + rewrite Hn. by apply (k_version_node _ Hd id).
    + intros b. rewrite Hb. intros Hbb. left. by apply (k_version_base _ Hd id v).
  - rewrite (alter_none _ _ _ Hv). by destruct d.
Qed.


(** ** Every method keeps them *)

Section Preserve.
Context (faults : nat -> option Fault).
Abbreviation ok := (keeps constraints).

Lemma mark_deleted_keeps now id : sql_keeps constraints (mark_deleted now id).
Proof.
  intros d a d' Hd. unfold mark_deleted. destruct (nodes d !! id) as [r|] eqn:Hr; [|by intros [= <- <-]].
  destruct (is_live r); [|by intros [= <- <-]]. intros [= <- <-]. by apply (same_entry_ok d id r).
Qed.
Lemma mark_any_keeps now id : sql_keeps constraints (mark_any now id).
Proof. apply keeps_change. intros d Hd. apply alter_node_ok; [done|]. intros r. by split_and!. Qed.
Lemma place_keeps now id parent name : ok (place to_string faults now id parent name).
Proof.
  apply keeps_bind; [apply keeps_run, update_node_keeps; by intros n|]. intros [n|]; [apply keeps_ret|apply keeps_fail].
Qed.
Lemma rename_keeps now id parent name : ok (rename_node to_string faults now id parent name).
Proof.
  apply keeps_transaction, keeps_bind; [apply keeps_run, keeps_select|]. intros existing. apply keeps_bind; [|intros _; apply place_keeps].
  destruct existing as [v|]; [|apply keeps_ret]. case_bool_decide; [apply keeps_ret|].
  apply keeps_bind; [|intros _; apply keeps_run, mark_any_keeps]. case_bool_decide; [|apply keeps_ret].
  apply keeps_bind; [apply keeps_run, keeps_select|]. intros [c|]; [apply keeps_fail|apply keeps_ret].
Qed.
Lemma create_staging_keeps vid now nid base cs : ok (create_staging_version to_string faults vid now nid base cs).
Proof.
  apply keeps_transaction, keeps_bind.
  { apply keeps_run. intros d a d' Hd. unfold bump_generation. destruct (live_node d nid); [|by intros [= <- <-]].
    destruct (_ <? _); [|done]. by apply update_node_keeps. }
  intros bumped. apply keeps_bind; [apply keeps_or_not_found|]. intros _. apply keeps_run. intros d a d' Hd.
  unfold insert_version. case_bool_decide; [done|]. destruct (_ || _) eqn:Hfk; [done|]. intros [= <- <-].
  apply orb_false_iff in Hfk as [Hn Hb]. apply negb_false_iff, bool_decide_eq_true in Hn. apply put_version_ok; try done.
  simpl in *. intros b ->. apply negb_false_iff, orb_true_iff in Hb as [Hb|Hb]; apply bool_decide_eq_true in Hb; [by left|by right].
Qed.
Lemma reconcile_keeps : ok (reconcile_node_sizes to_string faults).
Proof.
  apply keeps_run. intros d a d' [Hid Hk Hp Hn Hvi Hvn Hvb Hci Hcv Ht] [= <- <-].
  set (g := fun r => if needs_reconcile d (node r) then _ else r).
  assert (Hg : forall r, n_id (node (g r)) = n_id (node r) /\ n_parent_id (node (g r)) = n_parent_id (node r) /\
    n_name (node (g r)) = n_name (node r) /\ kind_ok (node (g r)) = kind_ok (node r) /\ n_deleted_at (g r) = n_deleted_at r).
  { intros r. unfold g. by destruct (needs_reconcile d (node r)). }
  split; simpl; try done.
  - intros id r. rewrite lookup_fmap. destruct (nodes d !! id) as [r0|] eqn:Hr; [|done]. intros [= <-]. destruct (Hg r0) as (-> & _). by apply Hid.
  - intros id r. rewrite lookup_fmap. destruct (nodes d !! id) as [r0|] eqn:Hr; [|done]. intros [= <-]. destruct (Hg r0) as (_ & _ & _ & -> & _). by apply (Hk id).
  - intros id r p. rewrite !lookup_fmap. destruct (nodes d !! id) as [r0|] eqn:Hr; [|done]. intros [= <-]. destruct (Hg r0) as (_ & -> & _).
    intros Hpp. destruct (Hp id r0 p Hr Hpp) as [x ->]. by eexists.
  - intros id1 id2 r1 r2 p. rewrite !lookup_fmap. destruct (nodes d !! id1) as [a1|] eqn:H1; [|done]. destruct (nodes d !! id2) as [a2|] eqn:H2; [|done].
    intros [= <-] [= <-]. destruct (Hg a1) as (_ & -> & -> & _ & ->). destruct (Hg a2) as (_ & -> & -> & _ & ->). by apply Hn.
  - intros id v Hv. rewrite lookup_fmap. destruct (Hvn id v Hv) as [x ->]. by eexists.
Qed.
Lemma put_chunks_ok d cs :
  constraints d -> (forall v i c, cs !! (v, i) = Some c -> c_version_id c = v /\ c_chunk_index c = i /\ is_Some (file_versions d !! v)) ->
  constraints (with_chunks d cs).
Proof. intros [] Hcs. split; simpl; try done; intros v i c Hc; by destruct (Hcs v i c Hc) as (? & ? & ?). Qed.
Lemma attach_keeps v i off size hash o : ok (attach_chunk to_string faults v i off size hash o).
Proof.
  apply keeps_run. intros d a d' Hd. case_bool_decide as Hv; [|done]. intros [= <- <-]. apply put_chunks_ok; [done|].
  intros w j c. rewrite lookup_insert. case_decide as E; [injection E as <- <-; by intros [= <-]|].
  intros Hc. destruct (k_chunk_id _ Hd w j c Hc). split_and!; try done. by apply (k_chunk_version _ Hd w j c).
Qed.
Lemma carried_spec d from_v to_v first last v i c :
  carried d from_v to_v first last !! (v, i) = Some c -> v = to_v /\ c_version_id c = v /\ c_chunk_index c = i.
Proof.
  unfold carried. intros Hc%elem_of_list_to_map_2. apply list_elem_of_fmap in Hc as (c0 & [= -> -> ->] & _). done.
Qed.
Lemma copy_keeps from_v to_v first last : ok (copy_chunk_range to_string faults from_v to_v first last).
Proof.
  unfold copy_chunk_range. destruct (last <? first); [apply keeps_ret|]. apply keeps_run. intros d a d' Hd. cbv zeta.
  destruct (_ && _) eqn:Hfk; [done|]. intros [= <- <-]. apply put_chunks_ok; [done|]. intros v i c Hc.
  apply lookup_union_Some_raw in Hc as [Hc|[Hno Hc]].
  { destruct (k_chunk_id _ Hd v i c Hc). split_and!; try done. by apply (k_chunk_version _ Hd v i c). }
  pose proof (carried_spec _ _ _ _ _ _ _ _ Hc) as (-> & ? & ?). split_and!; try done.
  apply andb_false_iff in Hfk as [Hfk|Hfk]; [|by apply negb_false_iff, bool_decide_eq_true in Hfk].
  apply bool_decide_eq_false in Hfk. destruct Hfk. intros Hempty.
  assert (Hin : filter (fun p : Uuid * Z * FileChunkRecord => file_chunks d !! p.1 = None) (carried d from_v to_v first last) !! (to_v, i) = Some c)
    by (by apply map_lookup_filter_Some). by rewrite Hempty, lookup_empty in Hin.
Qed.
Lemma commit_keeps now guard size hash : ok (commit_version to_string faults now guard size hash).
Proof.
  apply keeps_transaction, keeps_bind; [apply keeps_run, keeps_select|]. intros found. apply keeps_bind; [apply keeps_or_not_found|].
  intros n. destruct (_ || _); [apply keeps_fail|]. apply keeps_bind.
  { apply keeps_run. intros d a d' Hd. unfold commit_row. destruct (file_versions d !! g_version_id guard) as [v|] eqn:Hv; [|by intros [= <- <-]].
    destruct (is_staging v); [|by intros [= <- <-]]. intros [= <- <-]. apply put_version_ok; simpl; [done|by apply (k_version_id _ Hd)| |].
    - by apply (k_version_node _ Hd _ _ Hv).
    - intros b Hb. left. by apply (k_version_base _ Hd _ _ _ Hv). }
  intros committed. apply keeps_bind; [apply keeps_or_not_found|]. intros v. apply keeps_bind.
  { destruct (n_current_version_id n) as [old|]; [|apply keeps_ret]. apply keeps_run, keeps_change. intros d Hd. apply alter_version_ok; [done|].
    intros w. unfold supersede. by case_bool_decide. }
  intros _. apply keeps_bind; [|intros _; apply keeps_ret]. apply keeps_run, keeps_change. intros d Hd.
  apply alter_node_ok; [done|]. intros r. by split_and!.
Qed.
Lemma objects_ok d os : constraints d -> constraints (with_objects d os).
Proof. by intros []. Qed.
Lemma session_rows_ok d ss :
  constraints d -> (forall id1 id2 r1 r2 t, ss !! id1 = Some r1 -> ss !! id2 = Some r2 ->
    se_token_hash r1 = Some t -> se_token_hash r2 = Some t -> id1 = id2) -> constraints (with_sessions d ss).
Proof. by intros [] ?. Qed.
Lemma create_session_keeps now id hash label expires : ok (create_session to_string faults now id hash label expires).
Proof.
  apply keeps_run. intros d a d' Hd. cbv zeta. destruct (_ || _) eqn:Hu; [done|]. intros [= <- <-]. apply session_rows_ok; [done|].
  apply orb_false_iff in Hu as [_ Hu].
  assert (Hfree : forall k r, sessions d !! k = Some r -> se_token_hash r <> Some hash).
  { intros k r Hr Heq. apply not_true_iff_false in Hu. apply Hu, existsb_exists. exists (k, r).
    split; [by apply list_elem_of_In, elem_of_map_to_list|]. by rewrite bool_decide_true. }
  intros id1 id2 r1 r2 t. rewrite !lookup_insert. repeat case_decide; subst; try done.
  - intros [= <-] Hr2 [= <-] Ht2. by destruct (Hfree id2 r2).
  - intros Hr1 [= <-] Ht1 [= <-]. by destruct (Hfree id1 r1).
  - by apply (k_token _ Hd).
Qed.
Lemma revoke_keeps now id : ok (revoke_session to_string faults now id).
Proof.
  apply keeps_run. intros d a d' Hd. destruct (sessions d !! id) as [r|] eqn:Hr; [|by intros [= <- <-]].
  case_bool_decide; [|by intros [= <- <-]]. intros [= <- <-]. apply session_rows_ok; [done|]. intros id1 id2 r1 r2 t.
  rewrite !lookup_insert. repeat case_decide; subst; try done.
  - intros [= <-] Hr2 Ht1 Ht2. by apply (k_token _ Hd id1 id2 r r2 t).
  - intros Hr1 [= <-] Ht1 Ht2. by apply (k_token _ Hd id1 id2 r1 r t).
  - by apply (k_token _ Hd).
Qed.
Lemma purge_sessions_keeps older : ok (purge_expired_sessions to_string faults older).
Proof.
  apply keeps_run. intros d a d' Hd [= <- <-]. apply session_rows_ok; [done|]. intros id1 id2 r1 r2 t.
  rewrite !map_lookup_filter_Some. intros [? _] [? _]. by apply (k_token _ Hd).
Qed.

Lemma forget_keeps o : ok (forget_object to_string faults o).
Proof.
  apply keeps_transaction, keeps_bind.
  { apply keeps_run. intros d a d' Hd [= <- <-]. apply put_chunks_ok; [done|]. intros v i c [Hc _]%map_lookup_filter_Some.
    destruct (k_chunk_id _ Hd v i c Hc). split_and!; try done. by apply (k_chunk_version _ Hd v i c). }
  intros removed. apply keeps_bind; [|intros _; apply keeps_ret]. apply keeps_run, keeps_change. intros d Hd. by apply objects_ok.
Qed.

(** What is doomed has no chunk. *)
Lemma doomed_no_chunk older d v i c : v ∈ doomed older d -> file_chunks d !! (v, i) = Some c -> False.
Proof.
  unfold doomed. rewrite elem_of_list_to_set, list_elem_of_fmap. intros (w & -> & [Hw _]%list_elem_of_filter) Hc.
  apply andb_true_iff in Hw as [_ Hw]. apply negb_true_iff, not_true_iff_false in Hw. apply Hw, existsb_exists.
  exists ((v_id w, i), c). split; [by apply list_elem_of_In, elem_of_hm_iter|]. by rewrite bool_decide_true.
Qed.
Lemma unlink_same gone v : v_id (unlink gone v) = v_id v /\ v_node_id (unlink gone v) = v_node_id v /\
  forall b, v_base_version_id (unlink gone v) = Some b -> v_base_version_id v = Some b /\ b ∉ gone.
Proof.
  unfold unlink. destruct (v_base_version_id v) as [b|] eqn:Hb; [|by rewrite Hb; split_and!].
  case_bool_decide; [by split_and!|]. split_and!; try done. intros b'. rewrite Hb. by intros [= <-].
Qed.
Lemma purge_versions_keeps older : ok (purge_empty_dead_versions to_string faults older).
Proof.
  apply keeps_run. intros d a d' [Hid Hk Hp Hn Hvi Hvn Hvb Hci Hcv Ht] [= <- <-]. set (gone := doomed older d).
  assert (Hlook : forall k w, (unlink gone <$> filter (fun p => p.1 ∉ gone) (file_versions d)) !! k = Some w ->
    exists v, file_versions d !! k = Some v /\ (k ∉ gone) /\ w = unlink gone v).
  { intros k w. rewrite lookup_fmap, fmap_Some. intros (v & Hv & ->). apply map_lookup_filter_Some in Hv as [Hv Hg]. by exists v. }
  assert (Hkeep : forall k, is_Some (file_versions d !! k) -> k ∉ gone ->
    is_Some ((unlink gone <$> filter (fun p => p.1 ∉ gone) (file_versions d)) !! k)).
  { intros k [v Hv] Hg. rewrite lookup_fmap. exists (unlink gone v). apply fmap_Some. exists v. split; [|done]. by apply map_lookup_filter_Some. }
  split; simpl; try done.
  - intros k w Hw. destruct (Hlook k w Hw) as (v & Hv & _ & ->). destruct (unlink_same gone v) as (-> & _). by apply Hvi.
  - intros k w Hw. destruct (Hlook k w Hw) as (v & Hv & _ & ->). destruct (unlink_same gone v) as (_ & -> & _). by apply (Hvn k).
  - intros k w b Hw Hb. destruct (Hlook k w Hw) as (v & Hv & _ & ->). destruct (unlink_same gone v) as (_ & _ & Hu).
    destruct (Hu b Hb) as [Hb' Hg]. apply Hkeep; [by eapply Hvb|done].
  - intros v i c Hc. apply Hkeep; [by eapply Hcv|]. intros Hg. by eapply doomed_no_chunk.
Qed.
Lemma purge_nodes_keeps older : ok (purge_deleted_nodes to_string faults older).
Proof.
  apply keeps_run. intros d a d' [Hid Hk Hp Hn Hvi Hvn Hvb Hci Hcv Ht]. cbv zeta.
  set (gone := fun p : Uuid * NodeRow => _ && _ && _). intros [= <- <-].
  assert (Hkeep : forall k, is_Some (nodes d !! k) -> (forall r, nodes d !! k = Some r -> gone (k, r) = false) ->
    is_Some (filter (fun p => gone p = false) (nodes d) !! k)).
  { intros k [r Hr] Hg. exists r. apply map_lookup_filter_Some. split; [done|]. by apply Hg. }
  assert (Hchild : forall k r id r', nodes d !! id = Some r' -> n_parent_id (node r') = Some k -> gone (k, r) = false).
  { intros k r id r' Hr' Hpp. unfold gone. apply andb_false_intro2, negb_false_iff, existsb_exists. exists r'.
    split; [apply list_elem_of_In, elem_of_hm_values; by exists id|by rewrite bool_decide_true]. }
  split; simpl; try done.
  - intros id r [Hr _]%map_lookup_filter_Some. by apply Hid.
  - intros id r [Hr _]%map_lookup_filter_Some. by apply (Hk id).
  - intros id r p [Hr _]%map_lookup_filter_Some Hpp. apply Hkeep; [by eapply Hp|]. intros r' _. by eapply Hchild.
  - intros id1 id2 r1 r2 p [H1 _]%map_lookup_filter_Some [H2 _]%map_lookup_filter_Some. by apply Hn.
  - intros id v Hv. apply Hkeep; [by eapply Hvn|]. intros r _. unfold gone. apply andb_false_intro1, andb_false_intro2, negb_false_iff, existsb_exists.
    exists v. split; [apply list_elem_of_In, elem_of_hm_values; by exists id|by rewrite bool_decide_true].
Qed.
Lemma ensure_root_keeps id now : ok (ensure_root to_string faults id now).
Proof.
  apply keeps_bind; [apply keeps_run, keeps_select|]. intros [n|]; [apply keeps_ret|].
  apply keeps_bind; [|intros _; apply keeps_bind; [apply keeps_run, keeps_select|intros found; apply keeps_or_not_found]].
  apply keeps_run. intros d a d' Hd. unfold insert_or_nothing. destruct (insert_node _ d) as [[n d1]|e] eqn:Hi.
  - intros [= <- <-]. by eapply insert_node_keeps.
  - destruct (_ || _); [|done]. by intros [= <- <-].
Qed.

Lemma void_keeps {A} (m : M A) : ok m -> ok (void m).
Proof. intros Hm. apply keeps_bind; [done|]. intros a. apply keeps_ret. Qed.
Lemma exec_keeps op : ok (exec faults op).
Proof.
  destruct op; simpl; try apply void_keeps; auto using rename_keeps, create_staging_keeps, reconcile_keeps, attach_keeps, copy_keeps,
    commit_keeps, create_session_keeps, revoke_keeps, purge_sessions_keeps, forget_keeps, purge_versions_keeps, purge_nodes_keeps,
    ensure_root_keeps, place_keeps.
  - apply keeps_run, insert_node_keeps.
  - apply keeps_run, insert_node_keeps.
  - apply keeps_bind; [apply keeps_run, mark_deleted_keeps|]. intros []; [apply keeps_ret|apply keeps_fail].
  - apply keeps_bind; [apply keeps_run, update_node_keeps; by intros n|]. intros a. apply keeps_or_not_found.
  - apply keeps_run, keeps_change. intros d Hd. apply alter_version_ok; [done|]. intros v. by destruct (is_staging v).
  - apply keeps_run, keeps_change. intros d Hd. by apply objects_ok.
  - apply keeps_run, keeps_change. intros d Hd. by apply objects_ok.
  - apply keeps_run, keeps_change. intros d Hd. by apply objects_ok.
Qed.

End Preserve.

Lemma history_keeps faults ops s : constraints (db s) -> constraints (db (foldl (fun s op => (exec faults op s).2) s ops)).
Proof. revert s. induction ops as [|op ops IH]; intros s Hs; simpl; [done|]. by apply IH, exec_keeps. Qed.
Lemma empty_constraints : constraints {| nodes := ∅; file_versions := ∅; file_chunks := ∅; stored_objects := ∅; sessions := ∅ |}.
Proof. split; simpl; intros *; rewrite lookup_empty; done. Qed.

(** The schema holds. Whatever methods run, one after another, and whichever of their
    statements fail or lose their answer, the constraints of the schema hold: rows under
    their keys, every parent, node, base version and version of a chunk there, no two
    live entries of a directory with one name, links with a target and nothing else with
    one, no two sessions with one token. *)
Theorem schema_always_holds faults ops s :
  constraints (db s) -> constraints (db (foldl (fun s op => (exec faults op s).2) s ops)).
Proof. apply history_keeps. Qed.

(** ** All or nothing *)

Definition no_faults : nat -> option Fault := fun _ => None.

Section Whole.
Context (faults : nat -> option Fault).

(** What succeeds is what happens without faults. *)
Definition agrees {A} (m m0 : M A) : Prop := forall s s0, db s = db s0 ->
  match m s with (Ok a, s') => exists s0', m0 s0 = (Ok a, s0') /\ db s0' = db s' | (Err _, _) => True end.
Lemma agrees_ret {A} (a : A) : agrees (mret a) (mret a).
Proof. intros s s0 Hs. by exists s0. Qed.
Lemma agrees_fail {A} e (m0 : M A) : agrees (fail e) m0.
Proof. by intros s s0 Hs. Qed.
Lemma agrees_or_not_found {A} (o : option A) : agrees (or_not_found o) (or_not_found o).
Proof. destruct o; [apply agrees_ret|apply agrees_fail]. Qed.
Lemma agrees_bind {A B} (m m0 : M A) (f f0 : A -> M B) : agrees m m0 -> (forall a, agrees (f a) (f0 a)) -> agrees (m ≫= f) (m0 ≫= f0).
Proof.
  intros Hm Hf s s0 Hs. specialize (Hm s s0 Hs). unfold mbind, pg_bind. destruct (m s) as [[a|e] s']; [|done].
  destruct Hm as (s0' & -> & Hd). by apply Hf.
Qed.
Lemma agrees_run {A} (q : Sql A) : agrees (run to_string faults q) (run to_string no_faults q).
Proof.
  intros s s0 Hs. unfold run, execute, no_faults. rewrite Hs. destruct (faults (sent s)) as [[e|e]|]; [done|done|].
  destruct (q (db s0)) as [[a d']|e]; simpl; [|done]. by eexists.
Qed.
Lemma agrees_transaction {A} (m m0 : M A) : agrees m m0 -> agrees (transaction to_string faults m) (transaction to_string no_faults m0).
Proof.
  intros Hm s s0 Hs. unfold transaction. pose proof (agrees_run (select (fun _ => tt)) s s0 Hs) as Hb.
  destruct (run to_string faults (select (fun _ => tt)) s) as [[[]|e] s1]; [|done]. destruct Hb as (s01 & -> & Hd).
  specialize (Hm s1 s01 (eq_sym Hd)). destruct (m s1) as [[a|e] s2]; [|done]. destruct Hm as (s02 & -> & Hd2).
  destruct (faults (sent s2)) as [[]|]; [done|done|]. by eexists.
Qed.

(** The effect is the one there is without faults, or none. *)
Definition whole {A} (m m0 : M A) : Prop := forall s s0, db s = db s0 -> db (m s).2 = db s \/ db (m s).2 = db (m0 s0).2.
(** Nothing is written. *)
Definition reads {A} (m : M A) : Prop := forall s, db (m s).2 = db s.

Lemma reads_ret {A} (a : A) : reads (mret a).
Proof. done. Qed.
Lemma reads_fail {A} e : reads (fail (A := A) e).
Proof. done. Qed.
Lemma reads_or_not_found {A} (o : option A) : reads (or_not_found o).
Proof. by destruct o. Qed.
Lemma reads_select {A} fl (f : Db -> A) : reads (run to_string fl (select f)).
Proof. intros s. unfold run, execute, select. simpl. by destruct (fl (sent s)) as [[]|]. Qed.
Lemma reads_bind {A B} (m : M A) (f : A -> M B) : reads m -> (forall a, reads (f a)) -> reads (m ≫= f).
Proof. intros Hm Hf s. specialize (Hm s). unfold mbind, pg_bind. destruct (m s) as [[a|e] s']; simpl in *; [by rewrite Hf|done]. Qed.
Lemma reads_whole {A} (m m0 : M A) : reads m -> whole m m0.
Proof. intros Hm s s0 Hs. left. apply Hm. Qed.

Lemma whole_run {A} (q : Sql A) : whole (run to_string faults q) (run to_string no_faults q).
Proof.
  intros s s0 Hs. unfold run, execute, no_faults. rewrite Hs.
  destruct (faults (sent s)) as [[e|e]|]; simpl; [by left| |]; destruct (q (db s0)) as [[a d']|e']; simpl; auto.
Qed.
(** Work after the write, and before it, that writes nothing. *)
Lemma whole_then {A B} (m m0 : M A) (f f0 : A -> M B) :
  whole m m0 -> (forall a, reads (f a)) -> (forall a, reads (f0 a)) -> whole (m ≫= f) (m0 ≫= f0).
Proof.
  intros Hm Hf Hf0 s s0 Hs. specialize (Hm s s0 Hs).
  assert (E : forall (m : M A) (f : A -> M B) s, (forall a, reads (f a)) -> db ((m ≫= f) s).2 = db (m s).2).
  { intros m1 f1 s1 Hf1. unfold mbind, pg_bind. destruct (m1 s1) as [[a|e] s2]; [|done]. by rewrite Hf1. }
  by rewrite !E.
Qed.
Lemma whole_after {A B} (m m0 : M A) (f f0 : A -> M B) :
  agrees m m0 -> reads m -> (forall a, whole (f a) (f0 a)) -> whole (m ≫= f) (m0 ≫= f0).
Proof.
  intros Ha Hr Hf s s0 Hs. specialize (Ha s s0 Hs). specialize (Hr s). unfold mbind, pg_bind. destruct (m s) as [[a|e] s']; simpl in *; [|by left].
  destruct Ha as (s0' & -> & Hd). rewrite <-Hr. apply Hf. congruence.
Qed.
Lemma whole_transaction {A} (m m0 : M A) : agrees m m0 -> whole (transaction to_string faults m) (transaction to_string no_faults m0).
Proof.
  intros Hm s s0 Hs. unfold transaction. pose proof (agrees_run (select (fun _ => tt)) s s0 Hs) as Hb.
  pose proof (reads_select faults (fun _ => tt) s) as Hr.
  destruct (run to_string faults (select (fun _ => tt)) s) as [[[]|e] s1]; [|by left]. destruct Hb as (s01 & -> & Hd).
  specialize (Hm s1 s01 (eq_sym Hd)). destruct (m s1) as [[a|e] s2]; [|by left]. destruct Hm as (s02 & -> & Hd2).
  destruct (faults (sent s2)) as [[]|]; simpl; auto.
Qed.

Lemma agrees_void {A} (m m0 : M A) : agrees m m0 -> agrees (void m) (void m0).
Proof. intros Hm. apply agrees_bind; [done|]. intros a. apply agrees_ret. Qed.
Lemma whole_void {A} (m m0 : M A) : whole m m0 -> whole (void m) (void m0).
Proof. intros Hm. by apply whole_then. Qed.

Ltac agree := repeat first
  [ apply agrees_ret | apply agrees_fail | apply agrees_or_not_found | apply agrees_run
  | apply agrees_void | apply agrees_transaction | apply agrees_bind; [|intros ?] | case_bool_decide | case_match ].
Lemma exec_agrees op : agrees (exec faults op) (exec no_faults op).
Proof.
  destruct op; simpl; unfold create_node, create_symlink, delete_node, rename_node, publish_node, place, update_node_attr,
    create_staging_version, touch_staging_version, reconcile_node_sizes, attach_chunk, copy_chunk_range, commit_version,
    put_object_locator, touch_object_url, delete_object_locator, create_session, revoke_session, purge_expired_sessions,
    forget_object, purge_empty_dead_versions, purge_deleted_nodes, ensure_root; agree.
Qed.
Lemma exec_whole op : whole (exec faults op) (exec no_faults op).
Proof.
  destruct op; simpl; try apply whole_void; try apply whole_run.
  - apply whole_then; [apply whole_run| |]; intros []; done.
  - apply whole_transaction. unfold place. agree.
  - apply whole_then; [apply whole_run| |]; intros []; done.
  - apply whole_then; [apply whole_run| |]; intros a; apply reads_or_not_found.
  - apply whole_transaction. agree.
  - unfold copy_chunk_range. destruct (_ <? _); [by apply reads_whole|apply whole_run].
  - apply whole_transaction. agree.
  - apply whole_transaction. agree.
  - apply whole_after; [apply agrees_run|apply reads_select|]. intros [n|]; [by apply reads_whole|].
    apply whole_then; [apply whole_run| |]; intros _; (apply reads_bind; [apply reads_select|intros found; apply reads_or_not_found]).
Qed.

End Whole.

(** C8 All or nothing. A method that reports success has done exactly what it does when no
    statement fails; one that reports an error has done all of that or nothing, whether
    its statements were refused, their answers were lost or the commit was: a rename, a
    commit of a version or the start of one is never half done. *)
Theorem methods_are_atomic faults op s :
  match exec faults op s with
  | (Ok _, s') => exists s0, exec no_faults op s = (Ok tt, s0) /\ db s' = db s0
  | (Err _, s') => db s' = db s \/ db s' = db (exec no_faults op s).2
  end.
Proof.
  pose proof (exec_agrees faults op s s eq_refl) as Ha. pose proof (exec_whole faults op s s eq_refl) as Hw.
  destruct (exec faults op s) as [[[]|e] s']; [|done]. destruct Ha as (s0 & -> & Hd). by exists s0.
Qed.

End Facts.
End PgFacts.
