(* ===== verification/PostgresProps.v ===== *)
(** * PostgreSQL refines the in-memory repository

    The handlers are proved against [MemoryRepo]. What a method of the PostgreSQL
    repository reports as done is what the in-memory one does to the same nodes, versions,
    chunks and locators ([view]), up to the times of nodes, which the two set differently. *)
From Stdlib.Strings Require String.
From S2P Require Import Prelude Crypto ObjectStore Repository Retry Locks Server Data DataSpec Postgres PostgresFacts.

Module PgRefines.
Import Records PgRetry Pg PgFacts.

(** ** What succeeded *)

Section Inv.
Context `{HashOrder} (to_string : SqlxError -> string) (faults : nat -> option Fault).

Lemma run_inv {A} (q : Sql A) s a s' : run to_string faults q s = (Ok a, s') -> q (db s) = Ok (a, db s').
Proof.
  unfold run, execute. destruct (faults (sent s)) as [[]|]; simpl; [done|done|].
  destruct (q (db s)) as [[x d]|e]; simpl; [|done]. by intros [= <- <-].
Qed.
Lemma run_select_inv {A} (f : Db -> A) s a s' : run to_string faults (select f) s = (Ok a, s') -> a = f (db s) /\ db s' = db s.
Proof. by intros [= <- <-]%run_inv. Qed.
Lemma pg_bind_inv {A B} (m : M A) (f : A -> M B) s b s' :
  (m ≫= f) s = (Ok b, s') -> exists a s1, m s = (Ok a, s1) /\ f a s1 = (Ok b, s').
Proof. unfold mbind, pg_bind. destruct (m s) as [[a|e] s1]; [|done]. by exists a, s1. Qed.
Lemma or_not_found_inv {A} (o : option A) s a s' : or_not_found o s = (Ok a, s') -> o = Some a /\ s' = s.
Proof. destruct o; [by intros [= <- <-]|done]. Qed.
Lemma transaction_inv {A} (m : M A) s a s' :
  transaction to_string faults m s = (Ok a, s') -> exists s1 s2, db s1 = db s /\ m s1 = (Ok a, s2) /\ db s' = db s2.
Proof.
  unfold transaction. destruct (run to_string faults (select (fun _ => tt)) s) as [[[]|e] s1] eqn:Hb; [|done].
  apply run_select_inv in Hb as [_ Hb]. destruct (m s1) as [[x|e] s2] eqn:Hm; [|done].
  destruct (faults (sent s2)) as [[]|]; [done|done|]. intros [= <- <-]. by exists s1, s2.
Qed.
Lemma retrying_select_inv {A} (f : Db -> A) s a s' :
  run_retrying to_string faults (select f) s = (Ok a, s') -> a = f (db s) /\ db s' = db s.
Proof.
  unfold run_retrying, retrying. generalize (seqZ 1 MAX_ATTEMPTS) as l, 250 as delay. intros l. revert s.
  induction l as [|attempt l IH]; intros s delay; simpl; [done|].
  assert (He : forall r s1, execute faults (select f) s = (r, s1) -> db s1 = db s /\ forall x, r = Ok x -> x = f (db s)).
  { intros r s1. unfold execute, select. destruct (faults (sent s)) as [[]|]; intros [= <- <-]; by split; [|intros x [=]]. }
  destruct (execute faults (select f) s) as [[x|e] s1]; destruct (He _ _ eq_refl) as [Hd Hx].
  - intros [= <- <-]. by split; [apply Hx|].
  - destruct (_ && _); [|done]. intros Hr. apply IH in Hr as [-> ->]. by rewrite Hd.
Qed.

End Inv.
Ltac steps H := repeat match type of H with
  | (_ ≫= _) _ = (Ok _, _) => let a := fresh "a" in let s := fresh "s" in let Ha := fresh "Ha" in apply pg_bind_inv in H as (a & s & Ha & H)
  end.

(** ** The view *)

Section View.
Context `{HashOrder} (root : Uuid).
Implicit Types (d : Db) (r : MemoryRepo.Repo).

Definition live_of (r : NodeRow) : option NodeRecord := if is_live r then Some (node r) else None.
Definition object_of (id : Uuid) (r : ObjectRow) : option ObjectLocatorRecord :=
  if bool_decide (o_deleted_at r = None) then Some (locator_of id r) else None.
Definition view d : MemoryRepo.Repo :=
  {| MemoryRepo.nodes := omap live_of (nodes d); MemoryRepo.versions := file_versions d;
     MemoryRepo.chunks := map_imap (fun id _ => Some (manifest d id (fun _ => true))) (file_versions d);
     MemoryRepo.sessions := ∅; MemoryRepo.locators := map_imap object_of (stored_objects d); MemoryRepo.root_id := root |}.

Lemma view_node d id : MemoryRepo.nodes (view d) !! id = live_node d id.
Proof. simpl. rewrite lookup_omap. unfold live_node, live_of. by destruct (nodes d !! id). Qed.
Lemma view_chunks d v : MemoryRepo.chunks (view d) !! v = (fun _ => manifest d v (fun _ => true)) <$> file_versions d !! v.
Proof. simpl. rewrite map_lookup_imap. by destruct (file_versions d !! v). Qed.
Lemma live_node_Some d id n : live_node d id = Some n <-> exists row, nodes d !! id = Some row /\ n_deleted_at row = None /\ node row = n.
Proof.
  unfold live_node, is_live. destruct (nodes d !! id) as [r|]; simpl; [|naive_solver].
  case_bool_decide; naive_solver.
Qed.

(** Rows come and go. *)
Lemma view_put d id n :
  view (with_nodes d (<[id := {| node := n; n_deleted_at := None |}]> (nodes d))) =
  MemoryRepo.with_nodes (view d) (<[id := n]> (MemoryRepo.nodes (view d))).
Proof. unfold view, MemoryRepo.with_nodes. simpl. f_equal. by apply omap_insert_Some. Qed.
Lemma view_drop d id n t :
  view (with_nodes d (<[id := {| node := n; n_deleted_at := Some t |}]> (nodes d))) =
  MemoryRepo.with_nodes (view d) (delete id (MemoryRepo.nodes (view d))).
Proof. unfold view, MemoryRepo.with_nodes. simpl. f_equal. by apply omap_insert_None. Qed.

(** A search that can find one thing only. *)
Lemma head_unique {A} (l1 l2 : list A) :
  (forall x, x ∈ l1 <-> x ∈ l2) -> (forall x y, x ∈ l1 -> y ∈ l1 -> x = y) -> head l1 = head l2.
Proof.
  intros Hsame Huniq. destruct l1 as [|x l1], l2 as [|y l2]; simpl; try done.
  - pose proof (proj2 (Hsame y) ltac:(set_solver)). set_solver.
  - pose proof (proj1 (Hsame x) ltac:(set_solver)). set_solver.
  - f_equal. apply Huniq; [set_solver|]. apply Hsame. set_solver.
Qed.
Lemma elem_live_rows d n : n ∈ live_rows d <-> exists id, live_node d id = Some n.
Proof.
  unfold live_rows. rewrite list_elem_of_fmap. split.
  - intros (r & -> & [Hl Hr]%list_elem_of_filter). apply elem_of_hm_values in Hr as [id Hr]. exists id. apply live_node_Some.
    exists r. unfold is_live in Hl. by apply bool_decide_eq_true in Hl.
  - intros [id (r & Hr & Hl & <-)%live_node_Some]. exists r. split; [done|]. apply list_elem_of_filter.
    split; [by apply bool_decide_eq_true|]. apply elem_of_hm_values. by exists id.
Qed.
Lemma elem_view_nodes d n : n ∈ hm_values (MemoryRepo.nodes (view d)) <-> n ∈ live_rows d.
Proof. rewrite elem_of_hm_values, elem_live_rows. by setoid_rewrite view_node. Qed.
Lemma entry_unique d p name n1 n2 :
  constraints d -> n1 ∈ live_rows d -> n2 ∈ live_rows d -> MemoryRepo.is_child p name n1 = true -> MemoryRepo.is_child p name n2 = true -> n1 = n2.
Proof.
  intros Hd [id1 (r1 & Hr1 & Hl1 & <-)%live_node_Some]%elem_live_rows [id2 (r2 & Hr2 & Hl2 & <-)%live_node_Some]%elem_live_rows.
  unfold MemoryRepo.is_child. rewrite !andb_true_iff, !bool_decide_eq_true. intros [Hp1 Hn1] [Hp2 Hn2].
  assert (id1 = id2) as <- by (by apply (k_name _ Hd id1 id2 r1 r2 p); congruence). congruence.
Qed.
Lemma live_row_id d n : constraints d -> n ∈ live_rows d -> live_node d (n_id n) = Some n.
Proof.
  intros Hd [id Hn]%elem_live_rows. pose proof Hn as (r & Hr & _ & <-)%live_node_Some. by rewrite (k_node_id _ Hd id r Hr).
Qed.

(** ** Manifests *)

Lemma elem_manifest d v keep c :
  c ∈ manifest d v keep <-> exists i, file_chunks d !! (v, i) = Some c /\ keep i = true.
Proof.
  unfold manifest. rewrite merge_sort_Permutation, list_elem_of_fmap. split.
  - intros ([[v' i] c'] & -> & [Hk Hc]%list_elem_of_filter). apply elem_of_hm_iter in Hc. apply andb_true_iff in Hk as [Hv Hi].
    apply bool_decide_eq_true in Hv. simpl in *. subst v'. by exists i.
  - intros (i & Hc & Hi). exists ((v, i), c). split; [done|]. apply list_elem_of_filter. simpl. rewrite bool_decide_true, Hi by done.
    split; [done|]. by apply elem_of_hm_iter.
Qed.
#[global] Instance by_index_total : Total by_index.
Proof. intros a b. unfold by_index. lia. Qed.
#[global] Instance by_index_trans : Transitive by_index.
Proof. intros a b c. unfold by_index. lia. Qed.
Lemma manifest_NoDup d v keep : constraints d -> NoDup (c_chunk_index <$> manifest d v keep).
Proof.
  intros Hd. unfold manifest. rewrite merge_sort_Permutation, <-list_fmap_compose. apply NoDup_fmap_2_strong.
  - intros [[v1 i1] c1] [[v2 i2] c2] [Hk1 H1]%list_elem_of_filter [Hk2 H2]%list_elem_of_filter. simpl in *.
    apply elem_of_hm_iter in H1, H2. apply andb_true_iff in Hk1 as [Hv1 _], Hk2 as [Hv2 _].
    apply bool_decide_eq_true in Hv1, Hv2. subst v1 v2. destruct (k_chunk_id _ Hd _ _ _ H1) as [_ <-].
    destruct (k_chunk_id _ Hd _ _ _ H2) as [_ <-]. intros Heq. rewrite Heq in *. congruence.
  - apply NoDup_filter. rewrite hm_iter_perm. apply NoDup_map_to_list.
Qed.
Lemma strictly_sorted l : StronglySorted by_index l -> NoDup (c_chunk_index <$> l) -> Manifest.sorted l.
Proof.
  induction 1 as [|c l Hs IH Hc]; simpl; intros Hnd; [constructor|]. apply NoDup_cons in Hnd as [Hn Hnd]. constructor; [by apply IH|].
  rewrite Forall_forall in *. intros c' Hc'. specialize (Hc c' Hc'). unfold by_index in Hc.
  assert (c_chunk_index c <> c_chunk_index c'); [|lia]. intros Heq. apply Hn, list_elem_of_fmap. by exists c'.
Qed.
Lemma manifest_sorted d v keep : constraints d -> Manifest.sorted (manifest d v keep).
Proof. intros Hd. apply strictly_sorted; [refine (StronglySorted_merge_sort by_index _)|by apply manifest_NoDup]. Qed.

Lemma sorted_NoDup l : Manifest.sorted l -> NoDup l.
Proof.
  induction 1 as [|c l Hs IH Hc]; constructor; [|done]. intros Hin. rewrite Forall_forall in Hc. specialize (Hc c Hin). lia.
Qed.
(** Ascending manifests with the same rows are the same. *)
Lemma sorted_same l1 l2 : Manifest.sorted l1 -> Manifest.sorted l2 -> (forall c, c ∈ l1 <-> c ∈ l2) -> l1 = l2.
Proof.
  intros H1 H2 Hsame. refine (StronglySorted_unique (fun a b => c_chunk_index a < c_chunk_index b) _ _ H1 H2 _); [intros a b; lia|].
  apply NoDup_Permutation; [by apply sorted_NoDup|by apply sorted_NoDup|done].
Qed.
Lemma elem_chunk_at l c : Manifest.sorted l -> c ∈ l <-> Manifest.chunk_at l (c_chunk_index c) = Some c.
Proof. intros Hs. split; [by apply Manifest.chunk_at_elem|]. by intros [? _]%Manifest.chunk_at_Some. Qed.
Lemma sorted_ext l1 l2 : Manifest.sorted l1 -> Manifest.sorted l2 -> (forall i, Manifest.chunk_at l1 i = Manifest.chunk_at l2 i) -> l1 = l2.
Proof. intros H1 H2 Hat. apply sorted_same; [done|done|]. intros c. by rewrite !elem_chunk_at, Hat. Qed.
Lemma chunk_at_manifest d v keep i : constraints d ->
  Manifest.chunk_at (manifest d v keep) i = if keep i then file_chunks d !! (v, i) else None.
Proof.
  intros Hd. pose proof (manifest_sorted d v keep Hd) as Hs. destruct (Manifest.chunk_at _ i) as [c|] eqn:Hc.
  - pose proof (Manifest.chunk_at_Some _ _ _ Hc) as [Hin Hi]. apply elem_manifest in Hin as (j & Hj & Hk).
    destruct (k_chunk_id _ Hd _ _ _ Hj) as [_ Hij]. assert (j = i) as -> by congruence. by rewrite Hk, Hj.
  - destruct (keep i) eqn:Hk; [|done]. destruct (file_chunks d !! (v, i)) as [c|] eqn:Hlook; [|done].
    assert (Hin : c ∈ manifest d v keep) by (apply elem_manifest; by exists i). apply elem_chunk_at in Hin; [|done].
    destruct (k_chunk_id _ Hd _ _ _ Hlook) as [_ <-]. congruence.
Qed.
Lemma manifest_filter d v first last : constraints d ->
  manifest d v (between first last) = filter (fun c => MemoryRepo.in_span first last c = true) (manifest d v (fun _ => true)).
Proof.
  intros Hd. apply sorted_ext; [by apply manifest_sorted|by apply Manifest.sorted_filter, manifest_sorted|]. intros i.
  rewrite Manifest.chunk_at_filter_span, !chunk_at_manifest by done. unfold between.
  destruct (Z.leb_spec first i), (Z.leb_spec i last); simpl; case_decide; done || lia.
Qed.

(** ** The methods, side by side *)

(** Up to the times of nodes. *)
Definition untimed (n : NodeRecord) : NodeRecord := set_times 0 0 n.
Definition untime r : MemoryRepo.Repo := MemoryRepo.with_nodes r (untimed <$> MemoryRepo.nodes r).
Definition same_repo r1 r2 : Prop := untime r1 = untime r2.
#[global] Instance same_repo_equivalence : Equivalence same_repo.
Proof. split; unfold same_repo; repeat intro; congruence. Qed.

Context (to_string : SqlxError -> string) (faults : nat -> option Fault).

Definition refines {A} (pg : M A) (mem : MemoryRepo.Repo -> result RepositoryError A * MemoryRepo.Repo) d : Prop :=
  forall s v s', db s = d -> pg s = (Ok v, s') -> exists r, mem (view d) = (Ok v, r) /\ same_repo (view (db s')) r.

Lemma refines_query {A} (f : Db -> option A) (g : MemoryRepo.Repo -> option A) d :
  (forall v, f d = Some v -> g (view d) = Some v) ->
  refines (found ← run to_string faults (select f); or_not_found found) (fun r => (ok_or (g r) NotFound, r)) d.
Proof.
  intros Hfg s v s' <- Hrun. steps Hrun. apply run_select_inv in Ha as [-> Hd]. apply or_not_found_inv in Hrun as [Hv ->].
  exists (view (db s)). rewrite (Hfg v Hv), Hd. done.
Qed.

Lemma get_node_refines id d : refines (get_node to_string faults id) (fun r => (MemoryRepo.get_node id r, r)) d.
Proof. apply (refines_query _ (fun r => MemoryRepo.nodes r !! id)). intros v Hv. by rewrite view_node. Qed.
Lemma get_version_refines id d : refines (get_version to_string faults id) (fun r => (MemoryRepo.get_version id r, r)) d.
Proof. by apply (refines_query _ (fun r => MemoryRepo.versions r !! id)). Qed.
Lemma get_locator_refines id d : refines (get_object_locator to_string faults id) (fun r => (MemoryRepo.get_object_locator id r, r)) d.
Proof.
  apply (refines_query _ (fun r => MemoryRepo.locators r !! id)). intros v Hv. simpl. rewrite map_lookup_imap.
  by destruct (stored_objects d !! id).
Qed.

(** The entry a search finds is the one the in-memory search finds. *)
Lemma entry_view d p name : constraints d ->
  entry d p name = head (filter (fun n => MemoryRepo.is_child p name n = true) (hm_values (MemoryRepo.nodes (view d)))).
Proof.
  intros Hd. apply head_unique.
  - intros n. rewrite !list_elem_of_filter. by rewrite elem_view_nodes.
  - intros n1 n2 [H1 ?]%list_elem_of_filter [H2 ?]%list_elem_of_filter. by eapply entry_unique.
Qed.
Lemma find_child_refines p name d : constraints d ->
  refines (find_child to_string faults p name) (fun r => (MemoryRepo.find_child p name r, r)) d.
Proof.
  intros Hd. apply (refines_query _ (fun r => head (filter (fun n => MemoryRepo.is_child p name n = true) (hm_values (MemoryRepo.nodes r))))).
  intros v Hv. by rewrite <-entry_view.
Qed.

(** A new row. *)
Lemma insert_node_view n d v d' :
  insert_node n d = Ok (v, d') -> v = n /\ MemoryRepo.nodes (view d) !! n_id n = None /\ name_taken d n = false /\
    view d' = MemoryRepo.with_nodes (view d) (<[n_id n := n]> (MemoryRepo.nodes (view d))).
Proof.
  unfold insert_node. destruct (negb (kind_ok n)); [done|]. destruct (_ || _) eqn:Hu; [done|]. destruct (negb _); [done|].
  intros [= <- <-]. apply orb_false_iff in Hu as [Hno Hfree]. split; [done|]. split; [|split; [done|apply view_put]].
  rewrite view_node. unfold live_node. apply bool_decide_eq_false in Hno. by apply eq_None_not_Some in Hno as ->.
Qed.
Lemma create_node_refines now id p name kind mode uid gid d :
  refines (create_node to_string faults now id p name kind mode uid gid) (MemoryRepo.create_node now id p name kind mode uid gid) d.
Proof.
  intros s v s' <- Hrun. apply run_inv, insert_node_view in Hrun as (-> & Hno & _ & Hview). simpl in Hno.
  unfold MemoryRepo.create_node. simpl. rewrite Hno. eexists. split; [done|]. by rewrite Hview.
Qed.
Lemma no_child d p name id n : name_taken d n = false -> n_parent_id n = Some p -> n_name n = name -> n_id n = id -> live_node d id = None ->
  existsb (MemoryRepo.is_child p name) (hm_values (MemoryRepo.nodes (view d))) = false.
Proof.
  intros Hfree Hp Hn Hi Hno. apply not_true_iff_false. intros (m & Hin & Hc)%existsb_exists.
  apply list_elem_of_In, elem_view_nodes, elem_live_rows in Hin as [k Hk]. pose proof Hk as (r & Hr & Hl & <-)%live_node_Some.
  unfold MemoryRepo.is_child in Hc. rewrite andb_true_iff, !bool_decide_eq_true in Hc. destruct Hc as [Hcp Hcn].
  assert (k = n_id n) as -> by (apply (name_taken_false d n k r p Hfree Hp Hr Hl Hcp); congruence). congruence.
Qed.
Lemma create_symlink_refines now id p name target uid gid d :
  refines (create_symlink to_string faults now id p name target uid gid) (MemoryRepo.create_symlink now id p name target uid gid) d.
Proof.
  intros s v s' <- Hrun. apply run_inv, insert_node_view in Hrun as (-> & Hno & Hfree & Hview). cbn [n_id] in Hno.
  unfold MemoryRepo.create_symlink. rewrite Hno.
  rewrite (no_child (db s) p name id _ Hfree) by (done || by rewrite <-view_node). eexists. split; [done|]. by rewrite Hview.
Qed.
Lemma delete_node_refines now id d : refines (delete_node to_string faults now id) (MemoryRepo.delete_node id) d.
Proof.
  intros s v s' <- Hrun. unfold delete_node in Hrun. steps Hrun. apply run_inv in Ha. destruct a; [|done]. injection Hrun as <- <-.
  unfold mark_deleted in Ha. destruct (nodes (db s) !! id) as [r|] eqn:Hr; [|done]. destruct (is_live r) eqn:Hl; [|done].
  injection Ha as <-. unfold MemoryRepo.delete_node. rewrite view_node. unfold live_node. rewrite Hr. simpl. rewrite Hl.
  eexists. split; [done|]. by rewrite view_drop.
Qed.

(** A row is changed where it stands, or moved. *)
Lemma update_node_view id f d n d' :
  update_node id f d = Ok (Some n, d') -> exists n0, live_node d id = Some n0 /\ n = f n0 /\ name_taken d n = false /\
    view d' = MemoryRepo.with_nodes (view d) (<[id := n]> (MemoryRepo.nodes (view d))).
Proof.
  unfold update_node. destruct (nodes d !! id) as [r|] eqn:Hr; [|done]. destruct (is_live r) eqn:Hl; [|done]. simpl.
  destruct (name_taken d (f (node r))) eqn:Ht; [done|]. destruct (negb _); [done|]. intros [= <- <-]. exists (node r).
  split; [|split; [done|split; [done|apply view_put]]]. unfold live_node. rewrite Hr. simpl. by rewrite Hl.
Qed.
Lemma update_attr_refines now id mode uid gid size mtime atime d :
  refines (update_node_attr to_string faults now id mode uid gid size mtime atime) (MemoryRepo.update_node_attr now id mode uid gid size mtime atime) d.
Proof.
  intros s v s' <- Hrun. unfold update_node_attr in Hrun. steps Hrun. apply or_not_found_inv in Hrun as [-> ->]. apply run_inv, update_node_view in Ha as (n0 & Hn & -> & _ & Hview).
  unfold MemoryRepo.update_node_attr. rewrite view_node, Hn. eexists. split; [done|]. by rewrite Hview.
Qed.
Lemma place_view now id p name s v s' :
  place to_string faults now id p name s = (Ok v, s') -> exists n0, live_node (db s) id = Some n0 /\
    name_taken (db s) (set_place (Some p) name now n0) = false /\
    view (db s') = MemoryRepo.with_nodes (view (db s)) (<[id := set_place (Some p) name now n0]> (MemoryRepo.nodes (view (db s)))).
Proof.
  unfold place. intros Hrun. steps Hrun. destruct a as [n|]; [|done]. injection Hrun as <- <-.
  apply run_inv, update_node_view in Ha as (n0 & Hn & -> & Ht & Hview). by exists n0.
Qed.
Lemma publish_refines now id p name d : constraints d ->
  refines (publish_node to_string faults now id p name) (MemoryRepo.publish_node now id p name) d.
Proof.
  intros Hd s v s' <- Hrun. apply place_view in Hrun as (n0 & Hn & Hfree & Hview). unfold MemoryRepo.publish_node. rewrite view_node, Hn.
  assert (Hex : existsb (fun m => negb (bool_decide (n_id m = id)) && MemoryRepo.is_child p name m) (hm_values (MemoryRepo.nodes (view (db s)))) = false).
  { apply not_true_iff_false. intros (m & Hin & Hc)%existsb_exists. apply list_elem_of_In, elem_view_nodes in Hin.
    unfold MemoryRepo.is_child in Hc. rewrite !andb_true_iff, negb_true_iff, bool_decide_eq_false, !bool_decide_eq_true in Hc. destruct Hc as (Hne & Hcp & Hcn).
    pose proof (live_row_id _ _ Hd Hin) as (r & Hr & Hl & <-)%live_node_Some. destruct Hne.
    pose proof (name_taken_false _ _ (n_id (node r)) r p Hfree eq_refl Hr Hl Hcp Hcn) as ->. simpl.
    apply live_node_Some in Hn as (r0 & Hr0 & _ & <-). by apply (k_node_id _ Hd). }
  rewrite Hex. eexists. split; [by destruct v|]. by rewrite Hview.
Qed.

(** The victim of a rename, as the in-memory repository looks for it. *)
Definition victim_of (id p : Uuid) (name : bytes) r : option NodeRecord :=
  head (filter (fun n => negb (bool_decide (n_id n = id)) && MemoryRepo.is_child p name n = true) (hm_values (MemoryRepo.nodes r))).
Lemma victim_view d id p name : constraints d ->
  victim_of id p name (view d) = match entry d p name with
                                 | Some v => if bool_decide (n_id v = id) then None else Some v
                                 | None => None
                                 end.
Proof.
  intros Hd. assert (Hin : forall n, n ∈ filter (fun n => MemoryRepo.is_child p name n = true) (live_rows d) <-> entry d p name = Some n).
  { intros n. split.
    - intros Hn. unfold entry. rewrite (head_unique _ [n]); [done| |].
      + intros m. rewrite list_elem_of_singleton. split; [|by intros ->]. apply list_elem_of_filter in Hn as [Hn1 Hn2].
        intros [Hm1 Hm2]%list_elem_of_filter. by eapply entry_unique.
      + intros n1 n2 [H1 ?]%list_elem_of_filter [H2 ?]%list_elem_of_filter. by eapply entry_unique.
    - unfold entry. intros Hh. destruct (filter _ (live_rows d)); [done|]. injection Hh as ->. set_solver. }
  unfold victim_of.
  rewrite (head_unique _ (match entry d p name with Some v => if bool_decide (n_id v = id) then [] else [v] | None => [] end)).
  - destruct (entry d p name) as [v|]; [|done]. by case_bool_decide.
  - intros n. rewrite list_elem_of_filter, elem_view_nodes, andb_true_iff, negb_true_iff, bool_decide_eq_false. split.
    + intros [[Hne Hc] Hn]. assert (He : entry d p name = Some n) by (apply Hin, list_elem_of_filter; done). rewrite He.
      rewrite bool_decide_false by done. set_solver.
    + destruct (entry d p name) as [v|] eqn:He; [|set_solver]. case_bool_decide; [set_solver|]. intros ->%list_elem_of_singleton.
      by pose proof (proj2 (Hin v) eq_refl) as [? ?]%list_elem_of_filter.
  - intros n1 n2 [H1 ?%elem_view_nodes]%list_elem_of_filter [H2 ?%elem_view_nodes]%list_elem_of_filter.
    apply andb_true_iff in H1 as [_ H1], H2 as [_ H2]. by eapply entry_unique.
Qed.
Lemma mem_rename_eq now id p name r :
  MemoryRepo.rename_node now id p name r =
  match MemoryRepo.nodes r !! id with
  | None => (Err NotFound, r)
  | Some _ =>
      let place r := match MemoryRepo.nodes r !! id with
                     | None => (Err NotFound, r)
                     | Some n => (Ok tt, MemoryRepo.with_nodes r (<[id := set_place (Some p) name now n]> (MemoryRepo.nodes r)))
                     end in
      match victim_of id p name r with
      | None => place r
      | Some v =>
          if bool_decide (n_kind v = "directory"%string) && existsb (MemoryRepo.is_in (n_id v)) (hm_values (MemoryRepo.nodes r))
          then (Err DirectoryNotEmpty, r)
          else place (MemoryRepo.with_nodes r (delete (n_id v) (MemoryRepo.nodes r)))
      end
  end.
Proof. reflexivity. Qed.

Lemma mark_any_view now id d n : live_node d id = Some n ->
  view (with_nodes d (alter (fun row => {| node := node row; n_deleted_at := Some now |}) id (nodes d))) =
  MemoryRepo.with_nodes (view d) (delete id (MemoryRepo.nodes (view d))).
Proof. intros (r & Hr & _)%live_node_Some. rewrite (alter_at _ _ _ _ Hr). apply view_drop. Qed.
Lemma rename_refines now id p name d : constraints d ->
  refines (rename_node to_string faults now id p name) (MemoryRepo.rename_node now id p name) d.
Proof.
  intros Hd s v s' <- Hrun. apply transaction_inv in Hrun as (s1 & s2 & Hs1 & Hrun & ->). rewrite <-Hs1 in *. clear s Hs1. rename s1 into s.
  steps Hrun. apply run_select_inv in Ha as [-> Hs0]. rewrite <-Hs0 in *. clear s Hs0. rename s0 into s. destruct v.
  rewrite mem_rename_eq, victim_view by done. cbv zeta.
  assert (Hplain : forall sx, sx = s -> place to_string faults now id p name sx = (Ok tt, s2) -> exists r,
    match MemoryRepo.nodes (view (db s)) !! id with
    | None => (Err NotFound, view (db s))
    | Some n => (Ok tt, MemoryRepo.with_nodes (view (db s)) (<[id := set_place (Some p) name now n]> (MemoryRepo.nodes (view (db s)))))
    end = (Ok tt, r) /\ same_repo (view (db s2)) r).
  { intros sx -> (n0 & Hn & _ & Hview)%place_view. rewrite view_node, Hn. eexists. split; [done|]. by rewrite Hview. }
  assert (Hlive : forall n, live_node (db s) id = Some n -> forall X Y : result RepositoryError unit * MemoryRepo.Repo,
    match MemoryRepo.nodes (view (db s)) !! id with None => X | Some _ => Y end = Y) by (intros n Hn X Y; by rewrite view_node, Hn).
  destruct (entry (db s) p name) as [vic|] eqn:He.
  2: { injection Ha0 as <- <-. pose proof (Hplain s eq_refl Hrun) as Hp. apply place_view in Hrun as (n0 & Hn & _). by rewrite (Hlive n0 Hn). }
  case_bool_decide as Hvid.
  { injection Ha0 as <- <-. pose proof (Hplain s eq_refl Hrun) as Hp. apply place_view in Hrun as (n0 & Hn & _). by rewrite (Hlive n0 Hn). }
  apply pg_bind_inv in Ha0 as (u & s3 & Hguard & Hmark).
  assert (Hs3 : db s3 = db s /\ bool_decide (n_kind vic = "directory"%string) &&
    existsb (MemoryRepo.is_in (n_id vic)) (hm_values (MemoryRepo.nodes (view (db s)))) = false).
  { case_bool_decide as Hk; [|by injection Hguard as <- <-]. apply pg_bind_inv in Hguard as (c0 & s4 & Hsel & Hguard). apply run_select_inv in Hsel as [-> Hd0].
    destruct (head _) as [c|] eqn:Hh; [done|]. injection Hguard as <- <-. split; [done|]. simpl.
    apply not_true_iff_false. intros (m & Hin & Hm)%existsb_exists. apply list_elem_of_In, elem_view_nodes in Hin.
    assert (Hf : m ∈ filter (fun n => MemoryRepo.is_in (n_id vic) n = true) (live_rows (db s))) by (by apply list_elem_of_filter).
    destruct (filter _ (live_rows (db s))); [by apply not_elem_of_nil in Hf|done]. }
  destruct Hs3 as [Hs3 ->]. apply run_inv in Hmark. rewrite Hs3 in Hmark. injection Hmark as _ Hmark.
  assert (Hvic : live_node (db s) (n_id vic) = Some vic).
  { apply live_row_id; [done|]. unfold entry in He. destruct (filter _ (live_rows (db s))) as [|x l] eqn:Hf; [done|]. injection He as ->.
    assert (vic ∈ filter (fun n => MemoryRepo.is_child p name n = true) (live_rows (db s))) as [_ ?]%list_elem_of_filter by (rewrite Hf; set_solver). done. }
  apply place_view in Hrun as (n0 & Hn & _ & Hview). rewrite <-Hmark in Hn, Hview.
  rewrite (mark_any_view _ _ _ _ Hvic) in Hview.
  assert (Hn' : live_node (db s) id = Some n0).
  { revert Hn. unfold live_node. simpl. by rewrite lookup_alter_ne. }
  rewrite (Hlive n0 Hn'). cbn [MemoryRepo.nodes MemoryRepo.with_nodes] in *. rewrite lookup_delete_ne by done.
  change (omap live_of (nodes (db s)) !! id) with (MemoryRepo.nodes (view (db s)) !! id). rewrite view_node, Hn'.
  eexists. split; [done|]. by rewrite Hview.
Qed.

(** ** Versions *)

Lemma view_versions_same_keys d vs :
  (forall k, is_Some (vs !! k) <-> is_Some (file_versions d !! k)) ->
  view (with_versions d vs) = MemoryRepo.with_versions (view d) vs.
Proof.
  intros Hk. unfold view, MemoryRepo.with_versions. simpl. f_equal. apply map_eq. intros k. rewrite !map_lookup_imap.
  specialize (Hk k). destruct (vs !! k) as [v|], (file_versions d !! k) as [w|]; simpl; try done.
  - by destruct (proj1 Hk (ltac:(by eexists))).
  - by destruct (proj2 Hk (ltac:(by eexists))).
Qed.
Lemma view_new_version d v : constraints d -> file_versions d !! v_id v = None ->
  view (with_versions d (<[v_id v := v]> (file_versions d))) =
  MemoryRepo.with_chunks (MemoryRepo.with_versions (view d) (<[v_id v := v]> (MemoryRepo.versions (view d))))
    (<[v_id v := []]> (MemoryRepo.chunks (view d))).
Proof.
  intros Hd Hno. unfold view, MemoryRepo.with_chunks, MemoryRepo.with_versions. simpl. f_equal. apply map_eq. intros k.
  rewrite map_lookup_imap, !lookup_insert. case_decide as Hk; simpl; [|by rewrite map_lookup_imap]. subst k. f_equal.
  apply elem_of_nil_inv. intros c (i & Hc & _)%elem_manifest. destruct (k_chunk_version _ Hd _ _ _ Hc) as [w Hw].
  change (file_versions d !! v_id v = Some w) in Hw. congruence.
Qed.
Lemma create_staging_refines vid now nid base cs d : constraints d -> (forall n, live_node d nid = Some n -> - 2 ^ 63 <= n_generation n) ->
  refines (create_staging_version to_string faults vid now nid base cs) (MemoryRepo.create_staging_version vid now nid base cs) d.
Proof.
  intros Hd Hgen s v s' <- Hrun. apply transaction_inv in Hrun as (s1 & s2 & Hs1 & Hrun & ->). rewrite <-Hs1 in *. clear s Hs1.
  steps Hrun. apply run_inv in Ha. destruct a as [n|]; [|done]. apply or_not_found_inv in Ha0 as [_ ->].
  unfold bump_generation in Ha. destruct (live_node (db s1) nid) as [n0|] eqn:Hn0; [|done]. destruct (Z.ltb_spec (n_generation n0 + 1) (2 ^ 63)); [|done].
  pose proof (update_node_keeps nid bump ltac:(done) _ _ _ Hd Ha) as Hd1.
  apply update_node_view in Ha as (n1 & Hn1 & -> & _ & Hview). rewrite Hn0 in Hn1. injection Hn1 as <-.
  apply run_inv in Hrun. unfold insert_version in Hrun. cbn [v_id] in Hrun. case_bool_decide as Hex; [done|]. destruct (_ || _); [done|].
  injection Hrun as <- Hdb. rewrite <-Hdb. apply eq_None_not_Some in Hex.
  unfold MemoryRepo.create_staging_version. rewrite view_node, Hn0. eexists. split; [done|].
  set (row := {| v_id := vid; v_node_id := nid; v_base_version_id := base; v_state := "staging"; v_size := 0; v_plaintext_hash := "";
    v_chunk_size := cs; v_created_at := now; v_committed_at := None |}).
  pose proof (view_new_version _ row Hd1 Hex) as Hnew. cbn [v_id row] in Hnew. rewrite Hnew, Hview. unfold bump. specialize (Hgen n0 eq_refl). by rewrite i64_id by lia.
Qed.
Lemma touch_staging_refines now vid size d :
  refines (touch_staging_version to_string faults now vid size) (MemoryRepo.touch_staging_version now vid size) d.
Proof.
  intros s v s' <- Hrun. apply run_inv in Hrun. injection Hrun as <- Hdb. rewrite <-Hdb. unfold MemoryRepo.touch_staging_version.
  cbn [MemoryRepo.versions view]. destruct (file_versions (db s) !! vid) as [w|] eqn:Hw.
  - rewrite (alter_at _ _ _ _ Hw). rewrite view_versions_same_keys.
    2: { intros k. rewrite lookup_insert. case_decide; [subst; rewrite Hw|done]. split; by eexists. }
    unfold is_staging, MemoryRepo.is_staging. case_bool_decide; eexists; (split; [reflexivity|]); [done|].
    rewrite insert_id by done. unfold view, MemoryRepo.with_versions. simpl. done.
  - rewrite (alter_none _ _ _ Hw). eexists. split; [reflexivity|]. by destruct (db s).
Qed.
Lemma find_open_refines nid d :
  (forall v1 v2 k1 k2, file_versions d !! k1 = Some v1 -> file_versions d !! k2 = Some v2 -> v_node_id v1 = nid -> v_node_id v2 = nid ->
     is_staging v1 = true -> is_staging v2 = true -> v1 = v2) ->
  refines (find_open_staging_version to_string faults nid) (fun r => (MemoryRepo.find_open_staging_version nid r, r)) d.
Proof.
  intros Hu s v s' <- Hrun. unfold find_open_staging_version in Hrun. steps Hrun. apply retrying_select_inv in Ha as [-> Hdb].
  apply or_not_found_inv in Hrun as [Hv ->]. exists (view (db s)). rewrite Hdb. split; [|done].
  unfold MemoryRepo.find_open_staging_version. cbn [MemoryRepo.versions view].
  change (MemoryRepo.is_staging) with is_staging. set (l := filter _ (hm_values (file_versions (db s)))) in *.
  assert (Hl : forall x, x ∈ l -> v_node_id x = nid /\ is_staging x = true /\ exists k, file_versions (db s) !! k = Some x).
  { intros x [Hx Hin]%list_elem_of_filter. apply andb_true_iff in Hx as [Hx ?]. apply bool_decide_eq_true in Hx. by apply elem_of_hm_values in Hin. }
  assert (Hsame : forall x y, x ∈ l -> y ∈ l -> x = y).
  { intros x y Hx Hy. destruct (Hl x Hx) as (? & ? & ? & ?), (Hl y Hy) as (? & ? & ? & ?). by eapply Hu. }
  assert (Hvl : v ∈ l).
  { assert (Hin : v ∈ merge_sort newest_first l) by (destruct (merge_sort newest_first l); [done|injection Hv as ->; set_solver]).
    by rewrite merge_sort_Permutation in Hin. }
  assert (Hmax : forall l0, MemoryRepo.max_by_created l0 = None /\ l0 = [] \/ exists w, MemoryRepo.max_by_created l0 = Some w /\ w ∈ l0).
  { clear. induction l0 as [|x l0 IH]; [by left|right]. simpl. destruct IH as [[-> ->]|(w & -> & Hw)]; [exists x; set_solver|].
    destruct (_ <=? _); [exists w|exists x]; set_solver. }
  destruct (Hmax l) as [[_ Hnil]|(w & -> & Hw)]; [rewrite Hnil in Hvl; by apply not_elem_of_nil in Hvl|]. by rewrite (Hsame w v Hw Hvl).
Qed.
Lemma reconcile_refines d : constraints d ->
  refines (void (reconcile_node_sizes to_string faults)) (fun r => (Ok tt, (MemoryRepo.reconcile_node_sizes r).2)) d.
Proof.
  intros Hd s v s' <- Hrun. unfold void in Hrun. steps Hrun. injection Hrun as <- <-. apply run_inv in Ha. injection Ha as _ Hdb. rewrite <-Hdb.
  eexists. split; [done|]. cbn [snd MemoryRepo.reconcile_node_sizes].
  assert (Hneed : forall n, MemoryRepo.needs_reconcile (view (db s)) n = needs_reconcile (db s) n).
  { intros n. unfold MemoryRepo.needs_reconcile, needs_reconcile. rewrite <-andb_assoc, (andb_comm (negb (bool_decide _))), andb_assoc.
    f_equal. f_equal. apply eq_true_iff_eq. rewrite bool_decide_eq_true, existsb_exists. split.
    - intros (w & -> & [Hs Hin]%list_elem_of_filter)%list_elem_of_fmap. exists w. split; [by apply list_elem_of_In|].
      rewrite bool_decide_true by done. exact Hs.
    - intros (w & Hin & [Hw Hs]%andb_true_iff). apply bool_decide_eq_true in Hw. apply list_elem_of_fmap. exists w. split; [done|].
      apply list_elem_of_filter. split; [exact Hs|by apply list_elem_of_In]. }
  unfold same_repo. f_equal. unfold view at 1, MemoryRepo.with_nodes. cbn [nodes with_nodes file_versions stored_objects]. f_equal.
  apply map_eq. intros k. cbn [MemoryRepo.nodes view]. rewrite lookup_omap, !lookup_fmap, lookup_omap.
  destruct (nodes (db s) !! k) as [row|]; simpl; [|done]. unfold live_of, is_live. destruct (needs_reconcile (db s) (node row)) eqn:Hn; simpl;
    case_bool_decide; simpl; rewrite ?Hneed, ?Hn; done.
Qed.

(** ** Chunks *)

Lemma same_repo_chunks r1 r2 : MemoryRepo.nodes r1 = MemoryRepo.nodes r2 -> MemoryRepo.versions r1 = MemoryRepo.versions r2 ->
  MemoryRepo.chunks r1 = MemoryRepo.chunks r2 -> MemoryRepo.sessions r1 = MemoryRepo.sessions r2 ->
  MemoryRepo.locators r1 = MemoryRepo.locators r2 -> MemoryRepo.root_id r1 = MemoryRepo.root_id r2 -> same_repo r1 r2.
Proof. destruct r1, r2. simpl. intros. subst. done. Qed.
(** One version's chunks change. *)
Lemma view_one_manifest d cs v l :
  is_Some (file_versions d !! v) -> (forall k i, k <> v -> cs !! (k, i) = file_chunks d !! (k, i)) ->
  constraints d -> constraints (with_chunks d cs) -> Manifest.sorted l -> (forall i, Manifest.chunk_at l i = cs !! (v, i)) ->
  same_repo (view (with_chunks d cs)) (MemoryRepo.with_chunks (view d) (<[v := l]> (MemoryRepo.chunks (view d)))).
Proof.
  intros Hv Hother Hd Hd' Hs Hl. apply same_repo_chunks; try done. cbn [MemoryRepo.chunks MemoryRepo.with_chunks].
  apply map_eq. intros k. rewrite view_chunks, lookup_insert. cbn [file_versions with_chunks]. case_decide as Hk.
  - subst k. destruct Hv as [w ->]. simpl. f_equal. apply sorted_ext; [by apply manifest_sorted|done|]. intros i.
    by rewrite chunk_at_manifest, Hl.
  - rewrite view_chunks. destruct (file_versions d !! k) as [w|]; [|done]. simpl. f_equal.
    apply sorted_ext; [by apply manifest_sorted..|]. intros i. rewrite !chunk_at_manifest by done. simpl. by apply Hother.
Qed.
Lemma attach_refines v i off size hash o d : constraints d ->
  refines (attach_chunk to_string faults v i off size hash o) (MemoryRepo.attach_chunk v i off size hash o) d.
Proof.
  intros Hd s u s' <- Hrun. pose proof (attach_keeps to_string faults v i off size hash o s Hd) as Hd'.
  change (attach_chunk to_string faults v i off size hash o s = (Ok u, s')) in Hrun. rewrite Hrun in Hd'. simpl in Hd'.
  unfold attach_chunk in Hrun. apply run_inv in Hrun. case_bool_decide as Hv; [|done]. injection Hrun as <- Hdb.
  rewrite <-Hdb in *. unfold MemoryRepo.attach_chunk. rewrite view_chunks. pose proof Hv as [w Hw]. rewrite Hw. simpl.
  eexists. split; [done|]. set (row := {| c_version_id := v; c_chunk_index := i; c_logical_offset := off; c_plaintext_size := size;
    c_plaintext_hash := hash; c_object_id := o |}) in *. pose proof (manifest_sorted (db s) v (fun _ => true) Hd) as Hs.
  refine (view_one_manifest (db s) (<[(v, i) := row]> (file_chunks (db s))) v (MemoryRepo.upsert row (manifest (db s) v (fun _ => true))) Hv _ Hd Hd' _ _).
  - intros k j Hne. apply lookup_insert_ne. congruence.
  - by apply Manifest.upsert_sorted.
  - intros j. rewrite Manifest.chunk_at_upsert, lookup_insert by done. cbn [c_chunk_index row].
    destruct (decide (j = i)) as [->|Hne]; [by rewrite decide_True|]. rewrite decide_False by congruence. by rewrite chunk_at_manifest.
Qed.
Lemma get_chunks_refines v d : refines (get_chunks to_string faults v) (fun r => (MemoryRepo.get_chunks v r, r)) d.
Proof.
  intros s l s' <- Hrun. unfold get_chunks in Hrun. steps Hrun. apply run_select_inv in Ha as [-> H0]. apply or_not_found_inv in Ha0 as [Hv ->].
  apply run_select_inv in Hrun as [-> H1]. exists (view (db s)). rewrite H1, H0. split; [|done]. unfold MemoryRepo.get_chunks. rewrite view_chunks.
  by destruct (file_versions (db s) !! v).
Qed.
Lemma get_chunk_range_refines v first last d : constraints d -> is_Some (file_versions d !! v) ->
  refines (get_chunk_range to_string faults v first last) (fun r => (MemoryRepo.get_chunk_range v first last r, r)) d.
Proof.
  intros Hd [w Hw] s l s' <- Hrun. apply run_select_inv in Hrun as [-> H1]. exists (view (db s)). rewrite H1. split; [|done].
  unfold MemoryRepo.get_chunk_range. rewrite view_chunks, Hw. simpl. do 2 f_equal. by rewrite manifest_filter.
Qed.

Lemma carried_lookup d from_v to_v first last i : constraints d ->
  carried d from_v to_v first last !! (to_v, i) =
    set_chunk_version to_v <$> (if between first last i then file_chunks d !! (from_v, i) else None).
Proof.
  intros Hd. rewrite <-(chunk_at_manifest d from_v (between first last) i Hd).
  pose proof (manifest_sorted d from_v (between first last) Hd) as Hs. unfold carried.
  set (l := manifest d from_v (between first last)) in *. destruct (Manifest.chunk_at l i) as [c|] eqn:Hc; simpl.
  - apply elem_of_list_to_map_1.
    + rewrite <-list_fmap_compose. apply NoDup_fmap_2_strong; [|by apply sorted_NoDup]. intros x y Hx Hy. simpl. intros [= Heq].
      apply elem_chunk_at in Hx, Hy; [|done..]. congruence.
    + apply Manifest.chunk_at_Some in Hc as [Hin Hi]. apply list_elem_of_fmap. exists c. by rewrite Hi.
  - apply not_elem_of_list_to_map_1. rewrite <-list_fmap_compose. intros (c & [= Hi] & Hin)%list_elem_of_fmap.
    apply elem_chunk_at in Hin; [|done]. congruence.
Qed.
Lemma copy_refines from_v to_v first last d : constraints d -> is_Some (file_versions d !! to_v) ->
  refines (void (copy_chunk_range to_string faults from_v to_v first last))
    (fun r => let '(res, r') := MemoryRepo.copy_chunk_range from_v to_v first last r in ((fun _ => tt) <$> res, r')) d.
Proof.
  intros Hd Hto s u s' <- Hrun. pose proof (copy_keeps to_string faults from_v to_v first last s Hd) as Hd'.
  unfold void in Hrun. apply pg_bind_inv in Hrun as (n & s1 & Hcopy & Hrun). injection Hrun as <- <-. rewrite Hcopy in Hd'. simpl in Hd'.
  unfold copy_chunk_range in Hcopy. unfold MemoryRepo.copy_chunk_range. destruct (last <? first).
  { injection Hcopy as <- <-. exists (view (db s)). by split. }
  apply run_inv in Hcopy. cbv zeta in Hcopy. destruct (_ && _); [done|]. injection Hcopy as _ Hdb. rewrite <-Hdb in *.
  rewrite !view_chunks. pose proof Hto as [w Hw]. rewrite Hw.
  change (default [] ((fun _ => manifest (db s) to_v (fun _ => true)) <$> Some w)) with (manifest (db s) to_v (fun _ => true)).
  set (target := manifest (db s) to_v (fun _ => true)).
  set (rows := set_chunk_version to_v <$> filter _ (default [] _)).
  assert (Hrows : forall i, Manifest.chunk_at rows i = carried (db s) from_v to_v first last !! (to_v, i)).
  { intros i. unfold rows. rewrite Manifest.chunk_at_fmap_version, Manifest.chunk_at_filter_span, carried_lookup by done. f_equal.
    unfold between. destruct (file_versions (db s) !! from_v) as [x|] eqn:Hx; simpl.
    - rewrite chunk_at_manifest by done. destruct (Z.leb_spec first i), (Z.leb_spec i last); simpl; case_decide; done || lia.
    - destruct ((first <=? i) && (i <=? last)); [|by case_decide]. destruct (file_chunks (db s) !! (from_v, i)) as [c|] eqn:Hc; [|by case_decide].
      destruct (k_chunk_version _ Hd _ _ _ Hc). congruence. }
  destruct (Manifest.copy_into_spec target rows (manifest_sorted _ _ _ Hd)) as [Hsorted Hat].
  destruct (MemoryRepo.copy_into target rows) as [l n'] eqn:Hinto. simpl in Hsorted, Hat. eexists. split; [reflexivity|].
  refine (view_one_manifest (db s) _ to_v l Hto _ Hd Hd' Hsorted _).
  - intros k i Hne. rewrite lookup_union. destruct (carried _ _ _ _ _ !! (k, i)) as [c|] eqn:Hc; [|by rewrite (right_id_L None (∪))].
    by apply carried_spec in Hc as (-> & _).
  - intros i. rewrite Hat, Hrows, lookup_union. unfold target. rewrite chunk_at_manifest by done. by destruct (file_chunks (db s) !! _), (carried _ _ _ _ _ !! _).
Qed.

(** ** Commit *)

Lemma commit_refines now g size hash d : constraints d ->
  (forall n, live_node d (g_node_id g) = Some n -> n_current_version_id n <> Some (g_version_id g)) ->
  refines (commit_version to_string faults now g size hash) (MemoryRepo.commit_version now g size hash) d.
Proof.
  intros Hd Hcur s v s' <- Hrun. apply transaction_inv in Hrun as (s1 & s2 & Hs1 & Hrun & ->). rewrite <-Hs1 in *. clear s Hs1.
  apply pg_bind_inv in Hrun as (found & s3 & Hsel & Hrun). apply run_select_inv in Hsel as [-> H3].
  apply pg_bind_inv in Hrun as (n & s4 & Hn & Hrun). apply or_not_found_inv in Hn as [Hn ->].
  destruct (_ || _) eqn:Hguard; [done|]. apply orb_false_iff in Hguard as [Hg1 Hg2].
  apply pg_bind_inv in Hrun as (committed & s5 & Hc & Hrun). apply run_inv in Hc. rewrite H3 in Hc. unfold commit_row in Hc.
  destruct (file_versions (db s1) !! g_version_id g) as [w|] eqn:Hw; [|injection Hc as <- _; apply pg_bind_inv in Hrun as (? & ? & Hx & _); discriminate Hx].
  destruct (is_staging w) eqn:Hst; [|injection Hc as <- _; apply pg_bind_inv in Hrun as (? & ? & Hx & _); discriminate Hx].
  injection Hc as <- H5. apply pg_bind_inv in Hrun as (v' & s6 & Hv & Hrun). apply or_not_found_inv in Hv as [[= <-] ->].
  apply pg_bind_inv in Hrun as (u & s7 & Hsup & Hrun). apply pg_bind_inv in Hrun as (u2 & s8 & Hpub & Hrun). injection Hrun as <- <-.
  apply run_inv in Hpub. injection Hpub as _ H8. unfold MemoryRepo.commit_version. rewrite view_node, Hn, Hg1, Hg2.
  cbn [MemoryRepo.versions view]. rewrite Hw. set (cw := set_version "committed" size hash (v_created_at w) (Some now) w) in *.
  assert (H7 : db s7 = with_versions (db s1) (<[g_version_id g := cw]>
      (match n_current_version_id n with Some old => alter supersede old (file_versions (db s1)) | None => file_versions (db s1) end))).
  { destruct (n_current_version_id n) as [old|] eqn:Hold; [|injection Hsup as _ Hs5; by rewrite <-Hs5, <-H5].
    apply run_inv in Hsup. injection Hsup as _ Hsup. rewrite <-Hsup, <-H5. simpl. f_equal. apply alter_insert_ne. intros ->. by apply (Hcur n). }
  set (vs := match n_current_version_id n with Some old => alter supersede old (file_versions (db s1)) | None => file_versions (db s1) end) in *.
  assert (Hvs : vs !! g_version_id g = Some w).
  { unfold vs. destruct (n_current_version_id n) as [old|] eqn:Hold; [|done]. rewrite lookup_alter_ne; [done|]. intros ->. by apply (Hcur n). }
  change (match n_current_version_id n with Some old => alter _ old (file_versions (db s1)) | None => file_versions (db s1) end) with vs.
  rewrite Hvs. eexists. split; [done|]. pose proof Hn as (row & Hrow & Hlive & Hnode)%live_node_Some.
  rewrite <-H8, H7.
  change (nodes (db s1)) with (nodes (with_versions (db s1) (<[g_version_id g := cw]> vs))) in Hrow.
  rewrite (alter_at _ _ _ _ Hrow), Hlive, view_put, Hnode. rewrite view_versions_same_keys.
  2: { intros k. destruct (decide (k = g_version_id g)) as [->|Hk]; [rewrite lookup_insert_eq, Hw; split; by eexists|].
       rewrite lookup_insert_ne by done. unfold vs. destruct (n_current_version_id n); [|done]. rewrite lookup_alter_is_Some. done. }
  unfold same_repo, untime, MemoryRepo.with_nodes, MemoryRepo.with_versions. cbn. f_equal. by rewrite !fmap_insert.
Qed.

(** ** Locators *)

Lemma view_objects d os ls : map_imap object_of os = ls -> view (with_objects d os) = MemoryRepo.with_locators (view d) ls.
Proof. by intros <-. Qed.
Lemma put_locator_refines now l d : (forall row, stored_objects d !! l_object_id l = Some row -> o_deleted_at row = None) ->
  refines (put_object_locator to_string faults now l) (MemoryRepo.put_object_locator l) d.
Proof.
  intros Hlive s v s' <- Hrun. apply run_inv in Hrun. injection Hrun as <- Hdb. rewrite <-Hdb. eexists. split; [reflexivity|].
  rewrite (view_objects _ _ (<[l_object_id l := l]> (MemoryRepo.locators (view (db s))))); [done|]. apply map_eq. intros k.
  rewrite map_lookup_imap, !lookup_insert. case_decide as Hk; simpl; [|by rewrite map_lookup_imap]. subst k. unfold object_of. simpl.
  rewrite bool_decide_true; [by destruct l|]. destruct (stored_objects (db s) !! l_object_id l) as [row|]; simpl; [by apply Hlive|done].
Qed.
Lemma touch_url_refines id url d : refines (touch_object_url to_string faults id url) (MemoryRepo.touch_object_url id url) d.
Proof.
  intros s v s' <- Hrun. apply run_inv in Hrun. injection Hrun as <- Hdb. rewrite <-Hdb. eexists. split; [reflexivity|].
  erewrite view_objects; [done|]. apply map_eq. intros k. cbn [MemoryRepo.locators view].
  rewrite map_lookup_imap, !lookup_alter, !map_lookup_imap. case_decide as Hk; simpl; [subst k|done].
  destruct (stored_objects (db s) !! id) as [row|]; simpl; [|done]. unfold object_of. simpl. by case_bool_decide.
Qed.
Lemma delete_locator_refines id d : refines (delete_object_locator to_string faults id) (MemoryRepo.delete_object_locator id) d.
Proof.
  intros s v s' <- Hrun. apply run_inv in Hrun. injection Hrun as <- Hdb. rewrite <-Hdb. eexists. split; [reflexivity|].
  erewrite view_objects; [done|]. apply map_eq. intros k. cbn [MemoryRepo.locators view].
  rewrite map_lookup_imap, !lookup_delete, map_lookup_imap. by case_decide.
Qed.

End View.

(** ** The repository the handlers call *)

Inductive Method : Type -> Type :=
| GetNode (id : Uuid) : Method NodeRecord
| FindChild (parent : Uuid) (name : bytes) : Method NodeRecord
| CreateNode (now : Z) (id parent : Uuid) (name : bytes) (kind : string) (mode uid gid : Z) : Method NodeRecord
| CreateSymlink (now : Z) (id parent : Uuid) (name target : bytes) (uid gid : Z) : Method NodeRecord
| DeleteNode (now : Z) (id : Uuid) : Method unit
| RenameNode (now : Z) (id new_parent : Uuid) (new_name : bytes) : Method unit
| PublishNode (now : Z) (id new_parent : Uuid) (new_name : bytes) : Method unit
| UpdateNodeAttr (now : Z) (id : Uuid) (mode uid gid size mtime atime : option Z) : Method NodeRecord
| CreateStagingVersion (version_id : Uuid) (now : Z) (node_id : Uuid) (base : option Uuid) (chunk_size : Z) : Method FileVersionRecord
| FindOpenStagingVersion (node_id : Uuid) : Method FileVersionRecord
| TouchStagingVersion (now : Z) (version_id : Uuid) (size : Z) : Method unit
| ReconcileNodeSizes : Method unit
| GetVersion (id : Uuid) : Method FileVersionRecord
| CommitVersion (now : Z) (guard : CommitGuard) (total_size : Z) (hash : string) : Method FileVersionRecord
| AttachChunk (version_id : Uuid) (chunk_index logical_offset plaintext_size : Z) (hash : string) (object_id : Uuid) : Method unit
| CopyChunkRange (from_version to_version : Uuid) (first last : Z) : Method unit
| GetChunks (version_id : Uuid) : Method (list FileChunkRecord)
| GetChunkRange (version_id : Uuid) (first last : Z) : Method (list FileChunkRecord)
| PutObjectLocator (now : Z) (l : ObjectLocatorRecord) : Method unit
| GetObjectLocator (id : Uuid) : Method ObjectLocatorRecord
| TouchObjectUrl (id : Uuid) (url : string) : Method unit
| DeleteObjectLocator (id : Uuid) : Method unit.

Section Methods.
Context `{HashOrder} (to_string : SqlxError -> string) (faults : nat -> option Fault).

Definition pg {A} (m : Method A) : M A :=
  match m in Method A return M A with
  | GetNode id => get_node to_string faults id
  | FindChild p name => find_child to_string faults p name
  | CreateNode now id p name kind mode uid gid => create_node to_string faults now id p name kind mode uid gid
  | CreateSymlink now id p name target uid gid => create_symlink to_string faults now id p name target uid gid
  | DeleteNode now id => delete_node to_string faults now id
  | RenameNode now id p name => rename_node to_string faults now id p name
  | PublishNode now id p name => publish_node to_string faults now id p name
  | UpdateNodeAttr now id mode uid gid size mtime atime => update_node_attr to_string faults now id mode uid gid size mtime atime
  | CreateStagingVersion vid now nid base cs => create_staging_version to_string faults vid now nid base cs
  | FindOpenStagingVersion nid => find_open_staging_version to_string faults nid
  | TouchStagingVersion now vid size => touch_staging_version to_string faults now vid size
  | ReconcileNodeSizes => void (reconcile_node_sizes to_string faults)
  | GetVersion id => get_version to_string faults id
  | CommitVersion now g size hash => commit_version to_string faults now g size hash
  | AttachChunk v i off size hash o => attach_chunk to_string faults v i off size hash o
  | CopyChunkRange from_v to_v first last => void (copy_chunk_range to_string faults from_v to_v first last)
  | GetChunks v => get_chunks to_string faults v
  | GetChunkRange v first last => get_chunk_range to_string faults v first last
  | PutObjectLocator now l => put_object_locator to_string faults now l
  | GetObjectLocator id => get_object_locator to_string faults id
  | TouchObjectUrl id url => touch_object_url to_string faults id url
  | DeleteObjectLocator id => delete_object_locator to_string faults id
  end.

Definition mem {A} (m : Method A) : MemoryRepo.Repo -> result RepositoryError A * MemoryRepo.Repo :=
  match m in Method A return MemoryRepo.Repo -> result RepositoryError A * MemoryRepo.Repo with
  | GetNode id => fun r => (MemoryRepo.get_node id r, r)
  | FindChild p name => fun r => (MemoryRepo.find_child p name r, r)
  | CreateNode now id p name kind mode uid gid => MemoryRepo.create_node now id p name kind mode uid gid
  | CreateSymlink now id p name target uid gid => MemoryRepo.create_symlink now id p name target uid gid
  | DeleteNode _ id => MemoryRepo.delete_node id
  | RenameNode now id p name => MemoryRepo.rename_node now id p name
  | PublishNode now id p name => MemoryRepo.publish_node now id p name
  | UpdateNodeAttr now id mode uid gid size mtime atime => MemoryRepo.update_node_attr now id mode uid gid size mtime atime
  | CreateStagingVersion vid now nid base cs => MemoryRepo.create_staging_version vid now nid base cs
  | FindOpenStagingVersion nid => fun r => (MemoryRepo.find_open_staging_version nid r, r)
  | TouchStagingVersion now vid size => MemoryRepo.touch_staging_version now vid size
  | ReconcileNodeSizes => fun r => (Ok tt, (MemoryRepo.reconcile_node_sizes r).2)
  | GetVersion id => fun r => (MemoryRepo.get_version id r, r)
  | CommitVersion now g size hash => MemoryRepo.commit_version now g size hash
  | AttachChunk v i off size hash o => MemoryRepo.attach_chunk v i off size hash o
  | CopyChunkRange from_v to_v first last => fun r =>
      let '(res, r') := MemoryRepo.copy_chunk_range from_v to_v first last r in ((fun _ => tt) <$> res, r')
  | GetChunks v => fun r => (MemoryRepo.get_chunks v r, r)
  | GetChunkRange v first last => fun r => (MemoryRepo.get_chunk_range v first last r, r)
  | PutObjectLocator _ l => MemoryRepo.put_object_locator l
  | GetObjectLocator id => fun r => (MemoryRepo.get_object_locator id r, r)
  | TouchObjectUrl id url => MemoryRepo.touch_object_url id url
  | DeleteObjectLocator id => MemoryRepo.delete_object_locator id
  end.

(** How the handlers call them: with versions that they have just read, one open version
    a node, a version to commit that is not published yet, locators that no one has
    marked deleted. *)
Definition applicable {A} (m : Method A) (d : Db) : Prop :=
  match m with
  | CreateStagingVersion _ _ nid _ _ => forall n, live_node d nid = Some n -> - 2 ^ 63 <= n_generation n
  | FindOpenStagingVersion nid => forall v1 v2 k1 k2, file_versions d !! k1 = Some v1 -> file_versions d !! k2 = Some v2 ->
      v_node_id v1 = nid -> v_node_id v2 = nid -> is_staging v1 = true -> is_staging v2 = true -> v1 = v2
  | CommitVersion _ g _ _ => forall n, live_node d (g_node_id g) = Some n -> n_current_version_id n <> Some (g_version_id g)
  | CopyChunkRange _ to_v _ _ => is_Some (file_versions d !! to_v)
  | GetChunkRange v _ _ => is_Some (file_versions d !! v)
  | PutObjectLocator _ l => forall row, stored_objects d !! l_object_id l = Some row -> o_deleted_at row = None
  | _ => True
  end.


End Methods.
End PgRefines.
