(* ===== verification/PostgresQueries.v ===== *)
(** * The PostgreSQL repository: listings and the collector

    Proofs about the queries of [Postgres] that the in-memory repository answers in
    another way: the listing of a directory, which is ordered, and the search of the
    garbage collector, which also finds objects no chunk was ever attached for. *)
From S2P Require Import Prelude Repository Retry Postgres PostgresFacts PostgresProps.

Module PgQueries.
Import Records PgRetry Pg PgFacts PgRefines.

Section Listing.
Context `{HashOrder} (to_string : SqlxError -> string).
Implicit Types (d : Db).

Lemma bytes_le_total a b : bytes_le a b = true \/ bytes_le b a = true.
Proof.
  revert b. induction a as [|x a IH]; intros [|y b]; simpl; try by (left + right). destruct (IH b) as [->| ->];
    destruct (Z.ltb_spec (byte_to_Z x) (byte_to_Z y)), (Z.ltb_spec (byte_to_Z y) (byte_to_Z x)),
      (Z.eqb_spec (byte_to_Z x) (byte_to_Z y)), (Z.eqb_spec (byte_to_Z y) (byte_to_Z x)); simpl; auto; lia.
Qed.
Lemma bytes_le_trans a b c : bytes_le a b = true -> bytes_le b c = true -> bytes_le a c = true.
Proof.
  revert b c. induction a as [|x a IH]; intros [|y b] [|z c]; simpl; try done.
  rewrite !orb_true_iff, !andb_true_iff, !Z.ltb_lt, !Z.eqb_eq. intros [?|[? ?]] [?|[? ?]]; [left; lia..|right].
  split; [lia|by apply (IH b)].
Qed.
Lemma bytes_le_antisym a b : bytes_le a b = true -> bytes_le b a = true -> a = b.
Proof.
  revert b. induction a as [|x a IH]; intros [|y b]; simpl; try done.
  rewrite !orb_true_iff, !andb_true_iff, !Z.ltb_lt, !Z.eqb_eq. intros [?|[Hxy ?]] [?|[? ?]]; try lia.
  apply byte_to_Z_inj in Hxy as ->. f_equal. by apply IH.
Qed.
#[local] Instance by_name_total : Total by_name.
Proof. intros a b. apply bytes_le_total. Qed.
#[local] Instance by_name_trans : Transitive by_name.
Proof. intros a b c. apply bytes_le_trans. Qed.

(** Strictly before, in the order of names. *)
Definition precedes (a b : NodeRecord) : Prop := bytes_le (n_name a) (n_name b) = true /\ n_name a <> n_name b.

Lemma elem_listing d p n : n ∈ listing p d <-> n ∈ live_rows d /\ n_parent_id n = Some p.
Proof.
  unfold listing. rewrite merge_sort_Permutation, list_elem_of_filter. unfold MemoryRepo.is_in. rewrite bool_decide_eq_true. naive_solver.
Qed.
Lemma live_rows_NoDup d : constraints d -> NoDup (live_rows d).
Proof.
  intros Hd. unfold live_rows, hm_values. apply (NoDup_fmap_1 n_id). rewrite <-list_fmap_compose.
  assert (Hperm : NoDup ((hm_iter (nodes d)).*1)) by (rewrite hm_iter_perm; apply NoDup_fst_map_to_list).
  assert (Hin : forall k r, (k, r) ∈ hm_iter (nodes d) -> n_id (node r) = k) by (intros k r Hr%elem_of_hm_iter; by apply (k_node_id _ Hd)).
  induction (hm_iter (nodes d)) as [|[k r] l IH]; simpl in *; [constructor|]. apply NoDup_cons in Hperm as [Hk Hl].
  specialize (IH Hl ltac:(intros; apply Hin; by right)). rewrite filter_cons. case_decide; [|done]. simpl. constructor; [|done].
  rewrite (Hin k r) by set_solver. intros (r' & Hr' & [_ Hm]%list_elem_of_filter)%list_elem_of_fmap.
  apply list_elem_of_fmap in Hm as ([k' r''] & -> & Hm). simpl in *. apply Hk, list_elem_of_fmap. exists (k', r''). split; [|done]. simpl.
  rewrite <-(Hin k' r'') by (by right). done.
Qed.
Lemma listing_sorted d p : constraints d -> StronglySorted precedes (listing p d).
Proof.
  intros Hd. assert (Hnd : NoDup (listing p d)) by (unfold listing; rewrite merge_sort_Permutation; by apply NoDup_filter, live_rows_NoDup).
  assert (Hall : forall n, n ∈ listing p d -> n ∈ live_rows d /\ n_parent_id n = Some p) by (intros n; apply elem_listing).
  assert (Hs : StronglySorted by_name (listing p d)) by refine (StronglySorted_merge_sort by_name _). clear -Hs Hnd Hall Hd.
  induction Hs as [|n l Hs IH Hn]; [constructor|]. apply NoDup_cons in Hnd as [Hnot Hnd]. constructor; [apply IH; [done|]; set_solver|].
  rewrite Forall_forall in *. intros m Hm. split; [by apply Hn|]. intros Heq. apply Hnot.
  destruct (Hall n ltac:(set_solver)) as [Hn1 Hn2], (Hall m ltac:(set_solver)) as [Hm1 Hm2].
  assert (n = m) as ->; [|done]. apply (entry_unique d p (n_name n)); try done; unfold MemoryRepo.is_child; rewrite !bool_decide_true; done.
Qed.

(** The pages a client reads, one after the other. *)
Definition pages (limit : Z) (p : Uuid) (count : nat) (s : Conn) : list NodeRecord :=
  concat ((fun k => match list_children to_string no_faults p limit (limit * Z.of_nat k) s with (Ok l, _) => l | (Err _, _) => [] end) <$> seq 0 count).
Lemma pages_take {A} (l : list A) limit count : 0 < limit ->
  concat ((fun k => ztake limit (zdrop (limit * Z.of_nat k) l)) <$> seq 0 count) = take (Z.to_nat limit * count) l.
Proof.
  intros Hlim. induction count as [|count IH]; [by rewrite Nat.mul_0_r|].
  rewrite seq_S, fmap_app, concat_app, IH. simpl. rewrite app_nil_r, ztake_take, zdrop_drop.
  replace (Z.to_nat (limit * Z.of_nat count)) with (Z.to_nat limit * count)%nat by lia.
  rewrite take_take_drop. f_equal. lia.
Qed.

(** A directory is listed whole and in order. The pages a client asks for, one after
    the other, put together, are the live entries of the directory: every one of them,
    none twice, in the order of the bytes of their names, once there are as many pages
    as it takes. *)
Theorem listing_is_complete limit p count s :
  constraints (db s) -> 0 < limit -> len (listing p (db s)) <= limit * Z.of_nat count ->
  StronglySorted precedes (pages limit p count s) /\
  forall n, n ∈ pages limit p count s <-> live_node (db s) (n_id n) = Some n /\ n_parent_id n = Some p.
Proof.
  intros Hd Hlim Hlen. assert (E : pages limit p count s = listing p (db s)).
  { unfold pages. etransitivity; [exact (pages_take (listing p (db s)) limit count Hlim)|]. apply take_ge. unfold len in Hlen. lia. }
  rewrite E. split; [by apply listing_sorted|]. intros n. rewrite elem_listing. split.
  - intros [Hn Hp]. split; [by apply live_row_id|done].
  - intros [Hn Hp]. split; [|done]. apply elem_live_rows. by exists (n_id n).
Qed.

End Listing.

(** ** The collector *)

Section Collector.
Context `{HashOrder} (to_string : SqlxError -> string) (faults : nat -> option Fault).
Implicit Types (d : Db).

Lemma elem_distinct l o : o ∈ distinct l <-> o ∈ l.
Proof.
  unfold distinct. rewrite list_elem_of_fmap. split.
  - intros ([x []] & -> & Hx%elem_of_hm_iter). apply elem_of_list_to_map_2 in Hx.
    apply list_elem_of_fmap in Hx as (y & [= ->] & Hy). done.
  - intros Ho. exists (o, tt). split; [done|]. apply elem_of_hm_iter, elem_of_list_to_map_1'.
    + by intros [].
    + apply list_elem_of_fmap. by exists o.
Qed.
Lemma elem_ztake {A} n (l : list A) x : x ∈ ztake n l -> x ∈ l.
Proof. rewrite ztake_take. apply subseteq_take. Qed.
Lemma unreferenced d among o v i c :
  referenced d among o = false -> file_chunks d !! (v, i) = Some c -> among v = true -> c_object_id c <> o.
Proof.
  intros Href Hc Ha Ho. apply not_true_iff_false in Href. apply Href, existsb_exists. exists ((v, i), c).
  split; [by apply list_elem_of_In, elem_of_hm_iter|]. simpl. by rewrite bool_decide_true, Ha.
Qed.
(** What is found has no chunk of a live version. *)
Lemma found_unreferenced older d o v i c :
  o ∈ unreachable older d ++ unattached older d -> v ∈ live older d -> file_chunks d !! (v, i) = Some c -> c_object_id c <> o.
Proof.
  intros [Ho|Ho]%elem_of_app Hv Hc.
  - apply list_elem_of_fmap in Ho as (p & -> & [Hp _]%list_elem_of_filter). apply andb_true_iff in Hp as [_ Hp%negb_true_iff].
    by apply (unreferenced d _ _ v i c Hp Hc); apply bool_decide_eq_true.
  - apply list_elem_of_fmap in Ho as (p & -> & [Hp _]%list_elem_of_filter). apply andb_true_iff in Hp as [_ Hp%negb_true_iff].
    by apply (unreferenced d _ _ v i c Hp Hc).
Qed.
Lemma forget_inv o s n s' : forget_object to_string faults o s = (Ok n, s') ->
  file_chunks (db s') = filter (fun p : Uuid * Z * FileChunkRecord => c_object_id p.2 <> o) (file_chunks (db s)) /\
  nodes (db s') = nodes (db s) /\ file_versions (db s') = file_versions (db s) /\ stored_objects (db s') = delete o (stored_objects (db s)).
Proof.
  intros (s1 & s2 & Hs1 & Hrun & ->)%transaction_inv. rewrite <-Hs1. clear Hs1 s. steps Hrun. injection Hrun as <- <-.
  apply run_inv in Ha, Ha0. injection Ha as _ Ha. injection Ha0 as _ Ha0. by rewrite <-Ha0, <-Ha.
Qed.

(** A version is in use: it is the current one of a file that has not been deleted, or it
    is staging and was written since the cutoff. *)
Definition in_use (older : Z) (d : Db) (v : Uuid) : Prop :=
  exists rec, file_versions d !! v = Some rec /\
    ((exists r, nodes d !! v_node_id rec = Some r /\ n_deleted_at r = None /\ n_current_version_id (node r) = Some v) \/
     (v_state rec = "staging"%string /\ older <= v_created_at rec)).
(** An object is garbage: a version that is not in use and was made and published before
    the cutoff has it and none in use does, or no version has it and it was stored
    before. *)
Definition garbage (older : Z) (d : Db) (o : Uuid) : Prop :=
  (exists v i c rec, file_chunks d !! (v, i) = Some c /\ c_object_id c = o /\ file_versions d !! v = Some rec /\
     ~ in_use older d v /\ default (v_created_at rec) (v_committed_at rec) < older /\
     forall v' i' c', file_chunks d !! (v', i') = Some c' -> in_use older d v' -> c_object_id c' <> o) \/
  (exists row, stored_objects d !! o = Some row /\ o_created_at row < older /\
     forall v i c, file_chunks d !! (v, i) = Some c -> c_object_id c <> o).

Lemma elem_live older d v : constraints d -> v ∈ live older d <-> in_use older d v.
Proof.
  intros Hd. unfold live. rewrite elem_of_list_to_set, list_elem_of_fmap. split.
  - intros (rec & -> & [Hl [k Hk]%elem_of_hm_values]%list_elem_of_filter). pose proof (k_version_id _ Hd _ _ Hk) as Hid.
    exists rec. rewrite Hid. split; [done|]. apply orb_true_iff in Hl as [Hc|[Hs%bool_decide_eq_true Ho%Z.leb_le]%andb_true_iff]; [left|by right].
    unfold is_current in Hc. destruct (nodes d !! v_node_id rec) as [r|]; [|done].
    apply andb_true_iff in Hc as [Hl%bool_decide_eq_true Hc%bool_decide_eq_true]. exists r. by rewrite <-Hid.
  - intros (rec & Hrec & Hcase). pose proof (k_version_id _ Hd _ _ Hrec) as Hid. exists rec. split; [done|].
    apply list_elem_of_filter. split; [|apply elem_of_hm_values; by exists v]. apply orb_true_iff. destruct Hcase as [(r & Hr & Hl & Hc)|[Hs Ho]].
    + left. unfold is_current. rewrite Hr. unfold is_live. by rewrite Hid, !bool_decide_true.
    + right. unfold is_staging. rewrite bool_decide_true by done. by apply Z.leb_le.
Qed.

Lemma pg_referenced_spec d among o :
  referenced d among o = true <-> exists v i c, file_chunks d !! (v, i) = Some c /\ among v = true /\ c_object_id c = o.
Proof.
  unfold referenced. rewrite existsb_exists. split.
  - intros ([[v i] c] & Hin%list_elem_of_In%elem_of_hm_iter & [Ho%bool_decide_eq_true Ha]%andb_true_iff). by exists v, i, c.
  - intros (v & i & c & Hc & Ha & Ho). exists ((v, i), c). split; [by apply list_elem_of_In, elem_of_hm_iter|].
    simpl. by rewrite bool_decide_true, Ha.
Qed.

(** The search is for the garbage. *)
Lemma elem_found older d o : constraints d -> o ∈ unreachable older d ++ unattached older d <-> garbage older d o.
Proof.
  intros Hd. rewrite elem_of_app. unfold garbage, unreachable, unattached. f_equiv.
  - rewrite list_elem_of_fmap. split.
    + intros ([[v i] c] & -> & [[Hdead Href%negb_true_iff]%andb_true_iff Hc%elem_of_hm_iter]%list_elem_of_filter). simpl in *.
      unfold dead_since in Hdead. destruct (file_versions d !! v) as [rec|] eqn:Hrec; [|done].
      apply andb_true_iff in Hdead as [Hno%negb_true_iff%bool_decide_eq_false Hold%Z.ltb_lt]. rewrite elem_live in Hno by done.
      exists v, i, c, rec. split_and!; try done. intros v' i' c' Hc' Huse. apply (unreferenced _ _ _ _ _ _ Href Hc').
      by apply bool_decide_eq_true, elem_live.
    + intros (v & i & c & rec & Hc & <- & Hrec & Hno & Hold & Hall). exists ((v, i), c). split; [done|].
      apply list_elem_of_filter. split; [|by apply elem_of_hm_iter]. apply andb_true_iff. split.
      * unfold dead_since. simpl. rewrite Hrec, bool_decide_false by (by rewrite elem_live). by apply Z.ltb_lt.
      * apply negb_true_iff, not_true_iff_false. intros (v' & i' & c' & Hc' & Huse%bool_decide_eq_true & Ho)%pg_referenced_spec.
        apply elem_live in Huse; [|done]. by apply (Hall v' i' c').
  - rewrite list_elem_of_fmap. split.
    + intros ([k row] & -> & [[Hold%Z.ltb_lt Href%negb_true_iff]%andb_true_iff Hr%elem_of_hm_iter]%list_elem_of_filter). simpl in *.
      exists row. split_and!; try done. intros v i c Hc. by apply (unreferenced _ _ _ _ _ _ Href Hc).
    + intros (row & Hr & Hold & Hall). exists (o, row). split; [done|]. apply list_elem_of_filter. split; [|by apply elem_of_hm_iter].
      apply andb_true_iff. split; [by apply Z.ltb_lt|]. apply negb_true_iff, not_true_iff_false.
      intros (v & i & c & Hc & _ & Ho)%pg_referenced_spec. by apply (Hall v i c).
Qed.

(** C14 The collector takes garbage and nothing else. Whatever statements fail, when the
    search of the collector succeeds it gives objects no version in use has: not the
    current version of a file that has not been deleted, nor a version that is being
    written since the cutoff; each is of a version that went out of use before the
    cutoff, or of none and stored before it; and when it gives fewer than it was asked
    for, that is all of the garbage. Forgetting one of them leaves nodes, versions and
    the manifest of every version in use as they were. *)
Theorem collector_spares_live older limit s ids s1 :
  constraints (db s) -> collectable_objects to_string faults older limit s = (Ok ids, s1) ->
  (forall o, o ∈ ids -> garbage older (db s) o) /\
  (len ids < limit -> forall o, garbage older (db s) o -> o ∈ ids) /\
  forall o n s2, o ∈ ids -> forget_object to_string faults o s1 = (Ok n, s2) ->
    nodes (db s2) = nodes (db s) /\ file_versions (db s2) = file_versions (db s) /\
    forall v, in_use older (db s) v -> manifest (db s2) v (fun _ => true) = manifest (db s) v (fun _ => true).
Proof.
  intros Hd Hfind. apply retrying_select_inv in Hfind as [-> H1]. split_and!.
  - intros o Ho. apply elem_found; [done|]. by eapply elem_distinct, elem_ztake.
  - intros Hfew o Ho. rewrite ztake_take in *. unfold len in Hfew. rewrite length_take in Hfew.
    rewrite take_ge by lia. by apply elem_distinct, elem_found.
  - intros o n s2 Ho Hforget. apply elem_ztake in Ho. rewrite elem_distinct in Ho.
    pose proof (forget_keeps to_string faults o s1) as Hd2. rewrite H1 in Hd2. specialize (Hd2 Hd). rewrite Hforget in Hd2. simpl in Hd2.
    apply forget_inv in Hforget as (Hc2 & Hn2 & Hv2 & _). rewrite H1 in *. split; [done|]. split; [done|].
    intros v Hv. apply sorted_ext; [by apply manifest_sorted..|]. intros i. rewrite !chunk_at_manifest by done. rewrite Hc2, map_lookup_filter.
    destruct (file_chunks (db s) !! (v, i)) as [c|] eqn:Hc; simpl; [|done]. rewrite option_guard_True; [done|].
    apply (found_unreferenced older (db s) o v i c); [exact Ho|by apply elem_live|exact Hc].
Qed.

(** What is purged was not in use. Neither purge takes a live node, the published
    version of one, or a version that has chunks or was made or published since the
    cutoff, and no chunk or object goes. *)
Theorem purges_spare_live older s n s1 m s2 :
  constraints (db s) -> purge_empty_dead_versions to_string faults older s = (Ok n, s1) ->
  purge_deleted_nodes to_string faults older s1 = (Ok m, s2) ->
  (forall id r, nodes (db s) !! id = Some r -> is_live r = true -> nodes (db s2) !! id = Some r) /\
  (forall id v, file_versions (db s) !! id = Some v ->
     is_current (db s) v = true \/ (exists i, is_Some (file_chunks (db s) !! (id, i))) \/ older <= default (v_created_at v) (v_committed_at v) ->
     exists base, file_versions (db s2) !! id = Some {| v_id := v_id v; v_node_id := v_node_id v; v_base_version_id := base; v_state := v_state v;
       v_size := v_size v; v_plaintext_hash := v_plaintext_hash v; v_chunk_size := v_chunk_size v; v_created_at := v_created_at v;
       v_committed_at := v_committed_at v |}) /\
  file_chunks (db s2) = file_chunks (db s) /\ stored_objects (db s2) = stored_objects (db s).
Proof.
  intros Hd Hv Hn. apply run_inv in Hv, Hn. injection Hv as _ Hv. injection Hn as _ Hn. rewrite <-Hn, <-Hv. simpl.
  split; [|split; [|done]].
  - intros id r Hr Hl. apply map_lookup_filter_Some. split; [done|]. unfold is_live in Hl. apply bool_decide_eq_true in Hl. simpl. by rewrite Hl.
  - intros id v Hid Hkeep. rewrite lookup_fmap. assert (Hin : id ∉ doomed older (db s)).
    { unfold doomed. rewrite elem_of_list_to_set. intros (w & -> & [Hw Hin]%list_elem_of_filter)%list_elem_of_fmap.
      apply elem_of_hm_values in Hin as [k Hk]. pose proof (k_version_id _ Hd _ _ Hk) as Hkw. rewrite Hkw in *. assert (w = v) as -> by congruence.
      rewrite !andb_true_iff, !negb_true_iff, Z.ltb_lt in Hw. destruct Hw as [[Hold Hcur] Hno]. destruct Hkeep as [Hc|[[i [c Hc]]|?]]; [| |lia].
      - apply not_true_iff_false in Hcur. apply Hcur, existsb_exists. unfold is_current in Hc.
        destruct (nodes (db s) !! v_node_id v) as [r|] eqn:Hr; [|done]. exists r. split; [|by rewrite <-Hkw].
        apply list_elem_of_In, elem_of_hm_values. by exists (v_node_id v).
      - apply not_true_iff_false in Hno. apply Hno, existsb_exists. exists ((k, i), c). split; [by apply list_elem_of_In, elem_of_hm_iter|].
        simpl. by apply bool_decide_eq_true. }
    rewrite (proj2 (map_lookup_filter_Some _ _ _ _) (conj Hid Hin)). simpl. unfold unlink. destruct v as [? ? [b|] ? ? ? ? ? ?]; simpl; [|by eexists].
    case_bool_decide; by eexists.
Qed.

End Collector.
End PgQueries.
