(* ===== verification/PostgresExample.v ===== *)
(** * A small database to evaluate

    The concrete tables the witnesses about [Postgres] run in, and what two servers that
    start together do to an empty database. *)
From Stdlib.Strings Require String.
From S2P Require Import Prelude Repository Retry Postgres PostgresFacts PostgresProps PostgresQueries.

Module PgExample.
Import Records PgRetry Pg PgFacts PgRefines PgQueries.

Definition to_string (e : SqlxError) : string := "error"%string.
(** The fourth statement is lost. *)
Definition faults (n : nat) : option Fault := if decide (n = 4)%nat then Some (Lost (Database None "gone")) else None.
Definition empty : Conn :=
  {| db := {| nodes := ∅; file_versions := ∅; file_chunks := ∅; stored_objects := ∅; sessions := ∅ |}; sent := 0 |}.
Definition root : Uuid := 1.
Definition file : Uuid := 2.
Definition version : Uuid := 3.
Definition next : Uuid := 4.
Definition locator (id : Uuid) : ObjectLocatorRecord :=
  {| l_object_id := id; l_backend := "memory"; l_message_id := "m"; l_attachment_id := "a"; l_url := "u"; l_size := 44 |}.
Definition guard : CommitGuard :=
  {| g_node_id := file; g_version_id := version; g_expected_generation := 1; g_expected_current_version := None |}.
(** A file is written and published; a second version of it is begun; an object of a
    write that was given up stays behind. *)
Definition history : list Op := [
  EnsureRoot root 10; PgFacts.CreateNode 10 file root [x61] "file" 420 0 0;
  PgFacts.CreateStagingVersion version 11 file None 4; PgFacts.PutObjectLocator 11 (locator 7);
  PgFacts.AttachChunk version 0 0 4 "h" 7; PgFacts.CommitVersion 12 guard 4 "h";
  PgFacts.CreateStagingVersion next 13 file (Some version) 4; PgFacts.PutObjectLocator 13 (locator 8)].
Definition stored (f : nat -> option Fault) : Conn := foldl (fun s op => (exec to_string f op s).2) empty history.

Lemma stored_ok f : constraints (db (stored f)).
Proof. apply history_keeps, empty_constraints. Qed.

Lemma schema_always_holds_witness : constraints (db empty) /\
  constraints (db (foldl (fun s op => (exec to_string faults op s).2) empty history)).
Proof. split; [apply empty_constraints|apply schema_always_holds, empty_constraints]. Defined.

(** The database holds the file, its version and its chunk. *)
Example stored_manifest : c_object_id <$> manifest (db (stored no_faults)) version (fun _ => true) = [7%N].
Proof. reflexivity. Qed.


Lemma listing_is_complete_witness :
  StronglySorted precedes (pages to_string 1 root 2 (stored no_faults)) /\
  forall n, n ∈ pages to_string 1 root 2 (stored no_faults) <->
    live_node (db (stored no_faults)) (n_id n) = Some n /\ n_parent_id n = Some root.
Proof. apply (listing_is_complete to_string 1 root 2 (stored no_faults)); [apply stored_ok|lia|vm_compute; discriminate]. Defined.

(** The object of the write that was given up is collected, the file's is not. *)
Lemma collector_spares_live_witness : exists ids s1,
  collectable_objects to_string no_faults 20 10 (stored no_faults) = (Ok ids, s1) /\ ids = [8%N] /\
  garbage 20 (db (stored no_faults)) 8%N /\ ~ garbage 20 (db (stored no_faults)) 7%N.
Proof.
  assert (Hrun : exists s1, collectable_objects to_string no_faults 20 10 (stored no_faults) = (Ok [8%N], s1)) by (eexists; reflexivity).
  destruct Hrun as [s1 Hrun]. exists [8%N], s1. split; [exact Hrun|]. split; [reflexivity|].
  destruct (collector_spares_live to_string no_faults 20 10 (stored no_faults) [8%N] s1 (stored_ok _) Hrun) as (Hgiven & Hall & _).
  split; [apply Hgiven; by apply list_elem_of_singleton|].
  intros Hg. apply Hall, list_elem_of_singleton in Hg; [discriminate Hg|vm_compute; reflexivity].
Defined.

Lemma purges_spare_live_witness : exists n s1 m s2,
  purge_empty_dead_versions to_string no_faults 20 (stored no_faults) = (Ok n, s1) /\ n = 1 /\
  purge_deleted_nodes to_string no_faults 20 s1 = (Ok m, s2) /\
  file_chunks (db s2) = file_chunks (db (stored no_faults)).
Proof.
  do 4 eexists. split; [reflexivity|]. split; [reflexivity|]. split; [reflexivity|].
  eapply (purges_spare_live to_string no_faults 20 (stored no_faults)); [apply stored_ok|reflexivity|reflexivity].
Defined.

(** ** Two servers start on an empty database *)

(** Both have looked for a root and found none; both insert one. Nothing conflicts: the
    parent of a root is null. *)
Lemma racing_roots : exists s1 s2,
  run to_string no_faults (select find_root) empty = (Ok None, {| db := db empty; sent := 1 |}) /\
  run to_string no_faults (insert_or_nothing (root_row 1 10)) empty = (Ok tt, s1) /\
  run to_string no_faults (insert_or_nothing (root_row 2 10)) s1 = (Ok tt, s2) /\
  length (filter (fun n => n_parent_id n = None) (live_rows (db s2))) = 2%nat.
Proof. do 2 eexists. repeat (split; [reflexivity|]). reflexivity. Qed.
(** [attach_chunk] for a version that is not there. *)
Lemma unknown_version_is_a_database_error :
  (exists m, (attach_chunk to_string no_faults 99 0 0 4 "h" 7 empty).1 = Err (Fail (Records.Database m))) /\
  (MemoryRepo.attach_chunk 99 0 0 4 "h" 7 (MemoryRepo.new root 0)).1 = Err NotFound.
Proof. split; [eexists; reflexivity|reflexivity]. Qed.

End PgExample.
