(* ===== verification/Contract.v ===== *)
(** * The repository as the handlers know it

    Models the trait [MetadataRepository] of [src/crates/dcfs-db/src/repository.rs] (module
    [Contract]): its methods as a class with the in-memory and the PostgreSQL repository as
    instances, what the methods that work on the tree of nodes promise ([RepositoryLaws]), and
    a client that relies on nothing else. A method takes the time and the identifiers its
    implementation draws. [lock_node] and [try_lock_gc] hand out guards: see [PgLocks]. *)
From S2P Require Import Prelude Crypto ObjectStore Repository Retry Postgres PostgresFacts PostgresProps.

Module Contract.
Import Records.

Definition call (S A : Type) : Type := S -> result (fault RepositoryError) A * S.
#[global] Instance call_ret {S} : MRet (call S) := fun A a s => (Ok a, s).
#[global] Instance call_bind {S} : MBind (call S) := fun A B f m s =>
  match m s with (Ok a, s') => f a s' | (Err e, s') => (Err e, s') end.

(** The trait in three parts, as its comments divide it: nodes, versions with their chunks, and
    what is kept about objects and sessions. *)
Class NodeMethods (S : Type) : Type := {
  get_node (id : Uuid) : call S NodeRecord;
  get_root : call S NodeRecord;
  list_children (parent_id : Uuid) (limit offset : Z) : call S (list NodeRecord);
  find_child (parent_id : Uuid) (name : bytes) : call S NodeRecord;
  create_node (now : Z) (id parent_id : Uuid) (name : bytes) (kind : string) (mode uid gid : Z) : call S NodeRecord;
  create_symlink (now : Z) (id parent_id : Uuid) (name target : bytes) (uid gid : Z) : call S NodeRecord;
  delete_node (now : Z) (id : Uuid) : call S unit;
  rename_node (now : Z) (id new_parent_id : Uuid) (new_name : bytes) : call S unit;
  publish_node (now : Z) (id new_parent_id : Uuid) (new_name : bytes) : call S unit;
  update_node_attr (now : Z) (id : Uuid) (mode uid gid size mtime atime : option Z) : call S NodeRecord;
}.
Class VersionMethods (S : Type) : Type := {
  create_staging_version (version_id : Uuid) (now : Z) (node_id : Uuid) (base_version_id : option Uuid) (chunk_size : Z)
    : call S FileVersionRecord;
  find_open_staging_version (node_id : Uuid) : call S FileVersionRecord;
  touch_staging_version (now : Z) (version_id : Uuid) (size : Z) : call S unit;
  reconcile_node_sizes : call S Z;
  attach_chunk (version_id : Uuid) (chunk_index logical_offset plaintext_size : Z) (plaintext_hash : string) (object_id : Uuid)
    : call S unit;
  get_chunks (version_id : Uuid) : call S (list FileChunkRecord);
  get_chunk_range (version_id : Uuid) (first last : Z) : call S (list FileChunkRecord);
  copy_chunk_range (from_version to_version : Uuid) (first last : Z) : call S Z;
  commit_version (now : Z) (guard : CommitGuard) (total_size : Z) (plaintext_hash : string) : call S FileVersionRecord;
  get_version (id : Uuid) : call S FileVersionRecord;
}.
Class ObjectMethods (S : Type) : Type := {
  put_object_locator (now : Z) (locator : ObjectLocatorRecord) : call S unit;
  get_object_locator (object_id : Uuid) : call S ObjectLocatorRecord;
  touch_object_url (object_id : Uuid) (url : string) : call S unit;
  delete_object_locator (object_id : Uuid) : call S unit;
  create_session (now : Z) (id : Uuid) (token_hash label : string) (expires_at : Z) : call S SessionRecord;
  find_session (now : Z) (token_hash : string) : call S SessionRecord;
  revoke_session (now : Z) (id : Uuid) : call S bool;
  purge_expired_sessions (older_than : Z) : call S Z;
  collectable_objects (older_than limit : Z) : call S (list Uuid);
  forget_object (object_id : Uuid) : call S Z;
  purge_empty_dead_versions (older_than : Z) : call S Z;
  purge_deleted_nodes (older_than : Z) : call S Z;
}.
Class MetadataRepository (S : Type) : Type := {
  node_methods :: NodeMethods S;
  version_methods :: VersionMethods S;
  object_methods :: ObjectMethods S;
}.

(** ** Its implementations *)

Definition lift {A} (r : result RepositoryError A) : result (fault RepositoryError) A :=
  match r with Ok a => Ok a | Err e => Err (Fail e) end.
Definition query {S A} (f : S -> result RepositoryError A) : call S A := fun s => (lift (f s), s).
Definition update {S A} (f : S -> result RepositoryError A * S) : call S A := fun s => (lift (f s).1, (f s).2).

#[global] Instance memory `{HashOrder} : MetadataRepository MemoryRepo.Repo := {|
  node_methods := {|
    get_node id := query (MemoryRepo.get_node id);
    get_root := query MemoryRepo.get_root;
    list_children p limit offset := query (MemoryRepo.list_children p limit offset);
    find_child p name := query (MemoryRepo.find_child p name);
    create_node now id p name kind mode uid gid := update (MemoryRepo.create_node now id p name kind mode uid gid);
    create_symlink now id p name target uid gid := update (MemoryRepo.create_symlink now id p name target uid gid);
    delete_node _ id := update (MemoryRepo.delete_node id);
    rename_node now id p name := update (MemoryRepo.rename_node now id p name);
    publish_node now id p name := update (MemoryRepo.publish_node now id p name);
    update_node_attr now id mode uid gid size mtime atime := update (MemoryRepo.update_node_attr now id mode uid gid size mtime atime);
  |};
  version_methods := {|
    create_staging_version vid now nid base cs := update (MemoryRepo.create_staging_version vid now nid base cs);
    find_open_staging_version nid := query (MemoryRepo.find_open_staging_version nid);
    touch_staging_version now vid size := update (MemoryRepo.touch_staging_version now vid size);
    reconcile_node_sizes := update MemoryRepo.reconcile_node_sizes;
    attach_chunk v i off size hash o := update (MemoryRepo.attach_chunk v i off size hash o);
    get_chunks v := query (MemoryRepo.get_chunks v);
    get_chunk_range v first last := query (MemoryRepo.get_chunk_range v first last);
    copy_chunk_range from_v to_v first last := update (MemoryRepo.copy_chunk_range from_v to_v first last);
    commit_version now g size hash := update (MemoryRepo.commit_version now g size hash);
    get_version id := query (MemoryRepo.get_version id);
  |};
  object_methods := {|
    put_object_locator _ l := update (MemoryRepo.put_object_locator l);
    get_object_locator o := query (MemoryRepo.get_object_locator o);
    touch_object_url o url := update (MemoryRepo.touch_object_url o url);
    delete_object_locator o := update (MemoryRepo.delete_object_locator o);
    create_session now id hash label expires := update (MemoryRepo.create_session now id hash label expires);
    find_session now hash := query (MemoryRepo.find_session now hash);
    revoke_session _ id := update (MemoryRepo.revoke_session id);
    purge_expired_sessions older := update (MemoryRepo.purge_expired_sessions older);
    collectable_objects older limit := query (MemoryRepo.collectable_objects older limit);
    forget_object o := update (MemoryRepo.forget_object o);
    purge_empty_dead_versions older := update (MemoryRepo.purge_empty_dead_versions older);
    purge_deleted_nodes older := update (MemoryRepo.purge_deleted_nodes older);
  |};
|}.

(** The same against a database that may refuse statements or lose their answers. *)
Definition postgres `{HashOrder} (to_string : PgRetry.SqlxError -> string) (faults : nat -> option Pg.Fault)
    : MetadataRepository Pg.Conn := {|
  node_methods := {|
    get_node := Pg.get_node to_string faults;
    get_root := Pg.get_root to_string faults;
    list_children := Pg.list_children to_string faults;
    find_child := Pg.find_child to_string faults;
    create_node := Pg.create_node to_string faults;
    create_symlink := Pg.create_symlink to_string faults;
    delete_node := Pg.delete_node to_string faults;
    rename_node := Pg.rename_node to_string faults;
    publish_node := Pg.publish_node to_string faults;
    update_node_attr := Pg.update_node_attr to_string faults;
  |};
  version_methods := {|
    create_staging_version := Pg.create_staging_version to_string faults;
    find_open_staging_version := Pg.find_open_staging_version to_string faults;
    touch_staging_version := Pg.touch_staging_version to_string faults;
    reconcile_node_sizes := Pg.reconcile_node_sizes to_string faults;
    attach_chunk := Pg.attach_chunk to_string faults;
    get_chunks := Pg.get_chunks to_string faults;
    get_chunk_range := Pg.get_chunk_range to_string faults;
    copy_chunk_range := Pg.copy_chunk_range to_string faults;
    commit_version := Pg.commit_version to_string faults;
    get_version := Pg.get_version to_string faults;
  |};
  object_methods := {|
    put_object_locator := Pg.put_object_locator to_string faults;
    get_object_locator := Pg.get_object_locator to_string faults;
    touch_object_url := Pg.touch_object_url to_string faults;
    delete_object_locator := Pg.delete_object_locator to_string faults;
    create_session := Pg.create_session to_string faults;
    find_session := Pg.find_session to_string faults;
    revoke_session := Pg.revoke_session to_string faults;
    purge_expired_sessions := Pg.purge_expired_sessions to_string faults;
    collectable_objects := Pg.collectable_objects to_string faults;
    forget_object := Pg.forget_object to_string faults;
    purge_empty_dead_versions := Pg.purge_empty_dead_versions to_string faults;
    purge_deleted_nodes := Pg.purge_deleted_nodes to_string faults;
  |};
|}.

(** ** What they promise *)

(** The methods that read and change the tree. *)
Inductive Call : Type -> Type :=
| GetNode (id : Uuid) : Call NodeRecord
| FindChild (parent : Uuid) (name : bytes) : Call NodeRecord
| CreateNode (now : Z) (id parent : Uuid) (name : bytes) (kind : string) (mode uid gid : Z) : Call NodeRecord
| CreateSymlink (now : Z) (id parent : Uuid) (name target : bytes) (uid gid : Z) : Call NodeRecord
| DeleteNode (now : Z) (id : Uuid) : Call unit
| RenameNode (now : Z) (id new_parent : Uuid) (new_name : bytes) : Call unit
| PublishNode (now : Z) (id new_parent : Uuid) (new_name : bytes) : Call unit
| UpdateNodeAttr (now : Z) (id : Uuid) (mode uid gid size mtime atime : option Z) : Call NodeRecord
| CreateStagingVersion (version_id : Uuid) (now : Z) (node_id : Uuid) (base : option Uuid) (chunk_size : Z) : Call FileVersionRecord
| CommitVersion (now : Z) (guard : CommitGuard) (total_size : Z) (hash : string) : Call FileVersionRecord.

Definition perform {S} `{MetadataRepository S} {A} (c : Call A) : call S A :=
  match c in Call A return call S A with
  | GetNode id => get_node id
  | FindChild p name => find_child p name
  | CreateNode now id p name kind mode uid gid => create_node now id p name kind mode uid gid
  | CreateSymlink now id p name target uid gid => create_symlink now id p name target uid gid
  | DeleteNode now id => delete_node now id
  | RenameNode now id p name => rename_node now id p name
  | PublishNode now id p name => publish_node now id p name
  | UpdateNodeAttr now id mode uid gid size mtime atime => update_node_attr now id mode uid gid size mtime atime
  | CreateStagingVersion vid now nid base cs => create_staging_version vid now nid base cs
  | CommitVersion now g size hash => commit_version now g size hash
  end.

(** The nodes there are, without the times they were changed at. *)
Abbreviation Tree := (gmap Uuid NodeRecord).
Definition untimed : NodeRecord -> NodeRecord := PgRefines.untimed.
Definition at_place (p : Uuid) (name : bytes) (n : NodeRecord) : Prop := n_parent_id n = Some p /\ n_name n = name.
(** Nothing but [id] is there. *)
Definition free (t : Tree) (id p : Uuid) (name : bytes) : Prop :=
  forall k n, t !! k = Some n -> k <> id -> ~ at_place p name n.
(** Nodes under their identifiers, and no two of a directory with one name. *)
Record tidy (t : Tree) : Prop := {
  tidy_id : forall k n, t !! k = Some n -> n_id n = k;
  tidy_name : forall k1 k2 n1 n2 p name, t !! k1 = Some n1 -> t !! k2 = Some n2 -> at_place p name n1 -> at_place p name n2 -> k1 = k2;
}.

(** How a client calls: it creates a node under a name that it looked for and did not find, and
    commits a version that is not published yet. *)
Definition fits {A} (c : Call A) (t : Tree) : Prop :=
  match c with
  | CreateNode _ id p name _ _ _ _ => free t id p name
  | CreateStagingVersion _ _ nid _ _ => forall n, t !! nid = Some n -> - 2 ^ 63 <= n_generation n
  | CommitVersion _ g _ _ => forall n, t !! g_node_id g = Some n -> n_current_version_id n <> Some (g_version_id g)
  | _ => True
  end.

(** What a call that succeeds has answered and done. *)
Definition effect {A} (c : Call A) (t : Tree) : A -> Tree -> Prop :=
  match c in Call A return A -> Tree -> Prop with
  | GetNode id => fun n t' => t' = t /\ t !! id = Some (untimed n)
  | FindChild p name => fun n t' => t' = t /\ at_place p name n /\ t !! n_id n = Some (untimed n)
  | CreateNode now id p name kind mode uid gid => fun n t' =>
      t !! id = None /\ t' = <[id := untimed n]> t /\ n_id n = id /\ at_place p name n /\ n_kind n = kind /\ n_size n = 0 /\
      n_current_version_id n = None /\ n_generation n = 0 /\ n_mode n = mode /\ n_uid n = uid /\ n_gid n = gid /\ n_link_target n = None
  | CreateSymlink now id p name target uid gid => fun n t' =>
      t !! id = None /\ free t id p name /\ t' = <[id := untimed n]> t /\ n_id n = id /\ at_place p name n /\
      n_kind n = "symlink"%string /\ n_link_target n = Some target /\ n_uid n = uid /\ n_gid n = gid /\
      n_current_version_id n = None /\ n_generation n = 0
  | DeleteNode _ id => fun _ t' => is_Some (t !! id) /\ t' = delete id t
  | RenameNode _ id p name => fun _ t' => exists n, t !! id = Some n /\ t' !! id = Some (untimed (set_place (Some p) name 0 n)) /\
      forall k, k <> id ->
        (forall m, t !! k = Some m -> at_place p name m ->
           t' !! k = None /\ (n_kind m = "directory"%string -> forall j i, t !! j = Some i -> n_parent_id i <> Some k)) /\
        ((forall m, t !! k = Some m -> ~ at_place p name m) -> t' !! k = t !! k)
  | PublishNode _ id p name => fun _ t' => free t id p name /\
      exists n, t !! id = Some n /\ t' = <[id := untimed (set_place (Some p) name 0 n)]> t
  | UpdateNodeAttr now id mode uid gid size mtime atime => fun n t' =>
      exists n0, t !! id = Some n0 /\ untimed n = untimed (set_attr mode uid gid size mtime atime now n0) /\ t' = <[id := untimed n]> t
  | CreateStagingVersion vid _ nid base cs => fun v t' => v_id v = vid /\ v_node_id v = nid /\
      exists n, t !! nid = Some n /\
        t' = <[nid := set_content (n_current_version_id n) (i64 (n_generation n + 1)) (n_size n) n]> t
  | CommitVersion _ g size hash => fun v t' => exists n, t !! g_node_id g = Some n /\
      n_generation n = g_expected_generation g /\ n_current_version_id n = g_expected_current_version g /\
      t' = <[g_node_id g := set_content (Some (g_version_id g)) (n_generation n) size n]> t
  end.

Class RepositoryLaws (S : Type) `{MetadataRepository S} : Type := {
  tree : S -> Tree;
  inv : S -> Prop;
  inv_tidy : forall s, inv s -> tidy (tree s);
  (** A call that reports an error has done nothing, or all of it and its answer was lost. *)
  call_law : forall A (c : Call A) s, inv s -> fits c (tree s) ->
    inv (perform c s).2 /\
    match (perform c s).1 with
    | Ok v => effect c (tree s) v (tree (perform c s).2)
    | Err _ => tree (perform c s).2 = tree s \/ exists v, effect c (tree s) v (tree (perform c s).2)
    end;
}.

End Contract.
