(* ===== verification/ContractProps.v ===== *)
(** * Both repositories keep the contract

    The laws of [Contract] for the in-memory repository and for the PostgreSQL one, and a rename
    in a database that loses an answer ([ContractExample]). *)
From S2P Require Import Prelude Crypto ObjectStore Repository Retry Postgres PostgresFacts PostgresProps PostgresQueries PostgresExample Contract.

Module ContractFacts.
Import Records Contract.

(** ** The tree stays tidy *)

Lemma tidy_put t id n : tidy t -> n_id n = id -> (forall p, n_parent_id n = Some p -> free t id p (n_name n)) -> tidy (<[id := n]> t).
Proof.
  intros Ht Hid Hf. split.
  - intros k m. rewrite lookup_insert. case_decide; [by intros [= <-]; subst|]. by apply tidy_id.
  - intros k1 k2 n1 n2 p name. rewrite !lookup_insert. do 2 case_decide; intros H1 H2 Hp1 Hp2; try congruence.
    + injection H1 as <-. destruct Hp1 as [Hp1 <-]. destruct (Hf p Hp1 k2 n2 H2); [done|exact Hp2].
    + injection H2 as <-. destruct Hp2 as [Hp2 <-]. destruct (Hf p Hp2 k1 n1 H1); [done|exact Hp1].
    + by eapply tidy_name.
Qed.
(** A node that stays where it is. *)
Lemma tidy_stay t id n m : tidy t -> t !! id = Some n -> n_id m = n_id n -> n_parent_id m = n_parent_id n -> n_name m = n_name n ->
  tidy (<[id := m]> t).
Proof.
  intros Ht Hn Hi Hp Hna. apply tidy_put; [done|by rewrite Hi; apply (tidy_id t)|]. intros p Hpar k m' Hk Hne Hat.
  apply Hne. eapply (tidy_name t Ht k id m' n p (n_name n)); [done|done|by rewrite <-Hna|]. split; [congruence|done].
Qed.
Lemma tidy_subset t t' : tidy t -> (forall k n, t' !! k = Some n -> t !! k = Some n) -> tidy t'.
Proof. intros Ht Hs. split; [intros k n Hk|intros k1 k2 n1 n2 p name Hk1 Hk2]; [by apply (tidy_id t), Hs|]. eapply (tidy_name t); eauto. Qed.

Lemma effect_tidy {A} (c : Call A) t v t' : tidy t -> fits c t -> effect c t v t' -> tidy t'.
Proof.
  intros Ht Hf. destruct c; simpl.
  - by intros [-> _].
  - by intros [-> _].
  - intros (_ & -> & Hi & [Hp Hn] & _). apply tidy_put; [done|done|]. intros p Hp'. simpl in *. by simplify_eq.
  - intros (_ & Hfree & -> & Hi & [Hp Hn] & _). apply tidy_put; [done|done|]. intros p Hp'. simpl in *. by simplify_eq.
  - intros [_ ->]. apply (tidy_subset t); [done|]. intros k n Hk. by apply lookup_delete_Some in Hk as [_ ?].
  - intros (n & Hn & Hn' & Hrest).
    assert (Hother : forall k m, k <> id -> t' !! k = Some m -> t !! k = Some m /\ ~ at_place new_parent new_name m).
    { intros k m Hk Hm. destruct (Hrest k Hk) as [Hgone Hsame].
      assert (Hno : forall m, t !! k = Some m -> ~ at_place new_parent new_name m).
      { intros m' Hm' Hat. destruct (Hgone m' Hm' Hat) as [Hnone _]. congruence. }
      rewrite (Hsame Hno) in Hm. auto. }
    assert (Hdel : tidy (delete id t')).
    { apply (tidy_subset t); [done|]. intros k m [Hk Hm]%lookup_delete_Some. by apply Hother. }
    rewrite <-(insert_id t' id _ Hn'), <-insert_delete_eq. apply tidy_put; [done|exact (tidy_id t Ht id n Hn)|].
    intros p [= <-] k m [Hk Hm]%lookup_delete_Some _. exact (proj2 (Hother k m (not_eq_sym Hk) Hm)).
  - intros (Hfree & n & Hn & ->). apply tidy_put; [done|exact (tidy_id t Ht id n Hn)|]. by intros p [= <-].
  - intros (n0 & Hn0 & Hn & ->). rewrite Hn. by apply (tidy_stay t id n0).
  - intros (_ & _ & n & Hn & ->). by apply (tidy_stay t _ n).
  - intros (n & Hn & _ & _ & ->). by apply (tidy_stay t _ n).
Qed.

(** ** In memory *)

Section Memory.
Context `{HashOrder}.

Definition nodes_of (r : MemoryRepo.Repo) : Tree := untimed <$> MemoryRepo.nodes r.
Definition at_place_b := MemoryRepo.is_child.
Lemma is_child_spec p name n : MemoryRepo.is_child p name n = true <-> at_place p name n.
Proof. unfold MemoryRepo.is_child, at_place. by rewrite andb_true_iff, !bool_decide_eq_true. Qed.
Lemma at_place_untimed p name n : at_place p name (untimed n) <-> at_place p name n.
Proof. done. Qed.
Lemma nodes_of_lookup r id n : nodes_of r !! id = Some n <-> exists m, MemoryRepo.nodes r !! id = Some m /\ n = untimed m.
Proof. unfold nodes_of. rewrite lookup_fmap, fmap_Some. naive_solver. Qed.
Lemma nodes_of_none r id : nodes_of r !! id = None <-> MemoryRepo.nodes r !! id = None.
Proof. unfold nodes_of. by rewrite lookup_fmap, fmap_None. Qed.
Lemma nodes_of_put r id n : nodes_of (MemoryRepo.with_nodes r (<[id := n]> (MemoryRepo.nodes r))) = <[id := untimed n]> (nodes_of r).
Proof. unfold nodes_of. simpl. by rewrite fmap_insert. Qed.
Lemma nodes_of_drop r id : nodes_of (MemoryRepo.with_nodes r (delete id (MemoryRepo.nodes r))) = delete id (nodes_of r).
Proof. unfold nodes_of. simpl. by rewrite fmap_delete. Qed.

(** Nothing is there when the search finds nothing. *)
Lemma free_search r id p name : tidy (nodes_of r) ->
  (forall m, m ∈ hm_values (MemoryRepo.nodes r) -> n_id m <> id -> MemoryRepo.is_child p name m = false) -> free (nodes_of r) id p name.
Proof.
  intros Ht Hno k n Hk Hne Hat. pose proof (tidy_id _ Ht k n Hk) as Hid. apply nodes_of_lookup in Hk as (m & Hm & ->).
  apply is_child_spec in Hat. change (MemoryRepo.is_child p name m = true) in Hat. rewrite Hno in Hat; [done| |].
  - apply elem_of_hm_values. by exists k.
  - intros Hi. apply Hne. rewrite <-Hid. exact Hi.
Qed.

Lemma victim_found id p name r v : PgRefines.victim_of id p name r = Some v ->
  v ∈ hm_values (MemoryRepo.nodes r) /\ n_id v <> id /\ at_place p name v.
Proof.
  unfold PgRefines.victim_of. intros Hv. assert (Hin : v ∈ filter (fun n => negb (bool_decide (n_id n = id)) && MemoryRepo.is_child p name n = true)
    (hm_values (MemoryRepo.nodes r))) by (destruct (filter _ _); simplify_eq/=; set_solver).
  apply list_elem_of_filter in Hin as [Hc Hin]. rewrite andb_true_iff, negb_true_iff, bool_decide_eq_false, is_child_spec in Hc.
  naive_solver.
Qed.
Lemma no_victim id p name r : tidy (nodes_of r) -> PgRefines.victim_of id p name r = None -> free (nodes_of r) id p name.
Proof.
  unfold PgRefines.victim_of. intros Ht Hv. apply free_search; [done|]. intros m Hm Hne. apply not_true_iff_false. intros Hc.
  assert (Hin : m ∈ filter (fun n => negb (bool_decide (n_id n = id)) && MemoryRepo.is_child p name n = true) (hm_values (MemoryRepo.nodes r))).
  { apply list_elem_of_filter. split; [|done]. by rewrite bool_decide_false, Hc. }
  destruct (filter _ _); [by apply not_elem_of_nil in Hin|done].
Qed.
Lemma untimed_place p name now n : untimed (set_place p name now n) = untimed (set_place p name 0 (untimed n)).
Proof. done. Qed.

Lemma rename_memory now id p name r : tidy (nodes_of r) ->
  match MemoryRepo.rename_node now id p name r with
  | (Err _, r') => r' = r
  | (Ok v, r') => effect (RenameNode now id p name) (nodes_of r) v (nodes_of r')
  end.
Proof.
  intros Ht. rewrite PgRefines.mem_rename_eq. destruct (MemoryRepo.nodes r !! id) as [n|] eqn:Hn; [|done]. cbv zeta.
  assert (Hn' : nodes_of r !! id = Some (untimed n)) by (apply nodes_of_lookup; eauto).
  destruct (PgRefines.victim_of id p name r) as [v|] eqn:Hv.
  - destruct (victim_found _ _ _ _ _ Hv) as (Hin & Hne & Hat). apply elem_of_hm_values in Hin as [k Hk].
    assert (Hk' : nodes_of r !! k = Some (untimed v)) by (apply nodes_of_lookup; eauto).
    assert (n_id v = k) as Hid by exact (tidy_id _ Ht k _ Hk'). rewrite Hid in *.
    destruct (bool_decide (n_kind v = "directory"%string) && existsb _ _) eqn:Hdir; [done|].
    cbn [MemoryRepo.nodes MemoryRepo.with_nodes]. rewrite lookup_delete_ne, Hn by done.
    exists (untimed n). split; [done|]. unfold nodes_of. cbn [MemoryRepo.nodes MemoryRepo.with_nodes].
    rewrite fmap_insert, fmap_delete, lookup_insert_eq. split; [done|].
    intros j Hj. rewrite lookup_insert_ne by done. split.
    + intros m Hm Hmat. assert (j = k) as -> by (by eapply (tidy_name _ Ht)). rewrite lookup_delete_eq. split; [done|].
      intros Hkind i x Hx Hpar. assert (m = untimed v) as -> by (unfold nodes_of in *; congruence).
      rewrite bool_decide_true in Hdir by exact Hkind. apply not_true_iff_false in Hdir. apply Hdir. apply existsb_exists.
      apply nodes_of_lookup in Hx as (x' & Hx & ->). exists x'. split; [apply list_elem_of_In, elem_of_hm_values; eauto|].
      apply bool_decide_eq_true. exact Hpar.
    + intros Hno. assert (j <> k) by (intros ->; by apply (Hno _ Hk')). by rewrite lookup_delete_ne.
  - rewrite Hn. pose proof (no_victim _ _ _ _ Ht Hv) as Hfree. exists (untimed n). split; [done|]. rewrite nodes_of_put, lookup_insert_eq.
    split; [done|]. intros j Hj. rewrite lookup_insert_ne by done. split; [|done]. intros m Hm Hat. by destruct (Hfree j m Hm Hj).
Qed.

Lemma memory_error {A} (c : Call A) r e : tidy (nodes_of r) -> (perform c r).1 = Err e -> nodes_of (perform c r).2 = nodes_of r.
Proof.
  intros Ht. destruct c; simpl; unfold update, query; simpl; try done.
  4: { pose proof (rename_memory now id new_parent new_name r Ht) as Hr. by destruct (MemoryRepo.rename_node _ _ _ _ _) as [[]]; simplify_eq/=. }
  all: unfold MemoryRepo.create_node, MemoryRepo.create_symlink, MemoryRepo.delete_node, MemoryRepo.publish_node,
    MemoryRepo.update_node_attr, MemoryRepo.create_staging_version, MemoryRepo.commit_version; repeat (case_match; simpl; try done).
Qed.

Lemma memory_effect {A} (c : Call A) r v : tidy (nodes_of r) -> (perform c r).1 = Ok v -> effect c (nodes_of r) v (nodes_of (perform c r).2).
Proof.
  intros Ht. destruct c; simpl; unfold update, query; simpl.
  - unfold MemoryRepo.get_node. destruct (_ !! id) eqn:Hn; [|done]. intros [= <-]. split; [done|]. apply nodes_of_lookup. eauto.
  - unfold MemoryRepo.find_child. destruct (head _) as [n|] eqn:Hn; [|done]. intros [= <-]. split; [done|].
    assert (Hin : n ∈ filter (fun n => MemoryRepo.is_child parent name n = true) (hm_values (MemoryRepo.nodes r)))
      by (destruct (filter _ _); simplify_eq/=; set_solver).
    apply list_elem_of_filter in Hin as [Hc [k Hk]%elem_of_hm_values]. split; [by apply is_child_spec|].
    assert (Hk' : nodes_of r !! k = Some (untimed n)) by (apply nodes_of_lookup; eauto). by rewrite (tidy_id _ Ht k _ Hk' : n_id n = k).
  - unfold MemoryRepo.create_node. destruct (_ !! id) eqn:Hn; [done|]. intros [= <-]. cbn [snd]. rewrite nodes_of_put.
    split; [by apply nodes_of_none|]. done.
  - unfold MemoryRepo.create_symlink. destruct (_ !! id) eqn:Hn; [done|]. destruct (existsb _ _) eqn:Hex; [done|]. intros [= <-]. cbn [snd].
    rewrite nodes_of_put. split; [by apply nodes_of_none|]. split; [|done]. apply free_search; [done|]. intros m Hm _.
    apply not_true_iff_false. intros Hc. apply not_true_iff_false in Hex. apply Hex, existsb_exists. exists m. split; [by apply list_elem_of_In|done].
  - unfold MemoryRepo.delete_node. destruct (_ !! id) as [n|] eqn:Hn; [|done]. intros _. cbn [snd]. rewrite nodes_of_drop. split; [|done].
    exists (untimed n). apply nodes_of_lookup. eauto.
  - pose proof (rename_memory now id new_parent new_name r Ht) as Hr. by destruct (MemoryRepo.rename_node _ _ _ _ _) as [[]]; simplify_eq/=.
  - unfold MemoryRepo.publish_node. destruct (_ !! id) as [n|] eqn:Hn; [|done]. destruct (existsb _ _) eqn:Hex; [done|]. intros _. cbn [snd].
    rewrite nodes_of_put. split.
    + apply free_search; [done|]. intros m Hm Hne. apply not_true_iff_false. intros Hc. apply not_true_iff_false in Hex. apply Hex, existsb_exists.
      exists m. split; [by apply list_elem_of_In|]. by rewrite bool_decide_false, Hc.
    + exists (untimed n). split; [apply nodes_of_lookup; eauto|done].
  - unfold MemoryRepo.update_node_attr. destruct (_ !! id) as [n|] eqn:Hn; [|done]. intros [= <-]. cbn [snd]. rewrite nodes_of_put.
    exists (untimed n). split; [apply nodes_of_lookup; eauto|]. split; [|done]. done.
  - unfold MemoryRepo.create_staging_version. destruct (_ !! node_id) as [n|] eqn:Hn; [|done]. intros [= <-]. split; [done|]. split; [done|].
    exists (untimed n). split; [apply nodes_of_lookup; eauto|]. unfold nodes_of. cbn. by rewrite fmap_insert.
  - unfold MemoryRepo.commit_version. destruct (_ !! g_node_id guard) as [n|] eqn:Hn; [|done]. destruct (negb (_ =? _)) eqn:Hg; [done|].
    destruct (negb (bool_decide _)) eqn:Hc; [done|]. destruct (MemoryRepo.versions r !! _); [|done]. destruct (_ !! g_version_id guard); [|done].
    intros _. exists (untimed n). split; [apply nodes_of_lookup; eauto|]. apply negb_false_iff, Z.eqb_eq in Hg.
    apply negb_false_iff, bool_decide_eq_true in Hc. split; [done|]. split; [done|]. unfold nodes_of. cbn. by rewrite fmap_insert.
Qed.

#[global] Instance memory_laws : RepositoryLaws MemoryRepo.Repo.
Proof.
  refine {| tree := nodes_of; inv r := tidy (nodes_of r) |}; [done|]. intros A c r Hr Hf.
  destruct (perform c r).1 as [v|e] eqn:Hres.
  - pose proof (memory_effect c r v Hr Hres) as He. split; [by eapply effect_tidy|done].
  - rewrite (memory_error c r e Hr Hres). auto.
Defined.

End Memory.

(** ** In the database *)

Section Database.
Context `{HashOrder} (to_string : PgRetry.SqlxError -> string) (faults : nat -> option Pg.Fault).

Definition tree_of (d : Pg.Db) : Tree := nodes_of (PgRefines.view 0%N d).
Abbreviation pg := (postgres to_string faults).
Abbreviation pg0 := (postgres to_string PgFacts.no_faults).

Lemma tree_of_lookup d id n : tree_of d !! id = Some n <-> exists m, Pg.live_node d id = Some m /\ n = untimed m.
Proof. unfold tree_of. rewrite nodes_of_lookup. by setoid_rewrite PgRefines.view_node. Qed.
Lemma tree_tidy d : PgFacts.constraints d -> tidy (tree_of d).
Proof.
  intros Hd. split.
  - intros k n (m & Hm & ->)%tree_of_lookup. apply PgRefines.live_node_Some in Hm as (r & Hr & _ & <-). exact (PgFacts.k_node_id d Hd k r Hr).
  - intros k1 k2 n1 n2 p name (m1 & Hm1 & ->)%tree_of_lookup (m2 & Hm2 & ->)%tree_of_lookup [Hp1 Hn1] [Hp2 Hn2].
    apply PgRefines.live_node_Some in Hm1 as (r1 & Hr1 & Hl1 & <-), Hm2 as (r2 & Hr2 & Hl2 & <-). simpl in *.
    eapply (PgFacts.k_name d Hd k1 k2 r1 r2 p); try done. congruence.
Qed.

(** A call that succeeds does to the tree what it does in memory. *)
Lemma pg_simulates {A} (c : Call A) s v s' : PgFacts.constraints (Pg.db s) -> fits c (tree_of (Pg.db s)) ->
  perform (H := pg) c s = (Ok v, s') -> effect c (tree_of (Pg.db s)) v (tree_of (Pg.db s')).
Proof.
  intros Hd Hf Hrun.
  assert (Hmem : exists r, perform (H := memory) c (PgRefines.view 0%N (Pg.db s)) = (Ok v, r) /\ PgRefines.same_repo (PgRefines.view 0%N (Pg.db s')) r).
  { assert (Href : exists m, PgRefines.refines 0%N (perform (H := pg) c) m (Pg.db s) /\
      forall r, perform (H := memory) c r = (lift (m r).1, (m r).2)).
    { destruct c; simpl in *.
      - eexists. by split; [apply PgRefines.get_node_refines|].
      - eexists. by split; [apply PgRefines.find_child_refines|].
      - eexists. by split; [apply PgRefines.create_node_refines|].
      - eexists. by split; [apply PgRefines.create_symlink_refines|].
      - eexists. by split; [apply PgRefines.delete_node_refines|].
      - eexists. by split; [apply PgRefines.rename_refines|].
      - eexists. by split; [apply PgRefines.publish_refines|].
      - eexists. by split; [apply PgRefines.update_attr_refines|].
      - eexists. split; [apply PgRefines.create_staging_refines; [done|]|done]. intros n Hn. apply (Hf (untimed n)), tree_of_lookup. eauto.
      - eexists. split; [apply PgRefines.commit_refines; [done|]|done]. intros n Hn. apply (Hf (untimed n)), tree_of_lookup. eauto. }
    destruct Href as (m & Href & Hm). destruct (Href s v s' eq_refl Hrun) as (r & Hr & Hsame). exists r. by rewrite Hm, Hr. }
  destruct Hmem as (r & Hr & Hsame). pose proof (memory_effect c _ v (tree_tidy _ Hd)) as He. rewrite Hr in He. specialize (He eq_refl).
  assert (Heq : nodes_of r = tree_of (Pg.db s')); [|by rewrite <-Heq].
  unfold PgRefines.same_repo, PgRefines.untime in Hsame. apply (f_equal MemoryRepo.nodes) in Hsame. by symmetry.
Qed.

(** All or nothing. *)
Lemma unvoid_whole {A} (m m0 : Pg.M A) : PgFacts.whole (PgFacts.void m) (PgFacts.void m0) -> PgFacts.whole m m0.
Proof.
  intros Hw s s0 Hs. specialize (Hw s s0 Hs). unfold PgFacts.void, mbind, Pg.pg_bind in Hw.
  by destruct (m s) as [[]], (m0 s0) as [[]].
Qed.
Lemma unvoid_keeps {A} P (m : Pg.M A) : PgFacts.keeps P (PgFacts.void m) -> PgFacts.keeps P m.
Proof. intros Hk s Hs. specialize (Hk s Hs). unfold PgFacts.void, mbind, Pg.pg_bind in Hk. by destruct (m s) as [[]]. Qed.

Lemma perform_whole {A} (c : Call A) : PgFacts.whole (perform (H := pg) c) (perform (H := pg0) c).
Proof.
  destruct c; simpl.
  - apply PgFacts.reads_whole, PgFacts.reads_bind; [apply PgFacts.reads_select|]. intros ?. apply PgFacts.reads_or_not_found.
  - apply PgFacts.reads_whole, PgFacts.reads_bind; [apply PgFacts.reads_select|]. intros ?. apply PgFacts.reads_or_not_found.
  - apply unvoid_whole, (PgFacts.exec_whole to_string faults (PgFacts.CreateNode now id parent name kind mode uid gid)).
  - apply unvoid_whole, (PgFacts.exec_whole to_string faults (PgFacts.CreateSymlink now id parent name target uid gid)).
  - apply (PgFacts.exec_whole to_string faults (PgFacts.DeleteNode now id)).
  - apply (PgFacts.exec_whole to_string faults (PgFacts.RenameNode now id new_parent new_name)).
  - apply (PgFacts.exec_whole to_string faults (PgFacts.PublishNode now id new_parent new_name)).
  - apply unvoid_whole, (PgFacts.exec_whole to_string faults (PgFacts.UpdateNodeAttr now id mode uid gid size mtime atime)).
  - apply unvoid_whole, (PgFacts.exec_whole to_string faults (PgFacts.CreateStagingVersion version_id now node_id base chunk_size)).
  - apply unvoid_whole, (PgFacts.exec_whole to_string faults (PgFacts.CommitVersion now guard total_size hash)).
Qed.
Lemma perform_keeps {A} (c : Call A) : PgFacts.keeps PgFacts.constraints (perform (H := pg) c).
Proof.
  destruct c; simpl.
  - intros s Hs. unfold Pg.get_node. rewrite PgFacts.reads_bind; [done|apply PgFacts.reads_select|]. intros ?. apply PgFacts.reads_or_not_found.
  - intros s Hs. unfold Pg.find_child. rewrite PgFacts.reads_bind; [done|apply PgFacts.reads_select|]. intros ?. apply PgFacts.reads_or_not_found.
  - apply unvoid_keeps, (PgFacts.exec_keeps to_string faults (PgFacts.CreateNode now id parent name kind mode uid gid)).
  - apply unvoid_keeps, (PgFacts.exec_keeps to_string faults (PgFacts.CreateSymlink now id parent name target uid gid)).
  - apply (PgFacts.exec_keeps to_string faults (PgFacts.DeleteNode now id)).
  - apply (PgFacts.exec_keeps to_string faults (PgFacts.RenameNode now id new_parent new_name)).
  - apply (PgFacts.exec_keeps to_string faults (PgFacts.PublishNode now id new_parent new_name)).
  - apply unvoid_keeps, (PgFacts.exec_keeps to_string faults (PgFacts.UpdateNodeAttr now id mode uid gid size mtime atime)).
  - apply unvoid_keeps, (PgFacts.exec_keeps to_string faults (PgFacts.CreateStagingVersion version_id now node_id base chunk_size)).
  - apply unvoid_keeps, (PgFacts.exec_keeps to_string faults (PgFacts.CommitVersion now guard total_size hash)).
Qed.

End Database.

Section Errors.
Context `{HashOrder} (to_string : PgRetry.SqlxError -> string).
Abbreviation pg0 := (postgres to_string PgFacts.no_faults).

(** Without faults an error means that nothing was done. *)
Definition clean {A} (m : Pg.M A) : Prop := forall s e s', m s = (Err e, s') -> Pg.db s' = Pg.db s.
Lemma clean_run {A} (q : Pg.Sql A) : clean (Pg.run to_string PgFacts.no_faults q).
Proof. intros s e s'. unfold Pg.run, Pg.execute, PgFacts.no_faults. by destruct (q (Pg.db s)) as [[]|]; intros [= _ <-]. Qed.
Lemma clean_reads {A} (m : Pg.M A) : PgFacts.reads m -> clean m.
Proof. intros Hm s e s' Hs. specialize (Hm s). by rewrite Hs in Hm. Qed.
Lemma clean_transaction {A} (m : Pg.M A) : clean (Pg.transaction to_string PgFacts.no_faults m).
Proof.
  intros s e s'. unfold Pg.transaction. pose proof (PgFacts.reads_select to_string PgFacts.no_faults (fun _ => tt) s) as Hb.
  destruct (Pg.run _ _ _ s) as [[]]; [|by intros [= _ <-]]. destruct (m _) as [[]]; [done|by intros [= _ <-]].
Qed.
(** A statement that answers with no row has changed none. *)
Lemma clean_checked {A B} (q : Pg.Sql A) (f : A -> Pg.M B) :
  (forall a, clean (f a)) -> (forall d a d', q d = Ok (a, d') -> d' = d \/ forall s, exists b s', f a s = (Ok b, s')) ->
  clean (Pg.pg_bind A B f (Pg.run to_string PgFacts.no_faults q)).
Proof.
  intros Hf Hq s e s'. unfold Pg.pg_bind, Pg.run, Pg.execute, PgFacts.no_faults.
  destruct (q (Pg.db s)) as [[a d']|] eqn:Hrun; cbn; intros Hres; [|by simplify_eq]. destruct (Hq _ _ _ Hrun) as [->|Hok].
  - by apply Hf in Hres.
  - destruct (Hok {| Pg.db := d'; Pg.sent := S (Pg.sent s) |}) as (b & s1 & Hb). congruence.
Qed.
Lemma update_node_none id f d o d' : Pg.update_node id f d = Ok (o, d') -> d' = d \/ is_Some o.
Proof. unfold Pg.update_node. repeat case_match; naive_solver. Qed.
Lemma perform_clean {A} (c : Call A) : clean (perform (H := pg0) c).
Proof.
  destruct c; simpl; try apply clean_run; try apply clean_transaction.
  - apply clean_reads, PgFacts.reads_bind; [apply PgFacts.reads_select|]. intros ?. apply PgFacts.reads_or_not_found.
  - apply clean_reads, PgFacts.reads_bind; [apply PgFacts.reads_select|]. intros ?. apply PgFacts.reads_or_not_found.
  - apply clean_checked; [by intros []; apply clean_reads|]. intros d a d' Hd. unfold Pg.mark_deleted in Hd.
    repeat case_match; simplify_eq; eauto.
  - apply clean_checked; [by intros []; apply clean_reads|]. intros d a d' [->|[n ->]]%update_node_none; [by left|]. right. intros s. by do 2 eexists.
  - apply clean_checked; [by intros []; apply clean_reads|]. intros d a d' [->|[n ->]]%update_node_none; [by left|]. right. intros s. by do 2 eexists.
Qed.

(** The database keeps the contract, whatever it refuses and whichever answers are lost. *)
Definition postgres_laws (faults : nat -> option Pg.Fault) : @RepositoryLaws Pg.Conn (postgres to_string faults).
Proof.
  refine (@Build_RepositoryLaws _ (postgres to_string faults) (fun s => tree_of (Pg.db s)) (fun s => PgFacts.constraints (Pg.db s)) _ _).
  - intros s. apply tree_tidy.
  - intros A c s Hs Hf. split; [by apply perform_keeps|]. destruct (perform c s) as [[v|e] s'] eqn:Hres; simpl.
    + exact (pg_simulates to_string faults c s v s' Hs Hf Hres).
    + pose proof (perform_whole to_string faults c s s eq_refl) as Hw. rewrite Hres in Hw. simpl in Hw. destruct Hw as [->| ->]; [by left|].
      destruct (perform (H := pg0) c s) as [[v|e0] s0] eqn:H0; simpl.
      * right. exists v. exact (pg_simulates to_string PgFacts.no_faults c s v s0 Hs Hf H0).
      * left. by rewrite (perform_clean c s e0 s0 H0).
Defined.

End Errors.

(** ** Both repositories *)

(** C7 The two repositories keep one contract. A call on a node that is answered with success
    has done to the tree what the trait says, and answered it: nodes are found, created with the
    attributes asked for and nothing in them, deleted, moved over the entry in their way (an empty
    one where that is a directory), published only where nothing is in the way, their attributes
    changed, a write's generation counted, and a version made current only where generation and
    current version are the expected ones; no other node is touched. A call that is answered with
    an error has changed nothing in memory; on PostgreSQL, whichever statements are refused or
    lose their answer, it has changed nothing or done all of it. A client that creates a node has
    looked for its name, and commits versions that are not current yet. *)
Theorem repositories_keep_contract `{HashOrder} (to_string : PgRetry.SqlxError -> string) {A} (c : Call A) :
  (forall r, tidy (nodes_of r) -> fits c (nodes_of r) ->
     let '(res, r') := perform c r in
     tidy (nodes_of r') /\ match res with Ok v => effect c (nodes_of r) v (nodes_of r') | Err _ => nodes_of r' = nodes_of r end) /\
  (forall faults s, PgFacts.constraints (Pg.db s) -> fits c (tree_of (Pg.db s)) ->
     let '(res, s') := perform (H := postgres to_string faults) c s in
     PgFacts.constraints (Pg.db s') /\
     match res with
     | Ok v => effect c (tree_of (Pg.db s)) v (tree_of (Pg.db s'))
     | Err _ => tree_of (Pg.db s') = tree_of (Pg.db s) \/ exists v, effect c (tree_of (Pg.db s)) v (tree_of (Pg.db s'))
     end).
Proof.
  split.
  - intros r Hr Hf. destruct (@call_law _ _ memory_laws A c r Hr Hf) as [Hi Hl]. pose proof (memory_error c r) as Herr.
    destruct (perform c r) as [[v|e] r']; simpl in *; (split; [exact Hi|]); [done|by apply (Herr e)].
  - intros faults s Hs Hf. destruct (@call_law _ _ (postgres_laws to_string faults) A c s Hs Hf) as [Hi Hl].
    by destruct (perform c s) as [[v|e] s'].
Qed.
End ContractFacts.

(** ** A rename in a database that loses an answer *)

Module ContractExample.
Import Records Contract ContractFacts.

(** The database of [PgExample] with the file [a] in it. The answer to statement [k] is lost. *)
Definition start : Pg.Conn := {| Pg.db := Pg.db (PgExample.stored PgFacts.no_faults); Pg.sent := 0 |}.
Definition losing (k : nat) (n : nat) : option Pg.Fault :=
  if decide (n = k) then Some (Pg.Lost (PgRetry.Database None "gone")) else None.
Definition rename : Call unit := RenameNode 20 PgExample.file PgExample.root [x62].
Definition renamed (k : nat) : result (fault RepositoryError) unit * Pg.Conn :=
  perform (H := postgres PgExample.to_string (losing k)) rename start.

(** Lost on the way, the file is where it was; lost as the transaction is committed, it has moved. *)
Definition name_now (k : nat) : bool * bool :=
  (match (renamed k).1 with Ok _ => true | Err _ => false end,
   bool_decide (is_Some (Pg.entry (Pg.db (renamed k).2) PgExample.root [x62]))).
Example renamed_or_not : name_now 0 = (false, false) /\ name_now 3 = (false, true) /\ name_now 9 = (true, true).
Proof. vm_compute. done. Qed.

Lemma repositories_keep_contract_witness :
  (renamed 3).1 <> Ok tt /\ PgFacts.constraints (Pg.db (renamed 3).2) /\
  (tree_of (Pg.db (renamed 3).2) = tree_of (Pg.db start) \/
   exists v, effect rename (tree_of (Pg.db start)) v (tree_of (Pg.db (renamed 3).2))).
Proof.
  assert (Hr : match (renamed 3).1 with Ok _ => false | Err _ => true end = true) by (vm_compute; reflexivity).
  destruct (repositories_keep_contract PgExample.to_string rename) as [_ Hpg].
  specialize (Hpg (losing 3) start (PgExample.stored_ok PgFacts.no_faults) I). unfold renamed in *.
  destruct (perform rename start) as [[v|e] s']; [discriminate Hr|]. destruct Hpg as [Hc He].
  split; [discriminate|]. split; [exact Hc|exact He].
Defined.

End ContractExample.
