(* ===== verification/PgLocks.v ===== *)
(** * The locks servers share through PostgreSQL

    Models [lock_node], [try_lock_gc] and [LocalLocks] of
    [src/crates/dcfs-db/src/postgres.rs] and [NodeGuard] of
    [src/crates/dcfs-db/src/repository.rs]: any number of servers on one database, each
    with a pool of connections, and the requests that wait for a lock, hold a guard or
    have dropped it. What happens is a sequence of events; [step] says what each does,
    or that it cannot happen.

    A session-level advisory lock belongs to the session that took it until that session
    unlocks it or ends, and a session is granted a lock it already has. The code only
    releases all locks of a session at once, so how often a session took one is not kept. *)
From S2P Require Import Prelude Repository Retry Postgres.

Module PgLocks.
Import Records PgRetry Pg.

(** The one-argument and the two-argument locks are different spaces. *)
Inductive LockName : Type := One (key : Z) | Two (a b : Z).
#[global] Instance LockName_eq : EqDecision LockName.
Proof. solve_decision. Defined.
#[global] Instance LockName_countable : Countable LockName.
Proof.
  apply (inj_countable' (fun n => match n with One k => inl k | Two a b => inr (a, b) end)
    (fun x => match x with inl k => One k | inr p => Two p.1 p.2 end)). by intros [].
Defined.

Definition GC_LOCK : Z * Z := (0x64667300, 1).

(** What is locked: a node, or sweeping. *)
Inductive Target : Type := Node (id : Uuid) | Sweep.
#[global] Instance Target_eq : EqDecision Target.
Proof. solve_decision. Defined.
Definition lock_name (t : Target) : LockName :=
  match t with Node id => One (advisory_key id) | Sweep => Two GC_LOCK.1 GC_LOCK.2 end.

(** Connections and process-local mutexes are known by numbers. *)
Record NodeGuard : Type := { conn : option nat; local_ : option nat }.
#[global] Instance NodeGuard_eq : EqDecision NodeGuard.
Proof. solve_decision. Defined.
Definition unlocked : NodeGuard := {| conn := None; local_ := None |}.
Definition holding (c : nat) : NodeGuard := {| conn := Some c; local_ := None |}.
Definition holding_local (m : nat) : NodeGuard := {| conn := None; local_ := Some m |}.

Record LocalLocks : Type := { nodes : gmap Uuid nat; gc : nat }.
Record PgRepository : Type := { max_connections : nat; local_locks : option LocalLocks }.

(** Where a call is: waiting for the answer to attempt [attempt] on connection [c]; in the
    queue of a mutex; done, with its guard; the guard dropped and its release on the way. *)
Inductive Phase : Type :=
| Locking (c : nat) (attempt : Z)
| Queued (m : nat)
| Guarded (g : NodeGuard)
| Releasing (c : nat).
#[global] Instance Phase_eq : EqDecision Phase.
Proof. solve_decision. Defined.
Record Request : Type := { at_server : nat; target : Target; phase : Phase }.
#[global] Instance Request_eq : EqDecision Request.
Proof. solve_decision. Defined.
Definition to_phase (p : Phase) (q : Request) : Request := {| at_server := at_server q; target := target q; phase := p |}.

(** A connection of a pool is idle, used by a request for a lock, or by another query. *)
Inductive User : Type := Idle | ByRequest (r : nat) | ByQuery.
#[global] Instance User_eq : EqDecision User.
Proof. solve_decision. Defined.
Record Session : Type := { s_server : nat; alive : bool; user : User }.

(** [advisory]: the locks that are taken and by which session; [held]: the mutexes that are
    locked and by which request. *)
Record Sys : Type := {
  repos : gmap nat PgRepository;
  sessions : gmap nat Session;
  advisory : gmap LockName nat;
  held : gmap nat nat;
  next_mutex : nat;
  requests : gmap nat Request;
}.
Definition empty : Sys :=
  {| repos := ∅; sessions := ∅; advisory := ∅; held := ∅; next_mutex := 0; requests := ∅ |}.

Definition set_requests (f : gmap nat Request -> gmap nat Request) (s : Sys) : Sys :=
  {| repos := repos s; sessions := sessions s; advisory := advisory s; held := held s; next_mutex := next_mutex s;
     requests := f (requests s) |}.
Definition set_sessions (f : gmap nat Session -> gmap nat Session) (s : Sys) : Sys :=
  {| repos := repos s; sessions := f (sessions s); advisory := advisory s; held := held s; next_mutex := next_mutex s;
     requests := requests s |}.
Definition set_advisory (f : gmap LockName nat -> gmap LockName nat) (s : Sys) : Sys :=
  {| repos := repos s; sessions := sessions s; advisory := f (advisory s); held := held s; next_mutex := next_mutex s;
     requests := requests s |}.
Definition set_held (f : gmap nat nat -> gmap nat nat) (s : Sys) : Sys :=
  {| repos := repos s; sessions := sessions s; advisory := advisory s; held := f (held s); next_mutex := next_mutex s;
     requests := requests s |}.

(** [connect]: a server joins. With [single_instance] it gets [LocalLocks], of which only
    the mutex of the sweeper is there from the start. *)
Definition connect (srv max : nat) (single_instance : bool) (s : Sys) : option Sys :=
  match repos s !! srv with
  | Some _ => None
  | None =>
      let locks := if single_instance then Some {| nodes := ∅; gc := next_mutex s |} else None in
      Some {| repos := <[srv := {| max_connections := max; local_locks := locks |}]> (repos s);
              sessions := sessions s; advisory := advisory s; held := held s; next_mutex := S (next_mutex s);
              requests := requests s |}
  end.

(** ** The pool *)

Definition pool_size (srv : nat) (s : Sys) : nat :=
  size (filter (fun p : nat * Session => s_server p.2 = srv) (sessions s)).
(** [pool.acquire()] may give connection [c]: an idle one that answers
    ([test_before_acquire]), or a new one while there are fewer than [max_connections]. *)
Definition can_acquire (srv c : nat) (s : Sys) : bool :=
  match sessions s !! c, repos s !! srv with
  | Some x, Some _ => bool_decide (s_server x = srv) && alive x && bool_decide (user x = Idle)
  | None, Some repo => bool_decide (pool_size srv s < max_connections repo)%nat
  | _, None => false
  end.
Definition acquire (srv c : nat) (u : User) (s : Sys) : option Sys :=
  if can_acquire srv c s
  then Some (set_sessions <[c := {| s_server := srv; alive := true; user := u |}]> s)
  else None.
(** A [PoolConnection] is dropped. *)
Definition idle (x : Session) : Session := {| s_server := s_server x; alive := alive x; user := Idle |}.
Definition check_in (c : nat) (s : Sys) : Sys := set_sessions (alter idle c) s.
(** [pg_advisory_unlock_all()], or the end of the session. *)
Definition unlock_all (c : nat) (s : Sys) : Sys :=
  set_advisory (filter (fun p : LockName * nat => p.2 <> c)) s.

(** ** [LocalLocks::node] *)

Definition refers (m : nat) (q : Request) : Prop :=
  match phase q with Queued m' => m' = m | Guarded g => local_ g = Some m | _ => False end.
#[global] Instance refers_dec m q : Decision (refers m q).
Proof. unfold refers. destruct (phase q); apply _. Defined.
(** [Arc::strong_count] of a mutex in the map: one for the map, one for each request that
    waits for it or has its guard. *)
Definition strong_count (s : Sys) (m : nat) : nat :=
  S (size (filter (fun p : nat * Request => refers m p.2) (requests s))).
Definition retain (s : Sys) (l : LocalLocks) : gmap Uuid nat :=
  filter (fun p : Uuid * nat => (1 < strong_count s p.2)%nat) (nodes l).
Definition node (srv : nat) (repo : PgRepository) (l : LocalLocks) (id : Uuid) (s : Sys) : nat * Sys :=
  let map := retain s l in
  let m := default (next_mutex s) (map !! id) in
  (m, {| repos := <[srv := {| max_connections := max_connections repo;
                              local_locks := Some {| nodes := <[id := m]> map; gc := gc l |} |}]> (repos s);
         sessions := sessions s; advisory := advisory s; held := held s;
         next_mutex := S (next_mutex s); requests := requests s |}).

(** ** The calls *)

(** A call ends without a guard and gives its connection back. *)
Definition leave (r c : nat) (s : Sys) : Sys := set_requests (delete r) (check_in c s).

(** [lock_node] up to where it waits: for its turn at the mutex of the node, or, with a
    connection, for the answer to [pg_advisory_lock]. *)
Definition lock_node (r srv : nat) (id : Uuid) (c : nat) (s : Sys) : option Sys :=
  match requests s !! r, repos s !! srv with
  | None, Some repo =>
      match local_locks repo with
      | Some l =>
          let (m, s) := node srv repo l id s in
          Some (set_requests <[r := {| at_server := srv; target := Node id; phase := Queued m |}]> s)
      | None =>
          set_requests <[r := {| at_server := srv; target := Node id; phase := Locking c 1 |}]>
            <$> acquire srv c (ByRequest r) s
      end
  | _, _ => None
  end.
(** [try_lock_gc] up to where it waits; with local locks it does not. *)
Definition try_lock_gc (r srv c : nat) (s : Sys) : option Sys :=
  match requests s !! r, repos s !! srv with
  | None, Some repo =>
      match local_locks repo with
      | Some l =>
          match held s !! gc l with
          | Some _ => Some s
          | None =>
              Some (set_held <[gc l := r]> (set_requests
                <[r := {| at_server := srv; target := Sweep; phase := Guarded (holding_local (gc l)) |}]> s))
          end
      | None =>
          set_requests <[r := {| at_server := srv; target := Sweep; phase := Locking c 1 |}]>
            <$> acquire srv c (ByRequest r) s
      end
  | _, _ => None
  end.

(** The mutex is free and this request is let in. *)
Definition enter (r : nat) (s : Sys) : option Sys :=
  match requests s !! r with
  | Some q =>
      match phase q with
      | Queued m =>
          match held s !! m with
          | None => Some (set_held <[m := r]> (set_requests <[r := to_phase (Guarded (holding_local m)) q]> s))
          | Some _ => None
          end
      | _ => None
      end
  | None => None
  end.

(** Whether PostgreSQL gives [n] to the session of [c] now. *)
Definition grants (n : LockName) (c : nat) (s : Sys) : bool :=
  match advisory s !! n with Some c' => bool_decide (c' = c) | None => true end.
(** An attempt has failed: once more, or the error is returned. *)
Definition failed (r c : nat) (attempt : Z) (e : SqlxError) (q : Request) (s : Sys) : Sys :=
  if (attempt <? MAX_ATTEMPTS) && is_transient e
  then set_requests <[r := to_phase (Locking c (attempt + 1)) q]> s
  else leave r c s.
Definition taking (n : LockName) (c : nat) (s : Sys) : Sys := set_advisory <[n := c]> s.
(** The answer to the statement of an attempt. [pg_advisory_lock] answers when the lock is
    granted; [pg_try_advisory_lock] says whether it was. On a session that has ended every
    statement is refused. *)
Definition answer (r : nat) (fault : option Fault) (s : Sys) : option Sys :=
  match requests s !! r with
  | Some q =>
      match phase q with
      | Locking c attempt =>
          let n := lock_name (target q) in
          let up := match sessions s !! c with Some x => alive x | None => false end in
          match fault with
          | Some (Refused e) => Some (failed r c attempt e q s)
          | None =>
              if negb up then None
              else if grants n c s then Some (set_requests <[r := to_phase (Guarded (holding c)) q]> (taking n c s))
              else match target q with Sweep => Some (leave r c s) | Node _ => None end
          | Some (Lost e) =>
              if negb up then None
              else if grants n c s then Some (failed r c attempt e q (taking n c s))
              else match target q with Sweep => Some (failed r c attempt e q s) | Node _ => None end
          end
      | _ => None
      end
  | None => None
  end.

(** [Drop for NodeGuard]: the release of a connection's locks is left to a task. *)
Definition drop_guard (r : nat) (s : Sys) : option Sys :=
  match requests s !! r with
  | Some q =>
      match phase q with
      | Guarded g =>
          match conn g with
          | Some c => Some (set_requests <[r := to_phase (Releasing c) q]> s)
          | None =>
              Some (set_requests (delete r) (set_held (match local_ g with Some m => delete m | None => fun h => h end) s))
          end
      | _ => None
      end
  | None => None
  end.
(** That task: an error is logged, and the connection goes back to the pool. *)
Definition release (r : nat) (fault : option Fault) (s : Sys) : option Sys :=
  match requests s !! r with
  | Some q =>
      match phase q with
      | Releasing c =>
          Some (leave r c (match fault with Some (Refused _) => s | _ => unlock_all c s end))
      | _ => None
      end
  | None => None
  end.

(** ** What can happen *)

Inductive Event : Type :=
| Connect (srv max : nat) (single_instance : bool)
| LockNode (r srv : nat) (id : Uuid) (c : nat)
| TryLockGc (r srv c : nat)
| Enter (r : nat)
| Cancel (r : nat)  (** a request that waits for a mutex is dropped *)
| Answer (r : nat) (fault : option Fault)
| DropGuard (r : nat)
| Release (r : nat) (fault : option Fault)
| Borrow (srv c : nat)  (** another query takes a connection *)
| GiveBack (c : nat)
| SessionEnds (c : nat)  (** the session of a connection ends on the server *)
| Discard (c : nat).  (** the pool closes an idle connection *)

Definition step (e : Event) (s : Sys) : option Sys :=
  match e with
  | Connect srv max single => connect srv max single s
  | LockNode r srv id c => lock_node r srv id c s
  | TryLockGc r srv c => try_lock_gc r srv c s
  | Enter r => enter r s
  | Cancel r =>
      match requests s !! r with
      | Some q => match phase q with Queued _ => Some (set_requests (delete r) s) | _ => None end
      | None => None
      end
  | Answer r fault => answer r fault s
  | DropGuard r => drop_guard r s
  | Release r fault => release r fault s
  | Borrow srv c => acquire srv c ByQuery s
  | GiveBack c =>
      match sessions s !! c with
      | Some x => if bool_decide (user x = ByQuery) then Some (check_in c s) else None
      | None => None
      end
  | SessionEnds c =>
      Some (unlock_all c (set_sessions (alter (fun x => {| s_server := s_server x; alive := false; user := user x |}) c) s))
  | Discard c =>
      match sessions s !! c with
      | Some x => if bool_decide (user x = Idle) then Some (unlock_all c (set_sessions (delete c) s)) else None
      | None => None
      end
  end.

(** What the events of a kind can lead to. *)
Inductive reachable (kind : Event -> Prop) : Sys -> Prop :=
| ReachEmpty : reachable kind empty
| ReachStep e s s' : reachable kind s -> kind e -> step e s = Some s' -> reachable kind s'.

Fixpoint run (es : list Event) (s : Sys) : option Sys :=
  match es with
  | [] => Some s
  | e :: es => match step e s with Some s => run es s | None => None end
  end.

End PgLocks.

(** ** The connections and the locks they have *)

Module PgLockFacts.
Import Records PgRetry Pg PgLocks.

(** The connection a request uses. *)
Definition uses (q : Request) : option nat :=
  match phase q with Locking c _ | Releasing c => Some c | Guarded g => conn g | Queued _ => None end.

Record connected (s : Sys) : Prop := {
  con_uses r q c : requests s !! r = Some q -> uses q = Some c ->
    exists x, sessions s !! c = Some x /\ user x = ByRequest r /\ s_server x = at_server q;
  con_guard r q g c x : requests s !! r = Some q -> phase q = Guarded g -> conn g = Some c ->
    sessions s !! c = Some x -> alive x = true -> advisory s !! lock_name (target q) = Some c;
  con_remote r q c : requests s !! r = Some q -> uses q = Some c ->
    exists repo, repos s !! at_server q = Some repo /\ local_locks repo = None;
}.

Ltac step_cases He :=
  repeat match type of He with
  | context [match ?x with _ => _ end = Some _] => destruct x eqn:?; simplify_eq/=; try done
  | fmap _ (match ?x with _ => _ end) = Some _ => destruct x eqn:?; simplify_eq/=; try done
  end.
Ltac step_events e He :=
  destruct e; simpl in He;
  unfold connect, lock_node, try_lock_gc, enter, answer, drop_guard, release, acquire, node in He;
  step_cases He; simplify_eq/=.

Lemma uses_guarded q g c : phase q = Guarded g -> conn g = Some c -> uses q = Some c.
Proof. unfold uses. by intros ->. Qed.
#[local] Hint Resolve uses_guarded : core.

(** One connection is used by one request. *)
Lemma uses_one s r1 r2 q1 q2 c :
  connected s -> requests s !! r1 = Some q1 -> requests s !! r2 = Some q2 ->
  uses q1 = Some c -> uses q2 = Some c -> r1 = r2.
Proof.
  intros Hc H1 H2 Hu1 Hu2. destruct (con_uses _ Hc _ _ _ H1 Hu1) as (x & Hx & Hr1 & _).
  destruct (con_uses _ Hc _ _ _ H2 Hu2) as (y & Hy & Hr2 & _). congruence.
Qed.

(** The servers keep their kind of locks. *)
Definition same_repos (s s' : Sys) : Prop := forall srv repo, repos s !! srv = Some repo ->
  exists repo', repos s' !! srv = Some repo' /\ max_connections repo' = max_connections repo /\
    (local_locks repo = None -> local_locks repo' = None) /\
    (forall l, local_locks repo = Some l -> exists l', local_locks repo' = Some l' /\ gc l' = gc l).

Lemma connected_repos s s' :
  connected s -> requests s' = requests s -> sessions s' = sessions s -> advisory s' = advisory s ->
  same_repos s s' -> connected s'.
Proof.
  intros Hc Hr Hs Ha Hsame. split; rewrite ?Hr, ?Hs, ?Ha.
  - apply (con_uses _ Hc).
  - apply (con_guard _ Hc).
  - intros r q c Hq Hu. destruct (con_remote _ Hc _ _ _ Hq Hu) as (repo & Hrepo & Hl).
    destruct (Hsame _ _ Hrepo) as (repo' & ? & _ & ? & _). eauto.
Qed.

Lemma connected_insert s r q :
  connected s ->
  (forall c, uses q = Some c ->
    (exists x, sessions s !! c = Some x /\ user x = ByRequest r /\ s_server x = at_server q) /\
    exists repo, repos s !! at_server q = Some repo /\ local_locks repo = None) ->
  (forall g c, phase q = Guarded g -> conn g = Some c -> advisory s !! lock_name (target q) = Some c) ->
  connected (set_requests <[r := q]> s).
Proof.
  intros Hc Hq Hg. split; simpl; intros r' q'; rewrite lookup_insert; case_decide; subst.
  - intros c [= <-] Hu. by apply (proj1 (Hq c Hu)).
  - apply (con_uses _ Hc).
  - intros g c x [= <-] ? ? _ _. eauto.
  - apply (con_guard _ Hc).
  - intros c [= <-] Hu. by apply (proj2 (Hq c Hu)).
  - apply (con_remote _ Hc).
Qed.

Lemma connected_local s r q : connected s -> uses q = None -> connected (set_requests <[r := q]> s).
Proof.
  intros Hc Hu. apply connected_insert; [done|by rewrite Hu|].
  intros g c Hp Hg. by rewrite (uses_guarded _ _ _ Hp Hg) in Hu.
Qed.

(** A request goes on with the connection it has. *)
Lemma connected_phase s r q p c :
  connected s -> requests s !! r = Some q -> uses q = Some c -> uses (to_phase p q) = Some c ->
  (forall g, p = Guarded g -> advisory s !! lock_name (target q) = Some c) ->
  connected (set_requests <[r := to_phase p q]> s).
Proof.
  intros Hc Hq Hu Hp Hg. apply connected_insert; [done| |].
  - rewrite Hp. intros c' [= <-]. split; [exact (con_uses _ Hc _ _ _ Hq Hu)|exact (con_remote _ Hc _ _ _ Hq Hu)].
  - intros g c' Hpg Hgc. pose proof (uses_guarded _ _ _ Hpg Hgc) as Hu'. rewrite Hp in Hu'. injection Hu' as <-.
    by apply (Hg g).
Qed.

Lemma connected_delete s r : connected s -> connected (set_requests (delete r) s).
Proof.
  intros Hc. split; simpl; intros r' q'; rewrite lookup_delete; case_decide; try done.
  - apply (con_uses _ Hc).
  - apply (con_guard _ Hc).
  - apply (con_remote _ Hc).
Qed.

(** A connection no request uses may change. *)
Lemma connected_unused s s' c :
  connected s -> (forall r q, requests s !! r = Some q -> uses q <> Some c) ->
  requests s' = requests s -> repos s' = repos s ->
  (forall n c', c' <> c -> advisory s !! n = Some c' -> advisory s' !! n = Some c') ->
  (forall c', c' <> c -> sessions s' !! c' = sessions s !! c') -> connected s'.
Proof.
  intros Hc Hno Hr Hp Ha Hs. split; rewrite ?Hr, ?Hp.
  - intros r q c' Hq Hu. rewrite Hs by naive_solver. by apply (con_uses _ Hc).
  - intros r q g c' x Hq Hg Hgc. assert (c' <> c) by naive_solver. rewrite Hs by done.
    intros. apply Ha; [done|]. eapply (con_guard _ Hc); eassumption.
  - apply (con_remote _ Hc).
Qed.

Lemma unlock_all_other s c n c' : c' <> c -> advisory s !! n = Some c' -> advisory (unlock_all c s) !! n = Some c'.
Proof. intros ? Hn. simpl. by apply map_lookup_filter_Some. Qed.

(** A request that leaves gives its connection back, its locks released or not. *)
Lemma connected_leave s s' r c q :
  connected s -> requests s !! r = Some q -> uses q = Some c -> s' = s \/ s' = unlock_all c s -> connected (leave r c s').
Proof.
  intros Hc Hq Hu Hs'. apply (connected_unused (set_requests (delete r) s) _ c); [by apply connected_delete| | | |..].
  - simpl. intros r' q'. rewrite lookup_delete. case_decide; [done|]. intros Hq' Hu'.
    by pose proof (uses_one _ _ _ _ _ _ Hc Hq Hq' Hu Hu').
  - by destruct Hs' as [->| ->].
  - by destruct Hs' as [->| ->].
  - intros n c' Hne Hn. destruct Hs' as [->| ->]; [done|]. by apply (unlock_all_other s).
  - intros c' Hne. simpl. rewrite lookup_alter_ne by done. by destruct Hs' as [->| ->].
Qed.

Lemma connected_taking s n c : connected s -> grants n c s = true -> connected (taking n c s).
Proof.
  intros Hc Hg. split; simpl.
  - apply (con_uses _ Hc).
  - intros r q g c' x Hq Hph Hgc Hx Ha. pose proof (con_guard _ Hc _ _ _ _ _ Hq Hph Hgc Hx Ha) as Hn.
    rewrite lookup_insert. case_decide as Hd; [|done]. subst. unfold grants in Hg. rewrite Hn in Hg.
    apply bool_decide_eq_true in Hg. by subst.
  - apply (con_remote _ Hc).
Qed.

Lemma connected_failed s r c attempt e q :
  connected s -> requests s !! r = Some q -> uses q = Some c -> connected (failed r c attempt e q s).
Proof.
  intros Hc Hq Hu. unfold failed. case_match; [by apply (connected_phase _ _ _ _ c)|].
  eapply connected_leave; [exact Hc|done|done|by left].
Qed.

(** A connection from the pool was used by no request. *)
Lemma can_acquire_unused s srv c : connected s -> can_acquire srv c s = true ->
  forall r q, requests s !! r = Some q -> uses q <> Some c.
Proof.
  intros Hc Hcan r q Hq Hu. destruct (con_uses _ Hc _ _ _ Hq Hu) as (x & Hx & Hr & _).
  unfold can_acquire in Hcan. rewrite Hx in Hcan. destruct (repos s !! srv); [|done].
  rewrite !andb_true_iff, !bool_decide_eq_true in Hcan. destruct Hcan as [_ ?]. congruence.
Qed.
Lemma connected_acquire s srv c u :
  connected s -> can_acquire srv c s = true ->
  connected (set_sessions <[c := {| s_server := srv; alive := true; user := u |}]> s).
Proof.
  intros Hc Hcan. apply (connected_unused s _ c); [done|eapply can_acquire_unused; eassumption| | | |]; try done.
  simpl. intros. by rewrite lookup_insert_ne.
Qed.
Lemma connected_checkout s srv repo c r t :
  connected s -> can_acquire srv c s = true -> repos s !! srv = Some repo -> local_locks repo = None ->
  connected (set_requests <[r := {| at_server := srv; target := t; phase := Locking c 1 |}]>
    (set_sessions <[c := {| s_server := srv; alive := true; user := ByRequest r |}]> s)).
Proof.
  intros Hc Hcan Hrepo Hl. apply connected_insert; [by apply connected_acquire| |done].
  intros c' [= <-]. simpl. rewrite lookup_insert_eq. split; eexists; split_and!; done.
Qed.
Lemma connected_ends s c :
  connected s ->
  connected (unlock_all c (set_sessions (alter (fun x => {| s_server := s_server x; alive := false; user := user x |}) c) s)).
Proof.
  intros Hc. split; simpl.
  - intros r q c' Hq Hu. destruct (con_uses _ Hc _ _ _ Hq Hu) as (x & Hx & ? & ?).
    rewrite lookup_alter. case_decide; [subst|]; rewrite Hx; simpl; eexists; split_and!; done.
  - intros r q g c' x Hq Hph Hgc. rewrite lookup_alter. case_decide.
    + intros (y & _ & ->)%fmap_Some. done.
    + intros Hx Ha. apply unlock_all_other; [done|]. eapply (con_guard _ Hc); eassumption.
  - apply (con_remote _ Hc).
Qed.

Lemma same_repos_insert s s' srv repo l l' :
  repos s !! srv = Some repo -> local_locks repo = Some l -> gc l' = gc l ->
  repos s' = <[srv := {| max_connections := max_connections repo; local_locks := Some l' |}]> (repos s) -> same_repos s s'.
Proof.
  intros Hrepo Hl Hgc Hs' srv' repo' Hs. rewrite Hs', lookup_insert. case_decide; subst; [|by eauto 10].
  simplify_eq. eexists. split_and!; [done|done|by rewrite Hl|]. intros l0 Hl0. simpl. eexists. split; [done|]. congruence.
Qed.
Lemma same_repos_new s s' srv repo :
  repos s !! srv = None -> repos s' = <[srv := repo]> (repos s) -> same_repos s s'.
Proof. intros Hn Hs' srv' repo' Hs. rewrite Hs', lookup_insert_ne by congruence. eauto 10. Qed.
Lemma same_repos_refl s s' : repos s' = repos s -> same_repos s s'.
Proof. intros Hs' srv' repo' Hs. rewrite Hs'. eauto 10. Qed.
#[local] Hint Resolve same_repos_new : core.

Lemma failed_repos r c attempt e q s : repos (failed r c attempt e q s) = repos s.
Proof. unfold failed. by case_match. Qed.
Lemma step_repos e s s' : step e s = Some s' -> same_repos s s'.
Proof.
  intros He. step_events e He; eauto; try (apply same_repos_refl; by rewrite ?failed_repos).
  - eapply same_repos_insert; [done|done| |reflexivity]; done.
  - apply same_repos_refl. by destruct fault as [[]|].
Qed.

Lemma connected_step e s s' : connected s -> step e s = Some s' -> connected s'.
Proof.
  intros Hc He. pose proof (step_repos _ _ _ He) as Hsame. step_events e He; try done.
  - by apply (connected_repos s).
  - apply connected_local; [by apply (connected_repos s)|done].
  - eapply connected_checkout; eassumption.
  - apply (connected_repos (set_requests <[r:={| at_server := srv; target := Sweep; phase := Guarded (holding_local (gc l)) |}]> s)); try done.
    by apply connected_local.
  - eapply connected_checkout; eassumption.
  - apply (connected_repos (set_requests <[r:=to_phase (Guarded (holding_local m)) r0]> s)); try done.
    by apply connected_local.
  - by apply connected_delete.
  - apply connected_failed; [done|done|by unfold uses; rewrite Heqp].
  - apply connected_failed; [by apply connected_taking|done|by unfold uses; rewrite Heqp].
  - apply connected_failed; [done|done|by unfold uses; rewrite Heqp].
  - apply (connected_phase _ _ _ _ c); [by apply connected_taking|done|by unfold uses; rewrite Heqp|done|].
    intros g _. simpl. by rewrite lookup_insert_eq.
  - eapply connected_leave; [exact Hc|done|unfold uses; by rewrite Heqp|by left].
  - apply (connected_phase _ _ _ _ n); [done|done|by eauto|done|done].
  - apply (connected_repos (set_requests (delete r) s)); try done. by apply connected_delete.
  - eapply connected_leave; [done|done|unfold uses; by rewrite Heqp|]. repeat case_match; auto.
  - by apply connected_acquire.
  - apply (connected_unused s _ c); try done.
    + intros r q Hq Hu. destruct (con_uses _ Hc _ _ _ Hq Hu) as (x & ? & ? & _). apply bool_decide_eq_true in Heqb. congruence.
    + intros. simpl. by rewrite lookup_alter_ne.
  - by apply connected_ends.
  - apply (connected_unused s _ c); try done.
    + intros r q Hq Hu. destruct (con_uses _ Hc _ _ _ Hq Hu) as (x & ? & ? & _). apply bool_decide_eq_true in Heqb. congruence.
    + intros. by apply (unlock_all_other s).
    + intros. simpl. by rewrite lookup_delete_ne.
Qed.

(** ** The mutexes of a process *)

Definition owns (s : Sys) (q : Request) (m : nat) : Prop :=
  exists repo l, repos s !! at_server q = Some repo /\ local_locks repo = Some l /\
    match target q with Node id => nodes l !! id = Some m | Sweep => gc l = m end.
Record mutexed (s : Sys) : Prop := {
  mx_held r q g m : requests s !! r = Some q -> phase q = Guarded g -> local_ g = Some m -> held s !! m = Some r;
  mx_own r q m : requests s !! r = Some q -> refers m q -> owns s q m;
  mx_shape r q g : requests s !! r = Some q -> phase q = Guarded g -> (exists c, g = holding c) \/ exists m, g = holding_local m;
}.

Lemma refers_guarded q g m : phase q = Guarded g -> local_ g = Some m -> refers m q.
Proof. unfold refers. by intros ->. Qed.

Lemma mutexed_frame s s' :
  mutexed s -> (forall r q, requests s' !! r = Some q -> requests s !! r = Some q) -> held s' = held s ->
  (forall r q m, requests s !! r = Some q -> owns s q m -> refers m q -> owns s' q m) -> mutexed s'.
Proof.
  intros Hm Hq Hh Ho. split; rewrite ?Hh.
  - intros r q g m Hr. apply (mx_held _ Hm). by apply Hq.
  - intros r q m Hr Href. apply Hq in Hr. eapply Ho; [done|by eapply (mx_own _ Hm)|done].
  - intros r q g Hr. by eapply (mx_shape _ Hm), Hq.
Qed.
Lemma mutexed_same s s' :
  mutexed s -> (forall r q, requests s' !! r = Some q -> requests s !! r = Some q) -> held s' = held s ->
  repos s' = repos s -> mutexed s'.
Proof. intros Hm Hq Hh Hr. apply (mutexed_frame s); [done..|]. intros r q m _ Ho _. unfold owns. by rewrite Hr. Qed.

(** A request takes a step that changes no mutex, or takes a free one. *)
Lemma mutexed_insert s r q :
  mutexed s -> (forall g, phase q = Guarded g -> (exists c, g = holding c) \/ exists m, g = holding_local m) ->
  (forall m, refers m q -> owns s q m) -> (forall g m, phase q = Guarded g -> local_ g = Some m -> held s !! m = Some r) ->
  mutexed (set_requests <[r := q]> s).
Proof.
  intros Hm Hs Ho Hh. split; simpl; intros r' q'; rewrite lookup_insert; case_decide; subst.
  - intros g m [= <-]. apply Hh.
  - apply (mx_held _ Hm).
  - intros m [= <-]. apply Ho.
  - apply (mx_own _ Hm).
  - intros g [= <-]. apply Hs.
  - apply (mx_shape _ Hm).
Qed.
Lemma mutexed_remote s r q c : mutexed s -> uses q = Some c -> (forall g, phase q = Guarded g -> local_ g = None) ->
  mutexed (set_requests <[r := q]> s).
Proof.
  intros Hm Hu Hl. apply mutexed_insert; [done| | |].
  - intros g Hg. left. exists c. unfold uses in Hu. rewrite Hg in Hu. pose proof (Hl g Hg). destruct g; simplify_eq/=. done.
  - intros m Href. unfold refers in Href. unfold uses in Hu. destruct (phase q) as [| |g|] eqn:Hph; try done.
    by rewrite (Hl g) in Href.
  - intros g m Hg Hm'. by rewrite (Hl g) in Hm'.
Qed.
Lemma mutexed_enter s r q m :
  mutexed s -> held s !! m = None -> owns s q m ->
  mutexed (set_held <[m := r]> (set_requests <[r := to_phase (Guarded (holding_local m)) q]> s)).
Proof.
  intros Hm Hfree Ho. split; simpl; intros r' q'; rewrite lookup_insert; case_decide; subst.
  - intros g m' [= <-] [= <-] [= <-]. by rewrite lookup_insert_eq.
  - intros g m' Hq Hg Hl. pose proof (mx_held _ Hm _ _ _ _ Hq Hg Hl). rewrite lookup_insert_ne; congruence.
  - intros m' [= <-] [= <-]. done.
  - apply (mx_own _ Hm).
  - intros g [= <-] [= <-]. right. by eexists.
  - apply (mx_shape _ Hm).
Qed.
Lemma mutexed_drop s r q g m :
  mutexed s -> requests s !! r = Some q -> phase q = Guarded g -> local_ g = Some m ->
  mutexed (set_requests (delete r) (set_held (delete m) s)).
Proof.
  intros Hm Hq Hg Hl. split; simpl; intros r' q'; rewrite lookup_delete; case_decide; try done.
  - intros g' m' Hq' Hg' Hl'. pose proof (mx_held _ Hm _ _ _ _ Hq' Hg' Hl').
    pose proof (mx_held _ Hm _ _ _ _ Hq Hg Hl). rewrite lookup_delete_ne; congruence.
  - apply (mx_own _ Hm).
  - apply (mx_shape _ Hm).
Qed.

(** A mutex somebody waits for or holds stays in the map, so it is handed out again. *)
Lemma retain_keeps s l r q m id :
  requests s !! r = Some q -> refers m q -> nodes l !! id = Some m -> retain s l !! id = Some m.
Proof.
  intros Hq Href Hn. apply map_lookup_filter_Some. split; [done|]. unfold strong_count. simpl.
  assert (Hin : filter (fun p : nat * Request => refers m p.2) (requests s) !! r = Some q)
    by (by apply map_lookup_filter_Some).
  assert (Hne : size (filter (fun p : nat * Request => refers m p.2) (requests s)) <> 0%nat); [|lia].
  intros Hz. apply map_size_empty_iff in Hz. by rewrite Hz, lookup_empty in Hin.
Qed.
Lemma mutexed_node s srv repo l id :
  mutexed s -> repos s !! srv = Some repo -> local_locks repo = Some l ->
  mutexed (node srv repo l id s).2 /\
  owns (node srv repo l id s).2 {| at_server := srv; target := Node id; phase := Queued (node srv repo l id s).1 |}
    (node srv repo l id s).1.
Proof.
  intros Hm Hrepo Hl. split.
  - apply (mutexed_frame s); [done|done|done|]. intros r q m Hq (repo' & l' & Hr & Hl' & Ht) Href. unfold owns. simpl.
    rewrite lookup_insert. case_decide; [|by eauto]. subst. simplify_eq.
    eexists _, _. split; [done|]. split; [done|]. destruct (target q) as [id'|]; simpl; [|done].
    pose proof (retain_keeps _ _ _ _ _ _ Hq Href Ht) as Hk. rewrite lookup_insert. case_decide; [subst|done]. by rewrite Hk.
  - unfold owns. simpl. rewrite lookup_insert_eq. eexists _, _. split; [done|]. split; [done|]. simpl. by rewrite lookup_insert_eq.
Qed.

Lemma mutexed_failed s r c attempt e q :
  mutexed s -> requests s !! r = Some q -> phase q = Locking c attempt -> mutexed (failed r c attempt e q s).
Proof.
  intros Hm Hq Hp. unfold failed. case_match; [by apply (mutexed_remote _ _ _ c)|].
  apply (mutexed_same s); [done| |done|done]. simpl. by intros r' q' [_ ?]%lookup_delete_Some.
Qed.

Lemma mutexed_step e s s' : mutexed s -> step e s = Some s' -> mutexed s'.
Proof.
  intros Hm He. step_events e He; try (by apply (mutexed_same s)); try done.
  - apply (mutexed_frame s); [done..|]. intros r q m _ (repo & l & Hr & Hl & Ht) _. exists repo, l.
    simpl. rewrite lookup_insert_ne; [done|congruence].
  - destruct (mutexed_node s srv p l id) as [Hm' Ho]; [done..|]. apply mutexed_insert; [done|done| |done].
    by intros m [= <-].
  - apply (mutexed_remote _ _ _ c); [by apply (mutexed_same s)|done|done].
  - apply (mutexed_enter s r {| at_server := srv; target := Sweep; phase := Queued (gc l) |} (gc l)); [done|done|].
    by exists p, l.
  - apply (mutexed_remote _ _ _ c); [by apply (mutexed_same s)|done|done].
  - apply mutexed_enter; [done|done|]. apply (mx_own _ Hm r); [done|]. unfold refers. by rewrite Heqp.
  - apply (mutexed_same s); [done| |done|done]. simpl. by intros r' q' [_ ?]%lookup_delete_Some.
  - by apply mutexed_failed.
  - apply mutexed_failed; [by apply (mutexed_same s)|done|done].
  - by apply mutexed_failed.
  - apply (mutexed_remote _ _ _ c); [by apply (mutexed_same s)|done|]. by intros g [= <-].
  - apply (mutexed_same s); [done| |done|done]. simpl. by intros r' q' [_ ?]%lookup_delete_Some.
  - by apply (mutexed_remote _ _ _ n).
  - destruct (local_ g) as [m|] eqn:Hl; [by eapply mutexed_drop|].
    apply (mutexed_same s); [done| |done|done]. simpl. by intros r' q' [_ ?]%lookup_delete_Some.
  - apply (mutexed_same s); [done| |by destruct fault as [[]|]..].
    intros r' q'. destruct fault as [[]|]; simpl; by intros [_ ?]%lookup_delete_Some.
Qed.

(** ** One at a time *)

Lemma reachable_ok kind s : reachable kind s -> connected s /\ mutexed s.
Proof.
  induction 1 as [|e s s' _ [IHc IHm] _ He]; [by split; split; simpl; intros *; rewrite lookup_empty|].
  split; [by eapply connected_step|by eapply mutexed_step].
Qed.

(** A guard is in force while its connection has its session; one of a local lock always. *)
Definition in_force (s : Sys) (r : nat) (t : Target) : Prop :=
  exists q g, requests s !! r = Some q /\ target q = t /\ phase q = Guarded g /\
    forall c, conn g = Some c -> exists x, sessions s !! c = Some x /\ alive x = true.
(** As [connect] asks: local locks only where one server has the database to itself. *)
Definition deployed (s : Sys) : Prop :=
  (forall srv repo, repos s !! srv = Some repo -> local_locks repo = None) \/
  (forall srv srv', is_Some (repos s !! srv) -> is_Some (repos s !! srv') -> srv = srv').

(** What a guard without a connection holds. *)
Lemma guard_local s r q g :
  mutexed s -> requests s !! r = Some q -> phase q = Guarded g -> conn g = None ->
  exists m, held s !! m = Some r /\ owns s q m.
Proof.
  intros Hm Hq Hp Hg. destruct (mx_shape _ Hm _ _ _ Hq Hp) as [[c ->]|[m ->]]; [done|]. exists m.
  split; [by eapply (mx_held _ Hm)|]. eapply (mx_own _ Hm); [done|by eapply refers_guarded].
Qed.
(** Where one server has local locks, all do. *)
Lemma not_mixed s r q1 q2 c m :
  connected s -> deployed s -> requests s !! r = Some q1 -> uses q1 = Some c -> owns s q2 m -> False.
Proof.
  intros Hc Hd Hq Hu (repo2 & l & H2 & Hl & _). destruct (con_remote _ Hc _ _ _ Hq Hu) as (repo1 & H1 & Hn).
  destruct Hd as [Hd|Hd]; [apply Hd in H2; congruence|].
  rewrite (Hd (at_server q1) (at_server q2)) in H1; [congruence|by eexists..].
Qed.

(** C9 Of all requests of all servers on a database, at most one has a guard in force for
    a node, and at most one for sweeping, whatever sessions end, statements are refused or
    lose their answers, releases fail and callers give up. *)
Theorem one_at_a_time kind s t r1 r2 :
  reachable kind s -> deployed s -> in_force s r1 t -> in_force s r2 t -> r1 = r2.
Proof.
  intros [Hc Hm]%reachable_ok Hd (q1 & g1 & Hq1 & Ht1 & Hp1 & Ha1) (q2 & g2 & Hq2 & Ht2 & Hp2 & Ha2).
  destruct (conn g1) as [c1|] eqn:Hg1, (conn g2) as [c2|] eqn:Hg2.
  - destruct (Ha1 c1) as (x1 & Hx1 & Hl1); [done|]. destruct (Ha2 c2) as (x2 & Hx2 & Hl2); [done|].
    pose proof (con_guard _ Hc _ _ _ _ _ Hq1 Hp1 Hg1 Hx1 Hl1). pose proof (con_guard _ Hc _ _ _ _ _ Hq2 Hp2 Hg2 Hx2 Hl2).
    assert (c1 = c2) as <- by congruence. eapply (uses_one s); eauto.
  - destruct (guard_local _ _ _ _ Hm Hq2 Hp2 Hg2) as (m & _ & Ho). destruct (not_mixed s r1 q1 q2 c1 m); eauto.
  - destruct (guard_local _ _ _ _ Hm Hq1 Hp1 Hg1) as (m & _ & Ho). destruct (not_mixed s r2 q2 q1 c2 m); eauto.
  - destruct (guard_local _ _ _ _ Hm Hq1 Hp1 Hg1) as (m1 & Hh1 & repo1 & l1 & Hr1 & Hl1 & Hn1).
    destruct (guard_local _ _ _ _ Hm Hq2 Hp2 Hg2) as (m2 & Hh2 & repo2 & l2 & Hr2 & Hl2 & Hn2).
    destruct Hd as [Hd|Hd]; [apply Hd in Hr1; congruence|].
    rewrite (Hd (at_server q2) (at_server q1)) in Hr2 by eauto. rewrite Ht1 in Hn1. rewrite Ht2 in Hn2.
    destruct t; simplify_eq; congruence.
Qed.

Lemma run_reachable kind es s s' : Forall kind es -> reachable kind s -> run es s = Some s' -> reachable kind s'.
Proof.
  intros Hk. revert s. induction Hk as [|e es He _ IH]; simpl; intros s Hs Hrun; [by simplify_eq|].
  destruct (step e s) as [s1|] eqn:Hstep; [|done]. eapply IH; [|done]. by econstructor.
Qed.

End PgLockFacts.
