(* ===== verification/PgLocksProps.v ===== *)
(** * Waiting for locks, and for connections

    What a request that waits for a lock waits for, and how many connections of a pool
    the locks take. The events are those of [PgLocks.step]. *)
From S2P Require Import Prelude Repository Retry Postgres PgLocks.

Module PgLockWaits.
Import Records PgRetry Pg PgLocks PgLockFacts.

(** ** Every lock that is taken belongs to a request *)

(** No release is refused, and no answer that grants a lock is lost. *)
Definition orderly (e : Event) : Prop :=
  match e with Answer _ (Some (Lost _)) | Release _ (Some (Refused _)) => False | _ => True end.

(** The request has the lock, or its release is on the way. *)
Definition finishing (q : Request) : Prop := match phase q with Guarded _ | Releasing _ => True | _ => False end.
Definition returned (s : Sys) : Prop := forall n c, advisory s !! n = Some c ->
  exists r q, requests s !! r = Some q /\ uses q = Some c /\ finishing q /\ lock_name (target q) = n.

Lemma returned_frame s s' :
  returned s -> (forall n c, advisory s' !! n = Some c -> advisory s !! n = Some c) ->
  (forall n c r q, advisory s' !! n = Some c -> requests s !! r = Some q -> uses q = Some c -> finishing q ->
    exists q', requests s' !! r = Some q' /\ uses q' = Some c /\ finishing q' /\ target q' = target q) ->
  returned s'.
Proof.
  intros Hr Ha Hq n c Hn. destruct (Hr n c (Ha _ _ Hn)) as (r & q & Hrq & Hu & Hf & Ht).
  destruct (Hq _ _ _ _ Hn Hrq Hu Hf) as (q' & ? & ? & ? & Hq'). exists r, q'. rewrite Hq'. done.
Qed.
Lemma returned_insert s r q' :
  returned s -> (forall q, requests s !! r = Some q -> finishing q -> uses q' = uses q /\ target q' = target q /\ finishing q') ->
  returned (set_requests <[r := q']> s).
Proof.
  intros Hr Hq. apply (returned_frame s); [done|done|]. intros n c r0 q0 _ Hr0 Hu Hf. simpl. rewrite lookup_insert.
  case_decide; subst; [|by eauto]. destruct (Hq _ Hr0 Hf) as (Hu' & Ht & Hf'). exists q'. by rewrite Hu', Ht.
Qed.
Lemma not_finishing q c attempt : phase q = Locking c attempt -> ~ finishing q.
Proof. intros Hp Hf. unfold finishing in Hf. by rewrite Hp in Hf. Qed.
Lemma returned_leave s s' r q c :
  connected s -> returned s -> requests s !! r = Some q -> uses q = Some c ->
  (s' = s /\ ~ finishing q) \/ s' = unlock_all c s -> returned (leave r c s').
Proof.
  intros Hc Hr Hq Hu Hs'. apply (returned_frame s); [done| |].
  - intros n c' Hn. destruct Hs' as [[-> _]| ->]; [done|]. simpl in Hn. by apply map_lookup_filter_Some in Hn as [? _].
  - intros n c' r' q' Hn Hq' Hu' Hf'. exists q'. split; [|done].
    assert (r <> r') as Hne; [|destruct Hs' as [[-> _]| ->]; simpl; by rewrite lookup_delete_ne].
    intros <-. simplify_eq. destruct Hs' as [[_ ?]| ->]; [done|]. simpl in Hn.
    by apply map_lookup_filter_Some in Hn as [_ ?].
Qed.
Lemma returned_failed s r q c attempt e :
  connected s -> returned s -> requests s !! r = Some q -> phase q = Locking c attempt -> returned (failed r c attempt e q s).
Proof.
  intros Hc Hr Hq Hp. pose proof (not_finishing _ _ _ Hp) as Hf. unfold failed. case_match.
  - apply returned_insert; [done|]. intros q' Hq' Hf'. simplify_eq. done.
  - apply (returned_leave s s r q c); [done|done|done|unfold uses; by rewrite Hp|by left].
Qed.
Lemma returned_taking s r q c attempt :
  returned s -> requests s !! r = Some q -> phase q = Locking c attempt ->
  returned (set_requests <[r := to_phase (Guarded (holding c)) q]> (taking (lock_name (target q)) c s)).
Proof.
  intros Hr Hq Hp n c'. simpl. rewrite lookup_insert. case_decide as Hd.
  - intros [= <-]. exists r. eexists. rewrite lookup_insert_eq. split; [done|]. done.
  - intros Hn. destruct (Hr n c' Hn) as (r' & q' & Hr' & Hu' & Hf' & Ht'). exists r', q'.
    split; [|done]. rewrite lookup_insert_ne; [done|]. intros <-. simplify_eq.
Qed.
Lemma returned_unlock s s' c :
  returned s -> advisory s' = advisory (unlock_all c s) -> requests s' = requests s -> returned s'.
Proof.
  intros Hr Ha Hq. apply (returned_frame s); [done| |].
  - intros n c'. rewrite Ha. simpl. by intros [? _]%map_lookup_filter_Some.
  - intros n c' r q _ Hrq Hu Hf. exists q. by rewrite Hq.
Qed.

Lemma returned_delete s r q :
  returned s -> requests s !! r = Some q -> uses q = None -> returned (set_requests (delete r) s).
Proof.
  intros Hr Hq Hn. apply (returned_frame s); [done|done|]. intros n c r' q' _ Hr' Hu Hf. exists q'. simpl.
  rewrite lookup_delete_ne; [done|congruence].
Qed.

Lemma returned_step e s s' : orderly e -> connected s -> returned s -> step e s = Some s' -> returned s'.
Proof.
  intros Ho Hc Hr He. step_events e He; try done.
  - apply returned_insert; [done|intros q Hq; simpl in Hq; congruence].
  - apply returned_insert; [done|intros q Hq; simpl in Hq; congruence].
  - eapply (returned_insert s); [done|intros q Hq; congruence].
  - apply returned_insert; [done|intros q Hq; simpl in Hq; congruence].
  - eapply (returned_insert s); [done|]. intros q Hq Hf. simplify_eq. unfold finishing in Hf. by rewrite Heqp in Hf.
  - eapply returned_delete; [done|done|]. unfold uses. by rewrite Heqp.
  - by apply returned_failed.
  - by eapply returned_taking.
  - apply (returned_leave s s r r0 c); [done|done|done|unfold uses; by rewrite Heqp|left; by eauto using not_finishing].
  - apply returned_insert; [done|]. intros q Hq Hf. simplify_eq. unfold uses. by rewrite Heqp.
  - eapply (returned_delete s); [done|done|]. unfold uses. by rewrite Heqp.
  - apply (returned_leave s _ r r0 c); [done|done|done|unfold uses; by rewrite Heqp|].
    right. by destruct fault as [[]|].
  - by apply (returned_unlock s _ c).
  - by apply (returned_unlock s _ c).
Qed.

(** ** Mutexes are not shared, and a locked one has a guard *)

Definition mutex_of (s : Sys) (m srv : nat) (t : Target) : Prop :=
  exists repo l, repos s !! srv = Some repo /\ local_locks repo = Some l /\
    match t with Node id => nodes l !! id = Some m | Sweep => gc l = m end.
Record apart (s : Sys) : Prop := {
  ap_old m srv t : mutex_of s m srv t -> (m < next_mutex s)%nat;
  ap_one m srv t srv' t' : mutex_of s m srv t -> mutex_of s m srv' t' -> srv = srv' /\ t = t';
  ap_held m r : held s !! m = Some r -> exists q g, requests s !! r = Some q /\ phase q = Guarded g /\ local_ g = Some m;
}.

(** The mutexes are the old ones and perhaps a new one. *)
Lemma apart_mutexes s s' srv t :
  apart s -> held s' = held s -> (next_mutex s < next_mutex s')%nat ->
  (forall r q g m, requests s !! r = Some q -> phase q = Guarded g -> local_ g = Some m -> requests s' !! r = Some q) ->
  (forall m srv' t', mutex_of s' m srv' t' -> mutex_of s m srv' t' \/ (m = next_mutex s /\ srv' = srv /\ t' = t)) -> apart s'.
Proof.
  intros Ha Hh Hn Hq Hm. split.
  - intros m srv' t' [?%(ap_old _ Ha)|(-> & _)]%Hm; lia.
  - intros m s1 t1 s2 t2 H1 H2.
    destruct (Hm _ _ _ H1) as [O1|(E1 & -> & ->)], (Hm _ _ _ H2) as [O2|(E2 & -> & ->)]; [by eapply (ap_one _ Ha)| | |done].
    + apply (ap_old _ Ha) in O1. lia.
    + apply (ap_old _ Ha) in O2. lia.
  - rewrite Hh. intros m r (q & g & ? & ? & ?)%(ap_held _ Ha). exists q, g. split; [|done]. by eapply Hq.
Qed.
Lemma apart_requests s s' :
  apart s -> repos s' = repos s -> next_mutex s' = next_mutex s ->
  (forall m r, held s' !! m = Some r -> exists q g, requests s' !! r = Some q /\ phase q = Guarded g /\ local_ g = Some m) ->
  apart s'.
Proof.
  intros Ha Hr Hn Hh. split; [| |done].
  - unfold mutex_of. rewrite Hr, Hn. apply (ap_old _ Ha).
  - unfold mutex_of. rewrite Hr. apply (ap_one _ Ha).
Qed.
(** A request without a local guard comes, goes or changes. *)
Lemma apart_other s s' r :
  apart s -> repos s' = repos s -> next_mutex s' = next_mutex s -> held s' = held s ->
  (forall r', r' <> r -> requests s' !! r' = requests s !! r') ->
  (forall q g, requests s !! r = Some q -> phase q = Guarded g -> local_ g = None) -> apart s'.
Proof.
  intros Ha Hr Hn Hh Hq Hl. apply (apart_requests s); [done..|]. rewrite Hh.
  intros m r' (q & g & Hq' & Hp & Hg)%(ap_held _ Ha). exists q, g. rewrite Hq; [done|]. intros ->.
  by rewrite (Hl q g) in Hg.
Qed.
Lemma apart_take s s' r q m :
  apart s -> repos s' = repos s -> next_mutex s' = next_mutex s -> held s' = <[m := r]> (held s) ->
  requests s' = <[r := to_phase (Guarded (holding_local m)) q]> (requests s) -> (forall m', held s !! m' <> Some r) -> apart s'.
Proof.
  intros Ha Hr Hn Hh Hq Hno. apply (apart_requests s); [done..|]. intros m' r'. rewrite Hh, Hq, lookup_insert.
  case_decide as Hd; subst.
  - intros [= <-]. rewrite lookup_insert_eq. by eexists _, _.
  - intros Hm'. rewrite lookup_insert_ne by (intros <-; by apply (Hno m')). by apply (ap_held _ Ha).
Qed.
Lemma no_hold s r : apart s -> (forall q g, requests s !! r = Some q -> phase q <> Guarded g) -> forall m, held s !! m <> Some r.
Proof. intros Ha Hq m (q & g & Hr & Hp & _)%(ap_held _ Ha). by eapply Hq. Qed.

Lemma apart_node s srv repo l id r :
  apart s -> repos s !! srv = Some repo -> local_locks repo = Some l -> requests s !! r = None ->
  apart (set_requests <[r := {| at_server := srv; target := Node id; phase := Queued (node srv repo l id s).1 |}]>
    (node srv repo l id s).2).
Proof.
  intros Ha Hrepo Hl Hr. apply (apart_mutexes s _ srv (Node id)); [done|done|simpl; lia| |].
  - intros r' q g m Hq _ _. simpl. rewrite lookup_insert_ne; congruence.
  - intros m srv' t' (repo' & l' & Hr' & Hl' & Ht'). simpl in Hr'. rewrite lookup_insert in Hr'. case_decide; subst.
    2: by left; exists repo', l'.
    injection Hr' as <-. injection Hl' as <-. destruct t' as [id'|]; simpl in Ht'; [|by left; exists repo, l].
    rewrite lookup_insert in Ht'. case_decide; subst.
    + injection Ht' as <-. destruct (retain s l !! id') as [m|] eqn:Hm; simpl; [|by right].
      left. exists repo, l. apply map_lookup_filter_Some in Hm as [? _]. done.
    + left. exists repo, l. apply map_lookup_filter_Some in Ht' as [? _]. done.
Qed.

Lemma apart_failed s r c attempt e q :
  apart s -> requests s !! r = Some q -> phase q = Locking c attempt -> apart (failed r c attempt e q s).
Proof.
  intros Ha Hq Hp. apply (apart_other s _ r); [done|by apply failed_repos|unfold failed; by case_match..| |].
  - intros r' Hne. unfold failed. case_match; simpl; [by rewrite lookup_insert_ne|by rewrite lookup_delete_ne].
  - intros q' g Hq' Hp'. congruence.
Qed.

Lemma apart_step e s s' : mutexed s -> apart s -> step e s = Some s' -> apart s'.
Proof.
  intros Hm Ha He. step_events e He; try done.
  - apply (apart_mutexes s _ srv Sweep); [done|done|simpl; lia|by eauto|].
    intros m srv' t' (repo & l & Hr & Hl & Ht). simpl in Hr. rewrite lookup_insert in Hr. case_decide; subst.
    + destruct single_instance; simplify_eq/=. destruct t'; [by rewrite lookup_empty in Ht|by right].
    + left. by exists repo, l.
  - by apply apart_node.
  - apply (apart_other s _ r); [done..| |by rewrite Heqo]. intros. simpl. by rewrite lookup_insert_ne.
  - eapply (apart_take s _ r {| at_server := srv; target := Sweep; phase := Queued 0 |}); [done..|].
    apply no_hold; [done|by rewrite Heqo].
  - apply (apart_other s _ r); [done..| |by rewrite Heqo]. intros. simpl. by rewrite lookup_insert_ne.
  - eapply (apart_take s _ r); [done..|]. apply no_hold; [done|congruence].
  - apply (apart_other s _ r); [done..| |congruence]. intros. simpl. by rewrite lookup_delete_ne.
  - by apply apart_failed.
  - apply apart_failed; [|done|done]. by apply (apart_other s _ r); [..|congruence].
  - by apply apart_failed.
  - apply (apart_other s _ r); [done..| |congruence]. intros. simpl. by rewrite lookup_insert_ne.
  - apply (apart_other s _ r); [done..| |congruence]. intros. simpl. by rewrite lookup_delete_ne.
  - destruct (mx_shape _ Hm _ _ _ Heqo Heqp) as [[c ->]|[m ->]]; [|done].
    apply (apart_other s _ r); [done..| |]; [intros; simpl; by rewrite lookup_insert_ne|].
    intros q g Hq Hp. assert (g = holding c) as -> by congruence. done.
  - destruct (mx_shape _ Hm _ _ _ Heqo Heqp) as [[c ->]|[m ->]]; [done|]. apply (apart_requests s); [done..|].
    simpl. intros m' r' [Hne Hm']%lookup_delete_Some. destruct (ap_held _ Ha _ _ Hm') as (q & g & Hq & Hp & Hl).
    exists q, g. rewrite lookup_delete_ne; [done|]. intros <-. assert (g = holding_local m) as -> by congruence. by simplify_eq/=.
  - apply (apart_other s _ r); [done|by destruct fault as [[]|]..| |congruence].
    intros r' Hne. destruct fault as [[]|]; simpl; by rewrite lookup_delete_ne.
  - apply (apart_requests s); [done..|]. apply (ap_held _ Ha).
  - apply (apart_requests s); [done..|]. apply (ap_held _ Ha).
  - apply (apart_requests s); [done..|]. apply (ap_held _ Ha).
  - apply (apart_requests s); [done..|]. apply (ap_held _ Ha).
Qed.

(** ** What a request waits for *)

Lemma reachable_orderly s : reachable orderly s -> (connected s /\ mutexed s) /\ returned s /\ apart s.
Proof.
  intros H. split; [by eapply reachable_ok|]. induction H as [|e s s' Hs [IHr IHa] Ho He].
  - split; [intros n c; simpl; by rewrite lookup_empty|].
    split; [| |intros m r; simpl; by rewrite lookup_empty];
      intros m srv t; [intros (repo & l & Hr & _)|intros ? ? (repo & l & Hr & _)]; simpl in Hr; by rewrite lookup_empty in Hr.
  - destruct (reachable_ok _ _ Hs). split; [by eapply returned_step|by eapply apart_step].
Qed.

Definition waiting (s : Sys) (q : Request) : Prop :=
  match phase q with
  | Queued _ => True
  | Locking c _ => (exists id, target q = Node id) /\ exists x, sessions s !! c = Some x /\ alive x = true
  | _ => False
  end.
Definition ready (s : Sys) (r : nat) (t : Target) : Prop :=
  exists e s', (e = Enter r \/ e = Answer r None) /\ step e s = Some s' /\ in_force s' r t.

Lemma answer_ready s r q c attempt x :
  requests s !! r = Some q -> phase q = Locking c attempt -> sessions s !! c = Some x -> alive x = true ->
  grants (lock_name (target q)) c s = true -> ready s r (target q).
Proof.
  intros Hq Hp Hx Ha Hg. exists (Answer r None). eexists. split; [by right|]. split.
  - simpl. unfold answer. rewrite Hq, Hp, Hx, Ha, Hg. done.
  - eexists _, _. split; [apply lookup_insert_eq|]. split; [done|]. split; [done|]. intros c' [= <-]. by exists x.
Qed.
Lemma enter_ready s r q m :
  requests s !! r = Some q -> phase q = Queued m -> held s !! m = None -> ready s r (target q).
Proof.
  intros Hq Hp Hm. exists (Enter r). eexists. split; [by left|]. split.
  - simpl. unfold enter. by rewrite Hq, Hp, Hm.
  - eexists _, _. split; [apply lookup_insert_eq|]. split; [done|]. split; [done|]. by intros c'.
Qed.

(** C10 A request that waits for the lock of a node can have it now, or another request has
    it, or has dropped it and its release is on the way: no lock outlives its guard and the
    release, when releases are not refused and no answer is lost. *)
Theorem waits_for_a_holder s r q :
  reachable orderly s -> requests s !! r = Some q -> waiting s q ->
  ready s r (target q) \/
  exists r' q', r' <> r /\ requests s !! r' = Some q' /\ lock_name (target q') = lock_name (target q) /\
    (is_Some (step (DropGuard r') s) \/ is_Some (step (Release r' None) s)).
Proof.
  intros ([Hc Hm] & Hret & Hap)%reachable_orderly Hq Hw. unfold waiting in Hw. destruct (phase q) as [c a|m| |] eqn:Hp; try done.
  - destruct Hw as ((id & Ht) & x & Hx & Ha).
    destruct (grants (lock_name (target q)) c s) eqn:Hg; [left; by eapply answer_ready|]. right.
    unfold grants in Hg. destruct (advisory s !! lock_name (target q)) as [c'|] eqn:Hn; [|done].
    destruct (Hret _ _ Hn) as (r' & q' & Hq' & Hu' & Hf' & Ht'). exists r', q'. split; [|split; [done|split; [done|]]].
    { intros ->. simplify_eq. by apply not_finishing in Hp. }
    unfold finishing in Hf'. unfold uses in Hu'. simpl. unfold drop_guard, release. rewrite Hq'.
    destruct (phase q'); try done; [left; rewrite Hu'|right]; by eexists.
  - destruct (held s !! m) as [r'|] eqn:Hh; [|left; by eapply enter_ready]. right.
    destruct (ap_held _ Hap _ _ Hh) as (q' & g & Hq' & Hp' & Hl'). exists r', q'. split; [intros ->; congruence|].
    assert (Ho : owns s q m) by (apply (mx_own _ Hm r); [done|]; unfold refers; by rewrite Hp).
    assert (Ho' : owns s q' m) by (apply (mx_own _ Hm r'); [done|]; by eapply refers_guarded).
    destruct (ap_one _ Hap _ _ _ _ _ Ho Ho') as [_ Ht]. split; [done|]. split; [by rewrite Ht|]. left.
    simpl. unfold drop_guard. rewrite Hq', Hp'. case_match; by eexists.
Qed.

(** ** The locks and the pool *)

Record pooled (s : Sys) : Prop := {
  po_size srv repo : repos s !! srv = Some repo -> (pool_size srv s <= max_connections repo)%nat;
  po_server c x : sessions s !! c = Some x -> is_Some (repos s !! s_server x);
}.

Definition at_srv (srv : nat) (m : gmap nat Session) : gmap nat Session :=
  filter (fun p : nat * Session => s_server p.2 = srv) m.
Lemma at_srv_mono srv m m' :
  (forall c x, m' !! c = Some x -> s_server x = srv -> exists y, m !! c = Some y /\ s_server y = srv) ->
  (size (at_srv srv m') <= size (at_srv srv m))%nat.
Proof.
  intros H. rewrite <-!size_dom. apply subseteq_size. intros c. rewrite !elem_of_dom.
  intros [x [Hx Hs]%map_lookup_filter_Some]. destruct (H _ _ Hx Hs) as (y & ? & ?). exists y. by apply map_lookup_filter_Some.
Qed.
Lemma pooled_sessions s s' :
  pooled s -> same_repos s s' -> (forall srv, is_Some (repos s' !! srv) -> is_Some (repos s !! srv)) ->
  (forall c x, sessions s' !! c = Some x -> exists y, sessions s !! c = Some y /\ s_server y = s_server x) -> pooled s'.
Proof.
  intros Hp Hr Hd Hs. split.
  - intros srv repo' Hrepo'. destruct (Hd srv) as [repo Hrepo]; [by eexists|].
    destruct (Hr _ _ Hrepo) as (repo'' & ? & Hmax & _). simplify_eq. rewrite Hmax. etrans; [|by apply (po_size _ Hp)].
    apply at_srv_mono. intros c x Hx Hsx. destruct (Hs _ _ Hx) as (y & ? & ?). exists y. split; [done|congruence].
  - intros c x Hx. destruct (Hs _ _ Hx) as (y & Hy & <-). destruct (po_server _ Hp _ _ Hy) as [repo Hrepo].
    destruct (Hr _ _ Hrepo) as (repo' & ? & _). by eexists.
Qed.
Lemma pooled_acquire s srv c u :
  pooled s -> can_acquire srv c s = true -> pooled (set_sessions <[c := {| s_server := srv; alive := true; user := u |}]> s).
Proof.
  intros Hp Hcan. unfold can_acquire in Hcan.
  destruct (sessions s !! c) as [x|] eqn:Hx, (repos s !! srv) as [repo|] eqn:Hrepo; try done.
  - rewrite !andb_true_iff, !bool_decide_eq_true in Hcan. destruct Hcan as [[<- _] _].
    apply (pooled_sessions s); [done|by apply same_repos_refl|done|]. simpl. intros c' y. rewrite lookup_insert.
    case_decide; [|by eauto]. intros [= <-]. subst. by exists x.
  - apply bool_decide_eq_true in Hcan. split; simpl.
    + intros srv' repo' Hrepo'. unfold pool_size. simpl. rewrite map_filter_insert. simpl. case_decide; subst.
      * simplify_eq. rewrite map_size_insert_None; [done|]. apply map_lookup_filter_None. by left.
      * rewrite map_filter_delete, delete_id; [by apply (po_size _ Hp)|]. apply map_lookup_filter_None. by left.
    + intros c' y. rewrite lookup_insert. case_decide; [intros [= <-]; by exists repo|apply (po_server _ Hp)].
Qed.

Lemma pooled_alter s s' f c :
  pooled s -> repos s' = repos s -> sessions s' = alter f c (sessions s) -> (forall x, s_server (f x) = s_server x) -> pooled s'.
Proof.
  intros Hp Hr Hs Hf. apply (pooled_sessions s); [done|by apply same_repos_refl|by rewrite Hr|]. intros c' x.
  rewrite Hs, lookup_alter. case_decide; [|by eauto]. subst. intros (y & Hy & ->)%fmap_Some. exists y. by rewrite Hf.
Qed.
Lemma pooled_failed s r c attempt e q : pooled s -> pooled (failed r c attempt e q s).
Proof.
  intros Hp. unfold failed. case_match; [|by apply (pooled_alter s _ idle c)].
  apply (pooled_sessions s); [done|by apply same_repos_refl|done|by eauto].
Qed.
Lemma pooled_step e s s' : pooled s -> step e s = Some s' -> pooled s'.
Proof.
  intros Hp He. pose proof (step_repos _ _ _ He) as Hsame. step_events e He; try (by apply (pooled_sessions s); eauto).
  - split; simpl.
    + intros srv' repo. rewrite lookup_insert. case_decide; [intros [= <-]; subst|apply (po_size _ Hp)]. simpl.
      unfold pool_size. simpl. replace (filter _ (sessions s)) with (∅ : gmap nat Session); [rewrite map_size_empty; lia|].
      symmetry. apply map_empty. intros c. apply map_lookup_filter_None. right. intros x Hx Hsx. simpl in Hsx.
      destruct (po_server _ Hp _ _ Hx). congruence.
    + intros c x Hx%(po_server _ Hp). rewrite lookup_insert. case_decide; [by eexists|done].
  - apply (pooled_sessions s); [done|done| |by eauto]. intros srv'. simpl. rewrite lookup_insert.
    case_decide; [subst; by eexists|done].
  - apply (pooled_sessions (set_sessions <[c:={| s_server := srv; alive := true; user := ByRequest r |}]> s));
      [by apply pooled_acquire|by apply same_repos_refl|done|by eauto].
  - apply (pooled_sessions (set_sessions <[c:={| s_server := srv; alive := true; user := ByRequest r |}]> s));
      [by apply pooled_acquire|by apply same_repos_refl|done|by eauto].
  - by apply pooled_failed.
  - apply pooled_failed, (pooled_sessions s); [done|by apply same_repos_refl|done|by eauto].
  - by apply pooled_failed.
  - by apply (pooled_alter s _ idle c).
  - apply (pooled_alter s _ idle c); [done|by destruct fault as [[]|]..|done].
  - by apply pooled_acquire.
  - by apply (pooled_alter s _ idle c).
  - by eapply (pooled_alter s _ _ c).
  - apply (pooled_sessions s); [done|done|done|]. simpl. intros c' x [_ ?]%lookup_delete_Some. by eauto.
Qed.
Lemma reachable_pooled kind s : reachable kind s -> pooled s.
Proof.
  induction 1 as [|e s s' _ IH _ He]; [|by eapply pooled_step].
  split; simpl; intros *; by rewrite lookup_empty.
Qed.

(** At a server without local locks every request has a connection. *)
Lemma remote_uses kind s r q repo :
  reachable kind s -> requests s !! r = Some q -> repos s !! at_server q = Some repo -> local_locks repo = None ->
  is_Some (uses q).
Proof.
  intros [Hc Hm]%reachable_ok Hq Hr Hl. unfold uses. destruct (phase q) as [| m|g|] eqn:Hp; [by eexists| | |by eexists].
  - destruct (mx_own _ Hm r q m) as (? & ? & ? & ? & _); [done|unfold refers; by rewrite Hp|]. congruence.
  - destruct (conn g) eqn:Hg; [by eexists|].
    destruct (guard_local _ _ _ _ Hm Hq Hp Hg) as (m & _ & ? & ? & ? & ? & _). congruence.
Qed.

(** The connections of the requests at a server, one each. *)
Definition pairs_at (srv : nat) (s : Sys) : list (nat * Request) :=
  map_to_list (filter (fun p : nat * Request => at_server p.2 = srv) (requests s)).
Definition used_at (srv : nat) (s : Sys) : list nat := (fun p => default O (uses p.2)) <$> pairs_at srv s.

Lemma used_at_spec kind s srv repo :
  reachable kind s -> repos s !! srv = Some repo -> local_locks repo = None ->
  NoDup (used_at srv s) /\ forall c, c ∈ used_at srv s ->
    exists r x, at_srv srv (sessions s) !! c = Some x /\ user x = ByRequest r.
Proof.
  intros Hs Hr Hl. destruct (reachable_ok _ _ Hs) as [Hc _].
  assert (Hat : forall p, p ∈ pairs_at srv s -> requests s !! p.1 = Some p.2 /\ at_server p.2 = srv /\ exists c, uses p.2 = Some c).
  { intros [r q] [Hq Hsrv]%elem_of_map_to_list%map_lookup_filter_Some. simpl in *. subst. split; [done|]. split; [done|].
    by eapply remote_uses. }
  split.
  - apply NoDup_fmap_2_strong; [|apply NoDup_map_to_list]. intros [r1 q1] [r2 q2] H1 H2 Heq.
    destruct (Hat _ H1) as (Hq1 & _ & c1 & Hu1), (Hat _ H2) as (Hq2 & _ & c2 & Hu2). simpl in *.
    rewrite Hu1, Hu2 in Heq. simpl in Heq. subst. assert (r1 = r2) as <- by (by eapply uses_one). congruence.
  - intros c (p & -> & Hp)%list_elem_of_fmap. destruct (Hat _ Hp) as (Hq & Hsrv & c & Hu). rewrite Hu. simpl.
    destruct (con_uses _ Hc _ _ _ Hq Hu) as (x & Hx & Hux & Hsx). exists p.1, x. split; [|done].
    apply map_lookup_filter_Some. split; [done|]. simpl. congruence.
Qed.

(** While as many requests of a server wait for, hold or release node locks as its pool has
    connections, no connection can be had for anything else, in particular not for the queries
    of the requests that hold the locks. *)
Theorem locks_use_up_the_pool kind s srv repo :
  reachable kind s -> repos s !! srv = Some repo -> local_locks repo = None ->
  (max_connections repo <= length (pairs_at srv s))%nat -> forall c, can_acquire srv c s = false.
Proof.
  intros Hs Hr Hl Hlen c. apply not_true_iff_false. intros Hcan.
  destruct (used_at_spec _ _ _ _ Hs Hr Hl) as [Hnd Hin]. pose proof (po_size _ (reachable_pooled _ _ Hs) _ _ Hr) as Hsize.
  assert (Hlen' : length (used_at srv s) = length (pairs_at srv s)) by apply length_fmap.
  assert (Hsub : used_at srv s ⊆+ elements (dom (at_srv srv (sessions s)))).
  { apply NoDup_submseteq; [done|]. intros c' (r & x & Hx & _)%Hin. apply elem_of_elements, elem_of_dom. by eexists. }
  assert (Hpool : length (elements (dom (at_srv srv (sessions s)))) = pool_size srv s) by apply size_dom.
  unfold can_acquire in Hcan. rewrite Hr in Hcan. destruct (sessions s !! c) as [x|] eqn:Hx.
  - rewrite !andb_true_iff, !bool_decide_eq_true in Hcan. destruct Hcan as [[Hsrv _] Hidle].
    assert (Hsame : used_at srv s ≡ₚ elements (dom (at_srv srv (sessions s)))).
    { apply submseteq_length_Permutation; [done|]. lia. }
    assert (Hc : c ∈ used_at srv s).
    { rewrite Hsame. apply elem_of_elements, elem_of_dom. exists x. by apply map_lookup_filter_Some. }
    apply Hin in Hc as (r & y & Hy%map_lookup_filter_Some & Hu). destruct Hy as [Hy _]. congruence.
  - apply bool_decide_eq_true in Hcan. apply submseteq_length in Hsub. lia.
Qed.

End PgLockWaits.
