(* ===== verification/PgLocksExample.v ===== *)
(** * Servers that share a database, evaluated

    Runs of [PgLocks]: two servers that write one file, sixteen writes at once, and what
    is left when a release is refused or a session ends. *)
From S2P Require Import Prelude Repository Retry Postgres PgLocks PgLocksProps.

Module PgLockExample.
Import Records PgRetry Pg PgLocks PgLockFacts PgLockWaits.

Definition file : Uuid := 7.
Definition after (es : list Event) : Sys := default empty (run es empty).
Definition every (e : Event) : Prop := True.
Lemma after_reachable kind es : Forall kind es -> is_Some (run es empty) -> reachable kind (after es).
Proof. intros Hk [s Hs]. unfold after. rewrite Hs. by apply (run_reachable kind es empty); [|constructor|]. Qed.
Lemma every_all es : Forall every es.
Proof. by apply Forall_true. Qed.

(** Two servers; request 1 of the first has the lock, request 2 of the second waits. *)
Definition two_writers : list Event := [
  Connect 0 16 false; Connect 1 16 false; LockNode 1 0 file 10; LockNode 2 1 file 20; Answer 1 None].
Lemma two_writers_orderly : Forall orderly two_writers.
Proof. repeat constructor. Qed.
Lemma two_writers_run : reachable orderly (after two_writers).
Proof. apply after_reachable; [apply two_writers_orderly|by eexists; vm_compute]. Qed.

Lemma one_at_a_time_witness :
  in_force (after two_writers) 1 (Node file) /\ forall r, in_force (after two_writers) r (Node file) -> r = 1%nat.
Proof.
  assert (H1 : in_force (after two_writers) 1 (Node file)).
  { eexists _, (holding 10). split; [vm_compute; reflexivity|]. split; [reflexivity|]. split; [reflexivity|].
    intros c Hc. injection Hc as <-. eexists. split; [vm_compute; reflexivity|reflexivity]. }
  split; [exact H1|]. intros r Hr.
  apply (one_at_a_time orderly (after two_writers) (Node file) r 1); [apply two_writers_run| |exact Hr|exact H1].
  left. intros srv repo Hrepo. assert (Hall : map_Forall (fun _ x => local_locks x = None) (repos (after two_writers))).
  { apply (bool_decide_unpack (map_Forall (fun _ x => local_locks x = None) _)). vm_compute. exact I. }
  exact (Hall _ _ Hrepo).
Defined.

Lemma waits_for_a_holder_witness :
  let s := after two_writers in let q := {| at_server := 1; target := Node file; phase := Locking 20 1 |} in
  (requests s !! 2%nat = Some q /\ waiting s q) /\
  (ready s 2 (target q) \/
   exists r' q', r' <> 2%nat /\ requests s !! r' = Some q' /\ lock_name (target q') = lock_name (target q) /\
     (is_Some (step (DropGuard r') s) \/ is_Some (step (Release r' None) s))).
Proof.
  intros s q. assert (Hq : requests s !! 2%nat = Some q) by (vm_compute; reflexivity).
  assert (Hw : waiting s q).
  { split; [exists file; reflexivity|]. eexists. split; [vm_compute; reflexivity|reflexivity]. }
  split; [by split|]. apply (waits_for_a_holder s 2 q); [apply two_writers_run|exact Hq|exact Hw].
Defined.

(** ** Sixteen writes at once *)

Definition write_to (i : nat) : list Event := [LockNode i 0 (N.of_nat i) i; Answer i None].
Definition sixteen_writers : list Event := Connect 0 16 false :: mjoin (write_to <$> seq 0 16).

(** All sixteen have the lock of their file, and none can get a connection to read its node. *)
Lemma locks_use_up_the_pool_witness :
  let s := after sixteen_writers in
  Forall (fun i => requests s !! i = Some {| at_server := 0; target := Node (N.of_nat i); phase := Guarded (holding i) |}) (seq 0 16) /\
  forall c, can_acquire 0 c s = false.
Proof.
  intros s. split; [vm_compute; repeat constructor|].
  apply (locks_use_up_the_pool every s 0 {| max_connections := 16; local_locks := None |}).
  - apply after_reachable; [apply every_all|]. by eexists; vm_compute.
  - vm_compute. reflexivity.
  - reflexivity.
  - vm_compute. lia.
Defined.

(** ** Locks that outlive guards, guards that outlive locks *)

(** A release that is refused: no request has the lock, and a writer at another server still
    cannot have it; the connection that has it is idle. *)
Definition refused_release : list Event :=
  two_writers ++ [DropGuard 1; Release 1 (Some (Refused (Database (Some "57014"%string) "canceling statement")))].
Lemma lock_outlives_guard :
  let s := after refused_release in
  dom (requests s) = {[2%nat]} /\ advisory s !! lock_name (Node file) = Some 10%nat /\ step (Answer 2 None) s = None /\
  sessions s !! 10%nat = Some {| s_server := 0; alive := true; user := Idle |}.
Proof. vm_compute. done. Qed.

(** The session of the first writer ends while it writes: the second gets the lock, and both
    have a guard for the file. *)
Definition lost_session : list Event := two_writers ++ [SessionEnds 10; Answer 2 None].
Lemma guard_outlives_lock :
  requests (after lost_session) !! 1%nat = Some {| at_server := 0; target := Node file; phase := Guarded (holding 10) |} /\
  requests (after lost_session) !! 2%nat = Some {| at_server := 1; target := Node file; phase := Guarded (holding 20) |}.
Proof. vm_compute. done. Qed.

(** With local locks the map holds a mutex while it is in use. *)
Definition local_writers : list Event := [
  Connect 0 16 true; LockNode 1 0 file 0; LockNode 2 0 file 0; Enter 1; LockNode 3 0 8 0; DropGuard 1; Enter 2; TryLockGc 4 0 0].
Example local_writers_take_turns :
  held (after local_writers) !! 1%nat = Some 2%nat /\ step (Enter 2) (after (take 4 local_writers)) = None /\
  requests (after local_writers) !! 1%nat = None.
Proof. vm_compute. done. Qed.

End PgLockExample.
