(* ===== verification/PgSchema.v ===== *)
(** * Opening a database

    Models [connect], [missing_tables], [ensure_schema] and [migrate] of
    [src/crates/dcfs-db/src/postgres.rs], the migrations of [src/migrations] that
    [src/crates/dcfs-db/src/lib.rs] lists, and [open_postgres] of
    [src/crates/dcfs-server/src/main.rs]: what a server does to a database, which may hold
    tables of others, before it serves.

    The catalogue keeps of each table its columns, which of them must have a value and which
    have a default, the columns that are unique on their own, its named checks, the checks
    and unique indexes its rows stand in the way of, and how many rows it has; the rows of
    DCFS's own tables are [Pg.Db]. Types of columns, triggers and unnamed checks are not
    kept: no statement of the migrations depends on them where the table is DCFS's own.
    Names are resolved in the schema that [connect] puts on the search path: the system
    catalogue behind it has no table of the names used. *)
From S2P Require Import Prelude Repository Retry Postgres.

Module PgSchema.
Import Records PgRetry.

Record Table : Type := {
  columns : gset string; not_null : gset string; defaults : gset string;
  keys : gset string;  (** columns that are a primary key or unique on their own *)
  checks : gset string;
  breaks : gset string;  (** the checks and unique indexes that rows of the table violate *)
  rows : nat;
}.
#[global] Instance Table_eq_dec : EqDecision Table.
Proof. solve_decision. Defined.
Record Catalog : Type := {
  schemas : gset bytes;
  tables : gmap (bytes * string) Table;
  indexes : gset (bytes * string);
}.
Definition set_tables (f : gmap (bytes * string) Table -> gmap (bytes * string) Table) (c : Catalog) : Catalog :=
  {| schemas := schemas c; tables := f (tables c); indexes := indexes c |}.

(** The statements of the migrations. *)
Inductive Ddl : Type :=
| CreateTable (t : string) (cols required defaulted key named_checks references : list string)  (** [IF NOT EXISTS] *)
| CreateIndex (unique : bool) (i t : string) (cols : list string)  (** [IF NOT EXISTS] *)
| AddColumn (t col : string)  (** [IF NOT EXISTS] *)
| DropNotNull (t col : string)
| DropConstraint (t k : string)  (** [IF EXISTS] *)
| AddConstraint (t k : string) (cols : list string)
| DropIfEmpty (t : string).
#[global] Instance Ddl_eq_dec : EqDecision Ddl.
Proof. solve_decision. Defined.

Definition undefined_table : SqlxError := Database (Some "42P01"%string) "relation does not exist".
Definition undefined_column : SqlxError := Database (Some "42703"%string) "column does not exist".
Definition duplicate_object : SqlxError := Database (Some "42710"%string) "constraint already exists".
Definition no_key : SqlxError := Database (Some "42830"%string) "there is no unique constraint matching given keys".
Definition check_violation : SqlxError := Database (Some "23514"%string) "check constraint is violated by some row".
Definition not_unique : SqlxError := Database (Some "23505"%string) "could not create unique index".
Definition null_value : SqlxError := Database (Some "23502"%string) "null value in column".
Definition no_schema : SqlxError := Database (Some "42501"%string) "permission denied for schema pg_catalog".

Definition set_checks (ks : gset string) (x : Table) : Table :=
  {| columns := columns x; not_null := not_null x; defaults := defaults x; keys := keys x; checks := ks;
     breaks := breaks x; rows := rows x |}.
Definition has_columns (cols : list string) (x : Table) : bool := forallb (fun c => bool_decide (c ∈ columns x)) cols.

Section In_schema.
Context (schema : bytes).

(** [to_regclass] *)
Definition resolve (t : string) (c : Catalog) : option Table := tables c !! (schema, t).

(** Change table [t] where it has the columns [cols]. *)
Definition alter_table (t : string) (cols : list string) (f : Table -> result SqlxError Table) (c : Catalog)
  : result SqlxError Catalog :=
  match resolve t c with
  | None => Err undefined_table
  | Some x =>
      if has_columns cols x
      then match f x with Ok x' => Ok (set_tables <[(schema, t) := x']> c) | Err e => Err e end
      else Err undefined_column
  end.
(** The columns a [PRIMARY KEY] makes unique on their own. *)
Definition keys_of (key : list string) : gset string := match key with [k] => {[k]} | _ => ∅ end.
(** [REFERENCES r(id)], in a table [t] with this key. *)
Definition reference_error (t : string) (key : list string) (c : Catalog) (r : string) : option SqlxError :=
  let keyed ks := if bool_decide ("id"%string ∈ ks) then None else Some no_key in
  if bool_decide (r = t) then keyed (keys_of key)
  else match resolve r c with
       | Some x => if has_columns ["id"%string] x then keyed (keys x) else Some undefined_column
       | None => Some undefined_table
       end.

Definition exec (d : Ddl) (c : Catalog) : result SqlxError Catalog :=
  match d with
  | CreateTable t cols required defaulted key named references =>
      if bool_decide (schema ∈ schemas c) then
        match resolve t c with
        | Some _ => Ok c
        | None =>
            match head (omap (reference_error t key c) references) with
            | None => Ok (set_tables <[(schema, t) :=
                {| columns := list_to_set cols; not_null := list_to_set required; defaults := list_to_set defaulted;
                   keys := keys_of key; checks := list_to_set named; breaks := ∅; rows := 0 |}]> c)
            | Some e => Err e
            end
        end
      else Err no_schema
  | CreateIndex unique i t cols =>
      match resolve t c with
      | None => Err undefined_table
      | Some x =>
          if bool_decide ((schema, i) ∈ indexes c) then Ok c
          else if has_columns cols x
          then if unique && bool_decide (i ∈ breaks x) then Err not_unique
               else Ok {| schemas := schemas c; tables := tables c; indexes := {[(schema, i)]} ∪ indexes c |}
          else Err undefined_column
      end
  | AddColumn t col => alter_table t []
      (fun x => Ok {| columns := {[col]} ∪ columns x; not_null := not_null x; defaults := defaults x; keys := keys x;
                      checks := checks x; breaks := breaks x; rows := rows x |}) c
  | DropNotNull t col => alter_table t [col]
      (fun x => Ok {| columns := columns x; not_null := not_null x ∖ {[col]}; defaults := defaults x; keys := keys x;
                      checks := checks x; breaks := breaks x; rows := rows x |}) c
  | DropConstraint t k => alter_table t []
      (fun x => Ok (set_checks (checks x ∖ {[k]}) x)) c
  | AddConstraint t k cols => alter_table t cols
      (fun x => if bool_decide (k ∈ checks x) then Err duplicate_object
                else if bool_decide (k ∈ breaks x) then Err check_violation
                else Ok (set_checks ({[k]} ∪ checks x) x)) c
  | DropIfEmpty t =>
      match resolve t c with
      | Some x => if decide (rows x = 0)%nat then Ok (set_tables (delete (schema, t)) c) else Ok c
      | None => Ok c
      end
  end.

Fixpoint exec_all (ds : list Ddl) (c : Catalog) : result SqlxError Catalog :=
  match ds with
  | [] => Ok c
  | d :: ds => match exec d c with Ok c => exec_all ds c | Err e => Err e end
  end.
(** What the first [n] statements leave, as far as they succeed. *)
Fixpoint partway (n : nat) (ds : list Ddl) (c : Catalog) : Catalog :=
  match n, ds with
  | S n, d :: ds => match exec d c with Ok c => partway n ds c | Err _ => c end
  | _, _ => c
  end.

End In_schema.

(** ** The migrations *)

Open Scope string_scope.
Definition MIGRATION_0001 : list Ddl := [
  CreateTable "nodes" ["id"; "parent_id"; "name"; "kind"; "mode"; "uid"; "gid"; "size"; "atime"; "mtime"; "ctime";
      "current_version_id"; "generation"; "deleted_at"]
    ["id"; "name"; "kind"; "mode"; "uid"; "gid"; "size"; "atime"; "mtime"; "ctime"; "generation"]
    ["size"; "atime"; "mtime"; "ctime"; "generation"] ["id"] ["nodes_kind_check"] ["nodes"];
  CreateIndex true "idx_nodes_live_name" "nodes" ["parent_id"; "name"; "deleted_at"];
  CreateIndex false "idx_nodes_parent" "nodes" ["parent_id"; "deleted_at"];
  CreateTable "file_versions" ["id"; "node_id"; "base_version_id"; "state"; "size"; "plaintext_hash"; "chunk_size";
      "created_at"; "committed_at"]
    ["id"; "node_id"; "state"; "size"; "plaintext_hash"; "chunk_size"; "created_at"] ["created_at"] ["id"]
    ["file_versions_state_check"] ["nodes"; "file_versions"];
  CreateIndex false "idx_file_versions_node_state" "file_versions" ["node_id"; "state"];
  CreateTable "file_chunks" ["version_id"; "chunk_index"; "logical_offset"; "plaintext_size"; "plaintext_hash"; "object_id"]
    ["version_id"; "chunk_index"; "logical_offset"; "plaintext_size"; "plaintext_hash"; "object_id"] []
    ["version_id"; "chunk_index"] [] ["file_versions"];
  CreateTable "stored_objects" ["id"; "guild_id"; "channel_id"; "message_id"; "attachment_id"; "ciphertext_size";
      "crypto_key_id"; "nonce"; "object_hash"; "created_at"; "deleted_at"]
    ["id"; "guild_id"; "channel_id"; "message_id"; "attachment_id"; "ciphertext_size"; "crypto_key_id"; "nonce";
     "object_hash"; "created_at"] ["created_at"] ["id"] [] [];
  CreateTable "sessions" ["id"; "user_id"; "namespace_id"; "created_at"; "expires_at"; "revoked_at"]
    ["id"; "user_id"; "namespace_id"; "created_at"; "expires_at"] ["created_at"] ["id"] [] [];
  CreateIndex false "idx_sessions_user" "sessions" ["user_id"; "expires_at"; "revoked_at"]].
Definition MIGRATION_0002 : list Ddl := [
  AddColumn "nodes" "link_target";
  DropConstraint "nodes" "nodes_kind_check"; AddConstraint "nodes" "nodes_kind_check" ["kind"];
  DropConstraint "nodes" "nodes_link_target_check"; AddConstraint "nodes" "nodes_link_target_check" ["kind"; "link_target"]].
Definition MIGRATION_0003 : list Ddl := [CreateIndex false "idx_file_chunks_object" "file_chunks" ["object_id"]].
Definition MIGRATION_0004 : list Ddl := [
  AddColumn "sessions" "token_hash"; AddColumn "sessions" "label"; CreateIndex true "idx_sessions_token" "sessions" ["token_hash"];
  DropIfEmpty "upload_jobs"].
Definition MIGRATION_0005 : list Ddl := [
  DropNotNull "stored_objects" "guild_id"; DropNotNull "stored_objects" "channel_id"; DropNotNull "stored_objects" "nonce";
  AddColumn "stored_objects" "url"; AddColumn "stored_objects" "backend"].
Definition MIGRATIONS : list (list Ddl) := [MIGRATION_0001; MIGRATION_0002; MIGRATION_0003; MIGRATION_0004; MIGRATION_0005].

Definition REQUIRED_TABLES : list string := ["nodes"; "file_versions"; "file_chunks"; "stored_objects"; "sessions"].
Definition NODE_COLUMNS : list string := ["id"; "parent_id"; "name"; "kind"; "mode"; "uid"; "gid"; "size"; "atime"; "mtime";
  "ctime"; "current_version_id"; "generation"; "link_target"].
(** The columns to which the statement that inserts a root gives a value. *)
Definition ROOT_COLUMNS : list string := ["id"; "name"; "kind"; "mode"; "uid"; "gid"].
Close Scope string_scope.

(** ** The methods *)

(** The database: its catalogue, and the rows and the count of statements of [Pg.Conn]. *)
Record Setup : Type := { cat : Catalog; pg : Pg.Conn }.
Definition tick (c : Catalog) (s : Setup) : Setup := {| cat := c; pg := {| Pg.db := Pg.db (pg s); Pg.sent := S (Pg.sent (pg s)) |} |}.

Section Methods.
Context `{HashOrder} (to_string : SqlxError -> string).
(** Which statements fail, and how much of a script that failed stays: none of it where the
    script is one transaction. *)
Context (faults : nat -> option Pg.Fault) (kept : nat -> nat).
Context (schema : bytes).

Definition M (A : Type) : Type := Setup -> result (fault RepositoryError) A * Setup.
#[global] Instance open_ret : MRet M := fun A a s => (Ok a, s).
#[global] Instance open_bind : MBind M := fun A B f m s =>
  match m s with
  | (Ok a, s') => f a s'
  | (Err e, s') => (Err e, s')
  end.

(** [sqlx::raw_sql(script)], or one statement. *)
Definition raw_sql (script : Catalog -> result SqlxError Catalog) (part : nat -> Catalog -> Catalog) (s : Setup)
  : result SqlxError unit * Setup :=
  let n := Pg.sent (pg s) in
  let stays := part (kept n) (cat s) in
  match faults n, script (cat s) with
  | None, Ok c => (Ok tt, tick c s)
  | None, Err e => (Err e, tick stays s)
  | Some (Pg.Refused e), _ => (Err e, tick stays s)
  | Some (Pg.Lost e), Ok c => (Err e, tick c s)
  | Some (Pg.Lost e), Err _ => (Err e, tick stays s)
  end.
Definition retried {A} (op : Setup -> result SqlxError A * Setup) : M A := retrying to_string (fun _ s => s) op.

(** [to_regclass($1)], [None] where there is no such table. *)
Definition to_regclass (t : string) (s : Setup) : result SqlxError (option string) * Setup :=
  let s' := tick (cat s) s in
  match faults (Pg.sent (pg s)) with
  | Some (Pg.Refused e) | Some (Pg.Lost e) => (Err e, s')
  | None => (Ok (match resolve schema t (cat s) with Some _ => Some t | None => None end), s')
  end.
Fixpoint missing_among (required missing : list string) : M (list string) :=
  match required with
  | [] => mret missing
  | t :: required =>
      found ← retried (to_regclass t);
      missing_among required (match found with None => missing ++ [t] | Some _ => missing end)
  end.
Definition missing_tables : M (list string) := missing_among REQUIRED_TABLES [].

Definition invalid_schema : RepositoryError := Records.Database "invalid schema name".
Definition create_schema (name : bytes) (c : Catalog) : result SqlxError Catalog :=
  Ok {| schemas := {[name]} ∪ schemas c; tables := tables c; indexes := indexes c |}.
Definition ensure_schema (name : bytes) : M unit :=
  if Pg.validate_schema_name name
  then retried (raw_sql (create_schema name) (fun _ c => c))
  else fun s => (Err (Fail invalid_schema), s).

Fixpoint apply_migrations (ms : list (list Ddl)) : M unit :=
  match ms with
  | [] => mret tt
  | m :: ms => _ ← retried (raw_sql (exec_all schema m) (fun n => partway schema n m)); apply_migrations ms
  end.
Definition migrate : M unit := apply_migrations MIGRATIONS.

(** [Pg.ensure_root], whose first statement names the columns it reads, and whose second leaves
    the others to their defaults. *)
Definition insertable (x : Table) : bool := bool_decide (not_null x ⊆ list_to_set ROOT_COLUMNS ∪ defaults x).
Definition refused_root : Pg.M NodeRecord :=
  found ← Pg.run to_string faults (Pg.select Pg.find_root);
  match found with
  | Some n => mret n
  | None => Pg.run to_string faults (fun _ => Err null_value)
  end.
Definition ensure_root (id : Uuid) (now : Z) : M NodeRecord := fun s =>
  let ask (m : Pg.M NodeRecord) := let (r, c) := m (pg s) in (r, {| cat := cat s; pg := c |}) in
  let stop (e : SqlxError) := let e := match faults (Pg.sent (pg s)) with Some (Pg.Refused e) | Some (Pg.Lost e) => e | None => e end in
                (Err (Fail (db_err to_string e)), tick (cat s) s) in
  match resolve schema "nodes" (cat s) with
  | Some x =>
      if has_columns ("deleted_at"%string :: NODE_COLUMNS) x
      then if insertable x then ask (Pg.ensure_root to_string faults id now) else ask refused_root
      else stop undefined_column
  | None => stop undefined_table
  end.

(** ** [open_postgres] *)

Record PgRepository : Type := { max_connections : Z; search_path : bytes; single_instance : bool }.
(** [connect]; [reaches]: whether the database lets the server in. *)
Definition connect (reaches : option SqlxError) (max : Z) (single : bool) : result (fault RepositoryError) PgRepository :=
  if Pg.validate_schema_name schema then
    match reaches with
    | None => Ok {| max_connections := max; search_path := schema; single_instance := single |}
    | Some e => Err (Fail (Records.Database (to_string e)))
    end
  else Err (Fail invalid_schema).

Inductive Exit : Type :=
| CannotConnect (e : fault RepositoryError) | CannotCreateSchema (e : fault RepositoryError)
| MigrationFailed (e : fault RepositoryError) | MissingTables (missing : list string)
| CannotInspect (e : fault RepositoryError) | NoRoot (e : fault RepositoryError).

Definition or_exit {A B} (exit : fault RepositoryError -> Exit) (m : M A) (k : A -> Setup -> result Exit B * Setup) (s : Setup)
  : result Exit B * Setup :=
  match m s with (Ok a, s') => k a s' | (Err e, s') => (Err (exit e), s') end.
Definition install (auto_migrate : bool) (k : Setup -> result Exit PgRepository * Setup) (s : Setup)
  : result Exit PgRepository * Setup :=
  if auto_migrate
  then or_exit CannotCreateSchema (ensure_schema schema) (fun _ => or_exit MigrationFailed migrate (fun _ => k)) s
  else k s.
Definition open_postgres (reaches : option SqlxError) (auto_migrate single : bool) (root : Uuid) (now : Z) (s : Setup)
  : result Exit PgRepository * Setup :=
  match connect reaches 16 single with
  | Err e => (Err (CannotConnect e), s)
  | Ok repo =>
      install auto_migrate
        (or_exit CannotInspect missing_tables (fun missing s =>
           match missing with
           | [] => or_exit NoRoot (ensure_root root now) (fun _ s => (Ok repo, s)) s
           | _ => (Err (MissingTables missing), s)
           end)) s
  end.

End Methods.
End PgSchema.
