(* ===== verification/PgSchemaProps.v ===== *)
(** * What opening a database does to it

    Whatever fails, a server changes nothing of others but an empty table [upload_jobs]; a
    server that starts finds its tables and a root; the migrations install and complete the
    tables, and applying them again changes nothing. That the migrations, in their order,
    cannot fail and do not undo each other is decided by two checkers that are proved sound
    ([check], [clash]) and evaluated. *)
From S2P Require Import Prelude Repository Retry Postgres PostgresFacts PgSchema.

Module PgSchemaFacts.
Import Records PgRetry PgSchema.

Definition table_of (d : Ddl) : string :=
  match d with
  | CreateTable t _ _ _ _ _ _ | CreateIndex _ _ t _ | AddColumn t _ | DropNotNull t _ | DropConstraint t _
  | AddConstraint t _ _ | DropIfEmpty t => t
  end.
Definition drops (d : Ddl) : bool := match d with DropIfEmpty _ => true | _ => false end.

(** ** Attempts *)

Section Retrying.
Context {St A : Type} (to_string : SqlxError -> string) (op : St -> result SqlxError A * St).
Context (R : St -> St -> Prop) `{!Reflexive R, !Transitive R} (op_R : forall s, R s (op s).2).

(** Attempts that keep to [R] do so together, and an answer is that of an attempt. *)
Lemma retrying_R s :
  R s (retrying to_string (fun _ s => s) op s).2 /\
  forall a, (retrying to_string (fun _ s => s) op s).1 = Ok a -> exists s0, R s s0 /\
    op s0 = (Ok a, (retrying to_string (fun _ s => s) op s).2).
Proof.
  unfold retrying. generalize 250, (seqZ 1 MAX_ATTEMPTS). intros delay l. revert delay s.
  induction l as [|n l IH]; intros delay s; simpl; [done|]. pose proof (op_R s) as Hop.
  destruct (op s) as [[v|e] s1] eqn:Hs; simpl in *.
  - split; [done|]. intros a [= <-]. by exists s.
  - case_match; simpl; [|done]. destruct (IH (delay * 2) s1) as [HR Ha]. split; [by etrans|].
    intros a (s0 & ? & ?)%Ha. exists s0. split; [by etrans|done].
Qed.
End Retrying.

(** ** What one statement does *)

Section In_schema.
Context (schema : bytes).
Abbreviation exec := (exec schema).
Abbreviation exec_all := (exec_all schema).
Abbreviation resolve := (resolve schema).

(** A table after a statement: nothing is taken from it. *)
Record grown (x x' : Table) : Prop := {
  gr_columns : columns x ⊆ columns x';
  gr_not_null : not_null x' ⊆ not_null x;
  gr_defaults : defaults x' = defaults x;
  gr_keys : keys x' = keys x;
  gr_breaks : breaks x' = breaks x;
  gr_rows : rows x' = rows x;
}.
Lemma grown_refl x : grown x x.
Proof. done. Qed.
Lemma grown_trans x y z : grown x y -> grown y z -> grown x z.
Proof. intros [] []. split; [set_solver|set_solver|congruence..]. Qed.

Lemma alter_table_spec t cols f c c' :
  alter_table schema t cols f c = Ok c' ->
  exists x x', resolve t c = Some x /\ has_columns cols x = true /\ f x = Ok x' /\ c' = set_tables <[(schema, t) := x']> c.
Proof.
  unfold alter_table. destruct (resolve t c) as [x|]; [|done]. destruct (has_columns cols x) eqn:Hc; [|done].
  destruct (f x) as [x'|] eqn:Hf; [|done]. intros [= <-]. by exists x, x'.
Qed.

Lemma exec_schemas d c c' : exec d c = Ok c' -> schemas c' = schemas c.
Proof.
  destruct d; simpl; try (intros (? & ? & _ & _ & _ & ->)%alter_table_spec; done).
  all: repeat case_match; intros [= <-]; done.
Qed.
Lemma exec_other d c c' k : exec d c = Ok c' -> k <> (schema, table_of d) -> tables c' !! k = tables c !! k.
Proof.
  intros He Hk. destruct d; simpl in *;
    try (apply alter_table_spec in He as (? & ? & _ & _ & _ & ->); simpl; by rewrite lookup_insert_ne).
  all: repeat case_match; simplify_eq; simpl; try done; by rewrite ?lookup_insert_ne, ?lookup_delete_ne.
Qed.
Lemma exec_grows d c c' x :
  exec d c = Ok c' -> resolve (table_of d) c = Some x ->
  (exists x', resolve (table_of d) c' = Some x' /\ grown x x') \/ (drops d = true /\ rows x = 0%nat /\ resolve (table_of d) c' = None).
Proof.
  intros He Hx. destruct d; simpl in *; try (rewrite Hx in He);
    try (apply alter_table_spec in He as (y & x' & Hy & _ & Hf & ->); unfold PgSchema.resolve in *; simpl; rewrite lookup_insert_eq;
         simplify_eq; left; eexists; split; [done|]; repeat case_match; simplify_eq; split; simpl; [set_solver|set_solver|done..]).
  all: repeat case_match; simplify_eq; try (left; by exists x).
  right. unfold PgSchema.resolve. simpl. by rewrite lookup_delete_eq.
Qed.

(** ** Only DCFS's tables are touched *)

Definition ours (d : Ddl) : bool := if drops d then bool_decide (table_of d = "upload_jobs"%string) else bool_decide (table_of d ∈ REQUIRED_TABLES).
Record spares (c c' : Catalog) : Prop := {
  sp_schemas : schemas c ⊆ schemas c' /\ schemas c' ⊆ {[schema]} ∪ schemas c;
  sp_other k : ~ (k.1 = schema /\ (k.2 ∈ REQUIRED_TABLES \/ k.2 = "upload_jobs"%string)) -> tables c' !! k = tables c !! k;
  sp_ours t x : t ∈ REQUIRED_TABLES -> resolve t c = Some x -> exists x', resolve t c' = Some x' /\ grown x x';
  sp_jobs x : resolve "upload_jobs" c = Some x -> resolve "upload_jobs" c' = Some x \/ (rows x = 0%nat /\ resolve "upload_jobs" c' = None);
  sp_no_jobs : resolve "upload_jobs" c = None -> resolve "upload_jobs" c' = None;
}.
Lemma spares_refl c : spares c c.
Proof. split; [set_solver|done| |by left|done]. intros t x _ Hx. by exists x. Qed.
Lemma spares_trans a b c : spares a b -> spares b c -> spares a c.
Proof.
  intros Hab Hbc. split.
  - pose proof (sp_schemas _ _ Hab). pose proof (sp_schemas _ _ Hbc). set_solver.
  - intros k Hk. rewrite (sp_other _ _ Hbc), (sp_other _ _ Hab) by done. done.
  - intros t x Ht Hx. destruct (sp_ours _ _ Hab _ _ Ht Hx) as (y & Hy & ?). destruct (sp_ours _ _ Hbc _ _ Ht Hy) as (z & Hz & ?).
    exists z. split; [done|by eapply grown_trans].
  - intros x Hx. destruct (sp_jobs _ _ Hab _ Hx) as [Hb|[? Hb]]; [by apply (sp_jobs _ _ Hbc)|].
    right. split; [done|by apply (sp_no_jobs _ _ Hbc)].
  - intros Hx. by apply (sp_no_jobs _ _ Hbc), (sp_no_jobs _ _ Hab).
Qed.

Lemma not_required : "upload_jobs"%string ∉ REQUIRED_TABLES.
Proof. by apply (bool_decide_unpack ("upload_jobs"%string ∉ REQUIRED_TABLES)). Qed.
Lemma exec_spares d c c' : ours d = true -> exec d c = Ok c' -> spares c c'.
Proof.
  intros Ho He. unfold ours in Ho.
  assert (Hjobs : drops d = true \/ resolve "upload_jobs" c' = resolve "upload_jobs" c).
  { destruct (drops d) eqn:Hd; [by left|right]. apply bool_decide_eq_true in Ho. apply (exec_other d); [done|].
    intros [= Heq]. rewrite <-Heq in Ho. by apply not_required. }
  split.
  - rewrite (exec_schemas _ _ _ He). set_solver.
  - intros k Hk. apply (exec_other d); [done|]. intros ->. apply Hk. simpl. split; [done|].
    destruct (drops d); apply bool_decide_eq_true in Ho; auto.
  - intros t x Ht Hx. destruct (decide (t = table_of d)) as [->|Hne].
    + destruct (exec_grows _ _ _ _ He Hx) as [?|(Hd & _)]; [done|]. rewrite Hd in Ho. apply bool_decide_eq_true in Ho.
      rewrite Ho in Ht. by apply not_required in Ht.
    + exists x. split; [|done]. unfold PgSchema.resolve. rewrite (exec_other d c) by (done || congruence). done.
  - intros x Hx. destruct Hjobs as [Hd| ->]; [|by left]. rewrite Hd in Ho. apply bool_decide_eq_true in Ho.
    destruct d; try done. simpl in *. subst. rewrite Hx in He. case_match; simplify_eq; [right|by left].
    unfold PgSchema.resolve. simpl. by rewrite lookup_delete_eq.
  - intros Hx. destruct Hjobs as [Hd| ->]; [|done]. rewrite Hd in Ho. apply bool_decide_eq_true in Ho.
    destruct d; try done. simpl in *. subst. rewrite Hx in He. by simplify_eq.
Qed.
Lemma exec_all_spares ds c c' : forallb ours ds = true -> exec_all ds c = Ok c' -> spares c c'.
Proof.
  revert c. induction ds as [|d ds IH]; simpl; intros c Ho He; [simplify_eq; apply spares_refl|].
  apply andb_true_iff in Ho as [Hd Ho]. destruct (exec d c) as [c1|] eqn:Hc; [|done].
  eapply spares_trans; [by eapply exec_spares|by apply IH].
Qed.
Lemma partway_spares n ds c : forallb ours ds = true -> spares c (partway schema n ds c).
Proof.
  revert n c. induction ds as [|d ds IH]; intros [|n] c Ho; simpl; try apply spares_refl.
  simpl in Ho. apply andb_true_iff in Ho as [Hd Ho]. destruct (exec d c) as [c1|] eqn:Hc; [|apply spares_refl].
  eapply spares_trans; [by eapply exec_spares|by apply IH].
Qed.

(** ** The methods *)

Section Methods.
Context `{HashOrder} (to_string : SqlxError -> string) (faults : nat -> option Pg.Fault) (kept : nat -> nat).

(** The tables of others are spared and no row is changed. *)
Definition gentle (s s' : Setup) : Prop := spares (cat s) (cat s') /\ Pg.db (pg s') = Pg.db (pg s).
#[local] Instance gentle_refl : Reflexive gentle.
Proof. intros s. split; [apply spares_refl|done]. Qed.
#[local] Instance gentle_trans : Transitive gentle.
Proof. intros a b c [? ?] [? ?]. split; [by eapply spares_trans|congruence]. Qed.

Definition gentle_method {A} (m : M A) : Prop := forall s, gentle s (m s).2.
Lemma gentle_bind {A B} (m : M A) (f : A -> M B) : gentle_method m -> (forall a, gentle_method (f a)) -> gentle_method (m ≫= f).
Proof.
  intros Hm Hf s. unfold mbind, open_bind. pose proof (Hm s). destruct (m s) as [[a|e] s1]; simpl in *; [|done].
  etrans; [done|apply Hf].
Qed.
Lemma raw_sql_gentle script part s :
  (forall c c', script c = Ok c' -> spares c c') -> (forall n c, spares c (part n c)) ->
  gentle s (raw_sql faults kept script part s).2.
Proof. intros Hs Hp. unfold raw_sql. repeat case_match; (split; [simpl; by auto|done]). Qed.
Lemma to_regclass_gentle t s : gentle s (to_regclass faults schema t s).2.
Proof. unfold to_regclass. repeat case_match; (split; [apply spares_refl|done]). Qed.
Lemma missing_among_gentle required missing : gentle_method (missing_among to_string faults schema required missing).
Proof.
  revert missing. induction required as [|t required IH]; intros missing; simpl; [by intros s|].
  apply gentle_bind; [|by intros]. intros s. apply (retrying_R to_string _ gentle). apply to_regclass_gentle.
Qed.
Lemma create_schema_spares c c' : create_schema schema c = Ok c' -> spares c c'.
Proof.
  intros [= <-]. split; simpl; [set_solver|done| |by left|done]. intros t x _ Hx. by exists x.
Qed.
Lemma ensure_schema_gentle : gentle_method (ensure_schema to_string faults kept schema).
Proof.
  intros s. unfold ensure_schema. case_match; [|done]. apply (retrying_R to_string _ gentle). intros s'.
  apply raw_sql_gentle; [apply create_schema_spares|intros; apply spares_refl].
Qed.
Lemma apply_migrations_gentle ms :
  forallb (forallb ours) ms = true -> gentle_method (apply_migrations to_string faults kept schema ms).
Proof.
  induction ms as [|m ms IH]; simpl; intros Ho; [by intros s|]. apply andb_true_iff in Ho as [Hm Ho].
  apply gentle_bind; [|by intros; apply IH]. intros s. apply (retrying_R to_string _ gentle). intros s'.
  apply raw_sql_gentle; [intros c c'; by apply exec_all_spares|intros; by apply partway_spares].
Qed.
Lemma migrate_gentle : gentle_method (migrate to_string faults kept schema).
Proof. by apply apply_migrations_gentle. Qed.

(** Rows: at most a root is added. *)
Definition root_added (root : Uuid) (now : Z) (d d' : Pg.Db) : Prop :=
  d' = d \/ (Pg.nodes d !! root = None /\
    d' = Pg.with_nodes d (<[root := {| Pg.node := Pg.root_row root now; Pg.n_deleted_at := None |}]> (Pg.nodes d))).
Lemma run_select {A} (f : Pg.Db -> A) c r c' : Pg.run to_string faults (Pg.select f) c = (r, c') ->
  Pg.db c' = Pg.db c /\ forall a, r = Ok a -> a = f (Pg.db c).
Proof.
  unfold Pg.run, Pg.execute, Pg.select. simpl. destruct (faults (Pg.sent c)) as [[e|e]|]; intros [= <- <-]; simpl; split; try done.
  by intros a [= <-].
Qed.
Lemma insert_root_rows root now c r c' :
  Pg.run to_string faults (Pg.insert_or_nothing (Pg.root_row root now)) c = (r, c') -> root_added root now (Pg.db c) (Pg.db c').
Proof.
  assert (Hq : match Pg.insert_or_nothing (Pg.root_row root now) (Pg.db c) with
               | Ok (_, d) => root_added root now (Pg.db c) d | Err _ => True end).
  { unfold Pg.insert_or_nothing, Pg.insert_node. simpl. repeat case_match; simplify_eq; try done; try (by left).
    right. split; [|done]. apply eq_None_not_Some. by match goal with
      | Hor : bool_decide _ || _ = false |- _ => apply orb_false_iff in Hor as [?%bool_decide_eq_false _] end. }
  unfold Pg.run, Pg.execute. destruct (Pg.insert_or_nothing _ _) as [[[] d]|e0], (faults (Pg.sent c)) as [[e|e]|];
    intros [= <- <-]; simpl; done || by left.
Qed.
Lemma root_added_trans root now a b c : a = b -> root_added root now b c -> root_added root now a c.
Proof. by intros ->. Qed.
Lemma pg_ensure_root_rows root now c r c' :
  Pg.ensure_root to_string faults root now c = (r, c') ->
  root_added root now (Pg.db c) (Pg.db c') /\ forall n, r = Ok n -> Pg.find_root (Pg.db c') = Some n.
Proof.
  unfold Pg.ensure_root, mbind, Pg.pg_bind, mret, Pg.pg_ret, Pg.or_not_found.
  destruct (Pg.run to_string faults (Pg.select Pg.find_root) c) as [r1 c1] eqn:H1. apply run_select in H1 as [Hd1 H1].
  destruct r1 as [[n|]|e]; [|..].
  - intros [= <- <-]. rewrite Hd1. split; [by left|]. intros n' [= <-]. symmetry. by apply H1.
  - destruct (Pg.run to_string faults _ c1) as [r2 c2] eqn:H2. apply insert_root_rows in H2. rewrite Hd1 in H2.
    destruct r2 as [[]|e]; [|intros [= <- <-]; done].
    destruct (Pg.run to_string faults _ c2) as [r3 c3] eqn:H3. apply run_select in H3 as [Hd3 H3].
    destruct r3 as [o|e]; [|intros [= <- <-]; by rewrite Hd3]. specialize (H3 o eq_refl).
    destruct o; intros [= <- <-]; rewrite Hd3; (split; [done|]); [|done]. by intros ? [= <-].
  - intros [= <- <-]. rewrite Hd1. split; [by left|done].
Qed.
Lemma refused_root_rows c r c' :
  refused_root to_string faults c = (r, c') -> Pg.db c' = Pg.db c /\ forall n, r = Ok n -> Pg.find_root (Pg.db c') = Some n.
Proof.
  unfold refused_root, mbind, Pg.pg_bind, mret, Pg.pg_ret.
  destruct (Pg.run to_string faults (Pg.select Pg.find_root) c) as [r1 c1] eqn:H1. apply run_select in H1 as [Hd1 H1].
  destruct r1 as [[n|]|e]; [|..].
  - intros [= <- <-]. rewrite Hd1. split; [done|]. intros n' [= <-]. symmetry. by apply H1.
  - unfold Pg.run, Pg.execute. destruct (faults (Pg.sent c1)) as [[e|e]|]; intros [= <- <-]; done.
  - by intros [= <- <-].
Qed.
Lemma ensure_root_ok root now s :
  let m := ensure_root to_string faults schema root now s in
  cat m.2 = cat s /\ root_added root now (Pg.db (pg s)) (Pg.db (pg m.2)) /\
  forall n, m.1 = Ok n -> Pg.find_root (Pg.db (pg m.2)) = Some n /\
    exists x, resolve "nodes" (cat s) = Some x /\ has_columns NODE_COLUMNS x = true.
Proof.
  intros m. unfold m, ensure_root. destruct (resolve "nodes" (cat s)) as [x|] eqn:Hx; [|by split_and!; [|left|]].
  destruct (has_columns ("deleted_at"%string :: NODE_COLUMNS) x) eqn:Hc; [|by split_and!; [|left|]].
  assert (Hcols : exists y, Some x = Some y /\ has_columns NODE_COLUMNS y = true).
  { exists x. split; [done|]. unfold has_columns in *. cbn [forallb] in Hc. by apply andb_true_iff in Hc as [_ ?]. }
  destruct (insertable x).
  - destruct (Pg.ensure_root to_string faults root now (pg s)) as [r c] eqn:Hr. apply pg_ensure_root_rows in Hr as [Hadd Hn].
    split; [done|]. split; [done|]. intros n Hr. split; [by apply Hn|done].
  - destruct (refused_root to_string faults (pg s)) as [r c] eqn:Hr. apply refused_root_rows in Hr as [Hdb Hn].
    split; [done|]. split; [by left|]. intros n Hr. split; [by apply Hn|done].
Qed.

Definition same_cat (a b : Setup) : Prop := cat b = cat a.
#[local] Instance same_cat_refl : Reflexive same_cat.
Proof. by intros s. Qed.
#[local] Instance same_cat_trans : Transitive same_cat.
Proof. unfold same_cat. intros a b c ? ?. congruence. Qed.
Lemma missing_among_cat required missing s : cat (missing_among to_string faults schema required missing s).2 = cat s.
Proof.
  revert missing s. induction required as [|t required IH]; intros missing s; simpl; [done|]. unfold mbind, open_bind, retried.
  destruct (retrying_R to_string (to_regclass faults schema t) same_cat) with (s := s) as [Hcat _].
  { intros s1. unfold to_regclass. by repeat case_match. }
  destruct (retrying to_string _ _ s) as [[found|e] s1]; simpl in *; [|done]. by rewrite IH.
Qed.
(** What [missing_tables] leaves out is there. *)
Lemma missing_among_spec required missing s s' l :
  missing_among to_string faults schema required missing s = (Ok l, s') ->
  missing ⊆ l /\ forall t, t ∈ required -> t ∈ l \/ is_Some (resolve t (cat s)).
Proof.
  revert missing s. induction required as [|t required IH]; intros missing s; simpl.
  { intros [= <- <-]. split; [done|]. by intros t ?%elem_of_nil. }
  unfold mbind, open_bind. unfold retried.
  destruct (retrying_R to_string (to_regclass faults schema t) same_cat) with (s := s) as [Hcat Hok].
  { intros s1. unfold to_regclass. by repeat case_match. }
  destruct (retrying to_string _ _ s) as [[found|e] s1] eqn:Hs; simpl in *; [|done].
  destruct (Hok found eq_refl) as (s0 & Hs0 & Hop). intros (Hsub & Ht)%IH.
  split; [destruct found; set_solver|]. intros t' [->|Ht']%elem_of_cons; [|rewrite <-Hcat; by apply Ht].
  unfold to_regclass in Hop. repeat case_match; simplify_eq; [|left; set_solver].
  right. rewrite <-Hs0. by eexists.
Qed.

(** Once the tables are installed, or were to be there. *)
Definition inspect (root : Uuid) (now : Z) (repo : PgRepository) : Setup -> result Exit PgRepository * Setup :=
  or_exit CannotInspect (missing_tables to_string faults schema) (fun missing s =>
    match missing with
    | [] => or_exit NoRoot (ensure_root to_string faults schema root now) (fun _ s => (Ok repo, s)) s
    | _ => (Err (MissingTables missing), s)
    end).
(** What a server that starts has found. *)
Record served (s : Setup) : Prop := {
  sv_tables t : t ∈ REQUIRED_TABLES -> is_Some (resolve t (cat s));
  sv_nodes : exists x, resolve "nodes" (cat s) = Some x /\ has_columns NODE_COLUMNS x = true;
  sv_root : is_Some (Pg.find_root (Pg.db (pg s)));
}.
Lemma inspect_ends root now repo s :
  let m := inspect root now repo s in
  cat m.2 = cat s /\ root_added root now (Pg.db (pg s)) (Pg.db (pg m.2)) /\
  forall repo', m.1 = Ok repo' -> repo' = repo /\ served m.2.
Proof.
  intros m. unfold m, inspect, or_exit.
  pose proof (missing_among_gentle REQUIRED_TABLES [] s) as [_ Hdb]. pose proof (missing_among_cat REQUIRED_TABLES [] s) as Hcat.
  pose proof (missing_among_spec REQUIRED_TABLES [] s) as Hspec.
  unfold missing_tables. destruct (missing_among _ _ _ REQUIRED_TABLES [] s) as [[missing|e] s1]; cbn [fst snd] in *;
    [|by split; [|split; [left|]]].
  destruct (Hspec _ _ eq_refl) as [_ Hm]. clear Hspec. destruct missing as [|t missing]; [|by split; [|split; [left|]]].
  destruct (ensure_root_ok root now s1) as (Hcat' & Hadd & Hn). rewrite Hdb in Hadd.
  destruct (ensure_root _ _ _ root now s1) as [[n|e] s2]; simpl in *; (split; [congruence|]; split; [done|]); [|done].
  intros repo' [= <-]. destruct (Hn n eq_refl) as [Hroot Hcols]. split; [done|]. split.
  - intros t Ht. destruct (Hm t Ht) as [?%elem_of_nil|?]; [done|]. by rewrite Hcat', Hcat.
  - by rewrite Hcat'.
  - by rewrite Hroot.
Qed.

Lemma install_ends {P : Setup -> Prop} auto_migrate k s :
  (forall s', gentle s s' -> (auto_migrate = false -> s' = s) -> P (k s').2) ->
  (forall s' : Setup, gentle s s' -> auto_migrate = true -> P s') ->
  P (install to_string faults kept schema auto_migrate k s).2 /\
  forall repo, (install to_string faults kept schema auto_migrate k s).1 = Ok repo ->
    exists s', gentle s s' /\ install to_string faults kept schema auto_migrate k s = k s'.
Proof.
  intros Hk Hstop. unfold install. destruct auto_migrate; [|split; [by apply Hk|by exists s]].
  unfold or_exit. pose proof (ensure_schema_gentle s) as H1. destruct (ensure_schema _ _ _ _ s) as [[[]|e] s1]; simpl in *;
    [|split; [by apply Hstop|done]].
  pose proof (migrate_gentle s1) as H2. destruct (migrate _ _ _ _ s1) as [[[]|e] s2]; simpl in *;
    assert (gentle s s2) by (by etrans); [|split; [by apply Hstop|done]].
  split; [by apply Hk|]. intros repo _. by exists s2.
Qed.

End Methods.
End In_schema.

Section Opening.
Context `{HashOrder} (to_string : SqlxError -> string) (faults : nat -> option Pg.Fault) (kept : nat -> nat) (schema : bytes).
Context (reaches : option SqlxError) (auto_migrate single : bool) (root : Uuid) (now : Z).
Abbreviation opened s := (open_postgres to_string faults kept schema reaches auto_migrate single root now s).

(** C12 Whatever fails and wherever it stops, starting a server on a database leaves every table
    of others, and the rows and columns of its own; it may add a root, and may drop an empty
    [upload_jobs] of its schema. Without leave to migrate it changes no table at all. *)
Theorem opening_spares_others s :
  spares schema (cat s) (cat (opened s).2) /\ root_added root now (Pg.db (pg s)) (Pg.db (pg (opened s).2)) /\
  (auto_migrate = false -> cat (opened s).2 = cat s).
Proof.
  unfold open_postgres. destruct (connect _ _ _ _ _) as [repo|e]; [|by split; [apply spares_refl|split; [left|]]].
  apply (install_ends schema to_string faults kept (P := fun s' => spares schema (cat s) (cat s') /\
    root_added root now (Pg.db (pg s)) (Pg.db (pg s')) /\ (auto_migrate = false -> cat s' = cat s))).
  - intros s' [Hsp Hdb] Hno. destruct (inspect_ends schema to_string faults root now repo s') as (Hcat & Hadd & _).
    fold (inspect schema to_string faults root now repo). rewrite Hcat, <-Hdb. split; [done|]. split; [done|].
    intros ->. by rewrite Hno.
  - intros s' [Hsp Hdb] ->. split; [done|]. split; [|done]. left. congruence.
Qed.

(** A server that starts has a valid schema name, finds every table it requires, the columns of
    [nodes] it reads, and a root directory, whatever failed on the way. *)
Theorem opened_is_served s repo s' :
  opened s = (Ok repo, s') ->
  Pg.validate_schema_name schema = true /\ repo = {| max_connections := 16; search_path := schema; single_instance := single |} /\
  served schema s'.
Proof.
  unfold open_postgres, connect. destruct (Pg.validate_schema_name schema); [|done]. destruct reaches as [|]; [done|].
  intros Ho. split; [done|].
  destruct (install_ends schema to_string faults kept (P := fun _ => True) auto_migrate
    (inspect schema to_string faults root now {| max_connections := 16; search_path := schema; single_instance := single |}) s)
    as [_ Hi]; [done|done|].
  unfold inspect in Hi. rewrite Ho in Hi. destruct (Hi repo eq_refl) as (s1 & _ & Hs1).
  destruct (inspect_ends schema to_string faults root now {| max_connections := 16; search_path := schema; single_instance := single |} s1)
    as (_ & _ & Hr). unfold inspect in Hr. rewrite <-Hs1 in Hr. by apply Hr.
Qed.

End Opening.

(** ** The migrations, in their order *)

Section Migrations.
Context (schema : bytes).
Abbreviation exec := (exec schema).
Abbreviation exec_all := (exec_all schema).
Abbreviation resolve := (resolve schema).

(** What is known of the tables while a script is read, and the constraint that was just
    dropped. *)
Definition Known : Type := list (string * list string) * option (string * string).
Definition knows (k : Known) (t : string) : bool := existsb (fun p => bool_decide (p.1 = t)) k.1.
Definition provides (k : Known) (t : string) (cols : list string) : bool :=
  forallb (fun col => existsb (fun p => bool_decide (p.1 = t) && bool_decide (col ∈ p.2)) k.1) cols.
Definition check (d : Ddl) (k : Known) : option Known :=
  match d with
  | CreateTable t cols _ _ _ _ references =>
      if forallb (fun r => bool_decide (r = t) || provides k r ["id"%string]) references then Some ((t, cols) :: k.1, None) else None
  | CreateIndex _ _ t cols => if knows k t && provides k t cols then Some (k.1, None) else None
  | AddColumn t col => if knows k t then Some ((t, [col]) :: k.1, None) else None
  | DropNotNull t col => if provides k t [col] then Some (k.1, None) else None
  | DropConstraint t name => if knows k t then Some (k.1, Some (t, name)) else None
  | AddConstraint t name cols =>
      if bool_decide (k.2 = Some (t, name)) && provides k t cols then Some (k.1, None) else None
  | DropIfEmpty t => if knows k t then None else Some (k.1, None)
  end.
Fixpoint check_all (ds : list Ddl) (k : Known) : option Known :=
  match ds with
  | [] => Some k
  | d :: ds => match check d k with Some k => check_all ds k | None => None end
  end.

Definition holds (k : Known) (c : Catalog) : Prop :=
  (forall t cols, (t, cols) ∈ k.1 -> exists x, resolve t c = Some x /\ has_columns cols x = true) /\
  (forall t name, k.2 = Some (t, name) -> exists x, resolve t c = Some x /\ name ∉ checks x).
(** A table of the columns, requirements, defaults and key that [CREATE TABLE] names, whose rows
    obey the checks and unique indexes to come. *)
Record fits (cols required defaulted key : list string) (x : Table) : Prop := {
  fit_columns : has_columns cols x = true;
  fit_not_null : not_null x ⊆ list_to_set required;
  fit_defaults : list_to_set defaulted ⊆ defaults x;
  fit_keys : keys x = keys_of key;
  fit_rows : breaks x = ∅;
}.
(** Tables that are there already are as a script would make them. *)
Definition compatible (ds : list Ddl) (c : Catalog) : Prop :=
  forall t cols required defaulted key named references x,
    CreateTable t cols required defaulted key named references ∈ ds -> resolve t c = Some x -> fits cols required defaulted key x.
(** A script creates what it indexes, checks and refers to. *)
Definition creates (ds : list Ddl) (t : string) : bool :=
  existsb (fun d => match d with CreateTable t' _ _ _ _ _ _ => bool_decide (t' = t) | _ => false end) ds.
Definition creates_keyed (ds : list Ddl) (t : string) : bool :=
  existsb (fun d => match d with CreateTable t' _ _ _ key _ _ => bool_decide (t' = t) && bool_decide (key = ["id"%string]) | _ => false end) ds.
Definition scoped (ds : list Ddl) : bool :=
  forallb (fun d => match d with
    | CreateTable _ _ _ _ _ _ references => forallb (creates_keyed ds) references
    | DropIfEmpty _ => true
    | _ => creates ds (table_of d) end) ds.

Lemma has_columns_grown cols x x' : has_columns cols x = true -> grown x x' -> has_columns cols x' = true.
Proof. unfold has_columns. rewrite !forallb_forall. setoid_rewrite bool_decide_eq_true. intros Hc [Hsub] col Hin. set_solver. Qed.
Lemma fits_grown cols required defaulted key x x' : fits cols required defaulted key x -> grown x x' -> fits cols required defaulted key x'.
Proof.
  intros [] Hg. split; [by eapply has_columns_grown|..]; destruct Hg as [Hc Hn Hd Hk Hb Hr].
  - set_solver.
  - by rewrite Hd.
  - by rewrite Hk.
  - by rewrite Hb.
Qed.
Lemma rows_fit ds t x c : compatible ds c -> creates ds t = true -> resolve t c = Some x -> breaks x = ∅.
Proof.
  intros Hc (d & Hin & Ht)%existsb_exists Hx. destruct d; try done. apply bool_decide_eq_true in Ht. subst.
  apply list_elem_of_In in Hin. exact (fit_rows _ _ _ _ _ (Hc _ _ _ _ _ _ _ _ Hin Hx)).
Qed.
Lemma keyed_fit ds t x c : compatible ds c -> creates_keyed ds t = true -> resolve t c = Some x -> "id"%string ∈ keys x.
Proof.
  intros Hc (d & Hin & Ht)%existsb_exists Hx. destruct d; try done. rewrite andb_true_iff, !bool_decide_eq_true in Ht.
  destruct Ht as [-> ->]. apply list_elem_of_In in Hin. rewrite (fit_keys _ _ _ _ _ (Hc _ _ _ _ _ _ _ _ Hin Hx)). simpl. set_solver.
Qed.

Lemma knows_spec k c t : holds k c -> knows k t = true -> exists x, resolve t c = Some x.
Proof.
  intros [Hk _] ([t' cols] & Hin & Ht)%existsb_exists. apply bool_decide_eq_true in Ht. simpl in Ht. subst.
  apply list_elem_of_In in Hin. destruct (Hk _ _ Hin) as (x & ? & _). by exists x.
Qed.
Lemma provides_spec k c t cols x : holds k c -> provides k t cols = true -> resolve t c = Some x -> has_columns cols x = true.
Proof.
  intros [Hk _] Hp Hx. unfold provides in Hp. unfold has_columns. rewrite forallb_forall in *.
  intros col Hin. apply Hp in Hin as ([t' cols'] & Hin & Ht)%existsb_exists. rewrite andb_true_iff, !bool_decide_eq_true in Ht.
  destruct Ht as [? Hcol]. simpl in *. subst. apply list_elem_of_In in Hin. destruct (Hk _ _ Hin) as (y & Hy & Hc).
  simplify_eq. unfold has_columns in Hc. rewrite forallb_forall in Hc. apply Hc. by apply list_elem_of_In.
Qed.
Lemma provides_one k c t col : holds k c -> provides k t [col] = true -> exists x, resolve t c = Some x /\ has_columns [col] x = true.
Proof.
  intros Hh Hp. assert (Hk : knows k t = true).
  { unfold provides in Hp. simpl in Hp. rewrite andb_true_r in Hp. apply existsb_exists in Hp as (p & Hin & Ht).
    apply existsb_exists. exists p. split; [done|]. by apply andb_true_iff in Ht as [? _]. }
  destruct (knows_spec _ _ _ Hh Hk) as [x Hx]. exists x. split; [done|]. by eapply provides_spec.
Qed.

(** What is known stays known. *)
Lemma holds_exec d k k' c c' :
  exec d c = Ok c' -> drops d = false \/ knows k (table_of d) = false -> holds k c -> k'.1 = k.1 ->
  (forall t name, k'.2 = Some (t, name) -> exists x, resolve t c' = Some x /\ name ∉ checks x) -> holds k' c'.
Proof.
  intros He Hd [Hk _] Hk1 Hk2. split; [|done]. rewrite Hk1. intros t cols Hin. destruct (Hk _ _ Hin) as (x & Hx & Hc).
  destruct (decide (t = table_of d)) as [->|Hne].
  - destruct (exec_grows _ _ _ _ _ He Hx) as [(x' & Hx' & Hg)|(Hdrop & _)].
    + exists x'. split; [done|by eapply has_columns_grown].
    + destruct Hd as [Hd|Hd]; [congruence|]. exfalso. apply not_true_iff_false in Hd. apply Hd, existsb_exists.
      exists (table_of d, cols). split; [by apply list_elem_of_In|]. by apply bool_decide_eq_true.
  - exists x. split; [|done]. unfold PgSchema.resolve. rewrite (exec_other _ d c) by (done || congruence). done.
Qed.
Lemma holds_more t cols k c x : holds k c -> resolve t c = Some x -> has_columns cols x = true -> holds ((t, cols) :: k.1, None) c.
Proof. intros [Hk _] Hx Hc. split; [|done]. simpl. intros t' cols' [[= -> ->]|?]%elem_of_cons; [by exists x|by apply Hk]. Qed.
Lemma alter_table_ok t cols f c x x' :
  resolve t c = Some x -> has_columns cols x = true -> f x = Ok x' ->
  alter_table schema t cols f c = Ok (set_tables <[(schema, t) := x']> c).
Proof. intros Hx Hc Hf. unfold alter_table. by rewrite Hx, Hc, Hf. Qed.
(** A script creates a table in one way. *)
Definition agree (d d' : Ddl) : bool :=
  match d, d' with
  | CreateTable t _ _ _ _ _ _, CreateTable t' _ _ _ _ _ _ => negb (bool_decide (t = t')) || bool_decide (d = d')
  | _, _ => true
  end.
Definition consistent (ds : list Ddl) : bool := forallb (fun d => forallb (agree d) ds) ds.
Lemma consistent_same ds t cols cols' required required' defaulted defaulted' key key' named named' references references' :
  consistent ds = true -> CreateTable t cols required defaulted key named references ∈ ds ->
  CreateTable t cols' required' defaulted' key' named' references' ∈ ds -> key = key'.
Proof.
  intros Hc H1%list_elem_of_In H2%list_elem_of_In. unfold consistent in Hc. rewrite forallb_forall in Hc. apply Hc in H1.
  rewrite forallb_forall in H1. apply H1 in H2. simpl in H2. rewrite bool_decide_true in H2 by done.
  apply bool_decide_eq_true in H2. congruence.
Qed.
Definition fresh (cols required defaulted key named : list string) : Table :=
  {| columns := list_to_set cols; not_null := list_to_set required; defaults := list_to_set defaulted;
     keys := keys_of key; checks := list_to_set named; breaks := ∅; rows := 0 |}.
Lemma fits_fresh cols required defaulted key named : fits cols required defaulted key (fresh cols required defaulted key named).
Proof.
  split; simpl; try done. apply forallb_forall. intros col Hin%list_elem_of_In. apply bool_decide_eq_true. simpl.
  by apply elem_of_list_to_set.
Qed.
Lemma head_omap_none {A B} (f : A -> option B) l : (forall a, a ∈ l -> f a = None) -> head (omap f l) = None.
Proof.
  induction l as [|a l IH]; intros Hall; simpl; [done|]. rewrite Hall by by left. apply IH. intros b ?. apply Hall. by right.
Qed.
Lemma exec_create t cols required defaulted key named references c :
  schema ∈ schemas c -> resolve t c = None -> (forall r, r ∈ references -> reference_error schema t key c r = None) ->
  exec (CreateTable t cols required defaulted key named references) c =
    Ok (set_tables <[(schema, t) := fresh cols required defaulted key named]> c).
Proof. intros Hs Hx Hr. simpl. by rewrite bool_decide_true, Hx, head_omap_none by done. Qed.
(** The references of a script are to tables that it made before, or that were there and fit. *)
Lemma references_ok ds t cols required defaulted key named references k c r :
  scoped ds = true -> consistent ds = true -> CreateTable t cols required defaulted key named references ∈ ds ->
  compatible ds c -> holds k c -> forallb (fun r => bool_decide (r = t) || provides k r ["id"%string]) references = true ->
  r ∈ references -> reference_error schema t key c r = None.
Proof.
  intros Hsc Hcons Hin Hc Hh Hp Hr%list_elem_of_In. unfold scoped in Hsc. rewrite forallb_forall in Hsc.
  pose proof Hin as Hin'. apply list_elem_of_In in Hin. apply Hsc in Hin. simpl in Hin. rewrite forallb_forall in Hin, Hp.
  pose proof (Hin _ Hr) as Hkey. specialize (Hp _ Hr). unfold reference_error. case_bool_decide as Heq.
  - subst. apply existsb_exists in Hkey as (d & Hd & Ht). destruct d; try done. rewrite andb_true_iff, !bool_decide_eq_true in Ht.
    destruct Ht as [-> ->]. apply list_elem_of_In in Hd. pose proof (consistent_same _ _ _ _ _ _ _ _ _ _ _ _ _ _ Hcons Hin' Hd) as Hk.
    rewrite Hk. done.
  - simpl in Hp. destruct (provides_one _ _ _ _ Hh Hp) as (y & Hy & Hcol). rewrite Hy, Hcol.
    by rewrite bool_decide_true by by eapply keyed_fit.
Qed.
Lemma create_sound ds t cols required defaulted key named references k k' c :
  scoped ds = true -> consistent ds = true -> CreateTable t cols required defaulted key named references ∈ ds ->
  schema ∈ schemas c -> holds k c -> compatible ds c ->
  check (CreateTable t cols required defaulted key named references) k = Some k' ->
  exists c', exec (CreateTable t cols required defaulted key named references) c = Ok c' /\ holds k' c'.
Proof.
  intros Hsc Hcons Hin Hs Hh Hc Hk. simpl in Hk. case_match eqn:Hrefs; simplify_eq. destruct (resolve t c) as [x|] eqn:Hx.
  { exists c. split; [simpl; by rewrite bool_decide_true, Hx by done|]. apply (holds_more _ _ _ _ x); [done|done|].
    apply (fit_columns _ _ _ _ _ (Hc _ _ _ _ _ _ _ _ Hin Hx)). }
  pose proof (exec_create t cols required defaulted key named references c Hs Hx) as He.
  eexists. split; [apply He; intros r Hr; by eapply references_ok|].
  eapply (holds_more t cols (k.1, None)); [|unfold PgSchema.resolve; simpl; by rewrite lookup_insert_eq|
    apply (fit_columns _ _ _ _ _ (fits_fresh cols required defaulted key named))].
  eapply (holds_exec (CreateTable t cols required defaulted key named references) (k.1, None) (k.1, None) c); [|by left| |done|done].
  - apply He. intros r Hr. by eapply references_ok.
  - split; [apply Hh|done].
Qed.
Lemma check_sound ds d k k' c :
  scoped ds = true -> consistent ds = true -> d ∈ ds ->
  schema ∈ schemas c -> holds k c -> compatible ds c -> check d k = Some k' -> exists c', exec d c = Ok c' /\ holds k' c'.
Proof.
  intros Hsc Hcons Hin Hs Hh Hc Hk. assert (Hweak : holds (k.1, None) c) by (split; [apply Hh|done]).
  assert (Hfit : forall x, resolve (table_of d) c = Some x -> match d with DropIfEmpty _ | CreateTable _ _ _ _ _ _ _ => True | _ => breaks x = ∅ end).
  { intros x Hx. pose proof Hsc as Hd. unfold scoped in Hd. rewrite forallb_forall in Hd. pose proof Hin as Hi.
    apply list_elem_of_In, Hd in Hi. destruct d; try done; by apply (rows_fit ds _ _ c Hc Hi). }
  destruct d as [|unique i t cols|t col|t col|t name|t name cols|t]; [by apply (create_sound ds _ _ _ _ _ _ _ k)|..]; simpl in Hk, Hfit; case_match eqn:Hck; simplify_eq.
  - apply andb_true_iff in Hck as [Hkn Hp]. destruct (knows_spec _ _ _ Hh Hkn) as [x Hx].
    simpl. rewrite Hx, (provides_spec _ _ _ _ _ Hh Hp Hx), (Hfit x Hx). case_bool_decide; [by exists c|].
    rewrite (bool_decide_false (i ∈ ∅)), andb_false_r by set_solver. by eexists.
  - destruct (knows_spec _ _ _ Hh Hck) as [x Hx].
    assert (He : exists c', exec (AddColumn t col) c = Ok c') by (eexists; by eapply alter_table_ok).
    destruct He as [c' He]. exists c'. split; [done|].
    destruct (alter_table_spec _ _ _ _ _ _ He) as (y & y' & _ & _ & Hf & ->).
    eapply (holds_more t [col] (k.1, None)); [by eapply (holds_exec (AddColumn t col)); [|left|..]| |].
    + unfold PgSchema.resolve. simpl. by rewrite lookup_insert_eq.
    + injection Hf as <-. simpl. rewrite andb_true_r. apply bool_decide_eq_true. set_solver.
  - destruct (provides_one _ _ _ _ Hh Hck) as (x & Hx & Hcol).
    assert (He : exists c', exec (DropNotNull t col) c = Ok c') by (eexists; by eapply alter_table_ok).
    destruct He as [c' He]. exists c'. split; [done|]. by eapply (holds_exec (DropNotNull t col)); [|left|..].
  - destruct (knows_spec _ _ _ Hh Hck) as [x Hx].
    assert (He : exists c', exec (DropConstraint t name) c = Ok c') by (eexists; by eapply alter_table_ok).
    destruct He as [c' He]. exists c'. split; [done|]. eapply (holds_exec (DropConstraint t name)); [done|by left|done|done|].
    intros t' name' [= <- <-]. destruct (alter_table_spec _ _ _ _ _ _ He) as (y & y' & _ & _ & [= <-] & ->).
    unfold PgSchema.resolve. simpl. rewrite lookup_insert_eq. eexists. split; [done|]. simpl. set_solver.
  - apply andb_true_iff in Hck as [Hlast%bool_decide_eq_true Hp]. destruct (proj2 Hh _ _ Hlast) as (x & Hx & Hnot).
    assert (He : exists c', exec (AddConstraint t name cols) c = Ok c').
    { eexists. eapply alter_table_ok; [done|by eapply provides_spec|]. simpl. rewrite (Hfit x Hx).
      rewrite !bool_decide_false by set_solver. done. }
    destruct He as [c' He]. exists c'. split; [done|]. by eapply (holds_exec (AddConstraint t name cols)); [|left|..].
  - simpl. destruct (resolve t c) as [x|] eqn:Hx; [|by exists c]. case_decide; [|by exists c]. eexists. split; [done|].
    eapply (holds_exec (DropIfEmpty t) k); [simpl; rewrite Hx; by case_decide|by right|done|done|done].
Qed.

(** A script does not bring its own tables out of step. *)
Lemma compatible_exec ds d c c' : forallb (agree d) ds = true -> exec d c = Ok c' -> compatible ds c -> compatible ds c'.
Proof.
  intros Hone He Hc t cols required defaulted key named references x' Hin Hx'.
  destruct (resolve t c) as [x|] eqn:Hx.
  - pose proof (Hc _ _ _ _ _ _ _ _ Hin Hx) as Hfit. destruct (decide (t = table_of d)) as [->|Hne].
    + destruct (exec_grows _ _ _ _ _ He Hx) as [(y & Hy & Hg)|(_ & _ & Hn)]; [|congruence].
      simplify_eq. by eapply fits_grown.
    + unfold PgSchema.resolve in Hx'. rewrite (exec_other _ d c) in Hx' by (done || congruence).
      unfold PgSchema.resolve in Hx. by simplify_eq.
  - destruct (decide (t = table_of d)) as [->|Hne].
    + destruct d as [t cols' req' def' key' named' refs'| | | | | |]; cbn [PgSchema.exec table_of] in He, Hx, Hx'; rewrite ?Hx in He;
        try (apply alter_table_spec in He as (? & ? & ? & _); congruence); repeat case_match; try congruence; simplify_eq.
      rewrite forallb_forall in Hone. apply list_elem_of_In, Hone in Hin. simpl in Hin.
      rewrite bool_decide_true in Hin by done. apply bool_decide_eq_true in Hin. simplify_eq.
      unfold PgSchema.resolve in Hx'. simpl in Hx'. rewrite lookup_insert_eq in Hx'. simplify_eq. apply fits_fresh.
    + unfold PgSchema.resolve in Hx, Hx'. rewrite (exec_other _ d c) in Hx' by (done || congruence). congruence.
Qed.
Lemma check_all_sound all ds k k' c :
  scoped all = true -> consistent all = true -> ds ⊆ all -> schema ∈ schemas c -> holds k c -> compatible all c ->
  check_all ds k = Some k' -> exists c', exec_all ds c = Ok c' /\ holds k' c' /\ compatible all c'.
Proof.
  intros Hsc Hcons. revert k c. induction ds as [|d ds IH]; intros k c Hsub Hs Hh Hc Hck; simpl; [simplify_eq/=; by exists c|].
  simpl in Hck. destruct (check d k) as [k1|] eqn:Hd; [|done].
  assert (Hin : d ∈ all) by set_solver.
  destruct (check_sound all d k k1 c) as (c1 & He & Hh'); [done..|].
  rewrite He. apply (IH k1); [set_solver|by rewrite (exec_schemas _ _ _ _ He)|done| |done].
  eapply compatible_exec; [|done|done]. unfold consistent in Hcons. rewrite forallb_forall in Hcons.
  by apply Hcons, list_elem_of_In.
Qed.

(** ** Applying them again *)

(** The statement has nothing left to do. *)
Definition is_done (d : Ddl) (c : Catalog) : Prop :=
  match d with
  | CreateTable t _ _ _ _ _ _ => schema ∈ schemas c /\ is_Some (resolve t c)
  | CreateIndex _ i t _ => is_Some (resolve t c) /\ (schema, i) ∈ indexes c
  | AddColumn t col => exists x, resolve t c = Some x /\ col ∈ columns x
  | DropNotNull t col => exists x, resolve t c = Some x /\ col ∈ columns x /\ col ∉ not_null x
  | DropConstraint _ _ => True
  | AddConstraint t name cols => exists x, resolve t c = Some x /\ (name ∈ checks x) /\ (name ∉ breaks x) /\ has_columns cols x = true
  | DropIfEmpty t => forall x, resolve t c = Some x -> rows x <> 0%nat
  end.
(** The statements a statement undoes. *)
Definition clash (d d' : Ddl) : bool :=
  match d, d' with
  | DropConstraint t name, AddConstraint t' name' _ => bool_decide (t = t') && bool_decide (name = name')
  | DropIfEmpty t, d' => bool_decide (t = table_of d') && negb (drops d')
  | CreateTable t _ _ _ _ _ _, DropIfEmpty t' => bool_decide (t = t')
  | _, _ => false
  end.

Lemma exec_done d c c' : exec d c = Ok c' -> is_done d c'.
Proof.
  destruct d as [t cols req def key named refs|unique i t cols|t col|t col|t name|t name cols|t]; simpl;
    try (intros (x & x' & Hx & Hc & Hf & ->)%alter_table_spec; unfold PgSchema.resolve; simpl; rewrite lookup_insert_eq;
         repeat case_match; simplify_eq; try done; eexists; (split; [done|]); simpl; try set_solver).
  - case_bool_decide; [|done]. destruct (resolve t c) as [x|] eqn:Hx; [intros [= <-]; rewrite Hx; by eauto|].
    case_match; [done|]. intros [= <-]. split; [done|]. unfold PgSchema.resolve. simpl. rewrite lookup_insert_eq. by eauto.
  - destruct (resolve t c) as [x|] eqn:Hx; [|done]. case_bool_decide; [intros [= <-]; by rewrite Hx; eauto|].
    repeat case_match; try done. intros [= <-]. split; [by exists x|]. simpl. set_solver.
  - simpl in Hc. rewrite andb_true_r in Hc. apply bool_decide_eq_true in Hc. set_solver.
  - done.
  - split_and!; [set_solver| |done]. by match goal with Hb : bool_decide (name ∈ breaks x) = false |- _ => apply bool_decide_eq_false in Hb end.
  - destruct (resolve t c) as [x|] eqn:Hx; [|intros [= <-]; by rewrite Hx]. case_decide; intros [= <-].
    + unfold PgSchema.resolve. simpl. by rewrite lookup_delete_eq.
    + rewrite Hx. by intros y [= <-].
Qed.

Lemma exec_indexes d c c' : exec d c = Ok c' -> indexes c ⊆ indexes c'.
Proof.
  destruct d; simpl; try (intros (? & ? & _ & _ & _ & ->)%alter_table_spec; done).
  all: repeat case_match; intros [= <-]; simpl; set_solver.
Qed.
Lemma exec_checks d c c' t x x' name :
  exec d c = Ok c' -> resolve t c = Some x -> resolve t c' = Some x' -> name ∈ checks x -> d = DropConstraint t name \/ name ∈ checks x'.
Proof.
  intros He Hx Hx' Hin. destruct (decide (t = table_of d)) as [->|Hne].
  2: { unfold PgSchema.resolve in *. rewrite (exec_other _ d c) in Hx' by (done || congruence). right. congruence. }
  destruct d; simpl in *; rewrite ?Hx in He;
    try (apply alter_table_spec in He as (y & y' & Hy & _ & Hf & ->); unfold PgSchema.resolve in *; simpl in Hx';
         rewrite lookup_insert_eq in Hx'; repeat case_match; simplify_eq; simpl).
  all: try (right; set_solver).
  - right. repeat case_match; simplify_eq; done.
  - right. unfold PgSchema.resolve in *. repeat case_match; simplify_eq; simpl in *; congruence.
  - destruct (decide (name = k)) as [->|]; [by left|right; set_solver].
  - right. case_decide; simplify_eq; [|congruence]. unfold PgSchema.resolve in Hx'. simpl in Hx'. by rewrite lookup_delete_eq in Hx'.
Qed.
(** A table that is not dropped. *)
Lemma exec_table d c c' t x :
  exec d c = Ok c' -> resolve t c = Some x -> drops d = false \/ t <> table_of d -> exists x', resolve t c' = Some x' /\ grown x x'.
Proof.
  intros He Hx Hd. destruct (decide (t = table_of d)) as [->|Hne].
  - destruct (exec_grows _ _ _ _ _ He Hx) as [?|(? & _)]; [done|]. destruct Hd; [congruence|done].
  - exists x. split; [|apply grown_refl]. unfold PgSchema.resolve. rewrite (exec_other _ d c) by (done || congruence). done.
Qed.
Lemma clash_drops d d' : clash d d' = false -> drops d' = false -> drops d = false \/ table_of d' <> table_of d.
Proof.
  intros Hc Hd'. destruct d; try (by left). right. simpl in Hc. rewrite Hd', andb_true_r in Hc. apply bool_decide_eq_false in Hc. simpl. congruence.
Qed.
Lemma exec_keeps_done d d' c c' : exec d c = Ok c' -> clash d d' = false -> is_done d' c -> is_done d' c'.
Proof.
  intros He Hc Hd. pose proof (exec_schemas _ _ _ _ He) as Hs. pose proof (exec_indexes _ _ _ He) as Hi.
  pose proof (clash_drops d d' Hc) as Hdrop.
  destruct d' as [t cols req def key named refs|unique i t cols|t col|t col|t name|t name cols|t]; simpl in Hd |- *; try specialize (Hdrop eq_refl).
  - destruct Hd as [? [x Hx]]. destruct (exec_table _ _ _ _ _ He Hx) as (x' & Hx' & _); [done|]. rewrite Hs, Hx'. by eauto.
  - destruct Hd as [[x Hx] ?]. destruct (exec_table _ _ _ _ _ He Hx) as (x' & Hx' & _); [done|]. rewrite Hx'. split; [by eauto|set_solver].
  - destruct Hd as (x & Hx & ?). destruct (exec_table _ _ _ _ _ He Hx) as (x' & Hx' & Hg); [done|]. exists x'. split; [done|].
    destruct Hg. set_solver.
  - destruct Hd as (x & Hx & ?). destruct (exec_table _ _ _ _ _ He Hx) as (x' & Hx' & Hg); [done|]. exists x'. split; [done|].
    destruct Hg. set_solver.
  - done.
  - destruct Hd as (x & Hx & Hin & Hcols). destruct (exec_table _ _ _ _ _ He Hx) as (x' & Hx' & Hg); [done|]. exists x'. split; [done|].
    destruct Hcols as [Hok Hcols]. rewrite (gr_breaks _ _ Hg). split; [|split; [done|by eapply has_columns_grown]]. destruct (exec_checks _ _ _ _ _ _ _ He Hx Hx' Hin) as [->|]; [|done].
    simpl in Hc. by rewrite !bool_decide_true in Hc.
  - intros x' Hx'. destruct (resolve t c) as [x|] eqn:Hx.
    + destruct (decide (t = table_of d)) as [->|Hne].
      * destruct (exec_grows _ _ _ _ _ He Hx) as [(y & Hy & Hg)|(_ & _ & Hn)]; [|congruence].
        simplify_eq. rewrite (gr_rows _ _ Hg). by apply Hd.
      * unfold PgSchema.resolve in Hx, Hx'. rewrite (exec_other _ d c) in Hx' by (done || congruence). simplify_eq. by apply Hd.
    + destruct (decide (t = table_of d)) as [->|Hne].
      * destruct d; simpl in He, Hx, Hx', Hc; rewrite ?Hx in He;
          try (apply alter_table_spec in He as (? & ? & ? & _); congruence); repeat case_match; simplify_eq.
        by rewrite bool_decide_true in Hc.
      * unfold PgSchema.resolve in Hx, Hx'. rewrite (exec_other _ d c) in Hx' by (done || congruence). congruence.
Qed.
Fixpoint no_clash (ds : list Ddl) : bool :=
  match ds with [] => true | d' :: ds => forallb (fun d => negb (clash d d')) ds && no_clash ds end.
Lemma exec_all_keeps_done ds d' c c' :
  exec_all ds c = Ok c' -> forallb (fun d => negb (clash d d')) ds = true -> is_done d' c -> is_done d' c'.
Proof.
  revert c. induction ds as [|d ds IH]; simpl; intros c He Hc Hd; [by simplify_eq|].
  apply andb_true_iff in Hc as [Hc1 Hc]. apply negb_true_iff in Hc1. destruct (exec d c) as [c1|] eqn:Hex; [|done].
  apply (IH c1); [done|done|]. by eapply exec_keeps_done.
Qed.
Lemma exec_all_done ds c c' : exec_all ds c = Ok c' -> no_clash ds = true -> Forall (fun d => is_done d c') ds.
Proof.
  revert c. induction ds as [|d ds IH]; simpl; intros c He Hc; [done|]. apply andb_true_iff in Hc as [Hd Hc].
  destruct (exec d c) as [c1|] eqn:Hex; [|done]. constructor; [|by eapply IH].
  eapply exec_all_keeps_done; [done|done|by eapply exec_done].
Qed.

(** A constraint is dropped only to be added again. *)
Fixpoint paired (ds : list Ddl) : bool :=
  match ds with
  | [] => true
  | DropConstraint t name :: AddConstraint t' name' _ :: ds => bool_decide (t = t') && bool_decide (name = name') && paired ds
  | (DropConstraint _ _ | AddConstraint _ _ _) :: _ => false
  | _ :: ds => paired ds
  end.
Lemma set_tables_same c t x : resolve t c = Some x -> set_tables <[(schema, t) := x]> c = c.
Proof. intros Hx. destruct c. unfold set_tables. simpl in *. f_equal. by apply insert_id. Qed.
Lemma alter_table_same t cols f c x :
  resolve t c = Some x -> has_columns cols x = true -> f x = Ok x -> alter_table schema t cols f c = Ok c.
Proof. intros Hx Hc Hf. rewrite (alter_table_ok t cols f c x x) by done. by rewrite set_tables_same. Qed.
Lemma again d c :
  is_done d c -> match d with DropConstraint _ _ | AddConstraint _ _ _ => False | _ => True end -> exec d c = Ok c.
Proof.
  destruct d as [t cols req def key named refs|unique i t cols|t col|t col|t name|t name cols|t]; simpl; try done.
  - intros [Hs [x Hx]] _. by rewrite bool_decide_true, Hx.
  - intros [[x Hx] Hi] _. by rewrite Hx, bool_decide_true.
  - intros (x & Hx & Hin) _. apply (alter_table_same _ _ _ _ x); [done|done|]. destruct x. simpl in *. do 2 f_equal. set_solver.
  - intros (x & Hx & Hin & Hnot) _. apply (alter_table_same _ _ _ _ x); [done|simpl; by rewrite bool_decide_true|].
    destruct x. simpl in *. do 2 f_equal. set_solver.
  - intros Hr _. destruct (resolve t c) as [x|]; [|done]. rewrite decide_False; [done|]. by apply Hr.
Qed.
Lemma pair_again t name cols c :
  is_done (AddConstraint t name cols) c ->
  exists c1, exec (DropConstraint t name) c = Ok c1 /\ exec (AddConstraint t name cols) c1 = Ok c.
Proof.
  intros (x & Hx & Hin & Hok & Hc). simpl. eexists. split; [by eapply alter_table_ok|].
  rewrite (alter_table_ok _ cols _ _ (set_checks (checks x ∖ {[name]}) x) x).
  - f_equal. unfold set_tables. destruct c. simpl in *. f_equal. rewrite insert_insert_eq. by apply insert_id.
  - unfold PgSchema.resolve. simpl. by rewrite lookup_insert_eq.
  - done.
  - simpl. rewrite !bool_decide_false by set_solver. destruct x. unfold set_checks. simpl in *. do 2 f_equal.
    apply set_eq. intros k. destruct (decide (k = name)); set_solver.
Qed.
Lemma exec_all_again ds c : paired ds = true -> Forall (fun d => is_done d c) ds -> exec_all ds c = Ok c.
Proof.
  remember (length ds) as n eqn:Hn. assert (Hle : (length ds <= n)%nat) by lia. clear Hn. revert ds Hle.
  induction n as [|n IH]; intros [|d ds] Hle Hp Hd; simpl in Hle; try done; [lia|].
  apply Forall_cons in Hd as [Hd Hds].
  destruct d; simpl in Hp; try (cbn [PgSchema.exec_all]; rewrite again by done; apply IH; [lia|done|done]).
  destruct ds as [|[] ds]; try done. rewrite !andb_true_iff, !bool_decide_eq_true in Hp. destruct Hp as [[<- <-] Hp].
  apply Forall_cons in Hds as [Hadd Hds]. destruct (pair_again _ _ _ _ Hadd) as (c1 & H1 & H2).
  cbn [PgSchema.exec_all]. rewrite H1, H2. apply IH; [simpl in Hle; lia|done|done].
Qed.

(** All migrations, one after another. *)
Definition ALL : list Ddl := mjoin MIGRATIONS.
(** What a database has once they are applied: the tables, and of [nodes] the columns that are
    read; a root can be inserted. *)
Definition installed (c : Catalog) : Prop :=
  (forall t, t ∈ REQUIRED_TABLES -> is_Some (resolve t c)) /\
  exists x, resolve "nodes" c = Some x /\ has_columns ("deleted_at"%string :: NODE_COLUMNS) x = true /\ insertable x = true.
Definition learnt : Known := default ([], None) (check_all ALL ([], None)).
Lemma nodes_insertable c x : compatible ALL c -> resolve "nodes" c = Some x -> insertable x = true.
Proof.
  intros Hc Hx.
  destruct (Hc _ _ _ _ _ _ _ x (list_elem_of_here _ _) Hx) as [_ Hn Hd _ _]. apply bool_decide_eq_true.
  etrans; [exact Hn|]. etrans; [|apply union_mono_l; exact Hd]. by apply (bool_decide_unpack _).
Qed.
Lemma migrations_install c :
  schema ∈ schemas c -> compatible ALL c -> exists c', exec_all ALL c = Ok c' /\ exec_all ALL c' = Ok c' /\ installed c'.
Proof.
  intros Hs Hc. destruct (check_all_sound ALL ALL ([], None) learnt c) as (c' & He & Hh & Hc'); try done.
  { by split; [intros t cols ?%elem_of_nil|]. }
  exists c'. split; [done|]. split; [|split].
  - apply exec_all_again; [done|]. by eapply exec_all_done.
  - assert (Hall : Forall (fun t => knows learnt t = true) REQUIRED_TABLES) by (repeat constructor).
    intros t Ht. rewrite Forall_forall in Hall. by apply (knows_spec learnt), Hall.
  - destruct (knows_spec learnt c' "nodes") as [x Hx]; [done|done|]. exists x. split; [done|].
    split; [by apply (provides_spec learnt c' "nodes")|]. by eapply nodes_insertable.
Qed.
End Migrations.

(** ** Starting where nothing fails *)

Section Starting.
Context `{HashOrder} (to_string : SqlxError -> string) (kept : nat -> nat) (schema : bytes).
Definition up : nat -> option Pg.Fault := fun _ => None.

Lemma retried_ok {A} (op : Setup -> result SqlxError A * Setup) s a s' : op s = (Ok a, s') -> retried to_string op s = (Ok a, s').
Proof. intros Hop. unfold retried, retrying. change (seqZ 1 MAX_ATTEMPTS) with [1; 2; 3; 4]. simpl. by rewrite Hop. Qed.
Lemma exec_all_app ds ds' c : exec_all schema (ds ++ ds') c = match exec_all schema ds c with Ok c => exec_all schema ds' c | Err e => Err e end.
Proof. revert c. induction ds as [|d ds IH]; intros c; simpl; [done|]. by destruct (exec schema d c). Qed.

Lemma apply_migrations_up ms s c :
  exec_all schema (mjoin ms) (cat s) = Ok c ->
  exists s', apply_migrations to_string up kept schema ms s = (Ok tt, s') /\ cat s' = c /\ Pg.db (pg s') = Pg.db (pg s).
Proof.
  revert s. induction ms as [|m ms IH]; intros s He.
  { simpl in *. simplify_eq. by exists s. }
  cbn [mjoin list_join foldr] in He. rewrite exec_all_app in He. destruct (exec_all schema m (cat s)) as [c1|] eqn:H1; [|done].
  destruct (IH (tick c1 s)) as (s' & Hs' & Hc & Hdb); [done|]. exists s'. split; [|done].
  cbn [apply_migrations]. unfold mbind, open_bind.
  rewrite (retried_ok _ s tt (tick c1 s)); [done|]. unfold raw_sql, up. by rewrite H1.
Qed.
Lemma missing_among_up required missing s :
  (forall t, t ∈ required -> is_Some (resolve schema t (cat s))) ->
  exists s', missing_among to_string up schema required missing s = (Ok missing, s') /\ cat s' = cat s /\ Pg.db (pg s') = Pg.db (pg s).
Proof.
  revert s. induction required as [|t required IH]; intros s Hall; [by exists s|].
  destruct (Hall t) as [x Hx]; [by left|].
  destruct (IH (tick (cat s) s)) as (s' & Hs' & Hc & Hdb); [intros t' ?; apply Hall; by right|]. exists s'. split; [|done].
  cbn [missing_among]. unfold mbind, open_bind. rewrite (retried_ok _ s (Some t) (tick (cat s) s)); [done|].
  unfold to_regclass, up. by rewrite Hx.
Qed.
Lemma head_some {A} (l : list A) a : a ∈ l -> is_Some (head l).
Proof. destruct l; [by intros ?%elem_of_nil|by eexists]. Qed.
Lemma pg_ensure_root_up root now c :
  Pg.nodes (Pg.db c) !! root = None -> exists n c', Pg.ensure_root to_string up root now c = (Ok n, c').
Proof.
  intros Hnone. unfold Pg.ensure_root, mbind, Pg.pg_bind, mret, Pg.pg_ret, Pg.or_not_found, Pg.run, Pg.execute, up. simpl.
  destruct (Pg.find_root (Pg.db c)) as [n|]; [by eexists _, _|]. simpl.
  unfold Pg.insert_or_nothing, Pg.insert_node. simpl. rewrite Hnone. simpl.
  match goal with |- context [Pg.find_root ?d] => assert (Hf : is_Some (Pg.find_root d)) end.
  { apply (head_some _ (Pg.root_row root now)), list_elem_of_filter. split; [done|]. apply list_elem_of_fmap.
    eexists. split; [|apply list_elem_of_filter; split; [|apply elem_of_hm_values; exists root; apply lookup_insert_eq]]; done. }
  destruct Hf as [n ->]. by eexists _, _.
Qed.
Lemma ensure_root_up root now s :
  installed schema (cat s) -> Pg.nodes (Pg.db (pg s)) !! root = None ->
  exists n s', ensure_root to_string up schema root now s = (Ok n, s') /\ cat s' = cat s.
Proof.
  intros [_ (x & Hx & Hc & Hi)] Hr. unfold ensure_root. rewrite Hx, Hc, Hi.
  destruct (pg_ensure_root_up root now (pg s) Hr) as (n & c & ->). by eexists _, _.
Qed.

End Starting.

End PgSchemaFacts.
