(* ===== verification/PgSchemaExample.v ===== *)
(** * Databases a server is started on, evaluated

    An empty database, one that holds a table of another application, and one to which only
    the first migration was applied. *)
From S2P Require Import Prelude Repository Retry Postgres PostgresFacts PgSchema PgSchemaProps.

Module PgSchemaExample.
Import Records PgRetry PgSchema PgSchemaFacts.

Definition to_string (e : SqlxError) : string := match e with Database (Some code) _ => code | _ => "error" end.
Definition public : bytes := [x70; x75; x62; x6c; x69; x63].
Definition rows_none : Pg.Conn :=
  {| Pg.db := {| Pg.nodes := ∅; Pg.file_versions := ∅; Pg.file_chunks := ∅; Pg.stored_objects := ∅; Pg.sessions := ∅ |};
     Pg.sent := 0 |}.
Definition users (n : nat) : Table := {| columns := {["id"; "email"]}; not_null := {["id"]}; defaults := ∅; keys := {["id"]}; checks := ∅; breaks := ∅; rows := n |}.
(** Another application's tables: [users], and a queue that is empty at the moment. *)
Definition shared : Setup :=
  {| cat := {| schemas := {[public]};
               tables := {[(public, "users"%string) := users 3; (public, "upload_jobs"%string) := users 0]}; indexes := ∅ |};
     pg := rows_none |}.
(** The third statement loses its connection. *)
Definition shaky (n : nat) : option Pg.Fault := if decide (n = 2)%nat then Some (Pg.Lost (Io "reset")) else None.
Abbreviation start faults auto_migrate s :=
  (open_postgres to_string faults (fun _ => 0%nat) public None auto_migrate false 1 10 s).

Lemma opened_is_served_witness :
  exists repo, (start shaky true shared).1 = Ok repo /\ served public (start shaky true shared).2.
Proof.
  assert (Hok : match (start shaky true shared).1 with Ok _ => true | Err _ => false end = true) by (vm_compute; reflexivity).
  pose proof (opened_is_served to_string shaky (fun _ => 0%nat) public None true false 1 10 shared) as Hserved.
  destruct (start shaky true shared) as [[repo|e] s']; [|discriminate Hok].
  exists repo. split; [reflexivity|]. exact (proj2 (proj2 (Hserved repo s' eq_refl))).
Defined.

(** The database of a server of an older version, with the tables of the first migration only,
    beside the other application's; its [nodes] has rows. *)
Definition with_rows (n : nat) (x : Table) : Table :=
  {| columns := columns x; not_null := not_null x; defaults := defaults x; keys := keys x; checks := checks x;
     breaks := breaks x; rows := n |}.
Definition older : Setup :=
  {| cat := match exec_all public MIGRATION_0001 (cat shared) with
            | Ok c => set_tables (alter (with_rows 7) (public, "nodes"%string)) c
            | Err _ => cat shared
            end;
     pg := rows_none |}.
#[local] Instance fits_dec cols required defaulted key x : Decision (fits cols required defaulted key x).
Proof.
  refine (cast_if (decide ((has_columns cols x = true /\ not_null x ⊆ list_to_set required) /\
    (list_to_set defaulted ⊆ defaults x /\ keys x = keys_of key) /\ breaks x = ∅))).
  - abstract (split; tauto).
  - abstract (intros []; tauto).
Defined.
Lemma older_compatible : compatible public ALL (cat older).
Proof.
  intros t cols required defaulted key named references x Hin Hx.
  assert (Hall : forallb (fun d => match d with
    | CreateTable t cols required defaulted key _ _ =>
        match resolve public t (cat older) with Some x => bool_decide (fits cols required defaulted key x) | None => true end
    | _ => true end) ALL = true) by (vm_compute; reflexivity).
  rewrite forallb_forall in Hall. apply list_elem_of_In, Hall in Hin. rewrite Hx in Hin. by apply bool_decide_eq_true in Hin.
Qed.

(** Another application's table of the name [nodes]: where its [id] is no key, or its rows have a
    kind of their own, the migrations fail. *)
Definition foreign (x : Table -> Table) : Setup :=
  {| cat := set_tables (fun ts => delete (public, "file_versions"%string) (alter x (public, "nodes"%string) ts)) (cat older);
     pg := rows_none |}.
Lemma foreign_nodes_refused :
  (start up true (foreign (fun x => x))).1 = Ok {| max_connections := 16; search_path := public; single_instance := false |} /\
  (start up true (foreign (fun x => {| columns := columns x; not_null := not_null x; defaults := defaults x; keys := ∅;
    checks := checks x; breaks := ∅; rows := 7 |}))).1 = Err (MigrationFailed (Fail (Records.Database "42830"))) /\
  (start up true (foreign (fun x => {| columns := columns x; not_null := not_null x; defaults := defaults x; keys := keys x;
    checks := checks x; breaks := {["nodes_kind_check"]}; rows := 7 |}))).1 = Err (MigrationFailed (Fail (Records.Database "23514"))) /\
  (start up true (foreign (fun x => {| columns := {["owner"]} ∪ columns x; not_null := {["owner"]} ∪ not_null x;
    defaults := defaults x; keys := keys x; checks := checks x; breaks := ∅; rows := 7 |}))).1 =
    Err (NoRoot (Fail (Records.Database "23502"))).
Proof. vm_compute. done. Qed.

(** Starting with leave to migrate drops the other application's empty table. *)
Lemma foreign_table_dropped :
  resolve public "upload_jobs" (cat shared) = Some (users 0) /\
  resolve public "upload_jobs" (cat (start up true shared).2) = None /\
  resolve public "users" (cat (start up true shared).2) = Some (users 3).
Proof. vm_compute. done. Qed.

(** The first migration applied by hand, as the message about missing tables says: the tables are
    there, and the server still does not start, since [nodes] has no [link_target]. *)
Definition by_hand : Setup :=
  {| cat := match exec_all public MIGRATION_0001 (cat shared) with Ok c => c | Err _ => cat shared end; pg := rows_none |}.
Lemma advice_does_not_suffice :
  (start up false shared).1 = Err (MissingTables REQUIRED_TABLES) /\
  (start up false by_hand).1 = Err (NoRoot (Fail (Records.Database "42703"))).
Proof. vm_compute. done. Qed.

End PgSchemaExample.
