(* ===== verification/Discord.v ===== *)
(** * Discord as an object store

    Models [src/crates/dcfs-discord/src]: [ratelimit.rs] (module [RateLimit]), [retry.rs]
    and [client.rs] (module [DiscordClient]), [locator.rs] and [store.rs] (module
    [DiscordStore]), and [src/crates/dcfs-server/src/locators.rs], which keeps the
    locators in the metadata repository.

    Discord itself and its CDN are the class [Discord]: what a request is answered with,
    or the text of the error when there was no answer. One clock, in nanoseconds, is read
    for [Instant::now()] and [Utc::now()]. Header values are the numbers they parse to;
    how long to back off is a parameter. Requests of one client run one after another, so
    the semaphore always has a permit. *)
From Stdlib.Strings Require Import Ascii.
From Stdlib.Strings Require String.
From stdpp Require Import pretty.
From S2P Require Import Prelude Crypto ObjectStore Repository Locks Server Data.

Module RateLimit.

Record RateLimitBucket : Type := { remaining : option Z; reset_at : option Z; global : bool }.

Definition new_bucket : RateLimitBucket := {| remaining := None; reset_at := None; global := false |}.
Definition update_from_headers (rem : option Z) (reset : option Z) (glob : bool) : RateLimitBucket :=
  {| remaining := rem; reset_at := reset; global := glob |}.
Definition mark_rate_limited (now retry_after : Z) (b : RateLimitBucket) : RateLimitBucket :=
  {| remaining := Some 0; reset_at := Some (now + retry_after); global := global b |}.
Definition wait_duration (now : Z) (b : RateLimitBucket) : option Z :=
  if 0 <? default 1 (remaining b) then None else
  reset ← reset_at b;
  if reset <=? now then None else Some (reset - now).
Definition is_limited (now : Z) (b : RateLimitBucket) : bool := bool_decide (is_Some (wait_duration now b)).

(** [RateLimitManager]: buckets by their hash, and the global one. *)
Record RateLimitManager : Type := { buckets : gmap string RateLimitBucket; global_bucket : RateLimitBucket }.
Definition new : RateLimitManager := {| buckets := ∅; global_bucket := new_bucket |}.
(** [bucket(hash)] is shared: a change through it is a change of the manager's. *)
Definition with_bucket (hash : string) (f : RateLimitBucket -> RateLimitBucket) (m : RateLimitManager) : RateLimitManager :=
  {| buckets := <[hash := f (default new_bucket (buckets m !! hash))]> (buckets m); global_bucket := global_bucket m |}.
Definition with_global (f : RateLimitBucket -> RateLimitBucket) (m : RateLimitManager) : RateLimitManager :=
  {| buckets := buckets m; global_bucket := f (global_bucket m) |}.

(** When [wait_for_slot], called at [now], returns. *)
Definition wait_for_slot (hash : string) (m : RateLimitManager) (now : Z) : Z :=
  let now := now + default 0 (wait_duration now (global_bucket m)) in
  now + default 0 (buckets m !! hash ≫= wait_duration now).

End RateLimit.

(** ** The client *)
Module DiscordClient.
Import RateLimit.

Inductive RetryPolicy : Type := Retry | Fail.
(** [RetryConfig], without the numbers the backoff is made of. *)
Record RetryConfig : Type := { max_attempts : Z }.
Definition should_retry (c : RetryConfig) (attempt : Z) : RetryPolicy :=
  if attempt <? max_attempts c then Retry else Fail.

Inductive DiscordError : Type :=
| Http (m : string)
| Api (status : Z) (message : string)
| RateLimited (retry_after : Z)
| MaxRetriesExceeded (max_attempts : Z)
| InvalidResponse (m : string)
| AttachmentNotFound.

Record DiscordClientConfig : Type := {
  webhook_id : string;
  webhook_token : string;
  base_url : string;
  retry : RetryConfig;
  max_concurrency : Z;
}.
Definition new_config (id token : string) : DiscordClientConfig :=
  {| webhook_id := id; webhook_token := token; base_url := "https://discord.com/api/v10"; retry := {| max_attempts := 5 |};
     max_concurrency := 4 |}.
Definition with_base_url (url : string) (c : DiscordClientConfig) : DiscordClientConfig :=
  {| webhook_id := webhook_id c; webhook_token := webhook_token c; base_url := url; retry := retry c;
     max_concurrency := max_concurrency c |}.
Definition with_retry (r : RetryConfig) (c : DiscordClientConfig) : DiscordClientConfig :=
  {| webhook_id := webhook_id c; webhook_token := webhook_token c; base_url := base_url c; retry := r;
     max_concurrency := max_concurrency c |}.

Definition with_max_concurrency (n : Z) (c : DiscordClientConfig) : DiscordClientConfig :=
  {| webhook_id := webhook_id c; webhook_token := webhook_token c; base_url := base_url c; retry := retry c;
     max_concurrency := Z.max n 1 |}.
(** [Debug]: the fields and what is printed of them. *)
Definition debug (c : DiscordClientConfig) : list (string * string) :=
  [("webhook_id", webhook_id c); ("webhook_token", "<redacted>"); ("base_url", base_url c);
   ("retry", pretty (max_attempts (retry c))); ("max_concurrency", pretty (max_concurrency c))]%string.
Definition webhook_url (c : DiscordClientConfig) : string :=
  (base_url c +:+ "/webhooks/" +:+ webhook_id c +:+ "/" +:+ webhook_token c)%string.
Definition message_url (c : DiscordClientConfig) (message : string) : string := (webhook_url c +:+ "/messages/" +:+ message)%string.

Record Attachment : Type := { a_id : string; a_size : Z; a_url : string }.
Record WebhookMessage : Type := { m_id : string; m_attachments : list Attachment }.

(** What is sent, by which webhook; a range names its first and last byte. *)
Inductive Request : Type :=
| Upload (webhook filename : string) (data : bytes)
| FetchMessage (webhook message : string)
| Download (url : string) (range : option (Z * Z))
| DeleteMessage (webhook message : string).

Record Headers : Type := {
  h_remaining : option Z;     (* x-ratelimit-remaining *)
  h_reset_after : option Z;   (* x-ratelimit-reset-after, in nanoseconds *)
  h_reset : option Z;         (* x-ratelimit-reset, as [u64] seconds *)
  h_global : bool;            (* x-ratelimit-global *)
  h_retry_after : option Z;   (* retry-after, in nanoseconds *)
}.
(** The body as JSON, as bytes and as text, or the error of reading it so. *)
Record Response : Type := {
  status : Z;
  headers : Headers;
  json : result string WebhookMessage;
  payload : result string bytes;
  text : string;
}.

(** Discord, at a time: the text is the error of a request without a response. *)
Class Discord (D : Type) : Type := {
  respond : Z -> Request -> D -> result string Response * D;
  latency : D -> Z;
}.

(** [str::replace]: matches are found from the left and do not overlap. [n] bounds the
    steps by the length of the text. *)
Fixpoint replace_from {A} `{EqDecision A} (n : nat) (pat rep s : list A) : list A :=
  match n, s with
  | O, _ => s
  | _, [] => []
  | S n', c :: s' =>
      if bool_decide (take (length pat) s = pat)
      then rep ++ replace_from n' pat rep (drop (length pat) s)
      else c :: replace_from n' pat rep s'
  end.
Definition str_replace (pat rep s : string) : string :=
  String.string_of_list_ascii (replace_from (String.length s) (String.list_ascii_of_string pat)
    (String.list_ascii_of_string rep) (String.list_ascii_of_string s)).

Definition scrub (c : DiscordClientConfig) (text : string) : string :=
  if bool_decide (webhook_token c = ""%string) then text
  else str_replace (webhook_token c) "<webhook-token>" text.

Section Client.
Context {D : Type} `{Discord D} (backoff : Z -> Z).

(** Discord, the clients' rate limits and the clock. *)
Record Conn : Type := { remote : D; limits : RateLimitManager; time : Z }.

Definition M (A : Type) : Type := Conn -> result (fault DiscordError) A * Conn.
#[global] Instance M_ret : MRet M := fun A a s => (Ok a, s).
#[global] Instance M_bind : MBind M := fun A B f m s =>
  match m s with
  | (Ok a, s') => f a s'
  | (Err e, s') => (Err e, s')
  end.
Definition fail {A} (e : DiscordError) : M A := fun s => (Err (Prelude.Fail e), s).
Definition panic {A} : M A := fun s => (Err Panic, s).
Definition sleep (d : Z) : M unit := fun s => (Ok tt, {| remote := remote s; limits := limits s; time := time s + d |}).
Definition on_limits (f : Z -> RateLimitManager -> RateLimitManager) : M unit := fun s =>
  (Ok tt, {| remote := remote s; limits := f (time s) (limits s); time := time s |}).
Definition wait_slot (hash : string) : M unit := fun s =>
  (Ok tt, {| remote := remote s; limits := limits s; time := wait_for_slot hash (limits s) (time s) |}).
Definition send (req : Request) : M (result string Response) := fun s =>
  let '(r, d) := respond (time s) req (remote s) in
  (Ok r, {| remote := d; limits := limits s; time := time s + latency d |}).

(** The instant a response says its bucket resets. *)
Definition reset_of (h : Headers) (now : Z) : option Z :=
  match h_reset_after h with
  | Some after => if 0 <=? after then Some (now + after)
                  else (fun ts => now + saturating_sub ts (now / 10 ^ 9) * 10 ^ 9) <$> h_reset h
  | None => (fun ts => now + saturating_sub ts (now / 10 ^ 9) * 10 ^ 9) <$> h_reset h
  end.
Definition update_ratelimit (h : Headers) (hash : string) : M unit := on_limits (fun now m =>
  if h_global h
  then with_global (fun _ => update_from_headers (h_remaining h) (reset_of h now) true) m
  else with_bucket hash (fun _ => update_from_headers (h_remaining h) (reset_of h now) false) m).

(** [Duration::from_secs_f64] panics on a negative number. *)
Definition rate_limited (h : Headers) (hash : string) : M unit :=
  let retry_after := default (10 ^ 9) (h_retry_after h) in
  if retry_after <? 0 then panic
  else on_limits (fun now => with_bucket hash (mark_rate_limited now retry_after)).

Definition is_success (status : Z) : bool := (200 <=? status) && (status <? 300).

(** The loop the four requests share, from attempt [attempt] on with [left] of them to
    go: [gone] is what a 404 is reported as, when it is not with its text. *)
Fixpoint request_loop (c : DiscordClientConfig) (hash : string) (req : Request) (gone : option string)
    (left : nat) (attempt : Z) : M Response :=
  match left with
  | O => fail (MaxRetriesExceeded (max_attempts (retry c)))
  | S left' =>
      let again := request_loop c hash req gone left' (attempt + 1) in
      _ ← wait_slot hash;
      outcome ← send req;
      match outcome with
      | Err e =>
          match should_retry (retry c) attempt with
          | Fail => fail (Http (scrub c e))
          | Retry => _ ← sleep (backoff attempt); again
          end
      | Ok resp =>
          _ ← update_ratelimit (headers resp) hash;
          if status resp =? 429 then
            _ ← rate_limited (headers resp) hash;
            match should_retry (retry c) attempt with
            | Fail => fail (MaxRetriesExceeded (max_attempts (retry c)))
            | Retry => _ ← sleep (backoff attempt); again
            end
          else if (status resp =? 404) && bool_decide (is_Some gone) then fail (Api 404 (default ""%string gone))
          else if negb (is_success (status resp)) then
            match should_retry (retry c) attempt with
            | Retry => if 500 <=? status resp then _ ← sleep (backoff attempt); again
                       else fail (Api (status resp) (text resp))
            | Fail => fail (Api (status resp) (text resp))
            end
          else mret resp
      end
  end.
(** [for attempt in 0..=max_attempts]. *)
Definition request (c : DiscordClientConfig) (hash : string) (req : Request) (gone : option string) : M Response :=
  request_loop c hash req gone (Z.to_nat (max_attempts (retry c) + 1)) 0.

(** [transport_error] of a body that cannot be read. *)
Definition readable {A} (c : DiscordClientConfig) (body : result string A) : M A :=
  match body with Ok a => mret a | Err e => fail (Http (scrub c e)) end.

Definition fetch_message (c : DiscordClientConfig) (message : string) : M WebhookMessage :=
  resp ← request c "webhook_fetch" (FetchMessage (webhook_id c) message) (Some "message not found"%string);
  readable c (json resp).
Definition upload_attachment (c : DiscordClientConfig) (filename : string) (data : bytes) : M WebhookMessage :=
  resp ← request c "webhook_upload" (Upload (webhook_id c) filename data) None;
  readable c (json resp).
Definition download_attachment_range (c : DiscordClientConfig) (url : string) (range : option (Z * Z)) : M bytes :=
  resp ← request c "webhook_download"
           (Download url ((fun r => (r.1, r.1 +u r.2 -u 1)) <$> range)) None;
  bs ← readable c (payload resp);
  match range with
  | Some (offset, l) =>
      if status resp =? 206 then mret bs
      else let start := Z.min offset (len bs) in
           mret (slice bs start (Z.min (start +u l) (len bs)))
  | None => mret bs
  end.
Definition download_attachment (c : DiscordClientConfig) (url : string) : M bytes :=
  download_attachment_range c url None.
Definition delete_message (c : DiscordClientConfig) (message : string) : M unit :=
  _ ← request c "webhook_delete" (DeleteMessage (webhook_id c) message) (Some "message not found"%string);
  mret tt.

End Client.
Arguments Conn : clear implicits.
End DiscordClient.

(** ** The store *)
Module DiscordStore.
Import RateLimit DiscordClient.

Record DiscordLocator : Type := {
  dl_object_id : Uuid;
  dl_message_id : string;
  dl_attachment_id : string;
  dl_webhook_id : string;
  dl_url : string;
  dl_size : Z;
}.
Definition new_locator (id : Uuid) (message attachment url : string) (size : Z) : DiscordLocator :=
  {| dl_object_id := id; dl_message_id := message; dl_attachment_id := attachment; dl_webhook_id := "";
     dl_url := url; dl_size := size |}.
Definition from_webhook (webhook : string) (l : DiscordLocator) : DiscordLocator :=
  {| dl_object_id := dl_object_id l; dl_message_id := dl_message_id l; dl_attachment_id := dl_attachment_id l;
     dl_webhook_id := webhook; dl_url := dl_url l; dl_size := dl_size l |}.

(** [LocatorStore]. *)
Class LocatorStore (L : Type) : Type := {
  lput : DiscordLocator -> L -> result string unit * L;
  lget : Uuid -> L -> result string (option DiscordLocator);
  lset_url : Uuid -> string -> L -> result string unit * L;
  lremove : Uuid -> L -> result string unit * L;
}.

(** [MemoryLocatorStore]. *)
Definition MemoryLocatorStore : Type := gmap Uuid DiscordLocator.
Definition set_url_of (url : string) (l : DiscordLocator) : DiscordLocator :=
  {| dl_object_id := dl_object_id l; dl_message_id := dl_message_id l; dl_attachment_id := dl_attachment_id l;
     dl_webhook_id := dl_webhook_id l; dl_url := url; dl_size := dl_size l |}.
#[export] Instance memory_locators : LocatorStore MemoryLocatorStore := {|
  lput l m := (Ok tt, <[dl_object_id l := l]> m);
  lget id m := Ok (m !! id);
  lset_url id url m := (Ok tt, alter (set_url_of url) id m);
  lremove id m := (Ok tt, delete id m);
|}.

(** [str::split_once]. *)
Fixpoint split_once (c : Ascii.ascii) (s : string) : option (string * string) :=
  match s with
  | EmptyString => None
  | String a s' => if bool_decide (a = c) then Some (""%string, s')
                   else (fun p => (String a p.1, p.2)) <$> split_once c s'
  end.

(** [RepositoryLocatorStore]. *)
Definition BACKEND : string := "discord".
Definition repository_message (e : Records.RepositoryError) : string :=
  match e with
  | Records.NotFound => "not found"
  | Records.AlreadyExists => "already exists"
  | Records.Conflict => "conflict"
  | Records.DirectoryNotEmpty => "directory not empty"
  | Records.Database m => "database error: " +:+ m
  end.
Definition to_record (l : DiscordLocator) : Records.ObjectLocatorRecord :=
  {| Records.l_object_id := dl_object_id l;
     Records.l_backend := if bool_decide (dl_webhook_id l = ""%string) then BACKEND
                          else (BACKEND +:+ ":" +:+ dl_webhook_id l)%string;
     Records.l_message_id := dl_message_id l; Records.l_attachment_id := dl_attachment_id l;
     Records.l_url := dl_url l; Records.l_size := i64 (dl_size l) |}.
Definition of_record (id : Uuid) (r : Records.ObjectLocatorRecord) : DiscordLocator :=
  let webhook := default ""%string (snd <$> split_once ":"%char (Records.l_backend r)) in
  from_webhook webhook (new_locator id (Records.l_message_id r) (Records.l_attachment_id r) (Records.l_url r)
                          (Z.max (Records.l_size r) 0)).
Definition repo_get (id : Uuid) (r : MemoryRepo.Repo) : result string (option DiscordLocator) :=
  match MemoryRepo.get_object_locator id r with
  | Ok record => Ok (Some (of_record id record))
  | Err Records.NotFound => Ok None
  | Err e => Err (repository_message e)
  end.
Definition repo_update {A} (f : MemoryRepo.Repo -> result Records.RepositoryError A * MemoryRepo.Repo) (r : MemoryRepo.Repo)
    : result string A * MemoryRepo.Repo :=
  let '(res, r') := f r in (map_err repository_message res, r').
Definition repository_locators : LocatorStore MemoryRepo.Repo := {|
  lput l := repo_update (MemoryRepo.put_object_locator (to_record l));
  lget := repo_get;
  lset_url id url := repo_update (MemoryRepo.touch_object_url id url);
  lremove id := repo_update (MemoryRepo.delete_object_locator id);
|}.

(** [str::split('&')] and [find_map] of the first part that starts with [ex=]. *)
Fixpoint split_on (c : Ascii.ascii) (s : string) : list string :=
  match s with
  | EmptyString => [""%string]
  | String a s' => match split_on c s' with
                   | [] => [s]
                   | part :: parts => if bool_decide (a = c) then ""%string :: part :: parts else String a part :: parts
                   end
  end.
Fixpoint strip_prefix (p s : string) : option string :=
  match p, s with
  | EmptyString, _ => Some s
  | String a p', String b s' => if bool_decide (a = b) then strip_prefix p' s' else None
  | String _ _, EmptyString => None
  end.
Definition hex_digit (a : Ascii.ascii) : option Z :=
  let n := Z.of_nat (Ascii.nat_of_ascii a) in
  if (48 <=? n) && (n <=? 57) then Some (n - 48)
  else if (97 <=? n) && (n <=? 102) then Some (n - 87)
  else if (65 <=? n) && (n <=? 70) then Some (n - 55) else None.
Fixpoint hex_value (s : string) (acc : Z) : option Z :=
  match s with
  | EmptyString => Some acc
  | String a s' => d ← hex_digit a; hex_value s' (16 * acc + d)
  end.
(** [i64::from_str_radix(_, 16)]. *)
Definition from_hex (s : string) : option Z :=
  let '(negative, digits) := match s with
                             | String "-"%char s' => (true, s')
                             | String "+"%char s' => (false, s')
                             | _ => (false, s)
                             end in
  if bool_decide (digits = ""%string) then None else
  v ← hex_value digits 0;
  let v := if negative : bool then - v else v in
  if (- 2 ^ 63 <=? v) && (v <? 2 ^ 63) then Some v else None.

(** [DiscordError::Api { status: 404, .. }]. *)
Definition gone (e : DiscordError) : bool := match e with Api status _ => status =? 404 | _ => false end.
Definition map_err (e : fault DiscordError) (id : Uuid) : fault Store.ObjectStoreError :=
  match e with
  | Prelude.Fail e => Prelude.Fail (if gone e then Store.NotFound id else Store.Backend (match e with
      | Http m => "HTTP error: " +:+ m
      | Api status m => "Discord API error " +:+ pretty status +:+ ": " +:+ m
      | RateLimited n => "rate limited, retry after " +:+ pretty n
      | MaxRetriesExceeded n => "max retries (" +:+ pretty n +:+ ") exceeded"
      | InvalidResponse m => "invalid response: " +:+ m
      | AttachmentNotFound => "attachment not found in response"
      end)%string)
  | Panic => Panic
  end.

Section Store.
Context {D : Type} `{Discord D} {L : Type} `{LocatorStore L} (backoff : Z -> Z).
(** The webhooks, of which there is one at least, and [DateTime::from_timestamp]. *)
Context (clients : list DiscordClientConfig) (from_timestamp : Z -> option Z).

(** Discord and the clock, what each client knows of its limits, and the locators. *)
Record t : Type := { discord : D; now : Z; known_limits : gmap nat RateLimitManager; locators : L }.

Definition url_expiry (url : string) : option Z :=
  query ← snd <$> split_once "?"%char url;
  raw ← head (omap (strip_prefix "ex=") (split_on "&"%char query));
  seconds ← from_hex raw;
  from_timestamp seconds.

(** A fault of an operation: an error, or a panic. *)
Definition M (A : Type) : Type := t -> result (fault Store.ObjectStoreError) A * t.
#[global] Instance SM_ret : MRet M := fun A a s => (Ok a, s).
#[global] Instance SM_bind : MBind M := fun A B f m s =>
  match m s with
  | (Ok a, s') => f a s'
  | (Err e, s') => (Err e, s')
  end.
Definition sfail {A} (e : Store.ObjectStoreError) : M A := fun s => (Err (Prelude.Fail e), s).

Definition default_client : DiscordClientConfig := new_config "" "".
Definition nth_client (i : nat) : DiscordClientConfig := default default_client (clients !! i).
(** A request of client [i]; the outcome is looked at by the caller. *)
Definition with_client {A} (i : nat) (m : DiscordClientConfig -> DiscordClient.M A)
    : M (result (fault DiscordError) A) := fun s =>
  let '(r, conn) := m (nth_client i)
    {| remote := discord s; limits := default RateLimit.new (known_limits s !! i); time := now s |} in
  (Ok r, {| discord := remote conn; now := time conn; known_limits := <[i := limits conn]> (known_limits s);
            locators := locators s |}).
Definition or_fail {A} (id : Uuid) (r : result (fault DiscordError) A) : M A := fun s =>
  (match r with Ok a => Ok a | Err e => Err (map_err e id) end, s).

(** A call of the locator store, with its error as [Backend]. *)
Definition locator_call {A} (f : L -> result string A * L) : M A := fun s =>
  let '(r, l) := f (locators s) in
  (match r with Ok a => Ok a | Err m => Err (Prelude.Fail (Store.Backend m)) end,
   {| discord := discord s; now := now s; known_limits := known_limits s; locators := l |}).
Definition locator_query {A} (f : L -> result string A) : M A := fun s =>
  (match f (locators s) with Ok a => Ok a | Err m => Err (Prelude.Fail (Store.Backend m)) end, s).

(** [u64::from_le_bytes] of the last eight bytes of the group. *)
Definition client_for_group (group : Uuid) : nat :=
  Z.to_nat (from_le_bytes (slice (uuid_bytes group) 8 16) mod Z.of_nat (length clients)).
Definition client_for (l : DiscordLocator) : nat :=
  match list_find (fun c => webhook_id c = dl_webhook_id l) clients with Some (i, _) => i | None => 0%nat end.

Definition locator_of (id : Uuid) : M DiscordLocator :=
  found ← locator_query (lget id);
  match found with Some l => mret l | None => sfail (Store.NotFound id) end.

Definition refresh_url (l : DiscordLocator) : M string :=
  r ← with_client (client_for l) (fun c => fetch_message backoff c (dl_message_id l));
  message ← or_fail (dl_object_id l) r;
  match list_find (fun a => a_id a = dl_attachment_id l) (m_attachments message) with
  | None => sfail (Store.NotFound (dl_object_id l))
  | Some (_, attachment) =>
      _ ← locator_call (lset_url (dl_object_id l) (a_url attachment));
      mret (a_url attachment)
  end.

Definition fresh_url (l : DiscordLocator) : M string := fun s =>
  match url_expiry (dl_url l) with
  | Some expiry => if expiry * 10 ^ 9 <=? now s + 60 * 10 ^ 9 then refresh_url l s else (Ok (dl_url l), s)
  | None => (Ok (dl_url l), s)
  end.

Definition put_for (created_at : Z) (id : Uuid) (data : bytes) (group : Uuid) : M Store.StoredObject :=
  found ← locator_query (lget id);
  if bool_decide (is_Some found) then sfail (Store.AlreadyExists id) else
  let filename := (Data.uuid_to_string id +:+ ".bin")%string in
  let client := client_for_group group in
  r ← with_client client (fun c => upload_attachment backoff c filename data);
  msg ← or_fail id r;
  match m_attachments msg with
  | [] => sfail (Store.Backend "no attachment in the response")
  | attachment :: _ =>
      let locator := from_webhook (webhook_id (nth_client client))
        (new_locator id (m_id msg) (a_id attachment) (a_url attachment) (a_size attachment)) in
      _ ← locator_call (lput locator);
      mret {| Store.so_id := id; Store.so_size := a_size attachment; Store.so_created_at := created_at |}
  end.
Definition put (created_at : Z) (id : Uuid) (data : bytes) : M Store.StoredObject := put_for created_at id data id.

(** [get] and [get_range] try the link they have, and once more with a fresh one. *)
Definition download (id : Uuid) (range : option (Z * Z)) : M bytes :=
  l ← locator_of id;
  url ← fresh_url l;
  r ← with_client (client_for l) (fun c => download_attachment_range backoff c url range);
  match r with
  | Ok bs => mret bs
  | Err Panic => fun s => (Err Panic, s)
  | Err (Prelude.Fail _) =>
      fresh ← refresh_url l;
      r ← with_client (client_for l) (fun c => download_attachment_range backoff c fresh range);
      or_fail id r
  end.
Definition get (id : Uuid) : M bytes := download id None.
Definition get_range (id : Uuid) (offset l : Z) : M bytes := download id (Some (offset, l)).

Definition delete (id : Uuid) : M unit :=
  l ← locator_of id;
  if negb (bool_decide (dl_webhook_id l = ""%string)) &&
     negb (existsb (fun c => bool_decide (webhook_id c = dl_webhook_id l)) clients)
  then sfail (Store.Retained id) else
  r ← with_client (client_for l) (fun c => delete_message backoff c (dl_message_id l));
  _ ← match r with
      | Ok _ => mret tt
      | Err (Prelude.Fail e) => if gone e then mret tt else fun s => (Err (map_err (Prelude.Fail e) id), s)
      | Err Panic => fun s => (Err Panic, s)
      end;
  locator_call (lremove id).

Definition stat (at_ : Z) (id : Uuid) : M Store.StoredObject :=
  l ← locator_of id;
  mret {| Store.so_id := id; Store.so_size := dl_size l; Store.so_created_at := at_ |}.

End Store.
Arguments t : clear implicits.
End DiscordStore.
