(* ===== verification/DiscordProps.v ===== *)
(** * Discord: what the store keeps and the client gives away

    Proofs about [Discord]: with what Discord documents ([DiscordLaws]) and a locator store
    ([LocatorLaws]), the store holds each object it reported as stored until it deletes
    it, whatever fails on the way; the client waits exactly as long as its rate limits
    ask, and no error text carries its token. *)
From Stdlib.Strings Require Import Ascii.
From Stdlib.Strings Require String.
From S2P Require Import Prelude Crypto ObjectStore Repository Locks Server Data Discord.

Module DiscordSpec.
Import RateLimit DiscordClient DiscordStore.

(** What Discord documents. A message is never changed, only deleted: [posted] is what was
    posted under a message id and by which webhook, deleted or not, and [there] whether the
    message still is. It is until a request deletes it (messages are deleted through the
    webhooks only), whether or not that request is answered, and then it does not come back;
    when a webhook's request to delete its own message is answered as done, or with the
    message not found, it is gone. A link names one attachment of one message ([target]). An
    answered upload is a new message with the file; a message that is fetched is the webhook's
    own and its links name its attachments; a download that succeeds is the attachment, or the
    range of it that was asked for when it is marked as partial. Nothing says that a request
    is answered, or succeeds. *)
Class DiscordLaws (D : Type) `{Discord D} : Type := {
  posted : D -> string -> option (string * list (string * bytes));
  there : D -> string -> bool;
  target : string -> option (string * string);
  latency_law d : 0 <= latency d;
  posted_law t req d m p : posted d m = Some p -> posted (respond t req d).2 m = Some p;
  there_law t req d m : (forall webhook, req <> DeleteMessage webhook m) -> there d m = true -> there (respond t req d).2 m = true;
  gone_law t req d m p : posted d m = Some p -> there d m = false -> there (respond t req d).2 m = false;
  deleted_law t webhook m files d resp d' :
    respond t (DeleteMessage webhook m) d = (Ok resp, d') -> posted d m = Some (webhook, files) ->
    is_success (status resp) = true \/ status resp = 404 -> there d' m = false;
  upload_law t webhook filename data d resp d' msg :
    respond t (Upload webhook filename data) d = (Ok resp, d') -> is_success (status resp) = true ->
    json resp = Ok msg ->
    posted d (m_id msg) = None /\ exists a, m_attachments msg = [a] /\ a_size a = len data /\
      target (a_url a) = Some (m_id msg, a_id a) /\ posted d' (m_id msg) = Some (webhook, [(a_id a, data)]) /\
      there d' (m_id msg) = true;
  fetch_law t webhook message d resp d' msg a :
    respond t (FetchMessage webhook message) d = (Ok resp, d') -> is_success (status resp) = true ->
    json resp = Ok msg -> a ∈ m_attachments msg -> target (a_url a) = Some (message, a_id a);
  download_law t url range d resp d' bs m a :
    respond t (Download url range) d = (Ok resp, d') -> is_success (status resp) = true ->
    payload resp = Ok bs -> target url = Some (m, a) ->
    exists webhook files b, posted d m = Some (webhook, files) /\ (a, b) ∈ files /\
      match range with
      | Some (x, y) => if status resp =? 206 then bs = slice b x (y + 1) else bs = b
      | None => bs = b
      end;
  files_law d m webhook files : posted d m = Some (webhook, files) -> NoDup (files.*1);
}.

Definition is_err {A} (r : result string A) : Prop := match r with Ok _ => False | Err _ => True end.

(** What the store relies on in its locators: a finite map. A call that fails changed
    nothing, or was carried out and lost its answer. *)
Class LocatorLaws (L : Type) `{LocatorStore L} : Type := {
  table : L -> gmap Uuid DiscordLocator;
  lput_law l s : 0 <= dl_size l < 2 ^ 63 ->
    let '(r, s') := lput l s in
    table s' = <[dl_object_id l := l]> (table s) \/ (is_err r /\ table s' = table s);
  lget_law id s : match lget id s with Ok found => found = table s !! id | Err _ => True end;
  lset_url_law id url s :
    let '(r, s') := lset_url id url s in
    table s' = alter (set_url_of url) id (table s) \/ (is_err r /\ table s' = table s);
  lremove_law id s :
    let '(r, s') := lremove id s in
    table s' = base.delete id (table s) \/ (is_err r /\ table s' = table s);
}.

Section Spec.
Context {D : Type} `{DiscordLaws D} {L : Type} `{LocatorLaws L}.
Implicit Types (s : DiscordStore.t D L) (d : D).

(** The bytes of an attachment. *)
Definition content d (m a : string) : option bytes :=
  '(_, files) ← posted d m; snd <$> (snd <$> list_find (fun f => f.1 = a) files).

(** What was stored under an id: what its locator leads to, whether or not the message was
    deleted since. *)
Definition recorded s : gmap Uuid bytes :=
  omap (fun l => content (discord s) (dl_message_id l) (dl_attachment_id l)) (table (locators s)).
(** The objects the store holds: those whose locator leads to a message that is there. *)
Definition held s : gmap Uuid bytes :=
  omap (fun l => if there (discord s) (dl_message_id l)
                 then content (discord s) (dl_message_id l) (dl_attachment_id l) else None) (table (locators s)).

(** Every locator leads to an attachment that was posted, and its link names that attachment. *)
Definition store_ok s : Prop := forall id l, table (locators s) !! id = Some l ->
  dl_object_id l = id /\ target (dl_url l) = Some (dl_message_id l, dl_attachment_id l) /\
  is_Some (content (discord s) (dl_message_id l) (dl_attachment_id l)).
(** No two objects share a message. *)
Definition apart s : Prop := forall id id' l l', table (locators s) !! id = Some l -> table (locators s) !! id' = Some l' ->
  dl_message_id l = dl_message_id l' -> id = id'.
Definition well s : Prop := store_ok s /\ apart s.

End Spec.
End DiscordSpec.

Module DiscordFacts.
Import RateLimit DiscordClient DiscordStore DiscordSpec.

(** *** Requests *)

Section Client.
Context {D : Type} {DC : Discord D} {DL : DiscordLaws D} (backoff : Z -> Z).
Implicit Types (d : D) (s : Conn D).

(** What was posted stays posted, and what is there stays there but for one message at most. *)
Record grows (victim : option string) d d' : Prop := {
  g_posted m p : posted d m = Some p -> posted d' m = Some p;
  g_there m : victim <> Some m -> there d m = true -> there d' m = true;
  g_gone m p : posted d m = Some p -> there d m = false -> there d' m = false;
}.
#[global] Instance grows_preorder victim : PreOrder (grows victim).
Proof.
  split; [by split|]. intros d1 d2 d3 H12 H23. split.
  - intros m p Hp. by apply (g_posted _ _ _ H23), (g_posted _ _ _ H12).
  - intros m Hm Ht. by apply (g_there _ _ _ H23), (g_there _ _ _ H12).
  - intros m p Hp Ht. apply (g_gone _ _ _ H23 m p); [by apply (g_posted _ _ _ H12)|by apply (g_gone _ _ _ H12 m p)].
Qed.
Lemma same_there d d' m p : grows None d d' -> posted d m = Some p -> there d' m = there d m.
Proof.
  intros Hg Hp. destruct (there d m) eqn:Ht; [by apply (g_there _ _ _ Hg)|by apply (g_gone _ _ _ Hg m p)].
Qed.
Definition victim_of (req : Request) : option string := match req with DeleteMessage _ m => Some m | _ => None end.
Lemma respond_grows t req d : grows (victim_of req) d (respond t req d).2.
Proof.
  split; [intros m p; apply posted_law| |intros m p; apply gone_law]. intros m Hv. apply there_law. intros webhook ->. by apply Hv.
Qed.

(** A request that succeeds was answered in some later state of Discord, in which it
    leaves it. *)
Definition answered (req : Request) d resp d' : Prop :=
  exists t d0, grows (victim_of req) d d0 /\ respond t req d0 = (Ok resp, d') /\ is_success (status resp) = true.

(** One that fails as not found was answered so. *)
Definition not_found (req : Request) d d' : Prop :=
  exists t d0 resp, grows (victim_of req) d d0 /\ respond t req d0 = (Ok resp, d') /\ status resp = 404.

Definition reached req d (out : result (fault DiscordError) Response * Conn D) : Prop :=
  match out with
  | (Ok resp, s') => answered req d resp (remote s')
  | (Err e, s') => grows (victim_of req) d (remote s') /\
      match e with Prelude.Fail e => DiscordStore.gone e = true -> not_found req d (remote s') | Panic => True end
  end.

(** Waiting and keeping the limits do not reach Discord, and do not fail but by a panic. *)
Definition local {A} (m : DiscordClient.M (D := D) A) : Prop := forall s, remote (m s).2 = remote s.
Definition only_panics {A} (m : DiscordClient.M (D := D) A) : Prop := forall s e, (m s).1 <> Err (Prelude.Fail e).
Lemma reached_local {A} req d (m : DiscordClient.M A) (f : A -> DiscordClient.M Response) s :
  local m -> only_panics m -> grows (victim_of req) d (remote s) -> (forall a s', remote s' = remote s -> reached req d (f a s')) ->
  reached req d ((m ≫= f) s).
Proof.
  intros Hm Hp Hg Hf. unfold mbind, M_bind. specialize (Hm s). specialize (Hp s). destruct (m s) as [[a|[e|]] s']; simpl in Hm.
  - by apply Hf.
  - by destruct (Hp e).
  - simpl. by rewrite Hm.
Qed.
Lemma local_limits f : local (on_limits (D := D) f).
Proof. done. Qed.
Lemma local_rate_limited h hash : local (rate_limited (D := D) h hash).
Proof. intros s. unfold rate_limited. by destruct (_ <? 0). Qed.
Lemma panics_rate_limited h hash : only_panics (rate_limited (D := D) h hash).
Proof. intros s e. unfold rate_limited. by destruct (_ <? 0). Qed.

Lemma reached_send req d (f : result string Response -> DiscordClient.M Response) s :
  grows (victim_of req) d (remote s) ->
  (forall r s', grows (victim_of req) d (remote s') -> (forall resp, r = Ok resp ->
     (is_success (status resp) = true -> answered req d resp (remote s')) /\
     (status resp = 404 -> not_found req d (remote s'))) -> reached req d (f r s')) ->
  reached req d ((send req ≫= f) s).
Proof.
  intros Hg Hf. unfold mbind, M_bind, send.
  pose proof (respond_grows (time s) req (remote s)) as Hgrow.
  destruct (respond (time s) req (remote s)) as [r d'] eqn:Hr. apply Hf; simpl.
  - etrans; [exact Hg|]. exact Hgrow.
  - intros resp ->. split; intros Hs; [by exists (time s), (remote s)|by exists (time s), (remote s), resp].
Qed.

Lemma request_loop_spec c hash req gone left attempt d s :
  grows (victim_of req) d (remote s) -> reached req d (request_loop backoff c hash req gone left attempt s).
Proof.
  revert attempt s. induction left as [|left IH]; intros attempt s Hg; [done|]. cbn [request_loop].
  apply reached_local; [done|done|done|]. intros [] s1 E1. apply reached_send; [by rewrite E1|]. intros r s2 Hg2 Hans.
  assert (Hagain : forall s, grows (victim_of req) d (remote s) ->
    reached req d ((sleep (backoff attempt) ≫= fun _ => request_loop backoff c hash req gone left (attempt + 1)) s))
    by (intros s3 Hg3; by apply IH).
  destruct r as [resp|e]; [|by destruct (should_retry _ _); [apply Hagain|]].
  apply reached_local; [apply local_limits|done|done|]. intros [] s3 E3. rewrite <-E3 in Hg2, Hans.
  destruct (Hans resp eq_refl) as [Hyes Hno]. destruct (Z.eqb_spec (status resp) 429) as [E429|_].
  { apply reached_local; [apply local_rate_limited|apply panics_rate_limited|done|]. intros [] s4 E4.
    destruct (should_retry _ _); [apply Hagain|]; simpl; by rewrite E4. }
  destruct (Z.eqb_spec (status resp) 404) as [E404|E404]; simpl.
  { case_bool_decide; simpl; [by split; [|intros _; apply Hno]|]. rewrite E404. simpl.
    destruct (should_retry _ _); [|by split; [|intros _; apply Hno]]. by split; [|intros _; apply Hno]. }
  destruct (is_success (status resp)) eqn:Hok; simpl; [by apply Hyes|].
  assert (Hstop : reached req d (Err (Prelude.Fail (Api (status resp) (text resp))), s3)).
  { split; [done|]. simpl. intros He%Z.eqb_eq. done. }
  destruct (should_retry _ _); [|exact Hstop]. destruct (500 <=? status resp); [by apply Hagain|exact Hstop].
Qed.

Lemma request_reached c hash req gone s : reached req (remote s) (request backoff c hash req gone s).
Proof. by apply request_loop_spec. Qed.
Lemma request_spec c hash req gone s :
  match request backoff c hash req gone s with
  | (Ok resp, s') => answered req (remote s) resp (remote s')
  | (Err _, s') => grows (victim_of req) (remote s) (remote s')
  end.
Proof. pose proof (request_reached c hash req gone s) as Hr. by destruct (request _ _ _ _ _ _) as [[resp|e] s']; [|destruct Hr]. Qed.
Lemma answered_grows req d resp d' : answered req d resp d' -> grows (victim_of req) d d'.
Proof.
  intros (t & d0 & Hg & Hr & _). pose proof (respond_grows t req d0) as Hd. rewrite Hr in Hd. by etrans.
Qed.

(** What is posted stays what it is. *)
Lemma content_grows v d d' m a b : grows v d d' -> content d m a = Some b -> content d' m a = Some b.
Proof.
  intros Hg. unfold content. destruct (posted d m) as [[w files]|] eqn:Hp; [|done]. by rewrite (g_posted _ _ _ Hg _ _ Hp).
Qed.
Lemma content_file d m a b webhook files :
  posted d m = Some (webhook, files) -> (a, b) ∈ files -> content d m a = Some b.
Proof.
  intros Hp Hin. unfold content. rewrite Hp. simpl. pose proof (files_law d m webhook files Hp) as Hnd. clear Hp.
  induction files as [|[a' b'] files IH]; [by apply not_elem_of_nil in Hin|]. simpl.
  apply NoDup_cons in Hnd as [Hnot Hnd]. case_decide as Ha; simpl in *.
  - apply elem_of_cons in Hin as [[= _ ->]|Hin]; [done|]. destruct Hnot. subst a'. apply list_elem_of_fmap. by exists (a, b).
  - apply elem_of_cons in Hin as [[= ]|Hin]; [done|]. specialize (IH Hin Hnd). by destruct (list_find _ files) as [[]|].
Qed.

(** *** The four requests *)

Lemma upload_spec c filename data s :
  match upload_attachment backoff c filename data s with
  | (Ok msg, s') => grows None (remote s) (remote s') /\ exists a, m_attachments msg = [a] /\ a_size a = len data /\
      target (a_url a) = Some (m_id msg, a_id a) /\ content (remote s') (m_id msg) (a_id a) = Some data /\
      posted (remote s) (m_id msg) = None /\ there (remote s') (m_id msg) = true
  | (Err _, s') => grows None (remote s) (remote s')
  end.
Proof.
  unfold upload_attachment, mbind, M_bind. pose proof (request_spec c "webhook_upload" (Upload (webhook_id c) filename data) None s) as Hr.
  destruct (request _ _ _ _ _ _) as [[resp|e] s']; [|done]. pose proof (answered_grows _ _ _ _ Hr) as Hg.
  unfold readable. destruct (json resp) as [msg|] eqn:Hj; [|done]. simpl. split; [done|].
  destruct Hr as (t & d0 & Hg0 & Hr & Hs). destruct (upload_law _ _ _ _ _ _ _ _ Hr Hs Hj) as (Hnew & a & Ha & Hsz & Ht & Hp & Hth).
  exists a. split_and!; try done; [eapply content_file; [exact Hp|]; by apply list_elem_of_singleton|].
  destruct (posted (remote s) (m_id msg)) as [p|] eqn:Hold; [|done]. apply (g_posted _ _ _ Hg0) in Hold. congruence.
Qed.

Lemma fetch_message_spec c message s :
  match fetch_message backoff c message s with
  | (Ok msg, s') => grows None (remote s) (remote s') /\
      forall a, a ∈ m_attachments msg -> target (a_url a) = Some (message, a_id a)
  | (Err _, s') => grows None (remote s) (remote s')
  end.
Proof.
  unfold fetch_message, mbind, M_bind. pose proof (request_spec c "webhook_fetch" (FetchMessage (webhook_id c) message) (Some "message not found"%string) s) as Hr.
  destruct (request _ _ _ _ _ _) as [[resp|e] s']; [|done]. pose proof (answered_grows _ _ _ _ Hr) as Hg.
  unfold readable. destruct (json resp) as [msg|] eqn:Hj; [|done]. simpl. split; [done|]. intros a Ha.
  destruct Hr as (t & d0 & _ & Hr & Hs). by eapply fetch_law.
Qed.

(** The other messages stay; the message is gone when its own webhook's request is answered. *)
Lemma delete_spec c message s :
  let '(r, s') := delete_message backoff c message s in
  grows (Some message) (remote s) (remote s') /\
  forall files, posted (remote s) message = Some (webhook_id c, files) ->
    match r with Ok _ => True | Err (Prelude.Fail e) => DiscordStore.gone e = true | Err Panic => False end ->
    there (remote s') message = false.
Proof.
  unfold delete_message, mbind, M_bind.
  pose proof (request_reached c "webhook_delete" (DeleteMessage (webhook_id c) message) (Some "message not found"%string) s) as Hr.
  destruct (request _ _ _ _ _ _) as [[resp|e] s']; simpl in *.
  - split; [by apply answered_grows in Hr|]. intros files Hp _. destruct Hr as (t & d0 & Hg & Hr & Hs).
    eapply deleted_law; [exact Hr|by apply (g_posted _ _ _ Hg)|by left].
  - destruct Hr as [Hg Hr]. split; [done|]. intros files Hp He. destruct e as [e|]; [|done].
    destruct (Hr He) as (t & d0 & resp & Hg0 & Hresp & Hs).
    eapply deleted_law; [exact Hresp|by apply (g_posted _ _ _ Hg0)|by right].
Qed.

(** A range asks for at least one byte, inside what can be addressed. *)
Definition range_ok (range : option (Z * Z)) : Prop :=
  match range with Some (offset, l) => 0 <= offset /\ 0 < l /\ offset + l < 2 ^ 64 | None => True end.
Definition in_range (range : option (Z * Z)) (b : bytes) : bytes :=
  match range with Some (offset, l) => slice b offset (offset + l) | None => b end.

(** Cutting the range out of the whole. *)
Lemma cut_range (b : bytes) offset l :
  0 <= offset -> 0 < l -> offset + l < 2 ^ 64 ->
  slice b (Z.min offset (len b)) (Z.min (Z.min offset (len b) +u l) (len b)) = slice b offset (offset + l).
Proof.
  intros Hoff Hl Hend. pose proof (len_nonneg b). unwrap. destruct (Z.le_ge_cases offset (len b)) as [Hle|Hge].
  - rewrite (Z.min_l offset) by done. apply getb_ext; rewrite !len_slice; [lia|]. intros i Hi. rewrite !getb_slice by lia.
    repeat case_match; try done; rewrite ?andb_true_iff, ?andb_false_iff, ?Z.leb_le, ?Z.ltb_lt, ?Z.ltb_ge, ?Z.leb_gt in *; lia.
  - rewrite slice_empty by lia. symmetry. apply len_nil_inv. rewrite len_slice. lia.
Qed.

Lemma download_spec c url range m a b s :
  range_ok range -> target url = Some (m, a) -> content (remote s) m a = Some b ->
  match download_attachment_range backoff c url range s with
  | (Ok bs, s') => grows None (remote s) (remote s') /\ bs = in_range range b
  | (Err _, s') => grows None (remote s) (remote s')
  end.
Proof.
  intros Hok Ht Hb. unfold download_attachment_range, mbind, M_bind.
  pose proof (request_spec c "webhook_download" (Download url ((fun r => (r.1, r.1 +u r.2 -u 1)) <$> range)) None s) as Hr.
  destruct (request _ _ _ _ _ _) as [[resp|e] s']; [|done]. pose proof (answered_grows _ _ _ _ Hr) as Hg.
  unfold readable. destruct (payload resp) as [bs|] eqn:Hp; [|done]. cbn [mret M_ret]. destruct Hr as (t & d0 & Hg0 & Hr & Hs).
  destruct (download_law _ _ _ _ _ _ _ _ _ Hr Hs Hp Ht) as (webhook & files & b' & Hpost & Hin & Hbs).
  pose proof (content_file _ _ _ _ _ _ Hpost Hin) as Hb'. rewrite (content_grows _ _ _ _ _ _ Hg0 Hb) in Hb'. injection Hb' as <-.
  destruct range as [[offset l]|]; simpl in *; [|by split; [|subst]]. destruct Hok as (Hoff & Hl & Hend).
  destruct (status resp =? 206); simpl; (split; [done|]); subst bs.
  - unwrap. f_equal. lia.
  - by apply cut_range.
Qed.

End Client.

(** *** The store *)

Section Store.
Context {D : Type} {DC : Discord D} {DL : DiscordLaws D} {L : Type} {LS : LocatorStore L} {LL : LocatorLaws L}.
Context (backoff : Z -> Z) (clients : list DiscordClientConfig) (from_timestamp : Z -> option Z).
Implicit Types (s : DiscordStore.t D L).

(** Whether a locator's webhook is one of the clients, and the webhook its requests go through. *)
Definition configured (l : DiscordLocator) : Prop :=
  dl_webhook_id l = ""%string \/ exists c, c ∈ clients /\ webhook_id c = dl_webhook_id l.
Definition owner (l : DiscordLocator) : string := webhook_id (nth_client clients (client_for clients l)).
Lemma configured_spec l :
  negb (bool_decide (dl_webhook_id l = ""%string)) && negb (existsb (fun c => bool_decide (webhook_id c = dl_webhook_id l)) clients) = false
    <-> configured l.
Proof.
  rewrite andb_false_iff, !negb_false_iff, bool_decide_eq_true, existsb_exists. unfold configured.
  setoid_rewrite bool_decide_eq_true. by setoid_rewrite list_elem_of_In.
Qed.

(** Nothing is lost and nothing is gained. *)
Definition same_place (l l' : DiscordLocator) : Prop :=
  dl_object_id l' = dl_object_id l /\ dl_message_id l' = dl_message_id l /\ dl_attachment_id l' = dl_attachment_id l.
Record keeps s s' : Prop := {
  k_ok : store_ok s';
  k_recorded : recorded s' = recorded s;
  k_held : held s' = held s;
  k_grows : grows None (discord s) (discord s');
  k_places : forall id l, table (locators s) !! id = Some l ->
    exists l', table (locators s') !! id = Some l' /\ same_place l l';
  k_back : forall id l', table (locators s') !! id = Some l' ->
    exists l, table (locators s) !! id = Some l /\ same_place l l';
}.

Lemma recorded_lookup s id l : table (locators s) !! id = Some l ->
  recorded s !! id = content (discord s) (dl_message_id l) (dl_attachment_id l).
Proof. intros Hl. unfold recorded. by rewrite lookup_omap, Hl. Qed.
Lemma not_recorded s id : store_ok s -> table (locators s) !! id = None <-> recorded s !! id = None.
Proof.
  intros Hok. unfold recorded. rewrite lookup_omap. destruct (table (locators s) !! id) as [l|] eqn:Hl; [|done]. simpl.
  destruct (Hok id l Hl) as (_ & _ & [b Hb]). by rewrite Hb.
Qed.
(** What is held is what was stored. *)
Lemma held_recorded s id b : held s !! id = Some b -> recorded s !! id = Some b.
Proof.
  unfold held, recorded. rewrite !lookup_omap. destruct (table (locators s) !! id) as [l|]; simpl; [|done]. by destruct (there _ _).
Qed.
Lemma content_posted d m a b : content d m a = Some b -> exists p, posted d m = Some p.
Proof. unfold content. destruct (posted d m) as [p|]; [by exists p|done]. Qed.

(** What the objects of two stores have in common is decided locator by locator. *)
Definition shown (d : D) (l : DiscordLocator) : option bytes := content d (dl_message_id l) (dl_attachment_id l).
Definition shown_there (d : D) (l : DiscordLocator) : option bytes := if there d (dl_message_id l) then shown d l else None.
Lemma shown_grows d d' l : grows None d d' -> is_Some (shown d l) -> shown d' l = shown d l /\ shown_there d' l = shown_there d l.
Proof.
  intros Hg [b Hb]. unfold shown_there. destruct (content_posted _ _ _ _ Hb) as [p Hp]. rewrite (same_there _ _ _ _ Hg Hp), Hb.
  unfold shown in *. by rewrite (content_grows _ _ _ _ _ _ Hg Hb).
Qed.

(** Discord moves on, and the locators keep leading where they led. *)
Lemma moved_on s s' (f : DiscordLocator -> DiscordLocator) (id : Uuid) :
  store_ok s -> grows None (discord s) (discord s') ->
  table (locators s') = alter f id (table (locators s)) ->
  (forall l, table (locators s) !! id = Some l ->
     dl_object_id (f l) = id /\ dl_message_id (f l) = dl_message_id l /\ dl_attachment_id (f l) = dl_attachment_id l /\
     target (dl_url (f l)) = Some (dl_message_id l, dl_attachment_id l)) ->
  keeps s s'.
Proof.
  intros Hok Hg Htab Hf.
  assert (Hone : forall k l', table (locators s') !! k = Some l' -> exists l, table (locators s) !! k = Some l /\
    dl_object_id l' = k /\ dl_message_id l' = dl_message_id l /\ dl_attachment_id l' = dl_attachment_id l /\
    target (dl_url l') = Some (dl_message_id l, dl_attachment_id l)).
  { intros k l'. rewrite Htab. destruct (decide (k = id)) as [->|Hne].
    - rewrite lookup_alter_eq. destruct (table (locators s) !! id) as [l|] eqn:Hl; [|done]. intros [= <-]. exists l. by split; [|apply Hf].
    - rewrite lookup_alter_ne by done. intros Hl. exists l'. destruct (Hok k l' Hl) as (? & ? & _). by split_and!. }
  assert (Hshown : forall k l, table (locators s) !! k = Some l ->
    shown (discord s') l = shown (discord s) l /\ shown_there (discord s') l = shown_there (discord s) l).
  { intros k l Hl. apply shown_grows; [done|]. by destruct (Hok k l Hl) as (_ & _ & ?). }
  assert (Hnone : forall k, table (locators s') !! k = None -> table (locators s) !! k = None).
  { intros k. rewrite Htab, lookup_alter. case_decide; [subst|done]. by destruct (_ !! _). }
  split; [| | |done| |].
  - intros k l' Hl'. destruct (Hone k l' Hl') as (l & Hl & Hid & Hm & Ha & Ht). rewrite Hm, Ha.
    split; [done|]. split; [done|]. destruct (Hshown k l Hl) as [Hs _]. unfold shown in Hs. rewrite Hs. by apply (Hok k l).
  - apply map_eq. intros k. unfold recorded. rewrite !lookup_omap. destruct (table (locators s') !! k) as [l'|] eqn:Hl'; simpl.
    + destruct (Hone k l' Hl') as (l & Hl & _ & Hm & Ha & _). rewrite Hl, Hm, Ha. simpl. by apply (Hshown k).
    + by rewrite Hnone.
  - apply map_eq. intros k. unfold held. rewrite !lookup_omap. destruct (table (locators s') !! k) as [l'|] eqn:Hl'; simpl.
    + destruct (Hone k l' Hl') as (l & Hl & _ & Hm & Ha & _). rewrite Hl, Hm, Ha. simpl. by apply (Hshown k).
    + by rewrite Hnone.
  - intros k l Hl. rewrite Htab. destruct (decide (k = id)) as [->|Hne].
    + rewrite lookup_alter_eq, Hl. eexists. split; [reflexivity|]. destruct (Hf l Hl) as (Hi & ? & ? & _).
      destruct (Hok id l Hl) as (Hid & _). split; [congruence|done].
    + rewrite lookup_alter_ne by done. by exists l.
  - intros k l' Hl'. destruct (Hone k l' Hl') as (l & Hl & Hid & Hm & Ha & _). exists l. split; [done|].
    destruct (Hok k l Hl) as (Hid' & _). split; [congruence|done].
Qed.
Lemma moved_same s s' :
  store_ok s -> grows None (discord s) (discord s') -> table (locators s') = table (locators s) -> keeps s s'.
Proof.
  intros Hok Hg Htab. apply (moved_on s s' (fun l => l) 0%N); [done|done| |].
  - rewrite Htab. apply map_eq. intros k. rewrite lookup_alter. case_decide; subst; by destruct (_ !! _).
  - intros l Hl. destruct (Hok _ _ Hl) as (? & ? & _). by split_and!.
Qed.
Lemma keeps_trans s1 s2 s3 : keeps s1 s2 -> keeps s2 s3 -> keeps s1 s3.
Proof.
  intros [_ E1 F1 G1 P1 B1] [O2 E2 F2 G2 P2 B2]. split; [done|congruence|congruence|by etrans| |].
  - intros id l Hl. destruct (P1 id l Hl) as (l2 & Hl2 & S1). destruct (P2 id l2 Hl2) as (l3 & Hl3 & S2). exists l3. split; [done|].
    unfold same_place in *. intuition congruence.
  - intros id l Hl. destruct (B2 id l Hl) as (l2 & Hl2 & S1). destruct (B1 id l2 Hl2) as (l3 & Hl3 & S2). exists l3. split; [done|].
    unfold same_place in *. intuition congruence.
Qed.
Lemma keeps_well s s' : well s -> keeps s s' -> well s'.
Proof.
  intros [_ Hap] Hk. split; [apply Hk|]. intros id id' l l' Hl Hl' Heq.
  destruct (k_back _ _ Hk id l Hl) as (l0 & Hl0 & _ & Hm & _). destruct (k_back _ _ Hk id' l' Hl') as (l1 & Hl1 & _ & Hm' & _).
  eapply Hap; [exact Hl0|exact Hl1|congruence].
Qed.

(** A request of a client leaves the locators alone. *)
Lemma with_client_spec {A} i (m : DiscordClientConfig -> DiscordClient.M A) s :
  exists r conn s', with_client clients i m s = (Ok r, s') /\ m (nth_client clients i)
      {| remote := discord s; limits := default RateLimit.new (known_limits s !! i); time := now s |} = (r, conn) /\
    discord s' = remote conn /\ locators s' = locators s.
Proof.
  unfold with_client. destruct (m _ _) as [r conn]. exists r, conn. eexists. by split_and!.
Qed.

Lemma sbind_ok {A B} (m : DiscordStore.M A) (f : A -> DiscordStore.M B) s a s' :
  m s = (Ok a, s') -> (m ≫= f) s = f a s'.
Proof. intros Hm. unfold mbind, SM_bind. by rewrite Hm. Qed.
Lemma sbind_err {A B} (m : DiscordStore.M A) (f : A -> DiscordStore.M B) s e s' :
  m s = (Err e, s') -> (m ≫= f) s = (Err e, s').
Proof. intros Hm. unfold mbind, SM_bind. by rewrite Hm. Qed.

Lemma refresh_spec l l0 id s :
  store_ok s -> table (locators s) !! id = Some l0 -> same_place l l0 ->
  match refresh_url backoff clients l s with
  | (Ok url, s') => keeps s s' /\ target url = Some (dl_message_id l, dl_attachment_id l)
  | (Err _, s') => keeps s s'
  end.
Proof.
  intros Hok Hl (Ho & Hm & Ha). destruct (Hok id l0 Hl) as (Hid & _ & _). unfold refresh_url.
  destruct (with_client_spec (client_for clients l) (fun c => fetch_message backoff c (dl_message_id l)) s)
    as (r & conn & s1 & Hrun & Hreq & Hd & Hloc).
  rewrite (sbind_ok _ _ _ _ _ Hrun).
  pose proof (fetch_message_spec backoff (nth_client clients (client_for clients l)) (dl_message_id l)
    {| remote := discord s; limits := default RateLimit.new (known_limits s !! client_for clients l); time := now s |}) as Hf.
  rewrite Hreq in Hf. destruct r as [msg|e].
  2: { erewrite sbind_err by reflexivity. apply moved_same; [done|by rewrite Hd|by rewrite Hloc]. }
  destruct Hf as [Hg Hatt]. simpl in Hg. erewrite sbind_ok by reflexivity.
  destruct (list_find _ _) as [[i a]|] eqn:Hfind; [|apply moved_same; [done|by rewrite Hd|by rewrite Hloc]].
  apply list_find_Some in Hfind as (Hi & Haid & _). apply list_elem_of_lookup_2 in Hi.
  pose proof (Hatt a Hi) as Ht. rewrite Haid in Ht. pose proof (lset_url_law (dl_object_id l) (a_url a) (locators s1)) as Hset.
  assert (Hnew : forall ls, table ls = alter (set_url_of (a_url a)) (dl_object_id l) (table (locators s1)) ->
    keeps s {| discord := discord s1; now := now s1; known_limits := known_limits s1; locators := ls |}).
  { intros ls Htab. apply (moved_on s _ (set_url_of (a_url a)) id); simpl; [done|by rewrite Hd|by rewrite Htab, Hloc, <-Ho, Hid|].
    intros l' Hl'. rewrite Hl in Hl'. injection Hl' as <-. simpl. rewrite Hm, Ha. by split_and!. }
  unfold mbind, SM_bind, locator_call. destruct (lset_url _ _ _) as [[[]|e] ls]; simpl.
  - split; [|done]. destruct Hset as [Hset|[[] _]]. by apply Hnew.
  - destruct Hset as [Hset|[_ Hset]]; [by apply Hnew|]. apply moved_same; simpl; [done|by rewrite Hd|by rewrite Hset, Hloc].
Qed.

Lemma keeps_refl s : store_ok s -> keeps s s.
Proof. intros Hok. split; try done; intros id l Hl; by exists l. Qed.

Lemma fresh_spec l id s :
  store_ok s -> table (locators s) !! id = Some l ->
  match fresh_url backoff clients from_timestamp l s with
  | (Ok url, s') => keeps s s' /\ target url = Some (dl_message_id l, dl_attachment_id l)
  | (Err _, s') => keeps s s'
  end.
Proof.
  intros Hok Hl. unfold fresh_url. destruct (Hok id l Hl) as (_ & Ht & _).
  destruct (url_expiry _ _) as [expiry|]; [|by split; [apply keeps_refl|]].
  destruct (_ <=? _); [by eapply (refresh_spec l l)|by split; [apply keeps_refl|]].
Qed.

Lemma locator_of_spec id s :
  (exists l, table (locators s) !! id = Some l /\ locator_of id s = (Ok l, s)) \/
  (table (locators s) !! id = None /\ locator_of id s = (Err (Prelude.Fail (Store.NotFound id)), s)) \/
  (exists m, locator_of id s = (Err (Prelude.Fail (Store.Backend m)), s)).
Proof.
  unfold locator_of, mbind, SM_bind, locator_query. pose proof (lget_law id (locators s)) as Hg.
  destruct (lget id (locators s)) as [[l|]|m]; [left; by eexists|right; left; done|right; right; by eexists].
Qed.

(** A download through a link that names the attachment. *)
Lemma linked_download url range l b s :
  store_ok s -> content (discord s) (dl_message_id l) (dl_attachment_id l) = Some b -> range_ok range ->
  target url = Some (dl_message_id l, dl_attachment_id l) ->
  exists r s', with_client clients (client_for clients l) (fun c => download_attachment_range backoff c url range) s = (Ok r, s') /\
    keeps s s' /\ locators s' = locators s /\ forall bs, r = Ok bs -> bs = in_range range b.
Proof.
  intros Hok Hb Hrange Ht.
  destruct (with_client_spec (client_for clients l) (fun c => download_attachment_range backoff c url range) s)
    as (r & conn & s1 & Hrun & Hreq & Hd & Hloc).
  exists r, s1. split; [done|].
  pose proof (download_spec backoff (nth_client clients (client_for clients l)) url range _ _ b
    {| remote := discord s; limits := default RateLimit.new (known_limits s !! client_for clients l); time := now s |}
    Hrange Ht Hb) as Hdl. rewrite Hreq in Hdl.
  split; [|split; [done|]].
  - apply moved_same; [done| |by rewrite Hloc]. rewrite Hd. by destruct r; [destruct Hdl|].
  - intros bs ->. by destruct Hdl.
Qed.

Lemma download_object id range s :
  store_ok s -> range_ok range ->
  match download backoff clients from_timestamp id range s with
  | (Ok bs, s') => keeps s s' /\ exists b, recorded s !! id = Some b /\ bs = in_range range b
  | (Err _, s') => keeps s s'
  end.
Proof.
  intros Hok Hrange. unfold download.
  destruct (locator_of_spec id s) as [(l & Hl & Hrun)|[(_ & Hrun)|(m & Hrun)]];
    [|rewrite (sbind_err _ _ _ _ _ Hrun); by apply keeps_refl..].
  rewrite (sbind_ok _ _ _ _ _ Hrun). destruct (Hok id l Hl) as (_ & _ & [b Hb]). pose proof (recorded_lookup _ _ _ Hl) as Hh.
  rewrite Hb in Hh. pose proof (fresh_spec l id s Hok Hl) as Hf. unfold mbind at 1, SM_bind at 1.
  destruct (fresh_url _ _ _ _ _) as [[url|e] s1]; [|done]. destruct Hf as [K1 Ht1].
  destruct (linked_download url range l b s1 (k_ok _ _ K1) (content_grows _ _ _ _ _ _ (k_grows _ _ K1) Hb) Hrange Ht1)
    as (r & s2 & Hrun2 & K2 & _ & Hr). rewrite (sbind_ok _ _ _ _ _ Hrun2). pose proof (keeps_trans _ _ _ K1 K2) as K12.
  destruct r as [bs|[e|]]; [split; [done|]; exists b; by split; [|apply Hr]| |done].
  destruct (k_places _ _ K12 id l Hl) as (l2 & Hl2 & Hsame).
  pose proof (refresh_spec l l2 id s2 (k_ok _ _ K12) Hl2 Hsame) as Hf. unfold mbind at 1, SM_bind at 1.
  destruct (refresh_url _ _ _ _) as [[fresh|e'] s3]; [|by eapply keeps_trans]. destruct Hf as [K3 Ht3].
  pose proof (keeps_trans _ _ _ K12 K3) as K13.
  destruct (linked_download fresh range l b s3 (k_ok _ _ K13) (content_grows _ _ _ _ _ _ (k_grows _ _ K13) Hb) Hrange Ht3)
    as (r & s4 & Hrun4 & K4 & _ & Hr4). rewrite (sbind_ok _ _ _ _ _ Hrun4). pose proof (keeps_trans _ _ _ K13 K4) as K14.
  destruct r as [bs|e']; simpl; [|done]. split; [done|]. exists b. by split; [|apply Hr4].
Qed.

(** A new locator, for a new message whose attachment holds [data]. *)
Lemma added s s' l data :
  well s -> grows None (discord s) (discord s') -> table (locators s') = <[dl_object_id l := l]> (table (locators s)) ->
  target (dl_url l) = Some (dl_message_id l, dl_attachment_id l) ->
  content (discord s') (dl_message_id l) (dl_attachment_id l) = Some data ->
  posted (discord s) (dl_message_id l) = None -> there (discord s') (dl_message_id l) = true ->
  well s' /\ held s' = <[dl_object_id l := data]> (held s).
Proof.
  intros [Hok Hap] Hg Htab Ht Hc Hnew Hth. destruct (moved_same s {| discord := discord s'; now := now s; known_limits := known_limits s;
    locators := locators s |}) as [Hok1 _ Hh1 _ _ _]; [done|done|done|].
  assert (Hother : forall k l', table (locators s) !! k = Some l' -> dl_message_id l' <> dl_message_id l).
  { intros k l' Hl' Heq. destruct (Hok k l' Hl') as (_ & _ & [b Hb]). destruct (content_posted _ _ _ _ Hb). congruence. }
  split; [split|].
  - intros k l'. rewrite Htab, lookup_insert. case_decide as Hk; [|apply Hok1]. intros [= <-]. by split_and!; [| |exists data].
  - intros k k' l1 l2. rewrite Htab, !lookup_insert. repeat case_decide; subst; try done.
    + intros [= <-] Hl2 Heq. by destruct (Hother _ _ Hl2).
    + intros Hl1' [= <-] Heq. by destruct (Hother _ _ Hl1').
    + by apply Hap.
  - rewrite <-Hh1. apply map_eq. intros k. unfold held. simpl. rewrite lookup_omap, Htab, !lookup_insert, lookup_omap.
    case_decide; [|done]. simpl. by rewrite Hth.
Qed.

Lemma put_object created id data group s :
  well s -> len data < 2 ^ 63 ->
  let '(r, s') := put_for backoff clients created id data group s in
  well s' /\
  match r with
  | Ok stored => table (locators s) !! id = None /\ held s' = <[id := data]> (held s) /\
      stored = {| Store.so_id := id; Store.so_size := len data; Store.so_created_at := created |}
  | Err (Prelude.Fail (Store.AlreadyExists k)) => k = id /\ is_Some (table (locators s) !! id) /\ s' = s
  | Err _ => held s' = held s \/ table (locators s) !! id = None /\ held s' = <[id := data]> (held s)
  end.
Proof.
  intros Hwell Hlen. pose proof Hwell as [Hok _]. unfold put_for, mbind at 1, SM_bind at 1, locator_query. pose proof (lget_law id (locators s)) as Hget.
  destruct (lget id (locators s)) as [found|m]; [|by split; [|left]]. subst found.
  destruct (table (locators s) !! id) as [l|] eqn:Hl; simpl; [by split|].
  destruct (with_client_spec (client_for_group clients group)
    (fun c => upload_attachment backoff c (Data.uuid_to_string id +:+ ".bin") data) s) as (r & conn & s1 & Hrun & Hreq & Hd & Hloc).
  rewrite (sbind_ok _ _ _ _ _ Hrun).
  pose proof (upload_spec backoff (nth_client clients (client_for_group clients group)) (Data.uuid_to_string id +:+ ".bin") data
    {| remote := discord s; limits := default RateLimit.new (known_limits s !! client_for_group clients group); time := now s |}) as Hup.
  rewrite Hreq in Hup. destruct r as [msg|e].
  2: { assert (K : keeps s s1) by (apply moved_same; [done|by rewrite Hd|by rewrite Hloc]).
       erewrite sbind_err by reflexivity. split; [by eapply keeps_well|]. pose proof (k_held _ _ K).
       destruct e as [e|]; simpl; [|by left]. destruct (gone e); by left. }
  destruct Hup as (Hg & a & Hatt & Hsz & Ht & Hc & Hnew & Hth). simpl in Hg, Hnew. erewrite sbind_ok by reflexivity. rewrite Hatt.
  set (l := from_webhook _ _). pose proof (lput_law l (locators s1) ltac:(simpl; rewrite Hsz; pose proof (len_nonneg data); lia)) as Hput.
  assert (Hadded : forall ls, table ls = <[dl_object_id l := l]> (table (locators s1)) ->
    let s' := {| discord := discord s1; now := now s1; known_limits := known_limits s1; locators := ls |} in
    well s' /\ held s' = <[id := data]> (held s)).
  { intros ls Htab. apply (added s _ l data); simpl; [done|by rewrite Hd|by rewrite Htab, Hloc|done|by rewrite Hd|done|by rewrite Hd]. }
  unfold mbind, SM_bind, locator_call. destruct (lput l (locators s1)) as [[[]|e] ls]; simpl.
  - destruct Hput as [Htab|[[] _]]. destruct (Hadded ls Htab) as [Hw Hh]. split; [done|]. split; [done|]. split; [done|]. by rewrite Hsz.
  - destruct Hput as [Htab|[_ Htab]].
    + destruct (Hadded ls Htab) as [Hw Hh]. split; [done|]. by right.
    + assert (K : keeps s {| discord := discord s1; now := now s1; known_limits := known_limits s1; locators := ls |})
        by (apply moved_same; simpl; [done|by rewrite Hd|by rewrite Htab, Hloc]).
      split; [by eapply keeps_well|]. left. apply K.
Qed.

(** After a request to delete the message of [id]: the other objects are as they were. *)
Lemma after_delete s s1 id l :
  well s -> table (locators s) !! id = Some l -> grows (Some (dl_message_id l)) (discord s) (discord s1) ->
  table (locators s1) = table (locators s) ->
  well s1 /\ (held s1 = held s \/ held s1 = base.delete id (held s)).
Proof.
  intros [Hok Hap] Hl Hg Htab.
  assert (Hshown : forall k l', table (locators s) !! k = Some l' -> shown (discord s1) l' = shown (discord s) l').
  { intros k l' Hl'. destruct (Hok k l' Hl') as (_ & _ & [b Hb]). unfold shown. by rewrite (content_grows _ _ _ _ _ _ Hg Hb), Hb. }
  split; [split|].
  - intros k l'. rewrite Htab. intros Hl'. destruct (Hok k l' Hl') as (? & ? & ?). split; [done|]. split; [done|].
    pose proof (Hshown k l' Hl') as Hs. unfold shown in Hs. by rewrite Hs.
  - intros k k' l1 l2. rewrite Htab. apply Hap.
  - assert (Hother : forall k, k <> id -> held s1 !! k = held s !! k).
    { intros k Hk. unfold held. rewrite !lookup_omap, Htab. destruct (table (locators s) !! k) as [l'|] eqn:Hl'; simpl; [|done].
      pose proof (Hshown k l' Hl') as Hs. unfold shown in Hs. rewrite Hs. destruct (Hok k l' Hl') as (_ & _ & [b Hb]).
      destruct (content_posted _ _ _ _ Hb) as [p Hp]. destruct (there (discord s) (dl_message_id l')) eqn:Ht.
      - rewrite (g_there _ _ _ Hg); [done| |done]. intros [= Heq]. by destruct (Hk (Hap _ _ _ _ Hl' Hl (eq_sym Heq))).
      - by rewrite (g_gone _ _ _ Hg _ p). }
    destruct (there (discord s1) (dl_message_id l)) eqn:Ht1; [left|right]; apply map_eq; intros k;
      (destruct (decide (k = id)) as [->|Hk]; [|rewrite ?lookup_delete_ne by done; by apply Hother]).
    + unfold held. rewrite !lookup_omap, Htab, Hl. simpl. rewrite Ht1. pose proof (Hshown id l Hl) as Hs. unfold shown in Hs. rewrite Hs.
      destruct (Hok id l Hl) as (_ & _ & [b Hb]). destruct (content_posted _ _ _ _ Hb) as [p Hp].
      destruct (there (discord s) (dl_message_id l)) eqn:Ht; [done|]. by rewrite (g_gone _ _ _ Hg _ p) in Ht1.
    + rewrite lookup_delete_eq. unfold held. rewrite lookup_omap, Htab, Hl. simpl. by rewrite Ht1.
Qed.
Lemma after_remove s s' id :
  well s -> discord s' = discord s -> table (locators s') = base.delete id (table (locators s)) ->
  well s' /\ held s' = base.delete id (held s).
Proof.
  intros [Hok Hap] Hd Htab. split; [split|].
  - intros k l'. rewrite Htab, lookup_delete, Hd. case_decide; [done|]. apply Hok.
  - intros k k' l1 l2. rewrite Htab, !lookup_delete. repeat case_decide; try done. apply Hap.
  - apply map_eq. intros k. unfold held. rewrite lookup_omap, Htab, Hd, !lookup_delete, lookup_omap. by case_decide.
Qed.

(** What a deletion does: see [discord_store_keeps]. *)
Definition delete_outcome id s (r : result (fault Store.ObjectStoreError) unit) s' : Prop :=
  well s' /\ (held s' = held s \/ held s' = base.delete id (held s)) /\
  (forall l, table (locators s) !! id = Some l -> ~ configured l ->
     s' = s /\ exists e, r = Err (Prelude.Fail e) /\ (e = Store.Retained id \/ exists m, e = Store.Backend m)) /\
  (forall l files, table (locators s) !! id = Some l -> table (locators s') !! id = None ->
     posted (discord s) (dl_message_id l) = Some (owner l, files) -> there (discord s') (dl_message_id l) = false) /\
  match r with
  | Ok _ => is_Some (table (locators s) !! id) /\ table (locators s') !! id = None /\ held s' = base.delete id (held s)
  | Err (Prelude.Fail (Store.NotFound k)) => k = id /\ table (locators s) !! id = None /\ s' = s
  | Err (Prelude.Fail (Store.Retained k)) => k = id /\ s' = s /\ exists l, table (locators s) !! id = Some l /\ ~ configured l
  | Err _ => True
  end.
Lemma remove_outcome id l s s1 :
  well s1 -> table (locators s) !! id = Some l -> (held s1 = held s \/ held s1 = base.delete id (held s)) -> configured l ->
  (forall files, posted (discord s) (dl_message_id l) = Some (owner l, files) -> there (discord s1) (dl_message_id l) = false) ->
  let '(r, s') := locator_call (lremove id) s1 in delete_outcome id s r s'.
Proof.
  intros Hwell Hl Hheld Hcfg Hgone. unfold locator_call. pose proof (lremove_law id (locators s1)) as Hrm.
  destruct (lremove id (locators s1)) as [r ls].
  set (s' := {| discord := discord s1; now := now s1; known_limits := known_limits s1; locators := ls |}).
  assert (Hunconfigured : forall l', table (locators s) !! id = Some l' -> ~ configured l' -> False) by (intros l' Hl'; simplify_eq; tauto).
  assert (Hdel : table ls = base.delete id (table (locators s1)) -> well s' /\ held s' = base.delete id (held s)).
  { intros Htab. destruct (after_remove s1 s' id Hwell eq_refl Htab) as [Hw Hh]. split; [done|]. rewrite Hh.
    destruct Hheld as [->| ->]; [done|]. by rewrite delete_delete_eq. }
  assert (Hrest : forall Q : Prop, Q -> (forall l', table (locators s) !! id = Some l' -> ~ configured l' ->
      s' = s /\ exists e, (match r with Ok a => Ok a | Err m => Err (Prelude.Fail (Store.Backend m)) end) = Err (Prelude.Fail e) /\ (e = Store.Retained id \/ exists m, e = Store.Backend m)) /\
    (forall l' files, table (locators s) !! id = Some l' -> table (locators s') !! id = None ->
       posted (discord s) (dl_message_id l') = Some (owner l', files) -> there (discord s') (dl_message_id l') = false) /\ Q).
  { intros Q HQ. split; [intros l' Hl' Hn; by destruct (Hunconfigured l')|]. split; [|done].
    intros l' files Hl' _ Hp. simplify_eq. by apply (Hgone files). }
  destruct r as [[]|m]; simpl.
  - destruct Hrm as [Htab|[[] _]]. destruct (Hdel Htab) as [Hw Hh]. split; [done|]. split; [by right|].
    apply Hrest. rewrite Hl. split; [done|]. split; [simpl; by rewrite Htab, lookup_delete_eq|done].
  - destruct Hrm as [Htab|[_ Htab]].
    + destruct (Hdel Htab) as [Hw Hh]. split; [done|]. split; [by right|]. by apply Hrest.
    + assert (K : keeps s1 s') by (apply moved_same; [apply Hwell|done|done]). split; [by eapply keeps_well|].
      split; [by rewrite (k_held _ _ K)|]. by apply Hrest.
Qed.
Lemma delete_object id s : well s -> let '(r, s') := delete backoff clients id s in delete_outcome id s r s'.
Proof.
  intros Hwell. unfold delete.
  destruct (locator_of_spec id s) as [(l & Hl & Hrun)|[(Hno & Hrun)|(m & Hrun)]].
  2: { rewrite (sbind_err _ _ _ _ _ Hrun). split; [done|]. split; [by left|]. split; [intros l Hl; congruence|]. split; [intros l files Hl; congruence|done]. }
  2: { rewrite (sbind_err _ _ _ _ _ Hrun). split; [done|]. split; [by left|]. split; [|split; [intros l files Hl ?; congruence|done]].
       intros l Hl _. split; [done|]. eexists. split; [done|]. right. by exists m. }
  rewrite (sbind_ok _ _ _ _ _ Hrun). destruct (_ && _) eqn:Hguard.
  { assert (Hn : ~ configured l) by (rewrite <-configured_spec, Hguard; done).
    split; [done|]. split; [by left|]. split; [intros l' _ _; split; [done|]; eexists; split; [done|by left]|].
    split; [intros l' files Hl' ?; congruence|]. split; [done|]. split; [done|]. by exists l. }
  apply configured_spec in Hguard as Hcfg.
  destruct (with_client_spec (client_for clients l) (fun c => delete_message backoff c (dl_message_id l)) s)
    as (r & conn & s1 & Hrun1 & Hreq & Hd & Hloc). rewrite (sbind_ok _ _ _ _ _ Hrun1).
  pose proof (delete_spec backoff (nth_client clients (client_for clients l)) (dl_message_id l)
    {| remote := discord s; limits := default RateLimit.new (known_limits s !! client_for clients l); time := now s |}) as Hspec.
  rewrite Hreq in Hspec. destruct Hspec as [Hg Hgone]. simpl in Hg, Hgone. rewrite <-Hd in Hg, Hgone.
  destruct (after_delete s s1 id l Hwell Hl Hg ltac:(by rewrite Hloc)) as [Hw1 Hh1].
  pose proof (remove_outcome id l s s1 Hw1 Hl Hh1 Hcfg) as Hremove.
  assert (Hstop : forall e, match e with Prelude.Fail (Store.NotFound _ | Store.Retained _) => False | _ => True end ->
    delete_outcome id s (Err e) s1).
  { intros e He. split; [done|]. split; [done|]. split; [intros l' Hl' Hn; simplify_eq; tauto|].
    split; [rewrite Hloc; intros l' files Hl' ?; congruence|]. by destruct e as [[]|]. }
  destruct r as [[]|[e|]].
  - erewrite sbind_ok by reflexivity. apply Hremove. intros files Hp. by apply (Hgone files).
  - destruct (gone e) eqn:He; [erewrite sbind_ok by reflexivity; apply Hremove; intros files Hp; by apply (Hgone files)|].
    erewrite sbind_err by reflexivity. apply Hstop. simpl. by rewrite He.
  - erewrite sbind_err by reflexivity. by apply Hstop.
Qed.

(** C5 Whatever fails on the way, the store keeps its objects. The objects it holds are those
    whose locator leads to a message that is on Discord. Requests may be lost, carried out with
    their answer lost, answered with errors or rate limited, uploads may happen twice, links may
    expire, and calls of the locator store may fail, before or after they were carried out.
    A [put] that is reported as done adds the object it was given, with its size; one that finds
    the id recorded is refused and does nothing; one that fails adds that object or nothing. What
    [get] returns is what was stored, what [get_range] returns is the range of it, and neither
    changes what is held. A [delete] touches no other object; reported as done, it removed the
    locator and the object; failing, it may have removed the object; the locator goes only when the
    message, if it is the webhook's own, is gone; and for a locator whose webhook is not
    configured any more nothing changes and nothing is reported as done. *)
Theorem discord_store_keeps s :
  well s ->
  (forall created id data group, len data < 2 ^ 63 ->
     let '(r, s') := put_for backoff clients created id data group s in
     well s' /\
     match r with
     | Ok stored => table (locators s) !! id = None /\ held s' = <[id := data]> (held s) /\
         stored = {| Store.so_id := id; Store.so_size := len data; Store.so_created_at := created |}
     | Err (Prelude.Fail (Store.AlreadyExists k)) => k = id /\ is_Some (table (locators s) !! id) /\ s' = s
     | Err _ => held s' = held s \/ table (locators s) !! id = None /\ held s' = <[id := data]> (held s)
     end) /\
  (forall id, let '(r, s') := get backoff clients from_timestamp id s in
     well s' /\ held s' = held s /\ forall b, r = Ok b -> recorded s !! id = Some b) /\
  (forall id offset l, 0 <= offset -> 0 < l -> offset + l < 2 ^ 64 ->
     let '(r, s') := get_range backoff clients from_timestamp id offset l s in
     well s' /\ held s' = held s /\
     forall bs, r = Ok bs -> exists b, recorded s !! id = Some b /\ bs = slice b offset (offset + l)) /\
  (forall id, let '(r, s') := delete backoff clients id s in delete_outcome id s r s').
Proof.
  intros Hwell. split_and!.
  - intros created id data group Hlen. by apply put_object.
  - intros id. pose proof (download_object id None s (proj1 Hwell) I) as Hd. unfold get.
    destruct (download _ _ _ _ _ _) as [[b|e] s'].
    + destruct Hd as [Hk (b' & Hb & ->)]. split; [by eapply keeps_well|]. split; [apply Hk|]. by intros ? [= <-].
    + split; [by eapply keeps_well|]. by split; [apply Hd|].
  - intros id offset l Hoff Hl Hend. pose proof (download_object id (Some (offset, l)) s (proj1 Hwell) ltac:(done)) as Hd. unfold get_range.
    destruct (download _ _ _ _ _ _) as [[b|e] s'].
    + destruct Hd as [Hk (b' & Hb & ->)]. split; [by eapply keeps_well|]. split; [apply Hk|]. intros ? [= <-]. by exists b'.
    + split; [by eapply keeps_well|]. by split; [apply Hd|].
  - intros id. by apply delete_object.
Qed.

End Store.

(** *** Waiting for a slot *)

Definition limited_now (hash : string) (m : RateLimitManager) (at_ : Z) : Prop :=
  is_limited at_ (global_bucket m) = true \/
  exists b, buckets m !! hash = Some b /\ is_limited at_ b = true.

Lemma is_limited_spec at_ b :
  is_limited at_ b = true <-> default 1 (remaining b) <= 0 /\ exists reset, reset_at b = Some reset /\ at_ < reset.
Proof.
  unfold is_limited, wait_duration. rewrite bool_decide_eq_true. destruct (Z.ltb_spec 0 (default 1 (remaining b))); [split; [by intros [? ?]|lia]|].
  destruct (reset_at b) as [reset|]; simpl; [|split; [by intros [? ?]|by intros (_ & ? & ? & _)]].
  destruct (Z.leb_spec reset at_); [split; [by intros [? ?]|intros (_ & r & [= <-] & ?); lia]|].
  split; [intros _; eauto|intros _; by eexists].
Qed.
Lemma wait_duration_spec at_ b :
  0 <= default 0 (wait_duration at_ b) /\ forall t, at_ <= t ->
    (is_limited t b = true <-> t < at_ + default 0 (wait_duration at_ b)).
Proof.
  assert (Hd : default 0 (wait_duration at_ b) = 0 /\ (forall reset, reset_at b = Some reset -> default 1 (remaining b) <= 0 -> reset <= at_) \/
    default 1 (remaining b) <= 0 /\ exists reset, reset_at b = Some reset /\ at_ < reset /\ default 0 (wait_duration at_ b) = reset - at_).
  { unfold wait_duration. destruct (Z.ltb_spec 0 (default 1 (remaining b))); [left; split; [done|lia]|].
    destruct (reset_at b) as [reset|]; simpl; [|by left]. destruct (Z.leb_spec reset at_); simpl.
    - left. split; [done|]. by intros ? [= <-].
    - right. split; [done|]. by exists reset. }
  destruct Hd as [[-> Hno]|(Hrem & reset & Hreset & Hlt & ->)]; (split; [lia|]); intros t Ht; rewrite is_limited_spec.
  - split; [|lia]. intros (Hrem & reset & Hreset & Hlt). specialize (Hno reset Hreset Hrem). lia.
  - split; [|intros ?; split; [done|]; exists reset; split; [done|lia]]. intros (_ & r & Hr & ?). rewrite Hreset in Hr. injection Hr as <-. lia.
Qed.

(** A request waits exactly as long as its limits ask. [wait_for_slot] returns at the
    first moment at which neither the global bucket nor the bucket of the request is
    spent with its reset still ahead. *)
Theorem wait_for_slot_exact hash m now :
  let at_ := wait_for_slot hash m now in
  now <= at_ /\ ~ limited_now hash m at_ /\ forall t, now <= t < at_ -> limited_now hash m t.
Proof.
  cbv zeta. unfold wait_for_slot, limited_now.
  destruct (wait_duration_spec now (global_bucket m)) as [Hg Hglob]. set (mid := now + default 0 _) in *.
  destruct (buckets m !! hash) as [b|]; simpl.
  - destruct (wait_duration_spec mid b) as [Hb Hbuck]. split; [lia|]. split.
    + intros [Hl|(b' & [= <-] & Hl)]; [apply Hglob in Hl; lia|apply Hbuck in Hl; lia].
    + intros t Ht. destruct (Z.lt_ge_cases t mid); [left; apply Hglob; lia|]. right. exists b. split; [done|]. apply Hbuck; lia.
  - rewrite Z.add_0_r. split; [lia|]. split.
    + intros [Hl|(b' & ? & _)]; [apply Hglob in Hl; lia|done].
    + intros t Ht. left. apply Hglob; lia.
Qed.

(** *** The token *)

Definition inside {A} (pat s : list A) : Prop := exists pre post, s = pre ++ pat ++ post.
Definition occurs (pat s : string) : Prop := inside (String.list_ascii_of_string pat) (String.list_ascii_of_string s).

Section Replace.
Context {A} `{EqDecision A} (pat : list A) (open close : A) (inner : list A).
Abbreviation rep := (open :: inner ++ [close]).
Hypothesis Hopen : open ∉ pat.
Hypothesis Hclose : close ∉ pat.
Hypothesis Hpat : pat <> [].
Hypothesis Hrep : ~ inside pat rep.

(** What starts a replaced text and has no opening mark starts the text. *)
Lemma replace_prefix n q s rest :
  (length s <= n)%nat -> (open ∉ q) -> replace_from n pat rep s = q ++ rest -> exists rest', s = q ++ rest'.
Proof.
  revert q s rest. induction n as [|n IH]; intros q s rest Hn Hq Heq.
  { destruct s; [|simpl in Hn; lia]. simpl in Heq. by exists rest. }
  destruct s as [|c s]; simpl in Heq; [by exists rest|]. destruct q as [|a q]; [by eexists|].
  case_bool_decide as Hm; [injection Heq as -> _; set_solver|]. injection Heq as -> Heq.
  destruct (IH q s rest ltac:(simpl in Hn; lia) ltac:(set_solver) Heq) as [rest' ->]. by exists rest'.
Qed.

Lemma replace_not_prefix n s rest : (length s <= n)%nat -> replace_from n pat rep s <> pat ++ rest.
Proof.
  intros Hn Heq. destruct (replace_prefix n pat s rest Hn Hopen Heq) as [rest' ->].
  destruct pat as [|a pat']; [done|]. destruct n as [|n]; [simpl in Hn; lia|]. simpl in Heq.
  rewrite bool_decide_true in Heq; [injection Heq as -> _; set_solver|]. f_equal. apply take_app_length.
Qed.

Lemma replace_removes n s : (length s <= n)%nat -> ~ inside pat (replace_from n pat rep s).
Proof.
  revert s. induction n as [|n IH]; intros s Hn (pre & post & Heq).
  { destruct s; [|simpl in Hn; lia]. simpl in Heq. symmetry in Heq. apply app_nil in Heq as [_ Heq]. by apply app_nil in Heq as [? _]. }
  destruct pre as [|a pre]; [by apply (replace_not_prefix (S n) s post Hn)|].
  destruct s as [|c s]; [done|]. cbn [replace_from] in Heq. case_bool_decide as Hm.
  2: { injection Heq as _ Heq. apply (IH s ltac:(simpl in Hn; lia)). by exists pre, post. }
  assert (Hlt : (length (drop (length pat) (c :: s)) <= n)%nat).
  { rewrite length_drop. destruct pat; [done|]. simpl in *. lia. }
  set (X := replace_from n pat rep _) in *. specialize (IH _ Hlt). fold X in IH.
  apply app_eq_inv in Heq as [(k & Hrk & Heq)|(k & _ & Heq)]; [|by apply IH; exists k, post].
  apply app_eq_inv in Heq as [(k' & Hpk & Heq)|(k' & Hkk & _)].
  - destruct k as [|x k] using rev_ind; [apply IH; exists [], post; simpl in Hpk; by subst k'|].
    apply Hclose. rewrite Hpk. assert (x = close) as ->; [|set_solver].
    rewrite app_comm_cons, app_assoc in Hrk. by apply app_inj_tail in Hrk as [_ ->].
  - apply Hrep. exists (a :: pre), k'. by rewrite Hrk, Hkk.
Qed.
End Replace.

Lemma string_length s : String.length s = length (String.list_ascii_of_string s).
Proof. induction s as [|a s IH]; simpl; [done|]. by rewrite IH. Qed.

(** A token that does not look like the mark it is replaced with. *)
Definition plain_token (token : string) : Prop :=
  token <> ""%string /\ ("<"%char ∉ String.list_ascii_of_string token) /\
  (">"%char ∉ String.list_ascii_of_string token) /\ ~ occurs token "<webhook-token>".

Lemma scrub_removes c text : plain_token (webhook_token c) -> ~ occurs (webhook_token c) (scrub c text).
Proof.
  intros (Hne & Ho & Hc & Hr). unfold scrub. rewrite bool_decide_false by done. unfold occurs, str_replace.
  rewrite String.list_ascii_of_string_of_list_ascii, string_length.
  change (String.list_ascii_of_string "<webhook-token>") with ("<"%char :: String.list_ascii_of_string "webhook-token" ++ [">"%char]).
  apply replace_removes; try done. by destruct (webhook_token c).
Qed.

Section Token.
Context {D : Type} {DC : Discord D} (backoff : Z -> Z).

(** A transport error is reported scrubbed. *)
Definition scrubbed {A} (c : DiscordClientConfig) (m : DiscordClient.M (D := D) A) : Prop :=
  forall s text, (m s).1 = Err (Prelude.Fail (Http text)) -> exists e, text = scrub c e.
Lemma scrubbed_bind {A B} c (m : DiscordClient.M A) (f : A -> DiscordClient.M B) :
  scrubbed c m -> (forall a, scrubbed c (f a)) -> scrubbed c (m ≫= f).
Proof.
  intros Hm Hf s text. unfold mbind, M_bind. specialize (Hm s text). destruct (m s) as [[a|e] s']; [apply Hf|].
  intros [= ->]. by apply Hm.
Qed.
Lemma scrubbed_rate_limited c h hash : scrubbed c (rate_limited (D := D) h hash).
Proof. intros s text. unfold rate_limited. by destruct (_ <? 0). Qed.
Lemma scrubbed_send c req : scrubbed c (send (D := D) req).
Proof. intros s text. unfold send. by destruct (respond _ _ _). Qed.

Lemma request_loop_scrubbed c hash req gone left attempt : scrubbed c (request_loop backoff c hash req gone left attempt).
Proof.
  revert attempt. induction left as [|left IH]; intros attempt; [done|]. cbn [request_loop].
  assert (Hagain : scrubbed c (sleep (backoff attempt) ≫= fun _ => request_loop backoff c hash req gone left (attempt + 1)))
    by (by apply scrubbed_bind).
  apply scrubbed_bind; [done|]. intros []. apply scrubbed_bind; [apply scrubbed_send|]. intros [resp|e].
  2: { destruct (should_retry _ _); [done|]. intros s text [= <-]. by exists e. }
  apply scrubbed_bind; [done|]. intros []. destruct (status resp =? 429).
  { apply scrubbed_bind; [apply scrubbed_rate_limited|]. intros []. by destruct (should_retry _ _). }
  destruct (_ && _); [done|]. destruct (negb _); [|done]. destruct (should_retry _ _); [|done]. by destruct (_ <=? _).
Qed.

Lemma request_scrubbed c hash req gone : scrubbed c (request backoff c hash req gone).
Proof. apply request_loop_scrubbed. Qed.
Lemma readable_scrubbed {A} c (body : result string A) : scrubbed c (readable (D := D) c body).
Proof. intros s text. destruct body as [a|e]; [done|]. intros [= <-]. by exists e. Qed.
Lemma upload_scrubbed c filename data : scrubbed c (upload_attachment backoff c filename data).
Proof. apply scrubbed_bind; [apply request_scrubbed|]. intros resp. apply readable_scrubbed. Qed.
Lemma fetch_scrubbed c message : scrubbed c (fetch_message backoff c message).
Proof. apply scrubbed_bind; [apply request_scrubbed|]. intros resp. apply readable_scrubbed. Qed.
Lemma download_scrubbed c url range : scrubbed c (download_attachment_range backoff c url range).
Proof.
  apply scrubbed_bind; [apply request_scrubbed|]. intros resp. apply scrubbed_bind; [apply readable_scrubbed|]. intros bs.
  destruct range as [[offset l]|]; [|done]. by destruct (_ =? _).
Qed.
Lemma delete_scrubbed c message : scrubbed c (delete_message backoff c message).
Proof. apply scrubbed_bind; [apply request_scrubbed|]. done. Qed.

(** What the client reports of a request that got no answer, or an answer it could not
    read, does not have its token in it. *)
Definition hides {A} (c : DiscordClientConfig) (m : DiscordClient.M (D := D) A) : Prop :=
  forall s text, (m s).1 = Err (Prelude.Fail (Http text)) -> ~ occurs (webhook_token c) text.

(** C27 Errors do not give the credential away. The token is in the URL of every request,
    and so may be in the text of an error of the HTTP library; whatever that text is, the
    error that an upload, a fetch, a download or a deletion returns for it does not have
    the token in it. *)
Theorem errors_hide_the_token c :
  plain_token (webhook_token c) ->
  (forall filename data, hides c (upload_attachment backoff c filename data)) /\
  (forall message, hides c (fetch_message backoff c message)) /\
  (forall url range, hides c (download_attachment_range backoff c url range)) /\
  (forall message, hides c (delete_message backoff c message)).
Proof.
  intros Htok. assert (Hhide : forall A (m : DiscordClient.M (D := D) A), scrubbed c m -> hides c m).
  { intros A m Hm s text Herr. destruct (Hm s text Herr) as [e ->]. by apply scrub_removes. }
  split_and!; intros; apply Hhide; [apply upload_scrubbed|apply fetch_scrubbed|apply download_scrubbed|apply delete_scrubbed].
Qed.

End Token.

(** *** Locators *)

#[export] Program Instance memory_locators_laws : LocatorLaws MemoryLocatorStore := {| table m := m |}.
Next Obligation. by left. Qed.
Next Obligation. done. Qed.
Next Obligation. by left. Qed.
Next Obligation. by left. Qed.

Lemma split_once_string c p s :
  (c ∉ String.list_ascii_of_string p) -> split_once c (p +:+ String c s) = Some (p, s).
Proof.
  induction p as [|a p IH]; simpl; intros Hc; [by rewrite bool_decide_true|].
  rewrite bool_decide_false by set_solver. by rewrite IH by set_solver.
Qed.

(** A locator survives being recorded: the webhook in the one column there is for it. *)
Lemma record_roundtrip l : 0 <= dl_size l < 2 ^ 63 -> of_record (dl_object_id l) (to_record l) = l.
Proof.
  intros Hsz. unfold of_record, to_record. simpl. rewrite i64_id, Z.max_l by lia. destruct l as [id m a w u sz]. simpl.
  unfold from_webhook, new_locator. simpl. f_equal. case_bool_decide as Hw; [by subst|].
  change (BACKEND +:+ ":" +:+ w)%string with (BACKEND +:+ String ":"%char w)%string.
  rewrite split_once_string; [done|]. vm_compute. set_solver.
Qed.

#[export] Existing Instance repository_locators.
#[export] Program Instance repository_locators_laws : LocatorLaws MemoryRepo.Repo := {|
  table r := map_imap (fun id rec => Some (of_record id rec)) (MemoryRepo.locators r) |}.
Next Obligation.
  intros l r Hsz. simpl. left. apply map_eq. intros k. rewrite map_lookup_imap, !lookup_insert. case_decide as Hk.
  - subst k. simpl. f_equal. by apply record_roundtrip.
  - by rewrite map_lookup_imap.
Qed.
Next Obligation.
  intros id r. simpl. unfold repo_get, MemoryRepo.get_object_locator. rewrite map_lookup_imap.
  by destruct (MemoryRepo.locators r !! id).
Qed.
Next Obligation.
  intros id url r. simpl. left. apply map_eq. intros k. rewrite map_lookup_imap, !lookup_alter. case_decide as Hk; rewrite map_lookup_imap; [|done].
  subst k. by destruct (MemoryRepo.locators r !! id).
Qed.
Next Obligation.
  intros id r. simpl. left. apply map_eq. intros k. rewrite map_lookup_imap, !lookup_delete. case_decide; [done|]. by rewrite map_lookup_imap.
Qed.

End DiscordFacts.
