(* ===== verification/DiscordUp.v ===== *)
(** * Files on Discord, while Discord is up

    [DiscordUp] and [LocatorUp] describe a Discord that is up for as long as is looked at:
    every request within the limits is answered and succeeds, and no locator call fails.
    They are not what Discord promises (what holds whatever it answers is
    [DiscordProps.discord_store_keeps]), but the condition under which the Discord store is an
    object store as the server expects one ([Store.ObjectStoreLaws]), so that the theorems
    about the server's files hold on it. *)
From Stdlib.Strings Require Import Ascii.
From Stdlib.Strings Require String.
From S2P Require Import Prelude Crypto ObjectStore Repository Locks Server Data DataSpec DataWrite DataRead Example DataProps Discord DiscordProps.

Module DiscordUp.
Import RateLimit DiscordClient DiscordStore DiscordSpec DiscordFacts.

(** A Discord that is up. [live] is a link that works: the links of a message that is fetched
    do. What is not larger than the limit can be uploaded, a message that is there can be
    fetched and deleted by its webhook. No answer asks to wait a negative time. *)
Class DiscordUp (D : Type) `{DiscordLaws D} `{Store.StoreLimit} : Type := {
  live : D -> string -> Prop;
  limit_law : Store.max_object < 2 ^ 63;
  upload_up t webhook filename data d : len data <= Store.max_object -> exists resp d' msg,
    respond t (Upload webhook filename data) d = (Ok resp, d') /\ is_success (status resp) = true /\
    json resp = Ok msg /\ there d' (m_id msg) = true;
  fetch_up t webhook message files d : there d message = true -> posted d message = Some (webhook, files) ->
    exists resp d' msg, respond t (FetchMessage webhook message) d = (Ok resp, d') /\
      is_success (status resp) = true /\ json resp = Ok msg /\
      (forall a, a ∈ files.*1 -> exists att, att ∈ m_attachments msg /\ a_id att = a) /\
      (forall att, att ∈ m_attachments msg -> live d' (a_url att));
  download_up t url range m a b d : live d url -> target url = Some (m, a) -> content d m a = Some b ->
    (forall x y, range = Some (x, y) -> 0 <= x <= y /\ y < len b) ->
    exists resp d' bs, respond t (Download url range) d = (Ok resp, d') /\ is_success (status resp) = true /\
      payload resp = Ok bs;
  delete_up t webhook message files d : there d message = true -> posted d message = Some (webhook, files) ->
    exists resp d', respond t (DeleteMessage webhook message) d = (Ok resp, d') /\ is_success (status resp) = true;
  retry_after_law t req d resp d' after : respond t req d = (Ok resp, d') -> h_retry_after (headers resp) = Some after ->
    0 <= after;
}.

(** The locator store does not fail. *)
Class LocatorUp (L : Type) `{LocatorLaws L} : Type := {
  lput_up l s : (lput l s).1 = Ok tt;
  lget_up id s : lget id s = Ok (table s !! id);
  lset_url_up id url s : (lset_url id url s).1 = Ok tt;
  lremove_up id s : (lremove id s).1 = Ok tt;
}.

Section Up.
Context {D : Type} {DC : Discord D} {DL : DiscordLaws D} {SL : Store.StoreLimit} {DU : DiscordUp D}.
Context {L : Type} {LS : LocatorStore L} {LL : LocatorLaws L} {LU : LocatorUp L}.
Context (backoff : Z -> Z) (clients : list DiscordClientConfig) (from_timestamp : Z -> option Z).
Hypothesis clients_some : clients <> [].
Hypothesis attempts_ok : forall c, c ∈ clients -> 0 <= max_attempts (retry c).
Implicit Types (s : DiscordStore.t D L).

(** *** Requests that are answered *)

Lemma request_up c hash req gone (s : Conn D) (Q : Response -> D -> Prop) :
  0 <= max_attempts (retry c) ->
  (forall t, exists resp d', respond t req (remote s) = (Ok resp, d') /\ is_success (status resp) = true /\ Q resp d') ->
  exists resp (s' : Conn D) t, request backoff c hash req gone s = (Ok resp, s') /\
    respond t req (remote s) = (Ok resp, remote s') /\ is_success (status resp) = true /\ Q resp (remote s').
Proof.
  intros Hmax Hup. unfold request. replace (Z.to_nat (max_attempts (retry c) + 1)) with (S (Z.to_nat (max_attempts (retry c)))) by lia.
  cbn [request_loop]. set (t := wait_for_slot hash (limits s) (time s)).
  destruct (Hup t) as (resp & d' & Hr & Hs & HQ).
  unfold mbind, M_bind, wait_slot, send. cbn [remote time limits]. fold t. rewrite Hr.
  unfold update_ratelimit, on_limits. cbn [remote time limits]. pose proof Hs as Hrange. unfold is_success in Hrange.
  destruct (Z.eqb_spec (status resp) 429); [lia|]. destruct (Z.eqb_spec (status resp) 404); [lia|]. cbn [andb].
  rewrite Hs. cbn [negb]. eexists resp, _, t. split; [reflexivity|]. by split_and!.
Qed.

(** What a request keeps, its retries included. *)
Definition stays {A} (P : D -> Prop) (m : DiscordClient.M (D := D) A) : Prop := forall s : Conn D, P (remote s) -> P (remote (m s).2).
Definition calm {A} (m : DiscordClient.M (D := D) A) : Prop := forall s : Conn D, (m s).1 <> Err Panic.

Lemma stays_bind {A B} P (m : DiscordClient.M A) (f : A -> DiscordClient.M B) :
  stays P m -> (forall a, stays P (f a)) -> stays P (m ≫= f).
Proof.
  intros Hm Hf s Hs. specialize (Hm s Hs). unfold mbind, M_bind. destruct (m s) as [[a|e] s']; [by apply Hf|done].
Qed.
Lemma stays_local {A} P (m : DiscordClient.M A) : local m -> stays P m.
Proof. intros Hm s Hs. by rewrite Hm. Qed.
Lemma stays_request c hash req gone P :
  (forall t d, P d -> P (respond t req d).2) -> stays P (request backoff c hash req gone).
Proof.
  intros HP. unfold request. generalize (Z.to_nat (max_attempts (retry c) + 1)) as left, 0 as attempt.
  induction left as [|left IH]; intros attempt; [by apply stays_local|]. cbn [request_loop].
  assert (Hagain : stays P (sleep (backoff attempt) ≫= fun _ => request_loop backoff c hash req gone left (attempt + 1)))
    by (apply stays_bind; [by apply stays_local|done]).
  apply stays_bind; [by apply stays_local|]. intros []. apply stays_bind.
  { intros s Hs. unfold send. specialize (HP (time s) _ Hs). by destruct (respond _ _ _). }
  intros [resp|e]; [|by destruct (should_retry _ _); [|apply stays_local]].
  apply stays_bind; [by apply stays_local|]. intros []. destruct (status resp =? 429).
  { apply stays_bind; [apply stays_local, local_rate_limited|]. intros []. by destruct (should_retry _ _); [|apply stays_local]. }
  destruct (_ && _); [by apply stays_local|]. destruct (negb _); [|by apply stays_local].
  destruct (should_retry _ _); [|by apply stays_local]. by destruct (_ <=? _); [|apply stays_local].
Qed.

Lemma calm_request c hash req gone : calm (request backoff c hash req gone).
Proof.
  unfold request. generalize (Z.to_nat (max_attempts (retry c) + 1)) as left, 0 as attempt.
  induction left as [|left IH]; intros attempt s; [done|]. cbn [request_loop]. unfold mbind, M_bind, wait_slot, send.
  cbn [remote time limits]. destruct (respond _ _ _) as [[resp|e] d'] eqn:Hr; [|by destruct (should_retry _ _); [apply IH|]].
  unfold update_ratelimit, on_limits. cbn [remote time limits]. destruct (status resp =? 429).
  { unfold rate_limited. assert (Hpos : (default (10 ^ 9) (h_retry_after (headers resp)) <? 0) = false).
    { apply Z.ltb_ge. destruct (h_retry_after (headers resp)) eqn:Ha; simpl; [by eapply retry_after_law|lia]. }
    rewrite Hpos. unfold on_limits. destruct (should_retry _ _); [apply IH|done]. }
  destruct (_ && _); [done|]. destruct (negb _); [|done]. destruct (should_retry _ _); [|done].
  destruct (500 <=? status resp); [apply IH|done].
Qed.

Lemma there_after t req d resp d' m :
  respond t req d = (Ok resp, d') -> (forall webhook, req <> DeleteMessage webhook m) -> there d m = true -> there d' m = true.
Proof. intros Hr Hreq Hm. pose proof (there_law t req d m Hreq Hm) as Hth. by rewrite Hr in Hth. Qed.

Lemma fetch_message_up c message files (s : Conn D) :
  0 <= max_attempts (retry c) -> there (remote s) message = true -> posted (remote s) message = Some (webhook_id c, files) ->
  exists msg (s' : Conn D), fetch_message backoff c message s = (Ok msg, s') /\
    (forall a, a ∈ files.*1 -> exists att, att ∈ m_attachments msg /\ a_id att = a) /\
    (forall att, att ∈ m_attachments msg -> live (remote s') (a_url att)) /\
    (forall m, there (remote s) m = true -> there (remote s') m = true).
Proof.
  intros Hmax Hth Hp.
  destruct (request_up c "webhook_fetch" (FetchMessage (webhook_id c) message) (Some "message not found"%string) s
    (fun resp d' => exists msg, json resp = Ok msg /\
      (forall a, a ∈ files.*1 -> exists att, att ∈ m_attachments msg /\ a_id att = a) /\
      (forall att, att ∈ m_attachments msg -> live d' (a_url att))) Hmax) as (resp & s' & t & Hrun & Hr & _ & msg & Hj & Ha & Hl).
  { intros t. destruct (fetch_up t (webhook_id c) message files (remote s) Hth Hp) as (resp & d' & msg & Hr & Hs & Hj & Ha & Hl). eauto 10. }
  exists msg, s'. unfold fetch_message, mbind, M_bind, readable. rewrite Hrun, Hj. split_and!; try done. intros m. by apply (there_after _ _ _ _ _ _ Hr).
Qed.

Lemma upload_attachment_up c filename data (s : Conn D) :
  0 <= max_attempts (retry c) -> len data <= Store.max_object ->
  exists msg (s' : Conn D) a, upload_attachment backoff c filename data s = (Ok msg, s') /\
    there (remote s') (m_id msg) = true /\ posted (remote s) (m_id msg) = None /\ m_attachments msg = [a] /\
    posted (remote s') (m_id msg) = Some (webhook_id c, [(a_id a, data)]) /\ (forall m, there (remote s) m = true -> there (remote s') m = true).
Proof.
  intros Hmax Hlen.
  destruct (request_up c "webhook_upload" (Upload (webhook_id c) filename data) None s
    (fun resp d' => exists msg, json resp = Ok msg /\ there d' (m_id msg) = true) Hmax) as (resp & s' & t & Hrun & Hr & Hs & msg & Hj & Hth).
  { intros t. destruct (upload_up t (webhook_id c) filename data (remote s) Hlen) as (resp & d' & msg & Hr & Hs & Hj & Hth). eauto 10. }
  destruct (upload_law _ _ _ _ _ _ _ _ Hr Hs Hj) as (Hnew & a & Ha & _ & _ & Hp & _).
  exists msg, s', a. unfold upload_attachment, mbind, M_bind, readable. rewrite Hrun, Hj. split_and!; try done. intros m. by apply (there_after _ _ _ _ _ _ Hr).
Qed.

Lemma delete_message_up c message files (s : Conn D) :
  0 <= max_attempts (retry c) -> there (remote s) message = true -> posted (remote s) message = Some (webhook_id c, files) ->
  exists s' : Conn D, delete_message backoff c message s = (Ok tt, s') /\
    (forall m, m <> message -> there (remote s) m = true -> there (remote s') m = true).
Proof.
  intros Hmax Hth Hp.
  destruct (request_up c "webhook_delete" (DeleteMessage (webhook_id c) message) (Some "message not found"%string) s
    (fun _ _ => True) Hmax) as (resp & s' & t & Hrun & Hr & _).
  { intros t. destruct (delete_up t (webhook_id c) message files (remote s) Hth Hp) as (resp & d' & Hr & Hs). eauto 10. }
  exists s'. unfold delete_message, mbind, M_bind. rewrite Hrun. split; [done|]. intros m Hne.
  apply (there_after _ _ _ _ _ _ Hr). intros webhook [=]. congruence.
Qed.

(** The bytes a range asks for are there. *)
Definition range_inside (range : option (Z * Z)) (b : bytes) : Prop :=
  match range with Some (offset, l) => 0 <= offset /\ 0 < l /\ offset + l <= len b /\ len b < 2 ^ 64 | None => True end.
Lemma range_inside_ok range b : range_inside range b -> range_ok range.
Proof. destruct range as [[offset l]|]; simpl; [lia|done]. Qed.

Lemma download_attachment_up c url range m a b (s : Conn D) :
  0 <= max_attempts (retry c) -> live (remote s) url -> target url = Some (m, a) -> content (remote s) m a = Some b ->
  range_inside range b -> exists bs (s' : Conn D), download_attachment_range backoff c url range s = (Ok bs, s').
Proof.
  intros Hmax Hl Ht Hb Hrange. set (wire := (fun r => (r.1, r.1 +u r.2 -u 1)) <$> range).
  destruct (request_up c "webhook_download" (Download url wire) None s (fun resp _ => exists bs, payload resp = Ok bs) Hmax)
    as (resp & s' & t & Hrun & _ & _ & bs & Hbs).
  { intros t. destruct (download_up t url wire m a b (remote s) Hl Ht Hb) as (resp & d' & bs & Hr & Hs & Hp); [|eauto 10].
    intros x y. unfold wire. destruct range as [[offset l]|]; [|done]. simpl in *. intros [= <- <-]. unwrap. lia. }
  unfold download_attachment_range, mbind, M_bind. fold wire. rewrite Hrun, Hbs. destruct range as [[offset l]|]; [|by eexists _, s'].
  by destruct (status resp =? 206); eexists _, s'.
Qed.

Lemma calm_download c url range : calm (download_attachment_range backoff c url range).
Proof.
  intros s. unfold download_attachment_range, mbind, M_bind.
  pose proof (calm_request c "webhook_download" (Download url ((fun r => (r.1, r.1 +u r.2 -u 1)) <$> range)) None s) as Hc.
  destruct (request _ _ _ _ _ _) as [[resp|e] s']; simpl in *; [|congruence].
  destruct (payload resp); [|done]. destruct range as [[]|]; [|done]. by destruct (_ =? _).
Qed.
Lemma stays_download c url range m : stays (fun d => there d m = true) (download_attachment_range backoff c url range).
Proof.
  apply stays_bind; [apply stays_request; intros t d Hd; by apply there_law|]. intros resp.
  destruct (payload resp); [|by intros s Hs]. destruct range as [[]|]; [|by intros s Hs]. by destruct (_ =? _); intros s Hs.
Qed.

(** *** The store in order *)

Abbreviation configured := (DiscordFacts.configured clients).
Abbreviation owner := (DiscordFacts.owner clients).
Record in_order s : Prop := {
  io_ok : store_ok s;
  io_there : forall id l, table (locators s) !! id = Some l -> there (discord s) (dl_message_id l) = true;
  io_owner : forall id l, table (locators s) !! id = Some l -> configured l /\
    exists files, posted (discord s) (dl_message_id l) = Some (owner l, files);
  io_apart : forall id id' l l', table (locators s) !! id = Some l -> table (locators s) !! id' = Some l' ->
    dl_message_id l = dl_message_id l' -> id = id';
}.

(** Only the links of the locators are new. *)
Definition relinked (s s' : DiscordStore.t D L) : Prop := forall id l', table (locators s') !! id = Some l' ->
  exists l, table (locators s) !! id = Some l /\ dl_message_id l' = dl_message_id l /\ dl_webhook_id l' = dl_webhook_id l.

Lemma in_order_moves s s' :
  in_order s -> keeps s s' -> relinked s s' -> (forall m, there (discord s) m = true -> there (discord s') m = true) -> in_order s'.
Proof.
  intros [Hok Hth Hown Hap] [Hok' _ _ Hg _ _] Hre Hth'. split; [done| | |].
  - intros id l' Hl'. destruct (Hre id l' Hl') as (l & Hl & -> & _). by apply Hth', (Hth id).
  - intros id l' Hl'. destruct (Hre id l' Hl') as (l & Hl & Hm & Hw). destruct (Hown id l Hl) as [Hc (files & Hp)].
    unfold DiscordFacts.configured, DiscordFacts.owner, client_for in *. rewrite Hm, Hw. split; [done|]. exists files. by apply (g_posted _ _ _ Hg).
  - intros id id' l l' Hl Hl' Heq. destruct (Hre id l Hl) as (l0 & Hl0 & H1 & _). destruct (Hre id' l' Hl') as (l1 & Hl1 & H2 & _).
    eapply Hap; [exact Hl0|exact Hl1|congruence].
Qed.

Lemma client_ok i c : clients !! i = Some c -> 0 <= max_attempts (retry c).
Proof. intros Hc. apply attempts_ok. by eapply list_elem_of_lookup_2. Qed.
Lemma client_for_ok l : 0 <= max_attempts (retry (nth_client clients (client_for clients l))).
Proof.
  unfold nth_client. destruct (clients !! client_for clients l) as [c|] eqn:Hc; simpl; [by eapply client_ok|lia].
Qed.
Lemma client_for_group_ok g : 0 <= max_attempts (retry (nth_client clients (client_for_group clients g))).
Proof.
  unfold nth_client. destruct (clients !! client_for_group clients g) as [c|] eqn:Hc; simpl; [by eapply client_ok|lia].
Qed.

(** The state of a client as the store starts a request. *)
Abbreviation conn s i := {| remote := discord s; limits := default RateLimit.new (known_limits s !! i); time := now s |}.

(** A locator of the store, before its link was refreshed. *)
Definition same_locator (l l' : DiscordLocator) : Prop := same_place l l' /\ dl_webhook_id l' = dl_webhook_id l.
Lemma same_owner l l' : same_locator l l' -> client_for clients l' = client_for clients l.
Proof. intros [_ Hw]. unfold client_for. by rewrite Hw. Qed.

Lemma with_client_run {A} i (m : DiscordClientConfig -> DiscordClient.M A) s r (c : Conn D) :
  m (nth_client clients i) (conn s i) = (r, c) ->
  exists s', with_client clients i m s = (Ok r, s') /\ discord s' = remote c /\ locators s' = locators s.
Proof. intros Hm. unfold with_client. rewrite Hm. by eexists. Qed.

Lemma relinked_same s s' : table (locators s') = table (locators s) -> relinked s s'.
Proof. intros E id l'. rewrite E. intros Hl. by exists l'. Qed.

Lemma refresh_up l l0 id s :
  in_order s -> table (locators s) !! id = Some l0 -> same_locator l l0 ->
  exists url s', refresh_url backoff clients l s = (Ok url, s') /\ live (discord s') url /\ in_order s' /\ relinked s s'.
Proof.
  intros Hio Hl [Hsame Hw]. pose proof Hio as [Hok Hth Hown _]. pose proof Hsame as (Ho & Hm & Ha).
  destruct (Hown id l0 Hl) as [_ (files & Hp)]. pose proof (Hth id l0 Hl) as Hthere. destruct (Hok id l0 Hl) as (Hid & _ & [b Hb]).
  unfold DiscordFacts.owner in Hp. rewrite (same_owner l l0) in Hp by done. rewrite Hm in Hp, Hthere.
  destruct (fetch_message_up (nth_client clients (client_for clients l)) (dl_message_id l) files (conn s (client_for clients l))
    (client_for_ok l) Hthere Hp) as (msg & c & Hrun & Hatt & Hlive & Hthc).
  destruct (with_client_run (client_for clients l) (fun c => fetch_message backoff c (dl_message_id l)) s (Ok msg) c Hrun)
    as (s1 & Hs1 & Hd1 & Hl1).
  assert (Hfound : exists i att, list_find (fun a => a_id a = dl_attachment_id l) (m_attachments msg) = Some (i, att) /\ att ∈ m_attachments msg).
  { unfold content in Hb. rewrite Hm, Hp in Hb. simpl in Hb. destruct (list_find (fun f => f.1 = dl_attachment_id l0) files) as [[i f]|] eqn:Hf; [|done].
    apply list_find_Some in Hf as (Hf & Hfa & _). apply list_elem_of_lookup_2 in Hf.
    destruct (Hatt (dl_attachment_id l)) as (att & Hin & Hatid); [apply list_elem_of_fmap; exists f; split; [congruence|done]|].
    destruct (list_find_elem_of (fun a => a_id a = dl_attachment_id l) (m_attachments msg) att Hin Hatid) as [[j att'] Hfind].
    exists j, att'. split; [done|]. apply list_find_Some in Hfind as (Hj & _). by eapply list_elem_of_lookup_2. }
  destruct Hfound as (i & att & Hfind & Hin). pose proof (refresh_spec backoff clients l l0 id s Hok Hl Hsame) as Hspec.
  pose proof (lset_url_up (dl_object_id l) (a_url att) (locators s1)) as Hset.
  pose proof (lset_url_law (dl_object_id l) (a_url att) (locators s1)) as Htab.
  destruct (lset_url (dl_object_id l) (a_url att) (locators s1)) as [r ls] eqn:Hcall. simpl in Hset. subst r.
  set (s2 := {| discord := discord s1; now := now s1; known_limits := known_limits s1; locators := ls |}).
  assert (Hrefresh : refresh_url backoff clients l s = (Ok (a_url att), s2)).
  { unfold refresh_url. rewrite (sbind_ok _ _ _ _ _ Hs1). erewrite sbind_ok by reflexivity. rewrite Hfind.
    unfold mbind, SM_bind, locator_call. by rewrite Hcall. }
  rewrite Hrefresh in Hspec. destruct Hspec as [Hk _]. destruct Htab as [Htab|[[] _]].
  assert (Hre : relinked s s2).
  { intros k l'. unfold s2. simpl. rewrite Htab, Hl1, lookup_alter. case_decide as Hk'; [|intros ?; by exists l'].
    subst k. destruct (table (locators s) !! dl_object_id l) as [lk|]; [|done]. intros [= <-]. by exists lk. }
  exists (a_url att), s2. split; [done|]. split; [unfold s2; simpl; rewrite Hd1; by apply Hlive|]. split; [|done].
  apply (in_order_moves s); try done. unfold s2. simpl. by rewrite Hd1.
Qed.

(** A download that may fail leaves the store in order, and does not panic. *)
Lemma try_download url range l b s :
  in_order s -> content (discord s) (dl_message_id l) (dl_attachment_id l) = Some b -> range_ok range ->
  target url = Some (dl_message_id l, dl_attachment_id l) ->
  exists r s', with_client clients (client_for clients l) (fun c => download_attachment_range backoff c url range) s = (Ok r, s') /\
    r <> Err Panic /\ in_order s' /\ keeps s s' /\ locators s' = locators s.
Proof.
  intros Hio Hb Hrange Ht. destruct (linked_download backoff clients url range l b s (io_ok _ Hio) Hb Hrange Ht) as (r & s' & Hrun & Hk & Hloc & _).
  exists r, s'. split; [done|]. pose proof Hrun as Hrun'. unfold with_client in Hrun'.
  destruct (download_attachment_range _ _ _ _ _) as [r0 c] eqn:Hdl in Hrun'. injection Hrun' as -> <-.
  split; [|split; [|by split]].
  - pose proof (calm_download (nth_client clients (client_for clients l)) url range (conn s (client_for clients l))) as Hcalm.
    by rewrite Hdl in Hcalm.
  - apply (in_order_moves s); try done; [by apply relinked_same|]. simpl. intros m Hm.
    pose proof (stays_download (nth_client clients (client_for clients l)) url range m (conn s (client_for clients l)) Hm) as Hst.
    by rewrite Hdl in Hst.
Qed.

(** All that was stored is there. *)
Lemma all_held s : in_order s -> held s = recorded s.
Proof.
  intros Hio. apply map_eq. intros id. unfold held, recorded. rewrite !lookup_omap.
  destruct (table (locators s) !! id) as [l|] eqn:Hl; simpl; [|done]. by rewrite (io_there _ Hio id l Hl).
Qed.
Lemma in_order_well s : in_order s -> well s.
Proof. intros Hio. split; [apply Hio|]. intros id id' l l'. by apply io_apart. Qed.
Lemma unrecorded s id : in_order s -> held s !! id = None -> table (locators s) !! id = None.
Proof. intros Hio. rewrite all_held by done. apply not_recorded, Hio. Qed.
Lemma locator_held id b s :
  held s !! id = Some b -> exists l, table (locators s) !! id = Some l /\
    content (discord s) (dl_message_id l) (dl_attachment_id l) = Some b /\ locator_of id s = (Ok l, s).
Proof.
  intros Hb%held_recorded. unfold recorded in Hb. rewrite lookup_omap in Hb. destruct (table (locators s) !! id) as [l|] eqn:Hl; [|done].
  exists l. split; [done|]. split; [done|]. unfold locator_of, mbind, SM_bind, locator_query. by rewrite lget_up, Hl.
Qed.
Lemma locator_not_held id s :
  in_order s -> held s !! id = None -> locator_of id s = (Err (Prelude.Fail (Store.NotFound id)), s).
Proof.
  intros Hio Hh. apply unrecorded in Hh; [|done]. unfold locator_of, mbind, SM_bind, locator_query. by rewrite lget_up, Hh.
Qed.

Lemma fresh_up l id s :
  in_order s -> table (locators s) !! id = Some l ->
  exists url s', fresh_url backoff clients from_timestamp l s = (Ok url, s') /\ in_order s' /\ relinked s s' /\
    keeps s s' /\ target url = Some (dl_message_id l, dl_attachment_id l).
Proof.
  intros Hio Hl. pose proof (fresh_spec backoff clients from_timestamp l id s (io_ok _ Hio) Hl) as Hspec.
  assert (Hrun : exists url s', fresh_url backoff clients from_timestamp l s = (Ok url, s') /\ in_order s' /\ relinked s s').
  { unfold fresh_url. assert (relinked s s) by (by apply relinked_same).
    destruct (url_expiry _ _); [|by exists (dl_url l), s]. destruct (_ <=? _); [|by exists (dl_url l), s].
    destruct (refresh_up l l id s Hio Hl ltac:(done)) as (url & s' & ? & _ & ? & ?). by exists url, s'. }
  destruct Hrun as (url & s' & Hrun & Hio' & Hre). rewrite Hrun in Hspec. destruct Hspec. by exists url, s'.
Qed.

Lemma download_object_up id range b s :
  in_order s -> held s !! id = Some b -> range_inside range b ->
  exists s', download backoff clients from_timestamp id range s = (Ok (in_range range b), s') /\ in_order s' /\ held s' = held s.
Proof.
  intros Hio Hh Hrange. pose proof (range_inside_ok _ _ Hrange) as Hrok.
  assert (Hrun : exists bs s', download backoff clients from_timestamp id range s = (Ok bs, s') /\ in_order s').
  { destruct (locator_held id b s Hh) as (l & Hl & Hb & Hloc). unfold download. rewrite (sbind_ok _ _ _ _ _ Hloc).
    destruct (fresh_up l id s Hio Hl) as (url & s1 & Hrun1 & Hio1 & Hre1 & Hk1 & Ht1). rewrite (sbind_ok _ _ _ _ _ Hrun1).
    destruct (try_download url range l b s1 Hio1 (content_grows _ _ _ _ _ _ (k_grows _ _ Hk1) Hb) Hrok Ht1)
      as (r & s2 & Hrun2 & Hcalm & Hio2 & Hk2 & Hloc2). rewrite (sbind_ok _ _ _ _ _ Hrun2).
    destruct r as [bs|[e|]]; [by exists bs, s2| |done].
    pose proof (keeps_trans _ _ _ Hk1 Hk2) as Hk12. destruct (k_places _ _ Hk12 id l Hl) as (l2 & Hl2 & Hsame).
    assert (Hsl : same_locator l l2).
    { split; [done|]. destruct (Hre1 id l2) as (l' & Hl' & _ & ->); [by rewrite <-Hloc2|]. congruence. }
    destruct (refresh_up l l2 id s2 Hio2 Hl2 Hsl) as (fresh & s3 & Hrun3 & Hlive & Hio3 & _).
    pose proof (refresh_spec backoff clients l l2 id s2 (io_ok _ Hio2) Hl2 Hsame) as Hspec. rewrite Hrun3 in Hspec.
    destruct Hspec as [Hk3 Ht3]. rewrite (sbind_ok _ _ _ _ _ Hrun3).
    pose proof (content_grows _ _ _ _ _ _ (k_grows _ _ (keeps_trans _ _ _ Hk12 Hk3)) Hb) as Hb3.
    destruct (try_download fresh range l b s3 Hio3 Hb3 Hrok Ht3) as (r & s4 & Hrun4 & _ & Hio4 & _).
    destruct (download_attachment_up (nth_client clients (client_for clients l)) fresh range _ _ b (conn s3 (client_for clients l))
      (client_for_ok l) Hlive Ht3 Hb3 Hrange) as (bs & c & Hdl).
    assert (r = Ok bs) as -> by (unfold with_client in Hrun4; rewrite Hdl in Hrun4; congruence).
    rewrite (sbind_ok _ _ _ _ _ Hrun4). by exists bs, s4. }
  destruct Hrun as (bs & s' & Hrun & Hio'). exists s'. pose proof (download_object backoff clients from_timestamp id range s (io_ok _ Hio) Hrok) as Hd.
  rewrite Hrun in Hd. destruct Hd as [Hk (b' & Hb' & ->)]. rewrite <-all_held, Hh in Hb' by done. injection Hb' as <-.
  rewrite Hrun. by split_and!; [| |apply Hk].
Qed.

(** *** Storing and deleting *)

Lemma client_for_group_in g : nth_client clients (client_for_group clients g) ∈ clients.
Proof.
  unfold nth_client, client_for_group. set (x := from_le_bytes _).
  assert (Hlen : (0 < length clients)%nat) by (destruct clients; [done|simpl; lia]).
  pose proof (Z.mod_pos_bound x (Z.of_nat (length clients)) ltac:(lia)).
  destruct (lookup_lt_is_Some_2 clients (Z.to_nat (x mod Z.of_nat (length clients))) ltac:(lia)) as [c Hc].
  rewrite Hc. simpl. by eapply list_elem_of_lookup_2.
Qed.
Lemma owner_of c l : c ∈ clients -> dl_webhook_id l = webhook_id c -> owner l = webhook_id c.
Proof.
  intros Hc Hw. unfold DiscordFacts.owner, client_for.
  destruct (list_find_elem_of (fun c => webhook_id c = dl_webhook_id l) clients c Hc (eq_sym Hw)) as [[i c'] Hf]. rewrite Hf.
  apply list_find_Some in Hf as (Hi & Hw' & _). unfold nth_client. rewrite Hi. simpl. congruence.
Qed.

Lemma put_up created id data group s :
  in_order s -> held s !! id = None -> len data <= Store.max_object ->
  exists s', put_for backoff clients created id data group s =
      (Ok {| Store.so_id := id; Store.so_size := len data; Store.so_created_at := created |}, s') /\
    in_order s' /\ held s' = <[id := data]> (held s).
Proof.
  intros Hio Hh Hlen. pose proof Hio as [Hok Hth Hown Hap]. pose proof limit_law as Hmax.
  pose proof (put_object backoff clients created id data group s (in_order_well _ Hio) ltac:(lia)) as Hput.
  pose proof (unrecorded s id Hio Hh) as Htab. set (c := nth_client clients (client_for_group clients group)).
  destruct (upload_attachment_up c (Data.uuid_to_string id +:+ ".bin") data (conn s (client_for_group clients group))
    (client_for_group_ok group) Hlen) as (msg & cn & a & Hup & Hthere & Hnew & Hatt & Hpost & Hths). simpl in Hnew, Hths.
  pose proof (upload_spec backoff c (Data.uuid_to_string id +:+ ".bin") data (conn s (client_for_group clients group))) as Hspec.
  rewrite Hup in Hspec. destruct Hspec as [Hg _]. simpl in Hg.
  destruct (with_client_run (client_for_group clients group)
    (fun c => upload_attachment backoff c (Data.uuid_to_string id +:+ ".bin") data) s (Ok msg) cn Hup) as (s1 & Hs1 & Hd1 & Hl1).
  set (l := from_webhook (webhook_id c) (new_locator id (m_id msg) (a_id a) (a_url a) (a_size a))).
  pose proof (lput_up l (locators s1)) as Hok1. destruct (lput l (locators s1)) as [r ls] eqn:Hcall. simpl in Hok1. subst r.
  set (s2 := {| discord := discord s1; now := now s1; known_limits := known_limits s1; locators := ls |}).
  assert (Hrun : exists stored, put_for backoff clients created id data group s = (Ok stored, s2)).
  { unfold put_for, mbind at 1, SM_bind at 1, locator_query. rewrite lget_up, Htab. simpl.
    rewrite (sbind_ok _ _ _ _ _ Hs1). erewrite sbind_ok by reflexivity. rewrite Hatt. fold c l.
    unfold mbind, SM_bind, locator_call. rewrite Hcall. by eexists. }
  destruct Hrun as [stored Hrun]. rewrite Hrun in Hput. destruct Hput as ([Hok2 _] & _ & Hheld & ->).
  exists s2. split; [done|]. split; [|done].
  assert (Hsz : 0 <= dl_size l < 2 ^ 63).
  { pose proof (upload_spec backoff c (Data.uuid_to_string id +:+ ".bin") data (conn s (client_for_group clients group))) as Hs.
    rewrite Hup in Hs. destruct Hs as (_ & a' & Ha' & Hsz & _). rewrite Hatt in Ha'. injection Ha' as <-. simpl. rewrite Hsz.
    pose proof (len_nonneg data). lia. }
  pose proof (lput_law l (locators s1) Hsz) as Htab2. rewrite Hcall in Htab2. destruct Htab2 as [Htab2|[[] _]]. rewrite Hl1 in Htab2.
  assert (Hother : forall k l', table (locators s) !! k = Some l' -> dl_message_id l' <> m_id msg).
  { intros k l' Hl' Heq. destruct (Hown k l' Hl') as [_ (files & Hp)]. congruence. }
  split; [done| | |]; unfold s2; cbn [locators discord]; rewrite ?Hd1.
  - intros k l'. rewrite Htab2, lookup_insert. case_decide; [intros [= <-]; done|]. intros Hl'. by apply Hths, (Hth k).
  - intros k l'. rewrite Htab2, lookup_insert. case_decide as Hk.
    + intros [= <-]. pose proof (client_for_group_in group) as Hc. fold c in Hc. split; [right; by exists c|].
      rewrite (owner_of c l Hc eq_refl). by eexists.
    + intros Hl'. destruct (Hown k l' Hl') as [? (files & Hp)]. split; [done|]. exists files. by apply (g_posted _ _ _ Hg).
  - intros k k' l1 l2. rewrite Htab2, !lookup_insert. repeat case_decide; subst; try done.
    + intros [= <-] Hl2 Heq. by destruct (Hother _ _ Hl2).
    + intros Hl1' [= <-] Heq. by destruct (Hother _ _ Hl1').
    + by apply Hap.
Qed.

Lemma put_held created id data group s :
  in_order s -> is_Some (held s !! id) ->
  put_for backoff clients created id data group s = (Err (Prelude.Fail (Store.AlreadyExists id)), s).
Proof.
  intros Hio [b Hh]. destruct (locator_held id b s Hh) as (l & Hl & _). unfold put_for, mbind at 1, SM_bind at 1, locator_query.
  by rewrite lget_up, Hl.
Qed.

Lemma delete_object_up id s :
  in_order s -> is_Some (held s !! id) ->
  exists s', delete backoff clients id s = (Ok tt, s') /\ in_order s' /\ held s' = base.delete id (held s).
Proof.
  intros Hio [b Hh]. pose proof Hio as [Hok Hth Hown Hap]. destruct (locator_held id b s Hh) as (l & Hl & Hb & Hloc).
  destruct (Hown id l Hl) as [Hcfg (files & Hp)]. pose proof (Hth id l Hl) as Hthere.
  destruct (delete_message_up (nth_client clients (client_for clients l)) (dl_message_id l) files (conn s (client_for clients l))
    (client_for_ok l) Hthere Hp) as (c & Hdel & Hths). simpl in Hths.
  destruct (with_client_run (client_for clients l) (fun c => delete_message backoff c (dl_message_id l)) s (Ok tt) c Hdel)
    as (s1 & Hs1 & Hd1 & Hl1).
  pose proof (delete_spec backoff (nth_client clients (client_for clients l)) (dl_message_id l) (conn s (client_for clients l))) as Hg.
  rewrite Hdel in Hg. destruct Hg as [Hg _]. simpl in Hg.
  pose proof (lremove_up id (locators s1)) as Hok1. pose proof (lremove_law id (locators s1)) as Htab.
  destruct (lremove id (locators s1)) as [r ls] eqn:Hcall. simpl in Hok1. subst r. destruct Htab as [Htab|[[] _]]. rewrite Hl1 in Htab.
  set (s2 := {| discord := discord s1; now := now s1; known_limits := known_limits s1; locators := ls |}).
  assert (Hrun : delete backoff clients id s = (Ok tt, s2)).
  { unfold delete. rewrite (sbind_ok _ _ _ _ _ Hloc).
    assert (Hguard : negb (bool_decide (dl_webhook_id l = ""%string)) &&
      negb (existsb (fun c => bool_decide (webhook_id c = dl_webhook_id l)) clients) = false) by (by apply configured_spec).
    rewrite Hguard, (sbind_ok _ _ _ _ _ Hs1). erewrite sbind_ok by reflexivity. unfold locator_call. by rewrite Hcall. }
  exists s2. split; [done|]. pose proof (delete_object backoff clients id s (in_order_well _ Hio)) as Hspec. rewrite Hrun in Hspec.
  destruct Hspec as ([Hok2 _] & _ & _ & _ & _ & _ & Hheld). split; [|done].
  split; [done| | |]; unfold s2; cbn [locators discord]; rewrite ?Hd1, Htab.
  - intros k l'. rewrite lookup_delete. case_decide; [done|]. intros Hl'. apply Hths; [|by apply (Hth k)].
    intros Heq. by specialize (Hap _ _ _ _ Hl' Hl Heq).
  - intros k l'. rewrite lookup_delete. case_decide; [done|]. intros Hl'. destruct (Hown k l' Hl') as [? (fs & Hp')].
    split; [done|]. exists fs. by apply (g_posted _ _ _ Hg).
  - intros k k' l1 l2. rewrite !lookup_delete. repeat case_decide; try done. by apply Hap.
Qed.

(** The store does what it is asked to. When Discord answers and the locators can be
    recorded, a new object that is not over the size limit is stored; an object that is
    held is read, whole or in part, its link refreshed when it has expired; it is deleted
    with its message, and no other object is touched; an object that is not held is
    reported as missing, and one that is held is not replaced. *)
Theorem discord_implements_objects s :
  in_order s ->
  (forall created id data group, held s !! id = None -> len data <= Store.max_object ->
     exists s', put_for backoff clients created id data group s =
       (Ok {| Store.so_id := id; Store.so_size := len data; Store.so_created_at := created |}, s') /\
       in_order s' /\ held s' = <[id := data]> (held s)) /\
  (forall created id data group, is_Some (held s !! id) ->
     put_for backoff clients created id data group s = (Err (Prelude.Fail (Store.AlreadyExists id)), s)) /\
  (forall id b, held s !! id = Some b ->
     exists s', get backoff clients from_timestamp id s = (Ok b, s') /\ in_order s' /\ held s' = held s) /\
  (forall id b offset l, held s !! id = Some b -> 0 <= offset -> 0 < l -> offset + l <= len b -> len b < 2 ^ 63 ->
     exists s', get_range backoff clients from_timestamp id offset l s = (Ok (slice b offset (offset + l)), s') /\
       in_order s' /\ held s' = held s) /\
  (forall id, is_Some (held s !! id) ->
     exists s', delete backoff clients id s = (Ok tt, s') /\ in_order s' /\ held s' = base.delete id (held s)) /\
  (forall id, held s !! id = None ->
     get backoff clients from_timestamp id s = (Err (Prelude.Fail (Store.NotFound id)), s) /\
     delete backoff clients id s = (Err (Prelude.Fail (Store.NotFound id)), s)).
Proof.
  intros Hio. split; [|split; [|split; [|split; [|split]]]].
  - intros created id data group. by apply put_up.
  - intros created id data group Hh. by apply put_held.
  - intros id b Hh. by apply (download_object_up id None b).
  - intros id b offset l Hh Hoff Hl Hend Hlen. apply (download_object_up id (Some (offset, l)) b); [done|done|]. simpl. lia.
  - intros id. by apply delete_object_up.
  - intros id Hh. pose proof (locator_not_held id s Hio Hh) as Hloc.
    split; [unfold get, download|unfold delete]; by rewrite (sbind_err _ _ _ _ _ Hloc).
Qed.

(** *** The object store of the server *)

(** A store in order does not panic: what stands for a panic is not seen. *)
Definition answer {A} (out : result (fault Store.ObjectStoreError) A * DiscordStore.t D L)
    : result Store.ObjectStoreError A * DiscordStore.t D L :=
  (match out.1 with
   | Ok a => Ok a
   | Err (Prelude.Fail e) => Err e
   | Err Panic => Err (Store.Backend "panic")
   end, out.2).

#[local] Instance discord_objects : Store.ObjectStore (DiscordStore.t D L) := {|
  Store.put created id data s := answer (put backoff clients created id data s);
  Store.put_for created id data group s := answer (put_for backoff clients created id data group s);
  Store.get id s := answer (get backoff clients from_timestamp id s);
  Store.get_range id offset l s := answer (get_range backoff clients from_timestamp id offset l s);
  Store.delete id s := answer (delete backoff clients id s);
  Store.stat id s := answer (stat (now s) id s);
|}.

#[local] Program Instance discord_objects_laws : Store.ObjectStoreLaws (DiscordStore.t D L) := {|
  Store.objects := held; Store.sound := in_order |}.
Next Obligation.
  intros created id data s Hs Hh Hlen. destruct (put_up created id data id s Hs Hh Hlen) as (s' & Hrun & ? & ?).
  exists s'. unfold Store.put; simpl. unfold put. by rewrite Hrun.
Qed.
Next Obligation.
  intros created id data group s Hs Hh Hlen. destruct (put_up created id data group s Hs Hh Hlen) as (s' & Hrun & ? & ?).
  exists s'. unfold Store.put_for; simpl. by rewrite Hrun.
Qed.
Next Obligation.
  intros created id data s Hs Hh. exists s. unfold Store.put; simpl. unfold put. by rewrite (put_held _ _ _ _ s Hs Hh).
Qed.
Next Obligation.
  intros id s Hs. unfold Store.get; simpl. unfold get. destruct (held s !! id) as [b|] eqn:Hh.
  - destruct (download_object_up id None b s Hs Hh I) as (s' & Hrun & ? & ?). exists s'. by rewrite Hrun.
  - exists s. unfold download. by rewrite (sbind_err _ _ _ _ _ (locator_not_held id s Hs Hh)).
Qed.
Next Obligation.
  intros id offset l b s Hs Hh Hoff Hl Hend Hlen. unfold Store.get_range; simpl. unfold get_range.
  destruct (download_object_up id (Some (offset, l)) b s Hs Hh) as (s' & Hrun & ? & ?); [simpl; lia|]. exists s'. by rewrite Hrun.
Qed.
Next Obligation.
  intros id s Hs. unfold Store.delete; simpl. destruct (held s !! id) as [b|] eqn:Hh.
  - destruct (delete_object_up id s Hs ltac:(by eexists)) as (s' & Hrun & ? & Heq). rewrite Hrun. simpl. split; [done|]. rewrite Heq.
    split; [by right|]. intros _. apply lookup_delete_eq.
  - unfold delete. rewrite (sbind_err _ _ _ _ _ (locator_not_held id s Hs Hh)). simpl. split; [done|]. split; [by left|done].
Qed.

(** *** Files *)

Section Files.
Context `{AL : AeadLaws} `{HO : HashOrder} (state : AppState.Config) (sched : nat -> nat).
Import AppState Spec ReadFacts.

(** Files on Discord. On a server that keeps its objects on Discord, a write and a
    sync go through, and a read of the whole file then returns the flat file with the
    write in it, as committed, however its parts were split over messages and webhooks
    and whichever links had expired; the store stays in order. *)
Theorem files_on_discord (w : World (DiscordStore.t D L)) id data offset body :
  chunk_fits (chunk_size state) -> 1 <= parallel_chunk_fetches state ->
  Inv w -> Repr state (repo w) (held (store w)) id data -> 0 <= offset -> offset + len body < 2 ^ 62 ->
  write_flat data offset body <> [] ->
  exists w', (_ ← Data.write_bytes state id offset body; _ ← Data.commit_node id;
              Data.read_bytes state sched id None None) w = (Ok (write_flat data offset body, true), w') /\
    in_order (store w') /\ Repr state (repo w') (held (store w')) id (write_flat data offset body).
Proof.
  intros Hfits Hpar HI HR Hoff Hend Hne.
  destruct (DataProps.write_sync_ok state w id data offset body Hfits HI HR Hoff Hend) as (w1 & w2 & Hw1 & Hw2 & HI2 & HR2 & Hno).
  destruct (DataProps.read_whole_ok state w2 sched id _ Hpar HI2 HR2 Hne Hno) as (s' & Hr & [Hsd Hs]). exists (set_store w2 s').
  erewrite SpecFacts.bind_Ok by exact Hw1. erewrite SpecFacts.bind_Ok by exact Hw2.
  rewrite Hr. split; [done|]. split; [exact Hsd|]. change (held (store (set_store w2 s'))) with (Store.objects s'). by rewrite Hs.
Qed.

End Files.

End Up.
End DiscordUp.
