(* ===== verification/DiscordExample.v ===== *)
(** * A small Discord to evaluate

    A Discord that keeps its messages in a list, whose links stop working when the message
    is fetched again ([Steady]), and the same with requests that get no answer ([Flaky]).
    The theorems about the Discord store are applied to them. *)
From Stdlib.Strings Require Import Ascii.
From Stdlib.Strings Require String.
From stdpp Require Import pretty.
From S2P Require Import Prelude Crypto ObjectStore Repository Locks Server Data DataSpec DataWrite DataRead Example DataProps Discord DiscordProps DiscordUp.

Module DiscordExample.
Import RateLimit DiscordClient DiscordStore DiscordSpec DiscordFacts DiscordUp Example.

(** A message: whose it is, its attachment, whether it is still there, and the number of
    its last link. *)
Record Message : Type := { by_ : string; attached : bytes; present : bool; link : nat }.
Abbreviation Steady := (list Message) (only parsing).

Fixpoint mid (n : nat) : string := match n with O => "" | S n => String "m"%char (mid n) end.
Definition index (m : string) : option nat :=
  if bool_decide (mid (String.length m) = m) then Some (String.length m) else None.
Definition message (d : Steady) (m : string) : option Message := index m ≫= (d !!.).
Definition url (m : string) (n : nat) : string := m +:+ String "?"%char (mid n).
Definition no_headers : Headers :=
  {| h_remaining := None; h_reset_after := None; h_reset := None; h_global := false; h_retry_after := None |}.
Definition reply (status : Z) : Response :=
  {| status := status; headers := no_headers; json := Err "no JSON"; payload := Err "no bytes"; DiscordClient.text := "" |}.
Definition with_message (m : string) (b : bytes) (n : nat) : Response :=
  {| status := 200; headers := no_headers; payload := Err "no bytes"; DiscordClient.text := "";
     json := Ok {| m_id := m; m_attachments := [{| a_id := "a"; a_size := len b; a_url := url m n |}] |} |}.
Definition with_bytes (b : bytes) : Response :=
  {| status := 200; headers := no_headers; json := Err "no JSON"; payload := Ok b; DiscordClient.text := "" |}.

Definition steady_respond (req : Request) (d : Steady) : result string Response * Steady :=
  match req with
  | Upload w _ data =>
      if len data <=? Store.max_object
      then (Ok (with_message (mid (length d)) data 0), d ++ [{| by_ := w; attached := data; present := true; link := 0 |}])
      else (Ok (reply 413), d)
  | FetchMessage w m =>
      match message d m with
      | Some msg => if present msg && bool_decide (by_ msg = w)
                    then (Ok (with_message m (attached msg) (S (link msg))),
                          <[String.length m := {| by_ := by_ msg; attached := attached msg; present := true; link := S (link msg) |}]> d)
                    else (Ok (reply 404), d)
      | None => (Ok (reply 404), d)
      end
  | Download u _ =>
      match split_once "?"%char u with
      | Some (m, n) => match message d m with
                       | Some msg => if present msg && bool_decide (n = mid (link msg)) then (Ok (with_bytes (attached msg)), d)
                                     else (Ok (reply 404), d)
                       | None => (Ok (reply 404), d)
                       end
      | None => (Ok (reply 404), d)
      end
  | DeleteMessage w m =>
      match message d m with
      | Some msg => if present msg && bool_decide (by_ msg = w)
                    then (Ok (reply 204), <[String.length m := {| by_ := by_ msg; attached := attached msg; present := false; link := link msg |}]> d)
                    else (Ok (reply 404), d)
      | None => (Ok (reply 404), d)
      end
  end.
#[export] Instance steady : Discord Steady := {| respond _ req d := steady_respond req d; latency _ := 5 |}.

Lemma mid_length n : String.length (mid n) = n.
Proof. induction n as [|n IH]; simpl; [done|]. by rewrite IH. Qed.
Lemma index_mid n : index (mid n) = Some n.
Proof. unfold index. by rewrite mid_length, bool_decide_true. Qed.
Lemma index_Some m n : index m = Some n -> n = String.length m /\ m = mid n.
Proof. unfold index. case_bool_decide as Hm; [|done]. intros [= <-]. done. Qed.
Lemma mid_plain n : "?"%char ∉ String.list_ascii_of_string (mid n).
Proof. induction n as [|n IH]; simpl; set_solver. Qed.
Lemma message_Some d m msg : message d m = Some msg -> d !! String.length m = Some msg /\ m = mid (String.length m).
Proof.
  unfold message. destruct (index m) as [n|] eqn:Hi; [|done]. apply index_Some in Hi as [-> Hm]. done.
Qed.
Lemma url_split m msg d n : message d m = Some msg -> split_once "?"%char (url m n) = Some (m, mid n).
Proof. intros [_ Hm]%message_Some. rewrite Hm. apply split_once_string, mid_plain. Qed.

(** A request adds a message or changes the links and the presence of one. *)
Definition file_of (msg : Message) : string * list (string * bytes) := (by_ msg, [("a"%string, attached msg)]).
Lemma kept_by_change d n msg msg' m p :
  d !! n = Some msg -> file_of msg' = file_of msg ->
  file_of <$> message d m = Some p -> file_of <$> message (<[n := msg']> d) m = Some p.
Proof.
  intros Hn Hf. unfold message. destruct (index m) as [k|]; [|done]. simpl. destruct (decide (k = n)) as [->|Hne].
  - rewrite list_lookup_insert_eq by (by eapply lookup_lt_Some). rewrite Hn. simpl. by rewrite Hf.
  - by rewrite list_lookup_insert_ne.
Qed.
Lemma message_change_ne d m m' msg' : m <> m' -> m' = mid (String.length m') -> message (<[String.length m' := msg']> d) m = message d m.
Proof.
  intros Hne Hm'. unfold message. destruct (index m) as [k|] eqn:Hi; [|done]. apply index_Some in Hi as [-> Hm]. simpl.
  apply list_lookup_insert_ne. congruence.
Qed.

Lemma message_change d m msg msg' :
  message d m = Some msg -> message (<[String.length m := msg']> d) m = Some msg'.
Proof.
  intros [Hd Hm]%message_Some. unfold message. rewrite Hm, mid_length, index_mid. simpl.
  apply list_lookup_insert_eq. by eapply lookup_lt_Some.
Qed.
(** Whether a message is there, after another message or a change to one. *)
Definition is_there (d : Steady) (m : string) : bool := match message d m with Some msg => present msg | None => false end.
Lemma there_new d msg m : is_Some (message d m) -> is_there (d ++ [msg]) m = is_there d m.
Proof.
  intros [x Hx]. unfold is_there. rewrite Hx. unfold message in *. destruct (index m) as [k|]; [|done]. simpl in *.
  by rewrite (lookup_app_l_Some _ _ _ _ Hx).
Qed.
Lemma there_change d m' msg msg' m :
  message d m' = Some msg -> is_there (<[String.length m' := msg']> d) m = if decide (m = m') then present msg' else is_there d m.
Proof.
  intros Hm. unfold is_there. case_decide as Heq; [subst; by rewrite (message_change _ _ _ _ Hm)|].
  rewrite message_change_ne; [done|done|by apply message_Some in Hm as [_ ?]].
Qed.
Lemma steady_there t req (d : Steady) m :
  (forall webhook, req <> DeleteMessage webhook m) -> is_there d m = true -> is_there (respond t req d).2 m = true.
Proof.
  intros Hreq Ht. simpl. assert (Hsome : is_Some (message d m)) by (unfold is_there in Ht; by destruct (message d m)).
  destruct req as [w f data|w m'|u r|w m']; simpl.
  - destruct (_ <=? _); [|done]. simpl. by rewrite there_new.
  - destruct (message d m') as [msg|] eqn:Hm; [|done]. destruct (_ && _); [|done]. simpl. rewrite (there_change _ _ _ _ _ Hm). by case_decide.
  - destruct (split_once _ _) as [[]|]; [|done]. destruct (message d s); [|done]. by destruct (_ && _).
  - destruct (message d m') as [msg|] eqn:Hm; [|done]. destruct (_ && _); [|done]. simpl. rewrite (there_change _ _ _ _ _ Hm).
    rewrite decide_False; [done|]. intros ->. by apply (Hreq w).
Qed.
Lemma steady_gone t req (d : Steady) m : is_Some (message d m) -> is_there d m = false -> is_there (respond t req d).2 m = false.
Proof.
  intros Hsome Ht. simpl. destruct req as [w f data|w m'|u r|w m']; simpl.
  - destruct (_ <=? _); [|done]. simpl. by rewrite there_new.
  - destruct (message d m') as [msg|] eqn:Hm; [|done]. destruct (_ && _) eqn:Hp; [|done]. simpl. rewrite (there_change _ _ _ _ _ Hm).
    destruct (decide (m = m')) as [->|Hne]; [|exact Ht]. unfold is_there in Ht. rewrite Hm in Ht. by rewrite Ht in Hp.
  - destruct (split_once _ _) as [[]|]; [|done]. destruct (message d s); [|done]. by destruct (_ && _).
  - destruct (message d m') as [msg|] eqn:Hm; [|done]. destruct (_ && _); [|done]. simpl. rewrite (there_change _ _ _ _ _ Hm). by case_decide.
Qed.
#[export] Program Instance steady_laws : DiscordLaws Steady := {|
  posted d m := file_of <$> message d m;
  there := is_there;
  target u := (fun p => (p.1, "a"%string)) <$> split_once "?"%char u |}.
Next Obligation. intros d. simpl. lia. Qed.
Next Obligation.
  intros t req d m p Hp. simpl. destruct req as [w f data|w m'|u r|w m']; simpl.
  - destruct (_ <=? _); [|done]. simpl. unfold message in *. destruct (index m) as [k|]; [|done]. simpl in *.
    destruct (d !! k) as [msg|] eqn:Hk; [|done]. by rewrite (lookup_app_l_Some _ _ _ _ Hk).
  - destruct (message d m') as [msg|] eqn:Hm; [|done]. apply message_Some in Hm as [Hm _]. destruct (_ && _); [|done]. by eapply kept_by_change.
  - destruct (split_once _ _) as [[]|]; [|done]. destruct (message d s) as [msg|]; [|done]. by destruct (_ && _).
  - destruct (message d m') as [msg|] eqn:Hm; [|done]. apply message_Some in Hm as [Hm _]. destruct (_ && _); [|done]. by eapply kept_by_change.
Qed.
Next Obligation. intros t req d m. apply steady_there. Qed.
Next Obligation. intros t req d m p Hp. apply steady_gone. simpl in Hp. by destruct (message d m). Qed.
Next Obligation.
  intros t w m files d resp d' Hr Hp Hs. simpl in *. change (is_there d' m = false). destruct (message d m) as [msg|] eqn:Hm; [|done].
  injection Hp as Hw _. destruct (present msg && bool_decide (by_ msg = w)) eqn:Hb; simplify_eq/=.
  - rewrite (there_change _ _ _ _ _ Hm). by rewrite decide_True.
  - rewrite bool_decide_true, andb_true_r in Hb by done. unfold is_there. by rewrite Hm.
Qed.
Next Obligation.
  intros t w f data d resp d' msg. simpl. destruct (_ <=? _); [|by intros [= <- <-]]. intros [= <- <-] _ [= <-]. simpl.
  assert (Hnew : message (d ++ [{| by_ := w; attached := data; present := true; link := 0 |}]) (mid (length d)) =
    Some {| by_ := w; attached := data; present := true; link := 0 |}).
  { unfold message. rewrite index_mid. simpl. by apply list_lookup_middle. }
  split; [unfold message; rewrite index_mid; simpl; by rewrite lookup_ge_None_2|].
  eexists. split; [done|]. simpl. split; [done|]. unfold is_there. rewrite Hnew. split; [by rewrite (url_split _ _ _ _ Hnew)|done].
Qed.
Next Obligation.
  intros t w m d resp d' msg a. simpl. destruct (message d m) as [mg|] eqn:Hm; [|by intros [= <- <-]].
  destruct (_ && _); [|by intros [= <- <-]]. intros [= <- <-] _ [= <-]. simpl. intros ->%list_elem_of_singleton. simpl.
  by rewrite (url_split _ _ _ _ Hm).
Qed.
Next Obligation.
  intros t u range d resp d' bs m a. simpl. destruct (split_once _ _) as [[m' n]|]; [|by intros [= <- <-]].
  destruct (message d m') as [msg|] eqn:Hm; [|by intros [= <- <-]]. destruct (_ && _); [|by intros [= <- <-]].
  intros [= <- <-] _ [= <-] [= <- <-]. exists (by_ msg), [("a"%string, attached msg)], (attached msg).
  rewrite Hm. split; [done|]. split; [by apply list_elem_of_singleton|]. by destruct range as [[]|].
Qed.
Next Obligation.
  intros d m w files. simpl. destruct (message d m); simpl; [|done]. intros [= _ <-]. apply NoDup_singleton.
Qed.

Lemma is_there_Some d m : is_there d m = true -> exists msg, message d m = Some msg /\ present msg = true.
Proof. unfold is_there. destruct (message d m) as [msg|]; [by exists msg|done]. Qed.
#[export] Program Instance steady_up : DiscordUp Steady := {|
  live d u := exists m msg, split_once "?"%char u = Some (m, mid (link msg)) /\ message d m = Some msg /\ present msg = true |}.
Next Obligation. done. Qed.
Next Obligation.
  intros t w f data d Hlen. simpl. rewrite (proj2 (Z.leb_le _ _) Hlen). do 3 eexists. split; [reflexivity|]. split; [done|]. split; [reflexivity|].
  simpl. unfold is_there, message. rewrite index_mid. simpl. by rewrite list_lookup_middle by done.
Qed.
Next Obligation.
  intros t w m files d (msg & Hm & Hp)%is_there_Some Hpost. simpl in *. rewrite Hm in *. injection Hpost as <- <-. rewrite Hp, bool_decide_true by done. simpl.
  do 3 eexists. split; [reflexivity|]. split; [done|]. split; [reflexivity|]. simpl. split.
  - intros a ->%list_elem_of_singleton. eexists. by split; [apply list_elem_of_singleton|].
  - intros att ->%list_elem_of_singleton. simpl. eexists m, _.
    split; [|split; [exact (message_change _ _ _ _ Hm)|done]]. exact (url_split _ _ _ _ Hm).
Qed.
Next Obligation.
  intros t u range m a b d (m' & msg & Hs & Hm & Hp) _ _ _. simpl. rewrite Hs, Hm, Hp, bool_decide_true by done. simpl. by do 3 eexists.
Qed.
Next Obligation.
  intros t w m files d (msg & Hm & Hp)%is_there_Some Hpost. simpl in *. rewrite Hm in *. injection Hpost as <- <-. rewrite Hp, bool_decide_true by done. by do 2 eexists.
Qed.
Next Obligation.
  intros t req d resp d' after. simpl. destruct req as [w f data|w m'|u r|w m']; simpl; repeat case_match; intros [= <- <-]; done.
Qed.

#[export] Program Instance memory_locators_up : LocatorUp MemoryLocatorStore.
Next Obligation. done. Qed.
Next Obligation. done. Qed.
Next Obligation. done. Qed.
Next Obligation. done. Qed.

(** Requests that fail before they arrive, or whose answer is lost. *)
Inductive Outage : Type := Unsent | Unanswered.
Definition Flaky : Type := Steady * list (option Outage).
Definition lost (req : Request) : string := "error sending request for url (https://discord.com/api/webhooks/7/s3cret)".
#[export] Instance flaky : Discord Flaky := {|
  respond t req d := match d.2 with
    | Some Unsent :: rest => (Err (lost req), (d.1, rest))
    | Some Unanswered :: rest => (Err (lost req), ((respond t req d.1).2, rest))
    | _ => let '(r, d1) := respond t req d.1 in (r, (d1, tail d.2))
    end;
  latency d := latency d.1;
|}.
Lemma flaky_ok t req (d d' : Flaky) resp : respond t req d = (Ok resp, d') -> respond t req d.1 = (Ok resp, d'.1).
Proof.
  simpl. destruct d as [d [|[[]|] rest]]; simpl; try done; destruct (steady_respond req d); by intros [= -> <-].
Qed.
#[export] Program Instance flaky_laws : DiscordLaws Flaky := {|
  posted d := posted d.1; there d := there d.1; target := target |}.
Next Obligation. intros d. apply (latency_law d.1). Qed.
Next Obligation.
  intros t req d m p Hp. pose proof (posted_law t req d.1 m p Hp) as Hp'. simpl in *.
  destruct d as [d [|[[]|] rest]]; simpl in *; try done; by destruct (steady_respond req d).
Qed.
Next Obligation.
  intros t req d m Hreq Ht. pose proof (there_law t req d.1 m Hreq Ht) as Ht'. simpl in *.
  destruct d as [d [|[[]|] rest]]; simpl in *; try done; by destruct (steady_respond req d).
Qed.
Next Obligation.
  intros t req d m p Hp Ht. pose proof (gone_law t req d.1 m p Hp Ht) as Ht'. simpl in *.
  destruct d as [d [|[[]|] rest]]; simpl in *; try done; by destruct (steady_respond req d).
Qed.
Next Obligation. intros t w m files d resp d' Hr%flaky_ok Hp Hs. by apply (deleted_law _ _ _ _ _ _ _ Hr Hp Hs). Qed.
Next Obligation. intros t w f data d resp d' msg Hr%flaky_ok Hs Hj. by apply (upload_law _ _ _ _ _ _ _ _ Hr Hs Hj). Qed.
Next Obligation. intros t w m d resp d' msg a Hr%flaky_ok Hs Hj. by apply (fetch_law _ _ _ _ _ _ _ _ Hr Hs Hj). Qed.
Next Obligation. intros t u range d resp d' bs m a Hr%flaky_ok Hs Hp. by apply (download_law _ _ _ _ _ _ _ _ _ Hr Hs Hp). Qed.
Next Obligation. intros d m w files. apply (files_law d.1). Qed.

(** Locators whose calls may be carried out and lose their answer. *)
Definition Lossy : Type := MemoryLocatorStore * list bool.
Definition lossily (f : MemoryLocatorStore -> MemoryLocatorStore) (l : Lossy) : result string unit * Lossy :=
  (match l.2 with true :: _ => Err "connection reset"%string | _ => Ok tt end, (f l.1, tail l.2)).
#[export] Instance lossy : LocatorStore Lossy := {|
  lput l := lossily (fun m => (lput l m).2);
  lget id m := lget id m.1;
  lset_url id url := lossily (fun m => (lset_url id url m).2);
  lremove id := lossily (fun m => (lremove id m).2);
|}.
#[export] Program Instance lossy_laws : LocatorLaws Lossy := {| table m := m.1 |}.
Next Obligation. by left. Qed.
Next Obligation. done. Qed.
Next Obligation. by left. Qed.
Next Obligation. by left. Qed.

(** *** Witnesses *)

Definition hooks : list DiscordClientConfig := [new_config "7" "s3cret"; new_config "8" "t0ken"].
Definition backoff (_ : Z) : Z := 10.
Definition start {D} (d : D) : DiscordStore.t D MemoryLocatorStore :=
  {| discord := d; now := 0; known_limits := ∅; locators := ∅ |}.
Lemma hooks_some : hooks <> [].
Proof. done. Qed.
Lemma hooks_attempts c : c ∈ hooks -> 0 <= max_attempts (retry c).
Proof. by intros [->|[->|[]%not_elem_of_nil]%elem_of_cons]%elem_of_cons. Qed.
Lemma start_ok {D} `{DiscordLaws D} (d : D) : well (start d).
Proof.
  split; intros id; [intros l Hl|intros id' l l' Hl]; change ((∅ : gmap Uuid DiscordLocator) !! id = Some l) in Hl;
    by rewrite lookup_empty in Hl.
Qed.
Lemma start_in_order : in_order hooks (start ([] : Steady)).
Proof. split; [apply (start_ok ([] : Steady))| | |]; intros id; intros *; change (table (locators (start []))) with (∅ : gmap Uuid DiscordLocator);
  rewrite lookup_empty; done. Qed.

(** Two requests are lost, one of them after it was carried out. *)
Definition bad_day : DiscordStore.t Flaky MemoryLocatorStore := start ([], [Some Unanswered; Some Unsent]).
(** And a day on which, after an upload, the locator's removal loses its answer. *)
Definition worse_day : DiscordStore.t Flaky Lossy :=
  {| discord := ([], [Some Unanswered; None; Some Unanswered]); now := 0; known_limits := ∅; locators := (∅, [false; true]) |}.
Lemma worse_day_ok : well worse_day.
Proof.
  split; intros id; [intros l Hl|intros id' l l' Hl]; change ((∅ : gmap Uuid DiscordLocator) !! id = Some l) in Hl; by rewrite lookup_empty in Hl.
Qed.
Lemma discord_store_keeps_witness :
  let '(r, s1) := put_for backoff hooks 1 42%N (text "hello") 7%N worse_day in
  r = Ok {| Store.so_id := 42%N; Store.so_size := 5; Store.so_created_at := 1 |} /\
  well s1 /\ held s1 = {[ 42%N := text "hello" ]} /\
  let '(r, s2) := delete backoff hooks 42%N s1 in
  r = Err (Prelude.Fail (Store.Backend "connection reset")) /\ well s2 /\ (held s2 = held s1 \/ held s2 = ∅).
Proof.
  destruct (discord_store_keeps backoff hooks Some worse_day worse_day_ok) as (Hput & _).
  specialize (Hput 1 42%N (text "hello") 7%N ltac:(vm_compute; reflexivity)).
  assert (Hr : (put_for backoff hooks 1 42%N (text "hello") 7%N worse_day).1 =
    Ok {| Store.so_id := 42%N; Store.so_size := 5; Store.so_created_at := 1 |}) by (vm_compute; reflexivity).
  assert (Hr2 : (delete backoff hooks 42%N (put_for backoff hooks 1 42%N (text "hello") 7%N worse_day).2).1 =
    Err (Prelude.Fail (Store.Backend "connection reset"))) by (vm_compute; reflexivity).
  destruct (put_for _ _ _ _ _ _ _) as [r s1]. cbn [fst snd] in Hr, Hr2. subst r. destruct Hput as (Hok & _ & Hheld & _).
  split; [reflexivity|]. split; [exact Hok|]. split; [exact Hheld|].
  destruct (discord_store_keeps backoff hooks Some s1 Hok) as (_ & _ & _ & Hdel). specialize (Hdel 42%N).
  destruct (delete _ _ _ _) as [r s2]. simpl in Hr2. subst r. destruct Hdel as (Hw & Hh & _). split; [reflexivity|]. split; [exact Hw|].
  destruct Hh as [Hh|Hh]; [left; exact Hh|right]. rewrite Hh, Hheld. reflexivity.
Defined.

(** A locator whose webhook is not configured any more is kept, with its message. *)
Lemma retired_webhook_retained :
  let s1 := (put_for backoff hooks 1 42%N (text "hello") 7%N bad_day).2 in
  (delete backoff [new_config "9" "n3w"] 42%N s1).1 = Err (Prelude.Fail (Store.Retained 42%N)) /\
  (delete backoff [new_config "9" "n3w"] 42%N s1).2 = s1.
Proof. vm_compute. done. Qed.

Lemma not_inside {A} `{EqDecision A} (pat s : list A) :
  Forall (fun n => take (length pat) (drop n s) <> pat) (seq 0 (S (length s))) -> ~ inside pat s.
Proof.
  intros Hall (pre & post & ->). rewrite Forall_forall in Hall. apply (Hall (length pre)).
  - apply elem_of_seq. rewrite length_app. lia.
  - by rewrite drop_app_length, take_app_length.
Qed.

Definition impatient : DiscordClientConfig :=
  {| webhook_id := "7"; webhook_token := "s3cret"; base_url := "http://localhost"; retry := {| max_attempts := 0 |}; max_concurrency := 1 |}.
Definition offline : Conn Flaky := {| remote := ([], [Some Unsent]); limits := RateLimit.new; time := 0 |}.
Lemma errors_hide_the_token_witness : exists text,
  (fetch_message backoff impatient "m" offline).1 =
    Err (Prelude.Fail (Http text)) /\ ~ occurs "s3cret" text.
Proof.
  assert (Hplain : plain_token (webhook_token impatient)).
  { unfold plain_token. vm_compute (webhook_token impatient). split; [discriminate|].
    split; [vm_compute; set_solver|]. split; [vm_compute; set_solver|].
    apply not_inside, (bool_decide_unpack _). vm_compute. exact I. }
  destruct (errors_hide_the_token (D := Flaky) backoff impatient Hplain) as (_ & Hfetch & _).
  set (text := scrub impatient (lost (FetchMessage "7" "m"))). exists text.
  assert (Hrun : (fetch_message backoff impatient "m" offline).1 = Err (Prelude.Fail (Http text))) by (vm_compute; reflexivity).
  split; [exact Hrun|exact (Hfetch "m"%string offline text Hrun)].
Defined.

Lemma discord_implements_objects_witness : exists s1 s2,
  put_for backoff hooks 1 42%N (text "hello") 7%N (start ([] : Steady)) =
    (Ok {| Store.so_id := 42%N; Store.so_size := 5; Store.so_created_at := 1 |}, s1) /\
  get_range backoff hooks Some 42%N 1 3 s1 = (Ok (text "ell"), s2) /\ held s2 = {[ 42%N := text "hello" ]}.
Proof.
  destruct (discord_implements_objects backoff hooks Some hooks_some hooks_attempts _ start_in_order) as (Hput & _).
  destruct (Hput 1 42%N (text "hello") 7%N) as (s1 & H1 & Hio & Hheld); [reflexivity|vm_compute; discriminate|].
  destruct (discord_implements_objects backoff hooks Some hooks_some hooks_attempts s1 Hio) as (_ & _ & _ & Hrange & _).
  destruct (Hrange 42%N (text "hello") 1 3) as (s2 & H2 & _ & Hheld2); [by rewrite Hheld, lookup_insert_eq|lia|lia|vm_compute; discriminate|vm_compute; reflexivity|].
  exists s1, s2. split; [exact H1|]. split; [exact H2|]. rewrite Hheld2, Hheld. reflexivity.
Defined.

(** A server with one empty file, and nothing on Discord yet. *)
Definition on_discord : AppState.World (DiscordStore.t Steady MemoryLocatorStore) :=
  {| AppState.repo := AppState.repo empty_file; AppState.store := start []; AppState.locks := Locks.new; AppState.clock := Z.of_nat;
     AppState.ticks := 10; AppState.uuids := fun n => N.of_nat (100 + n); AppState.drawn := 0 |}.

Lemma files_on_discord_witness : exists w',
  (_ ← Data.write_bytes (H1 := discord_objects backoff hooks Some) config file 2 (text "hello"); _ ← Data.commit_node file;
   Data.read_bytes (H1 := discord_objects backoff hooks Some) config (fun n => n) file None None) on_discord =
    (Ok (zeroes 2 ++ text "hello", true), w').
Proof.
  destruct (files_on_discord backoff hooks Some hooks_some hooks_attempts config (fun n => n) on_discord file [] 2 (text "hello"))
    as (w' & Hrun & _).
  - exact config_fits.
  - vm_compute. discriminate.
  - destruct example_inv as [Hk [Hinj Hnew _]]. split; [exact Hk|]. split; [exact Hinj| |exact start_in_order].
    intros n Hn. destruct (Hnew n Hn) as (Hv & Hc & _). split; [exact Hv|]. split; [exact Hc|reflexivity].
  - exact example_repr.
  - lia.
  - vm_compute. reflexivity.
  - vm_compute. discriminate.
  - exists w'. exact Hrun.
Defined.

(** *** What the code leaves undone *)

(** A request limited globally is reported with a 429 that says so and how long to wait,
    without a remaining count. Only the bucket of the request is made to wait: a request
    of any other bucket is sent at once. *)
Lemma global_limit_unheeded h hash other retry_after (s s1 : Conn Flaky) :
  h_global h = true -> h_remaining h = None -> h_retry_after h = Some retry_after -> 0 <= retry_after -> other <> hash ->
  buckets (limits s) !! other = None ->
  (update_ratelimit h hash ≫= fun _ => rate_limited h hash) s = (Ok tt, s1) ->
  wait_for_slot other (limits s1) (time s1) = time s1.
Proof.
  intros Hg Hr Ha Hpos Hne Hno. unfold mbind, M_bind, update_ratelimit, rate_limited, on_limits. rewrite Hg, Hr, Ha.
  simpl. rewrite (proj2 (Z.ltb_ge _ _) Hpos). intros [= <-]. unfold wait_for_slot. simpl.
  rewrite lookup_insert_ne by done. rewrite Hno. simpl. lia.
Qed.

(** An upload whose answer is lost is sent again: the first message stays on Discord, and
    no locator leads to it. *)
Lemma lost_answer_leaves_a_message :
  let s' := (put_for backoff hooks 1 42%N (text "hello") 7%N bad_day).2 in
  length (discord s').1 = 2%nat /\ size (locators s') = 1%nat.
Proof. vm_compute. done. Qed.

End DiscordExample.
