(* ===== verification/DiscordQueue.v ===== *)
(** * Requests of one Discord client at once

    Models how the requests of a [DiscordClient] ([src/crates/dcfs-discord/src/client.rs]) share
    its rate limits and its semaphore, as a machine of events: what each does between two
    points where it waits is one event. [Discord] has the same requests one after another,
    with their answers. A task that is cancelled gives its permit back. *)
From S2P Require Import Prelude Crypto ObjectStore Repository Locks Server Data Discord.

Module DiscordQueue.
Import RateLimit DiscordClient.

(** Where a request is in its loop. *)
Inductive Phase : Type :=
| Arriving                             (* at [wait_for_slot] *)
| GlobalWait (until : Z)               (* asleep until the global limit resets *)
| BucketWait (until : Z)               (* asleep until its bucket resets *)
| Queued                               (* at [acquire] *)
| Flying                               (* sent, with a permit *)
| Pausing (until : Z) (permit : bool)  (* backing off *)
| Finished (outcome : result (fault DiscordError) Response).

Record Task : Type := { bucket : string; gone : option string; attempt : Z; phase : Phase }.
Definition set_phase (p : Phase) (t : Task) : Task :=
  {| bucket := bucket t; gone := gone t; attempt := attempt t; phase := p |}.
(** [continue]: the next attempt, or the end of the [for]. *)
Definition next_attempt (c : DiscordClientConfig) (t : Task) : Task :=
  let t := {| bucket := bucket t; gone := gone t; attempt := attempt t + 1; phase := Arriving |} in
  if max_attempts (retry c) <? attempt t
  then set_phase (Finished (Err (Prelude.Fail (MaxRetriesExceeded (max_attempts (retry c)))))) t else t.

(** [queue]: the tasks at [acquire] in the order they came, which is the order tokio serves. *)
Record Client : Type := { tasks : gmap nat Task; queue : list nat; limited : RateLimitManager; clock : Z; sent : list (nat * Z) }.
Definition new_client (now : Z) : Client := {| tasks := ∅; queue := []; limited := RateLimit.new; clock := now; sent := [] |}.
Definition put (r : nat) (t : Task) (s : Client) : Client :=
  {| tasks := <[r := t]> (tasks s); queue := queue s; limited := limited s; clock := clock s; sent := sent s |}.
Definition set_queue (q : list nat) (s : Client) : Client :=
  {| tasks := tasks s; queue := q; limited := limited s; clock := clock s; sent := sent s |}.
Definition set_limited (m : RateLimitManager) (s : Client) : Client :=
  {| tasks := tasks s; queue := queue s; limited := m; clock := clock s; sent := sent s |}.
Definition log_sent (r : nat) (s : Client) : Client :=
  {| tasks := tasks s; queue := queue s; limited := limited s; clock := clock s; sent := sent s ++ [(r, clock s)] |}.

Definition has_permit (t : Task) : bool := match phase t with Flying | Pausing _ true => true | _ => false end.
Definition holders (s : Client) : nat := size (filter (fun p => has_permit p.2 = true) (tasks s)).
(** [Semaphore::new(config.max_concurrency.max(1))]. *)
Definition permits (c : DiscordClientConfig) : Z := Z.max (max_concurrency c) 1.

(** The limits after the headers of an answer, [update_ratelimit]. *)
Definition record_headers (h : Headers) (hash : string) (now : Z) (m : RateLimitManager) : RateLimitManager :=
  if h_global h
  then with_global (fun _ => update_from_headers (h_remaining h) (reset_of h now) true) m
  else with_bucket hash (fun _ => update_from_headers (h_remaining h) (reset_of h now) false) m.

Inductive Event : Type :=
| Start (r : nat) (hash : string) (gone : option string)
| Look (r : nat)                                    (* [wait_for_slot] reads the limits *)
| Wake (r : nat)                                    (* a sleep is over *)
| Acquire (r : nat)                                 (* a permit is granted and the request sent *)
| Answer (r : nat) (outcome : result string Response)
| Cancel (r : nat)
| Tick (d : Z).

Section Machine.
Context (c : DiscordClientConfig) (backoff : Z -> Z).

(** The bucket, once the global limit has passed. *)
Definition look_bucket (r : nat) (t : Task) (s : Client) : Client :=
  match buckets (limited s) !! bucket t ≫= wait_duration (clock s) with
  | Some wait => put r (set_phase (BucketWait (clock s + wait)) t) s
  | None => set_queue (queue s ++ [r]) (put r (set_phase Queued t) s)
  end.

(** What an answer makes of the request: [inl] to try again after a pause, keeping the permit or
    not, [inr] to return. *)
Definition verdict (t : Task) (outcome : result string Response) : bool + result (fault DiscordError) Response :=
  let again := match should_retry (retry c) (attempt t) with Retry => true | Fail => false end in
  match outcome with
  | Err e => if again then inl false else inr (Err (Prelude.Fail (Http (scrub c e))))
  | Ok resp =>
      if status resp =? 429 then
        if default (10 ^ 9) (h_retry_after (headers resp)) <? 0 then inr (Err Panic)
        else if again then inl false else inr (Err (Prelude.Fail (MaxRetriesExceeded (max_attempts (retry c)))))
      else if (status resp =? 404) && bool_decide (is_Some (gone t)) then inr (Err (Prelude.Fail (Api 404 (default ""%string (gone t)))))
      else if negb (is_success (status resp)) then
        if (500 <=? status resp) && again then inl true else inr (Err (Prelude.Fail (Api (status resp) (text resp))))
      else inr (Ok resp)
  end.
Definition limits_after (t : Task) (outcome : result string Response) (now : Z) (m : RateLimitManager) : RateLimitManager :=
  match outcome with
  | Err _ => m
  | Ok resp =>
      let m := record_headers (headers resp) (bucket t) now m in
      let retry_after := default (10 ^ 9) (h_retry_after (headers resp)) in
      if (status resp =? 429) && negb (retry_after <? 0)
      then with_bucket (bucket t) (mark_rate_limited now retry_after) m else m
  end.

Definition step (s : Client) (e : Event) : option Client :=
  match e with
  | Start r hash gone =>
      match tasks s !! r with
      | None => Some (put r {| bucket := hash; gone := gone; attempt := 0; phase := Arriving |} s)
      | Some _ => None
      end
  | Look r =>
      t ← tasks s !! r;
      match phase t with
      | Arriving => match wait_duration (clock s) (global_bucket (limited s)) with
                    | Some wait => Some (put r (set_phase (GlobalWait (clock s + wait)) t) s)
                    | None => Some (look_bucket r t s)
                    end
      | _ => None
      end
  | Wake r =>
      t ← tasks s !! r;
      match phase t with
      | GlobalWait until => if until <=? clock s then Some (look_bucket r t s) else None
      | BucketWait until => if until <=? clock s then Some (set_queue (queue s ++ [r]) (put r (set_phase Queued t) s)) else None
      | Pausing until _ => if until <=? clock s then Some (put r (next_attempt c t) s) else None
      | _ => None
      end
  | Acquire r =>
      t ← tasks s !! r;
      match phase t, queue s with
      | Queued, r' :: q =>
          if bool_decide (r' = r) && (Z.of_nat (holders s) <? permits c)
          then Some (log_sent r (set_queue q (put r (set_phase Flying t) s))) else None
      | _, _ => None
      end
  | Answer r outcome =>
      t ← tasks s !! r;
      match phase t with
      | Flying =>
          let s := set_limited (limits_after t outcome (clock s) (limited s)) s in
          Some (match verdict t outcome with
                | inl keeps => put r (set_phase (Pausing (clock s + backoff (attempt t)) keeps) t) s
                | inr result => put r (set_phase (Finished result) t) s
                end)
      | _ => None
      end
  | Cancel r =>
      match tasks s !! r with
      | Some t => Some {| tasks := delete r (tasks s); queue := filter (fun q => q <> r) (queue s); limited := limited s;
                          clock := clock s; sent := sent s |}
      | None => None
      end
  | Tick d => if 0 <=? d then Some {| tasks := tasks s; queue := queue s; limited := limited s; clock := clock s + d; sent := sent s |}
              else None
  end.

(** What can come of a client that was just made. *)
Inductive reachable : Client -> Prop :=
| reachable_new now : reachable (new_client now)
| reachable_step s e s' : reachable s -> step s e = Some s' -> reachable s'.

End Machine.
End DiscordQueue.
