(* ===== verification/DiscordQueueProps.v ===== *)
(** * Requests of one Discord client flow

    Of the machine of [DiscordQueue]: permits are never lost or handed out twice, every request
    comes nearer its end with each of its events, and while one is not at its end some request
    can go on; and two runs that show what the limits do not prevent. *)
From S2P Require Import Prelude Crypto ObjectStore Repository Locks Server Data Discord DiscordQueue.

Module DiscordQueueFacts.
Import RateLimit DiscordClient DiscordQueue.

(** ** Counting permits *)

Definition permit (t : Task) : nat := if has_permit t then 1 else 0.
Definition held (m : gmap nat Task) : nat := size (filter (fun p => has_permit p.2 = true) m).
Lemma held_insert m r t : held (<[r := t]> m) = (permit t + held (delete r m))%nat.
Proof.
  unfold held, permit. rewrite <-insert_delete_eq. destruct (has_permit t) eqn:Ht.
  - rewrite map_filter_insert_True by done. rewrite map_size_insert_None; [done|]. rewrite map_filter_delete. apply lookup_delete_eq.
  - rewrite map_filter_insert_False by (simpl; congruence). by rewrite delete_delete_eq.
Qed.
Lemma held_delete m r t : m !! r = Some t -> held m = (permit t + held (delete r m))%nat.
Proof. intros Hr. by rewrite <-held_insert, insert_id. Qed.
Lemma held_some m : (0 < held m)%nat -> exists r t, m !! r = Some t /\ has_permit t = true.
Proof.
  unfold held. intros Hs. destruct (decide (filter (fun p => has_permit p.2 = true) m = ∅)) as [He|(r & t & Hr)%map_choose].
  - rewrite He, map_size_empty in Hs. lia.
  - apply map_lookup_filter_Some in Hr as [Hr Ht]. by exists r, t.
Qed.

(** ** What holds of every state *)

Section Invariant.
Context (c : DiscordClientConfig) (backoff : Z -> Z).

Definition is_queued (t : Task) : bool := match phase t with Queued => true | _ => false end.
Definition unfinished (t : Task) : bool := match phase t with Finished _ => false | _ => true end.
Record ok (s : Client) : Prop := {
  ok_nodup : NoDup (queue s);
  ok_queue : forall r, r ∈ queue s <-> exists t, tasks s !! r = Some t /\ is_queued t = true;
  ok_permits : Z.of_nat (holders s) <= permits c;
  ok_attempt : forall r t, tasks s !! r = Some t -> unfinished t = true -> 0 <= attempt t <= max_attempts (retry c);
}.

Lemma ok_new now : 0 <= max_attempts (retry c) -> ok (new_client now).
Proof.
  intros Hm. split; simpl.
  - constructor.
  - intros r. split; [by intros ?%elem_of_nil|]. intros (t & Ht & _). by rewrite lookup_empty in Ht.
  - unfold holders, permits. cbn [tasks new_client]. rewrite map_filter_empty, map_size_empty. lia.
  - intros r t Ht. by rewrite lookup_empty in Ht.
Qed.

(** A task goes on in a place that is not the queue, with no more permits than there are. *)
Lemma ok_put s r t0 t : ok s -> tasks s !! r = t0 -> (forall t0', t0 = Some t0' -> is_queued t0' = false /\ (permit t <= permit t0')%nat) ->
  (t0 = None -> permit t = O) -> is_queued t = false -> (unfinished t = true -> 0 <= attempt t <= max_attempts (retry c)) -> ok (put r t s).
Proof.
  intros Hs Hr Ht0 Hnone Hq Ha. split; simpl.
  - apply ok_nodup, Hs.
  - intros r'. rewrite (ok_queue _ Hs). destruct (decide (r' = r)) as [->|Hne]; [|by rewrite lookup_insert_ne].
    rewrite lookup_insert_eq, Hr. split; [|naive_solver congruence]. intros (t' & -> & Hq'). destruct (Ht0 t' eq_refl). congruence.
  - pose proof (ok_permits _ Hs) as Hp. unfold holders in *. simpl. fold (held (tasks s)) in Hp. fold (held (<[r := t]> (tasks s))).
    rewrite held_insert. destruct t0 as [t0|].
    + rewrite (held_delete _ _ _ Hr) in Hp. destruct (Ht0 t0 eq_refl). lia.
    + rewrite (Hnone eq_refl). rewrite delete_id in * by done. lia.
  - intros r' t'. destruct (decide (r' = r)) as [->|Hne]; [rewrite lookup_insert_eq; by intros [= <-]|].
    rewrite lookup_insert_ne by done. apply (ok_attempt _ Hs).
Qed.
Lemma ok_enqueue s r t0 t : ok s -> tasks s !! r = Some t0 -> is_queued t0 = false -> unfinished t0 = true -> attempt t = attempt t0 ->
  phase t = Queued -> ok (set_queue (queue s ++ [r]) (put r t s)).
Proof.
  intros Hs Hr Hq Hu Hat Ht. assert (Hnot : r ∉ queue s) by (rewrite (ok_queue _ Hs); naive_solver congruence). split; simpl.
  - apply NoDup_app. split; [apply ok_nodup, Hs|]. split; [set_solver|apply NoDup_singleton].
  - intros r'. rewrite elem_of_app, list_elem_of_singleton, (ok_queue _ Hs). destruct (decide (r' = r)) as [->|Hne].
    + rewrite lookup_insert_eq. unfold is_queued. split; [|by right]. intros _. exists t. by rewrite Ht.
    + rewrite lookup_insert_ne by done. naive_solver.
  - pose proof (ok_permits _ Hs) as Hp. unfold holders in *. simpl. fold (held (tasks s)) in Hp. fold (held (<[r := t]> (tasks s))).
    rewrite held_insert. rewrite (held_delete _ _ _ Hr) in Hp. assert (permit t = O) as -> by (unfold permit, has_permit; by rewrite Ht). lia.
  - intros r' t'. destruct (decide (r' = r)) as [->|Hne]; [rewrite lookup_insert_eq; intros [= <-] _; rewrite Hat; by apply (ok_attempt _ Hs r)|].
    rewrite lookup_insert_ne by done. apply (ok_attempt _ Hs).
Qed.

Lemma ok_acquire s r q t : ok s -> queue s = r :: q -> tasks s !! r = Some t -> phase t = Queued -> Z.of_nat (holders s) < permits c ->
  ok (log_sent r (set_queue q (put r (set_phase Flying t) s))).
Proof.
  intros Hs Hqs Hr Hph Hp. pose proof (ok_nodup _ Hs) as Hnd. rewrite Hqs in Hnd. apply NoDup_cons in Hnd as [Hnot Hnd]. split; simpl.
  - done.
  - intros r'. pose proof (ok_queue _ Hs r') as Hq. rewrite Hqs, elem_of_cons in Hq. destruct (decide (r' = r)) as [->|Hne].
    + rewrite lookup_insert_eq. split; [done|]. by intros (t' & [= <-] & ?).
    + rewrite lookup_insert_ne by done. rewrite <-Hq. naive_solver.
  - unfold holders in *. simpl. fold (held (tasks s)) in Hp. fold (held (<[r := set_phase Flying t]> (tasks s))).
    rewrite held_insert. rewrite (held_delete _ _ _ Hr) in Hp. cbn [permit has_permit set_phase phase]. unfold permit in *. simpl in *. lia.
  - intros r' t'. destruct (decide (r' = r)) as [->|Hne].
    + rewrite lookup_insert_eq. intros [= <-] _. simpl. apply (ok_attempt _ Hs r t Hr). unfold unfinished. by rewrite Hph.
    + rewrite lookup_insert_ne by done. apply (ok_attempt _ Hs).
Qed.
Lemma ok_cancel s r t : ok s -> tasks s !! r = Some t ->
  ok {| tasks := delete r (tasks s); queue := filter (fun q => q <> r) (queue s); limited := limited s; clock := clock s; sent := sent s |}.
Proof.
  intros Hs Hr. split; simpl.
  - apply NoDup_filter, Hs.
  - intros r'. rewrite list_elem_of_filter, (ok_queue _ Hs). destruct (decide (r' = r)) as [->|Hne].
    + rewrite lookup_delete_eq. naive_solver.
    + rewrite lookup_delete_ne by done. naive_solver.
  - pose proof (ok_permits _ Hs) as Hp. unfold holders in *. simpl. fold (held (tasks s)) in Hp. fold (held (delete r (tasks s))).
    rewrite (held_delete _ _ _ Hr) in Hp. lia.
  - intros r' t' [_ Ht']%lookup_delete_Some. by apply (ok_attempt _ Hs r').
Qed.

(** The events a task is moved by, and how many more it can have. *)
Definition moves (e : Event) : option nat := match e with Look r | Wake r | Acquire r | Answer r _ => Some r | _ => None end.
Definition rank (p : Phase) : Z :=
  match p with Arriving => 6 | GlobalWait _ => 5 | BucketWait _ => 4 | Queued => 3 | Flying => 2 | Pausing _ _ => 1 | Finished _ => 0 end.
Definition steps_left (t : Task) : Z := if unfinished t then 7 * (max_attempts (retry c) - attempt t) + rank (phase t) else 0.

Lemma look_bucket_ok s r t : ok s -> tasks s !! r = Some t -> is_queued t = false -> unfinished t = true -> permit t = O ->
  ok (look_bucket r t s).
Proof.
  intros Hs Hr Hq Hu Hpt. unfold look_bucket. destruct (_ ≫= _) as [wait|]; [|by eapply ok_enqueue].
  apply (ok_put s r (Some t)); try done. intros t0 [= <-]. by rewrite Hpt.
  intros _. by apply (ok_attempt _ Hs r t).
Qed.

Lemma step_ok s e s' : 0 <= max_attempts (retry c) -> ok s -> step c backoff s e = Some s' -> ok s'.
Proof.
  intros Hm Hs. destruct e as [r hash g|r|r|r|r outcome|r|d]; simpl.
  - destruct (tasks s !! r) eqn:Hr; [done|]. intros [= <-]. apply (ok_put s r None); try done.
  - destruct (tasks s !! r) as [t|] eqn:Hr; [|done]. simpl. destruct (phase t) eqn:Hph; try done.
    destruct (wait_duration _ _) as [w|]; intros [= <-].
    + apply (ok_put s r (Some t)); try done.
      * intros t0 [= <-]. unfold is_queued, permit, has_permit. rewrite Hph. simpl. split; [done|lia].
      * intros _. apply (ok_attempt _ Hs r t Hr). unfold unfinished. by rewrite Hph.
    + apply look_bucket_ok; try done; unfold is_queued, unfinished, permit, has_permit; by rewrite Hph.
  - destruct (tasks s !! r) as [t|] eqn:Hr; [|done]. simpl. destruct (phase t) as [|u|u| | |u keeps|] eqn:Hph; try done;
      destruct (Z.leb_spec u (clock s)); try done; intros [= <-].
    + apply look_bucket_ok; try done; unfold is_queued, unfinished, permit, has_permit; by rewrite Hph.
    + eapply ok_enqueue; try done; unfold is_queued, unfinished; by rewrite Hph.
    + assert (Ha : 0 <= attempt t <= max_attempts (retry c)) by (apply (ok_attempt _ Hs r t Hr); unfold unfinished; by rewrite Hph).
      unfold next_attempt. cbv zeta. cbn [attempt]. destruct (Z.ltb_spec (max_attempts (retry c)) (attempt t + 1)); apply (ok_put s r (Some t)); try done.
      * intros t0 [= <-]. unfold is_queued, permit, has_permit. rewrite Hph. simpl. split; [done|lia].
      * intros t0 [= <-]. unfold is_queued, permit, has_permit. rewrite Hph. simpl. split; [done|lia].
      * simpl. lia.
  - destruct (tasks s !! r) as [t|] eqn:Hr; [|done]. simpl. destruct (phase t) eqn:Hph; try done. destruct (queue s) as [|r' q] eqn:Hqs; [done|].
    destruct (bool_decide (r' = r) && _) eqn:Hg; [|done]. apply andb_true_iff in Hg as [->%bool_decide_eq_true Hp%Z.ltb_lt]. intros [= <-].
    by apply ok_acquire.
  - destruct (tasks s !! r) as [t|] eqn:Hr; [|done]. simpl. destruct (phase t) eqn:Hph; try done. intros [= <-].
    assert (Hs' : ok (set_limited (limits_after t outcome (clock s) (limited s)) s)) by (destruct Hs; by split).
    destruct (verdict c t outcome) as [keeps|res]; apply (ok_put _ r (Some t)); try done.
    + intros t0 [= <-]. unfold is_queued, permit, has_permit. rewrite Hph. simpl. split; [done|]. destruct keeps; lia.
    + intros _. apply (ok_attempt _ Hs r t Hr). unfold unfinished. by rewrite Hph.
    + intros t0 [= <-]. unfold is_queued, permit, has_permit. rewrite Hph. simpl. split; [done|lia].
  - destruct (tasks s !! r) as [t|] eqn:Hr; [|done]. intros [= <-]. by eapply ok_cancel.
  - destruct (0 <=? d); [|done]. intros [= <-]. destruct Hs; by split.
Qed.

Lemma flow_ok s : 0 <= max_attempts (retry c) -> reachable c backoff s -> ok s.
Proof. intros Hm. induction 1 as [now|s e s' _ IH Hstep]; [by apply ok_new|by eapply step_ok]. Qed.

(** ** Every request ends *)

Lemma steps_left_bound s r t : ok s -> tasks s !! r = Some t -> 0 <= max_attempts (retry c) ->
  0 <= steps_left t <= 7 * max_attempts (retry c) + 6.
Proof.
  intros Hs Hr Hm. unfold steps_left. destruct (unfinished t) eqn:Hu; [|lia]. pose proof (ok_attempt _ Hs r t Hr Hu).
  assert (0 <= rank (phase t) <= 6) by (by destruct (phase t)). lia.
Qed.
Lemma look_bucket_at r t s : exists p, tasks (look_bucket r t s) = <[r := set_phase p t]> (tasks s) /\ rank p <= 4 /\ unfinished (set_phase p t) = true.
Proof. unfold look_bucket. destruct (_ ≫= _) as [w|]; eexists; split; [done| |done|]; split; done. Qed.

(** An event of a task brings it nearer its end and leaves the others where they are. *)
Lemma step_nearer s e r s' : ok s -> moves e = Some r -> step c backoff s e = Some s' ->
  exists t t', tasks s !! r = Some t /\ tasks s' = <[r := t']> (tasks s) /\ steps_left t' < steps_left t.
Proof.
  intros Hs Hm. assert (Hless : forall t t', unfinished t = true -> tasks s !! r = Some t -> attempt t' = attempt t ->
    rank (phase t') < rank (phase t) -> steps_left t' < steps_left t).
  { intros t t' Hu Hr Ha Hrank. pose proof (ok_attempt _ Hs r t Hr Hu). unfold steps_left. rewrite Hu, Ha.
    assert (0 <= rank (phase t')) by (by destruct (phase t')). destruct (unfinished t'); lia. }
  destruct e as [| r'|r'|r'|r' outcome| |]; simplify_eq/=; destruct (tasks s !! r) as [t|] eqn:Hr; simpl; try done.
  - destruct (phase t) eqn:Hph; try done. assert (Hu : unfinished t = true) by (unfold unfinished; by rewrite Hph).
    destruct (wait_duration _ _) as [w|]; intros [= <-].
    + do 2 eexists. split; [done|]. split; [done|]. apply Hless; try done. simpl. rewrite Hph. simpl. lia.
    + destruct (look_bucket_at r t s) as (p & Ht & Hp & _). do 2 eexists. split; [done|]. split; [exact Ht|]. apply Hless; try done. rewrite Hph. simpl. lia.
  - destruct (phase t) as [|u|u| | |u keeps|] eqn:Hph; try done; destruct (Z.leb_spec u (clock s)); try done; intros [= <-];
      assert (Hu : unfinished t = true) by (unfold unfinished; by rewrite Hph).
    + destruct (look_bucket_at r t s) as (p & Ht & Hp & _). do 2 eexists. split; [done|]. split; [exact Ht|]. apply Hless; try done. rewrite Hph. simpl. lia.
    + do 2 eexists. split; [done|]. split; [done|]. apply Hless; try done. simpl. rewrite Hph. simpl. lia.
    + do 2 eexists. split; [done|]. split; [done|]. pose proof (ok_attempt _ Hs r t Hr Hu). unfold next_attempt. cbv zeta. cbn [attempt].
      unfold steps_left. rewrite Hu, Hph. destruct (Z.ltb_spec (max_attempts (retry c)) (attempt t + 1)); simpl; lia.
  - destruct (phase t) eqn:Hph; try done. destruct (queue s) as [|r' q]; [done|]. destruct (_ && _); [|done]. intros [= <-].
    do 2 eexists. split; [done|]. split; [done|]. apply Hless; try done; [unfold unfinished; by rewrite Hph|]. simpl. rewrite Hph. simpl. lia.
  - destruct (phase t) eqn:Hph; try done. intros [= <-]. assert (Hu : unfinished t = true) by (unfold unfinished; by rewrite Hph).
    destruct (verdict c t outcome) as [keeps|res]; (do 2 eexists; split; [done|]; split; [done|]; apply Hless; try done; simpl; rewrite Hph; simpl; lia).
Qed.

(** A task asleep or in flight can go on in time. *)
Definition can_move (s : Client) : Prop :=
  exists d e r s1 s2, step c backoff s (Tick d) = Some s1 /\ moves e = Some r /\ step c backoff s1 e = Some s2.
Lemma can_move_now s e r s' : moves e = Some r -> step c backoff s e = Some s' -> can_move s.
Proof.
  intros Hm Hs. destruct s as [ts q l ck se]. exists 0, e, r. do 2 eexists. split; [done|]. split; [done|]. simpl. rewrite Z.add_0_r. exact Hs.
Qed.
Lemma can_move_later s r t u : tasks s !! r = Some t ->
  match phase t with GlobalWait v | BucketWait v | Pausing v _ => v = u | _ => False end -> can_move s.
Proof.
  intros Hr Hu. assert (Hd : (0 <=? Z.max 0 (u - clock s)) = true) by lia.
  assert (Hle : (u <=? clock s + Z.max 0 (u - clock s)) = true) by lia.
  destruct (phase t) eqn:Hph; try done; subst; exists (Z.max 0 (u - clock s)), (Wake r), r; do 2 eexists;
    (split; [simpl; rewrite Hd; reflexivity|]); (split; [done|]); simpl; rewrite Hr; simpl; rewrite Hph, Hle; reflexivity.
Qed.
Lemma holder_can_move s r t : tasks s !! r = Some t -> has_permit t = true -> can_move s.
Proof.
  intros Hr Hh. unfold has_permit in Hh. destruct (phase t) as [|u|u| | |u []|] eqn:Hph; try done.
  - eapply (can_move_now s (Answer r (Err ""%string)) r); [done|]. simpl. rewrite Hr. simpl. rewrite Hph. done.
  - eapply (can_move_later s r t u Hr). by rewrite Hph.
Qed.
Lemma unfinished_can_move s r t : ok s -> tasks s !! r = Some t -> unfinished t = true -> can_move s.
Proof.
  intros Hs Hr Hu. destruct (phase t) as [|u|u| | |u keeps|] eqn:Hph.
  - destruct (step c backoff s (Look r)) as [s'|] eqn:Hst; [exact (can_move_now s (Look r) r s' eq_refl Hst)|]. simpl in Hst. rewrite Hr in Hst. simpl in Hst.
    rewrite Hph in Hst. by destruct (wait_duration (clock s) (global_bucket (limited s))).
  - eapply (can_move_later s r t u Hr). by rewrite Hph.
  - eapply (can_move_later s r t u Hr). by rewrite Hph.
  - assert (Hin : r ∈ queue s) by (apply (ok_queue _ Hs); exists t; unfold is_queued; by rewrite Hph).
    destruct (queue s) as [|h q] eqn:Hq; [by apply elem_of_nil in Hin|].
    assert (h ∈ queue s) as (th & Hh & Hqh)%(ok_queue _ Hs) by (rewrite Hq; by left).
    destruct (Z.ltb_spec (Z.of_nat (holders s)) (permits c)) as [Hlt|Hge].
    + eapply (can_move_now s (Acquire h) h); [done|]. simpl. rewrite Hh. simpl. unfold is_queued in Hqh. destruct (phase th); try done.
      rewrite Hq, bool_decide_true by done. by rewrite (proj2 (Z.ltb_lt _ _) Hlt).
    + destruct (held_some (tasks s)) as (r' & t' & Hr' & Ht'); [|by eapply holder_can_move].
      unfold holders, permits in Hge. unfold held. lia.
  - eapply (holder_can_move s r t Hr). unfold has_permit. by rewrite Hph.
  - eapply (can_move_later s r t u Hr). by rewrite Hph.
  - unfold unfinished in Hu. by rewrite Hph in Hu.
Qed.

(** C11 The requests of a client flow. However requests come, are answered or cancelled, no more
    than the configured number have a permit; each event of a request brings it nearer its
    end, of which it can have at most seven an attempt, and touches no other; and as long as
    one is not at its end, some request can go on, now or when a pause is over. *)
Theorem requests_flow s :
  0 <= max_attempts (retry c) -> reachable c backoff s ->
  Z.of_nat (holders s) <= permits c /\
  (forall r t, tasks s !! r = Some t -> 0 <= steps_left t <= 7 * max_attempts (retry c) + 6) /\
  (forall e r s', moves e = Some r -> step c backoff s e = Some s' ->
     exists t t', tasks s !! r = Some t /\ tasks s' = <[r := t']> (tasks s) /\ steps_left t' < steps_left t) /\
  ((exists r t, tasks s !! r = Some t /\ unfinished t = true) -> can_move s).
Proof.
  intros Hm Hs%flow_ok; [|done]. split; [by apply ok_permits|]. split; [intros r t Hr; by eapply steps_left_bound|].
  split; [intros e r s'; by apply step_nearer|]. intros (r & t & Hr & Hu). by eapply unfinished_can_move.
Qed.

End Invariant.

(** The limits are recorded as the client that sends one request after another does. *)
Lemma record_headers_eq {D} h hash (s : Conn D) :
  limits (update_ratelimit h hash s).2 = record_headers h hash (time s) (limits s).
Proof. unfold update_ratelimit, on_limits, record_headers. simpl. by destruct (h_global h). Qed.

End DiscordQueueFacts.

(** ** Two runs *)

Module DiscordQueueExample.
Import RateLimit DiscordClient DiscordQueue DiscordQueueFacts.

(** A client with one permit, pauses of a second. *)
Definition config : DiscordClientConfig := with_max_concurrency 1 (new_config "w" "t").
Definition second : Z := 10 ^ 9.
Definition run (es : list Event) : option Client := foldl (fun s e => s ≫= fun s => step config (fun _ => second) s e) (Some (new_client 0)) es.
Definition headers_of (retry_after : option Z) : Headers :=
  {| h_remaining := None; h_reset_after := None; h_reset := None; h_global := false; h_retry_after := retry_after |}.
Definition answer (code : Z) (retry_after : option Z) : Response :=
  {| status := code; headers := headers_of retry_after; json := Err ""%string; payload := Err ""%string; text := "" |}.

Lemma run_reached es s : run es = Some s -> reachable config (fun _ => second) s.
Proof.
  revert s. induction es as [|e es IH] using rev_ind; intros s; unfold run; [intros [= <-]; constructor|].
  rewrite foldl_app. fold (run es). simpl. destruct (run es) as [s0|] eqn:Hes; [|done]. simpl. intros Hs. by eapply reachable_step; [apply IH|].
Qed.

(** Two uploads. The second has looked at the limits and waits for the permit of the first, which
    is answered with 429 and a wait of ten seconds. *)
Definition storm : list Event := [
  Start 0 "webhook_upload" None; Look 0; Acquire 0; Start 1 "webhook_upload" None; Look 1;
  Answer 0 (Ok (answer 429 (Some (10 * second)))); Acquire 1].
(** It is sent at once all the same: the limits are read before the permit is waited for. *)
Theorem sent_while_limited : exists s, run storm = Some s /\ sent s = [(0%nat, 0); (1%nat, 0)] /\
  clock s = 0 /\ (buckets (limited s) !! "webhook_upload"%string ≫= wait_duration (clock s)) = Some (10 * second).
Proof. eexists. split; [vm_compute; reflexivity|]. vm_compute. done. Qed.

(** The first is answered with 503. It keeps its permit while it pauses, so nothing is in
    flight and the second has to wait. *)
Definition outage : list Event := [
  Start 0 "webhook_upload" None; Look 0; Acquire 0; Start 1 "webhook_upload" None; Look 1; Answer 0 (Ok (answer 503 None))].
Theorem pause_keeps_permit : exists s, run outage = Some s /\
  (forall r t, tasks s !! r = Some t -> phase t <> Flying) /\ step config (fun _ => second) s (Acquire 1) = None.
Proof.
  eexists. split; [vm_compute; reflexivity|]. split; [|vm_compute; reflexivity].
  intros r t Ht. apply elem_of_map_to_list in Ht. vm_compute in Ht.
  repeat (apply elem_of_cons in Ht as [Ht|Ht]; [injection Ht as _ ->; discriminate|]). by apply elem_of_nil in Ht.
Qed.

Lemma requests_flow_witness : exists s, run outage = Some s /\ Z.of_nat (holders s) <= permits config /\ can_move config (fun _ => second) s.
Proof.
  destruct (run outage) as [s|] eqn:Hs; [|vm_compute in Hs; discriminate Hs]. exists s. split; [reflexivity|].
  destruct (requests_flow config (fun _ => second) s) as (Hp & _ & _ & Hmove); [vm_compute; discriminate|exact (run_reached outage s Hs)|].
  split; [exact Hp|]. apply Hmove. vm_compute in Hs. injection Hs as <-. exists 1%nat. eexists. split; vm_compute; reflexivity.
Defined.

End DiscordQueueExample.
