(* ===== verification/Config.v ===== *)
(** * Configuration and start

    Models [src/crates/dcfs-server/src/config.rs] (module [ServerConfig]: the environment a
    server is configured by, and what is refused) and the decisions of [main.rs] (module
    [Startup]: which store is used, what the server refuses to start without, the state it
    starts with). Strings are their bytes, in UTF-8. Parsing a socket address is a
    parameter. *)
From Stdlib.Strings Require String.
From S2P Require Import Prelude Crypto ObjectStore Repository Locks Server Data DataSpec Example Auth Discord DiscordProps DiscordUp.

Module ServerConfig.
Import Auth.

(** *** Strings *)

(** The white space of Unicode, as UTF-8. *)
Definition white_space : list bytes :=
  ((fun b => [b]) <$> [x09; x0a; x0b; x0c; x0d; x20]) ++ [[xc2; x85]; [xc2; xa0]; [xe1; x9a; x80]] ++
  ((fun b => [xe2; x80; b]) <$> [x80; x81; x82; x83; x84; x85; x86; x87; x88; x89; x8a; xa8; xa9; xaf]) ++
  [[xe2; x81; x9f]; [xe3; x80; x80]].
(** [trim_start] by the given characters; [n] bounds the steps by the length. *)
Fixpoint strip_all (n : nat) (chars : list bytes) (s : bytes) : bytes :=
  match n, head (omap (fun c => strip_prefix c s) chars) with
  | S n, Some s' => strip_all n chars s'
  | _, _ => s
  end.
Definition trim (s : bytes) : bytes :=
  let s := strip_all (length s) white_space s in
  rev (strip_all (length s) (rev (A := byte) <$> white_space) (rev s)).

Definition digit (b : byte) : option Z :=
  let n := byte_to_Z b in if (48 <=? n) && (n <=? 57) then Some (n - 48) else None.
Definition hex_digit (b : byte) : option Z :=
  let n := byte_to_Z b in
  if (48 <=? n) && (n <=? 57) then Some (n - 48)
  else if (97 <=? n) && (n <=? 102) then Some (n - 87)
  else if (65 <=? n) && (n <=? 70) then Some (n - 55) else None.
Fixpoint number (radix : Z) (digit : byte -> option Z) (s : bytes) (acc : Z) : option Z :=
  match s with [] => Some acc | b :: s' => d ← digit b; number radix digit s' (radix * acc + d) end.
(** [str::parse] and [from_str_radix] of an unsigned type: one plus sign may lead. *)
Definition unsigned (radix : Z) (digit : byte -> option Z) (bound : Z) (s : bytes) : option Z :=
  let digits := match strip_prefix [x2b] s with Some s' => s' | None => s end in
  if bool_decide (digits = []) then None else
  n ← number radix digit digits 0; if n <? bound then Some n else None.
Definition parse_u64 (s : bytes) : option Z := unsigned 10 digit (2 ^ 64) s.
Definition parse_hex_u8 (s : bytes) : option Z := unsigned 16 hex_digit (2 ^ 8) s.

(** Where a string may be cut: not inside a character. *)
Definition char_boundary (s : bytes) (i : Z) : bool :=
  (i =? 0) || (i =? len s) || ((i <? len s) && negb (Z.land (byte_to_Z (getb s i)) 192 =? 128)).
(** [&s[a..b]], which panics off a boundary. *)
Definition str_slice (s : bytes) (a b : Z) : option bytes :=
  if (0 <=? a) && (a <=? b) && char_boundary s a && char_boundary s b then Some (slice s a b) else None.

(** *** Errors *)

(** Why a value is refused, one constructor a message; [raw] is quoted in it. *)
Inductive Reason : Type :=
| TooShort
| PairsExpected
| BothOrNeither
| KeyLength (n : Z)
| NotHex
| Unparsable (raw : bytes)
| BoolExpected (raw : bytes)
| GreaterThanZero
| AtLeastOne
| OverLimit (chunk_size sealed max at_most : Z).
Inductive ConfigError : Type := NotUnicode (var : string) | Invalid (var : string) (reason : Reason).

Record Config (SocketAddr : Type) : Type := {
  database_url : option bytes;
  api_token : option bytes;
  discord_webhook_id : option bytes;
  discord_webhook_token : option bytes;
  discord_webhooks : list (bytes * bytes);
  master_key : option bytes;
  server_addr : SocketAddr;
  database_schema : bytes;
  database_auto_migrate : bool;
  single_instance : bool;
  parallel_chunk_fetches : Z;
  discord_max_concurrency : Z;
  object_store_path : option bytes;
  chunk_size : Z;
  max_attachment_bytes : option Z;
  gc_retention : Z;       (* in seconds *)
}.
Arguments database_url {_}. Arguments api_token {_}. Arguments discord_webhook_id {_}. Arguments discord_webhook_token {_}.
Arguments discord_webhooks {_}. Arguments master_key {_}. Arguments server_addr {_}. Arguments database_schema {_}.
Arguments database_auto_migrate {_}. Arguments single_instance {_}. Arguments parallel_chunk_fetches {_}.
Arguments discord_max_concurrency {_}. Arguments object_store_path {_}. Arguments chunk_size {_}.
Arguments max_attachment_bytes {_}. Arguments gc_retention {_}.

Definition DEFAULT_CHUNK_SIZE : Z := 16 * 1024 * 1024.

(** [env::var]. *)
Inductive EnvVar : Type := NotPresent | NotText | Value (v : bytes).

Section FromEnv.
Context {SocketAddr : Type} (parse_addr : bytes -> option SocketAddr) (loopback : SocketAddr).
Context (env : string -> EnvVar).
Abbreviation R := (result (fault ConfigError)).
Definition invalid {A} (var : string) (reason : Reason) : R A := Err (Fail (Invalid var reason)).

Definition optional_var (var : string) : R (option bytes) :=
  match env var with
  | Value v => if bool_decide (trim v = []) then Ok None else Ok (Some v)
  | NotPresent => Ok None
  | NotText => Err (Fail (NotUnicode var))
  end.
Definition positive_var (var : string) (default_ : Z) : R Z :=
  raw ← optional_var var;
  match raw with
  | None => Ok default_
  | Some raw =>
      match parse_u64 raw with
      | None => invalid var (Unparsable raw)
      | Some n => if n =? 0 then invalid var AtLeastOne else Ok n
      end
  end.
(** The match on [true], [1], [yes] and their opposites. *)
Definition bool_var (var : string) : R bool :=
  raw ← optional_var var;
  match raw with
  | None => Ok false
  | Some raw =>
      if bool_decide (raw ∈ [str "true"; str "1"; str "yes"]) then Ok true
      else if bool_decide (raw ∈ [str "false"; str "0"; str "no"]) then Ok false
      else invalid var (BoolExpected raw)
  end.

(** The loop over [DISCORD_WEBHOOKS], with what was found so far. *)
Fixpoint add_webhooks (entries : list bytes) (known : list (bytes * bytes)) : R (list (bytes * bytes)) :=
  match entries with
  | [] => Ok known
  | entry :: entries =>
      let entry := trim entry in
      if bool_decide (entry = []) then add_webhooks entries known else
      match split_once x3a entry with
      | None => invalid "DISCORD_WEBHOOKS" PairsExpected
      | Some (id, token) =>
          if existsb (fun k => bool_decide (k.1 = id)) known then add_webhooks entries known
          else add_webhooks entries (known ++ [(id, token)])
      end
  end.

(** The key, two digits a byte, from byte [i] on. *)
Fixpoint key_bytes (hex : bytes) (i : nat) (n : nat) : R bytes :=
  match n with
  | O => Ok []
  | S n =>
      match str_slice hex (2 * Z.of_nat i) (2 * Z.of_nat i + 2) with
      | None => Err Panic
      | Some digits =>
          match parse_hex_u8 digits with
          | None => invalid "MASTER_KEY" NotHex
          | Some b => rest ← key_bytes hex (S i) n; Ok (byte_of_Z b :: rest)
          end
      end
  end.
Definition parse_key (hex : bytes) : R bytes :=
  let hex := trim hex in
  if negb (len hex =? 64) then invalid "MASTER_KEY" (KeyLength (len hex)) else key_bytes hex 0 32.

Definition number_var (var : string) (raw : bytes) : R Z :=
  match parse_u64 raw with Some n => Ok n | None => invalid var (Unparsable raw) end.
(** The sum is one of [u64]. *)
Definition attachment_limit (chunk_size : Z) (raw : bytes) : R Z :=
  max ← number_var "MAX_ATTACHMENT_BYTES" raw;
  let sealed := chunk_size +u Crypto.CIPHERTEXT_OVERHEAD in
  if max <? sealed
  then invalid "CHUNK_SIZE" (OverLimit chunk_size sealed max (saturating_sub max Crypto.CIPHERTEXT_OVERHEAD))
  else Ok max.
(** An optional variable and what is made of it. *)
Definition with_var {A} (var : string) (f : bytes -> R A) : R (option A) :=
  raw ← optional_var var; match raw with None => Ok None | Some raw => Some <$> f raw end.

Definition long_enough (token : bytes) : R bytes := if len token <? 16 then invalid "API_TOKEN" TooShort else Ok token.
Definition first_webhook (id token : option bytes) : list (bytes * bytes) :=
  match id, token with Some id, Some token => [(id, token)] | _, _ => [] end.

Definition from_env : R (Config SocketAddr) :=
  database_url ← optional_var "DATABASE_URL";
  api_token ← with_var "API_TOKEN" long_enough;
  id ← optional_var "DISCORD_WEBHOOK_ID";
  token ← optional_var "DISCORD_WEBHOOK_TOKEN";
  more ← optional_var "DISCORD_WEBHOOKS";
  webhooks ← add_webhooks (split_on x2c (default [] more)) (first_webhook id token);
  _ ← (if xorb (bool_decide (is_Some id)) (bool_decide (is_Some token))
       then invalid "DISCORD_WEBHOOK_ID" BothOrNeither else Ok tt);
  master_key ← with_var "MASTER_KEY" parse_key;
  server_addr ← with_var "SERVER_ADDR" (fun raw =>
    match parse_addr raw with Some a => Ok a | None => invalid "SERVER_ADDR" (Unparsable raw) end);
  schema ← optional_var "DATABASE_SCHEMA";
  auto_migrate ← bool_var "DATABASE_AUTO_MIGRATE";
  single ← bool_var "SINGLE_INSTANCE";
  parallel ← positive_var "PARALLEL_CHUNK_FETCHES" 8;
  concurrency ← positive_var "DISCORD_MAX_CONCURRENCY" 4;
  path ← optional_var "OBJECT_STORE_PATH";
  chunk ← with_var "CHUNK_SIZE" (fun raw =>
    n ← number_var "CHUNK_SIZE" raw; if n =? 0 then invalid "CHUNK_SIZE" GreaterThanZero else Ok n);
  let chunk_size := default DEFAULT_CHUNK_SIZE chunk in
  max ← with_var "MAX_ATTACHMENT_BYTES" (attachment_limit chunk_size);
  retention ← with_var "GC_RETENTION_SECS" (number_var "GC_RETENTION_SECS");
  Ok {| database_url := database_url; api_token := api_token; discord_webhook_id := id; discord_webhook_token := token;
        discord_webhooks := webhooks; master_key := master_key; server_addr := default loopback server_addr;
        database_schema := default (str "public") schema; database_auto_migrate := auto_migrate;
        single_instance := single; parallel_chunk_fetches := parallel; discord_max_concurrency := concurrency;
        object_store_path := path; chunk_size := chunk_size; max_attachment_bytes := max;
        gc_retention := default 3600 retention |}.

(** [Debug]: the fields it names, with the value it shows. *)
Inductive Shown : Type :=
| Redacted (present : bool) | Text (t : option bytes) | Number (n : option Z) | Flag (b : bool) | Address (a : SocketAddr).
Definition debug (c : Config SocketAddr) : list (string * Shown) :=
  let hidden {A} (secret : option A) := Redacted (bool_decide (is_Some secret)) in
  [("database_url"%string, hidden (database_url c)); ("api_token"%string, hidden (api_token c));
   ("discord_webhooks"%string, Number (Some (len (discord_webhooks c)))); ("discord_webhook_id"%string, Text (discord_webhook_id c));
   ("discord_webhook_token"%string, hidden (discord_webhook_token c)); ("master_key"%string, hidden (master_key c));
   ("server_addr"%string, Address (server_addr c)); ("database_schema"%string, Text (Some (database_schema c)));
   ("database_auto_migrate"%string, Flag (database_auto_migrate c)); ("object_store_path"%string, Text (object_store_path c));
   ("chunk_size"%string, Number (Some (chunk_size c))); ("max_attachment_bytes"%string, Number (max_attachment_bytes c));
   ("gc_retention"%string, Number (Some (gc_retention c)))].

End FromEnv.
End ServerConfig.

(** ** [main] *)
Module Startup.
Import ServerConfig DiscordClient.

Inductive Backend : Type := Directory (path : bytes) | Webhooks (clients : list DiscordClientConfig).
Inductive Exit : Type :=
| BadConfiguration (e : ConfigError) | Panicked | NoDatabase | NoObjectStore | CannotOpen (path : bytes)
| NoMasterKey | NoApiToken.
(** What the server runs with; times in seconds. *)
Record Running (SocketAddr : Type) : Type := {
  backend : Backend;
  in_memory : bool;       (* the repository *)
  state : AppState.Config;
  retention : Z;
  gc_interval : Z;
  address : SocketAddr;
}.
Arguments backend {_}. Arguments in_memory {_}. Arguments state {_}. Arguments retention {_}. Arguments gc_interval {_}.
Arguments address {_}.

Section Main.
Context {SocketAddr : Type} (parse_addr : bytes -> option SocketAddr) (loopback : SocketAddr).
(** Whether the database can be prepared ([open_postgres]) and a directory opened. *)
Context (opens_database : bytes -> Config SocketAddr -> bool) (opens_directory : bytes -> bool).

Definition as_string (s : bytes) : string := String.string_of_list_byte s.
Definition client_of (concurrency : Z) (w : bytes * bytes) : DiscordClientConfig :=
  with_max_concurrency concurrency (new_config (as_string w.1) (as_string w.2)).
Definition pick_store (c : Config SocketAddr) : result Exit Backend :=
  match discord_webhooks c with
  | [] => match object_store_path c with
          | None => Err NoObjectStore
          | Some path => if opens_directory path then Ok (Directory path) else Err (CannotOpen path)
          end
  | webhooks => Ok (Webhooks (client_of (discord_max_concurrency c) <$> webhooks))
  end.
Definition pick_repository (c : Config SocketAddr) : result Exit bool :=
  match database_url c with
  | Some url => if opens_database url c then Ok false else Err NoDatabase
  | None => Ok true
  end.

Definition main (env : string -> EnvVar) : result Exit (Running SocketAddr) :=
  match from_env parse_addr loopback env with
  | Err (Prelude.Fail e) => Err (BadConfiguration e)
  | Err Panic => Err Panicked
  | Ok c =>
      memory ← pick_repository c;
      store ← pick_store c;
      key ← ok_or (master_key c) NoMasterKey;
      token ← ok_or (api_token c) NoApiToken;
      Ok {| backend := store; in_memory := memory;
            state := AppState.with_api_token (as_string token)
              (AppState.with_parallel_chunk_fetches (parallel_chunk_fetches c) (AppState.new key (chunk_size c)));
            retention := gc_retention c;
            gc_interval := Z.max (Z.min (gc_retention c) 300) 1;
            address := server_addr c |}
  end.

End Main.
End Startup.
