(* ===== verification/ConfigProps.v ===== *)
(** * Configuration: what is accepted

    Proofs about [Config]: what holds of every configuration that is accepted, that sealed
    parts then fit the attachments, that secrets are not shown, and what a server that
    starts can rely on. *)
From Stdlib.Strings Require String.
From S2P Require Import Prelude Crypto ObjectStore Repository Locks Server Data DataSpec Example Auth Discord DiscordProps DiscordUp Config.

Module ConfigFacts.
Import ServerConfig Startup.

Lemma bind_Ok_inv {E A B} (m : result E A) (f : A -> result E B) b :
  m ≫= f = Ok b -> exists a, m = Ok a /\ f a = Ok b.
Proof. destruct m as [a|e]; [|done]. intros Hf. by exists a. Qed.
Ltac inv_binds := repeat match goal with H : _ ≫= _ = Ok _ |- _ =>
  let a := fresh "a" in let Ha := fresh "Ha" in apply bind_Ok_inv in H as (a & Ha & H) end.

(** *** Numbers *)

Lemma number_nonneg radix dig s acc n :
  (forall b d, dig b = Some d -> 0 <= d) -> 0 <= radix -> 0 <= acc -> number radix dig s acc = Some n -> 0 <= n.
Proof.
  intros Hd Hr. revert acc. induction s as [|b s IH]; intros acc Ha; simpl; [by intros [= <-]|].
  destruct (dig b) as [d|] eqn:Hb; [|done]. apply IH. specialize (Hd b d Hb). nia.
Qed.
Lemma unsigned_bounds radix dig bound s n :
  (forall b d, dig b = Some d -> 0 <= d) -> 0 <= radix -> unsigned radix dig bound s = Some n -> 0 <= n < bound.
Proof.
  intros Hd Hr. unfold unsigned. case_bool_decide; [done|]. destruct (number _ _ _ _) as [k|] eqn:Hk; [|done]. simpl.
  destruct (Z.ltb_spec k bound); [|done]. intros [= <-]. split; [|done]. by apply (number_nonneg _ _ _ _ _ Hd Hr (Z.le_refl 0) Hk).
Qed.
Lemma parse_u64_bounds s n : parse_u64 s = Some n -> 0 <= n < 2 ^ 64.
Proof.
  apply unsigned_bounds; [|done]. intros b d. unfold digit. destruct (_ && _) eqn:Hb; [|done].
  apply andb_true_iff in Hb as [Hb _]. apply Z.leb_le in Hb. intros [= <-]. lia.
Qed.
Lemma number_var_bounds var raw n : number_var var raw = Ok n -> 0 <= n < 2 ^ 64.
Proof. unfold number_var. destruct (parse_u64 raw) eqn:Hp; [|done]. intros [= <-]. by eapply parse_u64_bounds. Qed.

Section Env.
Context {SocketAddr : Type} (parse_addr : bytes -> option SocketAddr) (loopback : SocketAddr) (env : string -> EnvVar).
Implicit Types c : Config SocketAddr.

(** *** What is accepted *)

Record valid c : Prop := {
  v_token : forall t, api_token c = Some t -> 16 <= len t;
  v_key : forall k, master_key c = Some k -> len k = 32;
  v_chunk : 0 < chunk_size c < 2 ^ 64;
  v_parallel : 1 <= parallel_chunk_fetches c < 2 ^ 64;
  v_concurrency : 1 <= discord_max_concurrency c < 2 ^ 64;
  v_retention : 0 <= gc_retention c < 2 ^ 64;
  v_webhooks : NoDup (discord_webhooks c).*1;
  v_pair : is_Some (discord_webhook_id c) <-> is_Some (discord_webhook_token c);
  v_first : forall id token, discord_webhook_id c = Some id -> discord_webhook_token c = Some token ->
    head (discord_webhooks c) = Some (id, token);
  v_limit : forall max, max_attachment_bytes c = Some max ->
    chunk_size c +u Crypto.CIPHERTEXT_OVERHEAD <= max < 2 ^ 64;
}.

Lemma with_var_Ok {A} var (f : bytes -> result (fault ConfigError) A) o :
  with_var env var f = Ok o -> forall a, o = Some a -> exists raw, env var = Value raw /\ f raw = Ok a.
Proof.
  unfold with_var. intros Hw a ->. inv_binds. unfold optional_var in Ha. destruct (env var) as [| |raw]; [by simplify_eq/=|done|].
  case_bool_decide; simplify_eq/=. exists raw. split; [done|]. unfold fmap, result_fmap in Hw. destruct (f raw); by simplify_eq/=.
Qed.
Lemma positive_var_Ok var d n : 1 <= d < 2 ^ 64 -> positive_var env var d = Ok n -> 1 <= n < 2 ^ 64.
Proof.
  intros Hd. unfold positive_var. intros H. inv_binds. destruct a as [raw|]; [|by simplify_eq/=].
  destruct (parse_u64 raw) as [k|] eqn:Hp; [|done]. apply parse_u64_bounds in Hp. destruct (Z.eqb_spec k 0); [done|]. simplify_eq/=. lia.
Qed.
Lemma key_bytes_len hex i n k : key_bytes hex i n = Ok k -> len k = Z.of_nat n.
Proof.
  revert i k. induction n as [|n IH]; intros i k; simpl; [by intros [= <-]|].
  destruct (str_slice _ _ _); [|done]. destruct (parse_hex_u8 _); [|done]. intros H. inv_binds. simplify_eq/=.
  rewrite len_cons, (IH _ _ Ha). lia.
Qed.
Lemma parse_key_len hex k : parse_key hex = Ok k -> len k = 32.
Proof. unfold parse_key. destruct (negb _); [done|]. apply key_bytes_len. Qed.

Lemma add_webhooks_Ok entries known l :
  add_webhooks entries known = Ok l -> NoDup known.*1 -> NoDup l.*1 /\ exists more, l = known ++ more.
Proof.
  revert known. induction entries as [|entry entries IH]; intros known; simpl.
  { intros [= <-] Hnd. split; [done|]. exists []. by rewrite app_nil_r. }
  case_bool_decide; [by apply IH|]. destruct (Auth.split_once _ _) as [[id token]|]; [|done].
  destruct (existsb _ known) eqn:Hk; [by apply IH|]. intros Hl Hnd. destruct (IH _ Hl) as [Hnd' [more ->]].
  { rewrite fmap_app. apply NoDup_app. split; [done|]. split; [|apply NoDup_singleton]. intros x Hx ->%list_elem_of_singleton.
    apply not_true_iff_false in Hk. apply Hk, existsb_exists. apply list_elem_of_fmap in Hx as (p & Hp & Hin).
    exists p. split; [by apply list_elem_of_In|]. by rewrite bool_decide_true. }
  split; [done|]. exists ((id, token) :: more). by rewrite <-app_assoc.
Qed.
Lemma attachment_limit_Ok cs raw max :
  attachment_limit cs raw = Ok max -> cs +u Crypto.CIPHERTEXT_OVERHEAD <= max < 2 ^ 64.
Proof.
  unfold attachment_limit. intros H. inv_binds. apply number_var_bounds in Ha. destruct (Z.ltb_spec a (cs +u Crypto.CIPHERTEXT_OVERHEAD)); simplify_eq/=. lia.
Qed.

Lemma from_env_valid c : from_env parse_addr loopback env = Ok c -> valid c.
Proof.
  unfold from_env. intros H. cbv zeta in H. inv_binds. injection H as <-.
  destruct (xorb _ _) eqn:Hx; [done|]. apply xorb_eq in Hx. clear Ha5.
  assert (Hfirst : forall id token, a1 = Some id -> a2 = Some token -> head a4 = Some (id, token)).
  { intros id token -> ->. destruct (add_webhooks_Ok _ _ _ Ha4) as [_ [more ->]]; [apply NoDup_singleton|done]. }
  split; simpl; try done.
  - intros t ->. destruct (with_var_Ok _ _ _ Ha0 t eq_refl) as (raw & _ & Hr). unfold long_enough in Hr. destruct (Z.ltb_spec (len raw) 16); by simplify_eq/=.
  - intros k ->. destruct (with_var_Ok _ _ _ Ha6 k eq_refl) as (raw & _ & Hr). by apply parse_key_len in Hr.
  - destruct a14 as [n|]; [|done]. destruct (with_var_Ok _ _ _ Ha14 n eq_refl) as (raw & _ & Hr).
    apply bind_Ok_inv in Hr as (k & Hk & Hr). apply number_var_bounds in Hk. destruct (Z.eqb_spec k 0); simplify_eq/=. lia.
  - by apply (positive_var_Ok _ 8) in Ha11.
  - by apply (positive_var_Ok _ 4) in Ha12.
  - destruct a16 as [n|]; [|done]. destruct (with_var_Ok _ _ _ Ha16 n eq_refl) as (raw & _ & Hr). by apply number_var_bounds in Hr.
  - apply (add_webhooks_Ok _ _ _ Ha4). destruct a1, a2; simpl; try apply NoDup_nil_2. apply NoDup_singleton.
  - by rewrite <-(bool_decide_eq_true (is_Some a1)), Hx, bool_decide_eq_true.
  - intros max ->. destruct (with_var_Ok _ _ _ Ha15 max eq_refl) as (raw & _ & Hr). by apply attachment_limit_Ok in Hr.
Qed.

(** C26 What is accepted is usable. A configuration that is accepted has a token of at
    least sixteen bytes and a key of exactly thirty-two when it has them, counts that are
    at least one, a part size above zero, webhooks with distinct ids of which the named
    pair is the first, either both halves of that pair or neither, and, when a limit is
    set, a part size that was checked against it. *)
Theorem accepted_config_valid c : from_env parse_addr loopback env = Ok c -> valid c.
Proof. apply from_env_valid. Qed.

Lemma sealed_fits c max (p : bytes) :
  valid c -> max_attachment_bytes c = Some max -> chunk_size c <= 16 * 1024 * 1024 -> len p <= chunk_size c ->
  len p + Crypto.ciphertext_overhead (len p) <= max.
Proof.
  intros Hv Hmax Hle Hp. pose proof (v_limit _ Hv max Hmax) as [Hlim _]. pose proof (v_chunk _ Hv). pose proof (len_nonneg p).
  assert (Crypto.CIPHERTEXT_OVERHEAD = Crypto.ciphertext_overhead (16 * 1024 * 1024)) as Heq by (vm_compute; reflexivity).
  pose proof (CryptoFacts.overhead_mono (len p) (16 * 1024 * 1024)). assert (0 <= Crypto.CIPHERTEXT_OVERHEAD < 2 ^ 32) by (vm_compute; done).
  rewrite wadd_id in Hlim by lia. lia.
Qed.

(** Sealed parts fit. With a limit on attachments set and parts of up to 16 MiB, what
    sealing a part makes is never larger than the limit. *)
Theorem accepted_parts_fit `{AeadLaws} c max k key o p e :
  from_env parse_addr loopback env = Ok c -> max_attachment_bytes c = Some max -> chunk_size c <= 16 * 1024 * 1024 ->
  len p <= chunk_size c -> Crypto.seal k key o p = Ok e -> len (Crypto.ciphertext e) <= max.
Proof.
  intros Hc%from_env_valid Hmax Hle Hp He. pose proof (v_chunk _ Hc).
  rewrite (CryptoFacts.len_seal _ _ _ _ _ He) by lia. by apply (sealed_fits c).
Qed.

(** *** Secrets *)

(** The variables whose value may be quoted, and the value a reason quotes. *)
Definition public_vars : list string :=
  ["SERVER_ADDR"; "DATABASE_AUTO_MIGRATE"; "SINGLE_INSTANCE"; "PARALLEL_CHUNK_FETCHES"; "DISCORD_MAX_CONCURRENCY";
   "CHUNK_SIZE"; "MAX_ATTACHMENT_BYTES"; "GC_RETENTION_SECS"]%string.
Definition quoted (r : Reason) : option bytes :=
  match r with Unparsable raw | BoolExpected raw => Some raw | _ => None end.
(** The error of a step quotes a public variable's own value, if any. *)
Definition discreet {A} (m : result (fault ConfigError) A) : Prop :=
  forall var reason raw, m = Err (Fail (Invalid var reason)) -> quoted reason = Some raw ->
    var ∈ public_vars /\ env var = Value raw.

Lemma discreet_bind {A B} (m : result (fault ConfigError) A) (f : A -> result (fault ConfigError) B) :
  discreet m -> (forall a, m = Ok a -> discreet (f a)) -> discreet (m ≫= f).
Proof. intros Hm Hf. destruct m as [a|e]; simpl; [by apply Hf|]. intros var reason raw [= ->]. by apply Hm. Qed.
Lemma discreet_silent {A} (m : result (fault ConfigError) A) :
  (forall var reason, m = Err (Fail (Invalid var reason)) -> quoted reason = None) -> discreet m.
Proof. intros Hm var reason raw He. by rewrite (Hm _ _ He). Qed.
Lemma optional_silent var : discreet (optional_var env var).
Proof. apply discreet_silent. intros v r. unfold optional_var. destruct (env var); [done|done|]. by case_bool_decide. Qed.
Lemma optional_Some var raw : optional_var env var = Ok (Some raw) -> env var = Value raw.
Proof. unfold optional_var. destruct (env var); [done|done|]. case_bool_decide; [done|]. by intros [= ->]. Qed.
Lemma with_var_discreet {A} var (f : bytes -> result (fault ConfigError) A) :
  (forall raw, env var = Value raw -> discreet (f raw)) -> discreet (with_var env var f).
Proof.
  intros Hf. apply discreet_bind; [apply optional_silent|]. intros [raw|] Hraw; [|done]. apply optional_Some in Hraw.
  specialize (Hf raw Hraw). intros v r q. unfold fmap, result_fmap. destruct (f raw) as [a|e]; [done|]. intros [= ->]. by apply Hf.
Qed.
Lemma quoting {A} var raw reason : var ∈ public_vars -> env var = Value raw -> quoted reason = Some raw ->
  discreet (invalid (A := A) var reason).
Proof. intros Hp Hv Hq v r q [= <- <-]. rewrite Hq. by intros [= <-]. Qed.
Lemma number_var_discreet var raw : var ∈ public_vars -> env var = Value raw -> discreet (number_var var raw).
Proof. intros Hp Hv. unfold number_var. destruct (parse_u64 raw); [done|]. by apply (quoting _ raw). Qed.
Lemma positive_var_discreet var d : var ∈ public_vars -> discreet (positive_var env var d).
Proof.
  intros Hp. apply discreet_bind; [apply optional_silent|]. intros [raw|] Hraw; [|done]. apply optional_Some in Hraw.
  destruct (parse_u64 raw) as [n|]; [|by apply (quoting _ raw)]. destruct (n =? 0); [by apply discreet_silent; intros v r [= <- <-]|done].
Qed.
Lemma bool_var_discreet var : var ∈ public_vars -> discreet (bool_var env var).
Proof.
  intros Hp. apply discreet_bind; [apply optional_silent|]. intros [raw|] Hraw; [|done]. apply optional_Some in Hraw.
  do 2 (case_bool_decide; [done|]). by apply (quoting _ raw).
Qed.
Lemma add_webhooks_silent entries known : discreet (add_webhooks entries known).
Proof.
  apply discreet_silent. revert known. induction entries as [|entry entries IH]; intros known v r; simpl; [done|].
  case_bool_decide; [apply IH|]. destruct (Auth.split_once _ _) as [[]|]; [|by intros [= <- <-]]. destruct (existsb _ _); apply IH.
Qed.
Lemma parse_key_silent hex : discreet (parse_key hex).
Proof.
  apply discreet_silent. unfold parse_key. destruct (negb _); [by intros v r [= <- <-]|]. generalize 0%nat as i, 32%nat as n.
  intros i n. revert i. induction n as [|n IH]; intros i v r; simpl; [done|]. destruct (str_slice _ _ _); [|done].
  destruct (parse_hex_u8 _); [|by intros [= <- <-]]. specialize (IH (S i) v r). destruct (key_bytes _ _ _); [done|].
  intros [= ->]. by apply IH.
Qed.

Lemma from_env_discreet : discreet (from_env parse_addr loopback env).
Proof.
  assert (Hin : forall var, bool_decide (var ∈ public_vars) = true -> var ∈ public_vars) by (by intros ? ?%bool_decide_eq_true).
  unfold from_env. cbv zeta.
  repeat (apply discreet_bind; [first
    [ apply optional_silent | apply add_webhooks_silent | apply bool_var_discreet, Hin; reflexivity
    | apply positive_var_discreet, Hin; reflexivity | apply with_var_discreet; intros raw Hraw | idtac ] | intros ? _ ]);
  try done.
  - unfold long_enough. destruct (_ <? _); [by apply discreet_silent; intros v r [= <- <-]|done].
  - destruct (xorb _ _); [by apply discreet_silent; intros v r [= <- <-]|done].
  - apply parse_key_silent.
  - destruct (parse_addr raw); [done|]. by apply (quoting _ raw); [apply Hin| |].
  - by apply number_var_discreet; [apply Hin|].
  - destruct (_ =? 0); [by apply discreet_silent; intros v r [= <- <-]|done].
  - by apply number_var_discreet; [apply Hin|].
  - cbv beta zeta. destruct (_ <? _); [by apply discreet_silent; intros v r [= <- <-]|done].
  - by apply number_var_discreet; [apply Hin|].
Qed.

(** Two configurations that differ in what their secrets are, and in nothing else. *)
Record same_but_secrets c1 c2 : Prop := {
  ss_url : is_Some (database_url c1) <-> is_Some (database_url c2);
  ss_token : is_Some (api_token c1) <-> is_Some (api_token c2);
  ss_hook : is_Some (discord_webhook_token c1) <-> is_Some (discord_webhook_token c2);
  ss_key : is_Some (master_key c1) <-> is_Some (master_key c2);
  ss_hooks : (discord_webhooks c1).*1 = (discord_webhooks c2).*1;
  ss_rest : discord_webhook_id c1 = discord_webhook_id c2 /\ server_addr c1 = server_addr c2 /\
    database_schema c1 = database_schema c2 /\ database_auto_migrate c1 = database_auto_migrate c2 /\
    object_store_path c1 = object_store_path c2 /\ chunk_size c1 = chunk_size c2 /\
    max_attachment_bytes c1 = max_attachment_bytes c2 /\ gc_retention c1 = gc_retention c2;
}.

(** Secrets are not shown. The error of a refused configuration quotes a value only of
    a variable that holds no secret, and what the configuration prints of itself does not
    depend on what its secrets are. *)
Theorem secrets_are_not_shown :
  (forall var reason raw, from_env parse_addr loopback env = Err (Fail (Invalid var reason)) ->
     quoted reason = Some raw -> var ∈ public_vars /\ env var = Value raw) /\
  (forall c1 c2, same_but_secrets c1 c2 -> debug c1 = debug c2).
Proof.
  split; [exact from_env_discreet|].
  intros c1 c2 [Hurl Htoken Hhook Hkey Hhooks (Hid & Haddr & Hschema & Hmig & Hpath & Hcs & Hmax & Hret)].
  assert (Hlen : len (discord_webhooks c1) = len (discord_webhooks c2)).
  { unfold len. by rewrite <-(length_fmap fst), Hhooks, length_fmap. }
  unfold debug. rewrite Hid, Haddr, Hschema, Hmig, Hpath, Hcs, Hmax, Hret, Hlen.
  by rewrite (bool_decide_ext _ _ Hurl), (bool_decide_ext _ _ Htoken), (bool_decide_ext _ _ Hhook), (bool_decide_ext _ _ Hkey).
Qed.

(** *** Starting *)

Context (opens_database : bytes -> Config SocketAddr -> bool) (opens_directory : bytes -> bool).

Lemma byte_string_inj (a b : bytes) : as_string a = as_string b -> a = b.
Proof.
  intros H. rewrite <-(String.list_byte_of_string_of_list_byte a), <-(String.list_byte_of_string_of_list_byte b).
  unfold as_string in H. by rewrite H.
Qed.
Lemma client_ids n webhooks :
  NoDup webhooks.*1 -> NoDup (DiscordClient.webhook_id <$> (client_of n <$> webhooks)).
Proof.
  intros Hnd. rewrite <-list_fmap_compose. change (DiscordClient.webhook_id ∘ client_of n) with (as_string ∘ (fst : bytes * bytes -> bytes)).
  rewrite list_fmap_compose. apply NoDup_fmap_2; [|done]. intros a b. apply byte_string_inj.
Qed.

(** The server starts closed. A server that runs has a key of thirty-two bytes and asks
    for a token; it keeps its objects where they outlive it, in a directory or on Discord
    with at least one webhook, each its own and patient enough to send a request at all;
    it fetches at least one part at a time and collects garbage between once a second and
    once in five minutes. When its parts are at most 16 MiB and the limit it was given is
    one that Discord keeps, its parts fit the store. *)
Theorem running_server_is_ready run :
  main parse_addr loopback opens_database opens_directory env = Ok run ->
  len (AppState.key (state run)) = 32 /\ is_Some (AppState.api_token (state run)) /\
  1 <= AppState.parallel_chunk_fetches (state run) /\ 1 <= gc_interval run <= 300 /\
  (match backend run with
   | Directory path => opens_directory path = true
   | Webhooks clients => clients <> [] /\ NoDup (DiscordClient.webhook_id <$> clients) /\
       forall client, client ∈ clients -> 0 <= DiscordClient.max_attempts (DiscordClient.retry client)
   end) /\
  (forall c max (limit : Store.StoreLimit), from_env parse_addr loopback env = Ok c -> max_attachment_bytes c = Some max ->
     max <= limit -> chunk_size c <= 16 * 1024 * 1024 -> Spec.chunk_fits (AppState.chunk_size (state run))).
Proof.
  unfold main. destruct (from_env _ _ _) as [c|[e|]] eqn:Hc; [|done|done]. intros Hrun.
  apply bind_Ok_inv in Hrun as (mem & _ & Hrun). apply bind_Ok_inv in Hrun as (store & Hstore & Hrun).
  apply bind_Ok_inv in Hrun as (key & Hkey & Hrun). apply bind_Ok_inv in Hrun as (token & Htoken & Hrun). injection Hrun as <-.
  pose proof (from_env_valid c Hc) as Hv. destruct (master_key c) as [k|] eqn:Hk; [|done]. injection Hkey as <-. simpl.
  split; [by apply (v_key _ Hv)|]. split; [done|]. split; [lia|]. split; [lia|]. split.
  - unfold pick_store in Hstore. destruct (discord_webhooks c) as [|w ws] eqn:Hw.
    + destruct (object_store_path c) as [path|]; [|done]. destruct (opens_directory path) eqn:Ho; [|done]. by injection Hstore as <-.
    + injection Hstore as <-. split; [done|]. split.
      * apply (client_ids (discord_max_concurrency c) (w :: ws)). rewrite <-Hw. apply (v_webhooks _ Hv).
      * intros cl Hcl. change (cl ∈ client_of (discord_max_concurrency c) <$> (w :: ws)) in Hcl.
        apply list_elem_of_fmap in Hcl as (p & -> & _). simpl. lia.
  - intros c' max limit [= <-] Hmax Hlim Hle. pose proof (v_chunk _ Hv). split; [lia|].
    pose proof (sealed_fits c max (zeroes (chunk_size c)) Hv Hmax Hle) as Hfit. rewrite len_zeroes, Z.max_r in Hfit by lia.
    specialize (Hfit ltac:(lia)). unfold Store.max_object. lia.
Qed.

End Env.

(** *** Witnesses *)

(** An environment, of the variables that are set. *)
Definition setting (vars : list (string * string)) (var : string) : EnvVar :=
  match list_find (fun v => v.1 = var) vars with Some (_, (_, v)) => Value (Auth.str v) | None => NotPresent end.
Definition deployment : list (string * string) :=
  [("API_TOKEN", "0123456789abcdef"); ("DISCORD_WEBHOOKS", " 1:aa, 2:bb ,1:cc"); ("CHUNK_SIZE", "4096");
   ("MAX_ATTACHMENT_BYTES", "10000");
   ("MASTER_KEY", "000102030405060708090a0b0c0d0e0f000102030405060708090A0B0C0D0E0F ")]%string.
Definition no_addr (_ : bytes) : option unit := None.
Definition accepted (vars : list (string * string)) : result (fault ConfigError) (Config unit) := from_env no_addr tt (setting vars).

Lemma accepted_config_valid_witness : exists c, accepted deployment = Ok c /\ valid c /\ discord_webhooks c = [(Auth.str "1", Auth.str "aa"); (Auth.str "2", Auth.str "bb")].
Proof.
  destruct (accepted deployment) as [c|e] eqn:Hc; [|vm_compute in Hc; discriminate Hc].
  exists c. split; [reflexivity|]. split; [exact (accepted_config_valid no_addr tt (setting deployment) c Hc)|].
  vm_compute in Hc. injection Hc as <-. reflexivity.
Defined.

Import Example.
Lemma accepted_parts_fit_witness : exists e, Crypto.seal "k" (zeroes 32) 9%N (text "part") = Ok e /\ len (Crypto.ciphertext e) <= 10000.
Proof.
  destruct (accepted deployment) as [c|err] eqn:Hc; [|vm_compute in Hc; discriminate Hc].
  assert (Hmax : max_attachment_bytes c = Some 10000) by (vm_compute in Hc; injection Hc as <-; reflexivity).
  assert (Hcs : chunk_size c = 4096) by (vm_compute in Hc; injection Hc as <-; reflexivity).
  destruct (Crypto.seal "k" (zeroes 32) 9%N (text "part")) as [e|err] eqn:He; [|vm_compute in He; discriminate He].
  exists e. split; [reflexivity|].
  apply (accepted_parts_fit no_addr tt (setting deployment) c 10000 "k"%string (zeroes 32) 9%N (text "part") e Hc Hmax);
    [lia|rewrite Hcs; vm_compute; discriminate|exact He].
Defined.

Lemma running_server_is_ready_witness : exists run,
  main no_addr tt (fun _ _ => true) (fun _ => true) (setting deployment) = Ok run /\ len (AppState.key (state run)) = 32 /\
  Spec.chunk_fits (H0 := 10000) (AppState.chunk_size (state run)).
Proof.
  destruct (main no_addr tt (fun _ _ => true) (fun _ => true) (setting deployment)) as [run|e] eqn:Hrun; [|vm_compute in Hrun; discriminate Hrun].
  destruct (running_server_is_ready no_addr tt (setting deployment) (fun _ _ => true) (fun _ => true) run Hrun)
    as (Hkey & _ & _ & _ & _ & Hfits).
  exists run. split; [reflexivity|]. split; [exact Hkey|].
  destruct (accepted deployment) as [c|err] eqn:Hc; [|vm_compute in Hc; discriminate Hc].
  apply (Hfits c 10000 10000 Hc); vm_compute in Hc; injection Hc as <-; [reflexivity|lia|vm_compute; discriminate].
Defined.

(** *** What the check on the part size lets through *)

(** The overhead it adds is that of 16 MiB: a larger part that passes may seal to more than
    the limit. *)
Definition large_parts : list (string * string) :=
  [("CHUNK_SIZE", "33554432"); ("MAX_ATTACHMENT_BYTES", "33555464")]%string.
Lemma large_part_over_limit : exists c, accepted large_parts = Ok c /\ max_attachment_bytes c = Some 33555464 /\
  33555464 < chunk_size c + Crypto.ciphertext_overhead (chunk_size c).
Proof. eexists. split; [vm_compute; reflexivity|]. split; vm_compute; reflexivity. Qed.

(** The sum wraps: a part size near the largest number passes any limit. *)
Lemma huge_part_accepted : exists c, accepted [("CHUNK_SIZE", "18446744073709551615"); ("MAX_ATTACHMENT_BYTES", "8192")]%string = Ok c /\
  chunk_size c = 2 ^ 64 - 1 /\ max_attachment_bytes c = Some 8192.
Proof. eexists. split; [vm_compute; reflexivity|]. split; vm_compute; reflexivity. Qed.

(** A key that is not hex all through is accepted: a pair of digits may be a sign and one
    digit. *)
Lemma signed_key_accepted : exists c,
  accepted [("MASTER_KEY", "+1+2+3+4+5+6+7+8+9+a+b+c+d+e+f+0+1+2+3+4+5+6+7+8+9+a+b+c+d+e+f+0")]%string = Ok c /\ is_Some (master_key c).
Proof. eexists. split; [vm_compute; reflexivity|]. by eexists. Qed.

(** A value of 64 bytes with a character in it that takes two, across a cut, stops the
    server with a panic. *)
Lemma wide_key_panics :
  parse_key (x30 :: xc3 :: xa9 :: zeroes 0 ++ repeat x30 61) = Err Panic.
Proof. vm_compute. reflexivity. Qed.

(** The errors of the public variables quote the value they refuse. *)
Lemma refused_value_is_quoted :
  accepted [("CHUNK_SIZE", "16M")]%string = Err (Fail (Invalid "CHUNK_SIZE" (Unparsable (Auth.str "16M")))).
Proof. vm_compute. reflexivity. Qed.

(** A part of the default size grows by more than a thousand bytes when it is sealed. *)
Lemma default_part_overhead : Crypto.ciphertext_overhead DEFAULT_CHUNK_SIZE = 1032.
Proof. vm_compute. reflexivity. Qed.

(** With the default retention of an hour the garbage is collected every five minutes. *)
Lemma collects_within_retention : exists run,
  main no_addr tt (fun _ _ => true) (fun _ => true) (setting deployment) = Ok run /\ retention run = 3600 /\ gc_interval run = 300.
Proof. eexists. split; [vm_compute; reflexivity|]. split; vm_compute; reflexivity. Qed.

End ConfigFacts.
