(* ===== verification/FuseMain.v ===== *)
(** * The mount program

    Models [src/crates/dcfs-fuse/src/main.rs]: its command line and environment, and [run],
    which opens the block cache and the write log, resolves the root, replays what an earlier
    run left and only then mounts. [BlockCache::open], [BlockCache::discard] of
    [blockcache.rs] and [WriteLog::open] of [writelog.rs] act on the directories of the host.

    A directory of the host holds the files of a block cache and of a write log; it is known by
    its path, of which trailing separators and [.] are no part. *)
From Stdlib.Strings Require String.
From S2P Require Import Prelude Core Crypto ObjectStore Repository Locks Server Nodes BlockCache WriteLog Mount Auth Discord Config.

Module FuseMain.
Import Auth BlockCache Journal Client Mount.
Import ServerConfig (EnvVar, NotPresent, NotText, Value, parse_u64).

(** ** Paths *)

Definition SEP : byte := x2f.
Definition DOT : byte := x2e.
(** Without trailing separators and [.] components, on the reversed path. *)
Fixpoint strip (r : bytes) : bytes :=
  match r with
  | x2f :: r' => strip r'
  | x2e :: (x2f :: r'') as r' => strip r'
  | _ => r
  end.
Definition normal (path : bytes) : bytes := rev (strip (rev path)).
(** The reversed last component and what comes before it. *)
Fixpoint last_component (r : bytes) : bytes * bytes :=
  match r with
  | [] => ([], [])
  | b :: r' => if bool_decide (b = SEP) then ([], r) else let '(c, before) := last_component r' in (b :: c, before)
  end.
(** [file_stem], of a reversed file name: up to its last dot, unless that is its first byte. *)
Fixpoint after_dot (r : bytes) : option bytes :=
  match r with
  | [] => None
  | b :: r' => if bool_decide (b = DOT) then Some r' else after_dot r'
  end.
Definition stem (name : bytes) : bytes :=
  match after_dot name with Some [] | None => name | Some s => s end.
Definition with_extension (path ext : bytes) : bytes :=
  let '(name, before) := last_component (strip (rev path)) in
  if bool_decide (name ∈ [[]; [DOT]; [DOT; DOT]]) then path
  else rev before ++ rev (stem name) ++ [DOT] ++ ext.

(** ** The command line *)

(** Exit code 2 with a message, or the help text. *)
Inductive Stop : Type := Fail_ (message : string) | Help.
Record Args : Type := {
  mountpoint : option bytes; mode : bytes; cache_dir : option bytes; cache_size : option bytes; server : bytes;
  allow_other : bool; read_only : bool;
}.
Record Options : Type := {
  o_mountpoint : bytes; o_server : bytes; o_token : option bytes; o_mode : Mode; o_cache_dir : bytes;
  o_allow_other : bool; o_read_only : bool;
}.

Section Args.
Context (env : string -> EnvVar).
(** [std::env::var(...).ok()]. *)
Definition var_ok (var : string) : option bytes :=
  match env var with Value v => Some v | NotPresent | NotText => None end.
Definition defaults : Args :=
  {| mountpoint := None; mode := default (str "stream") (var_ok "DCFS_MODE"); cache_dir := var_ok "DCFS_CACHE_DIR";
     cache_size := var_ok "DCFS_CACHE_SIZE"; server := default (str "http://127.0.0.1:8080") (var_ok "DCFS_SERVER");
     allow_other := false; read_only := false |}.

Definition starts_with_dash (arg : bytes) : bool := match arg with x2d :: _ => true | _ => false end.
Definition with_value (args : list bytes) (missing : string) (k : bytes -> list bytes -> result Stop Args) : result Stop Args :=
  match args with value :: rest => k value rest | [] => Err (Fail_ missing) end.

(** The loop over the arguments; an option takes its value from the front of the rest, so
    there is one step per argument. *)
Fixpoint parse (fuel : nat) (args : list bytes) (a : Args) : result Stop Args :=
  match fuel, args with
  | _, [] => Ok a
  | O, _ => Err (Fail_ "out of fuel")
  | S fuel, arg :: rest =>
      if bool_decide (arg = str "--server") then with_value rest "--server needs a URL" (fun v rest =>
        parse fuel rest {| mountpoint := mountpoint a; mode := mode a; cache_dir := cache_dir a; cache_size := cache_size a;
                           server := v; allow_other := allow_other a; read_only := read_only a |})
      else if bool_decide (arg = str "--mode") then with_value rest "--mode needs stream or mirror" (fun v rest =>
        parse fuel rest {| mountpoint := mountpoint a; mode := v; cache_dir := cache_dir a; cache_size := cache_size a;
                           server := server a; allow_other := allow_other a; read_only := read_only a |})
      else if bool_decide (arg = str "--cache-dir") then with_value rest "--cache-dir needs a path" (fun v rest =>
        parse fuel rest {| mountpoint := mountpoint a; mode := mode a; cache_dir := Some v; cache_size := cache_size a;
                           server := server a; allow_other := allow_other a; read_only := read_only a |})
      else if bool_decide (arg = str "--cache-size") then with_value rest "--cache-size needs a byte count" (fun v rest =>
        parse fuel rest {| mountpoint := mountpoint a; mode := mode a; cache_dir := cache_dir a; cache_size := Some v;
                           server := server a; allow_other := allow_other a; read_only := read_only a |})
      else if bool_decide (arg = str "--allow-other") then
        parse fuel rest {| mountpoint := mountpoint a; mode := mode a; cache_dir := cache_dir a; cache_size := cache_size a;
                           server := server a; allow_other := true; read_only := read_only a |}
      else if bool_decide (arg = str "--read-only") || bool_decide (arg = str "-r") then
        parse fuel rest {| mountpoint := mountpoint a; mode := mode a; cache_dir := cache_dir a; cache_size := cache_size a;
                           server := server a; allow_other := allow_other a; read_only := true |}
      else if bool_decide (arg = str "-h") || bool_decide (arg = str "--help") then Err Help
      else if starts_with_dash arg then Err (Fail_ "unknown option")
      else
        parse fuel rest {| mountpoint := Some arg; mode := mode a; cache_dir := cache_dir a; cache_size := cache_size a;
                           server := server a; allow_other := allow_other a; read_only := read_only a |}
  end.

Definition budget (raw : option bytes) : result Stop Z :=
  match raw with
  | None => Ok (1024 * 1024 * 1024)
  | Some raw =>
      match parse_u64 raw with
      | None => Err (Fail_ "--cache-size must be a positive byte count")
      | Some value => if value =? 0 then Err (Fail_ "--cache-size must be a positive byte count") else Ok value
      end
  end.
Definition mode_of (name : bytes) (size : Z) : result Stop Mode :=
  if bool_decide (name = str "stream") then Ok (Stream size)
  else if bool_decide (name = str "mirror") then Ok Mirror
  else Err (Fail_ "unknown mode: expected stream or mirror").
(** [temp_dir().join(format!("dcfs-cache-{}", process::id()))], with the number as text. *)
Definition default_cache_dir (temp_dir pid : bytes) : bytes := temp_dir ++ [SEP] ++ str "dcfs-cache-" ++ pid.

(** [main] up to [run]. *)
Definition options (temp_dir pid : bytes) (args : list bytes) : result Stop Options :=
  match parse (length args) args defaults with
  | Err e => Err e
  | Ok a =>
      match mountpoint a with
      | None => Err (Fail_ "no mountpoint given; try --help")
      | Some at_ =>
          match budget (cache_size a) with
          | Err e => Err e
          | Ok size =>
              match mode_of (mode a) size with
              | Err e => Err e
              | Ok m =>
                  Ok {| o_mountpoint := at_; o_server := server a; o_token := var_ok "DCFS_TOKEN"; o_mode := m;
                        o_cache_dir := default (default_cache_dir temp_dir pid) (cache_dir a);
                        o_allow_other := allow_other a; o_read_only := read_only a |}
              end
          end
      end
  end.
End Args.

(** ** The host's directories *)

Record Folder : Type := { block_files : gmap Key bytes; log_files : Dir }.
Definition empty_folder : Folder :=
  {| block_files := ∅; log_files := {| files := ∅; journal := None; tail := Ended; io := 0 |} |}.

Abbreviation Host := (gmap bytes Folder).

Section Run.
(** Directories that cannot be removed or made, and what stays of one whose removal fails. *)
Context (cannot_remove cannot_create : bytes -> bool) (remains : Folder -> Folder).

Definition remove_dir_all (dir : bytes) (h : Host) : result unit unit * Host :=
  if cannot_remove (normal dir) then (Err tt, alter remains (normal dir) h) else (Ok tt, delete (normal dir) h).
Definition create_dir_all (dir : bytes) (h : Host) : result unit unit * Host :=
  if cannot_create (normal dir) then (Err tt, h)
  else (Ok tt, match h !! normal dir with Some _ => h | None => <[normal dir := empty_folder]> h end).

(** [BlockCache::open]. *)
Definition open_cache (dir : bytes) (h : Host) : result unit Cache * Host :=
  let '(removed, h) := match h !! normal dir with Some _ => remove_dir_all dir h | None => (Ok tt, h) end in
  match removed with
  | Err _ => (Err tt, h)
  | Ok _ => match create_dir_all dir h with (Ok _, h) => (Ok BlockCache.new, h) | (Err _, h) => (Err tt, h) end
  end.
(** [BlockCache::discard]. *)
Definition discard (dir : bytes) (h : Host) : Host := (remove_dir_all dir h).2.
(** [WriteLog::open]. *)
Definition open_log (dir : bytes) (h : Host) : result unit Dir * Host :=
  match create_dir_all dir h with
  | (Ok _, h) => (Ok (match h !! normal dir with Some f => log_files f | None => log_files empty_folder end), h)
  | (Err _, h) => (Err tt, h)
  end.

Definition log_dir (cache_dir : bytes) : bytes := with_extension cache_dir (str "writes").

(** ** [run] *)

Inductive MountOption : Type := FSName (name : string) | Subtype (name : string) | NoAtime | AllowOther | RO | RW.
Definition mount_options (o : Options) : list MountOption :=
  [FSName "dcfs"; Subtype "dcfs"; NoAtime] ++ (if o_allow_other o then [AllowOther] else []) ++
  [if o_read_only o then RO else RW].

Context {S : Type} `{ServerClient S} (log_faults : nat -> option nat).

(** What [fuser::mount2] is called with, and whether the tree is being mirrored meanwhile. *)
Inductive Started : Type :=
| Refused (message : string)
| Serving (w : World (S := S)) (mount : list MountOption) (mirroring : bool).

Definition run (o : Options) (us : nat -> Uuid) (h : Host) (s : S) : Started * Host :=
  match open_cache (o_cache_dir o) h with
  | (Err _, h) => (Refused "cannot open the cache directory", h)
  | (Ok c, h) =>
      match open_log (log_dir (o_cache_dir o)) h with
      | (Err _, h) => (Refused "cannot open the write log", h)
      | (Ok l, h) =>
          match mount_with (Some c) (Some l) s us with
          | Err _ => (Refused "cannot reach the server", h)
          | Ok w =>
              match Mount.recover log_faults w with
              | (Err _, _) => (Refused "cannot replay unsent writes", h)
              | (Ok _, w) => (Serving w (mount_options o) (is_mirror (o_mode o)), h)
              end
          end
      end
  end.

(** What the host keeps of a mount: the log as the mount left it; the cache is discarded when
    the mount ends in order. *)
Definition crash (o : Options) (w : World (S := S)) (h : Host) : Host :=
  match log (fs w) with
  | Some d => alter (fun f => {| block_files := block_files f; log_files := d |}) (normal (log_dir (o_cache_dir o))) h
  | None => h
  end.
Definition unmount (o : Options) (w : World (S := S)) (h : Host) : Host := discard (o_cache_dir o) (crash o w h).

End Run.
End FuseMain.
