(* ===== verification/FuseMainProps.v ===== *)
(** * Starting a mount

    What the mount program accepts, where it keeps its log, and that a run which takes up the
    directories of one that crashed has sent what that one accepted before it mounts. *)
From Stdlib.Strings Require String.
From S2P Require Import Prelude Core Crypto ObjectStore Repository Locks Server Nodes BlockCache WriteLog Mount MountFacts MountRecovery Auth Discord Config ConfigProps FuseMain.

Module FuseMainFacts.
Import Auth BlockCache Journal Client WriteLog Mount MountSpec MountFacts Recovery FuseMain.
Import ServerConfig (EnvVar, NotPresent, NotText, Value, parse_u64).

(** ** The command line *)

(** There is a step for every argument. *)
Lemma parse_ends fuel args a : (length args <= fuel)%nat -> parse fuel args a <> Err (Fail_ "out of fuel").
Proof.
  revert args a. induction fuel as [|fuel IH]; intros [|arg rest] a Hl; simpl in *; try done; [lia|].
  unfold with_value. repeat case_match; try done; apply IH; simpl in *; lia.
Qed.
Lemma budget_positive raw size : budget raw = Ok size -> 0 < size < 2 ^ 64.
Proof.
  unfold budget. destruct raw as [raw|]; [|intros [= <-]; lia]. destruct (parse_u64 raw) as [n|] eqn:Hn; [|done].
  apply ConfigFacts.parse_u64_bounds in Hn. destruct (Z.eqb_spec n 0); [done|]. intros [= <-]. lia.
Qed.
(** What is accepted: a cache budget that is positive and fits, and the token of the environment. *)
Lemma options_ok env temp pid args o :
  options env temp pid args = Ok o ->
  o_token o = var_ok env "DCFS_TOKEN" /\ match o_mode o with Stream size => 0 < size < 2 ^ 64 | Mirror => True end.
Proof.
  unfold options. destruct (parse _ _ _) as [a|]; [|done]. destruct (mountpoint a); [|done].
  destruct (budget (cache_size a)) as [size|] eqn:Hb; [|done]. apply budget_positive in Hb.
  destruct (mode_of (mode a) size) as [m|] eqn:Hm; [|done]. intros [= <-]. simpl. split; [done|].
  unfold mode_of in Hm. repeat case_bool_decide; simplify_eq; done.
Qed.

(** ** Directories *)

Section Run.
Context (cannot_remove cannot_create : bytes -> bool) (remains : Folder -> Folder).
Context {S : Type} {SC : ServerClient S} {CL : ClientLaws S} {HO : HashOrder}.
Context (mode : Mode) (disk_faults : nat -> Key -> bool) (completed : list nat -> list nat).
Context (Hperm : forall l, completed l ≡ₚ l).

(** Opening the cache empties its directory and no other. *)
Lemma open_cache_ok dir h :
  cannot_remove (normal dir) = false -> cannot_create (normal dir) = false ->
  exists h', open_cache cannot_remove cannot_create remains dir h = (Ok BlockCache.new, h') /\
    h' !! normal dir = Some empty_folder /\ forall p, p <> normal dir -> h' !! p = h !! p.
Proof.
  intros Hr Hc. unfold open_cache. destruct (h !! normal dir) as [f0|] eqn:Hd.
  - unfold remove_dir_all, create_dir_all. rewrite Hr. cbn beta iota. rewrite Hc, lookup_delete_eq. eexists.
    split; [reflexivity|]. rewrite lookup_insert_eq. split; [done|]. intros p Hp. by rewrite lookup_insert_ne, lookup_delete_ne.
  - unfold create_dir_all. rewrite Hc, Hd. eexists. split; [reflexivity|]. rewrite lookup_insert_eq. split; [done|].
    intros p Hp. by rewrite lookup_insert_ne.
Qed.
Lemma open_log_ok dir h :
  cannot_create (normal dir) = false ->
  exists h', open_log cannot_create dir h = (Ok (match h !! normal dir with Some f => log_files f | None => log_files empty_folder end), h').
Proof.
  intros Hc. unfold open_log, create_dir_all. rewrite Hc. destruct (h !! normal dir) as [f|] eqn:Hd.
  - rewrite Hd. by eexists.
  - rewrite lookup_insert_eq. by eexists.
Qed.

(** C22 A crash loses no accepted write, through the program. Let every write, read and [fsync]
    of a sequence through a mount succeed, with a write log that never failed, and let the mount
    lose its memory. Run the program again with the same cache directory, where the directory of
    the log is another one than that of the cache (the cache directory is not itself named
    [*.writes]), no directory fails to be removed or created, and the server answers and accepts
    what is replayed: the program mounts, and by then the server holds for every file what a
    memory that applied the writes at once would hold, other files are as they were, and nothing
    is left to replay. *)
Theorem restart_loses_no_write o w evs w' contents h f d us w2 :
  sound mode w -> recorded w -> shows w contents -> steps mode disk_faults completed healthy w evs w' -> accepting ->
  log (fs w') = Some d -> h !! normal (log_dir (o_cache_dir o)) = Some f ->
  normal (log_dir (o_cache_dir o)) <> normal (o_cache_dir o) ->
  (forall p, cannot_remove p = false /\ cannot_create p = false) ->
  mount_with (Some BlockCache.new) (Some d) (srv w') us = Ok w2 ->
  exists contents' w3 h', flat_run contents evs = Some contents' /\
    run cannot_remove cannot_create remains healthy o us (crash o w' h) (srv w') =
      (Serving w3 (mount_options o) (is_mirror (o_mode o)), h') /\
    (forall ino id b, by_ino (inodes (fs w')) !! ino = Some id -> contents' !! ino = Some b -> content (srv w3) id = Some b) /\
    (forall id b, (forall ino, by_ino (inodes (fs w')) !! ino <> Some id) -> content (srv w') id = Some b ->
       content (srv w3) id = Some b) /\
    exists d', log (fs w3) = Some d' /\ (take_pending healthy d').1 = Ok [].
Proof.
  intros Hsound Hrec Hshows Hsteps Hacc Hd Hf Hne Hok Hm.
  destruct (crash_recovers mode disk_faults completed Hperm _ _ _ _ _ us _ _ Hsound Hrec Hshows Hsteps Hacc Hd Hm)
    as (contents' & n & w3 & Hflat & Hr & Hc & Ho & Hleft).
  destruct (open_cache_ok (o_cache_dir o) (crash o w' h)) as (h1 & H1 & _ & Hothers); [apply Hok..|].
  destruct (open_log_ok (log_dir (o_cache_dir o)) h1) as (h2 & H2); [apply Hok|].
  rewrite Hothers in H2 by done. unfold crash in H2. rewrite Hd, lookup_alter_eq, Hf in H2. simpl in H2.
  exists contents', w3, h2. split; [done|]. split; [|done]. unfold run. by rewrite H1, H2, Hm, Hr.
Qed.

End Run.
End FuseMainFacts.
