(* ===== verification/FuseMainExample.v ===== *)
(** * Mounts that are started again, evaluated

    The program after a crash of the mount of [MountExample]: with the same directories, with
    the directories it takes by default, and with a cache directory whose log is itself. *)
From Stdlib.Strings Require String.
From S2P Require Import Prelude Core Crypto ObjectStore Repository Locks Server Nodes BlockCache WriteLog Mount MountFacts MountRecovery FakeClient MountExample Auth Discord Config ConfigProps FuseMain FuseMainProps.

Module FuseMainExample.
Import Auth BlockCache Journal Client WriteLog Mount MountSpec MountFacts Recovery FakeClient MountExample FuseMain FuseMainFacts.
Import ServerConfig (EnvVar, NotPresent, NotText, Value, parse_u64).

Definition never (p : bytes) : bool := false.
Definition keep (f : Folder) : Folder := f.
Definition no_env (var : string) : EnvVar := NotPresent.
Definition in_dir (dir : bytes) : Options :=
  {| o_mountpoint := str "/mnt"; o_server := str "http://s"; o_token := None; o_mode := Stream 7; o_cache_dir := dir;
     o_allow_other := false; o_read_only := false |}.
Abbreviation start o h s := (run never never keep healthy o run_names h s).

(** Where the log of a cache directory is. *)
Example log_beside : log_dir (str "/var/cache/dcfs") = str "/var/cache/dcfs.writes".
Proof. vm_compute. done. Qed.
Example log_slash : log_dir (str "/var/cache/dcfs/./") = str "/var/cache/dcfs.writes".
Proof. vm_compute. done. Qed.
Example log_hidden : log_dir (str "/home/u/.dcfs") = str "/home/u/.dcfs.writes".
Proof. vm_compute. done. Qed.

(** Arguments, and the environment they go before. *)
Example some_options :
  options no_env (str "/tmp") (str "77") [str "--cache-size"; str "4096"; str "/mnt"; str "-r"] =
    Ok {| o_mountpoint := str "/mnt"; o_server := str "http://127.0.0.1:8080"; o_token := None; o_mode := Stream 4096;
          o_cache_dir := str "/tmp/dcfs-cache-77"; o_allow_other := false; o_read_only := true |} /\
  options no_env (str "/tmp") (str "77") [str "/mnt"; str "--cache-size"] = Err (Fail_ "--cache-size needs a byte count") /\
  options no_env (str "/tmp") (str "77") [str "/mnt"; str "--cache-size"; str "0"] =
    Err (Fail_ "--cache-size must be a positive byte count").
Proof. vm_compute. done. Qed.

(** The mount of [MountExample] has written and crashes; its directories were these. *)
Definition dir : bytes := str "/var/cache/dcfs".
Definition host (cache_dir : bytes) : Host :=
  <[normal (log_dir cache_dir) := empty_folder]> {[normal cache_dir := empty_folder]}.
Definition after_crash (cache_dir : bytes) : Host := crash (in_dir cache_dir) written2 (host cache_dir).

Lemma restart_loses_no_write_witness :
  exists w3 h', start (in_dir dir) (after_crash dir) (srv written2) =
      (Serving w3 [FSName "dcfs"; Subtype "dcfs"; NoAtime; RW] false, h') /\
    content (srv w3) file_id = Some [x00; x00; x00; x61; x62; x63].
Proof.
  destruct (mount_with (Some BlockCache.new) (Some crashed_log) (srv written2) run_names) as [w2|e] eqn:Hm;
    [|vm_compute in Hm; discriminate Hm].
  destruct (restart_loses_no_write never never keep stream no_faults id ltac:(done) (in_dir dir) opened events written2 known_files
    (host dir) empty_folder crashed_log run_names w2 opened_sound opened_recorded opened_shows events_run fake_accepting
    ltac:(reflexivity) ltac:(vm_compute; reflexivity) ltac:(vm_compute; discriminate) ltac:(done) Hm)
    as (contents' & w3 & h' & Hf & Hrun & Hc & _ & _).
  exists w3, h'. split; [exact Hrun|]. apply (Hc 2 file_id).
  - vm_compute. reflexivity.
  - assert (Hflat : (files' ← flat_run known_files events; files' !! 2) = Some [x00; x00; x00; x61; x62; x63])
      by (vm_compute; reflexivity).
    rewrite Hf in Hflat. exact Hflat.
Defined.

(** What a started program has on the server. *)
Definition served_content (r : Started (S := FakeClient) * Host) : option bytes :=
  match r.1 with Serving w _ _ => content (srv w) file_id | Refused _ => None end.

(** By default the directories carry the number of the process: the next run looks elsewhere, mounts,
    and the accepted bytes are not on the server. *)
Definition default_dir (pid : string) : bytes := default_cache_dir (str "/tmp") (str pid).
Lemma default_dir_forgets :
  served_content (start (in_dir (default_dir "100")) (after_crash (default_dir "100")) (srv written2)) =
    Some [x00; x00; x00; x61; x62; x63] /\
  served_content (start (in_dir (default_dir "101")) (after_crash (default_dir "100")) (srv written2)) = Some [].
Proof. vm_compute. done. Qed.

(** A cache directory that ends in [.writes] is its own log, and is emptied when the next run starts. *)
Lemma log_in_cache_is_wiped :
  log_dir (str "/srv/dcfs.writes") = str "/srv/dcfs.writes" /\
  served_content (start (in_dir (str "/srv/dcfs.writes")) (after_crash (str "/srv/dcfs.writes")) (srv written2)) = Some [].
Proof. vm_compute. done. Qed.

(** Cache directories that differ after a dot share a log. *)
Lemma extensions_share_a_log : log_dir (str "/srv/dcfs.a") = log_dir (str "/srv/dcfs.b").
Proof. vm_compute. done. Qed.

End FuseMainExample.
