(* ===== verification/Cli.v ===== *)
(** * The operator's command line

    Models [src/crates/dcfs-cli/src/main.rs] (module [Cli]): [config-check], [status] and
    [put], with the exit code of each branch. Requests go through the routes and layers of
    [Router] over a network that decides the fate of each; the local file and the
    environment are parameters. What [put] and [status] print is not kept. *)
From Stdlib.Strings Require String.
From S2P Require Import Prelude Core Crypto ObjectStore Repository Locks Server Data Nodes BlockCache WriteLog Mount HttpClient Versions Auth Router Discord Config.

Module Cli.
Import AppErrors AppState Auth HttpClient Router.
Import ServerConfig (EnvVar, NotPresent, NotText, Value).

Definition SUCCESS : Z := 0.
Definition FAILURE : Z := 1.
Definition USAGE : Z := 2.
(** What a process that panics exits with. *)
Definition PANIC : Z := 101.

(** [std::env::var(...).ok()]. *)
Definition var_ok (env : string -> EnvVar) (var : string) : option bytes :=
  match env var with Value v => Some v | NotPresent | NotText => None end.
Definition token_var (env : string -> EnvVar) : option bytes :=
  match var_ok env "DCFS_TOKEN" with Some t => Some t | None => var_ok env "API_TOKEN" end.
Definition default_server (env : string -> EnvVar) : bytes := default (str "http://127.0.0.1:8080") (var_ok env "DCFS_SERVER").

(** *** [config-check] *)

Section ConfigCheck.
Context {SocketAddr : Type} (parse_addr : bytes -> option SocketAddr) (loopback : SocketAddr).
Import ServerConfig.

Inductive Objects : Type := OnDiscord | InDirectory (path : bytes) | NotConfigured.
(** What is printed. *)
Record Report : Type := {
  metadata_schema : option bytes; auto_migrate : bool; objects : Objects; listen : SocketAddr; part_size : Z; retention : Z;
  key_present : bool; token_present : bool; blocking : list string;
}.
Inductive Checked : Type := Invalid_ (e : ConfigError) | Panicked_ | Checked_ (r : Report).

Definition report (c : Config SocketAddr) : Report :=
  let discord := bool_decide (is_Some (discord_webhook_id c)) && bool_decide (is_Some (discord_webhook_token c)) in
  {| metadata_schema := match database_url c with Some _ => Some (database_schema c) | None => None end;
     auto_migrate := database_auto_migrate c;
     objects := if discord then OnDiscord
                else match object_store_path c with Some path => InDirectory path | None => NotConfigured end;
     listen := server_addr c; part_size := chunk_size c; retention := gc_retention c;
     key_present := bool_decide (is_Some (master_key c)); token_present := bool_decide (is_Some (api_token c));
     blocking :=
       (if bool_decide (is_Some (master_key c)) then [] else ["MASTER_KEY is not set (openssl rand -hex 32)"%string]) ++
       (if bool_decide (is_Some (api_token c)) then [] else ["API_TOKEN is not set (openssl rand -hex 32)"%string]) ++
       (if negb discord && bool_decide (object_store_path c = None)
        then ["set OBJECT_STORE_PATH, or the DISCORD_WEBHOOK_* pair"%string] else []) |}.
Definition config_check (env : string -> EnvVar) : Checked * Z :=
  match from_env parse_addr loopback env with
  | Err (Prelude.Fail e) => (Invalid_ e, FAILURE)
  | Err Panic => (Panicked_, PANIC)
  | Ok c => let r := report c in (Checked_ r, if bool_decide (blocking r = []) then SUCCESS else FAILURE)
  end.

End ConfigCheck.

(** *** Requests *)

Section Requests.
Context `{Aead} `{HashOrder} {S : Type} `{Store.ObjectStore S} (state : AppState.Config) (sched : nat -> nat).
Context (random : option bytes) (dav_handle : Request -> AppState.M S Answer).
(** What becomes of each request. *)
Context (net : nat -> Fate).
Abbreviation Server := (AppState.World S).

Record Client : Type := { server : Server; sent : nat }.
(** A response: its status and, when it arrived, its body. *)
Record Response : Type := { r_status : Z; r_body : option Body }.
Definition is_success (r : Response) : bool := (200 <=? r_status r) && (r_status r <? 300).

Definition bearer (token : bytes) : Headers := {| authorization := Some (str "Bearer " ++ token); cookie := None |}.
Definition anonymous : Headers := {| authorization := None; cookie := None |}.
Definition next (c : Client) (s : Server) : Client := {| server := s; sent := Datatypes.S (sent c) |}.

(** [http.get(...).send().await]: [None] is an error of the connection. *)
Definition send (h : Handler) (hd : Headers) (args : option (Args h)) (c : Client) : option Response * Client :=
  let deliver := conclude (call state sched random dav_handle h hd args) (server c) in
  let arrived := match deliver.1 with Router.Answered a => Some a | Dropped | NoRoute => None end in
  match net (sent c) with
  | RequestLost => (None, next c (server c))
  | Turned status => (Some {| r_status := status; r_body := None |}, next c (server c))
  | AnswerLost => (None, next c deliver.2)
  | Cut => ((fun a => {| r_status := a_status a; r_body := None |}) <$> arrived, next c deliver.2)
  | HttpClient.Answered => ((fun a => {| r_status := a_status a; r_body := Some (a_body a) |}) <$> arrived, next c deliver.2)
  end.

(** [resp.json::<Value>()]: the body arrived and is JSON. *)
Definition json (r : Response) : option Body :=
  match r_body r with
  | None | Some (Empty | Text _ | Page | DataBody _ _ | ObjectBody _ | Foreign _) => None
  | Some b => Some b
  end.
(** [value["chunk_size"].as_u64()], and the fields of a node. *)
Definition chunk_size_field (b : Body) : option Z := match b with Info n => Some n | _ => None end.
Definition id_field (b : Body) : option Uuid := match b with NodeBody n => Some (Nodes.nr_id n) | _ => None end.
Definition parent_field (b : Body) : option Uuid := match b with NodeBody n => Nodes.nr_parent_id n | _ => None end.
Definition size_field (b : Body) : option Z := match b with NodeBody n => Some (Nodes.nr_size n) | _ => None end.

(** A command: it goes on with a value, or exits. *)
Definition P (A : Type) : Type := Client -> result Z A * Client.
#[global] Instance P_ret : MRet P := fun A a c => (Ok a, c).
#[global] Instance P_bind : MBind P := fun A B f m c =>
  match m c with (Ok a, c') => f a c' | (Err e, c') => (Err e, c') end.
Definition exit {A} (code : Z) : P A := fun c => (Err code, c).
Definition ask_server (h : Handler) (hd : Headers) (args : option (Args h)) : P (option Response) := fun c =>
  let '(r, c') := send h hd args c in (Ok r, c').

(** *** [status] *)

Fixpoint status_args (args : list bytes) : option unit :=
  match args with
  | [] => Some tt
  | arg :: args =>
      if bool_decide (arg = str "--server") then match args with _ :: args => status_args args | [] => None end
      else None
  end.
Definition status_command (env : string -> EnvVar) (args : list bytes) : P Z :=
  match status_args args with
  | None => exit USAGE
  | Some _ =>
      health ← ask_server HHealthCheck anonymous (Some tt);
      match health with
      | None => exit FAILURE
      | Some r =>
          if negb (is_success r) then exit FAILURE else
          match token_var env with
          | None => mret SUCCESS
          | Some token =>
              fs ← ask_server HGetFsInfo (bearer token) (Some tt);
              match fs with
              | Some r => mret (if is_success r then SUCCESS else FAILURE)
              | None => exit FAILURE
              end
          end
      end
  end.

(** *** [put] *)

Definition checked_resume_offset (remote_size local_size : Z) : option Z :=
  if local_size <? remote_size then None else Some remote_size.
Definition next_read_len (total offset capacity : Z) : Z := Z.min (saturating_sub total offset) capacity.

Record PutArgs : Type := { p_path : option bytes; p_name : option bytes; p_resume : bool }.
Fixpoint put_args (args : list bytes) (a : PutArgs) : option PutArgs :=
  match args with
  | [] => Some a
  | arg :: args =>
      if bool_decide (arg = str "--server") then match args with _ :: args => put_args args a | [] => None end
      else if bool_decide (arg = str "--name") then
        match args with
        | value :: args => put_args args {| p_path := p_path a; p_name := Some value; p_resume := p_resume a |}
        | [] => None
        end
      else if bool_decide (arg = str "--resume") then put_args args {| p_path := p_path a; p_name := p_name a; p_resume := true |}
      else if bool_decide (head arg = Some x2d) then None
      else put_args args {| p_path := Some arg; p_name := p_name a; p_resume := p_resume a |}
  end.

(** [Path::file_name]: the last component, when it is a name. *)
Definition file_name (path : bytes) : option bytes :=
  match last (filter (fun s => s <> [] /\ s <> str ".") (Nodes.split_slash path)) with
  | Some s => if bool_decide (s = str "..") then None else Some s
  | None => None
  end.
Definition upload_name (name : bytes) : bytes := str "." ++ name ++ str ".dcfs-uploading".

(** The local file: the lengths [metadata] reports, whether it opens and seeks, and what the
    [k]-th read of at most [n] bytes at a position gives. *)
Record Local : Type := {
  metadata : nat -> option Z; opens : bool; seeks : bool; read : nat -> Z -> Z -> option bytes;
}.
Context (file : Local).

(** [while filled < wanted]: what is in the buffer, and the number of reads so far. *)
Fixpoint fill (fuel reads : nat) (pos wanted : Z) (buf : bytes) : option bytes * nat :=
  match fuel with
  | O => (Some buf, reads)
  | Datatypes.S fuel =>
      if len buf <? wanted then
        match read file reads (pos + len buf) (wanted - len buf) with
        | None => (None, Datatypes.S reads)
        | Some [] => (Some buf, Datatypes.S reads)
        | Some b => fill fuel (Datatypes.S reads) pos wanted (buf ++ b)
        end
      else (Some buf, reads)
  end.

(** [for attempt in 1..=3]. *)
Fixpoint send_part (attempts : nat) (token : bytes) (id : option Uuid) (offset : Z) (b : bytes) : P bool :=
  match attempts with
  | O => mret false
  | Datatypes.S attempts =>
      resp ← ask_server HWriteData (bearer token) ((fun id => (id, (Some offset, b))) <$> id);
      match resp with
      | Some r => if is_success r then mret true else send_part attempts token id offset b
      | None => send_part attempts token id offset b
      end
  end.

(** [while offset < total]. *)
Fixpoint upload (fuel reads : nat) (token : bytes) (id : option Uuid) (capacity total offset : Z) : P Z :=
  match fuel with
  | O => mret offset
  | Datatypes.S fuel =>
      if offset <? total then
        let wanted := next_read_len total offset capacity in
        match fill (Z.to_nat wanted) reads offset wanted [] with
        | (None, _) => exit FAILURE
        | (Some [], _) => exit FAILURE
        | (Some b, reads) =>
            sent ← send_part 3 token id offset b;
            if sent : bool then upload fuel reads token id capacity total (offset +u len b) else exit FAILURE
        end
      else mret offset
  end.

(** The part size the server reports. *)
Definition fetch_part_size (token : bytes) : P Z :=
  resp ← ask_server HGetFsInfo (bearer token) (Some tt);
  match resp ≫= json with
  | Some info => mret (default (8 * 1024 * 1024) (chunk_size_field info))
  | None => exit FAILURE
  end.
(** The final name is taken. *)
Definition refuse_published (token name : bytes) : P unit :=
  resp ← ask_server HResolvePath (bearer token) (Some (str "/" ++ name));
  match resp with
  | Some r => if is_success r then exit FAILURE else mret tt
  | None => mret tt
  end.
Definition create_upload (token name : bytes) (key : Uuid) : P (option Uuid * option Uuid * Z) :=
  resp ← ask_server HGetRoot (bearer token) (Some tt);
  match resp ≫= json with
  | None => exit FAILURE
  | Some root =>
      let root := id_field root in
      created ← ask_server HCreateNode (bearer token) ((fun root =>
        {| Nodes.cn_parent_id := root; Nodes.cn_name := upload_name name; Nodes.cn_kind := NodeModel.File; Nodes.cn_mode := 33188;
           Nodes.cn_uid := 0; Nodes.cn_gid := 0; Nodes.cn_link_target := None; Nodes.cn_idempotency_key := key |}) <$> root);
      match created with
      | Some r => if is_success r
                  then match json r with Some node => mret (id_field node, root, 0) | None => exit FAILURE end
                  else exit FAILURE
      | None => exit FAILURE
      end
  end.
Definition begin_upload (token name : bytes) (resume : bool) (total : Z) (key : Uuid) : P (option Uuid * option Uuid * Z) :=
  existing ← ask_server HResolvePath (bearer token) (Some (str "/" ++ upload_name name));
  match existing with
  | Some r =>
      if is_success r then
        match json r with
        | None => exit FAILURE
        | Some node =>
            if negb resume then exit FAILURE else
            match checked_resume_offset (default 0 (size_field node)) total with
            | None => exit FAILURE
            | Some taken => mret (id_field node, parent_field node, taken)
            end
        end
      else create_upload token name key
  | None => create_upload token name key
  end.
(** [sync], then [publish] under the final name. *)
Definition publish (token name : bytes) (id root : option Uuid) : P Z :=
  synced ← ask_server HSyncNode (bearer token) id;
  match synced with
  | Some r =>
      if negb (is_success r) then exit FAILURE else
      published ← ask_server HPublishNode (bearer token)
        (id ← id; root ← root; Some (id, {| Nodes.rn_new_parent_id := root; Nodes.rn_new_name := name |}));
      match published with
      | Some r => if is_success r then mret SUCCESS else exit FAILURE
      | None => exit FAILURE
      end
  | None => exit FAILURE
  end.

(** From the opening of the file on. A vector cannot be longer than [isize::MAX]. *)
Definition upload_and_publish (token name : bytes) (part_size total : Z) (id root : option Uuid) (offset : Z) : P Z :=
  if negb (opens file) then exit FAILURE else
  if negb (seeks file) then exit FAILURE else
  if 2 ^ 63 <=? part_size then exit PANIC else
  offset ← upload (Z.to_nat (total - offset)) 0 token id part_size total offset;
  if negb (offset =? total) then exit FAILURE else
  match metadata file 1 with
  | None => exit FAILURE
  | Some current_size => if negb (current_size =? total) then exit FAILURE else publish token name id root
  end.
(** [put] from the local file on; [key] is the fresh identifier of the create. *)
Definition put_file (token name : bytes) (resume : bool) (key : Uuid) : P Z :=
  match metadata file 0 with
  | None => exit FAILURE
  | Some total =>
      part_size ← fetch_part_size token;
      _ ← refuse_published token name;
      '(id, root, offset) ← begin_upload token name resume total key;
      upload_and_publish token name part_size total id root offset
  end.
Definition put (env : string -> EnvVar) (args : list bytes) (key : Uuid) : P Z :=
  match put_args args {| p_path := None; p_name := None; p_resume := false |} with
  | None => exit USAGE
  | Some a =>
      match p_path a with
      | None => exit USAGE
      | Some path =>
          match token_var env with
          | None => exit FAILURE
          | Some token =>
              let name := match p_name a with Some name => name | None => default (str "upload.bin") (file_name path) end in
              put_file token name (p_resume a) key
          end
      end
  end.

(** *** [main] *)

Context {SocketAddr : Type} (parse_addr : bytes -> option SocketAddr) (loopback : SocketAddr).

Definition exit_code (r : result Z Z) : Z := match r with Ok code | Err code => code end.
Definition main (env : string -> EnvVar) (args : list bytes) (key : Uuid) (c : Client) : Z * Client :=
  match args with
  | [] => (SUCCESS, c)
  | command :: args =>
      if bool_decide (command = str "config-check") then ((config_check parse_addr loopback env).2, c)
      else if bool_decide (command = str "status") then let '(r, c') := status_command env args c in (exit_code r, c')
      else if bool_decide (command = str "put") then let '(r, c') := put env args key c in (exit_code r, c')
      else if bool_decide (command = str "-h") || bool_decide (command = str "--help") then (SUCCESS, c)
      else (USAGE, c)
  end.

End Requests.
End Cli.
