(* ===== verification/CliProps.v ===== *)
(** * Uploading from the command line

    [put] against the server's handlers: what is published is the local file, an
    interrupted upload can be resumed, and nothing else changes. *)
From Stdlib.Strings Require String.
From S2P Require Import Prelude Core Crypto ObjectStore Repository Locks Server Data DataSpec DataWrite DataRead Example DataProps Nodes Places Dav DavProps BlockCache WriteLog Mount MountFacts MountRecovery HttpClient HttpProps Versions Auth Router RouterProps Discord Config ConfigProps Cli.

Module CliFacts.
Import Records MemoryRepo AppState Spec SpecFacts Namespace Places HttpClient HttpFacts Auth Router Cli.

(** *** Bytes from the start of a file *)

Definition starts (b content : bytes) : Prop := len b <= len content /\ forall i, 0 <= i < len b -> getb b i = getb content i.

Lemma starts_nil content : starts [] content.
Proof. unfold starts. rewrite len_nil. split; [apply len_nonneg|lia]. Qed.
Lemma starts_whole b content : starts b content -> len content <= len b -> b = content.
Proof. intros [Hl Hg] Hle. apply getb_ext; [lia|done]. Qed.
(** What is written where it belongs. *)
Lemma starts_write b content offset data : starts b content -> 0 <= offset <= len b -> data <> [] ->
  data = slice content offset (offset + len data) ->
  let b' := write_flat b offset data in starts b' content /\ len b <= len b' /\ offset + len data <= len b'.
Proof.
  intros [Hl Hg] Hoff Hne Hdata. simpl. pose proof (len_nonneg data) as Hd0.
  assert (Hfit : offset + len data <= len content).
  { apply (f_equal len) in Hdata. rewrite len_slice in Hdata. destruct data; [done|]. rewrite len_cons in *. pose proof (len_nonneg data). lia. }
  rewrite len_write_flat by (lia || done). split; [|lia]. split; [rewrite len_write_flat by (lia || done); lia|].
  intros i Hi. rewrite len_write_flat in Hi by (lia || done). rewrite getb_write_flat by (lia || done).
  destruct ((offset <=? i) && (i <? offset + len data)) eqn:E; [|apply Hg; lia].
  rewrite Hdata, getb_slice by lia. destruct ((0 <=? i - offset) && (i - offset <? offset + len data - offset)) eqn:E2; [f_equal; lia|lia].
Qed.

(** *** The local file *)

(** From position [from] on the file holds [content] throughout: lengths and reads are those
    of it, and a read gives nothing only at its end. *)
Record agrees (from : Z) (content : bytes) (file : Local) : Prop := {
  st_metadata : forall k n, metadata file k = Some n -> n = len content;
  st_read : forall k pos n b, from <= pos -> read file k pos n = Some b ->
    b = slice content pos (pos + len b) /\ len b <= Z.max 0 n /\ (b = [] -> n <= 0 \/ len content <= pos);
}.
Abbreviation steady := (agrees 0).

Lemma slice_more (content a b : bytes) pos : 0 <= pos -> a = slice content pos (pos + len a) ->
  b = slice content (pos + len a) (pos + len a + len b) -> a ++ b = slice content pos (pos + len (a ++ b)).
Proof.
  intros Hpos Ha Hb. pose proof (len_nonneg a). pose proof (len_nonneg b). rewrite len_app.
  assert (len a <= Z.max 0 (len content - pos)) by (apply (f_equal len) in Ha; rewrite len_slice in Ha; lia).
  assert (len b <= Z.max 0 (len content - (pos + len a))) by (apply (f_equal len) in Hb; rewrite len_slice in Hb; lia).
  apply getb_ext; [rewrite len_app, len_slice; lia|]. intros i Hi. rewrite len_app in Hi. rewrite getb_app, getb_slice by lia.
  destruct ((0 <=? i) && (i <? pos + (len a + len b) - pos)) eqn:E; [|lia].
  destruct (Z.ltb_spec i (len a)).
  - rewrite Ha, getb_slice by lia. destruct ((0 <=? i) && (i <? pos + len a - pos)) eqn:E2; [done|lia].
  - rewrite Hb, getb_slice by lia. destruct ((0 <=? i - len a) && (i - len a <? pos + len a + len b - (pos + len a))) eqn:E2; [f_equal; lia|lia].
Qed.

Lemma put_fill_spec from content file fuel reads pos wanted buf b reads' : agrees from content file -> 0 <= from <= pos ->
  buf = slice content pos (pos + len buf) -> len buf <= Z.max 0 wanted ->
  fill file fuel reads pos wanted buf = (Some b, reads') -> b = slice content pos (pos + len b) /\ len b <= Z.max 0 wanted.
Proof.
  intros Hst Hpos. assert (Hp0 : 0 <= pos) by lia. revert reads buf. induction fuel as [|fuel IH]; intros reads buf Hbuf Hlen; simpl; [by intros [= <- <-]|].
  destruct (Z.ltb_spec (len buf) wanted); [|by intros [= <- <-]].
  destruct (read file reads (pos + len buf) (wanted - len buf)) as [[|x more]|] eqn:Hr; [by intros [= <- <-]| |done].
  pose proof (len_nonneg buf). assert (Hp : from <= pos + len buf) by lia.
  destruct (st_read _ _ _ Hst _ _ _ _ Hp Hr) as (Hmore & Hle & _).
  apply IH; [by apply slice_more|]. rewrite len_app. lia.
Qed.

(** *** Requests *)

Section Requests.
Context `{AL : AeadLaws} `{HO : HashOrder} {S : Type} `{OL : Store.ObjectStoreLaws S} (state : Config) (sched : nat -> nat).
Context (random : option bytes) (dav_handle : Request -> AppState.M S Answer) (net : nat -> Fate).
Implicit Types (s : World S) (c : Client (S := S)).
Abbreviation fbytes := (file_bytes state sched).

Hypothesis chunk_ok : chunk_fits (chunk_size state).
Hypothesis parallel_ok : 1 <= parallel_chunk_fetches state.
(** The same but for the clock and the locks. *)
Definition alike s s' : Prop := repo s' = repo s /\ store s' = store s /\ uuids s' = uuids s /\ drawn s' = drawn s.
Lemma consistent_alike s s' : alike s s' -> consistent state s -> consistent state s'.
Proof.
  intros (Hr & Hs & Hu & Hd) [HI Hall]. split; [by apply (Inv_ext s)|]. assert (Ho : objs s' = objs s) by (unfold objs; by rewrite Hs).
  intros id n. rewrite Hr, Ho. intros Hn Hk. destruct (Hall id n Hn Hk) as [(? & ? & Hl)|?]; [|by right]. left. split; [done|]. split; [done|].
  by rewrite Hr.
Qed.
Lemma file_bytes_alike s s' id : alike s s' -> consistent state s -> fbytes s' id = fbytes s id.
Proof.
  intros Ha Hc. pose proof (consistent_alike s s' Ha Hc) as Hc'. destruct Ha as (Hr & Hs & _). apply option_eq. intros b.
  rewrite !file_bytes_repr by done. unfold objs. by rewrite Hr, Hs.
Qed.

(** Whatever answers in the server's place reports an error. *)
Hypothesis honest : forall k status, net k = Turned status -> 400 <= status.
(** The operator's token is the server's. *)
Context (token : bytes).
Hypothesis granted : forall expected, api_token state = Some expected -> constant_time_eq token (str expected) = true.

Definition body h (args : option (Args h)) : AppState.M S Answer :=
  match args with
  | Some args => run state sched random dav_handle h (bearer token) None args
  | None => mret (answer 422 (Text "rejected"))
  end.
Lemma call_body h args s : layer_of h = Token -> call state sched random dav_handle h (bearer token) args s = body h args s.
Proof.
  intros Hl. unfold call, layered. rewrite Hl. unfold require_token, mbind at 1, M_bind at 1.
  destruct (api_token state) as [expected|] eqn:Htok; [|done].
  assert (Hp : presented (bearer token) = token).
  { unfold presented, bearer. cbn [authorization cookie]. change (Some (str "Bearer " ++ token) ≫= presented_token) with (presented_token (str "Bearer " ++ token)).
    unfold presented_token. by rewrite AuthFacts.strip_prefix_app. }
  by rewrite Hp, (granted expected eq_refl).
Qed.

(** What an exchange comes to: [post] holds of the server afterwards, [good] of the answer. *)
Definition settled (post : World S -> Prop) (good : Answer -> World S -> Prop) (out : Outcome * World S) : Prop :=
  post out.2 /\ forall a, out.1 = Router.Answered a -> good a out.2.
Definition heard (good : Answer -> World S -> Prop) (resp : Response) s : Prop :=
  (exists a, good a s /\ r_status resp = a_status a /\ forall b, r_body resp = Some b -> b = a_body a) \/
  400 <= r_status resp /\ r_body resp = None.

Lemma cli_send_spec h args c (post : World S -> Prop) good : layer_of h = Token -> post (server c) ->
  settled post good (conclude (body h args) (server c)) ->
  let '(r, c') := send state sched random dav_handle net h (bearer token) args c in
  post (server c') /\ forall resp, r = Some resp -> heard good resp (server c').
Proof.
  intros Hl Hpost Hout. unfold send. set (out := conclude (call state sched random dav_handle h (bearer token) args) (server c)).
  assert (Heq : out = conclude (body h args) (server c)) by (unfold out, conclude; by rewrite call_body).
  rewrite <-Heq in Hout. clear Heq. destruct out as [o s'], Hout as [Hp Hgood]. simpl in *.
  destruct (net (sent c)) as [| | | |status] eqn:Hnet; simpl; (split; [done|]); intros resp; try done.
  - destruct o as [a| |]; simpl; try done. intros [= <-]. left. exists a. split_and!; [by apply Hgood|done|by intros b [= <-]].
  - destruct o as [a| |]; simpl; try done. intros [= <-]. left. exists a. split_and!; [by apply Hgood|done|done].
  - intros [= <-]. right. split; [by apply (honest _ _ Hnet)|done].
Qed.
(** A success is the server's. *)
Lemma heard_success good resp s : heard good resp s -> is_success resp = true ->
  exists a, good a s /\ 200 <= a_status a < 300 /\ forall b, json resp = Some b -> b = a_body a.
Proof.
  unfold is_success. intros [(a & Hg & Hst & Hb)|[Hst _]] Hs; [|lia]. exists a. split; [done|]. split; [lia|].
  intros b Hj. apply Hb. unfold json in Hj. destruct (r_body resp) as [[]|]; naive_solver.
Qed.

(** *** An upload in progress *)

(** What is to be published is [content]: what a partial upload already holds, [from] bytes
    at least, and the local file from there on. *)
Context (content name : bytes) (from : Z).
Hypothesis name_ok : Name.valid name.
Hypothesis content_ok : len content < 2 ^ 62.
Hypothesis from_ok : 0 <= from.

Definition entry s (what : bytes) (k : Uuid) : Prop := child_of (repo s) (root_id (repo s)) what k.
Definition hidden s k : Prop := entry s (upload_name name) k.
(** Files and entries are in order, and a partial upload is the start of what is to be
    published. *)
Record ready s : Prop := {
  rd_consistent : consistent state s;
  rd_entries : entries_ok (repo s);
  rd_partial : forall k, hidden s k -> exists b, fbytes s k = Some b /\ starts b content /\ from <= len b;
}.
(** Only the partial upload may have changed. *)
Definition frame s s' : Prop := root_id (repo s') = root_id (repo s) /\ forall k n, nodes (repo s) !! k = Some n -> ~ hidden s k ->
  fbytes s' k = fbytes s k /\ exists n', nodes (repo s') !! k = Some n' /\ place n' = place n.
(** The partial upload is [k], with at least [offset] bytes. *)
Definition taken s0 k offset s : Prop :=
  ready s /\ frame s0 s /\ hidden s k /\ exists b, fbytes s k = Some b /\ starts b content /\ offset <= len b.

Lemma entry_place s s' what k n n' : root_id (repo s') = root_id (repo s) -> nodes (repo s) !! k = Some n -> nodes (repo s') !! k = Some n' ->
  place n' = place n -> entry s' what k -> entry s what k.
Proof. intros Hroot Hn Hn' Hp (m & Hm & Hmp & Hmn). injection Hp as _ Hp Hna _. exists n. split_and!; congruence. Qed.
Lemma frame_refl s : frame s s.
Proof. split; [done|]. eauto. Qed.
Lemma frame_trans s0 s1 s2 : frame s0 s1 -> frame s1 s2 -> frame s0 s2.
Proof.
  intros [Hr1 Hf1] [Hr2 Hf2]. split; [congruence|]. intros k n Hn Hh. destruct (Hf1 k n Hn Hh) as (Hb1 & n1 & Hn1 & Hp1).
  destruct (Hf2 k n1 Hn1) as (Hb2 & n2 & Hn2 & Hp2); [intros Hh1; by apply Hh, (entry_place s0 s1 _ k n n1)|].
  split; [congruence|]. exists n2. split; congruence.
Qed.

Lemma ready_alike s s' : alike s s' -> ready s -> ready s'.
Proof.
  intros Ha [Hc He Hp]. pose proof (consistent_alike s s' Ha Hc) as Hc'. pose proof (fun id => file_bytes_alike s s' id Ha Hc) as Hb.
  destruct Ha as (Hr & _). split; [done|by rewrite Hr|]. intros k. unfold hidden, entry. rewrite Hr, Hb. apply Hp.
Qed.
Lemma frame_alike s s' : alike s s' -> ready s -> frame s s'.
Proof.
  intros Ha [Hc _ _]. pose proof (fun id => file_bytes_alike s s' id Ha Hc) as Hb. destruct Ha as (Hr & _). split; [by rewrite Hr|].
  intros k n Hn _. rewrite Hb, Hr. eauto.
Qed.

(** Two entries of one name are one entry. *)
Lemma entry_fun s what k k' : entries_ok (repo s) -> entry s what k -> entry s what k' -> k = k'.
Proof. intros He (n & Hn & Hp & Hna) (n' & Hn' & Hp' & Hna'). eapply (ent_names _ He); eauto. congruence. Qed.

Lemma taken_from s0 s k offset b : taken s0 k offset s -> fbytes s k = Some b -> from <= len b.
Proof. intros (Hr & _ & Hh & _) Hb. destruct (rd_partial _ Hr k Hh) as (b' & Hb' & _ & ?). congruence. Qed.
(** An operation on the partial upload that leaves every entry where it is. *)
Lemma taken_step s0 s s' k offset offset' b :
  taken s0 k offset s -> tree (repo s') = tree (repo s) -> consistent state s' -> (forall k', k' <> k -> fbytes s' k' = fbytes s k') ->
  fbytes s' k = Some b -> starts b content -> from <= len b -> offset' <= len b -> taken s0 k offset' s'.
Proof.
  intros (Hr & Hf & Hh & _) Ht Hc Hothers Hb Hs Hfrom Hoff. pose proof (f_equal snd Ht) as Hroot. simpl in Hroot.
  assert (Hh' : hidden s' k) by (unfold hidden, entry; rewrite Hroot; by apply (child_of_tree (repo s))).
  assert (He' : entries_ok (repo s')) by (apply (entries_ok_tree (repo s)); [done|apply Hr]).
  split; [|split; [|split; [done|by exists b]]].
  - split; [done..|]. intros k' Hk'. assert (k' = k) as -> by (by apply (entry_fun s' (upload_name name))). by exists b.
  - eapply frame_trans; [done|]. split; [done|]. intros k' n Hn Hno. split; [|by apply (tree_lookup (repo s))].
    apply Hothers. by intros ->.
Qed.

Lemma run_write_spec s0 s k offset data : taken s0 k offset s -> 0 <= offset -> data <> [] -> data = slice content offset (offset + len data) ->
  settled (taken s0 k offset) (fun a s' => a_status a < 300 -> taken s0 k (offset + len data) s')
    (conclude (body HWriteData (Some (k, (Some offset, data)))) s).
Proof.
  intros Ht Hoff Hne Hdata. pose proof Ht as (Hr & _ & _ & b & Hb & Hs & Hle). pose proof (taken_from _ _ _ _ _ Ht Hb) as Hfrom.
  destruct (starts_write b content offset data Hs ltac:(lia) Hne Hdata) as (Hs' & Hgrow & Hend).
  assert (Hfit : offset + len data < 2 ^ 62).
  { apply (f_equal len) in Hdata. rewrite len_slice in Hdata. destruct data; [done|]. rewrite len_cons in *. pose proof (len_nonneg data). lia. }
  pose proof (write_route_spec state sched chunk_ok parallel_ok s k b offset data (rd_consistent _ Hr) Hb Hoff Hfit) as Hw.
  pose proof (write_data_keeps state k (Some offset) data s) as Hkeep.
  unfold conclude, body, run, mbind, M_bind, within_limit, write_route in *. destruct (MAX_WRITE_BYTES <? len data).
  { destruct Hw as [_ ?]. split; [done|]. intros a [= <-]. simpl. lia. }
  destruct (Data.write_data state k (Some offset) data s) as [[[st m]|[e|]] s']; simpl in *; [|by destruct Hw as [-> ?]; split; [|intros a [= <-]; simpl; lia]|done].
  destruct Hw as (-> & Hc & Hbytes & Hothers). split; simpl.
  - by apply (taken_step s0 s s' k offset offset (write_flat b offset data)); try done; lia.
  - intros a _ _. by apply (taken_step s0 s s' k offset (offset + len data) (write_flat b offset data)); try done; lia.
Qed.

Lemma taken_le s0 k offset offset' s : offset' <= offset -> taken s0 k offset s -> taken s0 k offset' s.
Proof. intros Hle (Hr & Hf & Hh & b & Hb & Hs & Hl). do 3 (split; [done|]). exists b. split_and!; [done..|lia]. Qed.

Abbreviation ask h := (ask_server state sched random dav_handle net h (bearer token)).
Lemma ask_spec h args c (post : World S -> Prop) good : layer_of h = Token -> post (server c) ->
  settled post good (conclude (body h args) (server c)) ->
  exists r c', ask h args c = (Ok r, c') /\ post (server c') /\ forall resp, r = Some resp -> heard good resp (server c').
Proof.
  intros Hl Hpost Hout. pose proof (cli_send_spec h args c post good Hl Hpost Hout) as Hs. unfold ask_server.
  destruct (send _ _ _ _ _ _ _ _ _) as [r c']. by exists r, c'.
Qed.

Lemma send_part_spec s0 k offset b attempts c : taken s0 k offset (server c) -> 0 <= offset -> b <> [] -> b = slice content offset (offset + len b) ->
  exists ok c', send_part state sched random dav_handle net attempts token (Some k) offset b c = (Ok ok, c') /\
    taken s0 k offset (server c') /\ (ok = true -> taken s0 k (offset + len b) (server c')).
Proof.
  intros Ht Hoff Hne Hb. revert c Ht. induction attempts as [|attempts IH]; intros c Ht; [by exists false, c|]. cbn [send_part].
  destruct (ask_spec HWriteData (Some (k, (Some offset, b))) c _ _ eq_refl Ht (run_write_spec s0 (server c) k offset b Ht Hoff Hne Hb))
    as (r & c1 & Hask & Ht1 & Hheard).
  unfold mbind, P_bind. cbn [fmap option_fmap option_map]. rewrite Hask. destruct r as [resp|]; [|by apply IH].
  destruct (is_success resp) eqn:Hs; [|by apply IH]. exists true, c1. split; [done|]. split; [done|]. intros _.
  destruct (heard_success _ _ _ (Hheard resp eq_refl) Hs) as (a & Hg & Hst & _). apply Hg. lia.
Qed.

Context (file : Local).
Hypothesis file_steady : agrees from content file.

Lemma put_upload_spec s0 k capacity fuel reads offset c : taken s0 k offset (server c) -> from <= offset <= len content ->
  exists r c', upload state sched random dav_handle net file fuel reads token (Some k) capacity (len content) offset c = (r, c') /\
    taken s0 k 0 (server c') /\
    match r with
    | Ok o => taken s0 k o (server c') /\ (len content - offset <= Z.of_nat fuel -> o = len content)
    | Err code => code <> SUCCESS
    end.
Proof.
  revert reads offset c. induction fuel as [|fuel IH]; intros reads offset c Ht Hoff; cbn [upload].
  { exists (Ok offset), c. split; [done|]. split; [by apply (taken_le _ _ offset); [lia|]|]. split; [done|lia]. }
  destruct (Z.ltb_spec offset (len content)).
  2: { exists (Ok offset), c. split; [done|]. split; [by apply (taken_le _ _ offset); [lia|]|]. split; [done|lia]. }
  destruct (fill file _ reads offset _ []) as [[b|] reads'] eqn:Hfill.
  2: { eexists _, c. split; [reflexivity|]. split; [by apply (taken_le _ _ offset); [lia|]|done]. }
  apply (put_fill_spec from content) in Hfill as [Hb _]; [|done|lia|by rewrite slice_empty by (rewrite len_nil; lia)|rewrite len_nil; lia].
  destruct b as [|x b].
  { eexists _, c. split; [reflexivity|]. split; [by apply (taken_le _ _ offset); [lia|]|done]. }
  set (part := x :: b) in *. assert (Hlen : 0 < len part <= len content - offset).
  { split; [unfold part; rewrite len_cons; pose proof (len_nonneg b); lia|]. apply (f_equal len) in Hb. rewrite len_slice in Hb. lia. }
  destruct (send_part_spec s0 k offset part 3 c Ht ltac:(lia) ltac:(done) Hb) as (ok & c1 & Hsend & Ht1 & Hok).
  unfold mbind, P_bind. rewrite Hsend. destruct ok.
  2: { eexists _, c1. split; [reflexivity|]. split; [by apply (taken_le _ _ offset); [lia|]|done]. }
  rewrite wadd_id by lia. destruct (IH reads' (offset + len part) c1 (Hok eq_refl) ltac:(lia)) as (r & c' & Hrun & Hany & Hr).
  exists r, c'. split; [exact Hrun|]. split; [done|]. destruct r; [|done]. destruct Hr as [? Hend]. split; [done|]. intros Hfuel. apply Hend. lia.
Qed.

(** *** The other requests *)

Lemma run_sync_spec s0 s k offset : taken s0 k offset s ->
  settled (taken s0 k offset) (fun _ s' => taken s0 k offset s' /\ forall v, ~ open_version (repo s') k v) (conclude (body HSyncNode (Some k)) s).
Proof.
  intros Ht. pose proof Ht as (Hr & _ & _ & b & Hb & Hs & Hle). pose proof (sync_node_keeps k s) as Hkeep.
  destruct (sync_node_spec state sched parallel_ok s k b (rd_consistent _ Hr) Hb) as (s' & Hrun & Hc & Hsame & Hno).
  unfold conclude, body, run, mbind, M_bind. rewrite Hrun in Hkeep |- *. simpl in *.
  assert (Ht' : taken s0 k offset s') by (apply (taken_step s0 s s' k offset offset b); try done; [by rewrite Hsame|by apply (taken_from _ _ _ _ _ Ht Hb)]).
  by split.
Qed.

Lemma run_resolve_spec s what : entries_ok (repo s) -> few_children (repo s) -> Name.valid what ->
  exists a, conclude (body HResolvePath (Some (str "/" ++ what))) s = (Router.Answered a, s) /\
    ((exists n, a = answer 200 (NodeBody (Nodes.node_to_response n)) /\ entry s what (n_id n) /\ nodes (repo s) !! n_id n = Some n) \/
     a_status a = 404 /\ forall k, ~ entry s what k).
Proof.
  intros He Hf Hv. destruct (ent_root _ He) as (d & Hd & _). destruct (rename_target s (root_id (repo s)) what He Hf) as (l & Hl & Hfind).
  assert (Hrun : Nodes.resolve_path (str "/" ++ what) s =
    match list_find (fun x => n_name x = what) l with
    | Some (_, child) => (Ok (Nodes.node_to_response child), s)
    | None => (Err (Fail (AppErrors.not_found "path not found")), s)
    end).
  { unfold Nodes.resolve_path. change (str "/" ++ what) with (x2f :: what). pose proof (trim_valid what [] Hv) as Htrim.
    rewrite app_nil_r in Htrim. change (Nodes.trim_start (x2f :: what)) with (Nodes.trim_start what). rewrite Htrim. unfold mbind at 1, M_bind at 1.
    unfold AppState.query at 1, get_root, get_node. rewrite Hd. cbn [ok_or map_err]. rewrite bool_decide_false by apply Hv.
    rewrite split_slash_one by apply Hv. unfold mbind at 1, M_bind at 1. cbn [Nodes.walk]. rewrite bool_decide_false by apply Hv.
    unfold mbind, M_bind. rewrite (ent_keyed _ He _ _ Hd), Hl. by destruct (list_find _ l) as [[i x]|]. }
  unfold conclude, body, run, mbind, M_bind. rewrite Hrun. destruct (list_find _ l) as [[i n]|].
  - eexists. split; [reflexivity|]. left. exists n. by split_and!; destruct Hfind.
  - eexists. split; [reflexivity|]. by right.
Qed.

(** A node whose place alone has changed. *)
Lemma moved_ok s s' k n t0 parent what b : consistent state s -> nodes (repo s) !! k = Some n -> fbytes s k = Some b ->
  repo s' = with_nodes (repo s) (<[k := set_place (Some parent) what t0 n]> (nodes (repo s))) ->
  store s' = store s -> uuids s' = uuids s -> drawn s' = drawn s ->
  consistent state s' /\ fbytes s' k = Some b /\ forall k', k' <> k -> fbytes s' k' = fbytes s k'.
Proof.
  intros Hc Hn Hb Hr Hs Hu Hd. apply (file_bytes_repr state sched parallel_ok s k b Hc) in Hb. pose proof Hc as [[Hk [Hinj Hfresh Hsd]] _].
  assert (Ho : objs s' = objs s) by (unfold objs; by rewrite Hs). apply consistent_touches; [done|done| | |].
  - split; [|split; rewrite ?Hu, ?Hd, ?Ho, ?Hr; [done| |by rewrite Hs]].
    + rewrite Hr. destruct Hk as [Hv Hnid Hcur Hst]. split; simpl; [done| | |done].
      * intros j m. rewrite lookup_insert. case_decide; [intros [= <-]; subst; by apply Hnid in Hn|apply Hnid].
      * intros j m vid. rewrite lookup_insert. case_decide; [intros [= <-] Hcv; subst; simpl in Hcv; by apply (Hcur _ n)|apply Hcur].
    + intros m Hm. by apply Hfresh.
  - split; rewrite ?Hr, ?Ho; try done. intros j Hj. simpl. by rewrite lookup_insert_ne.
  - rewrite Hr, Ho. destruct Hb as [Hsz (m & Hm & Hkind & Hsize & Hver)]. assert (m = n) as -> by congruence.
    split; [done|]. exists (set_place (Some parent) what t0 n). split; [simpl; apply lookup_insert_eq|]. split; [done|]. split; [done|].
    destruct Hver as [(v & Hopen & Huniq & Hvs & Hst)|[Hnone Hcur]]; [left; exists v|right; split; [done|]].
    + do 3 (split; [done|]). by apply (stored_mono state (repo s) _ (objs s)).
    + simpl. destruct (n_current_version_id n) as [vid|]; [|done]. destruct Hcur as (v & Hv & Hid & Hnid & Hvs & Hst). exists v.
      do 4 (split; [done|]). by apply (stored_mono state (repo s) _ (objs s)).
Qed.

Definition published s k : Prop := entry s name k /\ fbytes s k = Some content /\ forall v, ~ open_version (repo s) k v.

Lemma upload_name_other : upload_name name <> name.
Proof. intros Heq%(f_equal length). unfold upload_name in Heq. rewrite !length_app in Heq. simpl in Heq. lia. Qed.

(** Nothing else has the name. *)
Lemma victim_free s k what : entries_ok (repo s) ->
  existsb (fun m => negb (bool_decide (n_id m = k)) && is_child (root_id (repo s)) what m) (hm_values (nodes (repo s))) = false ->
  forall j, j <> k -> ~ entry s what j.
Proof.
  intros He Hex j Hj (m & Hm & Hp & Hna). apply not_true_iff_false in Hex. apply Hex, existsb_values. exists j, m. split; [done|].
  rewrite bool_decide_false by (by rewrite (ent_keyed _ He _ _ Hm)). by apply is_child_true.
Qed.

Lemma run_publish_spec s0 s k : taken s0 k (len content) s -> (forall v, ~ open_version (repo s) k v) ->
  settled (fun s' => ready s' /\ frame s0 s')
    (fun a s' => a_status a < 300 -> published s' k /\ forall k', ~ entry s name k')
    (conclude (body HPublishNode (Some (k, {| Nodes.rn_new_parent_id := root_id (repo s); Nodes.rn_new_name := name |}))) s).
Proof.
  intros (Hr & Hf & Hh & b & Hb & Hs & Hle) Hno. pose proof (starts_whole b content Hs Hle) as ->.
  pose proof Hr as [Hc He _]. pose proof Hh as (n & Hn & Hp & Hna). destruct (ent_root _ He) as (d & Hd & Hdk & Hdp).
  assert (Hrootk : k <> root_id (repo s)) by (intros ->; congruence).
  unfold conclude, body, run, mbind, M_bind, Nodes.publish_node, Nodes.to_name. cbn [Nodes.rn_new_parent_id Nodes.rn_new_name].
  rewrite (CoreFacts.name_new_valid _ name_ok). unfold mbind, M_bind, mret, M_ret, now, update. cbn [repo].
  unfold MemoryRepo.publish_node. rewrite Hn. pose proof (victim_free s k name He) as Hfree. destruct (existsb _ _) eqn:Hex.
  { cbn. split; [|intros a [= <-]; simpl; lia]. split; [by eapply ready_alike; [|exact Hr]|]. eapply frame_trans; [exact Hf|]. by apply frame_alike. }
  cbn [map_err fst snd]. match goal with |- context [set_repo ?w0 ?r] => set (s' := set_repo w0 r) end.
  destruct (moved_ok s s' k n (clock s (ticks s)) (root_id (repo s)) name content Hc Hn Hb eq_refl eq_refl eq_refl eq_refl) as (Hc' & Hb' & Hothers).
  assert (Hent : entries_ok (repo s')) by (apply (entries_ok_place (repo s) k n (root_id (repo s)) d name); try done; by apply Hfree).
  assert (Hk' : nodes (repo s') !! k = Some (set_place (Some (root_id (repo s))) name (clock s (ticks s)) n)) by apply lookup_insert_eq.
  assert (Hold : forall j, j <> k -> nodes (repo s') !! j = nodes (repo s) !! j) by (intros j Hj; by apply lookup_insert_ne).
  assert (Hready : ready s').
  { split; [done..|]. intros j (m & Hm & Hmp & Hmn). destruct (decide (j = k)) as [->|Hj].
    - rewrite Hk' in Hm. injection Hm as <-. by destruct (upload_name_other (eq_sym Hmn)).
    - rewrite Hold in Hm by done. exfalso. apply Hj. apply (entry_fun s (upload_name name)); [done| |done]. by exists m. }
  unfold AppState.query, get_node. rewrite Hk'. cbn. split.
  - split; [done|]. eapply frame_trans; [exact Hf|]. split; [done|]. intros j m Hm Hj. destruct (decide (j = k)) as [->|Hne]; [done|].
    split; [by apply Hothers|]. exists m. by rewrite Hold.
  - intros a _ _. split.
    + split; [eexists; split; [exact Hk'|done]|]. split; [done|]. intros v (Hv & Hid & Hst). by apply (Hno v).
    + intros j Hj. apply (Hfree eq_refl j); [|done]. intros ->. apply upload_name_other. destruct Hj as (m & Hm & _ & Hmn). congruence.
Qed.

(** *** Beginning *)

Definition upload_request (root key : Uuid) : Nodes.CreateNodeRequest :=
  {| Nodes.cn_parent_id := root; Nodes.cn_name := upload_name name; Nodes.cn_kind := NodeModel.File; Nodes.cn_mode := 33188;
     Nodes.cn_uid := 0; Nodes.cn_gid := 0; Nodes.cn_link_target := None; Nodes.cn_idempotency_key := key |}.
(** The identifier is new. *)
Definition new_key s key : Prop := nodes (repo s) !! key = None /\ forall j v, versions (repo s) !! j = Some v -> v_node_id v <> key.

Lemma upload_name_valid : Name.valid (upload_name name).
Proof.
  destruct name_ok as (_ & Hnul & Hslash). unfold upload_name. split; [done|].
  split; rewrite !not_elem_of_app; (split; [|split; [done|]]); apply (bool_decide_unpack _); vm_compute; reflexivity.
Qed.

Lemma run_create_spec s key : ready s -> (forall k, ~ hidden s k) -> from = 0 -> new_key s key ->
  exists n s', conclude (body HCreateNode (Some (upload_request (root_id (repo s)) key))) s
      = (Router.Answered (answer 201 (NodeBody (Nodes.node_to_response n))), s') /\ n_id n = key /\ taken s key 0 s' /\
    forall j, entry s' name j -> entry s name j.
Proof.
  intros Hr Hnone Hfrom [Hnew Hnov]. pose proof Hr as [Hc He _]. destruct (ent_root _ He) as (d & Hd & Hdk & _).
  unfold conclude, body, run, mbind, M_bind, Nodes.create_node, Nodes.to_name. cbn [upload_request Nodes.cn_name Nodes.cn_kind Nodes.cn_link_target].
  rewrite (CoreFacts.name_new_valid _ upload_name_valid). unfold mbind, M_bind, mret, M_ret, now, update. rewrite bool_decide_false by (intros Hn; by apply Hn).
  cbn [repo Nodes.cn_idempotency_key Nodes.cn_parent_id upload_request]. unfold MemoryRepo.create_node. rewrite Hnew.
  cbn -[upload_name]. match goal with |- context [Nodes.node_to_response ?m] => set (n := m) end.
  match goal with |- context [(_, ?w)] => set (s' := w) end. exists n, s'. split; [done|]. split; [done|].
  assert (Hk : nodes (repo s') !! key = Some n) by apply lookup_insert_eq.
  assert (Hold : forall j, j <> key -> nodes (repo s') !! j = nodes (repo s) !! j) by (intros j Hj; by apply lookup_insert_ne).
  assert (He' : entries_ok (repo s')) by (by apply (DavFacts.entries_ok_insert (repo s) (root_id (repo s)) d key n (upload_name name))).
  destruct (consistent_touches state sched parallel_ok s s' key []) as (Hc' & Hb' & Hothers); [done| | | |].
  - pose proof Hc as [[[Hv Hnid Hcur Hst] [Hinj Hfresh Hsd]] _]. split; [split; simpl; [done| | |done]|by split].
    + intros j m. rewrite lookup_insert. case_decide; [intros [= <-]; by subst|by apply Hnid].
    + intros j m vid. rewrite lookup_insert. case_decide; [by intros [= <-]|by apply Hcur].
  - by split.
  - split; [rewrite len_nil; lia|]. exists n. do 3 (split; [done|]). right. split; [|done]. intros v (Hv & Hvn & _). by apply (Hnov _ _ Hv).
  - assert (Hh : hidden s' key) by (by exists n). split.
    2: { intros j (m & Hm & Hmp & Hmn). destruct (decide (j = key)) as [->|Hj]; [|rewrite Hold in Hm by done; by exists m].
         exfalso. apply upload_name_other. rewrite Hk in Hm. injection Hm as <-. done. }
    split; [|split; [|split; [done|]]].
    + split; [done..|]. intros j Hj. assert (j = key) as -> by (by apply (entry_fun s' (upload_name name))). exists []. split; [done|]. split; [apply starts_nil|rewrite len_nil; lia].
    + split; [done|]. intros j m Hm _. assert (j <> key) by congruence. split; [by apply Hothers|]. exists m. by rewrite Hold.
    + exists []. split; [done|]. split; [apply starts_nil|]. apply len_nonneg.
Qed.

(** A request that is heard arrives. *)
Definition arrives k : Prop := net k = HttpClient.Answered \/ net k = Cut.
Lemma ask_sent h args c r c' : ask h args c = (r, c') -> sent c' = Datatypes.S (sent c).
Proof. unfold ask_server, send. destruct (net (sent c)); by intros [= <- <-]. Qed.
Lemma ask_arrives h args c a : layer_of h = Token -> arrives (sent c) -> (conclude (body h args) (server c)).1 = Router.Answered a ->
  exists resp c', ask h args c = (Ok (Some resp), c') /\ r_status resp = a_status a.
Proof.
  intros Hl Harr Ha. unfold ask_server, send.
  assert (Heq : conclude (call state sched random dav_handle h (bearer token) args) (server c) = conclude (body h args) (server c))
    by (unfold conclude; by rewrite call_body). rewrite Heq, Ha. destruct Harr as [-> | ->]; by eexists _, _.
Qed.

(** What a stage of the upload leaves behind. *)
Definition begun s0 (r : result Z (option Uuid * option Uuid * Z)) s : Prop :=
  ready s /\ frame s0 s /\
  match r with
  | Ok (id, root, offset) => exists k, id = Some k /\ root = Some (root_id (repo s)) /\ taken s0 k offset s /\ from <= offset <= len content
  | Err code => code <> SUCCESS
  end.

Lemma run_root_spec s : entries_ok (repo s) -> exists d, n_id d = root_id (repo s) /\
  conclude (body HGetRoot (Some tt)) s = (Router.Answered (answer 200 (NodeBody (Nodes.node_to_response d))), s).
Proof.
  intros He. destruct (ent_root _ He) as (d & Hd & _). exists d. split; [by apply (ent_keyed _ He)|].
  unfold conclude, body, run, mbind, M_bind, Nodes.get_root, mbind, M_bind, AppState.query, get_root, get_node. by rewrite Hd.
Qed.
(** A request that only reads. *)
Lemma ask_reads h args c a : layer_of h = Token -> conclude (body h args) (server c) = (Router.Answered a, server c) ->
  exists r c', ask h args c = (Ok r, c') /\ server c' = server c /\
    forall resp, r = Some resp -> (r_status resp = a_status a /\ forall b, r_body resp = Some b -> b = a_body a) \/ 400 <= r_status resp /\ r_body resp = None.
Proof.
  intros Hl Hrun. destruct (ask_spec h args c (fun s => s = server c) (fun a' _ => a' = a) Hl eq_refl) as (r & c' & Hask & Hs & Hheard).
  { rewrite Hrun. split; [done|]. by intros a' [= <-]. }
  exists r, c'. split; [done|]. split; [done|]. intros resp Hr. destruct (Hheard resp Hr) as [(a' & -> & ? & ?)|?]; auto.
Qed.
Lemma json_body resp b : json resp = Some b -> r_body resp = Some b.
Proof. unfold json. destruct (r_body resp) as [[]|]; naive_solver. Qed.

Lemma create_upload_spec key c : ready (server c) -> (forall k, ~ hidden (server c) k) -> from = 0 -> new_key (server c) key ->
  exists r c', create_upload state sched random dav_handle net token name key c = (r, c') /\ begun (server c) r (server c').
Proof.
  intros Hr Hnone Hfrom Hkey. destruct (run_root_spec (server c) (rd_entries _ Hr)) as (d & Hd & Hroot).
  destruct (ask_reads HGetRoot (Some tt) c _ eq_refl Hroot) as (r & c1 & Hask & Hs1 & Hresp). unfold create_upload, mbind at 1, P_bind at 1. rewrite Hask.
  destruct (r ≫= json) as [root|] eqn:Hj; [|eexists _, c1; split; [reflexivity|]; rewrite Hs1; split; [done|]; split; [apply frame_refl|done]].
  apply bind_Some in Hj as (resp & -> & Hj%json_body). assert (root = NodeBody (Nodes.node_to_response d)) as ->.
  { destruct (Hresp resp eq_refl) as [[_ Hb]|[_ Hb]]; [by apply Hb|congruence]. }
  cbn [id_field Nodes.node_to_response Nodes.nr_id]. rewrite Hd, <-Hs1. cbn [fmap option_fmap option_map].
  change ({| Nodes.cn_parent_id := _; Nodes.cn_name := _; Nodes.cn_kind := _; Nodes.cn_mode := _; Nodes.cn_uid := _; Nodes.cn_gid := _;
     Nodes.cn_link_target := _; Nodes.cn_idempotency_key := _ |}) with (upload_request (root_id (repo (server c1))) key).
  rewrite <-Hs1 in Hr, Hnone, Hkey. destruct (run_create_spec (server c1) key Hr Hnone Hfrom Hkey) as (n & s' & Hrun & Hid & Ht & _).
  destruct (ask_spec HCreateNode (Some (upload_request (root_id (repo (server c1))) key)) c1 (fun s => s = server c1 \/ s = s')
    (fun a s => a = answer 201 (NodeBody (Nodes.node_to_response n)) /\ s = s') eq_refl) as (r2 & c2 & Hask2 & Hs2 & Hheard); [by left| |].
  { rewrite Hrun. split; [by right|]. intros a [= <-]. done. }
  unfold mbind at 1, P_bind at 1. rewrite Hask2.
  assert (Hany : ready (server c2) /\ frame (server c1) (server c2)).
  { destruct Hs2 as [-> | ->]; [split; [done|apply frame_refl]|]. by destruct Ht as (? & ? & _). }
  destruct r2 as [resp2|]; [|eexists _, c2; split; [reflexivity|]; by destruct Hany].
  destruct (is_success resp2) eqn:Hs; [|eexists _, c2; split; [reflexivity|]; by destruct Hany].
  destruct (heard_success _ _ _ (Hheard resp2 eq_refl) Hs) as (a & [-> Hs2'] & _ & Hb).
  destruct (json resp2) as [node|]; [|eexists _, c2; split; [reflexivity|]; by destruct Hany]. specialize (Hb node eq_refl) as ->.
  eexists _, c2. split; [reflexivity|]. split; [apply Hany|]. split; [apply Hany|]. exists key. cbn. rewrite Hid. split; [done|].
  destruct Hany as [_ [Hrt _]]. split; [by rewrite Hrt|]. split; [by rewrite Hs2'|]. pose proof (len_nonneg content). lia.
Qed.

(** The recorded size of a file is the length of its bytes. *)
Lemma recorded_size s k n b : nodes (repo s) !! k = Some n -> fbytes s k = Some b -> n_size n = len b.
Proof.
  intros Hn. unfold file_bytes. rewrite Hn. cbn [mbind option_bind]. destruct (Data.read_bytes _ _ _ _ _ _) as [[[b' cm]|e] s']; [|done].
  simpl. destruct (Z.eqb_spec (n_size n) (len b')); [|done]. by intros [= <-].
Qed.

Lemma begin_upload_spec resume key c : ready (server c) -> few_children (repo (server c)) -> new_key (server c) key ->
  ((forall k, ~ hidden (server c) k) -> from = 0) -> ((forall k, ~ hidden (server c) k) \/ arrives (sent c)) ->
  exists r c', begin_upload state sched random dav_handle net token name resume (len content) key c = (r, c') /\ begun (server c) r (server c').
Proof.
  intros Hr Hfew Hkey Hfrom Hlook. destruct (run_resolve_spec (server c) (upload_name name) (rd_entries _ Hr) Hfew upload_name_valid) as (a & Hrun & Ha).
  destruct (ask_reads HResolvePath (Some (str "/" ++ upload_name name)) c a eq_refl Hrun) as (r & c1 & Hask & Hs1 & Hresp).
  unfold begin_upload, mbind at 1, P_bind at 1. rewrite Hask.
  assert (Hfresh : (exists resp, r = Some resp /\ is_success resp = true) \/ forall k, ~ hidden (server c1) k).
  { rewrite Hs1. destruct Ha as [(n & -> & Hn)|[_ Hno]]; [|by right]. destruct Hlook as [Hno|Harr]; [by right|]. left.
    destruct (ask_arrives HResolvePath (Some (str "/" ++ upload_name name)) c _ eq_refl Harr ltac:(by rewrite Hrun)) as (resp & c2 & Hask2 & Hst).
    rewrite Hask in Hask2. injection Hask2 as -> _. exists resp. split; [done|]. unfold is_success. by rewrite Hst. }
  assert (Hcreate : (forall k, ~ hidden (server c1) k) -> exists r c', create_upload state sched random dav_handle net token name key c1 = (r, c') /\
    begun (server c) r (server c')).
  { intros Hno. rewrite <-Hs1 in Hr, Hkey. destruct (create_upload_spec key c1 Hr Hno (Hfrom ltac:(by rewrite <-Hs1)) Hkey) as (r' & c' & ? & ?). exists r', c'. by rewrite <-Hs1. }
  destruct r as [resp|]; [|apply Hcreate; destruct Hfresh as [(? & ? & _)|?]; done].
  destruct (is_success resp) eqn:Hs; [|apply Hcreate; destruct Hfresh as [(? & [= <-] & ?)|?]; [congruence|done]].
  assert (Hexit : forall code, code <> SUCCESS -> begun (server c) (Err code) (server c1)).
  { intros code Hcode. rewrite Hs1. split; [done|]. split; [apply frame_refl|done]. }
  destruct (json resp) as [node|] eqn:Hj; [|eexists _, c1; split; [reflexivity|]; by apply Hexit].
  destruct (Hresp resp eq_refl) as [[Hst Hb]|[Hst _]]; [|unfold is_success in Hs; lia]. apply json_body in Hj. specialize (Hb node Hj) as ->.
  destruct Ha as [(n & -> & Hentry & Hn)|[Hst4 _]]; [|unfold is_success in Hs; lia].
  destruct (rd_partial _ Hr (n_id n) Hentry) as (b & Hb & Hst' & Hlong). pose proof (recorded_size _ _ _ _ Hn Hb) as Hsize.
  destruct resume; [|eexists _, c1; split; [reflexivity|]; by apply Hexit].
  cbn [negb size_field answer a_body default from_option Nodes.node_to_response Nodes.nr_size]. unfold Datatypes.id.
  pose proof (len_nonneg b). pose proof (proj1 Hst') as Hle. assert (Hu : u64 (len b) = len b) by (apply u64_id; unfold in_u64; lia); rewrite Hsize, Hu.
  unfold checked_resume_offset. destruct (Z.ltb_spec (len content) (len b)); [lia|]. eexists _, c1. split; [reflexivity|]. rewrite Hs1.
  split; [done|]. split; [apply frame_refl|]. exists (n_id n). split; [done|]. pose proof Hentry as (m & Hm & Hmp & _). assert (m = n) as -> by congruence.
  split; [cbn; by rewrite Hmp|]. split; [|lia]. split; [done|]. split; [apply frame_refl|]. split; [done|]. by exists b.
Qed.

Lemma publish_spec s0 k c : taken s0 k (len content) (server c) ->
  exists r c', publish state sched random dav_handle net token name (Some k) (Some (root_id (repo (server c)))) c = (r, c') /\
    ready (server c') /\ frame s0 (server c') /\
    (exit_code r = SUCCESS -> published (server c') k /\ forall k', nodes (repo s0) !! k' <> None -> ~ entry s0 name k').
Proof.
  intros Ht. unfold publish, mbind at 1, P_bind at 1.
  destruct (ask_spec HSyncNode (Some k) c _ _ eq_refl Ht (run_sync_spec s0 (server c) k (len content) Ht)) as (r & c1 & Hask & Ht1 & Hheard).
  rewrite Hask. assert (Hroot : root_id (repo (server c1)) = root_id (repo (server c))).
  { destruct Ht as (_ & [Hr0 _] & _), Ht1 as (_ & [Hr1 _] & _). congruence. }
  assert (Hexit : exists r c', (@Err Z Z FAILURE, c1) = (r, c') /\ ready (server c') /\ frame s0 (server c') /\
    (exit_code r = SUCCESS -> published (server c') k /\ forall k', nodes (repo s0) !! k' <> None -> ~ entry s0 name k')).
  { exists (Err FAILURE), c1. split; [done|]. destruct Ht1 as (? & ? & _). done. }
  destruct r as [resp|]; [|exact Hexit]. destruct (is_success resp) eqn:Hs; cbn [negb]; [|exact Hexit].
  destruct (heard_success _ _ _ (Hheard resp eq_refl) Hs) as (_ & [_ Hno] & _).
  unfold mbind at 1, P_bind at 1. cbn [mbind option_bind]. rewrite <-Hroot.
  pose proof (run_publish_spec s0 (server c1) k Ht1 Hno) as Hpub. pose proof Ht1 as (Hr1 & Hf1 & Hh1 & _).
  destruct (ask_spec HPublishNode (Some (k, {| Nodes.rn_new_parent_id := root_id (repo (server c1)); Nodes.rn_new_name := name |})) c1 _ _ eq_refl
    (conj Hr1 Hf1) Hpub) as (r2 & c2 & Hask2 & [Hr2 Hf2] & Hheard2).
  rewrite Hask2. destruct r2 as [resp2|]; [|by eexists _, c2]. destruct (is_success resp2) eqn:Hs2; [|by eexists _, c2].
  eexists _, c2. split; [reflexivity|]. split; [done|]. split; [done|]. intros _.
  destruct (heard_success _ _ _ (Hheard2 resp2 eq_refl) Hs2) as (a & Hg & Hst & _). destruct (Hg ltac:(lia)) as [Hp Hfree]. split; [done|].
  intros k' Hin (n & Hn & Hnp & Hnn). apply (Hfree k'). destruct Hf1 as [Hroot1 Hf1]. destruct (Hf1 k' n Hn) as (_ & n' & Hn' & Hpl).
  - intros (m & Hm & _ & Hmn). apply upload_name_other. congruence.
  - injection Hpl as _ Hp' Hna' _. exists n'. rewrite Hroot1. split_and!; congruence.
Qed.

Lemma upload_and_publish_spec s0 k offset part_size c : taken s0 k offset (server c) -> from <= offset <= len content ->
  exists r c', upload_and_publish state sched random dav_handle net file token name part_size (len content) (Some k) (Some (root_id (repo (server c)))) offset c = (r, c') /\
    ready (server c') /\ frame s0 (server c') /\
    (exit_code r = SUCCESS -> (exists k, published (server c') k) /\ forall k, ~ entry s0 name k).
Proof.
  intros Ht Hoff. pose proof Ht as (Hr & Hf & _). unfold upload_and_publish.
  destruct (opens file), (seeks file); try by eexists _, c. destruct (2 ^ 63 <=? part_size); [by eexists _, c|]. cbn [negb].
  destruct (put_upload_spec s0 k part_size (Z.to_nat (len content - offset)) 0 offset c Ht Hoff) as (r & c1 & Hrun & Hany & Hend).
  unfold mbind, P_bind. rewrite Hrun. pose proof Hany as (Hr1 & Hf1 & _). destruct r as [o|code]; [|by exists (Err code), c1].
  destruct Hend as [Ht1 Heq]. specialize (Heq ltac:(lia)) as ->. rewrite Z.eqb_refl. cbn [negb].
  destruct (metadata file 1) as [now|] eqn:Hm; [|by eexists _, c1]. apply (st_metadata _ _ _ file_steady) in Hm as ->. rewrite Z.eqb_refl. cbn [negb].
  assert (Hroot : root_id (repo (server c)) = root_id (repo (server c1))) by (destruct Hf as [? _], Hf1 as [? _]; congruence). rewrite Hroot.
  destruct (publish_spec s0 k c1 Ht1) as (r & c' & Hp & Hr' & Hf' & Hs). exists r, c'. split; [done|]. split; [done|]. split; [done|].
  intros Hok. destruct (Hs Hok) as [Hpub Hfree]. split; [by exists k|]. intros j Hj. apply (Hfree j); [|done]. destruct Hj as (m & Hm & _). congruence.
Qed.

Lemma put_file_spec resume key c :
  ready (server c) -> few_children (repo (server c)) -> new_key (server c) key -> ((forall k, ~ hidden (server c) k) -> from = 0) ->
  ((forall k, ~ hidden (server c) k) \/ arrives (2 + sent c)) ->
  exists r c', put_file state sched random dav_handle net file token name resume key c = (r, c') /\
    ready (server c') /\ frame (server c) (server c') /\
    (exit_code r = SUCCESS -> (exists k, published (server c') k) /\ forall k, ~ entry (server c) name k).
Proof.
  intros Hr Hfew Hkey Hfrom Hlook. unfold put_file.
  assert (Hexit : forall code c', code <> SUCCESS -> ready (server c') /\ frame (server c) (server c') ->
    exists r c0, (@Err Z Z code, c') = (r, c0) /\ ready (server c0) /\ frame (server c) (server c0) /\
      (exit_code r = SUCCESS -> (exists k, published (server c0) k) /\ forall k, ~ entry (server c) name k)).
  { intros code c' Hcode [? ?]. exists (Err code), c'. done. }
  destruct (metadata file 0) as [total|] eqn:Hm; [|apply Hexit; [done|split; [done|apply frame_refl]]].
  apply (st_metadata _ _ _ file_steady) in Hm as ->. unfold mbind at 1, P_bind at 1. unfold fetch_part_size, mbind at 1, P_bind at 1.
  destruct (ask_reads HGetFsInfo (Some tt) c (answer 200 (Info (chunk_size state))) eq_refl eq_refl) as (r & c1 & Hask & Hs1 & _). rewrite Hask.
  pose proof (ask_sent _ _ _ _ _ Hask) as Hn1. destruct (r ≫= json) as [info|]; [|apply Hexit; [done|rewrite Hs1; split; [done|apply frame_refl]]].
  unfold mret, P_ret. unfold mbind at 1, P_bind at 1. unfold refuse_published, mbind at 1, P_bind at 1.
  rewrite <-Hs1 in *. destruct (run_resolve_spec (server c1) name (rd_entries _ Hr) Hfew name_ok) as (a & Hrun & _).
  destruct (ask_reads HResolvePath (Some (str "/" ++ name)) c1 a eq_refl Hrun) as (r2 & c2 & Hask2 & Hs2 & _). rewrite Hask2.
  pose proof (ask_sent _ _ _ _ _ Hask2) as Hn2. rewrite <-Hs2 in *.
  assert (Hgo : exists r c', begin_upload state sched random dav_handle net token name resume (len content) key c2 = (r, c') /\ begun (server c2) r (server c')).
  { apply begin_upload_spec; try done. destruct Hlook as [?|Harr]; [by left|right]. by rewrite Hn2, Hn1. }
  destruct Hgo as (rb & c3 & Hbegin & Hr3 & Hf3 & Hb3).
  assert (Hcont : exists r c', (begin_upload state sched random dav_handle net token name resume (len content) key ≫= fun '(id, root, offset) =>
      upload_and_publish state sched random dav_handle net file token name (default (8 * 1024 * 1024) (chunk_size_field info)) (len content) id root offset) c2
        = (r, c') /\
    ready (server c') /\ frame (server c2) (server c') /\
    (exit_code r = SUCCESS -> (exists k, published (server c') k) /\ forall k, ~ entry (server c2) name k)).
  { unfold mbind, P_bind. rewrite Hbegin. destruct rb as [[[id root] offset]|code]; [|by apply Hexit].
    destruct Hb3 as (k & -> & -> & Ht & Hoff). by apply upload_and_publish_spec. }
  destruct r2 as [resp|]; [destruct (is_success resp)|]; [apply Hexit; [done|split; [done|apply frame_refl]]|exact Hcont|exact Hcont].
Qed.

(** *** When the server answers *)

(** Every request is answered, and the local file can be read. *)
Record up : Prop := {
  up_net : forall k, net k = HttpClient.Answered;
  up_opens : opens file = true;
  up_seeks : seeks file = true;
  up_metadata : forall k, is_Some (metadata file k);
  up_read : forall k pos n, from <= pos < len content -> 0 < n -> is_Some (read file k pos n);
  up_parts : chunk_size state <= MAX_WRITE_BYTES;
}.
Hypothesis all_up : up.

Lemma ask_up h args c a s' : layer_of h = Token -> conclude (body h args) (server c) = (Router.Answered a, s') ->
  ask h args c = (Ok (Some {| r_status := a_status a; r_body := Some (a_body a) |}), {| server := s'; sent := Datatypes.S (sent c) |}).
Proof.
  intros Hl Ha. unfold ask_server, send.
  assert (Heq : conclude (call state sched random dav_handle h (bearer token) args) (server c) = conclude (body h args) (server c))
    by (unfold conclude; by rewrite call_body). by rewrite Heq, Ha, (up_net all_up).
Qed.

Lemma fill_up fuel reads pos wanted buf : from <= pos -> pos + wanted <= len content -> buf <> [] \/ (0 < fuel)%nat /\ 0 < wanted ->
  exists b reads', fill file fuel reads pos wanted buf = (Some b, reads') /\ b <> [].
Proof.
  intros Hpos Hw. revert reads buf. induction fuel as [|fuel IH]; intros reads buf Hb; cbn [fill].
  { destruct Hb as [?|[? _]]; [by exists buf, reads|lia]. }
  destruct (Z.ltb_spec (len buf) wanted); [|exists buf, reads; split; [done|]; destruct Hb as [?|[_ ?]]; [done|intros ->; rewrite len_nil in *; lia]].
  pose proof (len_nonneg buf). destruct (up_read all_up reads (pos + len buf) (wanted - len buf) ltac:(lia) ltac:(lia)) as [more Hr]. rewrite Hr.
  assert (Hp0 : from <= pos + len buf) by lia. destruct (st_read _ _ _ file_steady _ _ _ _ Hp0 Hr) as (_ & _ & Hend).
  destruct more as [|x more]; [destruct (Hend eq_refl); lia|]. apply IH. left. by destruct buf.
Qed.

Definition free s : Prop := forall k, ~ entry s name k.
Lemma free_tree s s' : tree (repo s') = tree (repo s) -> free s -> free s'.
Proof.
  intros Ht Hf k Hk. apply (Hf k). pose proof (f_equal snd Ht) as Hroot. simpl in Hroot. unfold entry in *. rewrite Hroot in Hk.
  by apply (child_of_tree (repo s')).
Qed.

Lemma write_up s0 s k offset data : taken s0 k offset s -> free s -> 0 <= offset -> data <> [] -> data = slice content offset (offset + len data) ->
  len data <= MAX_WRITE_BYTES -> exists a s', conclude (body HWriteData (Some (k, (Some offset, data)))) s = (Router.Answered a, s') /\
    a_status a = 200 /\ taken s0 k (offset + len data) s' /\ free s'.
Proof.
  intros Ht Hfree Hoff Hne Hdata Hmax. pose proof (run_write_spec s0 s k offset data Ht Hoff Hne Hdata) as [_ Hgood].
  pose proof Ht as (Hr & _ & _ & b & Hb & Hs & Hle). pose proof (write_data_keeps state k (Some offset) data s) as Hkeep.
  assert (Hfit : offset + len data < 2 ^ 62).
  { apply (f_equal len) in Hdata. rewrite len_slice in Hdata. destruct data; [done|]. rewrite len_cons in *. pose proof (len_nonneg data). lia. }
  destruct (write_route_ok state sched chunk_ok parallel_ok s k b offset data (rd_consistent _ Hr) Hb Hoff Hfit Hmax) as (m & s' & Hrun & _).
  unfold conclude, body, run, mbind, M_bind, within_limit, write_route in *. destruct (MAX_WRITE_BYTES <? len data); [done|].
  rewrite Hrun in *. simpl in *. eexists _, s'. split; [reflexivity|]. split; [done|]. split; [by eapply Hgood|]. by apply (free_tree s).
Qed.

Lemma upload_up s0 k fuel reads offset c : taken s0 k offset (server c) -> free (server c) -> from <= offset <= len content ->
  len content - offset <= Z.of_nat fuel ->
  exists c', upload state sched random dav_handle net file fuel reads token (Some k) (chunk_size state) (len content) offset c = (Ok (len content), c') /\
    taken s0 k (len content) (server c') /\ free (server c').
Proof.
  revert reads offset c. induction fuel as [|fuel IH]; intros reads offset c Ht Hfree Hoff Hfuel; cbn [upload].
  { assert (offset = len content) as -> by lia. by exists c. }
  destruct (Z.ltb_spec offset (len content)); [|assert (offset = len content) as -> by lia; by exists c].
  set (wanted := next_read_len _ _ _). pose proof (proj1 (proj1 chunk_ok)) as Hcs.
  assert (Hwanted : 0 < wanted <= chunk_size state /\ offset + wanted <= len content) by (unfold wanted, next_read_len, saturating_sub; lia).
  destruct (fill_up (Z.to_nat wanted) reads offset wanted []) as (b & reads' & Hfill & Hne); [lia|lia|right; lia|]. rewrite Hfill.
  apply (put_fill_spec from content) in Hfill as [Hb Hlen]; [|done|lia|by rewrite slice_empty by (rewrite len_nil; lia)|rewrite len_nil; lia].
  destruct b as [|x b]; [done|]. set (part := x :: b) in *.
  assert (Hpart : 0 < len part <= len content - offset).
  { split; [unfold part; rewrite len_cons; pose proof (len_nonneg b); lia|lia]. }
  pose proof (up_parts all_up). destruct (write_up s0 (server c) k offset part Ht Hfree ltac:(lia) Hne Hb ltac:(lia)) as (a & s' & Hrun & Hst & Ht' & Hfree').
  unfold mbind at 1, P_bind at 1. cbn [send_part]. unfold mbind at 1, P_bind at 1. cbn [fmap option_fmap option_map].
  rewrite (ask_up HWriteData _ c a s' eq_refl Hrun). unfold is_success. cbn [r_status]. rewrite Hst. cbn.
  rewrite wadd_id by lia. apply IH; [done|done|lia|lia].
Qed.

Lemma is_failure resp : 300 <= r_status resp -> is_success resp = false.
Proof. unfold is_success. lia. Qed.
Lemma begin_up resume key c : ready (server c) -> few_children (repo (server c)) -> new_key (server c) key -> free (server c) -> ((forall k, ~ hidden (server c) k) -> from = 0) ->
  ((forall k, ~ hidden (server c) k) \/ resume = true) ->
  exists k offset c', begin_upload state sched random dav_handle net token name resume (len content) key c = (Ok (Some k, Some (root_id (repo (server c'))), offset), c') /\
    taken (server c) k offset (server c') /\ from <= offset <= len content /\ free (server c').
Proof.
  intros Hr Hfew Hkey Hfree Hfrom Hres.
  destruct (begin_upload_spec resume key c Hr Hfew Hkey Hfrom) as (r & c' & Hrun & _ & _ & Hb); [right; left; apply (up_net all_up)|].
  destruct (run_resolve_spec (server c) (upload_name name) (rd_entries _ Hr) Hfew upload_name_valid) as (a & Hres1 & Ha).
  assert (Hok : exists id root offset c', begin_upload state sched random dav_handle net token name resume (len content) key c = (Ok (id, root, offset), c') /\ free (server c')).
  { unfold begin_upload, mbind at 1, P_bind at 1. rewrite (ask_up HResolvePath _ c a _ eq_refl Hres1).
    destruct Ha as [(n & -> & Hentry & Hn)|[Hst Hno]].
    - destruct Hres as [Hno| ->]; [by destruct (Hno (n_id n))|]. destruct (rd_partial _ Hr (n_id n) Hentry) as (b & Hbb & Hst' & _).
      pose proof (recorded_size _ _ _ _ Hn Hbb) as Hsize. pose proof (len_nonneg b). pose proof (proj1 Hst') as Hle.
      assert (Hu : u64 (len b) = len b) by (apply u64_id; unfold in_u64; lia).
      cbn -[u64]. rewrite Hsize, Hu. unfold checked_resume_offset. destruct (Z.ltb_spec (len content) (len b)); [lia|].
      do 4 eexists. split; [reflexivity|]. done.
    - rewrite is_failure by (cbn [r_status]; lia). unfold create_upload, mbind at 1, P_bind at 1.
      destruct (run_root_spec (server c) (rd_entries _ Hr)) as (d & Hd & Hroot).
      rewrite (ask_up HGetRoot (Some tt) {| server := server c; sent := Datatypes.S (sent c) |} _ _ eq_refl Hroot).
      cbn [mbind option_bind json r_body answer a_body id_field Nodes.node_to_response Nodes.nr_id fmap option_fmap option_map]. rewrite Hd.
      change ({| Nodes.cn_parent_id := _; Nodes.cn_name := _; Nodes.cn_kind := _; Nodes.cn_mode := _; Nodes.cn_uid := _; Nodes.cn_gid := _;
        Nodes.cn_link_target := _; Nodes.cn_idempotency_key := _ |}) with (upload_request (root_id (repo (server c))) key).
      destruct (run_create_spec (server c) key Hr Hno (Hfrom Hno) Hkey) as (n & s' & Hcreate & Hid & Ht' & Hnames).
      unfold mbind at 1, P_bind at 1.
      cbn [sent]. rewrite (ask_up HCreateNode (Some (upload_request (root_id (repo (server c))) key)) {| server := server c; sent := Datatypes.S (Datatypes.S (sent c)) |} _ _ eq_refl Hcreate).
      cbn. do 4 eexists. split; [reflexivity|]. cbn. intros j Hj. by apply (Hfree j), Hnames. }
  destruct Hok as (id & root & offset & c2 & Hrun2 & Hfree2). rewrite Hrun in Hrun2. injection Hrun2 as -> ->.
  destruct Hb as (k & -> & -> & Ht & Hoff). by exists k, offset, c2.
Qed.

Lemma publish_up s0 k c : taken s0 k (len content) (server c) -> free (server c) ->
  exists c', publish state sched random dav_handle net token name (Some k) (Some (root_id (repo (server c)))) c = (Ok SUCCESS, c') /\ exists k, published (server c') k.
Proof.
  intros Ht Hfree. unfold publish, mbind at 1, P_bind at 1. pose proof Ht as (Hr & _ & _ & b & Hb & _).
  destruct (sync_node_spec state sched parallel_ok (server c) k b (rd_consistent _ Hr) Hb) as (s1 & Hsync & _). pose proof (sync_node_keeps k (server c)) as Hkeep.
  assert (Hrun : conclude (body HSyncNode (Some k)) (server c) = (Router.Answered (answer 204 Empty), s1)) by (unfold conclude, body, run, mbind, M_bind; by rewrite Hsync).
  destruct (run_sync_spec s0 (server c) k (len content) Ht) as [Ht1 Hno]. rewrite Hrun in Ht1, Hno. destruct (Hno _ eq_refl) as [_ Hno1]. cbn [fst snd] in *.
  rewrite (ask_up HSyncNode (Some k) c _ s1 eq_refl Hrun). rewrite Hsync in Hkeep. simpl in Hkeep. pose proof (free_tree _ _ Hkeep Hfree) as Hfree1.
  cbn -[body]. assert (Hroot : root_id (repo s1) = root_id (repo (server c))) by (by apply (f_equal snd) in Hkeep). rewrite <-Hroot.
  unfold mbind at 1, P_bind at 1. pose proof (run_publish_spec s0 s1 k Ht1 Hno1) as [_ Hpub].
  assert (Hrun2 : exists n s2, conclude (body HPublishNode (Some (k, {| Nodes.rn_new_parent_id := root_id (repo s1); Nodes.rn_new_name := name |}))) s1
    = (Router.Answered (answer 200 (NodeBody n)), s2)).
  { pose proof Ht1 as (_ & _ & (n & Hn & _) & _).
    unfold conclude, body, run, mbind, M_bind, Nodes.publish_node, Nodes.to_name. cbn [Nodes.rn_new_parent_id Nodes.rn_new_name].
    rewrite (CoreFacts.name_new_valid _ name_ok). unfold mbind, M_bind, mret, M_ret, now, update. cbn [repo]. unfold MemoryRepo.publish_node. rewrite Hn.
    destruct (existsb _ _) eqn:Hex.
    - apply existsb_values in Hex as (j & m & Hm & [_ Hch%is_child_true]%andb_true_iff). destruct (Hfree1 j). by exists m.
    - cbn. unfold AppState.query, get_node. cbn. rewrite lookup_insert_eq. by do 2 eexists. }
  destruct Hrun2 as (n & s2 & Hrun2). rewrite Hrun2 in Hpub. destruct (Hpub _ eq_refl) as [Hp _]; [done|]. cbn [snd] in Hp.
  rewrite (ask_up HPublishNode _ {| server := s1; sent := Datatypes.S (sent c) |} _ s2 eq_refl Hrun2). eexists. split; [reflexivity|]. by exists k.
Qed.

(** An upload goes through. When the server answers, nothing has the name, a partial upload
    is there only to be resumed, and the local file can be read, [put] reports success. *)
Theorem put_succeeds resume key c : ready (server c) -> few_children (repo (server c)) -> new_key (server c) key -> free (server c) ->
  ((forall k, ~ hidden (server c) k) -> from = 0) ->
  ((forall k, ~ hidden (server c) k) \/ resume = true) ->
  exists c', put_file state sched random dav_handle net file token name resume key c = (Ok SUCCESS, c') /\
    exists k, published (server c') k.
Proof.
  intros Hr Hfew Hkey Hfree Hfrom Hres. unfold put_file. destruct (up_metadata all_up 0) as [total Hm]. rewrite Hm.
  apply (st_metadata _ _ _ file_steady) in Hm as ->. unfold fetch_part_size, mbind at 1, P_bind at 1, mbind at 1, P_bind at 1.
  rewrite (ask_up HGetFsInfo (Some tt) c (answer 200 (Info (chunk_size state))) (server c) eq_refl eq_refl). cbn [mbind option_bind json r_body answer a_body].
  cbn [chunk_size_field default from_option]. unfold mret, P_ret. unfold refuse_published, mbind at 1, P_bind at 1, mbind at 1, P_bind at 1.
  destruct (run_resolve_spec (server c) name (rd_entries _ Hr) Hfew name_ok) as (a & Hrun & Ha).
  rewrite (ask_up HResolvePath (Some (str "/" ++ name)) {| server := server c; sent := Datatypes.S (sent c) |} a (server c) eq_refl Hrun).
  destruct Ha as [(n & _ & Hentry & _)|[Hst _]]; [by destruct (Hfree (n_id n))|]. rewrite is_failure by (cbn [r_status]; lia).
  unfold mbind at 1, P_bind at 1. cbn [sent]. unfold mret, P_ret, Datatypes.id.
  destruct (begin_up resume key {| server := server c; sent := Datatypes.S (Datatypes.S (sent c)) |} Hr Hfew Hkey Hfree Hfrom Hres) as (k & offset & c1 & Hbegin & Ht & Hoff & Hfree1).
  rewrite Hbegin. cbn [server] in Ht. clear Hbegin. unfold upload_and_publish. rewrite (up_opens all_up), (up_seeks all_up). cbn [negb].
  pose proof chunk_ok as [[? Hmax] _]. destruct (Z.leb_spec (2 ^ 63) (chunk_size state)); [lia|].
  destruct (upload_up (server c) k (Z.to_nat (len content - offset)) 0 offset c1 Ht Hfree1 Hoff ltac:(lia)) as (c2 & Hup & Ht2 & Hfree2).
  unfold mbind at 1, P_bind at 1. rewrite Hup, Z.eqb_refl. cbn [negb]. destruct (up_metadata all_up 1) as [now Hm]. rewrite Hm.
  apply (st_metadata _ _ _ file_steady) in Hm as ->. rewrite Z.eqb_refl. cbn [negb].
  assert (Hroot : root_id (repo (server c1)) = root_id (repo (server c2))) by (destruct Ht as (_ & [? _] & _), Ht2 as (_ & [? _] & _); congruence).
  rewrite Hroot. by apply publish_up with (s0 := server c).
Qed.
End Requests.

(** *** What is published *)

(** A partial upload and the local file from where it ends. *)
Definition merged (b local : bytes) : bytes := b ++ zdrop (len b) local.
Lemma merged_nil local : merged [] local = local.
Proof. unfold merged. by rewrite zdrop_0 by (rewrite len_nil; lia). Qed.
Lemma len_merged b local : len b <= len local -> len (merged b local) = len local.
Proof. intros Hl. unfold merged. rewrite len_app, len_zdrop. pose proof (len_nonneg b). lia. Qed.
Lemma starts_merged b local : len b <= len local -> starts b (merged b local).
Proof.
  intros Hl. split; [by rewrite len_merged|]. intros i Hi. unfold merged. rewrite getb_app. by destruct (Z.ltb_spec i (len b)); [|lia].
Qed.
Lemma slice_merged b local pos e : len b <= pos -> slice (merged b local) pos e = slice local pos e.
Proof.
  intros Hp. pose proof (len_nonneg b). unfold merged, slice. rewrite zdrop_app_r by done. f_equal. rewrite !zdrop_drop, drop_drop. f_equal. lia.
Qed.
Lemma agrees_merged b local file : len b <= len local -> steady local file -> agrees (len b) (merged b local) file.
Proof.
  intros Hl [Hm Hr]. pose proof (len_nonneg b). split; [intros k n Hn; rewrite len_merged by done; by eapply Hm|].
  intros k pos n d Hpos Hd. destruct (Hr k pos n d ltac:(lia) Hd) as (Hs & ? & ?). rewrite len_merged, slice_merged by done. done.
Qed.
(** A merge with the start of the local file is the local file. *)
Lemma merged_start b local : starts b local -> merged b local = local.
Proof.
  intros [Hl Hg]. apply getb_ext; [by rewrite len_merged|]. intros i Hi. rewrite len_merged in Hi by done. unfold merged. rewrite getb_app.
  destruct (Z.ltb_spec i (len b)); [by apply Hg; lia|]. rewrite getb_zdrop by (pose proof (len_nonneg b); lia).
  destruct (Z.leb_spec 0 (i - len b)); [f_equal; lia|lia].
Qed.

Section Put.
Context `{AL : AeadLaws} `{HO : HashOrder} {S : Type} `{OL : Store.ObjectStoreLaws S} (state : Config) (sched : nat -> nat).
Context (random : option bytes) (dav_handle : Request -> AppState.M S Answer) (net : nat -> Fate).
Context (token local name : bytes) (file : Local).
Implicit Types (s : World S) (c : Client (S := S)).
Abbreviation fbytes := (file_bytes state sched).
Hypothesis chunk_ok : chunk_fits (chunk_size state).
Hypothesis parallel_ok : 1 <= parallel_chunk_fetches state.
Hypothesis honest : forall k status, net k = Turned status -> 400 <= status.
Hypothesis granted : forall expected, api_token state = Some expected -> constant_time_eq token (str expected) = true.
Hypothesis name_ok : Name.valid name.
Hypothesis local_ok : len local < 2 ^ 62.
Hypothesis file_steady : steady local file.

(** There is no partial upload, or [b] is one. *)
Definition left_behind s (b : bytes) : Prop :=
  (forall k, ~ hidden name s k) /\ b = [] \/ exists k, hidden name s k /\ fbytes s k = Some b.

End Put.

(** *** A part the server does not take *)

(** A part above the limit of the route is refused, whatever the network does. *)
Lemma large_part_refused `{AL : AeadLaws} `{HO : HashOrder} {S : Type} `{OL : Store.ObjectStoreLaws S} state sched random
    (dav_handle : Request -> AppState.M S Answer) net token id offset b attempts (c : Client (S := S)) :
  (forall k status, net k = Turned status -> 400 <= status) ->
  (forall expected, api_token state = Some expected -> constant_time_eq token (str expected) = true) -> MAX_WRITE_BYTES < len b ->
  exists c', send_part state sched random dav_handle net attempts token (Some id) offset b c = (Ok false, c').
Proof.
  intros Hhonest Hgranted Hbig. revert c. induction attempts as [|attempts IH]; intros c; [by exists c|]. cbn [send_part].
  destruct (ask_spec state sched random dav_handle net Hhonest token Hgranted HWriteData (Some (id, (Some offset, b))) c (fun _ => True)
    (fun a _ => a_status a = 413) eq_refl I) as (r & c1 & Hask & _ & Hheard).
  { split; [done|]. unfold conclude, body, run, mbind, M_bind, within_limit. destruct (Z.ltb_spec MAX_WRITE_BYTES (len b)); [|lia]. by intros a [= <-]. }
  unfold mbind, P_bind. cbn [fmap option_fmap option_map]. rewrite Hask. destruct r as [resp|]; [|by apply IH].
  destruct (is_success resp) eqn:Hs; [|by apply IH]. destruct (heard_success _ _ _ (Hheard resp eq_refl) Hs) as (a & Ha & Hst & _). lia.
Qed.

(** *** [config-check] *)

Section ConfigCheck.
Context {SocketAddr : Type} (parse_addr : bytes -> option SocketAddr) (loopback : SocketAddr) (env : string -> ServerConfig.EnvVar).
Context (opens_database : bytes -> ServerConfig.Config SocketAddr -> bool) (opens_directory : bytes -> bool).
Import ServerConfig Startup.

(** A clean check. When [config-check] reports no obstacle, nothing but the database or
    the directory of the objects can keep the server from starting; and when the server
    starts, [config-check] reports none, unless its webhooks are named only in the list. *)
Theorem check_means_start :
  let started := Startup.main parse_addr loopback opens_database opens_directory env in
  ((config_check parse_addr loopback env).2 = SUCCESS ->
    match started with Ok _ => True | Err e => e = NoDatabase \/ exists path, e = CannotOpen path end) /\
  (forall run, started = Ok run -> (config_check parse_addr loopback env).2 = SUCCESS \/
    exists c, from_env parse_addr loopback env = Ok c /\ discord_webhook_id c = None /\ object_store_path c = None /\ discord_webhooks c <> []).
Proof.
  cbn zeta. unfold config_check, Startup.main. destruct (from_env parse_addr loopback env) as [c|[e|]] eqn:Hc; [|by split; [|intros run]..].
  pose proof (ConfigFacts.from_env_valid _ _ _ _ Hc) as Hv. cbn [snd].
  destruct (pick_repository opens_database c) as [memory|e] eqn:Hrepo.
  2: { split; [|done]. intros _. left. unfold pick_repository in Hrepo. repeat case_match; naive_solver. }
  destruct (pick_store opens_directory c) as [store|e] eqn:Hst; cbn.
  - split.
    + case_bool_decide as Hb; [intros _|done]. cbn in Hb. apply app_eq_nil in Hb as [Hk Hb]. apply app_eq_nil in Hb as [Ht _].
      destruct (master_key c); [|done]. by destruct (api_token c).
    + intros run Hrun. destruct (master_key c) eqn:Hk; [|done]. destruct (api_token c) eqn:Ht; [|done]. clear Hrun.
      destruct (discord_webhook_id c) as [id|] eqn:Hid; cbn.
      * destruct (proj1 (ConfigFacts.v_pair _ Hv)) as [tok Htok]; [by eexists|]. rewrite Htok. by left.
      * unfold pick_store in Hst. destruct (object_store_path c) eqn:Hpath; [by left|]. right. exists c. split; [done|]. split; [done|]. split; [done|].
        by destruct (discord_webhooks c) eqn:Hw.
  - split; [|done]. case_bool_decide as Hb; [intros _|done]. cbn in Hb. apply app_eq_nil in Hb as [_ Hb]. apply app_eq_nil in Hb as [_ Hb].
    unfold pick_store in Hst. destruct (discord_webhooks c) as [|w l] eqn:Hw; [|done]. destruct (object_store_path c) as [path|].
    + destruct (opens_directory path); [done|]. injection Hst as <-. right. by exists path.
    + exfalso. destruct (discord_webhook_id c) as [id|] eqn:Hid; [|done]. destruct (discord_webhook_token c) as [tok|] eqn:Htok; [|done].
      pose proof (ConfigFacts.v_first _ Hv id tok Hid Htok) as Hfirst. by rewrite Hw in Hfirst.
Qed.
End ConfigCheck.
End CliFacts.
