(* ===== verification/CliExample.v ===== *)
(** * An upload, broken and resumed

    [put] of a small file to the server of [Example], over networks that lose requests and
    answers, with the properties of the command line applied to it. *)
From Stdlib.Strings Require String.
From S2P Require Import Prelude Core Crypto ObjectStore Repository Locks Server Data DataSpec DataWrite DataRead Example DataProps Nodes Places BlockCache WriteLog Mount MountFacts MountRecovery HttpClient HttpProps HttpRetry HttpExample Versions Auth Router RouterProps Discord Config ConfigProps Postgres Cli CliProps.

Module CliExample.
Import Records MemoryRepo AppState Spec Namespace HttpClient HttpFacts Auth AuthFacts Router RouterFacts Cli CliFacts Example.

Definition text_file : bytes := text "hello world".
Definition file_called : bytes := text "b.txt".
(** A file that gives at most three bytes a read. *)
Definition source : Local :=
  {| metadata := fun _ => Some (len text_file); opens := true; seeks := true;
     read := fun _ pos n => Some (slice text_file pos (pos + Z.min n 3)) |}.
Definition secret : bytes := str "secret".
Definition in_order (n : nat) : nat := n.

Lemma slice_len (l : bytes) a b : 0 <= a -> slice l a b = slice l a (a + len (slice l a b)).
Proof.
  intros Ha. pose proof (len_nonneg (slice l a b)). pose proof (len_nonneg l). assert (Hlen := len_slice l a b). apply getb_ext; [rewrite (len_slice l a (a + _)); lia|].
  intros i Hi. rewrite !getb_slice by lia. destruct ((0 <=? i) && (i <? b - a)) eqn:E1, ((0 <=? i) && (i <? a + len (slice l a b) - a)) eqn:E2; lia || done.
Qed.
Lemma source_steady : steady text_file source.
Proof.
  split; [by intros k n [= <-]|]. intros k pos n b Hpos [= <-]. pose proof (len_nonneg text_file).
  split; [by apply slice_len|]. rewrite len_slice. split; [lia|]. intros Hnil%(f_equal len). rewrite len_slice in Hnil. change (len []) with 0 in Hnil. lia.
Qed.

(** The server asks for the token. *)
Lemma guarded_consistent : consistent guarded empty_file.
Proof.
  split; [apply example_inv|]. intros k n Hn Hk. right. exists [].
  assert (Hnodes : exists n1 n0, nodes (repo empty_file) = <[file := n1]> {[ root := n0 ]} /\ n_kind n0 = "directory"%string)
    by (do 2 eexists; split; reflexivity).
  destruct Hnodes as (n1 & n0 & Heq & Hkind). destruct (decide (k = file)) as [->|Hne].
  - eapply new_file_repr; [reflexivity|vm_compute; discriminate|reflexivity|reflexivity|reflexivity].
  - exfalso. apply Hk. rewrite Heq, lookup_insert_ne in Hn by done. apply lookup_singleton_Some in Hn as [_ <-]. exact Hkind.
Qed.
Lemma no_partial k : ~ hidden file_called empty_file k.
Proof.
  intros (n & Hn & _ & Hna). assert (Hnodes : exists n1 n0, nodes (repo empty_file) = <[file := n1]> {[ root := n0 ]} /\ n_name n1 = [x61] /\ n_name n0 = [])
    by (do 2 eexists; split; [reflexivity|by split]).
  destruct Hnodes as (n1 & n0 & Heq & H1 & H0). rewrite Heq, lookup_insert, lookup_singleton in Hn. repeat case_decide; simplify_eq; rewrite ?H1, ?H0 in Hna; discriminate Hna.
Qed.
Lemma name_free : free file_called empty_file.
Proof.
  intros k (n & Hn & _ & Hna). assert (Hnodes : exists n1 n0, nodes (repo empty_file) = <[file := n1]> {[ root := n0 ]} /\ n_name n1 = [x61] /\ n_name n0 = [])
    by (do 2 eexists; split; [reflexivity|by split]).
  destruct Hnodes as (n1 & n0 & Heq & H1 & H0). rewrite Heq, lookup_insert, lookup_singleton in Hn. repeat case_decide; simplify_eq; rewrite ?H1, ?H0 in Hna; discriminate Hna.
Qed.
Lemma start_ready : ready guarded in_order text_file file_called 0 empty_file.
Proof. split; [apply guarded_consistent|apply HttpExample.start_entries|]. intros k Hk. by apply no_partial in Hk. Qed.
Lemma key_new : new_key empty_file 7%N.
Proof.
  split; [vm_compute; reflexivity|]. intros j v Hv. change (versions (repo empty_file)) with (∅ : gmap Uuid FileVersionRecord) in Hv. by rewrite lookup_empty in Hv.
Qed.
Lemma called_valid : Name.valid file_called.
Proof. split; [discriminate|]. split; apply (bool_decide_unpack _); vm_compute; reflexivity. Qed.
Lemma guarded_fits : chunk_fits (chunk_size guarded).
Proof. by split. Qed.
Lemma secret_granted expected : api_token guarded = Some expected -> constant_time_eq secret (str expected) = true.
Proof. intros [= <-]. vm_compute. reflexivity. Qed.

Definition begin_ : Client := {| server := empty_file; sent := 0 |}.
Definition upload_over (net : nat -> Fate) (resume : bool) (key : Uuid) (c : Client) : result Z Z * Client :=
  put_file guarded in_order None dav_stub net source secret file_called resume key c.

(** The answers to the first write and to the next are lost, then something on the way
    answers in the server's place once. *)
Definition shaky (k : nat) : Fate :=
  match k with 5%nat => AnswerLost | 6%nat => RequestLost | 8%nat => Turned 502 | _ => HttpClient.Answered end.
Lemma shaky_honest k status : shaky k = Turned status -> 400 <= status.
Proof. unfold shaky. intros Hk. repeat case_match; try discriminate Hk. by injection Hk as <-. Qed.


Definition steady_net (k : nat) : Fate := HttpClient.Answered.
Lemma source_up : up guarded steady_net text_file 0 source.
Proof. split; try reflexivity; [by eexists|intros k pos n Hp Hn; by eexists|vm_compute; discriminate]. Qed.
Lemma put_succeeds_witness : exists c', upload_over steady_net false 7%N begin_ = (Ok SUCCESS, c') /\
  exists k, published guarded in_order text_file file_called (server c') k.
Proof.
  apply (put_succeeds guarded in_order None dav_stub steady_net guarded_fits ltac:(vm_compute; discriminate) ltac:(intros k status Hk; discriminate Hk)
    secret secret_granted text_file file_called 0 called_valid ltac:(vm_compute; reflexivity) ltac:(done) source source_steady source_up false 7%N begin_ start_ready
    HttpExample.start_few key_new name_free (fun _ => eq_refl) (or_introl no_partial)).
Defined.

(** The network is gone after the first part; the upload fails, and a second one carries on
    from there and sends only the rest. *)
Definition broken (k : nat) : Fate := if (k <? 6)%nat then HttpClient.Answered else RequestLost.
Lemma broken_upload_resumes :
  let '(r, c) := upload_over broken false 7%N begin_ in
  exit_code r = FAILURE /\ file_bytes guarded in_order (server c) 7%N = Some (text "hell") /\
  let '(r, c') := upload_over steady_net true 8%N c in
  exit_code r = SUCCESS /\ file_bytes guarded in_order (server c') 7%N = Some text_file /\ (sent c' - sent c = 7)%nat.
Proof. vm_compute. repeat split. Qed.

(** Between the two the local file was edited, and kept its length: the resumed upload
    publishes the old start with the new end, a file there never was, and reports
    success. *)
Definition edited_file : bytes := text "HELLO WORLD".
Definition edited : Local :=
  {| metadata := fun _ => Some (len edited_file); opens := true; seeks := true;
     read := fun _ pos n => Some (slice edited_file pos (pos + n)) |}.
Lemma edited_upload_mixes :
  let '(_, c) := upload_over broken false 7%N begin_ in
  let '(r, c') := put_file guarded in_order None dav_stub steady_net edited secret file_called true 8%N c in
  exit_code r = SUCCESS /\ file_bytes guarded in_order (server c') 7%N = Some (merged (text "hell") edited_file) /\
  merged (text "hell") edited_file = text "hellO WORLD".
Proof. vm_compute. repeat split. Qed.

(** The answer to the last request is lost: the upload is reported as failed, and the
    message says that the partial upload remains, but it has been published. *)
Definition last_lost (k : nat) : Fate := match k with 9%nat => AnswerLost | _ => HttpClient.Answered end.
Lemma published_but_reported_failed :
  let '(r, c) := upload_over last_lost false 7%N begin_ in
  exit_code r = FAILURE /\ (n_name <$> nodes (repo (server c)) !! 7%N) = Some file_called.
Proof. vm_compute. by split. Qed.

(** *** [config-check] *)

Definition loopback_env : list (string * string) :=
  [("API_TOKEN", "0123456789abcdef"); ("OBJECT_STORE_PATH", "/srv/objects");
   ("MASTER_KEY", "000102030405060708090a0b0c0d0e0f000102030405060708090A0B0C0D0E0F")]%string.
Lemma check_means_start_witness : exists run,
  Startup.main ConfigFacts.no_addr tt (fun _ _ => true) (fun _ => true) (ConfigFacts.setting loopback_env) = Ok run.
Proof.
  destruct (check_means_start ConfigFacts.no_addr tt (ConfigFacts.setting loopback_env) (fun _ _ => true) (fun _ => true)) as [Hstart _].
  specialize (Hstart ltac:(vm_compute; reflexivity)).
  destruct (Startup.main ConfigFacts.no_addr tt (fun _ _ => true) (fun _ => true) (ConfigFacts.setting loopback_env)) as [run|e] eqn:Hm.
  - exists run. reflexivity.
  - exfalso. destruct Hstart as [-> |[path ->]]; vm_compute in Hm; discriminate Hm.
Defined.

(** Webhooks that are named only in the list are enough for the server, and not for the
    check. *)
Lemma listed_webhooks_refused :
  (config_check ConfigFacts.no_addr tt (ConfigFacts.setting ConfigFacts.deployment)).2 = FAILURE /\
  exists run, Startup.main ConfigFacts.no_addr tt (fun _ _ => true) (fun _ => true) (ConfigFacts.setting ConfigFacts.deployment) = Ok run.
Proof. split; [vm_compute; reflexivity|]. eexists. vm_compute. reflexivity. Qed.

(** A schema name the repository refuses passes the check. *)
Definition bad_schema : list (string * string) := (("DATABASE_URL", "postgres://db") :: ("DATABASE_SCHEMA", "Bad-Name") :: loopback_env)%string.
Lemma bad_schema_passes :
  (config_check ConfigFacts.no_addr tt (ConfigFacts.setting bad_schema)).2 = SUCCESS /\ Pg.validate_schema_name (str "Bad-Name") = false.
Proof. split; vm_compute; reflexivity. Qed.

End CliExample.
