(* ===== verification/Findings.v ===== *)
(** * What the model shows the code to get wrong

    Concrete runs of the handlers, in the world of [Example], that end where their
    comments or POSIX say they should not. Each is a closed evaluation. *)
From S2P Require Import Prelude Core Crypto ObjectStore Repository Locks Server Data DataSpec DataWrite Example Gc Nodes Versions.

Module Findings.
Import Records AppState Example.

Definition sched : nat -> nat := fun n => n.
Definition set_size (size : Z) : M MemoryObjectStore.t Nodes.NodeResponse :=
  Nodes.patch_node file {| Nodes.pn_mode := None; Nodes.pn_uid := None; Nodes.pn_gid := None;
    Nodes.pn_size := Some size; Nodes.pn_mtime := None; Nodes.pn_atime := None |}.
Definition write (offset : Z) (s : string) : M MemoryObjectStore.t Z := Data.write_bytes config file offset (text s).
Definition read_all : M MemoryObjectStore.t (bytes * bool) := Data.read_bytes config sched file None None.
Definition collect (retention : Z) : M MemoryObjectStore.t unit := fun w =>
  match Gc.collect_once retention w with (Ok _, w') => (Ok tt, w') | (Err _, w') => (Err Panic, w') end.

(** Truncating a file during a write is undone by the sync that follows: the commit
    takes the size of the working version, which the truncation did not change. *)
Lemma truncate_undone_by_sync :
  ((_ ← write 0 "hello world"; _ ← set_size 5; _ ← Data.commit_node file; read_all) empty_file).1
    = Ok (text "hello world", true).
Proof. vm_compute. reflexivity. Qed.

(** Truncating a committed file is undone by the next sweep, which resets every
    size to the one the committed version has. *)
Lemma truncate_undone_by_gc :
  ((_ ← write 0 "hello world"; _ ← Data.commit_node file; _ ← set_size 5; _ ← collect 100; read_all) empty_file).1
    = Ok (text "hello world", true).
Proof. vm_compute. reflexivity. Qed.

(** Bytes cut off by a truncation come back when the file grows again, where POSIX
    wants zeroes. *)
Lemma truncated_bytes_return :
  ((_ ← write 0 "hello world"; _ ← Data.commit_node file; _ ← set_size 1; _ ← write 7 "!"; read_all) empty_file).1
    = Ok (text "hello w!", false).
Proof. vm_compute. reflexivity. Qed.

(** An abandoned write hides what was committed: once a sweep has collected the
    objects only the abandoned version had, that version still answers reads,
    with zeroes in the parts it lost. *)
Lemma abandoned_write_hides_committed :
  ((_ ← write 0 "hello world"; _ ← Data.commit_node file; _ ← write 0 "HELL"; _ ← collect 0; read_all) empty_file).1
    = Ok (zeroes 4 ++ text "o wo" ++ zeroes 3, false).
Proof. vm_compute. reflexivity. Qed.

(** A file given a size before it has a version reads as empty, not as zeroes. *)
Lemma sized_file_reads_empty : ((_ ← set_size 5; read_all) empty_file).1 = Ok ([], true).
Proof. vm_compute. reflexivity. Qed.

(** A manifest with a short part in the middle is accepted, because the sizes add
    up, and its last bytes are unreachable. *)
Lemma short_part_loses_bytes :
  ((_ ← Versions.stage_version config file;
    _ ← Versions.upload_chunk config 100%N {| Versions.uc_chunk_index := 0; Versions.uc_plaintext_size := 2; Versions.uc_plaintext_hash := "" |} (text "ab");
    _ ← Versions.upload_chunk config 100%N {| Versions.uc_chunk_index := 1; Versions.uc_plaintext_size := 2; Versions.uc_plaintext_hash := "" |} (text "cd");
    _ ← Versions.commit_version 100%N {| Versions.cv_total_size := 4; Versions.cv_plaintext_hash := "";
          Versions.cv_expected_generation := 1; Versions.cv_expected_current_version := None |};
    read_all) empty_file).1 = Ok (text "ab" ++ zeroes 2, true).
Proof. vm_compute. reflexivity. Qed.

(** A directory can be renamed into itself, after which no path leads to it. *)
Lemma rename_into_itself :
  ((_ ← Nodes.rename_node Namespace.dir {| Nodes.rn_new_parent_id := Namespace.dir; Nodes.rn_new_name := text "x" |};
    Nodes.resolve_path (text "/a/b")) Namespace.small).1 = Err (Fail (AppErrors.not_found "path not found")) /\
  is_ok (Nodes.rename_node Namespace.dir {| Nodes.rn_new_parent_id := Namespace.dir; Nodes.rn_new_name := text "x" |} Namespace.small).1
    = true.
Proof. vm_compute. split; reflexivity. Qed.

(** The constant overhead the configuration check uses is too small for parts above
    16 MiB. *)
Lemma overhead_constant_too_small : Crypto.CIPHERTEXT_OVERHEAD < Crypto.ciphertext_overhead (16 * 1024 * 1024 + 1).
Proof. vm_compute. reflexivity. Qed.

(** A part of 2 GiB records a negative size, and a part of no size reads as zeroes. *)
Lemma two_gib_part_reads_zeroes `{Aead} `{HashOrder} {S} `{Store.ObjectStore S} (state : Config) (w : World S) c a b :
  c_plaintext_size c = i32 (2 ^ 31) -> 0 <= a ->
  Data.read_chunk_slice state c a b w = (Ok (zeroes (saturating_sub b a)), w).
Proof.
  intros Hc Ha. unfold Data.read_chunk_slice. rewrite Hc. change (Z.max (i32 (2 ^ 31)) 0) with 0.
  rewrite (proj2 (Z.leb_le _ _)) by lia. done.
Qed.

End Findings.
